(* ===== verification/_CoqProject ===== *)
-Q . S2P
Prelude.v
MatchState.v
Binary.v
Utf8.v
Succinct.v
RankSelect.v
SuccinctSpec.v
DomainMatcher.v
SuccinctKeys.v
DomainMatcherSpec.v
DomainNames.v
Netip.v
Conn.v
Context.v
DNSMessage.v
RuleItem.v
Matching.v
Options.v
RuleActions.v
Concrete.v
RuleAbstract.v
RuleSemantics.v
RuleSpec.v
RuleFormula.v
RuleBuild.v
RuleBuildSpec.v
RuleSets.v
RuleOptions.v
FakeIP.v
FakeIPSpec.v
Saved.v
Srs.v
SrsSpec.v
SrsRules.v
CacheFile.v
CacheFileSpec.v
DNSRouter.v
DNSRouterSpec.v
DNSClient.v
DNSClientSpec.v
DNSWitness.v
DNSRuleSpec.v
AddressLimit.v
RuleWitness.v
Sniff.v
Router.v
RouterSpec.v
OutboundManager.v
OutboundStart.v
OutboundManagerSpec.v
Groups.v
GroupsSpec.v
Huffman.v
HuffmanSpec.v
Hpack.v
HpackTables.v
HpackCodec.v
HpackChunks.v
HpackSpec.v
HpackBlocks.v
HpackClaims.v
Rings.v
FreeLRU.v
FreeLRULinks.v
FreeLRUSteps.v
FreeLRUSpec.v
FreeLRURefine.v
FreeLRUShardedSpec.v
FreeLRUClaims.v
Ja3.v
QuicSniff.v
QuicPacket.v
QuicSniffSpec.v
QuicClaims.v
Sniffers.v
SniffersSpec.v
Balancer.v
BalancerSpec.v
TlsFragment.v
TlsFragmentSpec.v
