(* ===== verification/Prelude.v ===== *)
(** * Verification of the sing-box routing core

    The program is a proxy: inbounds accept connections and packets, the router ([route/])
    decides by rules where each goes, and outbounds ([protocol/]) carry it there.  This
    library models the part that decides, in Rocq functions that follow the Go source, and
    proves what makes it correct.

    ** The parts and how they interact

    A connection comes with its metadata ([adapter.InboundContext]).  The router walks over
    the rules of the configuration; a rule is a tree of items that read the metadata, with
    references to rule sets, and has an action.  Rules with the actions sniff, resolve and
    route-options change the metadata and what was read of the connection, the first rule
    with a final action decides, and the connection is handed to an outbound of the outbound
    manager, rejected, or handed to the DNS router.  The DNS router finds a server for a
    query by its own rules, asks it through the DNS client and checks the response against
    the rule.  A server may hand out fake addresses, which the cache file keeps over
    restarts.  Outbounds are created and started by a manager; a group is an outbound that
    chooses among others, by hand, by measurements or by a strategy that spreads connections.
    Rule sets are loaded from files in a binary form.  The DNS client and the load balancer
    keep responses and sessions in LRU caches, the first write of a connection may be cut into
    fragments, and HTTP/2 connections compress their headers with HPACK.

    ** Files and what they model (paths under src/)

    - The match engine.  [MatchState]: route/rule/match_state.go.  [RuleItem]: the items,
      route/rule/rule_item_*.go.  [RuleAbstract]: the evaluation of default and logical
      rules and of rule sets, route/rule/rule_abstract.go, rule_item_rule_set.go,
      rule_set_local.go.  [Context]: adapter/inbound.go.  [Netip]: net/netip and sing's
      Socksaddr.
    - Rules from options.  [Options]: option/rule*.go.  [RuleActions]:
      route/rule/rule_action.go.  [RuleBuild]: NewRule, NewDNSRule, NewHeadlessRule of
      route/rule/rule_default.go, rule_dns.go, rule_headless.go.  [RuleSets]: rule sets,
      their metadata and the start of rules.
    - Domain matchers of sing, replace/sing/common/domain.  [Utf8], [Binary]: the encodings
      of the standard library and of varbin.  [Succinct]: set.go, the succinct trie with its
      rank and select index.  [DomainMatcher]: matcher.go and adguard_matcher.go.
      [Matching]: the matchers as the instance the rule items are written against.
    - Rule set files.  [Srs]: common/srs.  [SrsRules]: reloadFile of a binary file.
    - The router.  [Conn]: replace/sing/common/bufio/cache.go and the reading side of nat.go.
      [Sniff]: common/sniff/sniff.go and actionSniff.  [Router]: route/route.go, route/process_cache.go.
    - Sniffers.  [Sniffers]: the sniffers of common/sniff but QUIC, in the module [Sniffer].
      [QuicSniff]: common/sniff/quic.go and internal/qtls.  [Ja3]: common/ja3.  Their calls
      end with a value, an error, a panic or not at all ([outcome] of [Binary]).
    - DNS.  [DNSMessage]: messages and their addresses.  [DNSRouter]: dns/router.go.
      [DNSClient]: dns/client.go, dns/extension_edns0_subnet.go.
    - Fake addresses and the cache file.  [FakeIP]: dns/transport/fakeip.  [Saved]:
      adapter/experimental.go, adapter/fakeip_metadata.go.  [CacheFile]:
      experimental/cachefile.
    - Outbounds.  [OutboundManager]: adapter/outbound, adapter/lifecycle*.go,
      protocol/invalid.  [Groups]: protocol/group/selector.go, urltest.go,
      common/urltest/urltest.go.  [Balancer]: protocol/group/balancer, with the float64
      arithmetic of its hash; a panic is [None].
    - [TlsFragment]: common/tlsfragment.
    - LRU caches, replace/sing/contrab/freelru.  [FreeLRU]: lru.go and, in the module
      [Sharded], shardedlru.go; an index out of range is [None].
    - HPACK, replace/x-net/http2/hpack.  [Huffman]: huffman.go and its tables.  [Hpack]: the
      tables, the encoder and the decoder.

    Go functions become functions of the same name, prefixed by the type of their receiver
    where names clash.  Structs are records, interfaces with few implementations inductive
    types.  A function that can fail returns [result]; a panic is an error that starts with
    panic.  State that a call changes is an argument and part of the result; pointers that
    are compared have an address ([OutboundManager]).  Unsigned integers are integers in
    [Z] with the wrap-around written out.  A slice is [None] when it is nil, where the code
    can tell nil from empty.  The time and what other parties answer are arguments.

    ** Code that is not in the repository

    Each is a class with the operations the program calls and, where a theorem relies on
    its behaviour, a class of named laws: [External] (regular expressions, IP sets, parsing
    of addresses), [SrsExternal] with [SrsLaws] (the ranges of an IP set, zlib), [Bolt] with
    [BoltLaws] (bbolt transactions), [EDNS] and [DNSNames] (miekg/dns).  Parts of the
    program are interfaces in the same way, so that clients are proved against them:
    [DomainMatching] (implemented by [Matching.succinctMatching]), [FakeIPStorage] with
    [FakeIPStorageLaws] (implemented by the memory storage and by the cache file),
    [DNSClient] (implemented by the client of [DNSClient.v]), [LRU] (implemented by the
    sharded cache, [FreeLRUClaims]), [RDRCStore], [DirectDialer], [Sniffing] (implemented by
    [SniffersSpec.realSniffing]).  The sniffers call [Parsers] (TLS, HTTP and DNS) and
    [Crypto] with [CryptoLaws] (HKDF, AES, GCM), the load balancer [BalancerExternal] (names,
    addresses as text, hashes), fragments the list of public suffixes and random numbers.  The files [Concrete], [RuleWitness] and
    [DNSWitness] and the last part of the files with theorems have concrete instances: each
    theorem with hypotheses is applied to one, and examples show what happens beyond the
    hypotheses.

    ** What the theorems show

    - [MatchState], [RuleSpec], [RuleFormula]: the packed evaluation computes exactly what a
      relational specification of rules allows, also while the destination address of a DNS
      query is deferred, where what is possible and what is definite differ; and from it the
      boolean formulas that the documentation gives for default rules, logical rules,
      inversion and rule sets.
    - [RuleBuildSpec], [RuleOptions]: a rule without rule sets built from its options decides
      by the documented formula over the options.
    - [DNSRuleSpec], [AddressLimit]: a DNS rule without address limit decides the same before
      the query as on any response, if its rule sets have no CIDR condition inside a logical
      rule.
    - [RankSelect], [SuccinctSpec], [SuccinctKeys], [DomainMatcherSpec], [DomainNames]: the
      succinct trie holds its keys and gives them back, and a domain matcher answers by the
      plain reading of its lists.  The AdGuard matcher is executable and is checked on the
      lists of the repository's test.
    - [SrsSpec], [SrsRules]: a rule set that is written is read back in its
      compiled form, and loading it gives the rules and metadata of its source.
    - [RouterSpec]: the first rule that holds and has a final action decides, the rules before
      it being passed over with their effects; what was read while sniffing reaches the
      outbound if there is one sniff rule at most; a routed connection reaches an existing
      outbound that supports it.
    - [DNSRouterSpec], [DNSClientSpec]: queries end (without rules that reject with the method
      reply), go to the server of the first rule, and
      are checked; the TTLs of cached responses, the memory of failures, the client subnet.
    - [FakeIPSpec], [CacheFileSpec], [Saved]: the fake address store is a ring of addresses,
      over a restart as well; what the cache file stores is loaded again.
    - [OutboundStart], [OutboundManagerSpec]: outbounds are started after their dependencies
      or the error names the reason; the indexes of the manager agree; a broken outbound
      becomes a placeholder; closing takes bounded time.
    - [GroupsSpec]: the selection of a selector is a member and survives a restart; a URL
      test group selects a member within the tolerance of the fastest.
    - [BalancerSpec]: a load balancer always finds a member; round robin serves the members
      that are fast enough in turn, sessions stay with their member, consistent hashing finds
      one that is alive, and the jump hash moves keys to a new bucket only.
    - [TlsFragmentSpec]: the fragments of a client hello are the hello again when they are put
      together, and are cut in its server name.
    - [QuicPacket], [QuicSniffSpec], [QuicClaims]: the client hello of a QUIC client is found
      in whatever packets and order its pieces come, and the three reasons for which the
      sniffer panics or does not end.  [SniffersSpec]: the other sniffers always end, and a
      message is recognised in whatever pieces the stream is read.
    - [Rings], [FreeLRULinks], [FreeLRUSteps], [FreeLRUSpec], [FreeLRURefine],
      [FreeLRUShardedSpec], [FreeLRUClaims]: the LRU cache, linked by index in an array,
      refines a list of entries by age, and the sharded cache one list for each shard; it
      gives the DNS client what it relies on.
    - [HuffmanSpec], [HpackTables], [HpackCodec], [HpackChunks], [HpackSpec], [HpackBlocks],
      [HpackClaims]: header blocks are decoded to the fields that were encoded, in whatever
      fragments they come, and no input makes the decoder panic or exceed its table.

    ** Bounds and fuel

    Loops that are not structural take fuel, and a lemma shows that it is never used up:
    reading uvarints and items (every round takes a byte, the fuel is the number of bytes),
    the construction of the trie (one round per node, at most one node per byte of the keys
    and one), listing the keys of a trie (at most two rounds per bit of its bitmap), the scans
    of a bitmap (one round per bit), the walks along the links of an LRU cache (one round per
    element), the extensions of a client hello and the frames of a packet (every round takes
    a byte), the fragments of a client hello (each one is used once, if none is empty: the
    loop of the source does not end otherwise), the search for a server name to cut (every
    round takes a byte in less than 64 KiB; the source may not end on more), the jump hash (the
    bucket grows), the search for the dependencies of an outbound (the tags on the path
    differ), the start of outbounds (every pass starts one), the DNS router (every round passes
    a rule).  [readRule] stops at the
    depth the source gives, 100.  The theorems about the succinct set assume fewer than 2^29
    bytes of keys, as positions are int32 in the source.  The buffers for sniffing are those of
    the standard build, 16 KiB.  Every hypothesis that leaves out a case that can occur is named
    in the comment of its theorem, and examples show what happens there.

    ** Not modelled

    - Network I/O and protocols: inbounds, outbounds, DNS transports, dialers, TLS, QUIC,
      HTTP/2 and the data transfer of connections.  They read and write sockets and call
      cryptography that is not in the repository; an outbound is what its methods answer.
    - The parsers of TLS, HTTP and DNS messages that the sniffers call in the libraries; they
      are parameters.  [SniffContext] is in the state of the QUIC sniffer only.
    - JSON decoding of options (reflection over struct tags), logging, and the String and
      Description methods, which decide nothing.
    - Concurrency: a handler is one step.  Where goroutines share state the order of their
      effects is an argument, as in [CallEnv] of the DNS client, or does not matter, as in
      [urlTest]; locks are not modelled.
    - Remote rule sets, the Clash and V2Ray APIs, the command line, platform interfaces:
      HTTP, timers and operating system calls.
    - The managers of inbounds, endpoints and services repeat the outbound manager without
      dependencies; the monitor that measures the members of a load balancer, and the rest of
      the fork of x/net, are left out.
    - The wrappers that connection trackers put around a routed connection.
    - Infinities and the limits of float64 exponents: the numbers of the load balancer are far
      from them.  The rounding of [Duration.Seconds] in the DNS client, which only shows when
      an entry has 2^24 seconds left. *)

From stdpp Require Export base list strings gmap numbers pretty.
From Stdlib Require Export Strings.Byte.
From Stdlib Require Ascii.
Export Ascii.AsciiSyntax.
Delimit Scope char_scope with char.
#[export] Set Warnings "-clear-no-such-hyp".

Open Scope Z_scope.

Declare Scope go_scope.
Delimit Scope go_scope with go.

(** ** Machine integers

    A Go unsigned integer of [w] bits is an integer of [Z] kept in [0, 2^w). *)

Definition wrap (w z : Z) : Z := z mod 2 ^ w.

Notation "'u8' z" := (wrap 8 z) (at level 10, z at level 9) : go_scope.
Notation "'u16' z" := (wrap 16 z) (at level 10, z at level 9) : go_scope.
Notation "'u32' z" := (wrap 32 z) (at level 10, z at level 9) : go_scope.
Notation "'u64' z" := (wrap 64 z) (at level 10, z at level 9) : go_scope.
Open Scope go_scope.

(** The values of an unsigned type, as a predicate. *)
Definition fits (w z : Z) : Prop := 0 <= z < 2 ^ w.

#[global] Instance fits_dec w z : Decision (fits w z).
Proof. unfold fits. apply _. Defined.

Lemma wrap_fits w z : 0 <= w -> fits w (wrap w z).
Proof. intros Hw. apply Z.mod_pos_bound. by apply Z.pow_pos_nonneg. Qed.

Lemma wrap_id w z : fits w z -> wrap w z = z.
Proof. apply Z.mod_small. Qed.

Lemma testbit_wrap w z i : 0 <= w -> 0 <= i < w -> Z.testbit (wrap w z) i = Z.testbit z i.
Proof. intros. unfold wrap. by rewrite Z.mod_pow2_bits_low by lia. Qed.

Lemma fits_testbit w z i : fits w z -> w <= i -> 0 <= w -> Z.testbit z i = false.
Proof.
  intros Hf Hi Hw. rewrite <- (wrap_id w z Hf). apply Z.mod_pow2_bits_high. lia.
Qed.

(** Two values of the same unsigned type with the same bits are equal. *)
Lemma fits_ext w a b :
  0 <= w -> fits w a -> fits w b ->
  (forall i, 0 <= i < w -> Z.testbit a i = Z.testbit b i) -> a = b.
Proof.
  intros Hw Ha Hb H. apply Z.bits_inj'. intros i Hi.
  destruct (decide (i < w)) as [|Hge]; [by apply H|].
  by rewrite (fits_testbit w a), (fits_testbit w b) by (done || lia).
Qed.

Lemma fits_lor w a b : 0 <= w -> fits w a -> fits w b -> fits w (Z.lor a b).
Proof.
  intros Hw Ha Hb.
  assert (Hnn : 0 <= Z.lor a b) by (apply Z.lor_nonneg; unfold fits in *; lia).
  cut (wrap w (Z.lor a b) = Z.lor a b); [intros <-; by apply wrap_fits|].
  unfold wrap. rewrite <- Z.land_ones by lia. apply Z.bits_inj'. intros i Hi.
  rewrite Z.land_spec, Z.lor_spec.
  destruct (decide (i < w)) as [|Hge].
  - rewrite Z.ones_spec_low by lia. by rewrite andb_true_r.
  - rewrite (fits_testbit w a), (fits_testbit w b) by (done || lia). done.
Qed.

Lemma fits_0 w : 0 <= w -> fits w 0.
Proof. intros. unfold fits. split; [lia|]. by apply Z.pow_pos_nonneg. Qed.

Create HintDb go discriminated.
#[export] Hint Resolve wrap_fits fits_lor fits_0 : go.
#[export] Hint Extern 1 (0 <= _) => lia : go.

(** ** Lists *)

Lemma exists_elem_of_cons {A} (P : A -> Prop) x l :
  (exists z, z ∈ x :: l /\ P z) <-> P x \/ exists z, z ∈ l /\ P z.
Proof.
  split.
  - intros (z & [->|Hz]%elem_of_cons & HP); eauto.
  - intros [HP|(z & Hz & HP)]; eexists; (split; [|done]); [by left|by right].
Qed.

Lemma forall_elem_of_cons {A} (P : A -> Prop) x l :
  (forall z, z ∈ x :: l -> P z) <-> P x /\ forall z, z ∈ l -> P z.
Proof.
  split.
  - intros H. split; [apply H; by left|]. intros z Hz. apply H. by right.
  - intros [HP H] z [->|Hz]%elem_of_cons; eauto.
Qed.

(** ** Errors

    A Go function returning [(T, error)] is a function into [result T].  An error
    is its message; [E_Cause err msg] is [E.Cause], which prefixes the message. *)

Abbreviation error := string.

Inductive result (A : Type) :=
  | Ok (a : A)
  | Err (e : error).
Arguments Ok {A} a.
Arguments Err {A} e.

#[global] Instance result_ret : MRet result := fun A a => Ok a.
#[global] Instance result_bind : MBind result := fun A B f m =>
  match m with Ok a => f a | Err e => Err e end.

Definition isOk {A} (r : result A) : bool :=
  match r with Ok _ => true | Err _ => false end.

(** [len(l) > 0] *)
Definition nonempty {A} (l : list A) : bool := match l with [] => false | _ => true end.

(** A Go [panic] with its message. *)
Definition panic {A} (message : string) : result A := Err ("panic: " +:+ message)%string.

Definition E_Cause (err : error) (msg : string) : error :=
  (msg +:+ ": " +:+ err)%string.

(** Rewrites the error of a failed call, as [if err != nil { return E.Cause(...) }]. *)
Definition causing {A} (msg : string) (r : result A) : result A :=
  match r with Ok a => Ok a | Err e => Err (E_Cause e msg) end.

(** A loop over a slice that stops at the first error, collecting the results. *)
Fixpoint mapR {A B} (f : A -> result B) (l : list A) : result (list B) :=
  match l with
  | [] => Ok []
  | x :: l => y ← f x; ys ← mapR f l; Ok (y :: ys)
  end.

(** Linear arithmetic with quotients and remainders *)
Ltac divlia := Z.to_euclidean_division_equations; lia.

(** Splits the binds of a hypothesis about a call that succeeded. *)
Ltac ok_inv :=
  repeat match goal with
  | H : mbind _ ?m = Ok _ |- _ =>
      let E := fresh "E" in destruct m eqn:E; simpl in H; [|discriminate H]
  | H : causing _ ?m = Ok _ |- _ =>
      let E := fresh "E" in destruct m eqn:E; simpl in H; [|discriminate H]
  | H : Ok _ = Ok _ |- _ => injection H as H; subst
  | H : Err _ = Ok _ |- _ => discriminate H
  | H : match ?m with Ok _ => _ | Err _ => Err _ end = Ok _ |- _ =>
      let E := fresh "E" in destruct m eqn:E; simpl in H; [|discriminate H]
  | H : (if ?b then Err _ else _) = Ok _ |- _ =>
      let E := fresh "E" in destruct b eqn:E; [discriminate H|]
  | H : (if ?b then _ else Err _) = Ok _ |- _ =>
      let E := fresh "E" in destruct b eqn:E; [|discriminate H]
  end.

Lemma bind_ok {A B} (m : result A) (f : A -> result B) y :
  (x ← m; f x) = Ok y <-> exists x, m = Ok x /\ f x = Ok y.
Proof.
  destruct m as [x|e]; simpl; split; [by exists x|by intros (? & [= <-] & ?)|done|].
  by intros (? & ? & _).
Qed.

Lemma bind_Ok {A B} (f : A -> result B) m x : m = Ok x -> (m ≫= f) = f x.
Proof. by intros ->. Qed.

Lemma causing_ok {A} msg (m : result A) y : causing msg m = Ok y <-> m = Ok y.
Proof. by destruct m. Qed.

Lemma mapR_ok {A B} (f : A -> result B) l ys :
  mapR f l = Ok ys <-> Forall2 (fun x y => f x = Ok y) l ys.
Proof.
  revert ys. induction l as [|x l IH]; intros ys; simpl.
  - split; [intros [= <-]; constructor|]. by intros ->%Forall2_nil_inv_l.
  - split.
    + intros H. ok_inv. constructor; [done|]. by apply IH.
    + intros (y & ys' & Hy & Hl & ->)%Forall2_cons_inv_l. rewrite Hy. simpl.
      apply IH in Hl. by rewrite Hl.
Qed.

(** ** Disjunctions over lists *)

Lemma existsb_ext' {A} (f g : A -> bool) l : (forall x, f x = g x) -> existsb f l = existsb g l.
Proof. intros Hfg. induction l as [|x l IH]; [done|]. simpl. by rewrite Hfg, IH. Qed.

Lemma existsb_never {A} (l : list A) : existsb (fun _ => false) l = false.
Proof. by induction l. Qed.

Lemma existsb_and {A} (b : bool) (f : A -> bool) l :
  existsb (fun x => b && f x) l = b && existsb f l.
Proof. destruct b; [done|]. by induction l. Qed.

Lemma existsb_or {A} (f g : A -> bool) l :
  existsb (fun x => f x || g x) l = existsb f l || existsb g l.
Proof. induction l as [|x l IH]; [done|]. simpl. rewrite IH. by destruct (f x), (g x), (existsb f l). Qed.

Lemma existsb_swap {A B} (f : A -> B -> bool) l k :
  existsb (fun x => existsb (f x) k) l = existsb (fun y => existsb (fun x => f x y) l) k.
Proof.
  apply eq_true_iff_eq. rewrite !existsb_exists. setoid_rewrite existsb_exists. naive_solver.
Qed.

(** ** Maps from keys to booleans

    [make(map[K]bool)] filled by a loop over a slice; reading a missing key gives
    [false]. *)

Section gomap.
Context {K : Type} `{Countable K}.

Definition makeSet (l : list K) : gmap K bool :=
  foldl (fun m k => <[k := true]> m) ∅ l.

Definition mapGet (m : gmap K bool) (k : K) : bool := default false (m !! k).

Lemma mapGet_makeSet l k : mapGet (makeSet l) k = bool_decide (k ∈ l).
Proof.
  unfold makeSet.
  cut (forall m, mapGet (foldl (fun m k => <[k := true]> m) m l) k =
                 mapGet m k || bool_decide (k ∈ l)); [intros ->; done|].
  induction l as [|x l IH]; intros m; simpl.
  - by rewrite orb_false_r.
  - rewrite IH. unfold mapGet. destruct (decide (x = k)) as [->|Hne].
    + rewrite lookup_insert_eq. simpl.
      by rewrite bool_decide_true, orb_true_r by (by left).
    + rewrite lookup_insert_ne by done. f_equal. apply bool_decide_ext.
      rewrite elem_of_cons. naive_solver.
Qed.

Lemma mapGet_one l v :
  mapGet (makeSet l) v = existsb (fun s => bool_decide (v = s)) l.
Proof.
  rewrite mapGet_makeSet. induction l as [|x l IH]; [done|]. simpl. rewrite <- IH.
  apply eq_true_iff_eq. rewrite orb_true_iff, !bool_decide_eq_true. rewrite elem_of_cons. naive_solver.
Qed.
End gomap.

(** ** Strings (Go's [strings] and [strconv]) *)

Section gostrings.

(** [strings.HasPrefix s pre] *)
Definition strings_HasPrefix (s pre : string) : bool := String.prefix pre s.

(** [strings.Contains s sub] *)
Fixpoint strings_Contains (s sub : string) : bool :=
  String.prefix sub s ||
  match s with
  | EmptyString => false
  | String _ s' => strings_Contains s' sub
  end.

(** [strings.Join l sep] *)
Definition strings_Join (l : list string) (sep : string) : string := String.concat sep l.

Definition isASCII (s : string) : bool :=
  forallb (fun c => Ascii.N_of_ascii c <? 128)%N (String.list_ascii_of_string s).

Definition lowerAscii (c : Ascii.ascii) : Ascii.ascii :=
  let n := Ascii.N_of_ascii c in
  if ((65 <=? n) && (n <=? 90))%N then Ascii.ascii_of_N (n + 32) else c.

Fixpoint lowerString (s : string) : string :=
  match s with
  | EmptyString => EmptyString
  | String c s' => String (lowerAscii c) (lowerString s')
  end.

(** The digits of an unsigned decimal number read from the left, [None] at the
    first character that is not a digit. *)
Fixpoint parseDigits (acc : Z) (s : string) : option Z :=
  match s with
  | EmptyString => Some acc
  | String c s' =>
      let d := Z.of_N (Ascii.N_of_ascii c) - 48 in
      if (0 <=? d) && (d <=? 9) then parseDigits (acc * 10 + d) s' else None
  end.

(** [strconv.ParseUint s 10 bitSize] *)
Definition strconv_ParseUint (s : string) (bitSize : Z) : result Z :=
  match s with
  | EmptyString => Err "invalid syntax"
  | _ =>
      match parseDigits 0 s with
      | None => Err "invalid syntax"
      | Some v => if v <? 2 ^ bitSize then Ok v else Err "value out of range"
      end
  end.

(** [strings.Index s ":"], the text before and after the first separator *)
Fixpoint cutAt (sep : Ascii.ascii) (s : string) : option (string * string) :=
  match s with
  | EmptyString => None
  | String c s' =>
      if Ascii.eqb c sep then Some (EmptyString, s')
      else match cutAt sep s' with
           | Some (a, b) => Some (String c a, b)
           | None => None
           end
  end.
End gostrings.

Lemma parseDigits_nonneg s acc v : 0 <= acc -> parseDigits acc s = Some v -> 0 <= v.
Proof.
  revert acc. induction s as [|c s IH]; intros acc Ha; simpl; [congruence|].
  destruct (_ && _) eqn:E; [|done]. apply andb_true_iff in E as [E%Z.leb_le _].
  apply IH. lia.
Qed.

Lemma ParseUint_fits s w v : 0 <= w -> strconv_ParseUint s w = Ok v -> fits w v.
Proof.
  unfold strconv_ParseUint. intros Hw H. destruct s; [done|].
  destruct (parseDigits 0 _) as [x|] eqn:E; [|done].
  destruct (x <? 2 ^ w) eqn:El; [|done]. injection H as <-.
  apply Z.ltb_lt in El. apply parseDigits_nonneg in E; [|done]. done.
Qed.

Lemma cutAt_spec sep s a b :
  cutAt sep s = Some (a, b) -> s = (a +:+ String sep b)%string.
Proof.
  revert a b. induction s as [|c s IH]; intros a b; simpl; [done|].
  destruct (Ascii.eqb_spec c sep) as [->|Hne].
  - intros [= <- <-]. done.
  - destruct (cutAt sep s) as [[a' b']|]; [|done]. intros [= <- <-]. simpl.
    by rewrite (IH a' b').
Qed.
