(* ===== verification/MatchState.v ===== *)
(** * Match states of the rule engine ([route/rule/match_state.go])

    A [ruleMatchState] is a set of four bits: which of the grouped conditions
    (source address, source port, destination address, destination port) a
    branch of the evaluation has satisfied.  A [ruleMatchStateSet] is a set of
    such states packed into a [uint16], bit [i] standing for state [i].  The
    file models the packed operations as they are written and proves that they
    implement the operations of a mathematical set of states. *)

From S2P Require Import Prelude.

Abbreviation ruleMatchState := Z.
Abbreviation ruleMatchStateSet := Z.

Definition ruleMatchSourceAddress : ruleMatchState := 1.
Definition ruleMatchSourcePort : ruleMatchState := 2.
Definition ruleMatchDestinationAddress : ruleMatchState := 4.
Definition ruleMatchDestinationPort : ruleMatchState := 8.

(** [func (s ruleMatchState) has(target) bool] *)
Definition has (s target : ruleMatchState) : bool := negb (Z.land s target =? 0).

(** [1 << state] at type [uint16] *)
Definition singleRuleMatchState (state : ruleMatchState) : ruleMatchStateSet :=
  u16 (Z.shiftl 1 state).

Definition emptyRuleMatchState : ruleMatchStateSet := singleRuleMatchState 0.

Definition isEmpty (s : ruleMatchStateSet) : bool := s =? 0.

Definition contains (s : ruleMatchStateSet) (state : ruleMatchState) : bool :=
  negb (Z.land s (u16 (Z.shiftl 1 state)) =? 0).

Definition add (s : ruleMatchStateSet) (state : ruleMatchState) : ruleMatchStateSet :=
  Z.lor s (singleRuleMatchState state).

Definition merge (s other : ruleMatchStateSet) : ruleMatchStateSet := Z.lor s other.

(** [range ruleMatchState(16)] *)
Definition allStates : list ruleMatchState := seqZ 0 16.

(** The two nested loops of [combine], the inner one started from [combined]. *)
Definition combineRow (other : ruleMatchStateSet) (left : ruleMatchState)
    (combined : ruleMatchStateSet) : ruleMatchStateSet :=
  foldl (fun combined right =>
           if negb (contains other right) then combined
           else add combined (Z.lor left right))
        combined allStates.

Definition combine (s other : ruleMatchStateSet) : ruleMatchStateSet :=
  if isEmpty s || isEmpty other then 0
  else foldl (fun combined left =>
                if negb (contains s left) then combined
                else combineRow other left combined)
             0 allStates.

Definition withBase (s : ruleMatchStateSet) (base : ruleMatchState) : ruleMatchStateSet :=
  if isEmpty s then 0
  else foldl (fun acc state =>
                if negb (contains s state) then acc else add acc (Z.lor state base))
             0 allStates.

Definition filterStates (s : ruleMatchStateSet) (allowed : ruleMatchState -> bool)
    : ruleMatchStateSet :=
  foldl (fun filtered state =>
           if negb (contains s state) then filtered
           else if allowed state then add filtered state else filtered)
        0 allStates.

(** ** Sets of states

    The specification: a packed set stands for the finite set of the states it
    contains. *)

Definition isState (x : ruleMatchState) : Prop := fits 4 x.

Definition wfSet (s : ruleMatchStateSet) : Prop := fits 16 s.

Definition states (s : ruleMatchStateSet) : gset Z :=
  list_to_set (filter (fun x => contains s x = true) allStates).

Lemma elem_of_allStates x : x ∈ allStates <-> isState x.
Proof. unfold allStates, isState, fits. rewrite elem_of_seqZ. lia. Qed.

Lemma single_pow2 x : isState x -> singleRuleMatchState x = 2 ^ x.
Proof.
  unfold isState, fits, singleRuleMatchState. intros Hx.
  rewrite Z.shiftl_mul_pow2, Z.mul_1_l by lia. apply wrap_id. split; [lia|].
  apply Z.pow_lt_mono_r; lia.
Qed.

Lemma contains_testbit s x : isState x -> contains s x = Z.testbit s x.
Proof.
  intros Hx. unfold contains.
  change (u16 (Z.shiftl 1 x)) with (singleRuleMatchState x). rewrite single_pow2 by done.
  assert (Hnn : 0 <= x) by (unfold isState, fits in Hx; lia).
  destruct (Z.testbit s x) eqn:Hb.
  - apply negb_true_iff, Z.eqb_neq. intros H0.
    apply (f_equal (fun z => Z.testbit z x)) in H0.
    by rewrite Z.land_spec, Hb, Z.pow2_bits_true, Z.bits_0 in H0.
  - apply negb_false_iff, Z.eqb_eq. apply Z.bits_inj'. intros i Hi.
    rewrite Z.land_spec, Z.bits_0. destruct (decide (i = x)) as [->|Hne].
    + by rewrite Hb.
    + rewrite Z.pow2_bits_false by done. apply andb_false_r.
Qed.

Lemma elem_of_states s x : x ∈ states s <-> isState x /\ contains s x = true.
Proof.
  unfold states. rewrite elem_of_list_to_set, list_elem_of_filter, elem_of_allStates. tauto.
Qed.

Lemma single_wf x : wfSet (singleRuleMatchState x).
Proof. by apply wrap_fits. Qed.

Lemma add_wf s x : wfSet s -> wfSet (add s x).
Proof. intros. apply fits_lor; [lia|done|apply single_wf]. Qed.

Lemma merge_wf s t : wfSet s -> wfSet t -> wfSet (merge s t).
Proof. intros. by apply fits_lor. Qed.

#[export] Hint Resolve single_wf add_wf merge_wf : go.

Lemma contains_0 x : contains 0 x = false.
Proof. done. Qed.

Lemma contains_add s x y :
  isState x -> isState y -> contains (add s x) y = contains s y || bool_decide (x = y).
Proof.
  intros Hx Hy. rewrite !contains_testbit by done. unfold add. rewrite Z.lor_spec. f_equal.
  rewrite single_pow2 by done. unfold isState, fits in *. case_bool_decide as E.
  - subst. apply Z.pow2_bits_true. lia.
  - apply Z.pow2_bits_false. done.
Qed.

Lemma contains_merge s t x :
  isState x -> contains (merge s t) x = contains s x || contains t x.
Proof. intros. rewrite !contains_testbit by done. apply Z.lor_spec. Qed.

Lemma isState_lor x y : isState x -> isState y -> isState (Z.lor x y).
Proof. intros. by apply fits_lor. Qed.

#[export] Hint Resolve isState_lor : go.

(** A packed set is determined by the states it contains. *)
Lemma set_ext s t :
  wfSet s -> wfSet t -> (forall x, isState x -> contains s x = contains t x) -> s = t.
Proof.
  intros Hs Ht H. apply (fits_ext 16); [lia|done|done|].
  intros i Hi. rewrite <- !contains_testbit by done. by apply H.
Qed.

Lemma states_inj s t : wfSet s -> wfSet t -> states s = states t -> s = t.
Proof.
  intros Hs Ht E. apply set_ext; [done..|]. intros x Hx.
  assert (x ∈ states s <-> x ∈ states t) as H by (by rewrite E).
  rewrite !elem_of_states in H.
  destruct (contains s x), (contains t x); intuition congruence.
Qed.

Lemma isEmpty_states s : wfSet s -> isEmpty s = true <-> states s = ∅.
Proof.
  intros Hs. unfold isEmpty. rewrite Z.eqb_eq. split.
  - intros ->. apply set_eq. intros x. rewrite elem_of_states. set_solver.
  - intros E. apply states_inj; [done|by apply fits_0|]. rewrite E.
    symmetry. apply set_eq. intros x. rewrite elem_of_states. set_solver.
Qed.

(** Shared shape of every loop: fold over a list of states, adding some. *)
Section fold_add.
Context (p : Z -> bool) (f : Z -> Z).

Lemma fold_add_spec l s y :
  isState y -> (forall x, x ∈ l -> isState (f x)) ->
  contains (foldl (fun acc x => if p x then add acc (f x) else acc) s l) y = true <->
  contains s y = true \/ exists x, x ∈ l /\ p x = true /\ f x = y.
Proof.
  intros Hy. revert s. induction l as [|x l IH]; intros s Hl; simpl.
  - split; [by left|]. by intros [?|(? & Hx%elem_of_nil & _)].
  - rewrite IH by (intros; apply Hl; by right).
    rewrite (exists_elem_of_cons (fun z => p z = true /\ f z = y)).
    destruct (p x) eqn:Hp.
    + rewrite contains_add by (try apply Hl; by try left).
      rewrite orb_true_iff, bool_decide_eq_true. tauto.
    + intuition discriminate.
Qed.

Lemma fold_add_wf l s :
  wfSet s -> wfSet (foldl (fun acc x => if p x then add acc (f x) else acc) s l).
Proof.
  revert s. induction l as [|x l IH]; intros s Hs; simpl; [done|].
  apply IH. destruct (p x); auto with go.
Qed.
End fold_add.

(** The loops of the code test the negation first; [fold_add] is the same loop. *)
Lemma fold_negb (p : Z -> bool) (g : Z -> Z -> Z) l s :
  foldl (fun acc x => if negb (p x) then acc else g acc x) s l =
  foldl (fun acc x => if p x then g acc x else acc) s l.
Proof. revert s. induction l as [|x l IH]; intros s; simpl; [done|]. by destruct (p x). Qed.

Lemma combineRow_spec other left c y :
  isState left -> isState y ->
  contains (combineRow other left c) y = true <->
  contains c y = true \/
  exists right, isState right /\ contains other right = true /\ Z.lor left right = y.
Proof.
  intros Hl Hy. unfold combineRow. rewrite fold_negb, fold_add_spec; [|done|].
  - by setoid_rewrite elem_of_allStates.
  - intros x Hx%elem_of_allStates. auto with go.
Qed.

Lemma combineRow_wf other left c : wfSet c -> wfSet (combineRow other left c).
Proof. intros. unfold combineRow. rewrite fold_negb. by apply fold_add_wf. Qed.

Lemma combine_loop s other y l acc :
  isState y -> (forall x, x ∈ l -> isState x) ->
  contains (foldl (fun combined left =>
                     if contains s left then combineRow other left combined else combined)
                  acc l) y = true <->
  contains acc y = true \/
  exists left, left ∈ l /\ contains s left = true /\
  exists right, isState right /\ contains other right = true /\ Z.lor left right = y.
Proof.
  intros Hy. revert acc. induction l as [|x l IH]; intros acc Hl; simpl.
  - split; [by left|]. by intros [?|(? & Hx%elem_of_nil & _)].
  - rewrite IH by (intros; apply Hl; by right).
    rewrite (exists_elem_of_cons (fun left => contains s left = true /\
      exists right, isState right /\ contains other right = true /\ Z.lor left right = y)).
    destruct (contains s x) eqn:Hs.
    + rewrite combineRow_spec by (done || apply Hl; by left). tauto.
    + intuition discriminate.
Qed.

Lemma isEmpty_contains s : isEmpty s = true -> forall x, contains s x = false.
Proof. unfold isEmpty. by intros ->%Z.eqb_eq. Qed.

Lemma combine_spec s other y :
  isState y ->
  contains (combine s other) y = true <->
  exists left right, isState left /\ isState right /\ contains s left = true /\
    contains other right = true /\ Z.lor left right = y.
Proof.
  intros Hy. unfold combine. destruct (isEmpty s || isEmpty other) eqn:E.
  - rewrite contains_0. split; [done|]. intros (l & r & _ & _ & Hl & Hr & _).
    apply orb_true_iff in E as [E|E].
    + by rewrite (isEmpty_contains _ E) in Hl.
    + by rewrite (isEmpty_contains _ E) in Hr.
  - rewrite fold_negb, combine_loop, contains_0; [|done|by intros ? ?%elem_of_allStates].
    split.
    + intros [?|(l & ?%elem_of_allStates & ? & r & ? & ? & ?)]; [done|]. by exists l, r.
    + intros (l & r & ? & ? & ? & ? & ?). right. exists l.
      rewrite elem_of_allStates. split_and!; [done..|]. by exists r.
Qed.

Lemma combine_wf s other : wfSet (combine s other).
Proof.
  unfold combine. destruct (_ || _); [by apply fits_0|]. rewrite fold_negb.
  cut (forall l acc, wfSet acc ->
         wfSet (foldl (fun c left => if contains s left then combineRow other left c else c)
                  acc l)); [intros H; apply H; by apply fits_0|].
  induction l as [|x l IH]; intros acc Hacc; simpl; [done|].
  apply IH. destruct (contains s x); auto using combineRow_wf.
Qed.

Lemma withBase_spec s base y :
  isState y -> isState base ->
  contains (withBase s base) y = true <->
  exists x, isState x /\ contains s x = true /\ Z.lor x base = y.
Proof.
  intros Hy Hb. unfold withBase. destruct (isEmpty s) eqn:E.
  - rewrite contains_0. split; [done|]. intros (x & _ & Hx & _).
    by rewrite (isEmpty_contains _ E) in Hx.
  - rewrite fold_negb, (fold_add_spec (contains s) (fun x => Z.lor x base)), contains_0.
    + setoid_rewrite elem_of_allStates. intuition discriminate.
    + done.
    + intros x Hx%elem_of_allStates. auto with go.
Qed.

Lemma withBase_wf s base : wfSet (withBase s base).
Proof.
  unfold withBase. destruct (isEmpty s); [by apply fits_0|]. rewrite fold_negb.
  apply fold_add_wf. by apply fits_0.
Qed.

Lemma filterStates_fold s allowed :
  filterStates s allowed =
  foldl (fun acc x => if contains s x && allowed x then add acc x else acc) 0 allStates.
Proof.
  unfold filterStates. generalize (0 : Z). induction allStates as [|x l IH]; [done|].
  intros acc. simpl. rewrite IH. by destruct (contains s x), (allowed x).
Qed.

Lemma filterStates_spec s allowed y :
  isState y -> contains (filterStates s allowed) y = contains s y && allowed y.
Proof.
  intros Hy. apply eq_true_iff_eq. rewrite filterStates_fold.
  rewrite (fold_add_spec (fun x => contains s x && allowed x) id), contains_0.
  - setoid_rewrite elem_of_allStates. rewrite andb_true_iff. split.
    + intros [?|(x & _ & [? ?]%andb_true_iff & <-)]; done.
    + intros [Hs Ha]. right. exists y. by rewrite Hs, Ha.
  - done.
  - by intros x Hx%elem_of_allStates.
Qed.

Lemma filterStates_ext s p q :
  (forall x, p x = q x) -> filterStates s p = filterStates s q.
Proof.
  intros Hpq. rewrite !filterStates_fold. generalize (0 : Z).
  induction allStates as [|x l IH]; intros acc; simpl; [done|]. by rewrite Hpq, IH.
Qed.

Lemma filterStates_wf s allowed : wfSet (filterStates s allowed).
Proof. rewrite filterStates_fold. apply (fold_add_wf _ id). by apply fits_0. Qed.

#[export] Hint Resolve combine_wf withBase_wf filterStates_wf : go.

(** ** The refinement *)

Lemma states_merge s t : states (merge s t) = states s ∪ states t.
Proof.
  apply set_eq. intros x. rewrite elem_of_union, !elem_of_states. split.
  - intros [Hx H]. rewrite contains_merge, orb_true_iff in H by done. tauto.
  - intros [[Hx H]|[Hx H]]; rewrite contains_merge by done; rewrite H; auto using orb_true_r.
Qed.

Lemma states_combine s t :
  states (combine s t) = set_bind (fun l => set_map (Z.lor l) (states t)) (states s).
Proof.
  apply set_eq. intros x. rewrite elem_of_set_bind. setoid_rewrite elem_of_map.
  setoid_rewrite elem_of_states. split.
  - intros [Hx (l & r & ? & ? & ? & ? & <-)%combine_spec]; [|done].
    exists l. split; [done|]. by exists r.
  - intros (l & [Hl Hsl] & r & -> & Hr & Htr). split; [auto with go|].
    apply combine_spec; [auto with go|]. exists l, r. auto.
Qed.

Lemma states_withBase s base :
  isState base -> states (withBase s base) = set_map (fun x => Z.lor x base) (states s).
Proof.
  intros Hb. apply set_eq. intros x. rewrite elem_of_map.
  setoid_rewrite elem_of_states. split.
  - intros [Hx (y & ? & ? & <-)%withBase_spec]; [|done..]. by exists y.
  - intros (y & -> & Hy & Hs). split; [auto with go|].
    apply withBase_spec; [auto with go|done|]. eauto.
Qed.

Lemma states_filter s allowed :
  states (filterStates s allowed) = filter (fun x => allowed x = true) (states s).
Proof.
  apply set_eq. intros x. rewrite elem_of_filter, !elem_of_states. split.
  - intros [Hx H]. rewrite filterStates_spec, andb_true_iff in H by done. tauto.
  - intros (Ha & Hx & Hs). rewrite filterStates_spec by done. by rewrite Hs, Ha.
Qed.

Lemma states_single x : isState x -> states (singleRuleMatchState x) = {[x]}.
Proof.
  intros Hx. apply set_eq. intros y. rewrite elem_of_singleton, elem_of_states. split.
  - intros [Hy H]. rewrite contains_testbit, single_pow2 in H by done.
    destruct (decide (x = y)) as [->|Hne]; [done|].
    by rewrite Z.pow2_bits_false in H.
  - intros ->. split; [done|]. rewrite contains_testbit, single_pow2 by done.
    apply Z.pow2_bits_true. unfold isState, fits in Hx. lia.
Qed.

Lemma contains_single x y :
  isState x -> isState y -> contains (singleRuleMatchState x) y = bool_decide (x = y).
Proof.
  intros Hx Hy. pose proof (states_single x Hx) as E. rewrite set_eq in E.
  specialize (E y). rewrite elem_of_states, elem_of_singleton in E.
  case_bool_decide as D.
  - apply E. congruence.
  - apply not_true_is_false. intros H. apply D. symmetry. tauto.
Qed.

(** C12. The packed [uint16] operations of a state set implement the operations of
    a finite set of states: [merge] is union, [combine] is the set of the unions of
    a state of each side, [withBase] adds the bits of the base to every state and
    [filter] keeps the allowed states; every result stays within 16 bits and a set
    is determined by its states. *)
Theorem state_set_refinement :
  (forall s t, states (merge s t) = states s ∪ states t) /\
  (forall s t, states (combine s t) =
               set_bind (fun l => set_map (Z.lor l) (states t)) (states s)) /\
  (forall s base, isState base ->
               states (withBase s base) = set_map (fun x => Z.lor x base) (states s)) /\
  (forall s allowed, states (filterStates s allowed) =
               filter (fun x => allowed x = true) (states s)) /\
  (forall s t base allowed, wfSet s -> wfSet t ->
     wfSet (merge s t) /\ wfSet (combine s t) /\ wfSet (withBase s base) /\
     wfSet (filterStates s allowed)) /\
  (forall s t, wfSet s -> wfSet t -> states s = states t -> s = t).
Proof.
  split_and!; auto using states_merge, states_combine, states_withBase, states_filter,
    states_inj.
  intros. split_and!; auto with go.
Qed.

(** ** Algebra of state sets, transported from sets *)

Lemma combine_comm s t : combine s t = combine t s.
Proof.
  apply set_ext; auto with go. intros x Hx. apply eq_true_iff_eq.
  rewrite !combine_spec by done.
  split; intros (l & r & ? & ? & ? & ? & <-); exists r, l; rewrite Z.lor_comm; auto.
Qed.

Lemma combine_assoc s t u : combine (combine s t) u = combine s (combine t u).
Proof.
  apply set_ext; auto with go. intros x Hx. apply eq_true_iff_eq.
  rewrite !combine_spec by done. split.
  - intros (lr & z & Hlr & Hz & (l & r & ? & ? & ? & ? & <-)%combine_spec & ? & <-);
      [|done].
    exists l, (Z.lor r z). rewrite Z.lor_assoc. split_and!; auto with go.
    apply combine_spec; auto with go. exists r, z. auto.
  - intros (l & rz & Hl & Hrz & ? & (r & z & ? & ? & ? & ? & <-)%combine_spec & <-);
      [|done].
    exists (Z.lor l r), z. rewrite Z.lor_assoc. split_and!; auto with go.
    apply combine_spec; auto with go. exists l, r. auto.
Qed.

Lemma isEmpty_false s : wfSet s -> isEmpty s = false <-> exists x, isState x /\ contains s x = true.
Proof.
  intros Hs. split.
  - intros E. destruct (set_choose_or_empty (states s)) as [[x Hx]|Hemp].
    + exists x. by apply elem_of_states.
    + apply leibniz_equiv in Hemp. apply isEmpty_states in Hemp; [|done]. congruence.
  - intros (x & Hx & Hc). apply not_true_is_false. intros E.
    by rewrite (isEmpty_contains _ E) in Hc.
Qed.

Lemma isEmpty_combine s t :
  wfSet s -> wfSet t -> isEmpty (combine s t) = isEmpty s || isEmpty t.
Proof.
  intros Hs Ht. destruct (isEmpty s) eqn:Es; [by unfold combine; rewrite Es|].
  destruct (isEmpty t) eqn:Et; [by unfold combine; rewrite Es, Et|]. simpl.
  apply isEmpty_false in Es as (x & Hx & Hsx); [|done].
  apply isEmpty_false in Et as (y & Hy & Hty); [|done].
  apply isEmpty_false; [auto with go|]. exists (Z.lor x y). split; [auto with go|].
  apply combine_spec; [auto with go|]. exists x, y. auto.
Qed.

Lemma isEmpty_merge s t : isEmpty (merge s t) = isEmpty s && isEmpty t.
Proof.
  unfold isEmpty, merge. apply eq_true_iff_eq.
  rewrite andb_true_iff, !Z.eqb_eq, Z.lor_eq_0_iff. done.
Qed.

Lemma isEmpty_withBase s base : wfSet s -> isState base -> isEmpty (withBase s base) = isEmpty s.
Proof.
  intros Hs Hb. destruct (isEmpty s) eqn:E; [by unfold withBase; rewrite E|].
  apply isEmpty_false in E as (x & Hx & Hsx); [|done].
  apply isEmpty_false; [auto with go|]. exists (Z.lor x base). split; [auto with go|].
  apply withBase_spec; [auto with go|done|]. eauto.
Qed.

Lemma withBase_0 s : wfSet s -> withBase s 0 = s.
Proof.
  intros Hs. apply set_ext; auto with go. intros x Hx. apply eq_true_iff_eq.
  rewrite withBase_spec by done. setoid_rewrite Z.lor_0_r. split; [|eauto].
  by intros (? & _ & ? & <-).
Qed.

Lemma withBase_empty base :
  withBase emptyRuleMatchState base = singleRuleMatchState base.
Proof. reflexivity. Qed.

Lemma isEmpty_single x : isState x -> isEmpty (singleRuleMatchState x) = false.
Proof.
  intros Hx. apply isEmpty_false; [auto with go|]. exists x.
  split; [done|]. by rewrite contains_single, bool_decide_eq_true.
Qed.
