(* ===== verification/Binary.v ===== *)
(** * Bytes and their encodings

    Go's [encoding/binary] and [io], and sing's [varbin]
    ([replace/sing/common/varbin/uvarint.go], [slices.go]).  A writer is the bytes it
    wrote; a reader is the bytes that are left, and reading returns a value with the bytes
    after it, or the error of the read. *)

From S2P Require Import Prelude.

Abbreviation bytes := (list Byte.byte).

(** ** Bytes and numbers *)

Definition byteZ (b : Byte.byte) : Z := Z.of_N (Byte.to_N b).

(** The low 8 bits of a number, [byte(z)] *)
Definition zByte (z : Z) : Byte.byte :=
  match Byte.of_N (Z.to_N (u8 z)) with Some b => b | None => x00 end.

Lemma byteZ_fits b : fits 8 (byteZ b).
Proof. unfold byteZ, fits. pose proof (Byte.to_N_bounded b). lia. Qed.

Lemma byteZ_zByte z : byteZ (zByte z) = u8 z.
Proof.
  unfold byteZ, zByte. pose proof (wrap_fits 8 z ltac:(lia)) as Hf. unfold fits in Hf.
  destruct (Byte.of_N (Z.to_N (u8 z))) as [b|] eqn:E.
  - apply Byte.to_of_N in E. rewrite E. lia.
  - apply Byte.of_N_None_iff in E. lia.
Qed.

Lemma zByte_byteZ b : zByte (byteZ b) = b.
Proof.
  unfold zByte. rewrite wrap_id by apply byteZ_fits. unfold byteZ. by rewrite N2Z.id, Byte.of_to_N.
Qed.

Lemma byteZ_inj a b : byteZ a = byteZ b -> a = b.
Proof. intros H. by rewrite <- (zByte_byteZ a), H, zByte_byteZ. Qed.

#[export] Hint Resolve byteZ_fits : go.

#[export] Instance byte_eq_dec : EqDecision Byte.byte := Byte.byte_eq_dec.

#[export] Program Instance byte_countable : Countable Byte.byte :=
  inj_countable Byte.to_N Byte.of_N _.
Next Obligation. apply Byte.of_to_N. Qed.

(** ** Text

    A Go string is its bytes. *)
Definition stringBytes (s : string) : bytes := String.list_byte_of_string s.
Definition bytesString (b : bytes) : string := String.string_of_list_byte b.

Lemma bytesString_stringBytes s : bytesString (stringBytes s) = s.
Proof. apply String.string_of_list_byte_of_string. Qed.

Lemma stringBytes_bytesString b : stringBytes (bytesString b) = b.
Proof. apply String.list_byte_of_string_of_list_byte. Qed.

(** ** Reading *)

Definition EOF : error := "EOF"%string.
Definition UnexpectedEOF : error := "unexpected EOF"%string.

Definition ReadByte (r : bytes) : result (Z * bytes) :=
  match r with [] => Err EOF | b :: r => Ok (byteZ b, r) end.

(** [io.ReadFull] of [n] bytes *)
Definition ReadFull (n : nat) (r : bytes) : result (bytes * bytes) :=
  if (n =? 0)%nat then Ok ([], r)
  else match r with
       | [] => Err EOF
       | _ => if (length r <? n)%nat then Err UnexpectedEOF else Ok (take n r, drop n r)
       end.

Lemma ReadFull_app b r : ReadFull (length b) (b ++ r) = Ok (b, r).
Proof.
  unfold ReadFull. destruct b as [|x b]; [done|]. simpl.
  rewrite length_app. destruct (Nat.ltb_spec (S (length b + length r)) (S (length b))); [lia|].
  by rewrite take_app_length, drop_app_length.
Qed.

(** ** Big endian numbers *)

(** [binary.BigEndian.PutUintN], of [n] bytes *)
Fixpoint bigEndian (n : nat) (z : Z) : bytes :=
  match n with
  | O => []
  | S n => zByte (Z.shiftr z (8 * Z.of_nat n)) :: bigEndian n z
  end.

(** [binary.BigEndian.UintN] *)
Definition fromBigEndian (b : bytes) : Z := foldl (fun acc x => acc * 256 + byteZ x) 0 b.

(** [binary.Read] of an unsigned integer of [n] bytes *)
Definition ReadUint (n : nat) (r : bytes) : result (Z * bytes) :=
  '(b, r) ← ReadFull n r; Ok (fromBigEndian b, r).

Lemma bigEndian_length n z : length (bigEndian n z) = n.
Proof. induction n as [|n IH]; simpl; [done|]. by rewrite IH. Qed.

Lemma foldl_bigEndian n : forall z acc,
  foldl (fun acc x => acc * 256 + byteZ x) acc (bigEndian n z) =
  acc * 256 ^ Z.of_nat n + wrap (8 * Z.of_nat n) z.
Proof.
  induction n as [|n IH]; intros z acc; simpl.
  - unfold wrap. rewrite Z.mod_1_r. lia.
  - rewrite IH, byteZ_zByte. unfold wrap.
    replace (8 * Z.of_nat (S n)) with (8 * Z.of_nat n + 8) by lia.
    rewrite Z.shiftr_div_pow2 by lia.
    replace (256 ^ Z.of_nat (S n)) with (256 ^ (Z.of_nat n + 1)) by (f_equal; lia).
    rewrite !Z.pow_add_r by lia. replace (256 ^ Z.of_nat n) with (2 ^ (8 * Z.of_nat n))
      by (rewrite Z.pow_mul_r by lia; done).
    rewrite Z.rem_mul_r by (try apply Z.pow_pos_nonneg; try apply Z.pow_nonzero; lia).
    change (2 ^ 8) with 256. change (256 ^ 1) with 256. ring.
Qed.

Lemma fromBigEndian_bigEndian n z : fromBigEndian (bigEndian n z) = wrap (8 * Z.of_nat n) z.
Proof. unfold fromBigEndian. by rewrite foldl_bigEndian. Qed.

Lemma foldl_fits b : forall acc, 0 <= acc ->
  0 <= foldl (fun acc x => acc * 256 + byteZ x) acc b < (acc + 1) * 256 ^ Z.of_nat (length b).
Proof.
  induction b as [|x b IH]; intros acc Ha; simpl; [lia|].
  pose proof (byteZ_fits x) as Hx. unfold fits in Hx.
  specialize (IH (acc * 256 + byteZ x) ltac:(lia)).
  replace (256 ^ Z.of_nat (S (length b))) with (256 ^ (Z.of_nat (length b) + 1)) by (f_equal; lia).
  rewrite Z.pow_add_r by lia. change (256 ^ 1) with 256. change (2 ^ 8) with 256 in Hx.
  pose proof (Z.pow_pos_nonneg 256 (Z.of_nat (length b)) ltac:(lia) ltac:(lia)). nia.
Qed.

Lemma fromBigEndian_fits b : fits (8 * Z.of_nat (length b)) (fromBigEndian b).
Proof.
  unfold fits, fromBigEndian. pose proof (foldl_fits b 0 ltac:(lia)) as H.
  rewrite Z.pow_mul_r by lia. change (2 ^ 8) with 256. lia.
Qed.

Lemma ReadUint_app n z r :
  fits (8 * Z.of_nat n) z -> ReadUint n (bigEndian n z ++ r) = Ok (z, r).
Proof.
  intros Hf. unfold ReadUint. rewrite <- (bigEndian_length n z) at 1. rewrite ReadFull_app. simpl.
  by rewrite fromBigEndian_bigEndian, wrap_id.
Qed.

(** ** Variable length integers *)

(** [varbin.WriteUvarint]; the value is an [uint64], so ten rounds are enough. *)
Fixpoint writeUvarint (fuel : nat) (value : Z) : bytes :=
  match fuel with
  | O => []
  | S fuel =>
      if 0x80 <=? value then zByte (Z.lor (u8 value) 0x80) :: writeUvarint fuel (Z.shiftr value 7)
      else [zByte value]
  end.

Definition WriteUvarint (value : Z) : bytes := writeUvarint 10 value.

(** [binary.ReadUvarint]; [i] counts the bytes, [s] is the shift. *)
Fixpoint readUvarint (fuel : nat) (i s x : Z) (r : bytes) : result (Z * bytes) :=
  match fuel with
  | O => Err "binary: varint overflows a 64-bit integer"%string
  | S fuel =>
      match r with
      | [] => Err (if 0 <? i then UnexpectedEOF else EOF)
      | b :: r =>
          let b := byteZ b in
          if b <? 0x80 then
            if (i =? 9) && (1 <? b) then Err "binary: varint overflows a 64-bit integer"%string
            else Ok (Z.lor x (u64 (Z.shiftl b s)), r)
          else readUvarint fuel (i + 1) (s + 7) (Z.lor x (u64 (Z.shiftl (Z.land b 0x7f) s))) r
      end
  end.

Definition ReadUvarint (r : bytes) : result (Z * bytes) := readUvarint 10 0 0 0 r.

Lemma lor_shiftl x s y : 0 <= s -> fits s x -> Z.lor x (Z.shiftl y s) = x + y * 2 ^ s.
Proof.
  intros Hs Hx. rewrite <- Z.shiftl_mul_pow2 by done.
  assert (Hl : Z.land x (Z.shiftl y s) = 0).
  { apply Z.bits_inj'. intros k Hk. rewrite Z.land_spec, Z.bits_0. destruct (Z.lt_ge_cases k s).
    - by rewrite Z.shiftl_spec_low, andb_false_r by lia.
    - by rewrite (fits_testbit s x). }
  rewrite Z.add_nocarry_lxor by done. symmetry. by apply Z.lxor_lor.
Qed.

(** A byte with the continuation bit carries the low seven bits. *)
Lemma continuation_byte v :
  let b := byteZ (zByte (Z.lor (u8 v) 0x80)) in (b <? 0x80) = false /\ Z.land b 0x7f = v mod 128.
Proof.
  simpl. rewrite byteZ_zByte. pose proof (wrap_fits 8 v ltac:(lia)) as Hv.
  assert (Hf : fits 8 (Z.lor (u8 v) 128)) by (apply fits_lor; [lia|done|done]).
  rewrite (wrap_id 8 (Z.lor _ _)) by done. split.
  - apply Z.ltb_ge. unfold fits in Hv, Hf.
    assert (Ht : Z.testbit (Z.lor (u8 v) 128) 7 = true).
    { rewrite Z.lor_spec. change (Z.testbit 128 7) with true. apply orb_true_r. }
    destruct (Z.lt_ge_cases (Z.lor (u8 v) 128) 128) as [Hlt|]; [|done]. exfalso.
    rewrite (fits_testbit 7) in Ht; [done| |lia|lia]. unfold fits. split; [apply Hf|done].
  - change 0x7f with (Z.ones 7). change 128 with (2 ^ 7) at 2. rewrite <- (Z.land_ones v 7) by lia.
    apply Z.bits_inj'. intros k Hk. rewrite !Z.land_spec, Z.lor_spec.
    destruct (Z.lt_ge_cases k 7).
    + rewrite testbit_wrap by lia. change 128 with (2 ^ 7). rewrite Z.pow2_bits_false by lia.
      by rewrite orb_false_r.
    + rewrite (Z.ones_spec_high 7 k) by lia. by rewrite !andb_false_r.
Qed.

Lemma readUvarint_app fuel : forall fuel' value x s i r,
  s = 7 * i -> 0 <= i -> 10 = Z.of_nat fuel' + i -> (1 <= fuel' <= fuel)%nat ->
  0 <= value -> x + value * 2 ^ s < 2 ^ 64 -> fits s x ->
  readUvarint fuel' i s x (writeUvarint fuel value ++ r) = Ok (x + value * 2 ^ s, r).
Proof.
  induction fuel as [|fuel IH]; intros fuel' value x s i r Hs Hi Hf Hle Hv Hb Hx; [lia|].
  destruct fuel' as [|fuel']; [lia|]. cbn [writeUvarint].
  pose proof (Z.pow_pos_nonneg 2 s ltac:(lia) ltac:(lia)) as Hpow. destruct Hx as [Hx0 Hx1].
  destruct (Z.leb_spec 0x80 value) as [Hlarge|Hsmall]; cbn [readUvarint app].
  - destruct (continuation_byte value) as [-> ->].
    assert (i <= 8). { destruct (Z.le_gt_cases i 8); [done|]. assert (2 ^ 63 <= 2 ^ s) by (apply Z.pow_le_mono_r; lia). nia. }
    pose proof (Z.mod_pos_bound value 128 ltac:(lia)) as Hm. pose proof (Z.div_mod value 128 ltac:(lia)) as Hd.
    assert (Hu : u64 (Z.shiftl (value mod 128) s) = Z.shiftl (value mod 128) s).
    { apply wrap_id. rewrite Z.shiftl_mul_pow2 by lia. unfold fits. nia. }
    rewrite Hu, lor_shiftl by (unfold fits; lia). rewrite Z.shiftr_div_pow2 by lia.
    assert (Hp7 : 2 ^ (s + 7) = 2 ^ s * 128) by (by rewrite Z.pow_add_r by lia).
    change (2 ^ 7) with 128. rewrite IH; [do 2 f_equal; nia|lia|lia|lia|lia|apply Z.div_pos; lia|nia|].
    unfold fits. nia.
  - rewrite byteZ_zByte, (wrap_id 8) by (unfold fits; lia).
    destruct (Z.ltb_spec value 0x80); [|lia].
    assert (Hi9 : (i =? 9) && (1 <? value) = false).
    { destruct (Z.eqb_spec i 9) as [->|]; [|done]. apply Z.ltb_ge. subst s. change (2 ^ (7 * 9)) with (2 ^ 63) in *. lia. }
    rewrite Hi9, (wrap_id 64).
    + rewrite lor_shiftl; [done|lia|done].
    + rewrite Z.shiftl_mul_pow2 by lia. unfold fits. nia.
Qed.

Lemma ReadUvarint_app value r : fits 64 value -> ReadUvarint (WriteUvarint value ++ r) = Ok (value, r).
Proof.
  intros [H0 H1]. unfold ReadUvarint, WriteUvarint.
  rewrite (readUvarint_app 10); [by rewrite Z.mul_1_r|lia|lia|lia|lia|lia|lia|done].
Qed.

(** ** Repetition *)

(** [for range count { ... }] reading one element each: the loop ends with the elements or
    at the first error.  Every element takes at least one byte, so there are at most as
    many rounds as bytes. *)
Section many.
Context {A : Type} (read : bytes -> result (A * bytes)).

Fixpoint readMany (fuel : nat) (count : Z) (r : bytes) : result (list A * bytes) :=
  if count <=? 0 then Ok ([], r)
  else match fuel with
       | O => Err "out of fuel"%string
       | S fuel =>
           '(x, r) ← read r; '(xs, r) ← readMany fuel (count - 1) r; Ok (x :: xs, r)
       end.

Definition ReadMany (count : Z) (r : bytes) : result (list A * bytes) :=
  readMany (S (length r)) count r.

(** What is written for an element, is read back. *)
Definition reads (write : A -> bytes) (x : A) : Prop := forall r, read (write x ++ r) = Ok (x, r).

Lemma readMany_app (write : A -> bytes) xs : forall fuel r,
  (length xs <= fuel)%nat -> Forall (reads write) xs ->
  readMany fuel (Z.of_nat (length xs)) (concat (write <$> xs) ++ r) = Ok (xs, r).
Proof.
  induction xs as [|x xs IH]; intros fuel r Hl Hr; [by destruct fuel|].
  simpl in Hl. destruct fuel as [|fuel]; [lia|]. apply Forall_cons in Hr as [Hx Hr].
  cbn [readMany]. destruct (Z.leb_spec (Z.of_nat (length (x :: xs))) 0); [simpl in *; lia|].
  simpl. rewrite <- app_assoc, Hx. simpl.
  replace (Z.of_nat (S (length xs)) - 1) with (Z.of_nat (length xs)) by lia.
  rewrite IH by (done || lia). done.
Qed.

Lemma ReadMany_app (write : A -> bytes) xs r :
  Forall (fun x => write x <> [] /\ reads write x) xs ->
  ReadMany (Z.of_nat (length xs)) (concat (write <$> xs) ++ r) = Ok (xs, r).
Proof.
  intros Hr. unfold ReadMany. apply readMany_app.
  - assert (length xs <= length (concat (write <$> xs)))%nat; [|rewrite length_app; lia].
    clear r. induction Hr as [|x xs [Hne _] _ IH]; [done|].
    rewrite fmap_cons. cbn [concat length]. rewrite length_app.
    destruct (write x); [done|]. cbn [length]. lia.
  - eapply Forall_impl; [exact Hr|]. by intros x [_ ?].
Qed.
End many.

(** * Outcomes of code on hostile input

    What a call of Go code ends with: a value, an error, a panic (an index or a slice out of
    range), or nothing at all because a loop does not end. *)

Inductive outcome (E A : Type) := Returns (a : A) | Fails (e : E) | Panics | Hangs.
Arguments Returns {E A}. Arguments Fails {E A}. Arguments Panics {E A}. Arguments Hangs {E A}.

#[export] Instance outcome_bind {E} : MBind (outcome E) := fun A B f m =>
  match m with Returns a => f a | Fails e => Fails e | Panics => Panics | Hangs => Hangs end.

(** The code came to an end. *)
Definition ends {E A} (o : outcome E A) : Prop := match o with Returns _ | Fails _ => True | Panics | Hangs => False end.

Section slices.
Context {E : Type}.

Definition lenZ (b : bytes) : Z := Z.of_nat (length b).

(** [b[i]], [uint16(b[i])<<8 | uint16(b[i+1])] *)
Definition at8 (b : bytes) (i : Z) : outcome E Z := match b !! Z.to_nat i with Some x => Returns (byteZ x) | None => Panics end.

Definition at16 (b : bytes) (i : Z) : outcome E Z := x ← at8 b i; y ← at8 b (i + 1); Returns (Z.lor (Z.shiftl x 8) y).

(** [b[i:]] *)
Definition sliceFrom (b : bytes) (i : Z) : outcome E bytes := if i <=? lenZ b then Returns (drop (Z.to_nat i) b) else Panics.

(** [b[i:j]] of a slice without further capacity *)
Definition slice (b : bytes) (i j : Z) : outcome E bytes := if (i <=? j) && (j <=? lenZ b) then Returns (take (Z.to_nat (j - i)) (drop (Z.to_nat i) b)) else Panics.

(** [n] numbers of 16 bits from a position on *)
Fixpoint words (n : nat) (b : bytes) (i : Z) : outcome E (list Z) :=
  match n with O => Returns [] | S n => w ← at16 b i; ws ← words n b (i + 2); Returns (w :: ws) end.

Lemma lookup_app (a b : bytes) x i : i = lenZ a -> (a ++ x :: b) !! Z.to_nat i = Some x.
Proof. intros ->. unfold lenZ. rewrite Nat2Z.id. by apply list_lookup_middle. Qed.

Lemma be16 (a b : Byte.byte) : Z.lor (Z.shiftl (byteZ a) 8) (byteZ b) = fromBigEndian [a; b].
Proof. rewrite Z.lor_comm, lor_shiftl by (lia || apply byteZ_fits). unfold fromBigEndian. cbn. lia. Qed.

Lemma be16_fits (a b : Byte.byte) : fits 16 (Z.lor (Z.shiftl (byteZ a) 8) (byteZ b)).
Proof. rewrite be16. exact (fromBigEndian_fits [a; b]). Qed.

(** Inside a slice nothing panics. *)
Lemma at8_in b i : 0 <= i < lenZ b -> exists x, at8 b i = Returns (byteZ x).
Proof. unfold lenZ, at8. intros H. destruct (lookup_lt_is_Some_2 b (Z.to_nat i)) as [x ->]; [lia|]. by exists x. Qed.

Lemma at16_in b i : 0 <= i -> i + 1 < lenZ b -> exists w, at16 b i = Returns w /\ fits 16 w.
Proof.
  intros H1 H2. unfold at16. destruct (at8_in b i) as [x ->]; [lia|]. destruct (at8_in b (i + 1)) as [y ->]; [lia|]. cbn. eexists. split; [done|apply be16_fits].
Qed.

Lemma words_in n : forall b i, 0 <= i -> i + 2 * Z.of_nat n <= lenZ b -> exists ws, words n b i = Returns ws.
Proof.
  induction n as [|n IH]; intros b i H1 H2; [by eexists|]. cbn [words]. destruct (at16_in b i) as (w & -> & _); [lia|lia|]. cbn. destruct (IH b (i + 2)) as [ws ->]; [lia|lia|]. by eexists.
Qed.

Lemma sliceFrom_in b i : 0 <= i <= lenZ b -> sliceFrom b i = Returns (drop (Z.to_nat i) b) /\ lenZ (drop (Z.to_nat i) b) = lenZ b - i.
Proof. intros H. unfold sliceFrom. rewrite (proj2 (Z.leb_le _ _)) by lia. split; [done|]. unfold lenZ in *. rewrite length_drop. lia. Qed.

Lemma slice_in b i j : 0 <= i <= j -> j <= lenZ b -> exists s, slice b i j = Returns s /\ s = take (Z.to_nat (j - i)) (drop (Z.to_nat i) b) /\ lenZ s = j - i.
Proof.
  intros H1 H2. unfold slice. rewrite (proj2 (Z.leb_le i j)), (proj2 (Z.leb_le j _)) by lia. eexists. split; [done|]. split; [done|]. unfold lenZ in *. rewrite length_take, length_drop. lia.
Qed.
End slices.

Lemma lenZ_app a b : lenZ (a ++ b) = lenZ a + lenZ b.
Proof. unfold lenZ. rewrite length_app. lia. Qed.

Lemma lenZ_cons x b : lenZ (x :: b) = 1 + lenZ b.
Proof. unfold lenZ. cbn. lia. Qed.

Lemma lenZ_nonneg b : 0 <= lenZ b.
Proof. unfold lenZ. lia. Qed.

Lemma lenZ_bigEndian n z : lenZ (bigEndian n z) = Z.of_nat n.
Proof. unfold lenZ. by rewrite bigEndian_length. Qed.

(** Where something was written, it is read. *)
Section written.
Context {E : Type}.

Lemma at16_written (a b : bytes) z i : i = lenZ a -> fits 16 z -> at16 (E := E) (a ++ bigEndian 2 z ++ b) i = Returns z.
Proof.
  intros -> Hz. unfold at16, at8. cbn [bigEndian app]. rewrite (lookup_app a _ _ (lenZ a)) by done. cbn [mbind outcome_bind].
  rewrite (cons_middle _ a), app_assoc, lookup_app by (rewrite lenZ_app; done). cbn [mbind outcome_bind]. rewrite be16. change [zByte (Z.shiftr z (8 * Z.of_nat 1)); zByte (Z.shiftr z (8 * Z.of_nat 0))] with (bigEndian 2 z).
  by rewrite fromBigEndian_bigEndian, wrap_id.
Qed.

Lemma at8_written (a b : bytes) z i : i = lenZ a -> fits 8 z -> at8 (E := E) (a ++ zByte z :: b) i = Returns z.
Proof. intros -> Hz. unfold at8. rewrite lookup_app by done. by rewrite byteZ_zByte, wrap_id. Qed.

Lemma at16_first (b : bytes) z : fits 16 z -> at16 (E := E) (bigEndian 2 z ++ b) 0 = Returns z.
Proof. exact (at16_written [] b z 0 eq_refl). Qed.

Lemma at8_first (b : bytes) z : fits 8 z -> at8 (E := E) (zByte z :: b) 0 = Returns z.
Proof. exact (at8_written [] b z 0 eq_refl). Qed.

Lemma sliceFrom_written (a b : bytes) i : i = lenZ a -> sliceFrom (E := E) (a ++ b) i = Returns b.
Proof. intros ->. unfold sliceFrom. rewrite (proj2 (Z.leb_le _ _)) by (rewrite lenZ_app; pose proof (lenZ_nonneg b); lia). unfold lenZ. by rewrite Nat2Z.id, drop_app_length. Qed.

Lemma slice_written (a b c : bytes) i j : i = lenZ a -> j = i + lenZ b -> slice (E := E) (a ++ b ++ c) i j = Returns b.
Proof.
  intros -> ->. pose proof (lenZ_nonneg b). pose proof (lenZ_nonneg c). unfold slice. rewrite (proj2 (Z.leb_le (lenZ a) _)), (proj2 (Z.leb_le (lenZ a + lenZ b) _)) by (rewrite ?lenZ_app; lia). cbn [andb].
  replace (lenZ a + lenZ b - lenZ a) with (lenZ b) by lia. unfold lenZ. by rewrite !Nat2Z.id, drop_app_length, take_app_length.
Qed.

Lemma words_written ws : forall (a b : bytes) i, i = lenZ a -> Forall (fits 16) ws -> words (E := E) (length ws) (a ++ concat (bigEndian 2 <$> ws) ++ b) i = Returns ws.
Proof.
  induction ws as [|w ws IH]; intros a b i Hi Hall; [done|]. apply Forall_cons_iff in Hall as [Hw Hws]. cbn [length words]. rewrite fmap_cons. cbn [concat]. rewrite <- app_assoc, at16_written by done. cbn [mbind outcome_bind].
  rewrite (app_assoc a), IH; [done| |done]. rewrite lenZ_app, lenZ_bigEndian. lia.
Qed.
End written.
