(* ===== verification/Utf8.v ===== *)
(** * UTF-8 (package [unicode/utf8])

    Decoding and encoding of runes as the domain matchers use them; a rune that can be
    encoded is decoded from its bytes. *)

From S2P Require Import Prelude Binary.

(** ** Decoding and encoding *)

Definition RuneError : Z := 0xFFFD.

Definition inRange (lo hi : Z) (b : Byte.byte) : bool := (lo <=? byteZ b) && (byteZ b <=? hi).

(** The low six bits of a continuation byte *)
Definition low6 (b : Byte.byte) : Z := Z.land (byteZ b) 0x3F.

(** The range of the second byte after a first byte of three or four *)
Definition secondRange (b0 : Byte.byte) : Z * Z :=
  let x := byteZ b0 in
  if x =? 0xE0 then (0xA0, 0xBF) else if x =? 0xED then (0x80, 0x9F)
  else if x =? 0xF0 then (0x90, 0xBF) else if x =? 0xF4 then (0x80, 0x8F) else (0x80, 0xBF).

(** [utf8.DecodeRuneInString]: the rune and its width; one byte for an invalid sequence *)
Definition DecodeRune (s : bytes) : Z * nat :=
  match s with
  | [] => (RuneError, 0%nat)
  | b0 :: s =>
      if byteZ b0 <? 0x80 then (byteZ b0, 1%nat)
      else if inRange 0xC2 0xDF b0 then
        match s with
        | b1 :: _ => if inRange 0x80 0xBF b1 then (Z.land (byteZ b0) 0x1F * 64 + low6 b1, 2%nat) else (RuneError, 1%nat)
        | _ => (RuneError, 1%nat)
        end
      else if inRange 0xE0 0xEF b0 then
        match s with
        | b1 :: b2 :: _ =>
            if inRange (secondRange b0).1 (secondRange b0).2 b1 && inRange 0x80 0xBF b2
            then (Z.land (byteZ b0) 0x0F * 4096 + low6 b1 * 64 + low6 b2, 3%nat) else (RuneError, 1%nat)
        | _ => (RuneError, 1%nat)
        end
      else if inRange 0xF0 0xF4 b0 then
        match s with
        | b1 :: b2 :: b3 :: _ =>
            if inRange (secondRange b0).1 (secondRange b0).2 b1 && inRange 0x80 0xBF b2 && inRange 0x80 0xBF b3
            then (Z.land (byteZ b0) 0x07 * 262144 + low6 b1 * 4096 + low6 b2 * 64 + low6 b3, 4%nat)
            else (RuneError, 1%nat)
        | _ => (RuneError, 1%nat)
        end
      else (RuneError, 1%nat)
  end.

(** A rune that UTF-8 can encode *)
Definition validRune (r : Z) : bool :=
  ((0 <=? r) && (r <? 0xD800)) || ((0xDFFF <? r) && (r <=? 0x10FFFF)).

(** The bytes that [utf8.EncodeRune] writes *)
Definition EncodeRune (r : Z) : bytes :=
  let r := if validRune r then r else RuneError in
  if r <=? 0x7F then [zByte r]
  else if r <=? 0x7FF then [zByte (0xC0 + r / 64); zByte (0x80 + r mod 64)]
  else if r <=? 0xFFFF then [zByte (0xE0 + r / 4096); zByte (0x80 + r / 64 mod 64); zByte (0x80 + r mod 64)]
  else [zByte (0xF0 + r / 262144); zByte (0x80 + r / 4096 mod 64); zByte (0x80 + r / 64 mod 64); zByte (0x80 + r mod 64)].

(** ** Decoding what was encoded *)

Lemma land_ones_mod x k m : 0 <= k -> m = Z.ones k -> Z.land x m = x mod 2 ^ k.
Proof. intros Hk ->. by apply Z.land_ones. Qed.

Lemma byte_of z : 0 <= z < 256 -> byteZ (zByte z) = z.
Proof. intros Hz. rewrite byteZ_zByte. apply Z.mod_small. change (2 ^ 8) with 256. lia. Qed.

Lemma low6_of z : 0 <= z < 64 -> low6 (zByte (0x80 + z)) = z.
Proof.
  intros Hz. unfold low6. rewrite byte_of by lia. rewrite (land_ones_mod _ 6) by done.
  change (2 ^ 6) with 64. symmetry. apply Z.mod_unique with (q := 2); lia.
Qed.

Lemma inRange_of lo hi z : 0 <= z < 256 -> inRange lo hi (zByte z) = (lo <=? z) && (z <=? hi).
Proof. intros Hz. unfold inRange. by rewrite byte_of. Qed.

(** Decides the comparisons of the goal *)
Ltac zcmp :=
  repeat match goal with
  | |- context [?a <=? ?b] =>
      first [rewrite (proj2 (Z.leb_le a b)) by lia | rewrite (proj2 (Z.leb_gt a b)) by lia]
  | |- context [?a <? ?b] =>
      first [rewrite (proj2 (Z.ltb_lt a b)) by lia | rewrite (proj2 (Z.ltb_ge a b)) by lia]
  | |- context [?a =? ?b] =>
      first [rewrite (proj2 (Z.eqb_eq a b)) by lia | rewrite (proj2 (Z.eqb_neq a b)) by lia]
  end; cbn [andb orb negb].

Lemma decode2 a b rest : 2 <= a < 32 -> 0 <= b < 64 ->
  DecodeRune (zByte (0xC0 + a) :: zByte (0x80 + b) :: rest) = (a * 64 + b, 2%nat).
Proof.
  intros Ha Hb. unfold DecodeRune. rewrite !inRange_of, low6_of, byte_of by lia. zcmp.
  rewrite (land_ones_mod _ 5) by done.
  replace ((0xC0 + a) mod 2 ^ 5) with a; [done|]. apply Z.mod_unique with (q := 6); lia.
Qed.

Lemma decode3 a b c rest : 0 <= a < 16 -> 0 <= b < 64 -> 0 <= c < 64 ->
  (a = 0 -> 32 <= b) -> (a = 13 -> b < 32) ->
  DecodeRune (zByte (0xE0 + a) :: zByte (0x80 + b) :: zByte (0x80 + c) :: rest) = (a * 4096 + b * 64 + c, 3%nat).
Proof.
  intros Ha Hb Hc H0 H13. unfold DecodeRune.
  assert (Hr : inRange (secondRange (zByte (0xE0 + a))).1 (secondRange (zByte (0xE0 + a))).2 (zByte (0x80 + b)) = true).
  { rewrite inRange_of by lia. unfold secondRange. rewrite byte_of by lia.
    destruct (Z.eqb_spec (0xE0 + a) 0xE0); [cbn [fst snd]; by zcmp|].
    destruct (Z.eqb_spec (0xE0 + a) 0xED); [cbn [fst snd]; by zcmp|]. zcmp. cbn [fst snd]. by zcmp. }
  rewrite Hr, !inRange_of, !low6_of, byte_of by lia. zcmp.
  rewrite (land_ones_mod _ 4) by done.
  replace ((0xE0 + a) mod 2 ^ 4) with a; [done|]. apply Z.mod_unique with (q := 14); lia.
Qed.

Lemma decode4 a b c d rest : 0 <= a < 5 -> 0 <= b < 64 -> 0 <= c < 64 -> 0 <= d < 64 ->
  (a = 0 -> 16 <= b) -> (a = 4 -> b < 16) ->
  DecodeRune (zByte (0xF0 + a) :: zByte (0x80 + b) :: zByte (0x80 + c) :: zByte (0x80 + d) :: rest) =
  (a * 262144 + b * 4096 + c * 64 + d, 4%nat).
Proof.
  intros Ha Hb Hc Hd H0 H4. unfold DecodeRune.
  assert (Hr : inRange (secondRange (zByte (0xF0 + a))).1 (secondRange (zByte (0xF0 + a))).2 (zByte (0x80 + b)) = true).
  { rewrite inRange_of by lia. unfold secondRange. rewrite byte_of by lia. zcmp.
    destruct (Z.eqb_spec (0xF0 + a) 0xF0); [cbn [fst snd]; by zcmp|].
    destruct (Z.eqb_spec (0xF0 + a) 0xF4); cbn [fst snd]; by zcmp. }
  rewrite Hr, !inRange_of, !low6_of, byte_of by lia. zcmp.
  rewrite (land_ones_mod _ 3) by done.
  replace ((0xF0 + a) mod 2 ^ 3) with a; [done|]. apply Z.mod_unique with (q := 30); lia.
Qed.

Lemma validRune_spec r : validRune r = true <-> 0 <= r < 0xD800 \/ 0xDFFF < r <= 0x10FFFF.
Proof. unfold validRune. rewrite orb_true_iff, !andb_true_iff, !Z.leb_le, !Z.ltb_lt. lia. Qed.

Lemma DecodeRune_EncodeRune r rest :
  validRune r = true -> DecodeRune (EncodeRune r ++ rest) = (r, length (EncodeRune r)).
Proof.
  intros Hv. unfold EncodeRune. rewrite Hv. apply validRune_spec in Hv.
  destruct (Z.leb_spec r 0x7F); [|destruct (Z.leb_spec r 0x7FF); [|destruct (Z.leb_spec r 0xFFFF)]]; cbn [app].
  - unfold DecodeRune. rewrite byte_of by lia. by zcmp.
  - rewrite decode2 by divlia. f_equal. divlia.
  - rewrite decode3 by divlia. f_equal. divlia.
  - rewrite decode4 by divlia. f_equal. divlia.
Qed.

(** ** Text *)

(** The bytes of a text *)
Definition utf8 (rs : list Z) : bytes := concat (EncodeRune <$> rs).

Definition validText (rs : list Z) : Prop := Forall (fun r => validRune r = true) rs.

Lemma utf8_cons r rs : utf8 (r :: rs) = EncodeRune r ++ utf8 rs.
Proof. done. Qed.

Lemma utf8_one r : utf8 [r] = EncodeRune r.
Proof. cbn. apply app_nil_r. Qed.

Lemma utf8_app a b : utf8 (a ++ b) = utf8 a ++ utf8 b.
Proof. unfold utf8. by rewrite fmap_app, concat_app. Qed.

Lemma EncodeRune_length r : (1 <= length (EncodeRune r))%nat.
Proof. unfold EncodeRune. repeat case_match; simpl; lia. Qed.

(** UTF-8 is a prefix code. *)
Lemma EncodeRune_app r r' x y :
  validRune r = true -> validRune r' = true -> EncodeRune r ++ x = EncodeRune r' ++ y -> r = r' /\ x = y.
Proof.
  intros Hr Hr' E. pose proof (DecodeRune_EncodeRune r x Hr) as H1.
  rewrite E, DecodeRune_EncodeRune in H1 by done. assert (r = r') as -> by congruence.
  split; [done|]. by eapply app_inv_head.
Qed.

Lemma utf8_prefix a b :
  validText a -> validText b -> utf8 a `prefix_of` utf8 b <-> a `prefix_of` b.
Proof.
  intros Ha. revert b. induction Ha as [|r a Hr Ha IH]; intros b Hb; [split; intros; [by exists b|by exists (utf8 b)]|].
  destruct Hb as [|r' b Hr' Hb].
  - split; [|intros H; by apply prefix_nil_inv in H]. intros H. apply prefix_nil_inv in H.
    apply (f_equal length) in H. rewrite utf8_cons, length_app in H. pose proof (EncodeRune_length r). simpl in H. lia.
  - rewrite !utf8_cons. split.
    + intros [k E]. rewrite <- app_assoc in E. apply EncodeRune_app in E as [<- E]; [|done..].
      apply prefix_cons. apply IH; [done|]. by exists k.
    + intros H. pose proof (prefix_cons_inv_1 _ _ _ _ H) as ->. apply prefix_cons_inv_2 in H.
      apply prefix_app. by apply IH.
Qed.

Lemma utf8_inj a b : validText a -> validText b -> utf8 a = utf8 b -> a = b.
Proof.
  intros Ha Hb E. apply prefix_length_eq; [apply utf8_prefix; [done..|by rewrite E]|].
  enough (b `prefix_of` a) as H by (by apply prefix_length). apply utf8_prefix; [done..|by rewrite E].
Qed.
