(* ===== verification/Succinct.v ===== *)
(** * Succinct sets of strings ([replace/sing/common/domain/set.go])

    A set of sorted strings as a trie in level order: [labelBitmap] has for every node a
    zero for each of its children and then a one, [labels] the bytes that lead to the
    children, [leaves] a bit for the nodes where a string ends.  [ranks] and [selects]
    index the ones of the bitmap.  Strings are lists of bytes; reading out of the range of
    a slice panics. *)

From S2P Require Import Prelude Binary.

(** [int32(z)] *)
Definition i32 (z : Z) : Z :=
  let u := u32 z in if u <? 2 ^ 31 then u else u - 2 ^ 32.

(** [l[i]] *)
Definition at_ {A} (l : list A) (i : Z) : result A :=
  if i <? 0 then panic "index out of range"
  else match l !! Z.to_nat i with Some x => Ok x | None => panic "index out of range" end.

(** [a < b] on strings *)
Fixpoint strLt (a b : bytes) : bool :=
  match a, b with
  | _, [] => false
  | [], _ :: _ => true
  | x :: a, y :: b =>
      if byteZ x <? byteZ y then true else if byteZ y <? byteZ x then false else strLt a b
  end.

(** ** Bits *)

(** The ones among the low [n] bits: [bits.OnesCount64] and its narrower variants *)
Fixpoint onesCount (n : nat) (w : Z) : Z :=
  match n with
  | O => 0
  | S n => onesCount n w + Z.b2z (Z.testbit w (Z.of_nat n))
  end.

(** [bits.TrailingZeros8]: 8 for zero *)
Fixpoint trailingZeros (n : nat) (i : Z) (w : Z) : Z :=
  match n with
  | O => i
  | S n => if Z.testbit w i then i else trailingZeros n (i + 1) w
  end.

Definition TrailingZeros8 (w : Z) : Z := trailingZeros 8 0 w.

(** [setBit]: the slice grows to the word of the bit *)
Definition setBit (bm : list Z) (i : Z) (v : Z) : list Z :=
  let bm := bm ++ replicate (Z.to_nat (Z.shiftr i 6 + 1 - Z.of_nat (length bm))) 0 in
  let k := Z.to_nat (Z.shiftr i 6) in
  alter (fun w => Z.lor w (u64 (Z.shiftl v (Z.land i 63)))) k bm.

(** [getBit(bm, i) != 0] *)
Definition getBit (bm : list Z) (i : Z) : result bool :=
  w ← at_ bm (Z.shiftr i 6); Ok (negb (Z.land w (Z.shiftl 1 (Z.land i 63)) =? 0)).

(** ** Rank and select *)

(** [mask[j]] *)
Definition mask (j : Z) : Z := Z.shiftl 1 j - 1.

(** The first result of [rank64]: the ones before position [i] *)
Definition rank64 (words rindex : list Z) (i : Z) : result Z :=
  let wordI := Z.shiftr i 6 in
  let j := Z.land i 63 in
  n ← at_ rindex wordI;
  w ← at_ words wordI;
  Ok (i32 (n + onesCount 64 (Z.land w (mask j)))).

(** [indexRank64] with [trailing]: the ones before each word, and all of them *)
Fixpoint indexRank64 (n : Z) (words : list Z) : list Z :=
  match words with
  | [] => [n]
  | w :: words => n :: indexRank64 (i32 (n + onesCount 64 w)) words
  end.

(** [select8Lookup[i*8+j]]: the position of the [j]-th one of the byte [i] *)
Fixpoint select8Row (n : nat) (w : Z) : list Z :=
  match n with
  | O => []
  | S n => TrailingZeros8 w :: select8Row n (Z.land w (u8 (w - 1)))
  end.

Definition select8Lookup : list Z :=
  concat ((fun i => select8Row 8 (Z.of_nat i)) <$> seq 0 256).

(** [for ; rankIndex[wordI+1] <= i; wordI++ {}] *)
Fixpoint selectWord (fuel : nat) (rankIndex : list Z) (wordI i : Z) : result Z :=
  match fuel with
  | O => Err "out of fuel"%string
  | S fuel =>
      r ← at_ rankIndex (wordI + 1);
      if r <=? i then selectWord fuel rankIndex (wordI + 1) i else Ok wordI
  end.

(** The position of a one within a word: halves, then bytes by table *)
Definition selectInWord (w findIth : Z) : result Z :=
  let ww := w in
  let offset := 0 in
  let ones := onesCount 32 ww in
  let '(findIth, offset, ww) :=
    if ones <=? findIth then (findIth - ones, Z.lor offset 32, Z.shiftr ww 32)
    else (findIth, offset, ww) in
  let ones := onesCount 16 ww in
  let '(findIth, offset, ww) :=
    if ones <=? findIth then (findIth - ones, Z.lor offset 16, Z.shiftr ww 16)
    else (findIth, offset, ww) in
  let ones := onesCount 8 ww in
  if ones <=? findIth then
    x ← at_ select8Lookup (Z.lor (Z.land (Z.shiftr ww 5) 0x7f8) (findIth - ones));
    Ok (x + offset + 8)
  else
    x ← at_ select8Lookup (Z.lor (Z.shiftl (Z.land ww 0xff) 3) findIth);
    Ok (x + offset).

(** The first result of [select32R64]: the position of the [i]-th one *)
Definition select32R64 (words selectIndex rankIndex : list Z) (i : Z) : result Z :=
  s ← at_ selectIndex (Z.shiftr i 5);
  wordI ← selectWord (S (length words)) rankIndex (Z.shiftr s 6) i;
  w ← at_ words wordI;
  r ← at_ rankIndex wordI;
  a ← selectInWord w (i - r);
  Ok (a + Z.shiftl wordI 6).

(** [indexSelect32R64]: the positions of every 32nd one *)
Fixpoint indexSelect (n : nat) (words : list Z) (i ith : Z) : list Z :=
  match n with
  | O => []
  | S n =>
      let one := match words !! Z.to_nat (Z.shiftr i 6) with
                 | Some w => negb (Z.land w (Z.shiftl 1 (Z.land i 63)) =? 0)
                 | None => false
                 end in
      if one then
        (if Z.land (ith + 1) 31 =? 0 then [i32 i] else []) ++ indexSelect n words (i + 1) (ith + 1)
      else indexSelect n words (i + 1) ith
  end.

Definition indexSelect32R64 (words : list Z) : list Z * list Z :=
  (indexSelect (64 * length words) words 0 (-1), indexRank64 0 words).

(** ** The set *)
Record succinctSet := mkSuccinctSet {
  leaves : list Z;
  labelBitmap : list Z;
  labels : bytes;
  ranks : list Z;
  selects : list Z;
}.

(** [init] *)
Definition initSet (leaves labelBitmap : list Z) (labels : bytes) : succinctSet :=
  let '(selects, ranks) := indexSelect32R64 labelBitmap in
  mkSuccinctSet leaves labelBitmap labels ranks selects.

Definition countZeros (bm ranks : list Z) (i : Z) : result Z :=
  a ← rank64 bm ranks (i32 i); Ok (i - a).

Definition selectIthOne (bm ranks selects : list Z) (i : Z) : result Z :=
  select32R64 bm selects ranks (i32 i).

(** An element of the queue: [keys[s:e]] and [col] *)
Record qElt := mkQElt { qKeys : list bytes; qCol : nat }.

(** The runs of keys with the same byte in the column, and the bytes *)
Fixpoint splitRuns (col : nat) (keys : list bytes) : result (list (Byte.byte * list bytes)) :=
  match keys with
  | [] => Ok []
  | key :: keys =>
      match key !! col with
      | None => panic "index out of range"
      | Some c =>
          runs ← splitRuns col keys;
          Ok (match runs with
              | (c', run) :: rest => if decide (c = c') then (c, key :: run) :: rest else (c, [key]) :: runs
              | [] => [(c, [key])]
              end)
      end
  end.

(** One element: whether it is a leaf, and its children *)
Definition expand (elt : qElt) : result (bool * list (Byte.byte * qElt)) :=
  match qKeys elt with
  | [] => panic "index out of range"
  | key :: rest =>
      let leaf := (qCol elt =? length key)%nat in
      runs ← splitRuns (qCol elt) (if leaf then rest else qKeys elt);
      Ok (leaf, map (fun r => (r.1, mkQElt r.2 (S (qCol elt)))) runs)
  end.

(** The arrays while they are filled: [i] is the node, [lIdx] the next bit *)
Record building := mkBuilding { bLeaves : list Z; bBitmap : list Z; bLabels : bytes; bIdx : Z }.

(** The bits of one node *)
Fixpoint addLabels (st : building) (cs : bytes) : building :=
  match cs with
  | [] => mkBuilding (bLeaves st) (setBit (bBitmap st) (bIdx st) 1) (bLabels st) (bIdx st + 1)
  | c :: cs =>
      addLabels (mkBuilding (bLeaves st) (setBit (bBitmap st) (bIdx st) 0) (bLabels st ++ [c]) (bIdx st + 1)) cs
  end.

Fixpoint buildLoop (fuel : nat) (queue : list qElt) (i : Z) (st : building) : result building :=
  match queue with
  | [] => Ok st
  | elt :: queue =>
      match fuel with
      | O => Err "out of fuel"%string
      | S fuel =>
          '(leaf, children) ← expand elt;
          let st := if leaf : bool
                    then mkBuilding (setBit (bLeaves st) i 1) (bBitmap st) (bLabels st) (bIdx st)
                    else st in
          buildLoop fuel (queue ++ children.*2) (i + 1) (addLabels st children.*1)
      end
  end.

(** A node for every byte of every key and the root are enough rounds. *)
Definition newSuccinctSet (keys : list bytes) : result succinctSet :=
  st ← buildLoop (S (length (concat keys))) [mkQElt keys 0] 0 (mkBuilding [] [] [] 0);
  Ok (initSet (bLeaves st) (bBitmap st) (bLabels st)).

(** ** Encoding *)

Definition writeUint64Slice (value : list Z) : bytes :=
  WriteUvarint (Z.of_nat (length value)) ++ concat (bigEndian 8 <$> value).

Definition writeByteSlice (value : bytes) : bytes :=
  WriteUvarint (Z.of_nat (length value)) ++ value.

Definition succinctSet_Write (ss : succinctSet) : bytes :=
  [x00] ++ writeUint64Slice (leaves ss) ++ writeUint64Slice (labelBitmap ss) ++ writeByteSlice (labels ss).

(** [varbin.ReadSlice] of elements of [n] bytes; the code reads them in chunks, which shows
    only in the text of the error at the end of the input. *)
Definition ReadSliceUint (n : nat) (r : bytes) : result (list Z * bytes) :=
  '(count, r) ← ReadUvarint r; ReadMany (ReadUint n) count r.

Definition ReadSliceBytes (r : bytes) : result (bytes * bytes) :=
  '(values, r) ← ReadSliceUint 1 r; Ok (map zByte values, r).

(** The ones of the bitmap and the index after the last one *)
Definition lastOne (word : Z) : Z := Z.log2 word.

Fixpoint countOnes (wordIndex : Z) (words : list Z) (onesCount_ lastOneIndex : Z) : Z * Z :=
  match words with
  | [] => (onesCount_, lastOneIndex)
  | word :: words =>
      countOnes (wordIndex + 1) words (onesCount_ + onesCount 64 word)
        (if word =? 0 then lastOneIndex else Z.lor (Z.shiftl wordIndex 6) (lastOne word))
  end.

Definition readSuccinctSet (r : bytes) : result (succinctSet * bytes) :=
  '(_, r) ← ReadByte r;
  '(leaves, r) ← ReadSliceUint 8 r;
  '(labelBitmap, r) ← ReadSliceUint 8 r;
  '(labels, r) ← ReadSliceBytes r;
  let '(onesCount, lastOneIndex) := countOnes 0 labelBitmap 0 (-1) in
  let zerosCount := lastOneIndex + 1 - onesCount in
  if negb (onesCount =? zerosCount + 1) || negb (Z.of_nat (length labels) =? zerosCount)
  then Err "domain: malformed succinct set"%string
  else
    let leavesWordCount := Z.shiftr (onesCount + 63) 6 in
    let leaves := leaves ++ replicate (Z.to_nat (leavesWordCount - Z.of_nat (length leaves))) 0 in
    Ok (initSet leaves labelBitmap labels, r).
