(* ===== verification/RankSelect.v ===== *)
(** * Rank and select

    The bitmap of a succinct set as a list of bits: [rank64] counts the ones before a
    position and [select32R64] finds the [i]-th one. *)

From S2P Require Import Prelude Binary Succinct.

(** ** Lists of bits *)

(** The ones of a list *)
Fixpoint ones (l : list bool) : Z :=
  match l with [] => 0 | b :: l => Z.b2z b + ones l end.

Lemma ones_app l k : ones (l ++ k) = ones l + ones k.
Proof. induction l as [|b l IH]; simpl; lia. Qed.

Lemma ones_bounds l : 0 <= ones l <= Z.of_nat (length l).
Proof. induction l as [|[] l IH]; simpl; lia. Qed.

Lemma ones_take_le l i : ones (take i l) <= ones l.
Proof. rewrite <- (take_drop i l) at 2. rewrite ones_app. pose proof (ones_bounds (drop i l)). lia. Qed.

Lemma ones_take_mono l i j : (i <= j)%nat -> ones (take i l) <= ones (take j l).
Proof.
  intros Hij. replace i with (i `min` j)%nat by lia. rewrite <- take_take. apply ones_take_le.
Qed.

Lemma ones_take_S l i b : l !! i = Some b -> ones (take (S i) l) = ones (take i l) + Z.b2z b.
Proof. intros Hb. rewrite (take_S_r _ _ _ Hb), ones_app. simpl. lia. Qed.

(** Positions of ones are determined by the ones before them. *)
Lemma one_unique l i j :
  l !! i = Some true -> l !! j = Some true -> ones (take i l) = ones (take j l) -> i = j.
Proof.
  intros Hi Hj E. destruct (Nat.lt_trichotomy i j) as [Hlt|[->|Hlt]]; [|done|]; exfalso.
  - pose proof (ones_take_mono l (S i) j ltac:(lia)). rewrite (ones_take_S _ _ _ Hi) in H. simpl in H. lia.
  - pose proof (ones_take_mono l (S j) i ltac:(lia)). rewrite (ones_take_S _ _ _ Hj) in H. simpl in H. lia.
Qed.

(** ** Words *)

Definition wordBits (w : Z) : list bool := (fun i => Z.testbit w (Z.of_nat i)) <$> seq 0 64.

Definition bitsOf (words : list Z) : list bool := concat (wordBits <$> words).

Lemma wordBits_length w : length (wordBits w) = 64%nat.
Proof. unfold wordBits. by rewrite length_fmap, length_seq. Qed.

Lemma wordBits_lookup w i : (i < 64)%nat -> wordBits w !! i = Some (Z.testbit w (Z.of_nat i)).
Proof. intros Hi. unfold wordBits. rewrite list_lookup_fmap, lookup_seq_lt by done. done. Qed.

Lemma bitsOf_length words : length (bitsOf words) = (64 * length words)%nat.
Proof.
  unfold bitsOf. induction words as [|w words IH]; [done|].
  rewrite fmap_cons. cbn [concat length]. rewrite length_app, IH, wordBits_length. lia.
Qed.

Lemma bitsOf_cons w words : bitsOf (w :: words) = wordBits w ++ bitsOf words.
Proof. done. Qed.

Lemma bitsOf_app a b : bitsOf (a ++ b) = bitsOf a ++ bitsOf b.
Proof. unfold bitsOf. by rewrite fmap_app, concat_app. Qed.

(** Bit [i] is in word [i / 64]. *)
Lemma bitsOf_lookup words k w j :
  words !! k = Some w -> (j < 64)%nat ->
  bitsOf words !! (64 * k + j)%nat = Some (Z.testbit w (Z.of_nat j)).
Proof.
  intros Hw Hj. rewrite <- (take_drop_middle words k w Hw). rewrite bitsOf_app, bitsOf_cons.
  pose proof (lookup_lt_Some _ _ _ Hw) as Hlt.
  rewrite lookup_app_r by (rewrite bitsOf_length, length_take; lia).
  rewrite bitsOf_length, length_take. replace (64 * k + j - 64 * (k `min` length words))%nat with j by lia.
  rewrite lookup_app_l by (by rewrite wordBits_length). by apply wordBits_lookup.
Qed.

Lemma take_bitsOf words k w j :
  words !! k = Some w -> (j <= 64)%nat ->
  take (64 * k + j) (bitsOf words) = bitsOf (take k words) ++ take j (wordBits w).
Proof.
  intros Hw Hj. pose proof (lookup_lt_Some _ _ _ Hw) as Hlt.
  rewrite <- (take_drop_middle words k w Hw) at 1. rewrite bitsOf_app, bitsOf_cons.
  rewrite take_app. rewrite bitsOf_length, length_take.
  rewrite (take_ge (bitsOf (take k words))) by (rewrite bitsOf_length, length_take; lia).
  replace (64 * k + j - 64 * (k `min` length words))%nat with j by lia.
  rewrite take_app_le by (by rewrite wordBits_length). done.
Qed.

Lemma onesCount_ones n w : (n <= 64)%nat -> onesCount n w = ones (take n (wordBits w)).
Proof.
  induction n as [|n IH]; intros Hn; [done|]. cbn [onesCount].
  rewrite (ones_take_S _ n (Z.testbit w (Z.of_nat n))) by (apply wordBits_lookup; lia).
  by rewrite IH by lia.
Qed.

Lemma onesCount_word w : onesCount 64 w = ones (wordBits w).
Proof. rewrite onesCount_ones by lia. by rewrite take_ge by (by rewrite wordBits_length). Qed.

Lemma onesCount_ext n w w' :
  (forall i, 0 <= i < Z.of_nat n -> Z.testbit w i = Z.testbit w' i) -> onesCount n w = onesCount n w'.
Proof.
  induction n as [|n IH]; intros H; [done|]. cbn [onesCount].
  rewrite IH by (intros; apply H; lia). by rewrite H by lia.
Qed.

Lemma onesCount_0 n : onesCount n 0 = 0.
Proof. induction n as [|n IH]; [done|]. cbn [onesCount]. by rewrite IH, Z.testbit_0_l. Qed.

Lemma onesCount_bounds n w : 0 <= onesCount n w <= Z.of_nat n.
Proof.
  induction n as [|n IH]; cbn [onesCount]; [lia|]. destruct (Z.testbit w (Z.of_nat n)); simpl; lia.
Qed.

Lemma onesCount_split a b w :
  onesCount (a + b) w = onesCount a w + onesCount b (Z.shiftr w (Z.of_nat a)).
Proof.
  induction b as [|b IH]; [rewrite Nat.add_0_r; simpl; lia|].
  rewrite Nat.add_succ_r. cbn [onesCount]. rewrite IH.
  rewrite Z.shiftr_spec by lia. replace (Z.of_nat (a + b)) with (Z.of_nat b + Z.of_nat a) by lia. lia.
Qed.

(** The ones of a word below bit [j] *)
Lemma onesCount_mask w j : (j <= 64)%nat -> onesCount 64 (Z.land w (mask (Z.of_nat j))) = onesCount j w.
Proof.
  intros Hj. replace 64%nat with (j + (64 - j))%nat by lia. rewrite onesCount_split.
  assert (Hm : mask (Z.of_nat j) = Z.ones (Z.of_nat j)) by (unfold mask; rewrite Z.shiftl_1_l, Z.ones_equiv; lia).
  rewrite Hm. replace (Z.shiftr (Z.land w (Z.ones (Z.of_nat j))) (Z.of_nat j)) with 0.
  - rewrite onesCount_0, Z.add_0_r. apply onesCount_ext. intros i Hi.
    rewrite Z.land_spec, Z.ones_spec_low by lia. apply andb_true_r.
  - symmetry. apply Z.bits_inj'. intros i Hi. rewrite Z.bits_0, Z.shiftr_spec, Z.land_spec by lia.
    rewrite Z.ones_spec_high by lia. apply andb_false_r.
Qed.

(** ** Rank *)

Lemma i32_small z : 0 <= z < 2 ^ 31 -> i32 z = z.
Proof.
  intros Hz. unfold i32, wrap. rewrite Z.mod_small by lia.
  by rewrite (proj2 (Z.ltb_lt _ _)) by lia.
Qed.

Lemma at_some {A} (l : list A) (i : nat) x : l !! i = Some x -> at_ l (Z.of_nat i) = Ok x.
Proof.
  intros H. unfold at_. rewrite (proj2 (Z.ltb_ge _ _)) by lia. by rewrite Nat2Z.id, H.
Qed.

Lemma shiftr_div i k j : (j < 64)%nat -> i = Z.of_nat (64 * k + j) -> Z.shiftr i 6 = Z.of_nat k.
Proof.
  intros Hj ->. rewrite Z.shiftr_div_pow2 by lia. change (2 ^ 6) with 64.
  symmetry. apply Z.div_unique with (r := Z.of_nat j); lia.
Qed.

Lemma land_mod i k j : (j < 64)%nat -> i = Z.of_nat (64 * k + j) -> Z.land i 63 = Z.of_nat j.
Proof.
  intros Hj ->. change 63 with (Z.ones 6). rewrite Z.land_ones by lia. change (2 ^ 6) with 64.
  symmetry. apply Z.mod_unique with (q := Z.of_nat k); lia.
Qed.

Lemma split64 i : exists k j, (j < 64)%nat /\ i = (64 * k + j)%nat.
Proof.
  exists (i / 64)%nat, (i mod 64)%nat. split; [apply Nat.mod_upper_bound; lia|].
  apply Nat.div_mod. lia.
Qed.

Lemma bitsOf_bounded words : 64 * Z.of_nat (length words) < 2 ^ 31 -> 0 <= ones (bitsOf words) < 2 ^ 31.
Proof. intros H. pose proof (ones_bounds (bitsOf words)). rewrite bitsOf_length in H0. lia. Qed.

(** The rank index holds the ones before each word. *)
Lemma indexRank64_lookup words n k :
  0 <= n -> n + ones (bitsOf words) < 2 ^ 31 -> (k <= length words)%nat ->
  indexRank64 n words !! k = Some (n + ones (bitsOf (take k words))).
Proof.
  revert n k. induction words as [|w words IH]; intros n k Hn Hb Hk.
  - simpl in Hk. replace k with 0%nat by lia. simpl. f_equal. lia.
  - rewrite bitsOf_cons, ones_app in Hb.
    pose proof (ones_bounds (wordBits w)). pose proof (ones_bounds (bitsOf words)).
    destruct k as [|k]; [simpl; f_equal; lia|].
    cbn [indexRank64 take lookup list_lookup]. rewrite onesCount_word, i32_small by lia.
    rewrite bitsOf_cons, ones_app. simpl in Hk. rewrite IH by lia. f_equal. lia.
Qed.

Lemma rank_index words k :
  64 * Z.of_nat (length words) < 2 ^ 31 -> (k <= length words)%nat ->
  at_ (indexRank64 0 words) (Z.of_nat k) = Ok (ones (bitsOf (take k words))).
Proof.
  intros Hb Hk. apply at_some. pose proof (bitsOf_bounded _ Hb).
  rewrite indexRank64_lookup by lia. done.
Qed.

Lemma rank64_ones words i :
  64 * Z.of_nat (length words) < 2 ^ 31 -> (i < length (bitsOf words))%nat ->
  rank64 words (indexRank64 0 words) (Z.of_nat i) = Ok (ones (take i (bitsOf words))).
Proof.
  intros Hb Hi. rewrite bitsOf_length in Hi. destruct (split64 i) as (k & j & Hj & Ei).
  destruct (lookup_lt_is_Some_2 words k ltac:(lia)) as [w Hw].
  unfold rank64. rewrite (shiftr_div _ k j) by lia. rewrite (land_mod _ k j) by lia.
  rewrite rank_index by lia. cbn [mbind result_bind]. rewrite (at_some _ _ _ Hw). cbn [mbind result_bind].
  rewrite onesCount_mask, onesCount_ones by lia. subst i.
  pose proof (ones_take_le (bitsOf words) (64 * k + j)) as Hle. rewrite (take_bitsOf _ _ w) in * by (done || lia).
  rewrite ones_app in *. rewrite i32_small; [done|].
  pose proof (bitsOf_bounded _ Hb). pose proof (ones_bounds (bitsOf (take k words))).
  pose proof (ones_bounds (take j (wordBits w))). lia.
Qed.

(** ** Select *)

(** [x] is the position of the [k]-th one of the low [n] bits of [w]. *)
Definition selects_in (n : nat) (w k x : Z) : Prop :=
  exists p : nat, x = Z.of_nat p /\ (p < n)%nat /\ Z.testbit w x = true /\ onesCount p w = k.

Lemma selects_low n m w k x : selects_in n w k x -> (n <= m)%nat -> selects_in m w k x.
Proof. intros (p & -> & Hp & H) Hn. exists p. split_and!; [done|lia|apply H|apply H]. Qed.

Lemma selects_high n m w k x :
  selects_in m (Z.shiftr w (Z.of_nat n)) (k - onesCount n w) x ->
  selects_in (n + m) w k (x + Z.of_nat n).
Proof.
  intros (p & -> & Hp & Hb & Hc). exists (n + p)%nat. split_and!; [lia|lia| |].
  - rewrite Z.shiftr_spec in Hb by lia. done.
  - rewrite onesCount_split. lia.
Qed.

Definition select8_check (b k : nat) : bool :=
  let k := Z.of_nat k in
  let w := Z.of_nat b in
  (onesCount 8 w <=? k) ||
  match at_ select8Lookup (8 * w + k) with
  | Ok x => (0 <=? x) && (x <? 8) && Z.testbit w x && (onesCount (Z.to_nat x) w =? k)
  | Err _ => false
  end.

Lemma select8_checked : forallb (fun b => forallb (select8_check b) (seq 0 8)) (seq 0 256) = true.
Proof. vm_compute. reflexivity. Qed.

Lemma select8_ok b k :
  0 <= b < 256 -> 0 <= k < onesCount 8 b ->
  exists x, at_ select8Lookup (8 * b + k) = Ok x /\ selects_in 8 b k x.
Proof.
  intros Hb Hk. pose proof (onesCount_bounds 8 b) as Hc. pose proof select8_checked as H.
  rewrite forallb_forall in H. specialize (H (Z.to_nat b)). rewrite forallb_forall in H.
  specialize (H ltac:(apply in_seq; lia) (Z.to_nat k) ltac:(apply in_seq; lia)).
  unfold select8_check in H. rewrite !Z2Nat.id in H by lia.
  apply orb_true_iff in H as [H|H]; [apply Z.leb_le in H; lia|].
  destruct (at_ select8Lookup (8 * b + k)) as [x|]; [|done]. exists x. split; [done|].
  rewrite !andb_true_iff in H. destruct H as [[[H1 H2] H3] H4].
  apply Z.leb_le in H1. apply Z.ltb_lt in H2. apply Z.eqb_eq in H4.
  exists (Z.to_nat x). rewrite Z2Nat.id by lia. split_and!; [done|lia|done|done].
Qed.

Lemma land_lo (n : nat) (m w : Z) x k :
  m = Z.ones (Z.of_nat n) -> selects_in n (Z.land w m) k x -> selects_in n w k x.
Proof.
  intros -> (q & -> & Hq & Hb & Hc). exists q. split_and!; [done|done| |].
  - rewrite Z.land_spec, Z.ones_spec_low, andb_true_r in Hb by lia. done.
  - rewrite <- Hc. apply onesCount_ext. intros i Hi.
    rewrite Z.land_spec, Z.ones_spec_low by lia. by rewrite andb_true_r.
Qed.

Lemma lor_index b k : 0 <= k < 8 -> Z.lor (Z.shiftl b 3) k = 8 * b + k.
Proof.
  intros Hk. pose proof (Z.add_lor_land (Z.shiftl b 3) k) as E.
  rewrite !Z.shiftl_mul_pow2 in * by lia.
  replace (Z.land (b * 2 ^ 3) k) with 0 in E; [lia|]. symmetry. apply Z.bits_inj'. intros i Hi.
  rewrite Z.bits_0, Z.land_spec. rewrite <- Z.shiftl_mul_pow2 by lia.
  destruct (decide (i < 3)); [by rewrite Z.shiftl_spec_low by lia|].
  rewrite (Z.bits_above_log2 k i); [apply andb_false_r|lia|].
  destruct (decide (k = 0)) as [->|]; [simpl; lia|].
  enough (Z.log2 k < 3) by lia. apply Z.log2_lt_pow2; lia.
Qed.

Lemma select_byte w k :
  0 <= k < onesCount 8 w ->
  exists x, at_ select8Lookup (Z.lor (Z.shiftl (Z.land w 0xff) 3) k) = Ok x /\ selects_in 8 w k x.
Proof.
  intros Hk. pose proof (onesCount_bounds 8 w) as Hc. rewrite lor_index by lia.
  assert (Hb : 0 <= Z.land w 255 < 256).
  { change 255 with (Z.ones 8). rewrite Z.land_ones by lia. apply Z.mod_pos_bound. lia. }
  assert (He : onesCount 8 (Z.land w 255) = onesCount 8 w).
  { apply onesCount_ext. intros i Hi. change 255 with (Z.ones 8).
    rewrite Z.land_spec, Z.ones_spec_low by lia. apply andb_true_r. }
  destruct (select8_ok _ k Hb ltac:(lia)) as (x & Hx & Hs). exists x. split; [done|].
  by apply (land_lo 8 255 w).
Qed.

Lemma second_byte w : Z.land (Z.shiftr w 5) 0x7f8 = Z.shiftl (Z.land (Z.shiftr w 8) 0xff) 3.
Proof.
  change 0x7f8 with (Z.shiftl 0xff 3). apply Z.bits_inj'. intros i Hi.
  rewrite Z.land_spec, Z.shiftr_spec by lia. rewrite !(Z.shiftl_spec _ 3) by lia.
  destruct (decide (i < 3)).
  - rewrite !(Z.testbit_neg_r _ (i - 3)) by lia. apply andb_false_r.
  - rewrite Z.land_spec, Z.shiftr_spec by lia. do 2 f_equal. lia.
Qed.

(** The last step of the search, by bytes *)
Definition selectInHalf (ww f off : Z) : result Z :=
  if onesCount 8 ww <=? f then
    x ← at_ select8Lookup (Z.lor (Z.land (Z.shiftr ww 5) 0x7f8) (f - onesCount 8 ww)); Ok (x + off + 8)
  else x ← at_ select8Lookup (Z.lor (Z.shiftl (Z.land ww 0xff) 3) f); Ok (x + off).

Lemma split_half (n : nat) w k :
  0 <= k < onesCount (n + n) w -> onesCount n w <= k ->
  0 <= k - onesCount n w < onesCount n (Z.shiftr w (Z.of_nat n)).
Proof. rewrite onesCount_split. lia. Qed.

Lemma selectInHalf_ok ww f off :
  0 <= f < onesCount 16 ww -> exists x, selectInHalf ww f off = Ok (x + off) /\ selects_in 16 ww f x.
Proof.
  intros Hf. unfold selectInHalf. destruct (Z.leb_spec (onesCount 8 ww) f) as [Hle|Hlt].
  - rewrite second_byte. destruct (select_byte _ _ (split_half 8 ww f Hf Hle)) as (x & Hx & Hs).
    change (Z.of_nat 8) with 8 in Hx. rewrite Hx. exists (x + Z.of_nat 8). cbn [mbind result_bind].
    split; [f_equal; lia|]. by apply (selects_high 8 8).
  - destruct (select_byte ww f ltac:(lia)) as (x & Hx & Hs). rewrite Hx. exists x. split; [done|].
    by apply (selects_low 8); [|lia].
Qed.

Definition selectInHalves (ww f off : Z) : result Z :=
  let '(f, off, ww) :=
    if onesCount 16 ww <=? f then (f - onesCount 16 ww, Z.lor off 16, Z.shiftr ww 16) else (f, off, ww) in
  selectInHalf ww f off.

Lemma selectInHalves_ok ww f off :
  0 <= f < onesCount 32 ww -> Z.land off 16 = 0 ->
  exists x, selectInHalves ww f off = Ok (x + off) /\ selects_in 32 ww f x.
Proof.
  intros Hf Ho. unfold selectInHalves. destruct (Z.leb_spec (onesCount 16 ww) f) as [Hle|Hlt].
  - destruct (selectInHalf_ok _ _ (Z.lor off 16) (split_half 16 ww f Hf Hle)) as (x & Hx & Hs).
    change (Z.of_nat 16) with 16 in Hx. rewrite Hx. exists (x + Z.of_nat 16).
    pose proof (Z.add_lor_land off 16) as E. rewrite Ho in E. split; [f_equal; lia|].
    by apply (selects_high 16 16).
  - destruct (selectInHalf_ok ww f off ltac:(lia)) as (x & Hx & Hs). exists x. split; [done|].
    by apply (selects_low 16); [|lia].
Qed.

Lemma selectInWord_halves w k :
  selectInWord w k =
  if onesCount 32 w <=? k then selectInHalves (Z.shiftr w (Z.of_nat 32)) (k - onesCount 32 w) 32
  else selectInHalves w k 0.
Proof.
  unfold selectInWord, selectInHalves, selectInHalf. change (Z.lor 0 32) with 32.
  change (Z.of_nat 32) with 32. by destruct (onesCount 32 w <=? k).
Qed.

(** The search by halves and bytes finds the one. *)
Lemma selectInWord_ok w k :
  0 <= k < onesCount 64 w -> exists x, selectInWord w k = Ok x /\ selects_in 64 w k x.
Proof.
  intros Hk. rewrite selectInWord_halves. destruct (Z.leb_spec (onesCount 32 w) k) as [Hle|Hlt].
  - destruct (selectInHalves_ok _ _ 32 (split_half 32 w k Hk Hle) eq_refl) as (x & Hx & Hs).
    exists (x + Z.of_nat 32). rewrite Hx. split; [done|]. by apply (selects_high 32 32).
  - destruct (selectInHalves_ok w k 0 ltac:(lia) eq_refl) as (x & Hx & Hs).
    exists (x + 0). rewrite Hx. split; [done|]. rewrite Z.add_0_r. by apply (selects_low 32); [|lia].
Qed.

Lemma testbit_land w j : 0 <= j -> Z.testbit w j = negb (Z.land w (Z.shiftl 1 j) =? 0).
Proof.
  intros Hj. rewrite Z.shiftl_1_l. destruct (Z.testbit w j) eqn:Hb; symmetry.
  - apply negb_true_iff, Z.eqb_neq. intros E.
    assert (H : Z.testbit (Z.land w (2 ^ j)) j = true) by (by rewrite Z.land_spec, Hb, Z.pow2_bits_true).
    by rewrite E, Z.testbit_0_l in H.
  - apply negb_false_iff, Z.eqb_eq, Z.bits_inj'. intros i Hi. rewrite Z.bits_0, Z.land_spec.
    destruct (decide (i = j)) as [->|]; [by rewrite Hb|].
    rewrite Z.pow2_bits_false by done. apply andb_false_r.
Qed.

(** The loop ends at the word of the one. *)
Lemma selectWord_ok words i k fuel :
  64 * Z.of_nat (length words) < 2 ^ 31 -> i < ones (bitsOf words) ->
  ones (bitsOf (take k words)) <= i -> (length words < k + fuel)%nat ->
  exists m w, selectWord fuel (indexRank64 0 words) (Z.of_nat k) i = Ok (Z.of_nat m)
    /\ words !! m = Some w /\ ones (bitsOf (take m words)) <= i < ones (bitsOf (take m words)) + ones (wordBits w).
Proof.
  intros Hb Hi. revert k. induction fuel as [|fuel IH]; intros k Hk Hf.
  { rewrite take_ge in Hk by lia. lia. }
  destruct (decide (k < length words)%nat) as [Hlt|]; [|rewrite take_ge in Hk by lia; lia].
  destruct (lookup_lt_is_Some_2 words k Hlt) as [w Hw]. cbn [selectWord].
  replace (Z.of_nat k + 1) with (Z.of_nat (S k)) by lia.
  rewrite rank_index by lia. cbn [mbind result_bind].
  assert (E : ones (bitsOf (take (S k) words)) = ones (bitsOf (take k words)) + ones (wordBits w)).
  { rewrite (take_S_r _ _ _ Hw), bitsOf_app, ones_app, bitsOf_cons, ones_app.
    change (ones (bitsOf [])) with 0. lia. }
  destruct (Z.leb_spec (ones (bitsOf (take (S k) words))) i) as [Hle|Hgt].
  - apply IH; [done|lia].
  - exists k, w. split_and!; [done|done|lia|lia].
Qed.

(** Every 32nd one is in the index. *)
Lemma indexSelect_lookup words n i ith m :
  (n + i = 64 * length words)%nat -> 64 * Z.of_nat (length words) < 2 ^ 31 ->
  ith + 1 = ones (take i (bitsOf words)) ->
  ith + 1 <= 32 * m < ones (bitsOf words) ->
  exists p, indexSelect n words (Z.of_nat i) ith !! Z.to_nat (m - (ith + 32) / 32) = Some (Z.of_nat p)
    /\ bitsOf words !! p = Some true /\ ones (take p (bitsOf words)) = 32 * m.
Proof.
  revert i ith. induction n as [|n IH]; intros i ith Hn Hb Hith Hm.
  { rewrite take_ge in Hith by (rewrite bitsOf_length; lia). lia. }
  destruct (split64 i) as (k & j & Hj & Ei).
  destruct (lookup_lt_is_Some_2 words k ltac:(lia)) as [w Hw].
  pose proof (bitsOf_lookup _ _ _ _ Hw Hj) as Hbit. rewrite <- Ei in Hbit.
  pose proof (ones_bounds (take i (bitsOf words))) as Hpos.
  cbn [indexSelect]. rewrite (shiftr_div _ k j), (land_mod _ k j), Nat2Z.id, Hw by lia.
  replace (negb (Z.land w (Z.shiftl 1 (Z.of_nat j)) =? 0)) with (Z.testbit w (Z.of_nat j)).
  2:{ apply testbit_land. lia. }
  pose proof (ones_take_S _ _ _ Hbit) as Hnext.
  replace (Z.of_nat i + 1) with (Z.of_nat (S i)) by lia.
  destruct (Z.testbit w (Z.of_nat j)); cbn [Z.b2z] in Hnext.
  - change 31 with (Z.ones 5). rewrite Z.land_ones by lia. change (2 ^ 5) with 32.
    destruct (Z.eqb_spec ((ith + 1) mod 32) 0) as [E|E].
    + rewrite i32_small by lia. destruct (decide (32 * m = ith + 1)) as [Em|].
      * exists i. replace (m - (ith + 32) / 32) with 0 by divlia. split_and!; [done|done|lia].
      * destruct (IH (S i) (ith + 1) ltac:(lia) Hb ltac:(lia) ltac:(divlia)) as (p & Hp & H).
        exists p. split; [|done]. replace (Z.to_nat (m - (ith + 32) / 32)) with (S (Z.to_nat (m - (ith + 1 + 32) / 32))) by divlia.
        done.
    + destruct (IH (S i) (ith + 1) ltac:(lia) Hb ltac:(lia) ltac:(divlia)) as (p & Hp & H).
      exists p. split; [|done]. rewrite app_nil_l.
      by replace ((ith + 32) / 32) with ((ith + 1 + 32) / 32) by divlia.
  - apply IH; [lia|done|lia|lia].
Qed.

(** The index gives a word that is not after the one. *)
Lemma selectStart words i :
  64 * Z.of_nat (length words) < 2 ^ 31 -> 0 <= i < ones (bitsOf words) ->
  exists s k, at_ (indexSelect (64 * length words) words 0 (-1)) (Z.shiftr i 5) = Ok s
    /\ Z.shiftr s 6 = Z.of_nat k /\ ones (bitsOf (take k words)) <= i.
Proof.
  intros Hb Hi.
  assert (Hs5 : Z.shiftr i 5 = i / 32) by (rewrite Z.shiftr_div_pow2 by lia; done). rewrite Hs5.
  destruct (indexSelect_lookup words (64 * length words) 0 (-1) (i / 32) ltac:(lia) Hb eq_refl ltac:(divlia))
    as (s & Hs & Hbs & Hrs).
  replace (i / 32 - (-1 + 32) / 32) with (i / 32) in Hs by divlia.
  apply at_some in Hs. rewrite Z2Nat.id in Hs by divlia.
  destruct (split64 s) as (k & j & Hj & Es). exists (Z.of_nat s), k.
  split; [exact Hs|]. split; [by apply (shiftr_div _ k j); [|rewrite Es]|].
  assert (Hks : (64 * k + j < 64 * length words)%nat).
  { rewrite <- bitsOf_length, <- Es. by eapply lookup_lt_Some. }
  destruct (lookup_lt_is_Some_2 words k ltac:(lia)) as [w0 Hw0].
  rewrite Es, (take_bitsOf _ _ w0), ones_app in Hrs by (done || lia).
  pose proof (ones_bounds (take j (wordBits w0))). divlia.
Qed.

(** [select32R64] finds the [i]-th one. *)
Lemma select32R64_ok words i :
  64 * Z.of_nat (length words) < 2 ^ 31 -> 0 <= i < ones (bitsOf words) ->
  exists p, select32R64 words (indexSelect (64 * length words) words 0 (-1)) (indexRank64 0 words) i = Ok (Z.of_nat p)
    /\ bitsOf words !! p = Some true /\ ones (take p (bitsOf words)) = i.
Proof.
  intros Hb Hi.
  destruct (selectStart words i Hb Hi) as (s & k & Hsel & Hs & Hk).
  destruct (selectWord_ok words i k (S (length words)) Hb ltac:(lia) Hk ltac:(lia)) as (m & w & Hword & Hw & Hm).
  pose proof (lookup_lt_Some _ _ _ Hw) as Hlt. rewrite <- onesCount_word in Hm.
  destruct (selectInWord_ok w (i - ones (bitsOf (take m words))) ltac:(lia)) as (x & Hin & p & -> & Hp & Ht & Hc).
  exists (64 * m + p)%nat. split_and!.
  - unfold select32R64. rewrite (bind_Ok _ _ _ Hsel), Hs, (bind_Ok _ _ _ Hword).
    rewrite (bind_Ok _ _ _ (at_some _ _ _ Hw)), (bind_Ok _ _ _ (rank_index _ m Hb ltac:(lia))), (bind_Ok _ _ _ Hin).
    f_equal. rewrite Z.shiftl_mul_pow2 by lia. lia.
  - by rewrite (bitsOf_lookup _ _ _ _ Hw Hp), Ht.
  - rewrite (take_bitsOf _ _ _ _ Hw), ones_app, <- onesCount_ones by lia. lia.
Qed.
