(* ===== verification/SuccinctSpec.v ===== *)
(** * The succinct set holds its keys

    Bits are set and read where they should be; the level order of the trie that
    [newSuccinctSet] walks, and how a node's children are found from the bitmap. *)

From stdpp Require Import sorting.
From S2P Require Import Prelude Binary Succinct RankSelect.

(** ** Setting and reading bits *)

Definition bit (bm : list Z) (p : nat) : bool := default false (bitsOf bm !! p).

Lemma bit_word bm k j :
  (j < 64)%nat -> bit bm (64 * k + j) = Z.testbit (default 0 (bm !! k)) (Z.of_nat j).
Proof.
  intros Hj. unfold bit. destruct (bm !! k) as [w|] eqn:Hw.
  - by rewrite (bitsOf_lookup _ _ _ _ Hw Hj).
  - rewrite lookup_ge_None_2; [by rewrite Z.testbit_0_l|].
    apply lookup_ge_None in Hw. rewrite bitsOf_length. lia.
Qed.

Lemma bit_true_length bm p : bit bm p = true -> (p < 64 * length bm)%nat.
Proof.
  unfold bit. intros H. rewrite <- bitsOf_length. destruct (bitsOf bm !! p) eqn:E; [|done].
  by eapply lookup_lt_Some.
Qed.

Lemma bit_lookup bm p : (p < 64 * length bm)%nat -> bitsOf bm !! p = Some (bit bm p).
Proof.
  intros Hp. rewrite <- bitsOf_length in Hp. unfold bit.
  by destruct (lookup_lt_is_Some_2 _ _ Hp) as [b ->].
Qed.

Lemma getBit_ok bm p : (p < 64 * length bm)%nat -> getBit bm (Z.of_nat p) = Ok (bit bm p).
Proof.
  intros Hp. destruct (split64 p) as (k & j & Hj & ->).
  destruct (lookup_lt_is_Some_2 bm k ltac:(lia)) as [w Hw].
  unfold getBit. rewrite (shiftr_div _ k j), (land_mod _ k j) by lia.
  rewrite (bind_Ok _ _ _ (at_some _ _ _ Hw)), bit_word, Hw, <- testbit_land by lia. done.
Qed.

(** The words that [setBit] appends hold no ones. *)
Lemma grown_lookup (bm : list Z) n k : default 0 ((bm ++ replicate n 0) !! k) = default 0 (bm !! k).
Proof.
  destruct (decide (k < length bm)%nat); [by rewrite lookup_app_l|].
  rewrite lookup_app_r, (lookup_ge_None_2 bm k) by lia.
  destruct (replicate n 0 !! (k - length bm)%nat) eqn:E; [|done].
  apply lookup_replicate in E as [-> _]. done.
Qed.

Lemma setBit_length bm k j v :
  (j < 64)%nat -> length (setBit bm (Z.of_nat (64 * k + j)) v) = Nat.max (length bm) (S k).
Proof.
  intros Hj. unfold setBit. rewrite (shiftr_div _ k j) by lia.
  rewrite length_alter, length_app, length_replicate. lia.
Qed.

Lemma setBit_bit bm (b : bool) i p :
  bit (setBit bm (Z.of_nat i) (Z.b2z b)) p = bit bm p || (b && (p =? i)%nat).
Proof.
  destruct (split64 i) as (k & j & Hj & ->). destruct (split64 p) as (k' & j' & Hj' & ->).
  rewrite !bit_word by done. unfold setBit. rewrite (shiftr_div _ k j), (land_mod _ k j), Nat2Z.id by lia.
  destruct (decide (k' = k)) as [->|Hk].
  - rewrite list_lookup_alter_eq. set (grown := bm ++ _).
    assert (Hg : (k < length grown)%nat) by (subst grown; rewrite length_app, length_replicate; lia).
    destruct (lookup_lt_is_Some_2 _ _ Hg) as [w Hw]. rewrite Hw. cbn [fmap option_fmap option_map default from_option id].
    pose proof (grown_lookup bm (Z.to_nat (Z.of_nat k + 1 - Z.of_nat (length bm))) k) as Eg.
    fold grown in Eg. rewrite Hw in Eg. cbn [default from_option id] in Eg. rewrite <- Eg, Z.lor_spec. f_equal. unfold wrap. rewrite Z.mod_pow2_bits_low by lia.
    rewrite Z.shiftl_spec by lia. destruct b; cbn [Z.b2z andb]; [|by rewrite Z.bits_0].
    destruct (Nat.eqb_spec (64 * k + j') (64 * k + j)) as [E|E].
    + by replace (Z.of_nat j' - Z.of_nat j) with 0 by lia.
    + destruct (decide (j' < j)%nat); [by rewrite Z.testbit_neg_r by lia|].
      rewrite Z.bits_above_log2 by (simpl; lia). done.
  - rewrite list_lookup_alter_ne by done. rewrite grown_lookup.
    rewrite (proj2 (Nat.eqb_neq _ _)) by lia. by rewrite andb_false_r, orb_false_r.
Qed.

Lemma lor_fits w a b : 0 <= w -> fits w a -> fits w b -> fits w (Z.lor a b).
Proof.
  unfold fits. intros Hw [Ha Ha'] [Hb Hb']. split; [by apply Z.lor_nonneg|].
  apply Z.bounded_iff_bits_nonneg; [done|by apply Z.lor_nonneg|]. intros l Hl. rewrite Z.lor_spec.
  apply Z.bounded_iff_bits_nonneg with (l := l) in Ha'; [|done..].
  apply Z.bounded_iff_bits_nonneg with (l := l) in Hb'; [|done..]. by rewrite Ha', Hb'.
Qed.

Lemma setBit_fits bm i v : Forall (fits 64) bm -> Forall (fits 64) (setBit bm i v).
Proof.
  intros H. unfold setBit. apply Forall_alter.
  - apply Forall_app_2; [done|]. apply Forall_replicate. unfold fits. lia.
  - intros w _ Hf. apply lor_fits; [lia|done|]. apply Z.mod_pos_bound. lia.
Qed.

(** ** Sorted keys *)

Definition byteLt (x y : Byte.byte) : Prop := byteZ x < byteZ y.

Definition bytesLt (a b : bytes) : Prop := strLt a b = true.

Lemma bytesLt_cons x a y b :
  bytesLt (x :: a) (y :: b) <-> byteLt x y \/ (x = y /\ bytesLt a b).
Proof.
  unfold bytesLt, byteLt. cbn [strLt].
  destruct (Z.ltb_spec (byteZ x) (byteZ y)); [naive_solver|].
  destruct (Z.ltb_spec (byteZ y) (byteZ x)) as [H'|H'].
  - split; [done|]. intros [?|[-> _]]; lia.
  - assert (E : byteZ x = byteZ y) by lia. apply byteZ_inj in E as ->. naive_solver lia.
Qed.

#[global] Instance bytesLt_trans : Transitive bytesLt.
Proof.
  intros a. induction a as [|x a IH]; intros [|y b] [|z c] H1 H2; try done.
  rewrite bytesLt_cons in *. unfold byteLt in *.
  destruct H1 as [H1|[-> H1]], H2 as [H2|[-> H2]]; [left; lia|by left|by left|]. right. split; [done|by eapply IH].
Qed.

#[global] Instance byteLt_trans : Transitive byteLt.
Proof. intros x y z. unfold byteLt. lia. Qed.

(** ** Runs of keys *)

(** The runs of the keys: each is not empty and has the byte in the column. *)
Definition isRun (col : nat) (r : Byte.byte * list bytes) : Prop :=
  r.2 <> [] /\ Forall (fun k : bytes => k !! col = Some r.1) r.2.

Lemma splitRuns_ok col keys :
  Forall (fun k : bytes => (col < length k)%nat) keys ->
  exists runs, splitRuns col keys = Ok runs /\ concat runs.*2 = keys /\ Forall (isRun col) runs.
Proof.
  induction 1 as [|k keys Hk _ IH]; [by exists []|].
  destruct (lookup_lt_is_Some_2 _ _ Hk) as [c Hc]. destruct IH as (runs & E & Hcat & Hruns).
  cbn [splitRuns]. rewrite Hc, (bind_Ok _ _ _ E).
  destruct runs as [|[c' run] rest]; [|destruct (decide (c = c')) as [<-|]].
  - exists [(c, [k])]. simpl in *. subst keys. split_and!; [done|done|].
    repeat constructor; done.
  - exists ((c, k :: run) :: rest). inversion Hruns as [|? ? [Hne Hall] Hrest]; subst.
    split_and!; [done|done|]. constructor; [|done]. split; [done|]. by constructor.
  - exists ((c, [k]) :: (c', run) :: rest). split_and!; [done|by simpl in *; subst|].
    constructor; [|done]. split; [done|]. repeat constructor; done.
Qed.

(** The bytes of the runs of sorted keys increase. *)
Lemma splitRuns_sorted col keys runs :
  splitRuns col keys = Ok runs -> StronglySorted bytesLt (drop col <$> keys) ->
  StronglySorted byteLt runs.*1.
Proof.
  revert runs. induction keys as [|k keys IH]; intros runs H Hs; [injection H as <-; constructor|].
  cbn [splitRuns] in H. destruct (k !! col) as [c|] eqn:Hc; [|done].
  destruct (splitRuns col keys) as [runs'|] eqn:E; [|done]. simpl in H. injection H as <-.
  rewrite fmap_cons in Hs. apply StronglySorted_inv in Hs as [Hs Hk].
  specialize (IH _ eq_refl Hs).
  destruct runs' as [|[c' run] rest]; [repeat constructor|]. destruct (decide (c = c')) as [<-|Hne]; [done|].
  assert (Hlt : byteLt c c').
  { destruct keys as [|k1 keys]; [done|]. cbn [splitRuns] in E. destruct (k1 !! col) as [c1|] eqn:Hc1; [|done].
    destruct (splitRuns col keys) as [runs1|]; [|done]. simpl in E. injection E as E.
    assert (c1 = c') as -> by (destruct runs1 as [|[c2 run2] rest2]; [by simplify_eq|case_decide; by simplify_eq]).
    rewrite fmap_cons in Hk. apply Forall_cons_1 in Hk as [Hk _].
    rewrite (drop_S _ _ _ Hc), (drop_S _ _ _ Hc1) in Hk. apply bytesLt_cons in Hk as [?|[? _]]; done. }
  constructor; [done|]. constructor; [done|]. apply StronglySorted_inv in IH as [_ IH].
  eapply Forall_impl; [exact IH|]. intros x Hx. by etrans.
Qed.

(** ** The nodes of the trie *)

(** What is left of the keys of a node *)
Definition sufs (e : qElt) : list bytes := drop (qCol e) <$> qKeys e.

Definition wfElt (e : qElt) : Prop :=
  qKeys e <> [] /\ Forall (fun k : bytes => (qCol e <= length k)%nat) (qKeys e) /\ StronglySorted bytesLt (sufs e).

(** A bound of the nodes below *)
Definition weight (e : qElt) : nat := S (sum_list_with length (sufs e)).

Definition weights (es : list qElt) : nat := sum_list_with weight es.

Lemma run_sufs col c run :
  Forall (fun k : bytes => k !! col = Some c) run ->
  drop col <$> run = cons c <$> (drop (S col) <$> run).
Proof.
  induction 1 as [|k run Hk _ IH]; [done|]. rewrite !fmap_cons, IH. f_equal. by apply drop_S.
Qed.

Lemma sorted_cons_map c (l : list bytes) : StronglySorted bytesLt (cons c <$> l) -> StronglySorted bytesLt l.
Proof.
  induction l as [|x l IH]; intros H; [constructor|]. rewrite fmap_cons in H.
  apply StronglySorted_inv in H as [H Hx]. constructor; [by apply IH|].
  rewrite Forall_fmap in Hx. eapply Forall_impl; [exact Hx|]. intros y Hy. simpl in Hy.
  apply bytesLt_cons in Hy as [Hy|[_ Hy]]; [unfold byteLt in Hy; lia|done].
Qed.

Lemma sorted_sublist (l l' : list bytes) : StronglySorted bytesLt (l ++ l') ->
  StronglySorted bytesLt l /\ StronglySorted bytesLt l'.
Proof. intros H. split; [by eapply StronglySorted_app_1_l|by eapply StronglySorted_app_1_r]. Qed.

Definition kidsOf (col : nat) (runs : list (Byte.byte * list bytes)) : list (Byte.byte * qElt) :=
  map (fun r => (r.1, mkQElt r.2 (S col))) runs.

Lemma kidsOf_labels col runs : (kidsOf col runs).*1 = runs.*1.
Proof. induction runs as [|r runs IH]; [done|]. unfold kidsOf in *. rewrite map_cons, !fmap_cons, IH. done. Qed.

Lemma sum_cons_map c (l : list bytes) :
  sum_list_with length (cons c <$> l) = (length l + sum_list_with length l)%nat.
Proof. induction l as [|x l IH]; [done|]. rewrite fmap_cons. simpl. rewrite IH. lia. Qed.

(** The children of runs hold what follows their byte. *)
Lemma kidsOf_ok col runs :
  Forall (isRun col) runs -> StronglySorted bytesLt (drop col <$> concat runs.*2) ->
  Forall wfElt (kidsOf col runs).*2
  /\ (weights (kidsOf col runs).*2 <= sum_list_with length (drop col <$> concat runs.*2))%nat
  /\ forall c s, c :: s ∈ drop col <$> concat runs.*2 <->
       exists kid, (c, kid) ∈ kidsOf col runs /\ s ∈ sufs kid.
Proof.
  induction 1 as [|[c0 run] runs [Hne Hrun] _ IH].
  { intros _. split_and!; [done|done|]. intros c s. split; [by intros ?%elem_of_nil|].
    by intros (? & ?%elem_of_nil & _). }
  cbn [fst snd] in Hne, Hrun. change (kidsOf col ((c0, run) :: runs)) with ((c0, mkQElt run (S col)) :: kidsOf col runs).
  rewrite !fmap_cons. cbn [concat snd]. rewrite fmap_app. intros [Hs1 Hs2]%sorted_sublist. destruct (IH Hs2) as (Hwf & Hw & Hin).
  rewrite (run_sufs _ _ _ Hrun) in Hs1 |- *. split_and!.
  - constructor; [|done]. split_and!; [done| |by apply sorted_cons_map in Hs1].
    eapply Forall_impl; [exact Hrun|]. intros k Hk%lookup_lt_Some. simpl. lia.
  - rewrite sum_list_with_app, sum_cons_map, length_fmap. unfold weights in *. cbn [sum_list_with].
    change (weight (mkQElt run (S col))) with (S (sum_list_with length (drop (S col) <$> run))).
    destruct run; [done|]. cbn [length]. lia.
  - intros c s. rewrite elem_of_app, Hin. setoid_rewrite elem_of_cons. split.
    + intros [(s' & [= -> ->] & Hs')%list_elem_of_fmap|(kid & Hkid & Hs)]; [|naive_solver].
      eexists. split; [by left|done].
    + intros (kid & [[= -> ->]|Hkid] & Hs); [|naive_solver]. left. by apply list_elem_of_fmap_2.
Qed.

(** The keys of the runs, child by child *)
Definition kidKeys (k : Byte.byte * qElt) : list bytes := cons k.1 <$> sufs k.2.

Lemma kidsOf_keys col runs :
  Forall (isRun col) runs -> drop col <$> concat runs.*2 = concat (kidKeys <$> kidsOf col runs).
Proof.
  induction 1 as [|[c run] runs [_ Hrun] _ IH]; [done|]. cbn [fst snd] in Hrun.
  change (kidsOf col ((c, run) :: runs)) with ((c, mkQElt run (S col)) :: kidsOf col runs).
  rewrite !fmap_cons. cbn [concat snd]. rewrite fmap_app, IH, (run_sufs _ _ _ Hrun). done.
Qed.

(** What the children of a node are *)
Record expansion (e : qElt) (leaf : bool) (kids : list (Byte.byte * qElt)) : Prop := mkExpansion {
  exp_leaf : leaf = true <-> [] ∈ sufs e;
  exp_wf : Forall wfElt kids.*2;
  exp_sorted : StronglySorted byteLt kids.*1;
  exp_weight : (weights kids.*2 < weight e)%nat;
  exp_in : forall c s, c :: s ∈ sufs e <-> exists kid, (c, kid) ∈ kids /\ s ∈ sufs kid;
  exp_keys : sufs e = (if leaf then [[]] else []) ++ concat (kidKeys <$> kids);
}.

Lemma longer_than (col : nat) (k : bytes) : drop col k <> [] -> (col < length k)%nat.
Proof. intros H. destruct (decide (col < length k)%nat); [done|]. by rewrite drop_ge in H by lia. Qed.

Lemma lt_not_nil a b : bytesLt a b -> b <> [].
Proof. intros H ->. by destruct a. Qed.

(** The keys that go on after the column of a node *)
Definition goesOn (e : qElt) : list bytes :=
  match qKeys e with
  | [] => []
  | key :: rest => if (qCol e =? length key)%nat then rest else qKeys e
  end.

Lemma goesOn_ok e :
  wfElt e ->
  Forall (fun k : bytes => (qCol e < length k)%nat) (goesOn e)
  /\ StronglySorted bytesLt (drop (qCol e) <$> goesOn e)
  /\ (sum_list_with length (drop (qCol e) <$> goesOn e) <= sum_list_with length (sufs e))%nat
  /\ (forall c s, c :: s ∈ drop (qCol e) <$> goesOn e <-> c :: s ∈ sufs e)
  /\ sufs e = (if (qCol e =? length (hd [] (qKeys e)))%nat then [[]] else []) ++ (drop (qCol e) <$> goesOn e).
Proof.
  destruct e as [keys col]. unfold wfElt, goesOn, sufs. cbn [qKeys qCol]. intros (Hne & Hlen & Hs).
  destruct keys as [|key rest]; [done|]. rewrite fmap_cons in *.
  apply Forall_cons_1 in Hlen as [Hk Hlen]. pose proof Hs as Hs'. apply StronglySorted_inv in Hs as [Hs Hlt].
  assert (Hrest : Forall (fun k : bytes => (col < length k)%nat) rest).
  { rewrite Forall_fmap in Hlt. eapply Forall_impl; [exact Hlt|]. intros k H. simpl in H.
    apply longer_than. by eapply lt_not_nil. }
  destruct (Nat.eqb_spec col (length key)) as [->|Hcol].
  - cbn [hd]. rewrite Nat.eqb_refl, drop_all. split_and!; [done|done|simpl; lia| |done].
    intros c s. rewrite elem_of_cons. naive_solver.
  - cbn [hd]. rewrite (proj2 (Nat.eqb_neq _ _)), fmap_cons by done. split_and!; [|done|done|done|done].
    constructor; [lia|done].
Qed.

Lemma expand_ok e :
  wfElt e -> exists leaf kids, expand e = Ok (leaf, kids) /\ expansion e leaf kids.
Proof.
  intros Hwf. destruct (goesOn_ok e Hwf) as (Hlen & Hs & Hsum & Hin & Hkeys).
  destruct (splitRuns_ok _ _ Hlen) as (runs & Hruns & Hcat & Hr). rewrite <- Hcat in Hs, Hsum, Hin, Hkeys.
  destruct (kidsOf_ok _ _ Hr Hs) as (Hkwf & Hkw & Hkin).
  destruct e as [keys col]. cbn [qCol qKeys] in *. destruct keys as [|key rest]; [by destruct Hwf|].
  exists (col =? length key)%nat, (kidsOf col runs). unfold expand. cbn [qKeys qCol].
  unfold goesOn in Hruns. cbn [qKeys qCol] in Hruns. rewrite (bind_Ok _ _ _ Hruns). split; [done|].
  constructor.
  - destruct Hwf as (_ & Hlen' & Hs'). unfold sufs in *. cbn [qKeys qCol] in *. rewrite fmap_cons in *.
    apply Forall_cons_1 in Hlen' as [Hk _]. apply StronglySorted_inv in Hs' as [_ Hlt].
    rewrite Nat.eqb_eq, elem_of_cons. split; [intros ->; left; by rewrite drop_all|].
    intros [E|Hnil]; [apply (f_equal length) in E; rewrite length_drop in E; simpl in E; lia|].
    rewrite Forall_forall in Hlt. by destruct (lt_not_nil _ _ (Hlt _ Hnil)).
  - done.
  - rewrite kidsOf_labels. eapply splitRuns_sorted; [exact Hruns|].
    unfold goesOn in Hcat. cbn [qKeys qCol] in Hcat. by rewrite <- Hcat.
  - unfold weight. lia.
  - intros c s. by rewrite <- Hin, <- Hkin.
  - by rewrite Hkeys, (kidsOf_keys _ _ Hr).
Qed.

(** ** Filling the arrays *)

(** The words hold the bits, in as few words as there can be. *)
Record packs (bm : list Z) (B : list bool) : Prop := mkPacks {
  packs_bits : forall p, bit bm p = default false (B !! p);
  packs_length : length bm = ((length B + 63) / 64)%nat;
  packs_fits : Forall (fits 64) bm;
}.

Lemma snoc_default (l : list bool) b p :
  default false ((l ++ [b]) !! p) = default false (l !! p) || (b && (p =? length l)%nat).
Proof.
  destruct (Nat.eqb_spec p (length l)) as [->|Hne].
  - rewrite list_lookup_middle by done. rewrite lookup_ge_None_2 by lia. by destruct b.
  - rewrite andb_false_r, orb_false_r. destruct (decide (p < length l)%nat); [by rewrite lookup_app_l|].
    rewrite !lookup_ge_None_2; [done|lia|rewrite length_app; simpl; lia].
Qed.

Lemma setBit_packs bm B b :
  packs bm B -> packs (setBit bm (Z.of_nat (length B)) (Z.b2z b)) (B ++ [b]).
Proof.
  intros [Hb Hl Hf]. split; [|destruct (split64 (length B)) as (k & j & Hj & E)|by apply setBit_fits].
  - intros p. by rewrite setBit_bit, Hb, snoc_default.
  - rewrite E at 1. rewrite setBit_length, Hl, length_app, E by done. simpl length.
    destruct (decide (j = 0)%nat) as [->|].
    + replace ((64 * k + 0 + 63) / 64)%nat with k.
      2:{ apply Nat.div_unique with (r := 63%nat); lia. }
      replace ((64 * k + 0 + 1 + 63) / 64)%nat with (S k); [lia|].
      apply Nat.div_unique with (r := 0%nat); lia.
    + replace ((64 * k + j + 63) / 64)%nat with (S k).
      2:{ apply Nat.div_unique with (r := (j - 1)%nat); lia. }
      replace ((64 * k + j + 1 + 63) / 64)%nat with (S k); [lia|].
      apply Nat.div_unique with (r := j); lia.
Qed.

Lemma packs_nil : packs [] [].
Proof. by split. Qed.

Lemma packs_bitsOf bm B : packs bm B -> exists pad, bitsOf bm = B ++ replicate pad false.
Proof.
  intros [Hb Hl _]. exists (64 * length bm - length B)%nat.
  assert (Hge : (length B <= 64 * length bm)%nat).
  { rewrite Hl. pose proof (Nat.div_mod (length B + 63) 64 ltac:(lia)).
    pose proof (Nat.mod_upper_bound (length B + 63) 64 ltac:(lia)). lia. }
  apply list_eq. intros p. destruct (decide (p < 64 * length bm)%nat) as [Hp|Hp].
  - rewrite (bit_lookup _ _ Hp), Hb. destruct (decide (p < length B)%nat) as [Hp'|].
    + rewrite lookup_app_l by done. by destruct (lookup_lt_is_Some_2 _ _ Hp') as [b ->].
    + rewrite lookup_app_r, (lookup_ge_None_2 B p) by lia. symmetry. apply lookup_replicate. split; [done|lia].
  - rewrite !lookup_ge_None_2; [done| |rewrite bitsOf_length; lia].
    rewrite length_app, length_replicate. lia.
Qed.

(** The children and the flag of a node *)
Definition shape (e : qElt) : bool * list (Byte.byte * qElt) :=
  match expand e with Ok x => x | Err _ => (false, []) end.

Definition leafOf (e : qElt) : bool := (shape e).1.

Definition kids (e : qElt) : list (Byte.byte * qElt) := (shape e).2.

Definition nodeBits (e : qElt) : list bool := replicate (length (kids e)) false ++ [true].

Definition bitsN (N : list qElt) : list bool := concat (nodeBits <$> N).

Definition labelsN (N : list qElt) : bytes := concat ((fun e => (kids e).*1) <$> N).

Definition kidsN (N : list qElt) : list qElt := concat ((fun e => (kids e).*2) <$> N).

(** The arrays hold the nodes [P]. *)
Record encodes (st : building) (P : list qElt) : Prop := mkEncodes {
  enc_bits : packs (bBitmap st) (bitsN P);
  enc_idx : bIdx st = Z.of_nat (length (bitsN P));
  enc_labels : bLabels st = labelsN P;
  enc_leaves : forall p, bit (bLeaves st) p = default false ((leafOf <$> P) !! p);
  enc_leaves_fit : Forall (fits 64) (bLeaves st);
  enc_leaves_length : (length (bLeaves st) <= length P)%nat;
}.

Lemma concat_snoc {A B} (f : A -> list B) l x : concat (f <$> l ++ [x]) = concat (f <$> l) ++ f x.
Proof. rewrite fmap_app, concat_app. simpl. by rewrite app_nil_r. Qed.

Lemma addLabels_ok cs : forall st B,
  packs (bBitmap st) B -> bIdx st = Z.of_nat (length B) ->
  packs (bBitmap (addLabels st cs)) (B ++ replicate (length cs) false ++ [true])
  /\ bIdx (addLabels st cs) = Z.of_nat (length (B ++ replicate (length cs) false ++ [true]))
  /\ bLabels (addLabels st cs) = bLabels st ++ cs
  /\ bLeaves (addLabels st cs) = bLeaves st.
Proof.
  induction cs as [|c cs IH]; intros st B Hp Hi; cbn [addLabels].
  - cbn [bBitmap bIdx bLabels bLeaves length replicate app]. rewrite Hi, app_nil_r, length_app.
    split_and!; [|simpl; lia|done|done]. by apply (setBit_packs _ _ true).
  - set (st' := mkBuilding _ _ _ _). destruct (IH st' (B ++ [false])) as (H1 & H2 & H3 & H4).
    + subst st'. cbn [bBitmap]. rewrite Hi. by apply (setBit_packs _ _ false).
    + subst st'. cbn [bIdx]. rewrite Hi, length_app. simpl. lia.
    + rewrite <- app_assoc in H1, H2. cbn [length replicate app] in *. split_and!; [done|done| |done].
      rewrite H3. subst st'. cbn [bLabels]. by rewrite <- app_assoc.
Qed.

(** One round of the loop adds a node. *)
Lemma encodes_snoc st P e :
  encodes st P ->
  encodes (addLabels (if leafOf e
    then mkBuilding (setBit (bLeaves st) (Z.of_nat (length P)) 1) (bBitmap st) (bLabels st) (bIdx st) else st)
    (kids e).*1) (P ++ [e]).
Proof.
  intros [Hb Hi Hl Hv Hf Hn]. set (st' := if leafOf e then _ else st).
  assert (Hst : bBitmap st' = bBitmap st /\ bIdx st' = bIdx st /\ bLabels st' = bLabels st)
    by (subst st'; by destruct (leafOf e)). destruct Hst as (E1 & E2 & E3).
  destruct (addLabels_ok (kids e).*1 st' (bitsN P) ltac:(by rewrite E1) ltac:(by rewrite E2)) as (H1 & H2 & H3 & H4).
  rewrite length_fmap in H1, H2. fold (nodeBits e) in H1, H2.
  assert (EB : bitsN (P ++ [e]) = bitsN P ++ nodeBits e) by (apply concat_snoc).
  split.
  - by rewrite EB.
  - by rewrite EB.
  - rewrite H3, E3, Hl. symmetry. apply (concat_snoc (fun e => (kids e).*1)).
  - intros p. rewrite H4, fmap_app. cbn [fmap list_fmap]. rewrite snoc_default, length_fmap, <- Hv.
    subst st'. destruct (leafOf e); [apply (setBit_bit _ true)|by rewrite orb_false_r].
  - rewrite H4. subst st'. destruct (leafOf e); [by apply setBit_fits|done].
  - rewrite H4, length_app. cbn [length]. subst st'. destruct (leafOf e); [|lia]. cbn [bLeaves].
    destruct (split64 (length P)) as (k & j & Hj & E). rewrite E at 1. rewrite setBit_length by done. lia.
Qed.

Lemma kids_ok e : wfElt e -> expand e = Ok (leafOf e, kids e) /\ expansion e (leafOf e) (kids e).
Proof.
  intros Hwf. destruct (expand_ok e Hwf) as (leaf & ks & E & H). unfold leafOf, kids, shape. by rewrite E.
Qed.

(** A node has fewer bytes below it than its parent. *)
Lemma kid_weight e c kid : wfElt e -> (c, kid) ∈ kids e -> (weight kid < weight e)%nat.
Proof.
  intros Hwf Hin. pose proof (exp_weight _ _ _ (proj2 (kids_ok e Hwf))) as H.
  enough (weight kid <= weights (kids e).*2)%nat by lia. unfold weights.
  apply list_elem_of_split in Hin as (l1 & l2 & ->). rewrite fmap_app, fmap_cons, sum_list_with_app. cbn [sum_list_with snd]. lia.
Qed.

(** The nodes of the trie below a node, with itself *)
Fixpoint count (w : nat) (e : qElt) : nat :=
  match w with O => O | S w => S (sum_list_with (count w) (kids e).*2) end.

Definition size (e : qElt) : nat := count (weight e) e.

Lemma sum_list_with_ext {A} (f g : A -> nat) l :
  (forall x, x ∈ l -> f x = g x) -> sum_list_with f l = sum_list_with g l.
Proof.
  induction l as [|x l IH]; intros H; [done|]. cbn [sum_list_with].
  rewrite H by (by left). by rewrite IH by (intros; apply H; by right).
Qed.

Lemma kid_in (e kid : qElt) : wfElt e -> kid ∈ (kids e).*2 -> wfElt kid /\ (weight kid < weight e)%nat.
Proof.
  intros Hwf Hin. pose proof (exp_wf _ _ _ (proj2 (kids_ok e Hwf))) as Hk. rewrite Forall_forall in Hk.
  split; [by apply Hk|]. apply list_elem_of_fmap in Hin as ([c k] & -> & Hin). by apply (kid_weight e c).
Qed.

Lemma count_enough w : forall w' e,
  wfElt e -> (weight e <= w)%nat -> (weight e <= w')%nat -> count w e = count w' e.
Proof.
  induction w as [|w IH]; intros [|w'] e Hwf Hw Hw'; try (unfold weight in *; lia).
  cbn [count]. f_equal. apply sum_list_with_ext. intros kid Hk. destruct (kid_in e kid Hwf Hk).
  apply IH; [done|lia|lia].
Qed.

Lemma size_eq e : wfElt e -> size e = S (sum_list_with size (kids e).*2).
Proof.
  intros Hwf. unfold size at 1. change (weight e) with (S (sum_list_with length (sufs e))). cbn [count]. f_equal.
  apply sum_list_with_ext. intros kid Hk. destruct (kid_in e kid Hwf Hk) as [Hkw Hlt]. unfold weight in Hlt.
  apply count_enough; [done|unfold weight; lia|done].
Qed.

(** The loop ends, with the nodes in level order: each node's children follow those of the
    nodes before it. *)
Lemma buildLoop_ok root fuel : forall queue P st,
  Forall wfElt queue -> Forall wfElt P -> (weights queue <= fuel)%nat ->
  encodes st P -> P ++ queue = root :: kidsN P ->
  exists N st', buildLoop fuel queue (Z.of_nat (length P)) st = Ok st' /\ encodes st' N
    /\ N = root :: kidsN N /\ Forall wfElt N /\ (length N <= length P + fuel)%nat
    /\ length N = (length P + sum_list_with size queue)%nat.
Proof.
  induction fuel as [|fuel IH]; intros [|e queue] P st Hq HP Hw Henc HN.
  - exists P, st. rewrite app_nil_r in HN. split_and!; [done|done|done|done|lia|simpl; lia].
  - unfold weights in Hw. simpl in Hw. unfold weight in Hw. lia.
  - exists P, st. rewrite app_nil_r in HN. split_and!; [done|done|done|done|lia|simpl; lia].
  - apply Forall_cons_1 in Hq as [He Hq]. destruct (kids_ok e He) as [E Hexp].
    cbn [buildLoop]. rewrite (bind_Ok _ _ _ E).
    pose proof (exp_weight _ _ _ Hexp) as Hwe.
    destruct (IH (queue ++ (kids e).*2) (P ++ [e])
      (addLabels (if leafOf e
         then mkBuilding (setBit (bLeaves st) (Z.of_nat (length P)) 1) (bBitmap st) (bLabels st) (bIdx st)
         else st) (kids e).*1)) as (N & st' & H & Henc' & H1 & H2 & H3 & H4).
    + apply Forall_app_2; [done|]. apply Hexp.
    + apply Forall_app_2; [done|]. by constructor.
    + unfold weights in *. rewrite sum_list_with_app. cbn [sum_list_with] in Hw. lia.
    + by apply encodes_snoc.
    + rewrite <- app_assoc. simpl. rewrite app_comm_cons, app_assoc, HN. unfold kidsN.
      by rewrite (concat_snoc (fun e => (kids e).*2)).
    + exists N, st'. rewrite length_app in H, H3, H4. cbn [length] in H, H3, H4.
      replace (Z.of_nat (length P) + 1) with (Z.of_nat (length P + 1)) by lia.
      split_and!; [done|done|done|done|lia|]. rewrite H4, sum_list_with_app. cbn [sum_list_with].
      rewrite (size_eq e He). lia.
Qed.

(** ** The nodes in the arrays *)

Lemma bitsN_app a b : bitsN (a ++ b) = bitsN a ++ bitsN b.
Proof. unfold bitsN. by rewrite fmap_app, concat_app. Qed.

Lemma ones_replicate n : ones (replicate n false) = 0.
Proof. induction n as [|n IH]; [done|]. cbn [replicate ones]. by rewrite IH. Qed.

Lemma ones_bitsN N : ones (bitsN N) = Z.of_nat (length N).
Proof.
  induction N as [|e N IH]; [done|]. change (bitsN (e :: N)) with (nodeBits e ++ bitsN N).
  unfold nodeBits. rewrite !ones_app, ones_replicate, IH. cbn [ones Z.b2z length]. lia.
Qed.

Lemma length_bitsN N : length (bitsN N) = (length N + length (kidsN N))%nat.
Proof.
  induction N as [|e N IH]; [done|]. change (bitsN (e :: N)) with (nodeBits e ++ bitsN N).
  change (kidsN (e :: N)) with ((kids e).*2 ++ kidsN N).
  unfold nodeBits. rewrite !length_app, length_replicate, IH, length_fmap. simpl. lia.
Qed.

Lemma length_labelsN N : length (labelsN N) = length (kidsN N).
Proof.
  induction N as [|e N IH]; [done|]. change (labelsN (e :: N)) with ((kids e).*1 ++ labelsN N).
  change (kidsN (e :: N)) with ((kids e).*2 ++ kidsN N). by rewrite !length_app, !length_fmap, IH.
Qed.

(** The first bit of node [n], and the number of its child [c] *)
Definition start (N : list qElt) (n : nat) : nat := length (bitsN (take n N)).

Definition child (N : list qElt) (n c : nat) : nat := S (length (kidsN (take n N)) + c).

Section Node.
Context (N : list qElt) (n : nat) (e : qElt) (He : N !! n = Some e).

(** An array that joins the parts of the nodes *)
Lemma node_split {B} (f : qElt -> list B) :
  concat (f <$> N) = concat (f <$> take n N) ++ f e ++ concat (f <$> drop (S n) N).
Proof. rewrite <- (take_drop_middle N n e He) at 1. by rewrite fmap_app, fmap_cons, concat_app. Qed.

Lemma node_part {B} (f : qElt -> list B) c x :
  f e !! c = Some x -> concat (f <$> N) !! (length (concat (f <$> take n N)) + c)%nat = Some x.
Proof.
  intros Hc. rewrite node_split, lookup_app_r by lia. rewrite Nat.add_comm, Nat.add_sub.
  by apply lookup_app_l_Some.
Qed.

Lemma start_eq : start N n = (n + length (kidsN (take n N)))%nat.
Proof.
  unfold start. rewrite length_bitsN, length_take. pose proof (lookup_lt_Some _ _ _ He). lia.
Qed.

Lemma node_bits_take c :
  (c <= length (kids e))%nat -> take (start N n + c) (bitsN N) = bitsN (take n N) ++ replicate c false.
Proof.
  intros Hc. unfold start, bitsN. rewrite node_split, take_app_add. f_equal. unfold nodeBits.
  rewrite <- app_assoc, take_app_le by (rewrite length_replicate; lia). rewrite take_replicate. f_equal. lia.
Qed.

Lemma node_bit c : (c <= length (kids e))%nat -> bitsN N !! (start N n + c)%nat = Some (c =? length (kids e))%nat.
Proof.
  intros Hc. apply node_part. unfold nodeBits. destruct (Nat.eqb_spec c (length (kids e))) as [->|Hne].
  - by rewrite list_lookup_middle by (by rewrite length_replicate).
  - rewrite lookup_app_l by (rewrite length_replicate; lia). apply lookup_replicate. split; [done|lia].
Qed.

Lemma node_ones c : (c <= length (kids e))%nat -> ones (take (start N n + c) (bitsN N)) = Z.of_nat n.
Proof.
  intros Hc. rewrite node_bits_take, ones_app, ones_replicate, ones_bitsN, length_take by done.
  pose proof (lookup_lt_Some _ _ _ He). lia.
Qed.

Lemma node_label c l kid :
  kids e !! c = Some (l, kid) -> labelsN N !! (start N n + c - n)%nat = Some l.
Proof.
  intros Hc. rewrite start_eq.
  replace (n + length (kidsN (take n N)) + c - n)%nat with (length (labelsN (take n N)) + c)%nat
    by (rewrite length_labelsN; lia).
  apply (node_part (fun e => (kids e).*1)). by rewrite list_lookup_fmap, Hc.
Qed.

Lemma node_child root c l kid :
  N = root :: kidsN N -> kids e !! c = Some (l, kid) -> N !! child N n c = Some kid.
Proof.
  intros HN Hc. transitivity ((root :: kidsN N) !! child N n c); [by rewrite <- HN|].
  apply (node_part (fun e => (kids e).*2)).
  by rewrite list_lookup_fmap, Hc.
Qed.

End Node.

(** ** The finished set *)

(** The arrays of [ss] hold the nodes [N] below [root] in level order. *)
Record levelOrder (ss : succinctSet) (root : qElt) (N : list qElt) : Prop := mkLevelOrder {
  lo_nodes : N = root :: kidsN N;
  lo_size : length N = size root;
  lo_wf : Forall wfElt N;
  lo_bits : packs (labelBitmap ss) (bitsN N);
  lo_labels : labels ss = labelsN N;
  lo_leaves : forall p, bit (leaves ss) p = default false ((leafOf <$> N) !! p);
  lo_leaves_fit : Forall (fits 64) (leaves ss);
  lo_leaves_length : (length (leaves ss) <= length N)%nat;
  lo_small : 64 * Z.of_nat (length (labelBitmap ss)) < 2 ^ 31;
  lo_ranks : ranks ss = indexRank64 0 (labelBitmap ss);
  lo_selects : selects ss = indexSelect (64 * length (labelBitmap ss)) (labelBitmap ss) 0 (-1);
}.

(** The last node in level order has no children, so a key ends there. *)
Lemma last_is_leaf root N e :
  N = root :: kidsN N -> Forall wfElt N -> last N = Some e -> leafOf e = true.
Proof.
  intros HN Hwf Hlast. rewrite last_lookup in Hlast.
  pose proof (proj1 (Forall_lookup _ _) Hwf _ _ Hlast) as He. destruct (kids_ok e He) as [_ Hexp].
  destruct (kids e) as [|[l kid] ks _] eqn:Hk using rev_ind.
  - apply (exp_leaf _ _ _ Hexp). destruct He as (Hne & _ & _). unfold sufs in *.
    destruct (qKeys e) as [|k keys] eqn:Ek; [done|]. rewrite fmap_cons. rewrite elem_of_cons. left.
    destruct (drop (qCol e) k) as [|c s] eqn:Es; [done|]. exfalso.
    destruct (proj1 (exp_in _ _ _ Hexp c s)) as (kid & Hin & _); [|by apply elem_of_nil in Hin].
    unfold sufs. rewrite Ek, fmap_cons, Es. by left.
  - assert (Hc : kids e !! length ks = Some (l, kid)) by (rewrite Hk; by apply list_lookup_middle).
    pose proof (node_child _ _ _ Hlast _ _ _ _ HN Hc) as Hchild.
    assert (Hidx : child N (pred (length N)) (length ks) = pred (length N)).
    { pose proof (f_equal length HN) as HL. cbn [length] in HL. unfold child.
      pose proof (node_split N _ _ Hlast (fun e => (kids e).*2)) as Hs. apply (f_equal length) in Hs.
      rewrite !length_app, length_fmap, Hk, length_app in Hs. cbn [length] in Hs.
      rewrite (drop_ge N) in Hs by lia. cbn [fmap list_fmap concat length] in Hs.
      fold (kidsN N) in Hs. fold (kidsN (take (pred (length N)) N)) in Hs. lia. }
    rewrite Hidx, Hlast in Hchild. injection Hchild as <-.
    pose proof (kid_weight e l e He ltac:(by eapply list_elem_of_lookup_2)). lia.
Qed.

Lemma sum_lengths (keys : list bytes) : sum_list_with length keys = length (concat keys).
Proof. induction keys as [|k keys IH]; [done|]. cbn [sum_list_with concat]. by rewrite length_app, IH. Qed.

Lemma sufs_root keys : sufs (mkQElt keys 0) = keys.
Proof. unfold sufs. cbn [qKeys qCol]. induction keys as [|k keys IH]; [done|]. by rewrite fmap_cons, IH. Qed.

(** Building the set of sorted keys ends and gives their trie. *)
Lemma newSuccinctSet_ok keys :
  keys <> [] -> StronglySorted bytesLt keys -> Z.of_nat (length (concat keys)) < 2 ^ 29 ->
  exists ss N, newSuccinctSet keys = Ok ss /\ levelOrder ss (mkQElt keys 0) N.
Proof.
  intros Hne Hs Hsmall.
  assert (Hroot : wfElt (mkQElt keys 0)).
  { split_and!; [done| |by rewrite sufs_root]. apply Forall_true. intros k. simpl. lia. }
  assert (Hw : weights [mkQElt keys 0] = S (length (concat keys))).
  { unfold weights. cbn [sum_list_with]. unfold weight. rewrite sufs_root, sum_lengths. lia. }
  destruct (buildLoop_ok (mkQElt keys 0) (S (length (concat keys))) [mkQElt keys 0] [] (mkBuilding [] [] [] 0))
    as (N & st & Hloop & [Hb Hi Hl Hv Hf Hn] & HN & Hwf & Hlen & Hsize).
  - by constructor.
  - done.
  - by rewrite Hw.
  - split; [by apply packs_nil|done|done|done|done|done].
  - done.
  - exists (initSet (bLeaves st) (bBitmap st) (bLabels st)), N. unfold newSuccinctSet.
    split; [by rewrite (bind_Ok _ _ _ Hloop)|].
    split; try done; [rewrite Hsize; cbn [sum_list_with length]; lia|]. cbn [initSet indexSelect32R64 labelBitmap].
    rewrite (packs_length _ _ Hb), length_bitsN. pose proof (f_equal length HN) as HL. cbn [length] in *.
    pose proof (Nat.div_mod (length N + length (kidsN N) + 63) 64 ltac:(lia)). lia.
Qed.

(** ** Reading the set *)

Section Access.
Context (ss : succinctSet) (root : qElt) (N : list qElt) (Hlo : levelOrder ss root N).

Lemma bits_prefix p b : bitsN N !! p = Some b ->
  bitsOf (labelBitmap ss) !! p = Some b /\ take p (bitsOf (labelBitmap ss)) = take p (bitsN N)
  /\ (p < 64 * length (labelBitmap ss))%nat.
Proof.
  intros Hp. destruct (packs_bitsOf _ _ (lo_bits _ _ _ Hlo)) as [pad E]. pose proof (lookup_lt_Some _ _ _ Hp).
  split_and!.
  - rewrite E. by apply lookup_app_l_Some.
  - rewrite E. apply take_app_le. lia.
  - rewrite <- bitsOf_length, E, length_app. lia.
Qed.

Lemma label_bit p b : bitsN N !! p = Some b -> getBit (labelBitmap ss) (Z.of_nat p) = Ok b.
Proof.
  intros Hp. destruct (bits_prefix p b Hp) as (Hb & _ & Hlt). rewrite (getBit_ok _ _ Hlt).
  unfold bit. by rewrite Hb.
Qed.

Context (n : nat) (e : qElt) (He : N !! n = Some e).

Lemma node_wf : wfElt e.
Proof. exact (proj1 (Forall_lookup _ _) (lo_wf _ _ _ Hlo) _ _ He). Qed.

(** The bits of a node: a zero for each child, then a one *)
Lemma getBit_node c :
  (c <= length (kids e))%nat ->
  getBit (labelBitmap ss) (Z.of_nat (start N n + c)) = Ok (c =? length (kids e))%nat.
Proof. intros Hc. apply label_bit. by apply node_bit. Qed.

Lemma label_node c l kid :
  kids e !! c = Some (l, kid) -> at_ (labels ss) (Z.of_nat (start N n + c) - Z.of_nat n) = Ok l.
Proof.
  intros Hc. pose proof (node_label _ _ _ He _ _ _ Hc) as H. rewrite <- (lo_labels _ _ _ Hlo) in H.
  rewrite (start_eq _ _ _ He) in H |- *. apply at_some in H. by rewrite Nat2Z.inj_sub in H by lia.
Qed.

(** The number of a child *)
Lemma countZeros_node c :
  (c < length (kids e))%nat ->
  countZeros (labelBitmap ss) (ranks ss) (Z.of_nat (start N n + c) + 1) = Ok (Z.of_nat (child N n c)).
Proof.
  intros Hc. pose proof (node_bit _ _ _ He (S c) Hc) as Hbit.
  destruct (bits_prefix _ _ Hbit) as (_ & Htake & Hlt). pose proof (lo_small _ _ _ Hlo).
  unfold countZeros. replace (Z.of_nat (start N n + c) + 1) with (Z.of_nat (start N n + S c)) by lia.
  rewrite i32_small, (lo_ranks _ _ _ Hlo) by lia.
  rewrite (bind_Ok _ _ _ (rank64_ones _ (start N n + S c) (lo_small _ _ _ Hlo) ltac:(rewrite bitsOf_length; lia))).
  rewrite Htake, (node_ones _ _ _ He) by lia. rewrite (start_eq _ _ _ He). unfold child. f_equal. lia.
Qed.

(** The first bit of a node that is not the root *)
Lemma selectIthOne_node :
  n <> 0%nat -> exists p, selectIthOne (labelBitmap ss) (ranks ss) (selects ss) (Z.of_nat n - 1) = Ok p
    /\ p + 1 = Z.of_nat (start N n).
Proof.
  intros Hn. destruct n as [|m]; [done|]. pose proof (lookup_lt_Some _ _ _ He) as Hlt.
  destruct (lookup_lt_is_Some_2 N m ltac:(lia)) as [e' He'].
  pose proof (node_bit _ _ _ He' _ (Nat.le_refl _)) as Hbit. rewrite Nat.eqb_refl in Hbit.
  pose proof (node_ones _ _ _ He' _ (Nat.le_refl _)) as Hones.
  destruct (bits_prefix _ _ Hbit) as (Hb & Htake & _). rewrite <- Htake in Hones.
  assert (Hi : 0 <= Z.of_nat m < ones (bitsOf (labelBitmap ss))).
  { split; [lia|]. pose proof (ones_take_S _ _ _ Hb). cbn [Z.b2z] in *.
    pose proof (ones_take_le (bitsOf (labelBitmap ss)) (S (start N m + length (kids e')))). lia. }
  pose proof (ones_bounds (bitsOf (labelBitmap ss))) as Hob. rewrite bitsOf_length in Hob.
  pose proof (lo_small _ _ _ Hlo) as Hsm.
  destruct (select32R64_ok _ _ Hsm Hi) as (p & Hsel & Hp & Hop).
  exists (Z.of_nat p). unfold selectIthOne. replace (Z.of_nat (S m) - 1) with (Z.of_nat m) by lia.
  rewrite i32_small, (lo_ranks _ _ _ Hlo), (lo_selects _ _ _ Hlo) by lia. split; [exact Hsel|].
  rewrite (one_unique _ _ _ Hp Hb) by congruence. unfold start.
  rewrite (take_S_r _ _ _ He'), bitsN_app, length_app. unfold bitsN at 3. simpl. unfold nodeBits.
  rewrite app_nil_r, length_app, length_replicate. simpl. lia.
Qed.

Lemma leaf_node : getBit (leaves ss) (Z.of_nat n) = Ok (leafOf e).
Proof.
  pose proof (lookup_lt_Some _ _ _ He) as Hlt.
  assert (Hl : exists e', last N = Some e') by (rewrite (lo_nodes _ _ _ Hlo); apply last_is_Some; done).
  destruct Hl as [e' Hl]. pose proof (last_is_leaf _ _ _ (lo_nodes _ _ _ Hlo) (lo_wf _ _ _ Hlo) Hl) as Hleaf.
  rewrite last_lookup in Hl.
  assert (Hb : bit (leaves ss) (pred (length N)) = true).
  { rewrite (lo_leaves _ _ _ Hlo), list_lookup_fmap, Hl. done. }
  apply bit_true_length in Hb. rewrite getBit_ok by lia. f_equal.
  by rewrite (lo_leaves _ _ _ Hlo), list_lookup_fmap, He.
Qed.

End Access.
