(* ===== verification/DomainMatcher.v ===== *)
(** * Domain matchers ([replace/sing/common/domain/matcher.go], [adguard_matcher.go])

    A matcher keeps the reversed domains of a rule in a succinct set: a suffix ends in
    [prefixLabel] or [rootLabel].  The AdGuard matcher adds wildcards and open ends. *)

From stdpp Require Import sorting.
From S2P Require Import Prelude Binary Succinct Utf8.

(** ** [reverseDomain] *)

(** Writing to [b[off:]] *)
Definition writeAt (b : bytes) (off : nat) (x : bytes) : result bytes :=
  if (off + length x <=? length b)%nat then Ok (take off b ++ x ++ drop (off + length x) b)
  else panic "index out of range".

Fixpoint reverseLoop (fuel : nat) (rest : bytes) (i : nat) (b : bytes) : result bytes :=
  match rest, fuel with
  | [], _ => Ok b
  | _, O => Err "out of fuel"%string
  | _, S fuel =>
      let '(r, n) := DecodeRune rest in
      b ← writeAt b (length b - (i + n)) (EncodeRune r);
      reverseLoop fuel (drop n rest) (i + n) b
  end.

Definition reverseDomain (domain : bytes) : result bytes :=
  reverseLoop (length domain) domain 0 (replicate (length domain) x00).

(** ** [Matcher] *)

Definition prefixLabel : Byte.byte := x0d.
Definition rootLabel : Byte.byte := x0a.
Definition dot : Byte.byte := x2e.

(** [sort.Strings] *)
Definition strLe (a b : bytes) : Prop := strLt b a = false.

#[global] Instance strLe_dec : RelDecision strLe := fun a b => decide (strLt b a = false).

Definition sort_Strings (l : list bytes) : list bytes := merge_sort strLe l.

(** The first loop of [NewMatcher]: the keys of the suffixes *)
Fixpoint suffixKeys (generateLegacy : bool) (domainSuffix : list bytes) (seen : gset bytes)
    (domainList : list bytes) : result (gset bytes * list bytes) :=
  match domainSuffix with
  | [] => Ok (seen, domainList)
  | domain :: rest =>
      if decide (domain ∈ seen) then suffixKeys generateLegacy rest seen domainList
      else
        let seen := {[domain]} ∪ seen in
        match domain with
        | [] => panic "index out of range"
        | c :: _ =>
            if decide (c = dot) then
              key ← reverseDomain (prefixLabel :: domain);
              suffixKeys generateLegacy rest seen (domainList ++ [key])
            else if generateLegacy then
              key ← reverseDomain domain;
              let domainList := domainList ++ [key] in
              let suffixDomain := dot :: domain in
              if decide (suffixDomain ∈ seen) then suffixKeys generateLegacy rest seen domainList
              else
                key ← reverseDomain (prefixLabel :: suffixDomain);
                suffixKeys generateLegacy rest ({[suffixDomain]} ∪ seen) (domainList ++ [key])
            else
              key ← reverseDomain (rootLabel :: domain);
              suffixKeys generateLegacy rest seen (domainList ++ [key])
        end
  end.

(** The second loop *)
Fixpoint domainKeys (domains : list bytes) (seen : gset bytes) (domainList : list bytes) : result (list bytes) :=
  match domains with
  | [] => Ok domainList
  | domain :: rest =>
      if decide (domain ∈ seen) then domainKeys rest seen domainList
      else
        key ← reverseDomain domain;
        domainKeys rest ({[domain]} ∪ seen) (domainList ++ [key])
  end.

Definition newMatcher (domains domainSuffix : list bytes) (generateLegacy : bool) : result succinctSet :=
  '(seen, domainList) ← suffixKeys generateLegacy domainSuffix ∅ [];
  domainList ← domainKeys domains seen domainList;
  newSuccinctSet (sort_Strings domainList).

(** The loop over the labels of a node: it returns, or stops at the label [currentChar] *)
Inductive scan := Return (b : bool) | Break (bmIdx : Z).

Fixpoint scanLabels (fuel : nat) (set : succinctSet) (currentChar : Byte.byte) (nodeId bmIdx : Z) : result scan :=
  match fuel with
  | O => Err "out of fuel"%string
  | S fuel =>
      one ← getBit (labelBitmap set) bmIdx;
      if one : bool then Ok (Return false)
      else
        nextLabel ← at_ (labels set) (bmIdx - nodeId);
        if decide (nextLabel = prefixLabel) then Ok (Return true)
        else
          hit ← (if decide (nextLabel = rootLabel) then
                   nextNodeId ← countZeros (labelBitmap set) (ranks set) (bmIdx + 1);
                   hasNext ← getBit (leaves set) nextNodeId;
                   Ok (bool_decide (currentChar = dot) && hasNext)
                 else Ok false);
          if hit : bool then Ok (Return true)
          else if decide (nextLabel = currentChar) then Ok (Break bmIdx)
          else scanLabels fuel set currentChar nodeId (bmIdx + 1)
  end.

(** The loop after the last byte *)
Fixpoint scanEnd (fuel : nat) (set : succinctSet) (nodeId bmIdx : Z) : result bool :=
  match fuel with
  | O => Err "out of fuel"%string
  | S fuel =>
      one ← getBit (labelBitmap set) bmIdx;
      if one : bool then Ok false
      else
        nextLabel ← at_ (labels set) (bmIdx - nodeId);
        if decide (nextLabel = prefixLabel \/ nextLabel = rootLabel) then Ok true
        else scanEnd fuel set nodeId (bmIdx + 1)
  end.

(** A node has fewer labels than there are bits. *)
Definition scanFuel (set : succinctSet) : nat := S (64 * length (labelBitmap set)).

Fixpoint hasFrom (set : succinctSet) (key : bytes) (nodeId bmIdx : Z) : result bool :=
  match key with
  | [] =>
      leaf ← getBit (leaves set) nodeId;
      if leaf : bool then Ok true else scanEnd (scanFuel set) set nodeId bmIdx
  | currentChar :: key =>
      s ← scanLabels (scanFuel set) set currentChar nodeId bmIdx;
      match s with
      | Return b => Ok b
      | Break bmIdx =>
          nodeId ← countZeros (labelBitmap set) (ranks set) (bmIdx + 1);
          p ← selectIthOne (labelBitmap set) (ranks set) (selects set) (nodeId - 1);
          hasFrom set key nodeId (p + 1)
      end
  end.

Definition matcherHas (set : succinctSet) (key : bytes) : result bool := hasFrom set key 0 0.

Definition Match_ (set : succinctSet) (domain : bytes) : result bool :=
  key ← reverseDomain domain; matcherHas set key.

(** ** Reading the keys back ([keys], [Dump]) *)

(** The walk over the trie: the stack has the top frame first *)
Fixpoint keysLoop (fuel : nat) (set : succinctSet) (stack : list (Z * Z)) (currentKey : bytes)
    (result_ : list bytes) : result (list bytes) :=
  match stack with
  | [] => Ok result_
  | (nodeId, bmIdx) :: below =>
      match fuel with
      | O => Err "out of fuel"%string
      | S fuel =>
          one ← getBit (labelBitmap set) bmIdx;
          if one : bool then
            match below with
            | [] => keysLoop fuel set [] currentKey result_
            | (nodeId', bmIdx') :: below =>
                keysLoop fuel set ((nodeId', bmIdx' + 1) :: below) (removelast currentKey) result_
            end
          else
            label ← at_ (labels set) (bmIdx - nodeId);
            let currentKey := currentKey ++ [label] in
            nextNodeId ← countZeros (labelBitmap set) (ranks set) (bmIdx + 1);
            p ← selectIthOne (labelBitmap set) (ranks set) (selects set) (nextNodeId - 1);
            leaf ← getBit (leaves set) nextNodeId;
            keysLoop fuel set ((nextNodeId, p + 1) :: stack) currentKey
              (if leaf : bool then result_ ++ [currentKey] else result_)
      end
  end.

(** Every bit of the bitmap is visited at most once as a zero and once as a one. *)
Definition set_keys (set : succinctSet) : result (list bytes) :=
  leaf ← getBit (leaves set) 0;
  keysLoop (128 * length (labelBitmap set)) set [(0, 0)] [] (if leaf : bool then [[]] else []).

(** The loop of [Dump] over the keys: the domains, the prefixes and the suffixes *)
Fixpoint dumpKeys (keys : list bytes) (domainMap prefixMap : gset bytes) (prefixList : list bytes)
    : result (gset bytes * gset bytes * list bytes) :=
  match keys with
  | [] => Ok (domainMap, prefixMap, prefixList)
  | key :: rest =>
      key ← reverseDomain key;
      match key with
      | [] => panic "index out of range"
      | c :: tail =>
          if decide (c = prefixLabel) then dumpKeys rest domainMap ({[tail]} ∪ prefixMap) prefixList
          else if decide (c = rootLabel) then dumpKeys rest domainMap prefixMap (prefixList ++ [tail])
          else dumpKeys rest ({[key]} ∪ domainMap) prefixMap prefixList
      end
  end.

(** The loop over the prefixes; the order of the map does not matter, because the lists are
    sorted and each prefix removes its own domain. *)
Fixpoint dumpPrefixes (prefixes : list bytes) (domainMap : gset bytes) (prefixList : list bytes)
    : result (gset bytes * list bytes) :=
  match prefixes with
  | [] => Ok (domainMap, prefixList)
  | [] :: _ => panic "index out of range"
  | (c :: rootDomain) :: rest =>
      if decide (c = dot /\ rootDomain ∈ domainMap)
      then dumpPrefixes rest (domainMap ∖ {[rootDomain]}) (prefixList ++ [rootDomain])
      else dumpPrefixes rest domainMap (prefixList ++ [c :: rootDomain])
  end.

Definition Dump (set : succinctSet) : result (list bytes * list bytes) :=
  keys ← set_keys set;
  '(domainMap, prefixMap, prefixList) ← dumpKeys keys ∅ ∅ [];
  '(domainMap, prefixList) ← dumpPrefixes (elements prefixMap) domainMap prefixList;
  Ok (sort_Strings (elements domainMap), sort_Strings prefixList).

(** ** [AdGuardMatcher] *)

Definition anyLabel : Byte.byte := x2a.
Definition suffixLabel : Byte.byte := x08.

Definition bar : Byte.byte := x7c.
Definition caret : Byte.byte := x5e.

(** [strings.HasSuffix(s, c)] and what is before it *)
Definition cutSuffix (c : Byte.byte) (s : bytes) : bytes * bool :=
  match last s with
  | Some x => if decide (x = c) then (removelast s, true) else (s, false)
  | None => (s, false)
  end.

(** The key of a rule line before it is reversed *)
Definition adGuardLine (ruleLine : bytes) : bytes :=
  let '(ruleLine, isSuffix, hasStart) :=
    match ruleLine with
    | a :: b :: rest => if decide (a = bar /\ b = bar) then (rest, true, false)
                        else if decide (a = bar) then (b :: rest, false, true) else (ruleLine, false, false)
    | a :: rest => if decide (a = bar) then (rest, false, true) else (ruleLine, false, false)
    | [] => ([], false, false)
    end in
  let '(ruleLine, hasEnd) := cutSuffix caret ruleLine in
  let ruleLine := if isSuffix : bool then rootLabel :: ruleLine
                  else if hasStart : bool then ruleLine else prefixLabel :: ruleLine in
  if hasEnd : bool then ruleLine else (cutSuffix dot ruleLine).1 ++ [suffixLabel].

(** [common.Uniq] *)
Fixpoint uniqFrom (seen : gset bytes) (arr : list bytes) : list bytes :=
  match arr with
  | [] => []
  | item :: arr =>
      if decide (item ∈ seen) then uniqFrom seen arr else item :: uniqFrom ({[item]} ∪ seen) arr
  end.

Definition Uniq (arr : list bytes) : list bytes := uniqFrom ∅ arr.

Definition newAdGuardMatcher (ruleLines : list bytes) : result succinctSet :=
  ruleList ← mapR (fun line => reverseDomain (adGuardLine line)) ruleLines;
  newSuccinctSet (sort_Strings (Uniq ruleList)).

(** The ends of a key, from the whole key to none of it *)
Fixpoint tails (key : bytes) : list bytes :=
  key :: match key with [] => [] | _ :: rest => tails rest end.

(** The first search that finds something *)
Fixpoint anyHit (f : bytes -> result bool) (l : list bytes) : result bool :=
  match l with
  | [] => Ok false
  | x :: l => hit ← f x; if hit : bool then Ok true else anyHit f l
  end.

(** The loop over the labels of a node; [rec] is the search one level deeper, and [key]
    starts with [currentChar] *)
Fixpoint adScan (rec : bytes -> Z -> Z -> result bool) (fuel : nat) (set : succinctSet)
    (currentChar : Byte.byte) (key : bytes) (nodeId bmIdx : Z) : result scan :=
  match fuel with
  | O => Err "out of fuel"%string
  | S fuel =>
      one ← getBit (labelBitmap set) bmIdx;
      if one : bool then Ok (Return false)
      else
        nextLabel ← at_ (labels set) (bmIdx - nodeId);
        if decide (nextLabel = prefixLabel) then Ok (Return true)
        else
          hit ← (if decide (nextLabel = rootLabel) then
                   nextNodeId ← countZeros (labelBitmap set) (ranks set) (bmIdx + 1);
                   hasNext ← getBit (leaves set) nextNodeId;
                   Ok (bool_decide (currentChar = dot) && hasNext)
                 else Ok false);
          if hit : bool then Ok (Return true)
          else if decide (nextLabel = currentChar) then Ok (Break bmIdx)
          else
            hit ← (if decide (nextLabel = anyLabel \/ nextLabel = suffixLabel) then
                     nextNodeId ← countZeros (labelBitmap set) (ranks set) (bmIdx + 1);
                     p ← selectIthOne (labelBitmap set) (ranks set) (selects set) (nextNodeId - 1);
                     anyHit (fun k => rec k nextNodeId (p + 1)) (tails key)
                   else Ok false);
            if hit : bool then Ok (Return true)
            else adScan rec fuel set currentChar key nodeId (bmIdx + 1)
  end.

(** The loop after the last byte *)
Fixpoint adScanEnd (rec : bytes -> Z -> Z -> result bool) (fuel : nat) (set : succinctSet)
    (nodeId bmIdx : Z) : result bool :=
  match fuel with
  | O => Err "out of fuel"%string
  | S fuel =>
      one ← getBit (labelBitmap set) bmIdx;
      if one : bool then Ok false
      else
        nextLabel ← at_ (labels set) (bmIdx - nodeId);
        if decide (nextLabel = prefixLabel \/ nextLabel = rootLabel \/ nextLabel = suffixLabel) then Ok true
        else if decide (nextLabel = anyLabel) then
          nextNodeId ← countZeros (labelBitmap set) (ranks set) (bmIdx + 1);
          p ← selectIthOne (labelBitmap set) (ranks set) (selects set) (nextNodeId - 1);
          rec [] nextNodeId (p + 1)
        else adScanEnd rec fuel set nodeId (bmIdx + 1)
  end.

(** The walk along the key at one depth *)
Fixpoint adWalk (rec : bytes -> Z -> Z -> result bool) (set : succinctSet) (key : bytes) (nodeId bmIdx : Z)
    : result bool :=
  match key with
  | [] =>
      leaf ← getBit (leaves set) nodeId;
      if leaf : bool then Ok true else adScanEnd rec (scanFuel set) set nodeId bmIdx
  | currentChar :: rest =>
      s ← adScan rec (scanFuel set) set currentChar key nodeId bmIdx;
      match s with
      | Return b => Ok b
      | Break bmIdx =>
          nodeId ← countZeros (labelBitmap set) (ranks set) (bmIdx + 1);
          p ← selectIthOne (labelBitmap set) (ranks set) (selects set) (nodeId - 1);
          adWalk rec set rest nodeId (p + 1)
      end
  end.

(** [hasWithDepth] at depth [101 - levels]: beyond [maxDepth] nothing is found *)
Fixpoint hasWithDepth (levels : nat) (set : succinctSet) (key : bytes) (nodeId bmIdx : Z) : result bool :=
  match levels with
  | O => Ok false
  | S levels => adWalk (hasWithDepth levels set) set key nodeId bmIdx
  end.

Definition adHas (set : succinctSet) (key : bytes) : result bool := hasWithDepth 101 set key 0 0.

(** The keys of the parents: after each dot *)
Fixpoint afterDots (key : bytes) : list bytes :=
  match key with
  | [] => []
  | c :: rest => if decide (c = dot) then rest :: afterDots rest else afterDots rest
  end.

Definition AdGuard_Match (set : succinctSet) (domain : bytes) : result bool :=
  key ← reverseDomain domain;
  hit ← adHas set key;
  if hit : bool then Ok true
  else anyHit (fun k => adHas set (suffixLabel :: k)) (key :: afterDots key).

(** The rule line of a key *)
Definition adGuardRule (key : bytes) : result bytes :=
  key ← reverseDomain key;
  match key with
  | [] => panic "index out of range"
  | c :: tail =>
      let '(key, isSuffix, hasStart) :=
        if decide (c = prefixLabel) then (tail, false, false)
        else if decide (c = rootLabel) then (tail, true, false) else (key, false, true) in
      match key with
      | [] => panic "index out of range"
      | _ =>
          let '(key, open_) := cutSuffix suffixLabel key in
          let key := if isSuffix : bool then bar :: bar :: key
                     else if hasStart : bool then bar :: key else key in
          Ok (if open_ : bool then key else key ++ [caret])
      end
  end.

Definition AdGuard_Dump (set : succinctSet) : result (list bytes) :=
  keys ← set_keys set; mapR adGuardRule keys.
