(* ===== verification/SuccinctKeys.v ===== *)
(** * Reading a succinct set back

    The walk over the trie gives the keys the set was built from, and a set that was
    written is read back. *)

From stdpp Require Import sorting.
From S2P Require Import Prelude Binary Succinct RankSelect SuccinctSpec Utf8 DomainMatcher.

(** ** The walk over the trie *)

Lemma fmap_app_cons (cur : bytes) l (xs : list bytes) : app cur <$> (cons l <$> xs) = app (cur ++ [l]) <$> xs.
Proof. rewrite <- list_fmap_compose. apply list_fmap_ext. intros i x _. simpl. by rewrite <- app_assoc. Qed.

Section Walk.
Context (ss : succinctSet) (root : qElt) (N : list qElt) (Hlo : levelOrder ss root N).

Definition frame (n c : nat) : Z * Z := (Z.of_nat n, Z.of_nat (start N n + c)).

(** A step to a child *)
Lemma walk_down n e c l kid below cur acc fuel :
  N !! n = Some e -> kids e !! c = Some (l, kid) ->
  keysLoop (S fuel) ss (frame n c :: below) cur acc =
  keysLoop fuel ss (frame (child N n c) 0 :: frame n c :: below) (cur ++ [l])
    (if leafOf kid then acc ++ [cur ++ [l]] else acc).
Proof.
  intros He Hk. pose proof (lookup_lt_Some _ _ _ Hk) as Hlt. unfold frame at 1. cbn [keysLoop].
  rewrite (bind_Ok _ _ _ (getBit_node _ _ _ Hlo _ _ He c ltac:(lia))), (proj2 (Nat.eqb_neq _ _)) by lia.
  rewrite (bind_Ok _ _ _ (label_node _ _ _ Hlo _ _ He _ _ _ Hk)).
  rewrite (bind_Ok _ _ _ (countZeros_node _ _ _ Hlo _ _ He c Hlt)).
  pose proof (node_child _ _ _ He root _ _ _ (lo_nodes _ _ _ Hlo) Hk) as Hchild.
  destruct (selectIthOne_node _ _ _ Hlo _ _ Hchild ltac:(done)) as (p & Hp & Ep).
  rewrite (bind_Ok _ _ _ Hp), (bind_Ok _ _ _ (leaf_node _ _ _ Hlo _ _ Hchild)), Ep.
  unfold frame. by rewrite Nat.add_0_r.
Qed.

(** A step back to the parent *)
Lemma walk_up n e n' c' below cur acc fuel :
  N !! n = Some e ->
  keysLoop (S fuel) ss (frame n (length (kids e)) :: frame n' c' :: below) cur acc =
  keysLoop fuel ss (frame n' (S c') :: below) (removelast cur) acc.
Proof.
  intros He. unfold frame at 1 2. cbn [keysLoop].
  rewrite (bind_Ok _ _ _ (getBit_node _ _ _ Hlo _ _ He _ (Nat.le_refl _))), Nat.eqb_refl.
  unfold frame. by replace (Z.of_nat (start N n' + c') + 1) with (Z.of_nat (start N n' + S c')) by lia.
Qed.

(** The rest of a node's children: twice as many steps as nodes *)
Lemma walk_node w : forall n e, N !! n = Some e -> (weight e <= w)%nat ->
  forall k c, (c + k = length (kids e))%nat ->
  forall below cur acc fuel,
  keysLoop (2 * sum_list_with size (drop c (kids e)).*2 + fuel) ss (frame n c :: below) cur acc =
  keysLoop fuel ss (frame n (length (kids e)) :: below) cur (acc ++ (app cur <$> concat (kidKeys <$> drop c (kids e)))).
Proof.
  induction w as [|w IHw]; intros n e He Hw; [unfold weight in Hw; lia|].
  pose proof (node_wf _ _ _ Hlo _ _ He) as Hwf.
  induction k as [|k IHk]; intros c Hc below cur acc fuel.
  { rewrite drop_ge by lia. simpl. rewrite app_nil_r. by replace c with (length (kids e)) by lia. }
  destruct (lookup_lt_is_Some_2 (kids e) c ltac:(lia)) as [[l kid] Hk].
  rewrite (drop_S _ _ _ Hk), !fmap_cons. cbn [sum_list_with snd concat].
  destruct (kid_in e kid Hwf) as [Hkw Hkl]; [apply list_elem_of_fmap; exists (l, kid); split; [done|by eapply list_elem_of_lookup_2]|].
  pose proof (node_child _ _ _ He root _ _ _ (lo_nodes _ _ _ Hlo) Hk) as Hchild.
  rewrite (size_eq kid Hkw).
  set (sk := sum_list_with size (kids kid).*2). set (sr := sum_list_with size (drop (S c) (kids e)).*2).
  replace (2 * (S sk + sr) + fuel)%nat with (S (2 * sk + S (2 * sr + fuel)))%nat by lia.
  rewrite (walk_down _ _ _ _ _ _ _ _ _ He Hk). subst sk.
  rewrite <- (drop_0 (kids kid)) at 1.
  rewrite (IHw _ _ Hchild ltac:(lia) (length (kids kid)) 0%nat ltac:(lia)), drop_0.
  rewrite (walk_up _ _ _ _ _ _ _ _ Hchild), removelast_last. subst sr.
  rewrite IHk by lia. f_equal. rewrite fmap_app, app_assoc. f_equal.
  unfold kidKeys at 2. cbn [fst snd]. rewrite (exp_keys _ _ _ (proj2 (kids_ok kid Hkw))).
  rewrite fmap_app_cons, fmap_app. destruct (leafOf kid); [|done].
  change (app (cur ++ [l]) <$> [[]]) with [(cur ++ [l]) ++ []]. by rewrite app_nil_r, <- app_assoc.
Qed.

(** The whole walk *)
Lemma set_keys_ok : root = mkQElt (qKeys root) 0 -> set_keys ss = Ok (qKeys root).
Proof.
  intros Hcol. pose proof (lo_nodes _ _ _ Hlo) as HN.
  assert (H0 : N !! 0%nat = Some root) by (by rewrite HN). pose proof (node_wf _ _ _ Hlo _ _ H0) as Hwf.
  unfold set_keys. change 0 with (Z.of_nat 0) at 1. rewrite (bind_Ok _ _ _ (leaf_node _ _ _ Hlo _ _ H0)).
  assert (Hfuel : exists rest, (128 * length (labelBitmap ss))%nat = (2 * sum_list_with size (kids root).*2 + S rest)%nat).
  { pose proof (lo_size _ _ _ Hlo) as Hsz. rewrite (size_eq root Hwf) in Hsz.
    destruct (packs_bitsOf _ _ (lo_bits _ _ _ Hlo)) as [pad E]. apply (f_equal length) in E.
    rewrite bitsOf_length, length_app, length_bitsN in E.
    exists (128 * length (labelBitmap ss) - 2 * sum_list_with size (kids root).*2 - 1)%nat. lia. }
  destruct Hfuel as [rest ->]. change (0, 0) with (frame 0 0).
  rewrite <- (drop_0 (kids root)) at 1.
  rewrite (walk_node (weight root) _ _ H0 (Nat.le_refl _) (length (kids root)) 0%nat ltac:(lia)), drop_0.
  unfold frame at 1. cbn [keysLoop].
  rewrite (bind_Ok _ _ _ (getBit_node _ _ _ Hlo _ _ H0 _ (Nat.le_refl _))), Nat.eqb_refl.
  transitivity (Ok (sufs root)); [|by rewrite Hcol, sufs_root].
  rewrite (exp_keys _ _ _ (proj2 (kids_ok root Hwf))). destruct rest; cbn [keysLoop]; do 2 f_equal; apply list_fmap_id.
Qed.

End Walk.

(** ** Writing and reading *)

Lemma ReadSliceUint_app n v r :
  (n <> 0)%nat -> fits 64 (Z.of_nat (length v)) -> Forall (fits (8 * Z.of_nat n)) v ->
  ReadSliceUint n (WriteUvarint (Z.of_nat (length v)) ++ concat (bigEndian n <$> v) ++ r) = Ok (v, r).
Proof.
  intros Hn Hl Hv. unfold ReadSliceUint. rewrite ReadUvarint_app by done. cbn [mbind result_bind].
  apply (ReadMany_app (ReadUint n) (bigEndian n)). eapply Forall_impl; [exact Hv|]. intros z Hz. split.
  - intros E. apply (f_equal length) in E. rewrite bigEndian_length in E. by destruct n.
  - intros r'. by apply ReadUint_app.
Qed.

Lemma bigEndian_byte b : bigEndian 1 (byteZ b) = [b].
Proof. cbn. by rewrite Z.shiftr_0_r, zByte_byteZ. Qed.

Lemma ReadSliceBytes_app (v : bytes) r :
  fits 64 (Z.of_nat (length v)) -> ReadSliceBytes (writeByteSlice v ++ r) = Ok (v, r).
Proof.
  intros Hl. unfold ReadSliceBytes, writeByteSlice. rewrite <- app_assoc.
  assert (E : v = concat (bigEndian 1 <$> (byteZ <$> v))).
  { clear Hl. induction v as [|b v IH]; [done|]. rewrite !fmap_cons. cbn [concat]. by rewrite bigEndian_byte, <- IH. }
  rewrite E at 2. rewrite <- (length_fmap byteZ v).
  rewrite ReadSliceUint_app; [|done|by rewrite length_fmap|].
  - cbn [mbind result_bind]. do 2 f_equal. rewrite <- (list_fmap_id v) at 2.
    change (map zByte (byteZ <$> v)) with (zByte <$> (byteZ <$> v)). rewrite <- list_fmap_compose.
    apply list_fmap_ext. intros i b _. apply zByte_byteZ.
  - apply Forall_fmap, Forall_true. intros b. apply byteZ_fits.
Qed.

(** Nothing but zeros *)
Lemma wordBits_zero w : fits 64 w -> w = 0 <-> forall p, (p < 64)%nat -> Z.testbit w (Z.of_nat p) = false.
Proof.
  intros Hw. split; [intros -> p _; apply Z.testbit_0_l|]. intros H. apply Z.bits_inj'. intros i Hi.
  rewrite Z.bits_0. destruct (decide (i < 64)); [|apply (fits_testbit 64); [done|lia|lia]].
  rewrite <- (Z2Nat.id i) by done. apply H. lia.
Qed.

Lemma log2_top w p : fits 64 w -> Z.testbit w (Z.of_nat p) = true ->
  (forall q, (p < q < 64)%nat -> Z.testbit w (Z.of_nat q) = false) -> Z.log2 w = Z.of_nat p.
Proof.
  intros [H0 H1] Hp Hq. assert (Hpos : 0 < w).
  { destruct (decide (w = 0)) as [->|]; [by rewrite Z.testbit_0_l in Hp|lia]. }
  pose proof (Z.bit_log2 w Hpos) as Hb. pose proof (Z.log2_nonneg w).
  assert (Hlt : Z.log2 w < 64) by (by apply Z.log2_lt_pow2).
  destruct (Z.lt_trichotomy (Z.log2 w) (Z.of_nat p)) as [Hl|[->|Hg]]; [|done|]; exfalso.
  - rewrite Z.bits_above_log2 in Hp by lia. done.
  - rewrite <- (Z2Nat.id (Z.log2 w)), Hq in Hb by lia. done.
Qed.

Lemma countOnes_zeros words : forall wi acc last,
  Forall (eq 0) words -> countOnes wi words acc last = (acc + ones (bitsOf words), last).
Proof.
  induction words as [|w words IH]; intros wi acc last Hz; [cbn; f_equal; lia|].
  apply Forall_cons_1 in Hz as [<- Hz]. cbn [countOnes]. rewrite IH by done.
  rewrite bitsOf_cons, ones_app, onesCount_word. cbn [Z.eqb]. f_equal. lia.
Qed.

(** [countOnes] finds the ones and the last of them. *)
Lemma countOnes_ok words : forall wi acc last p,
  0 <= wi -> Forall (fits 64) words -> bitsOf words !! p = Some true ->
  (forall q, (p < q)%nat -> bitsOf words !! q <> Some true) ->
  countOnes wi words acc last = (acc + ones (bitsOf words), 64 * wi + Z.of_nat p).
Proof.
  induction words as [|w words IH]; intros wi acc last p Hwi Hf Hp Hq; [done|].
  apply Forall_cons_1 in Hf as [Hw Hf]. cbn [countOnes]. rewrite bitsOf_cons, ones_app, onesCount_word in *.
  destruct (decide (64 <= p)%nat) as [Hge|Hlt].
  - rewrite lookup_app_r, wordBits_length in Hp by (rewrite wordBits_length; lia).
    rewrite (IH (wi + 1) _ _ (p - 64)%nat); [f_equal; lia|lia|done|done|].
    intros q Hpq H. apply (Hq (64 + q)%nat); [lia|]. rewrite lookup_app_r by (rewrite wordBits_length; lia).
    rewrite wordBits_length. by replace (64 + q - 64)%nat with q by lia.
  - rewrite lookup_app_l, wordBits_lookup in Hp by (rewrite ?wordBits_length; lia). injection Hp as Hp.
    assert (Hz : Forall (eq 0) words).
    { rewrite Forall_lookup. rewrite Forall_lookup in Hf. intros k w' Hk. symmetry. apply wordBits_zero; [by eapply Hf|].
      intros j Hj. specialize (Hq (64 + (64 * k + j))%nat ltac:(lia)).
      rewrite lookup_app_r, wordBits_length in Hq by (rewrite wordBits_length; lia).
      replace (64 + (64 * k + j) - 64)%nat with (64 * k + j)%nat in Hq by lia.
      rewrite (bitsOf_lookup _ _ _ _ Hk Hj) in Hq. by destruct (Z.testbit w' (Z.of_nat j)). }
    assert (Hlog : Z.log2 w = Z.of_nat p).
    { apply log2_top; [done|done|]. intros q Hpq. specialize (Hq q ltac:(lia)).
      rewrite lookup_app_l, wordBits_lookup in Hq by (rewrite ?wordBits_length; lia).
      by destruct (Z.testbit w (Z.of_nat q)). }
    assert (w <> 0) by (intros ->; by rewrite Z.testbit_0_l in Hp).
    rewrite (proj2 (Z.eqb_neq _ _)) by done. unfold lastOne. rewrite Hlog.
    rewrite Z.lor_comm, lor_shiftl by (unfold fits; lia).
    rewrite countOnes_zeros by done. f_equal; lia.
Qed.

Section Codec.
Context (ss : succinctSet) (root : qElt) (N : list qElt) (Hlo : levelOrder ss root N).

(** The last bit of the nodes is the last one of the bitmap. *)
Lemma bitmap_ones : countOnes 0 (labelBitmap ss) 0 (-1) = (Z.of_nat (length N), Z.of_nat (length (bitsN N)) - 1).
Proof.
  destruct (packs_bitsOf _ _ (lo_bits _ _ _ Hlo)) as [pad E].
  assert (HL : last N <> None) by (rewrite (lo_nodes _ _ _ Hlo); intros H%last_None; done).
  assert (Hb : exists B, bitsN N = B ++ [true]).
  { destruct (last N) as [e|] eqn:Hl; [|done]. apply last_Some in Hl as [P ->].
    unfold bitsN. rewrite concat_snoc. unfold nodeBits. rewrite app_assoc. eauto. }
  destruct Hb as [B HB].
  rewrite (countOnes_ok _ 0 0 (-1) (length B)).
  - rewrite E, ones_app, ones_replicate, ones_bitsN, HB, length_app. cbn [length]. f_equal; lia.
  - done.
  - apply (lo_bits _ _ _ Hlo).
  - rewrite E, HB, <- app_assoc. by apply list_lookup_middle.
  - intros q Hq H. rewrite E, lookup_app_r in H by (rewrite HB, length_app; simpl; lia).
    by apply lookup_replicate in H as [? _].
Qed.

Lemma enough_leaves : Z.shiftr (Z.of_nat (length N) + 63) 6 - Z.of_nat (length (leaves ss)) <= 0.
Proof.
  assert (Hl : exists e, last N = Some e) by (rewrite (lo_nodes _ _ _ Hlo); apply last_is_Some; done).
  destruct Hl as [e Hl]. pose proof (last_is_leaf _ _ _ (lo_nodes _ _ _ Hlo) (lo_wf _ _ _ Hlo) Hl) as Hleaf.
  rewrite last_lookup in Hl.
  assert (Hb : bit (leaves ss) (pred (length N)) = true) by (by rewrite (lo_leaves _ _ _ Hlo), list_lookup_fmap, Hl; cbn).
  apply bit_true_length in Hb. rewrite Z.shiftr_div_pow2 by lia. change (2 ^ 6) with 64. divlia.
Qed.

(** A set that was written is read back, and the rest is left to read. *)
Lemma readSuccinctSet_Write r : readSuccinctSet (succinctSet_Write ss ++ r) = Ok (ss, r).
Proof.
  pose proof (lo_small _ _ _ Hlo) as Hsmall. pose proof (f_equal length (lo_nodes _ _ _ Hlo)) as HL. cbn [length] in HL.
  pose proof (lo_leaves_length _ _ _ Hlo) as Hll. pose proof (length_bitsN N) as HbN.
  destruct (packs_bitsOf _ _ (lo_bits _ _ _ Hlo)) as [pad E]. apply (f_equal length) in E.
  rewrite bitsOf_length, length_app in E.
  unfold succinctSet_Write, readSuccinctSet, writeUint64Slice. rewrite <- !app_assoc. cbn [app ReadByte mbind result_bind].
  rewrite ReadSliceUint_app; [|done|unfold fits; lia|apply (lo_leaves_fit _ _ _ Hlo)]. cbn [mbind result_bind].
  rewrite ReadSliceUint_app; [|done|unfold fits; lia|apply (lo_bits _ _ _ Hlo)]. cbn [mbind result_bind].
  rewrite ReadSliceBytes_app by (rewrite (lo_labels _ _ _ Hlo), length_labelsN; unfold fits; lia). cbn [mbind result_bind].
  rewrite bitmap_ones, (lo_labels _ _ _ Hlo), length_labelsN.
  rewrite (proj2 (Z.eqb_eq (Z.of_nat (length N)) _)) by lia. rewrite (proj2 (Z.eqb_eq _ _)) by lia. cbn [negb orb].
  replace (Z.to_nat _) with 0%nat by (pose proof enough_leaves; lia). cbn [replicate]. rewrite app_nil_r, <- (lo_labels _ _ _ Hlo).
  do 2 f_equal. pose proof (lo_ranks _ _ _ Hlo). pose proof (lo_selects _ _ _ Hlo). destruct ss; cbn in *. by subst.
Qed.

End Codec.

(** C20. A succinct set built from a non-empty, strictly sorted list of keys with
    fewer than 2^29 bytes gives back exactly these keys in order, and its written form
    is read back as the same set, leaving the rest of the input. *)
Theorem succinct_set_roundtrip (keys : list bytes) :
  keys <> [] -> StronglySorted bytesLt keys -> Z.of_nat (length (concat keys)) < 2 ^ 29 ->
  exists ss, newSuccinctSet keys = Ok ss /\ set_keys ss = Ok keys
    /\ forall r, readSuccinctSet (succinctSet_Write ss ++ r) = Ok (ss, r).
Proof.
  intros Hne Hs Hsmall. destruct (newSuccinctSet_ok keys Hne Hs Hsmall) as (ss & N & E & Hlo).
  exists ss. split_and!; [done|by apply (set_keys_ok _ _ _ Hlo)|]. intros r. by apply (readSuccinctSet_Write _ _ _ Hlo).
Qed.
