(* ===== verification/DomainMatcherSpec.v ===== *)
(** * What a domain matcher matches

    The search of [has] in the arrays of the set finds what the keys say, and a matcher
    of domains and suffixes matches the domains, and the names that end in a suffix. *)

From stdpp Require Import sorting.
From S2P Require Import Prelude Binary Succinct RankSelect SuccinctSpec Utf8 DomainMatcher.

(** ** Children by label *)

Lemma sorted_label_unique (ks : list (Byte.byte * qElt)) l k1 k2 :
  StronglySorted byteLt ks.*1 -> (l, k1) ∈ ks -> (l, k2) ∈ ks -> k1 = k2.
Proof.
  induction ks as [|[l0 k0] ks IH]; intros Hs H1 H2; [by apply elem_of_nil in H1|].
  rewrite fmap_cons in Hs. apply StronglySorted_inv in Hs as [Hs Hlt]. rewrite Forall_forall in Hlt.
  assert (Hno : forall k, (l0, k) ∈ ks -> False).
  { intros k Hk. specialize (Hlt l0 ltac:(by apply (list_elem_of_fmap_2 fst) in Hk)).
    unfold byteLt in Hlt. simpl in Hlt. lia. }
  apply elem_of_cons in H1, H2. naive_solver.
Qed.

Section Kids.
Context (e : qElt) (He : wfElt e).

Lemma kid_sufs l kid s : (l, kid) ∈ kids e -> s ∈ sufs kid <-> l :: s ∈ sufs e.
Proof.
  intros Hk. destruct (kids_ok e He) as [_ Hexp]. rewrite (exp_in _ _ _ Hexp). split; [naive_solver|].
  intros (kid' & Hk' & Hs). by rewrite (sorted_label_unique _ _ _ _ (exp_sorted _ _ _ Hexp) Hk Hk').
Qed.

Lemma kid_wf l kid : (l, kid) ∈ kids e -> wfElt kid.
Proof.
  intros Hk. destruct (kids_ok e He) as [_ Hexp]. pose proof (exp_wf _ _ _ Hexp) as H.
  rewrite Forall_forall in H. apply H. by apply (list_elem_of_fmap_2 snd) in Hk.
Qed.

Lemma label_of_key l s : l :: s ∈ sufs e -> exists kid, (l, kid) ∈ kids e /\ s ∈ sufs kid.
Proof. destruct (kids_ok e He) as [_ Hexp]. apply (exp_in _ _ _ Hexp). Qed.

Lemma key_of_label l kid : (l, kid) ∈ kids e -> exists s, l :: s ∈ sufs e.
Proof.
  intros Hk. destruct (kid_wf l kid Hk) as (Hne & _ & _). destruct (qKeys kid) as [|k ks] eqn:E; [done|].
  exists (drop (qCol kid) k). apply (kid_sufs l kid); [done|]. unfold sufs. rewrite E. by left.
Qed.

Lemma leaf_key : leafOf e = true <-> [] ∈ sufs e.
Proof. apply (exp_leaf _ _ _ (proj2 (kids_ok e He))). Qed.

End Kids.

(** ** The keys that a name matches *)

(** A key of the set matches [key] when it is equal to it, when it is a prefix followed by
    [prefixLabel], or when it is a prefix followed by [rootLabel] that ends at the name's
    end or before a dot. *)
Definition matches (S : list bytes) (key : bytes) : Prop :=
  key ∈ S
  \/ (exists q t, q `prefix_of` key /\ q ++ prefixLabel :: t ∈ S)
  \/ (exists q, q ++ [dot] `prefix_of` key /\ q ++ [rootLabel] ∈ S)
  \/ (exists t, key ++ rootLabel :: t ∈ S).

Lemma prefix_nil_l (key : bytes) : [] `prefix_of` key.
Proof. by exists key. Qed.

Lemma prefix_cons_inv_both (q : bytes) x key : q `prefix_of` x :: key -> q = [] \/ exists q', q = x :: q' /\ q' `prefix_of` key.
Proof.
  destruct q as [|y q]; [by left|]. intros H. right. exists q.
  split; [f_equal; by eapply prefix_cons_inv_1|by eapply prefix_cons_inv_2].
Qed.

(** A label that ends the search *)
Lemma matches_stop S x key :
  (exists t, prefixLabel :: t ∈ S) \/ (x = dot /\ [rootLabel] ∈ S) -> matches S (x :: key).
Proof.
  intros [[t H]|[-> H]]; right.
  - left. exists [], t. split; [apply prefix_nil_l|done].
  - right. left. exists []. split; [by apply prefix_cons, prefix_nil_l|done].
Qed.

(** One byte of the name *)
Lemma matches_cons S S' x key :
  (forall s, s ∈ S' <-> x :: s ∈ S) ->
  matches S (x :: key) <->
  (exists t, prefixLabel :: t ∈ S) \/ (x = dot /\ [rootLabel] ∈ S) \/ matches S' key.
Proof.
  intros HS. unfold matches. setoid_rewrite HS. split.
  - intros [H|[(q & t & Hq & H)|[(q & Hq & H)|(t & H)]]]; [naive_solver| | |naive_solver].
    + apply prefix_cons_inv_both in Hq as [->|(q' & -> & Hq)]; [naive_solver|]. right. right. right. left. by exists q', t.
    + destruct q as [|y q]; [apply prefix_cons_inv_1 in Hq; naive_solver|].
      assert (y = x) as -> by (by eapply prefix_cons_inv_1). apply prefix_cons_inv_2 in Hq.
      do 4 right. left. by exists q.
  - intros [H|[H|[H|[(q & t & Hq & H)|[(q & Hq & H)|(t & H)]]]]].
    + apply matches_stop. by left.
    + apply matches_stop. by right.
    + by left.
    + right. left. exists (x :: q), t. split; [by apply prefix_cons|done].
    + right. right. left. exists (x :: q). split; [by apply prefix_cons|done].
    + right. right. right. by exists t.
Qed.

Lemma matches_nil S :
  matches S [] <-> [] ∈ S \/ (exists t, prefixLabel :: t ∈ S) \/ (exists t, rootLabel :: t ∈ S).
Proof.
  unfold matches. split.
  - intros [H|[(q & t & Hq & H)|[(q & Hq & H)|(t & H)]]]; [by left| | |naive_solver].
    + apply prefix_nil_inv in Hq as ->. naive_solver.
    + apply prefix_nil_inv in Hq. by destruct q.
  - intros [H|[[t H]|[t H]]]; [by left| |naive_solver]. right. left. by exists [], t.
Qed.

Lemma matches_empty key : ~ matches [] key.
Proof. unfold matches. intros [?%elem_of_nil|[(? & ? & _ & ?%elem_of_nil)|[(? & _ & ?%elem_of_nil)|(? & ?%elem_of_nil)]]]; done. Qed.

(** ** The search *)

(** The loop over the labels, on the children themselves *)
Fixpoint scanKids (x : Byte.byte) (c : nat) (ks : list (Byte.byte * qElt)) : bool + nat :=
  match ks with
  | [] => inl false
  | (l, kid) :: ks =>
      if decide (l = prefixLabel) then inl true
      else if decide (l = rootLabel /\ x = dot /\ leafOf kid = true) then inl true
      else if decide (l = x) then inr c
      else scanKids x (S c) ks
  end.

Section Search.
Context (ss : succinctSet) (root : qElt) (N : list qElt) (Hlo : levelOrder ss root N).
Context (n : nat) (e : qElt) (He : N !! n = Some e).

Lemma kids_bounded : (length (kids e) < scanFuel ss)%nat.
Proof.
  pose proof (node_bit _ _ _ He _ (Nat.le_refl _)) as Hb.
  destruct (bits_prefix _ _ _ Hlo _ _ Hb) as (_ & _ & Hlt). unfold scanFuel. lia.
Qed.

Lemma kid_leaf c l kid : kids e !! c = Some (l, kid) ->
  getBit (leaves ss) (Z.of_nat (child N n c)) = Ok (leafOf kid).
Proof.
  intros Hc. apply (leaf_node _ _ _ Hlo). by apply (node_child _ _ _ He root _ l); [apply (lo_nodes _ _ _ Hlo)|].
Qed.

Lemma scanLabels_kids x fuel : forall c,
  (c <= length (kids e))%nat -> (length (kids e) < c + fuel)%nat ->
  scanLabels fuel ss x (Z.of_nat n) (Z.of_nat (start N n + c)) =
  Ok (match scanKids x c (drop c (kids e)) with
      | inl b => Return b
      | inr c' => Break (Z.of_nat (start N n + c'))
      end).
Proof.
  induction fuel as [|fuel IH]; intros c Hc Hf; [lia|]. cbn [scanLabels].
  rewrite (bind_Ok _ _ _ (getBit_node _ _ _ Hlo _ _ He _ Hc)).
  destruct (Nat.eqb_spec c (length (kids e))) as [->|Hne]; [by rewrite drop_all|].
  destruct (lookup_lt_is_Some_2 (kids e) c ltac:(lia)) as [[l kid] Hk].
  rewrite (drop_S _ _ _ Hk), (bind_Ok _ _ _ (label_node _ _ _ Hlo _ _ He _ _ _ Hk)). cbn [scanKids].
  case_decide; [done|].
  replace (Z.of_nat (start N n + c) + 1) with (Z.of_nat (start N n + S c)) in * by lia.
  assert (Hnext : scanLabels fuel ss x (Z.of_nat n) (Z.of_nat (start N n + S c)) =
    Ok (match scanKids x (S c) (drop (S c) (kids e)) with
        | inl b => Return b | inr c' => Break (Z.of_nat (start N n + c')) end)) by (apply IH; lia).
  pose proof (countZeros_node _ _ _ Hlo _ _ He c ltac:(lia)) as Hz.
  replace (Z.of_nat (start N n + c) + 1) with (Z.of_nat (start N n + S c)) in Hz by lia.
  destruct (decide (l = rootLabel)) as [->|Hroot].
  - rewrite (bind_Ok _ _ _ Hz), (bind_Ok _ _ _ (kid_leaf _ _ _ Hk)). cbn [mbind result_bind].
    destruct (decide (x = dot)) as [->|Hx].
    + rewrite bool_decide_true by done. cbn [andb]. destruct (leafOf kid) eqn:Hl.
      * by rewrite decide_True by done.
      * rewrite (decide_False (P := _ /\ _)) by naive_solver. by case_decide.
    + rewrite bool_decide_false by done. rewrite (decide_False (P := _ /\ _)) by naive_solver. by case_decide.
  - cbn [mbind result_bind]. rewrite (decide_False (P := _ /\ _)) by naive_solver. by case_decide.
Qed.

Lemma scanEnd_kids fuel : forall c,
  (c <= length (kids e))%nat -> (length (kids e) < c + fuel)%nat ->
  scanEnd fuel ss (Z.of_nat n) (Z.of_nat (start N n + c)) =
  Ok (existsb (fun k => bool_decide (k.1 = prefixLabel \/ k.1 = rootLabel)) (drop c (kids e))).
Proof.
  induction fuel as [|fuel IH]; intros c Hc Hf; [lia|]. cbn [scanEnd].
  rewrite (bind_Ok _ _ _ (getBit_node _ _ _ Hlo _ _ He _ Hc)).
  destruct (Nat.eqb_spec c (length (kids e))) as [->|Hne]; [by rewrite drop_all|].
  destruct (lookup_lt_is_Some_2 (kids e) c ltac:(lia)) as [[l kid] Hk].
  rewrite (drop_S _ _ _ Hk), (bind_Ok _ _ _ (label_node _ _ _ Hlo _ _ He _ _ _ Hk)). cbn [existsb fst].
  case_decide as Hl; [by rewrite bool_decide_true|]. rewrite bool_decide_false by done.
  replace (Z.of_nat (start N n + c) + 1) with (Z.of_nat (start N n + S c)) by lia.
  rewrite IH by lia. done.
Qed.

End Search.

(** Bytes of names come after both labels. *)
Definition nameByte (b : Byte.byte) : Prop := 13 < byteZ b.

(** The scan of sorted children *)
Lemma scanKids_ok x c ks :
  nameByte x -> StronglySorted byteLt ks.*1 ->
  match scanKids x c ks with
  | inl true => (exists kid, (prefixLabel, kid) ∈ ks) \/ (x = dot /\ exists kid, (rootLabel, kid) ∈ ks /\ leafOf kid = true)
  | inl false => forall l kid, (l, kid) ∈ ks -> l <> prefixLabel /\ l <> x /\ (l = rootLabel -> x = dot -> leafOf kid = false)
  | inr c' => exists i kid, c' = (c + i)%nat /\ ks !! i = Some (x, kid)
      /\ forall l kid, (l, kid) ∈ ks -> l <> prefixLabel /\ (l = rootLabel -> x = dot -> leafOf kid = false)
  end.
Proof.
  intros Hx. unfold nameByte in Hx. revert c. induction ks as [|[l kid] ks IH]; intros c Hs; cbn [scanKids].
  { by intros l kid ?%elem_of_nil. }
  rewrite fmap_cons in Hs. apply StronglySorted_inv in Hs as [Hs Hlt]. cbn [fst] in Hlt.
  case_decide as H1; [left; exists kid; subst; by left|].
  case_decide as H2; [destruct H2 as (-> & -> & Hl); right; split; [done|]; exists kid; split; [by left|done]|].
  case_decide as H3.
  - subst l. exists 0%nat, kid. split_and!; [lia|done|]. intros l k [[= -> ->]|Hin]%elem_of_cons.
    + split; [done|]. intros ->. by vm_compute in Hx.
    + rewrite Forall_forall in Hlt. specialize (Hlt l ltac:(by apply (list_elem_of_fmap_2 fst) in Hin)).
      unfold byteLt in Hlt. split; intros ->; [change (byteZ prefixLabel) with 13 in Hlt|change (byteZ rootLabel) with 10 in Hlt]; lia.
  - specialize (IH (S c) Hs). destruct (scanKids x (S c) ks) as [[]|c'].
    + destruct IH as [(k & Hk)|(-> & k & Hk & Hl)]; [left; exists k; by right|].
      right. split; [done|]. exists k. split; [by right|done].
    + intros l' k [[= -> ->]|Hin]%elem_of_cons; [|naive_solver]. split_and!; [done|done|].
      intros -> ->. destruct (leafOf kid); naive_solver.
    + destruct IH as (i & k & -> & Hi & Hall). exists (S i), k. split_and!; [lia|done|].
      intros l' k' [[= -> ->]|Hin]%elem_of_cons; [|naive_solver]. split; [done|].
      intros -> ->. destruct (leafOf kid); naive_solver.
Qed.

Lemma labels_end (e : qElt) : wfElt e ->
  existsb (fun k => bool_decide (k.1 = prefixLabel \/ k.1 = rootLabel)) (kids e) = true <->
  (exists t, prefixLabel :: t ∈ sufs e) \/ (exists t, rootLabel :: t ∈ sufs e).
Proof.
  intros He. rewrite existsb_exists. split.
  - intros ([l kid] & Hin%list_elem_of_In & Hl%bool_decide_eq_true_1). cbn [fst] in Hl.
    destruct Hl as [-> | ->]; apply (key_of_label e He) in Hin as [s Hs]; eauto.
  - intros [[t Ht]|[t Ht]]; apply (label_of_key e He) in Ht as (kid & Hk & _);
      eexists; (split; [by apply list_elem_of_In|]); apply bool_decide_eq_true_2; auto.
Qed.

(** What the scan says of the keys *)
Lemma scanKids_matches e x key : wfElt e -> nameByte x ->
  match scanKids x 0 (kids e) with
  | inl b => b = true <-> matches (sufs e) (x :: key)
  | inr c => exists kid, kids e !! c = Some (x, kid) /\ (matches (sufs kid) key <-> matches (sufs e) (x :: key))
  end.
Proof.
  intros Hwf Hx. pose proof (scanKids_ok x 0 (kids e) Hx (exp_sorted _ _ _ (proj2 (kids_ok e Hwf)))) as Hscan.
  destruct (scanKids x 0 (kids e)) as [[]|c].
  - split; [intros _|done]. apply matches_stop.
    destruct Hscan as [[kid Hk]|(-> & kid & Hk & Hl)]; [left; by apply (key_of_label e Hwf _ kid)|].
    right. split; [done|]. apply (kid_sufs e Hwf _ kid); [done|]. apply leaf_key; [by eapply kid_wf|done].
  - split; [done|]. intros H. exfalso. apply (matches_cons _ []) in H as [[t Ht]|[[-> Ht]|Ht]].
    + apply (label_of_key e Hwf) in Ht as (kid & Hk & _). naive_solver.
    + apply (label_of_key e Hwf) in Ht as (kid & Hk & Ht).
      apply leaf_key in Ht; [|by eapply kid_wf]. destruct (Hscan _ _ Hk) as (_ & _ & Hf). by rewrite Hf in Ht.
    + by apply matches_empty in Ht.
    + intros s. split; [by intros ?%elem_of_nil|]. intros Ht.
      apply (label_of_key e Hwf) in Ht as (kid & Hk & _). naive_solver.
  - destruct Hscan as (i & kid & -> & Hi & Hall). rewrite Nat.add_0_l.
    pose proof (list_elem_of_lookup_2 _ _ _ Hi) as Hk. exists kid. split; [done|].
    rewrite (matches_cons _ (sufs kid)) by (intros s; by apply kid_sufs).
    split; [naive_solver|]. intros [[t Ht]|[[-> Ht]|Ht]]; [exfalso..|done].
    + apply (label_of_key e Hwf) in Ht as (kid' & Hk' & _). naive_solver.
    + apply (label_of_key e Hwf) in Ht as (kid' & Hk' & Ht).
      apply leaf_key in Ht; [|by eapply kid_wf]. destruct (Hall _ _ Hk') as (_ & Hf). by rewrite Hf in Ht.
Qed.

(** [has] finds what the keys of the node match. *)
Lemma hasFrom_ok ss root N (Hlo : levelOrder ss root N) key : forall n e,
  N !! n = Some e -> Forall nameByte key ->
  exists b, hasFrom ss key (Z.of_nat n) (Z.of_nat (start N n)) = Ok b /\ (b = true <-> matches (sufs e) key).
Proof.
  induction key as [|x key IH]; intros n e He Hkey; cbn [hasFrom]; pose proof (node_wf _ _ _ Hlo _ _ He) as Hwf;
    pose proof (kids_bounded _ _ _ Hlo _ _ He) as Hfuel.
  - rewrite (bind_Ok _ _ _ (leaf_node _ _ _ Hlo _ _ He)).
    pose proof (leaf_key e Hwf) as Hl. destruct (leafOf e).
    + exists true. rewrite matches_nil. naive_solver.
    + rewrite <- (Nat.add_0_r (start N n)), (scanEnd_kids _ _ _ Hlo _ _ He) by lia.
      eexists. split; [done|]. rewrite drop_0, (labels_end e Hwf), matches_nil. naive_solver.
  - apply Forall_cons_1 in Hkey as [Hx Hkey].
    rewrite <- (Nat.add_0_r (start N n)),
      (bind_Ok _ _ _ (scanLabels_kids _ _ _ Hlo _ _ He x _ 0 ltac:(lia) Hfuel)), drop_0.
    pose proof (scanKids_matches e x key Hwf Hx) as Hscan.
    destruct (scanKids x 0 (kids e)) as [b|c]; [by exists b|].
    destruct Hscan as (kid & Hi & Hiff). pose proof (lookup_lt_Some _ _ _ Hi) as Hlt.
    pose proof (node_child _ _ _ He root _ _ _ (lo_nodes _ _ _ Hlo) Hi) as Hchild.
    rewrite (bind_Ok _ _ _ (countZeros_node _ _ _ Hlo _ _ He c Hlt)).
    destruct (selectIthOne_node _ _ _ Hlo _ _ Hchild ltac:(done)) as (p & Hp & Ep).
    rewrite (bind_Ok _ _ _ Hp), Ep. destruct (IH _ _ Hchild Hkey) as (b & Hb & Hb').
    exists b. by rewrite <- Hiff.
Qed.

(** The search from the root *)
Lemma has_ok ss keys N (Hlo : levelOrder ss (mkQElt keys 0) N) key :
  Forall nameByte key -> exists b, matcherHas ss key = Ok b /\ (b = true <-> matches keys key).
Proof.
  intros Hkey. assert (H0 : N !! 0%nat = Some (mkQElt keys 0)) by (by rewrite (lo_nodes _ _ _ Hlo)).
  destruct (hasFrom_ok _ _ _ Hlo key _ _ H0 Hkey) as (b & Hb & Hiff). rewrite sufs_root in Hiff. by exists b.
Qed.

(** ** [reverseDomain] *)

Lemma utf8_length_rev rs : length (utf8 (rev rs)) = length (utf8 rs).
Proof.
  induction rs as [|r rs IH]; [done|]. cbn [rev]. rewrite utf8_app, utf8_one, utf8_cons, !length_app, IH. lia.
Qed.

Lemma writeAt_end m x (b : bytes) :
  (length x <= m)%nat ->
  writeAt (replicate m x00 ++ b) (m - length x) x = Ok (replicate (m - length x) x00 ++ x ++ b).
Proof.
  intros Hm. unfold writeAt. rewrite length_app, length_replicate, (proj2 (Nat.leb_le _ _)) by lia.
  rewrite take_app_le, take_replicate by (rewrite length_replicate; lia).
  replace (m - length x + length x)%nat with (length (replicate m x00)) by (rewrite length_replicate; lia).
  rewrite drop_app_length. do 2 f_equal. f_equal. lia.
Qed.

Lemma reverseLoop_ok rs : forall done_ fuel,
  validText rs -> (length (utf8 rs) <= fuel)%nat ->
  reverseLoop fuel (utf8 rs) (length (utf8 done_))
    (replicate (length (utf8 rs)) x00 ++ utf8 (rev done_)) = Ok (utf8 (rev (done_ ++ rs))).
Proof.
  induction rs as [|r rs IH]; intros dn fuel Hv Hf.
  { rewrite app_nil_r. by destruct fuel. }
  apply Forall_cons_1 in Hv as [Hr Hv]. rewrite utf8_cons in *. rewrite length_app in *.
  pose proof (EncodeRune_length r) as Hpos. destruct fuel as [|fuel]; [lia|].
  destruct (EncodeRune r ++ utf8 rs) as [|b0 rest] eqn:E.
  { apply (f_equal length) in E. rewrite length_app in E. simpl in E. lia. }
  cbn [reverseLoop]. rewrite <- E, DecodeRune_EncodeRune by done.
  rewrite length_app, length_replicate, utf8_length_rev.
  replace (length (EncodeRune r) + length (utf8 rs) + length (utf8 dn) - (length (utf8 dn) + length (EncodeRune r)))%nat
    with (length (EncodeRune r) + length (utf8 rs) - length (EncodeRune r))%nat by lia.
  rewrite (bind_Ok _ _ _ (writeAt_end _ (EncodeRune r) _ (Nat.le_add_r _ _))), drop_app_length.
  replace (length (EncodeRune r) + length (utf8 rs) - length (EncodeRune r))%nat with (length (utf8 rs)) by lia.
  specialize (IH (dn ++ [r]) fuel Hv ltac:(lia)).
  rewrite utf8_app, length_app, utf8_one, rev_app_distr, <- app_assoc in IH. cbn [rev app] in IH.
  by rewrite utf8_cons in IH.
Qed.

(** The runes of valid text are reversed. *)
Lemma reverseDomain_ok rs : validText rs -> reverseDomain (utf8 rs) = Ok (utf8 (rev rs)).
Proof.
  intros Hv. unfold reverseDomain. pose proof (reverseLoop_ok rs [] _ Hv (Nat.le_refl _)) as H.
  cbn [rev utf8 fmap list_fmap concat app length] in H. by rewrite app_nil_r in H.
Qed.
