(* ===== verification/DomainNames.v ===== *)
(** * Matching domain names

    A matcher built from domains and suffixes matches the names it should: the domains,
    the names that end in a suffix with a leading dot, and for other suffixes the name
    itself and its subdomains. *)

From stdpp Require Import sorting.
From S2P Require Import Prelude Binary Utf8 Succinct RankSelect SuccinctSpec DomainMatcher DomainMatcherSpec.
From S2P Require Import SuccinctKeys.

(** ** Names *)

(** A rune of a name: valid, and after the labels *)
Definition nameRune (r : Z) : Prop := validRune r = true /\ 13 < r.

#[global] Instance nameRune_dec r : Decision (nameRune r).
Proof. unfold nameRune. apply _. Defined.

Definition isName (n : list Z) : Prop := Forall nameRune n.

(** What a suffix of a rule matches *)
Definition suffixMatches (s name : list Z) : Prop :=
  if decide (head s = Some 46) then s `suffix_of` name else name = s \/ 46 :: s `suffix_of` name.

(** What the domains and suffixes of a rule match *)
Definition nameMatches (domains suffixes : list (list Z)) (name : list Z) : Prop :=
  name ∈ domains \/ exists s, s ∈ suffixes /\ suffixMatches s name.

Lemma isName_valid n : isName n -> validText n.
Proof. intros H. eapply Forall_impl; [exact H|]. by intros r [? _]. Qed.

Lemma rune_bytes r : nameRune r -> Forall nameByte (EncodeRune r).
Proof.
  intros [Hv Hr]. unfold EncodeRune. rewrite Hv. apply validRune_spec in Hv. unfold nameByte.
  repeat case_match; repeat constructor; rewrite byte_of; divlia.
Qed.

Lemma name_bytes n : isName n -> Forall nameByte (utf8 n).
Proof.
  induction 1 as [|r n Hr _ IH]; [constructor|]. rewrite utf8_cons. apply Forall_app_2; [by apply rune_bytes|done].
Qed.

Lemma isName_rev n : isName n -> isName (rev n).
Proof. unfold isName. intros H. rewrite rev_alt. by apply Forall_reverse. Qed.

Lemma prefix_rev_suffix (s n : list Z) : rev s `prefix_of` rev n <-> s `suffix_of` n.
Proof. rewrite suffix_prefix_reverse. unfold reverse. by rewrite !rev_alt. Qed.

(** ** Keys *)

Inductive Key := KDomain (d : list Z) | KPrefix (s : list Z) | KRoot (s : list Z).

Definition keyText (k : Key) : list Z :=
  match k with KDomain d => d | KPrefix s => 13 :: s | KRoot s => 10 :: s end.

(** The name that a key is about *)
Definition owner (k : Key) : list Z := match k with KDomain n | KPrefix n | KRoot n => n end.

Definition keyBytes (k : Key) : bytes := utf8 (rev (keyText k)).

Definition keyMatches (k : Key) (name : list Z) : Prop :=
  match k with
  | KDomain d => name = d
  | KPrefix s => s `suffix_of` name
  | KRoot s => name = s \/ 46 :: s `suffix_of` name
  end.

Lemma keyText_valid k : isName (owner k) -> validText (keyText k).
Proof. intros H%isName_valid. by destruct k; cbn [keyText owner] in *; [|constructor..]. Qed.

Lemma keyText_inj k k' : isName (owner k) -> isName (owner k') -> keyText k = keyText k' -> k = k'.
Proof.
  assert (Hno : forall z n, z <= 13 -> isName (z :: n) -> False).
  { intros z n Hz [[_ H] _]%Forall_cons_1. lia. }
  intros Hk Hk' E. destruct k, k'; cbn [keyText owner] in *; simplify_eq; try done;
    match goal with H : isName (?z :: ?n) |- _ => destruct (Hno z n ltac:(lia) H) end.
Qed.

Lemma keyBytes_inj k k' : isName (owner k) -> isName (owner k') -> keyBytes k = keyBytes k' -> k = k'.
Proof.
  intros Hk Hk' E. apply keyText_inj; [done..|]. rewrite <- (rev_involutive (keyText k)), <- (rev_involutive (keyText k')). f_equal.
  apply utf8_inj; [by apply Forall_rev, keyText_valid..|done].
Qed.

(** The label is the last byte of a key. *)
Lemma keyBytes_label k : keyBytes k = utf8 (rev (owner k)) ++
  match k with KDomain _ => [] | KPrefix _ => [prefixLabel] | KRoot _ => [rootLabel] end.
Proof. destruct k; unfold keyBytes; cbn [keyText rev owner]; rewrite ?utf8_app, ?app_nil_r; done. Qed.

Lemma label_split (q a t b : bytes) l :
  Forall nameByte a -> ~ nameByte l -> (length b <= 1)%nat -> q ++ l :: t = a ++ b -> q = a /\ t = [] /\ b = [l].
Proof.
  intros Ha Hl Hb E. destruct (decide (length q < length a)%nat) as [Hlt|Hge].
  - exfalso. apply Hl. assert (H : (q ++ l :: t) !! length q = Some l) by (by apply list_lookup_middle).
    rewrite E, lookup_app_l in H by done. by eapply Forall_lookup_1.
  - pose proof (f_equal length E) as HL. rewrite !length_app in HL. simpl in HL.
    assert (Hlen : length q = length a) by lia. apply app_inj_1 in E as [-> E]; [|done].
    split; [done|]. destruct b as [|b0 [|b1 b]]; simpl in *; try lia. by simplify_eq.
Qed.

Lemma rev_prefix_suffix s n : isName s -> isName n ->
  utf8 (rev s) `prefix_of` utf8 (rev n) <-> s `suffix_of` n.
Proof.
  intros Hs Hn. rewrite utf8_prefix by (by apply isName_valid, isName_rev). apply prefix_rev_suffix.
Qed.

Lemma utf8_rev_dot s : utf8 (rev s) ++ [dot] = utf8 (rev (46 :: s)).
Proof. cbn [rev]. by rewrite utf8_app. Qed.

Lemma isName_dot s : isName s -> isName (46 :: s).
Proof. intros H. constructor; [split; [done|lia]|done]. Qed.

Lemma not_name_prefix : ~ nameByte prefixLabel. Proof. by unfold nameByte. Qed.
Lemma not_name_root : ~ nameByte rootLabel. Proof. by unfold nameByte. Qed.

(** The keys of a set match a name as their meaning says. *)
Lemma matches_keys KL name :
  Forall (fun k => isName (owner k)) KL -> isName name ->
  matches (keyBytes <$> KL) (utf8 (rev name)) <-> exists k, k ∈ KL /\ keyMatches k name.
Proof.
  intros HKL Hn. rewrite Forall_forall in HKL.
  assert (Hb : forall k, k ∈ KL -> Forall nameByte (utf8 (rev (owner k)))) by
    (intros k Hk; by apply name_bytes, isName_rev, HKL).
  pose proof (name_bytes _ (isName_rev _ Hn)) as Hnb.
  unfold matches. setoid_rewrite list_elem_of_fmap. split.
  - intros [(k & E & Hk)|[(q & t & Hq & k & E & Hk)|[(q & Hq & k & E & Hk)|(t & k & E & Hk)]]];
      exists k; (split; [done|]); pose proof (Hb k Hk) as Hbk; pose proof (HKL k Hk) as Hok.
    + change (utf8 (rev name)) with (keyBytes (KDomain name)) in E.
      apply keyBytes_inj in E as <-; done.
    + rewrite keyBytes_label in E. apply label_split in E as (-> & -> & E);
        [|done|apply not_name_prefix|by destruct k; simpl; lia].
      destruct k; simplify_eq. by apply rev_prefix_suffix.
    + rewrite keyBytes_label in E. apply label_split in E as (-> & _ & E);
        [|done|apply not_name_root|by destruct k; simpl; lia].
      destruct k; simplify_eq. rewrite utf8_rev_dot in Hq. right. apply rev_prefix_suffix in Hq; [done|by apply isName_dot|done].
    + rewrite keyBytes_label in E. apply label_split in E as (E1 & -> & E);
        [|done|apply not_name_root|by destruct k; simpl; lia].
      destruct k; simplify_eq. left. apply utf8_inj in E1; [|by apply isName_valid, isName_rev..].
      by rewrite <- (rev_involutive name), E1, rev_involutive.
  - intros (k & Hk & Hm). pose proof (HKL k Hk) as Hok. pose proof (keyBytes_label k) as El.
    destruct k as [d|s|s]; cbn [keyMatches owner] in *.
    + left. exists (KDomain d). by subst.
    + right. left. exists (utf8 (rev s)), []. split; [by apply rev_prefix_suffix|]. by exists (KPrefix s).
    + destruct Hm as [->|Hm].
      * right. right. right. exists []. by exists (KRoot s).
      * right. right. left. exists (utf8 (rev s)). rewrite utf8_rev_dot. split; [|by exists (KRoot s)].
        apply rev_prefix_suffix; [by apply isName_dot|done|done].
Qed.

(** ** Collecting the keys *)

#[global] Instance Key_eq_dec : EqDecision Key.
Proof. solve_decision. Defined.

Definition hits (KL : list Key) (name : list Z) : Prop := exists k, k ∈ KL /\ keyMatches k name.

Lemma hits_app a b name : hits (a ++ b) name <-> hits a name \/ hits b name.
Proof. unfold hits. setoid_rewrite elem_of_app. naive_solver. Qed.

Lemma hits_one k name : hits [k] name <-> keyMatches k name.
Proof. unfold hits. setoid_rewrite list_elem_of_singleton. naive_solver. Qed.

(** The keys are of names that were seen, each once. *)
Record keysOK (seen : gset bytes) (KL : list Key) : Prop := mkKeysOK {
  ko_names : Forall (fun k => isName (owner k)) KL;
  ko_nodup : NoDup KL;
  ko_owner : forall k, k ∈ KL -> utf8 (owner k) ∈ seen;
}.

(** The suffixes that were seen are covered by keys. *)
Definition covers (seen : gset bytes) (KL : list Key) : Prop :=
  forall s name, isName s -> utf8 s ∈ seen -> suffixMatches s name -> hits KL name.

Lemma keysOK_snoc seen KL k :
  keysOK seen KL -> isName (owner k) -> utf8 (owner k) ∉ seen ->
  keysOK ({[utf8 (owner k)]} ∪ seen) (KL ++ [k]).
Proof.
  intros [Hn Hd Ho] Hk Hs. split.
  - apply Forall_app_2; [done|by constructor].
  - apply NoDup_app. split_and!; [done| |apply NoDup_singleton]. intros k' Hk' ->%list_elem_of_singleton. by apply Hs, Ho.
  - intros k' [Hk'| ->%list_elem_of_singleton]%elem_of_app; [|set_solver]. specialize (Ho _ Hk'). set_solver.
Qed.

Lemma keysOK_seen seen KL x : keysOK seen KL -> keysOK ({[x]} ∪ seen) KL.
Proof. intros [Hn Hd Ho]. split; [done|done|]. intros k Hk. specialize (Ho _ Hk). set_solver. Qed.

Lemma covers_add seen KL KL' s :
  covers seen KL -> isName s ->
  (forall name, hits KL name \/ suffixMatches s name -> hits KL' name) -> covers ({[utf8 s]} ∪ seen) KL'.
Proof.
  intros Hc Hs Hh s' name Hs' Hin Hm. apply Hh. apply elem_of_union in Hin as [E%elem_of_singleton|Hin].
  - apply utf8_inj in E as ->; [by right|by apply isName_valid..].
  - left. by eapply Hc.
Qed.

Lemma reverseDomain_key k : isName (owner k) -> reverseDomain (utf8 (keyText k)) = Ok (keyBytes k).
Proof. intros H. by apply reverseDomain_ok, keyText_valid. Qed.

Lemma first_byte r s : nameRune r -> exists c rest, utf8 (r :: s) = c :: rest /\ (c = dot <-> r = 46).
Proof.
  intros [Hv Hr]. rewrite utf8_cons. unfold EncodeRune. rewrite Hv. apply validRune_spec in Hv.
  assert (Hd : forall z, 0 <= z < 256 -> zByte z = dot <-> z = 46).
  { intros z Hz. split; [|by intros ->]. intros E. apply (f_equal byteZ) in E. by rewrite byte_of in E. }
  repeat case_match; cbn [app]; eexists _, _; (split; [done|]); rewrite Hd by divlia;
    rewrite ?Z.leb_le, ?Z.leb_gt in *; divlia.
Qed.

Lemma suffixMatches_dot s name : suffixMatches (46 :: s) name <-> 46 :: s `suffix_of` name.
Proof. unfold suffixMatches. by rewrite decide_True. Qed.

Lemma suffixMatches_plain r s name :
  r <> 46 -> suffixMatches (r :: s) name <-> name = r :: s \/ 46 :: r :: s `suffix_of` name.
Proof. intros Hr. unfold suffixMatches. rewrite decide_False by (cbn; congruence). done. Qed.

(** The bytes of the keys that a name can add *)
Definition keyRoom (names : list (list Z)) : nat := sum_list_with (fun n => 2 * length (utf8 n) + 3)%nat names.

Definition keySize (KL : list Key) : nat := length (concat (keyBytes <$> KL)).

Lemma keySize_snoc KL k : keySize (KL ++ [k]) = (keySize KL + length (keyBytes k))%nat.
Proof. unfold keySize. by rewrite concat_snoc, length_app. Qed.

Lemma length_keyBytes k : (length (keyBytes k) <= S (length (utf8 (owner k))))%nat.
Proof. rewrite keyBytes_label, length_app, utf8_length_rev. destruct k; simpl; lia. Qed.

(** One suffix adds the keys for what it matches. *)
Lemma addKey seen KL k s :
  keysOK seen KL -> covers seen KL -> isName s -> owner k = s -> utf8 s ∉ seen ->
  (forall name, keyMatches k name <-> suffixMatches s name) ->
  keysOK ({[utf8 s]} ∪ seen) (KL ++ [k]) /\ covers ({[utf8 s]} ∪ seen) (KL ++ [k])
  /\ (keySize (KL ++ [k]) <= keySize KL + S (length (utf8 s)))%nat
  /\ forall name, hits (KL ++ [k]) name <-> hits KL name \/ suffixMatches s name.
Proof.
  intros Hko Hcov Hs <- Hseen Hk.
  assert (Hh : forall name, hits (KL ++ [k]) name <-> hits KL name \/ suffixMatches (owner k) name)
    by (intros name; by rewrite hits_app, hits_one, Hk).
  split_and!; [by apply keysOK_snoc| |rewrite keySize_snoc; pose proof (length_keyBytes k); lia|done].
  eapply covers_add; [done|done|]. intros name. by rewrite Hh.
Qed.

Lemma snoc_keys KL k : (keyBytes <$> KL) ++ [keyBytes k] = keyBytes <$> (KL ++ [k]).
Proof. by rewrite fmap_app. Qed.

(** The branches of the loop *)
Section Branches.
Context (legacy : bool) (r : Z) (s : list Z) (Hs : isName (r :: s)) (rest : list bytes) (seen : gset bytes) (KL : list Key).
Context (Hseen : utf8 (r :: s) ∉ seen).

Lemma suffixKeys_dot :
  r = 46 ->
  suffixKeys legacy (utf8 (r :: s) :: rest) seen (keyBytes <$> KL) =
  suffixKeys legacy rest ({[utf8 (r :: s)]} ∪ seen) (keyBytes <$> (KL ++ [KPrefix (r :: s)])).
Proof.
  intros Hr. destruct (first_byte r s (proj1 (Forall_cons_1 _ _ _ Hs))) as (c & tl & Etl & Hdot).
  cbn [suffixKeys]. rewrite decide_False by done. rewrite Etl at 1. rewrite decide_True by (by apply Hdot).
  change (prefixLabel :: utf8 (r :: s)) with (utf8 (keyText (KPrefix (r :: s)))).
  by rewrite (bind_Ok _ _ _ (reverseDomain_key (KPrefix (r :: s)) Hs)), snoc_keys.
Qed.

Lemma suffixKeys_root :
  r <> 46 -> legacy = false ->
  suffixKeys legacy (utf8 (r :: s) :: rest) seen (keyBytes <$> KL) =
  suffixKeys legacy rest ({[utf8 (r :: s)]} ∪ seen) (keyBytes <$> (KL ++ [KRoot (r :: s)])).
Proof.
  intros Hr Hl. destruct (first_byte r s (proj1 (Forall_cons_1 _ _ _ Hs))) as (c & tl & Etl & Hdot).
  cbn [suffixKeys]. rewrite decide_False by done. rewrite Etl at 1. rewrite decide_False by (by rewrite Hdot). rewrite Hl.
  change (rootLabel :: utf8 (r :: s)) with (utf8 (keyText (KRoot (r :: s)))).
  by rewrite (bind_Ok _ _ _ (reverseDomain_key (KRoot (r :: s)) Hs)), snoc_keys.
Qed.

Lemma suffixKeys_legacy :
  r <> 46 -> legacy = true ->
  suffixKeys legacy (utf8 (r :: s) :: rest) seen (keyBytes <$> KL) =
  if decide (utf8 (46 :: r :: s) ∈ {[utf8 (r :: s)]} ∪ seen)
  then suffixKeys legacy rest ({[utf8 (r :: s)]} ∪ seen) (keyBytes <$> (KL ++ [KDomain (r :: s)]))
  else suffixKeys legacy rest ({[utf8 (46 :: r :: s)]} ∪ ({[utf8 (r :: s)]} ∪ seen))
         (keyBytes <$> ((KL ++ [KDomain (r :: s)]) ++ [KPrefix (46 :: r :: s)])).
Proof.
  intros Hr Hl. destruct (first_byte r s (proj1 (Forall_cons_1 _ _ _ Hs))) as (c & tl & Etl & Hdot).
  cbn [suffixKeys]. rewrite decide_False by done. rewrite Etl at 1. rewrite decide_False by (by rewrite Hdot). rewrite Hl.
  rewrite (bind_Ok _ _ _ (reverseDomain_key (KDomain (r :: s)) Hs)), snoc_keys. cbv zeta.
  change (dot :: utf8 (r :: s)) with (utf8 (46 :: r :: s)). case_decide; [done|].
  change (prefixLabel :: utf8 (46 :: r :: s)) with (utf8 (keyText (KPrefix (46 :: r :: s)))).
  by rewrite (bind_Ok _ _ _ (reverseDomain_key (KPrefix (46 :: r :: s)) (isName_dot _ Hs))), snoc_keys.
Qed.

End Branches.

Lemma dot_longer s : utf8 (46 :: s) <> utf8 s.
Proof.
  intros E. apply (f_equal length) in E. rewrite utf8_cons, length_app in E. pose proof (EncodeRune_length 46). lia.
Qed.

Lemma suffixKeys_step legacy s seen KL :
  keysOK seen KL -> covers seen KL -> isName s -> s <> [] ->
  exists seen1 KL1,
    (forall rest, suffixKeys legacy (utf8 s :: rest) seen (keyBytes <$> KL) = suffixKeys legacy rest seen1 (keyBytes <$> KL1))
    /\ keysOK seen1 KL1 /\ covers seen1 KL1 /\ (keySize KL1 <= keySize KL + (2 * length (utf8 s) + 3))%nat
    /\ forall name, hits KL1 name <-> hits KL name \/ suffixMatches s name.
Proof.
  intros Hko Hcov Hs Hs0. destruct (decide (utf8 s ∈ seen)) as [Hseen|Hseen].
  { exists seen, KL. split; [intros rest; cbn [suffixKeys]; by rewrite decide_True|].
    split_and!; [done|done|lia|]. intros name. split; [by left|]. intros [?|?]; [done|]. by apply (Hcov s). }
  destruct s as [|r s]; [done|]. destruct (decide (r = 46)) as [->|Hr]; [|destruct legacy].
  - destruct (addKey seen KL (KPrefix (46 :: s)) _ Hko Hcov Hs eq_refl Hseen) as (H1 & H2 & H3 & H4);
      [intros name; by rewrite suffixMatches_dot|].
    eexists _, _. split_and!; [intros rest; by apply suffixKeys_dot|done|done|lia|done].
  - assert (Hd : keysOK ({[utf8 (r :: s)]} ∪ seen) (KL ++ [KDomain (r :: s)])) by (by apply (keysOK_snoc _ _ (KDomain (r :: s)))).
    pose proof (keySize_snoc KL (KDomain (r :: s))) as Hz. pose proof (length_keyBytes (KDomain (r :: s))) as Hz1.
    destruct (decide (utf8 (46 :: r :: s) ∈ {[utf8 (r :: s)]} ∪ seen)) as [Hin|Hin].
    + assert (Hin' : utf8 (46 :: r :: s) ∈ seen) by (pose proof (dot_longer (r :: s)); set_solver).
      assert (Hh : forall name, hits (KL ++ [KDomain (r :: s)]) name <-> hits KL name \/ suffixMatches (r :: s) name).
      { intros name. rewrite hits_app, hits_one, suffixMatches_plain by done. cbn [keyMatches].
        specialize (Hcov (46 :: r :: s) name (isName_dot _ Hs) Hin'). rewrite suffixMatches_dot in Hcov. naive_solver. }
      eexists _, _. split_and!; [intros rest; rewrite suffixKeys_legacy by done; by rewrite decide_True|done| |cbn [owner] in *; lia|done].
      eapply covers_add; [done|done|]. intros name. by rewrite Hh.
    + assert (Hh : forall name, hits ((KL ++ [KDomain (r :: s)]) ++ [KPrefix (46 :: r :: s)]) name <->
        hits KL name \/ suffixMatches (r :: s) name).
      { intros name. rewrite !hits_app, !hits_one, suffixMatches_plain by done. cbn [keyMatches]. tauto. }
      eexists _, _. split_and!; [intros rest; rewrite suffixKeys_legacy by done; by rewrite decide_False| | | |done].
      * by apply (keysOK_snoc _ _ (KPrefix (46 :: r :: s))); [done|apply isName_dot|].
      * eapply covers_add; [eapply covers_add; [exact Hcov|done|]; intros name; by rewrite Hh|by apply isName_dot|].
        intros name [?|Hm]; [done|]. apply Hh. right. apply suffixMatches_plain; [done|]. right. by apply suffixMatches_dot.
      * rewrite keySize_snoc. pose proof (length_keyBytes (KPrefix (46 :: r :: s))) as Hz2. cbn [owner] in *.
        change (length (utf8 (46 :: r :: s))) with (S (length (utf8 (r :: s)))) in Hz2. lia.
  - destruct (addKey seen KL (KRoot (r :: s)) _ Hko Hcov Hs eq_refl Hseen) as (H1 & H2 & H3 & H4);
      [intros name; by rewrite suffixMatches_plain|].
    eexists _, _. split_and!; [intros rest; by apply suffixKeys_root|done|done|lia|done].
Qed.

Lemma suffixKeys_ok legacy sfx : forall seen KL,
  keysOK seen KL -> covers seen KL -> Forall isName sfx -> Forall (fun s => s <> []) sfx ->
  exists seen' KL', suffixKeys legacy (utf8 <$> sfx) seen (keyBytes <$> KL) = Ok (seen', keyBytes <$> KL')
    /\ keysOK seen' KL' /\ covers seen' KL' /\ (keySize KL' <= keySize KL + keyRoom sfx)%nat
    /\ forall name, hits KL' name <-> hits KL name \/ exists s, s ∈ sfx /\ suffixMatches s name.
Proof.
  induction sfx as [|s sfx IH]; intros seen KL Hko Hcov Hn Hne.
  { exists seen, KL. split_and!; [done|done|done|lia|]. intros name. split; [by left|].
    intros [?|(s & ?%elem_of_nil & _)]; done. }
  apply Forall_cons_1 in Hn as [Hs Hn]. apply Forall_cons_1 in Hne as [Hs0 Hne].
  destruct (suffixKeys_step legacy s seen KL Hko Hcov Hs Hs0) as (seen1 & KL1 & E1 & H1 & H2 & H3 & H4).
  destruct (IH _ _ H1 H2 Hn Hne) as (seen' & KL' & E & Hk & Hc & Hsz & Hh).
  exists seen', KL'. rewrite fmap_cons, E1.
  split_and!; [done|done|done|unfold keyRoom in *; cbn [sum_list_with]; lia|].
  intros name. rewrite Hh, H4. setoid_rewrite elem_of_cons. naive_solver.
Qed.

(** The names that were seen are matched. *)
Definition coversNames (seen : gset bytes) (KL : list Key) : Prop :=
  forall d, isName d -> utf8 d ∈ seen -> hits KL d.

Lemma domainKeys_ok ds : forall seen KL,
  keysOK seen KL -> coversNames seen KL -> Forall isName ds ->
  exists seen' KL', domainKeys (utf8 <$> ds) seen (keyBytes <$> KL) = Ok (keyBytes <$> KL')
    /\ keysOK seen' KL' /\ (keySize KL' <= keySize KL + keyRoom ds)%nat
    /\ forall name, hits KL' name <-> hits KL name \/ name ∈ ds.
Proof.
  induction ds as [|d ds IH]; intros seen KL Hko Hcov Hn.
  { exists seen, KL. split_and!; [done|done|lia|]. intros name. split; [by left|].
    intros [?|?%elem_of_nil]; done. }
  apply Forall_cons_1 in Hn as [Hd Hn]. rewrite fmap_cons. cbn [domainKeys]. case_decide as Hseen.
  - destruct (IH _ _ Hko Hcov Hn) as (seen' & KL' & E & Hk & Hsz & Hh). exists seen', KL'.
    split_and!; [done|done|unfold keyRoom in *; cbn [sum_list_with]; lia|].
    intros name. rewrite Hh, elem_of_cons. specialize (Hcov d Hd Hseen). naive_solver.
  - rewrite (bind_Ok _ _ _ (reverseDomain_key (KDomain d) Hd)), snoc_keys.
    destruct (IH ({[utf8 d]} ∪ seen) (KL ++ [KDomain d])) as (seen' & KL' & E & Hk & Hsz & Hh); [|  |done|].
    + by apply (keysOK_snoc _ _ (KDomain d)).
    + intros d' Hd' [Ed%elem_of_singleton|Hin]%elem_of_union; rewrite hits_app; [right|left; by apply Hcov].
      rewrite hits_one. apply utf8_inj in Ed; [done|by apply isName_valid..].
    + exists seen', KL'. rewrite keySize_snoc in Hsz. pose proof (length_keyBytes (KDomain d)). cbn [owner] in *.
      split_and!; [done|done|unfold keyRoom in *; cbn [sum_list_with]; lia|].
      intros name. rewrite Hh, hits_app, hits_one, elem_of_cons. cbn [keyMatches]. naive_solver.
Qed.

(** ** The sorted keys *)

Lemma strLt_irrefl a : strLt a a = false.
Proof. induction a as [|x a IH]; [done|]. cbn [strLt]. by rewrite Z.ltb_irrefl. Qed.

Lemma strLe_lt_eq a b : strLe a b <-> bytesLt a b \/ a = b.
Proof.
  unfold strLe. revert b. induction a as [|x a IH]; intros [|y b].
  - split; [by right|done].
  - split; [by left|done].
  - split; [done|]. by intros [?|?].
  - rewrite bytesLt_cons. unfold byteLt. cbn [strLt].
    destruct (Z.ltb_spec (byteZ y) (byteZ x)).
    + split; [done|]. intros [[?|[-> _]]|[= -> ->]]; lia.
    + destruct (Z.ltb_spec (byteZ x) (byteZ y)); [split; [intros _; by left; left|done]|].
      assert (E : byteZ x = byteZ y) by lia. apply byteZ_inj in E as ->. rewrite IH. naive_solver lia.
Qed.

#[global] Instance strLe_trans : Transitive strLe.
Proof.
  intros a b c. rewrite !strLe_lt_eq. intros [H1| ->] [H2| ->]; [left; by etrans|by left|by left|by right].
Qed.

#[global] Instance strLe_total : Total strLe.
Proof.
  intros a b. destruct (strLt b a) eqn:E; [right|by left]. apply strLe_lt_eq. by left.
Qed.

Lemma sort_Strings_ok l :
  NoDup l -> StronglySorted bytesLt (sort_Strings l) /\ forall x, x ∈ sort_Strings l <-> x ∈ l.
Proof.
  intros Hd. unfold sort_Strings. pose proof (merge_sort_Permutation strLe l) as Hp. split.
  - rewrite <- Hp in Hd. pose proof (StronglySorted_merge_sort strLe l) as Hs. clear Hp.
    induction Hs as [|x l' Hs IH Hx]; [constructor|]. apply NoDup_cons in Hd as [Hnin Hd].
    constructor; [by apply IH|]. rewrite Forall_forall in Hx |- *. intros y Hy.
    destruct (proj1 (strLe_lt_eq x y) (Hx y Hy)) as [?|<-]; done.
  - intros x. by rewrite Hp.
Qed.

Lemma sort_Strings_size l : length (concat (sort_Strings l)) = length (concat l).
Proof.
  unfold sort_Strings. pose proof (merge_sort_Permutation strLe l) as Hp. rewrite <- !sum_lengths.
  induction Hp; cbn [sum_list_with]; lia.
Qed.

Lemma matches_ext S S' key : (forall x, x ∈ S <-> x ∈ S') -> matches S key <-> matches S' key.
Proof. intros H. unfold matches. by setoid_rewrite H. Qed.

Lemma suffixMatches_self s : suffixMatches s s.
Proof. unfold suffixMatches. by case_decide; [|left]. Qed.

(** The keys of both loops *)
Lemma collected domains suffixes legacy :
  Forall isName domains -> Forall isName suffixes -> Forall (fun s => s <> []) suffixes ->
  exists seen KL KL' seen',
    suffixKeys legacy (utf8 <$> suffixes) ∅ [] = Ok (seen, keyBytes <$> KL)
    /\ domainKeys (utf8 <$> domains) seen (keyBytes <$> KL) = Ok (keyBytes <$> KL')
    /\ keysOK seen' KL' /\ (keySize KL' <= keyRoom domains + keyRoom suffixes)%nat
    /\ forall name, hits KL' name <-> nameMatches domains suffixes name.
Proof.
  intros Hd Hs Hs0.
  destruct (suffixKeys_ok legacy suffixes ∅ []) as (seen & KL & E1 & Hko & Hcov & Hz1 & Hh1); [| |done|done|].
  { split; [done|constructor|]. by intros k ?%elem_of_nil. }
  { by intros s name _ ?%elem_of_empty. }
  destruct (domainKeys_ok domains seen KL Hko) as (seen' & KL' & E2 & Hko' & Hz2 & Hh2); [|done|].
  { intros d Hd' Hin. apply (Hcov d); [done|done|apply suffixMatches_self]. }
  exists seen, KL, KL', seen'. split_and!; [done|done|done|change (keySize []) with 0%nat in Hz1; lia|].
  intros name. rewrite Hh2, Hh1. unfold nameMatches. unfold hits at 1. setoid_rewrite elem_of_nil. naive_solver.
Qed.

Lemma keysOK_distinct seen KL : keysOK seen KL -> NoDup (keyBytes <$> KL).
Proof.
  intros [Hn Hd _]. apply NoDup_fmap_2_strong; [|done]. rewrite Forall_forall in Hn.
  intros k k' Hk Hk' E. apply keyBytes_inj; auto.
Qed.

(** The trie of a matcher *)
Lemma newMatcher_trie (domains suffixes : list (list Z)) (legacy : bool) :
  Forall isName domains -> Forall isName suffixes -> Forall (fun s => s <> []) suffixes ->
  domains ++ suffixes <> [] -> Z.of_nat (keyRoom domains + keyRoom suffixes) < 2 ^ 29 ->
  exists m keys N, newMatcher (utf8 <$> domains) (utf8 <$> suffixes) legacy = Ok m
    /\ levelOrder m (mkQElt keys 0) N
    /\ forall name, isName name -> matches keys (utf8 (rev name)) <-> nameMatches domains suffixes name.
Proof.
  intros Hd Hs Hs0 Hne Hroom.
  destruct (collected domains suffixes legacy Hd Hs Hs0) as (seen & KL & KL' & seen' & E1 & E2 & Hko & Hz & Hh).
  destruct (sort_Strings_ok (keyBytes <$> KL') (keysOK_distinct _ _ Hko)) as [Hsorted Hsame].
  destruct (newSuccinctSet_ok (sort_Strings (keyBytes <$> KL'))) as (m & N & Em & Hlo); [|done| |].
  - assert (Hhit : exists name, hits KL' name).
    { destruct domains as [|d ds]; [destruct suffixes as [|s ss]; [done|]|].
      - exists s. apply Hh. right. exists s. split; [by left|apply suffixMatches_self].
      - exists d. apply Hh. left. by left. }
    destruct Hhit as (name & k & Hk & _). intros Enil. specialize (Hsame (keyBytes k)). rewrite Enil in Hsame.
    apply (elem_of_nil (keyBytes k)). by apply Hsame, list_elem_of_fmap_2.
  - rewrite sort_Strings_size. fold (keySize KL'). lia.
  - exists m, (sort_Strings (keyBytes <$> KL')), N. split_and!; [|done|].
    + unfold newMatcher. by rewrite (bind_Ok _ _ _ E1), (bind_Ok _ _ _ E2).
    + intros name Hname. by rewrite (matches_ext _ _ _ Hsame), (matches_keys _ _ (ko_names _ _ Hko) Hname), <- Hh.
Qed.

(** The matcher of both lists *)
Lemma newMatcher_ok (domains suffixes : list (list Z)) (legacy : bool) :
  Forall isName domains -> Forall isName suffixes -> Forall (fun s => s <> []) suffixes ->
  domains ++ suffixes <> [] ->
  Z.of_nat (keyRoom domains + keyRoom suffixes) < 2 ^ 29 ->
  exists m, newMatcher (utf8 <$> domains) (utf8 <$> suffixes) legacy = Ok m
    /\ forall name, isName name ->
       exists b, Match_ m (utf8 name) = Ok b /\ (b = true <-> nameMatches domains suffixes name).
Proof.
  intros Hd Hs Hs0 Hne Hroom.
  destruct (newMatcher_trie domains suffixes legacy Hd Hs Hs0 Hne Hroom) as (m & keys & N & E & Hlo & Hm).
  exists m. split; [done|]. intros name Hname. unfold Match_.
  rewrite (bind_Ok _ _ _ (reverseDomain_ok _ (isName_valid _ Hname))).
  destruct (has_ok _ _ _ Hlo _ (name_bytes _ (isName_rev _ Hname))) as (b & Hb & Hiff).
  exists b. by rewrite Hiff, Hm.
Qed.

(** C19. A matcher of domains and suffixes ([NewMatcher], in both encodings of suffixes)
    is built, and [Match] on any name answers, true exactly for the names of the
    domains, the names that end in a suffix with a leading dot, and for the other
    suffixes the name itself and the names that end in it after a dot.  Names are
    valid UTF-8 without control characters; the text of the lists is bounded so that the
    32-bit index of the set does not overflow. *)
Theorem domain_matcher_matches (domains suffixes : list (list Z)) (legacy : bool) :
  Forall isName domains -> Forall isName suffixes -> Forall (fun s => s <> []) suffixes ->
  domains ++ suffixes <> [] ->
  Z.of_nat (keyRoom domains + keyRoom suffixes) < 2 ^ 29 ->
  exists m, newMatcher (utf8 <$> domains) (utf8 <$> suffixes) legacy = Ok m
    /\ forall name, isName name ->
       exists b, Match_ m (utf8 name) = Ok b /\ (b = true <-> nameMatches domains suffixes name).
Proof. apply newMatcher_ok. Qed.

(** * Concrete domain matchers

    The hypotheses of the theorems about matchers hold for real lists, and the AdGuard
    matcher answers as the repository's test expects. *)

(** The runes of ASCII text *)
Definition runes (s : string) : list Z := byteZ <$> stringBytes s.

Lemma domain_matcher_matches_witness :
  exists m, newMatcher (utf8 <$> [runes "example.com"]) (utf8 <$> [runes ".cn"; runes "go"]) true = Ok m
    /\ exists b, Match_ m (utf8 (runes "www.go")) = Ok b
         /\ (b = true <-> nameMatches [runes "example.com"] [runes ".cn"; runes "go"] (runes "www.go")).
Proof.
  destruct (domain_matcher_matches [runes "example.com"] [runes ".cn"; runes "go"] true) as (m & E & H).
  - apply (bool_decide_unpack _). vm_compute. exact I.
  - apply (bool_decide_unpack _). vm_compute. exact I.
  - apply (bool_decide_unpack _). vm_compute. exact I.
  - done.
  - vm_compute. reflexivity.
  - exists m. split; [exact E|]. apply H. apply (bool_decide_unpack _). vm_compute. exact I.
Defined.

Lemma succinct_set_roundtrip_witness :
  exists ss, newSuccinctSet (stringBytes <$> ["ab"; "abc"; "b"]%string) = Ok ss
    /\ set_keys ss = Ok (stringBytes <$> ["ab"; "abc"; "b"]%string)
    /\ forall r, readSuccinctSet (succinctSet_Write ss ++ r) = Ok (ss, r).
Proof.
  apply (succinct_set_roundtrip (stringBytes <$> ["ab"; "abc"; "b"]%string)).
  - done.
  - repeat (constructor; [|repeat constructor]). constructor.
  - vm_compute. reflexivity.
Defined.

(** [TestAdGuardMatcher]: the rules, what they match, what they do not, and the dump *)
Definition adGuardTest : list string :=
  ["||example.org^"; "|example.com^"; "example.net^"; "||example.edu"; "||example.edu.tw^"; "|example.gov"; "example.arpa"]%string.

Definition adGuardAnswers (rules domains : list string) : result (list bool) :=
  m ← newAdGuardMatcher (stringBytes <$> rules); mapR (fun d => AdGuard_Match m (stringBytes d)) domains.

Example adguard_test_matches :
  adGuardAnswers adGuardTest
    ["example.org"; "www.example.org"; "example.com"; "example.net"; "isexample.net"; "www.example.net"; "example.edu";
     "example.edu.cn"; "example.edu.tw"; "www.example.edu"; "www.example.edu.cn"; "example.gov"; "example.gov.cn";
     "example.arpa"; "www.example.arpa"; "isexample.arpa"; "example.arpa.cn"; "www.example.arpa.cn"; "isexample.arpa.cn"]%string
  = Ok (replicate 19 true).
Proof. vm_compute. reflexivity. Qed.

Example adguard_test_others :
  adGuardAnswers adGuardTest
    ["example.org.cn"; "notexample.org"; "example.com.cn"; "www.example.com.cn"; "example.net.cn"; "notexample.edu";
     "notexample.edu.cn"; "www.example.gov"; "notexample.gov"]%string
  = Ok (replicate 9 false).
Proof. vm_compute. reflexivity. Qed.

Example adguard_test_dump :
  (m ← newAdGuardMatcher (stringBytes <$> adGuardTest); l ← AdGuard_Dump m; Ok (sort_Strings l))
  = Ok (sort_Strings (stringBytes <$> adGuardTest)).
Proof. vm_compute. reflexivity. Qed.
