(* ===== verification/Netip.v ===== *)
(** * IP addresses, prefixes and socket addresses

    The parts of Go's [net/netip] the program uses, and sing's [Socksaddr]
    ([replace/sing/common/metadata/addr.go], [replace/sing/common/network/addr.go]).
    An IPv4 address is its 32-bit value, an IPv6 address its 128-bit value with a
    zone; [AddrInvalid] is the zero [netip.Addr]. *)

From S2P Require Import Prelude.

Inductive Addr :=
  | AddrInvalid
  | Addr4 (value : Z)
  | Addr6 (value : Z) (zone : string).

#[global] Instance Addr_eq_dec : EqDecision Addr.
Proof. solve_decision. Defined.

#[global] Instance Addr_countable : Countable Addr.
Proof.
  refine (inj_countable'
    (fun a => match a with
              | AddrInvalid => inl tt
              | Addr4 v => inr (inl v)
              | Addr6 v z => inr (inr (v, z))
              end)
    (fun x => match x with
              | inl _ => AddrInvalid
              | inr (inl v) => Addr4 v
              | inr (inr (v, z)) => Addr6 v z
              end) _).
  by intros [].
Defined.

Module netip.
(** ** [netip.Addr] *)

Definition IsValid (a : Addr) : bool :=
  match a with AddrInvalid => false | _ => true end.

Definition Is4 (a : Addr) : bool :=
  match a with Addr4 _ => true | _ => false end.

Definition Is6 (a : Addr) : bool :=
  match a with Addr6 _ _ => true | _ => false end.

Definition BitLen (a : Addr) : Z :=
  match a with AddrInvalid => 0 | Addr4 _ => 32 | Addr6 _ _ => 128 end.

Definition hasZone (a : Addr) : bool :=
  match a with Addr6 _ z => negb (String.eqb z "") | _ => false end.

Definition withoutZone (a : Addr) : Addr :=
  match a with Addr6 v _ => Addr6 v "" | _ => a end.

(** IPv4-mapped IPv6 addresses, [::ffff:0:0/96] *)
Definition Is4In6 (a : Addr) : bool :=
  match a with Addr6 v _ => Z.shiftr v 32 =? 0xffff | _ => false end.

Definition Unmap (a : Addr) : Addr :=
  match a with
  | Addr6 v _ => if Is4In6 a then Addr4 (Z.land v 0xffffffff) else a
  | _ => a
  end.

(** The numeric value, as the 4 or 16 bytes of the address read in network order. *)
Definition value (a : Addr) : Z :=
  match a with AddrInvalid => 0 | Addr4 v => v | Addr6 v _ => v end.

(** [Next] is the zero address after the last one. *)
Definition Next (a : Addr) : Addr :=
  match a with
  | AddrInvalid => AddrInvalid
  | Addr4 v => if u32 (v + 1) =? 0 then AddrInvalid else Addr4 (u32 (v + 1))
  | Addr6 v z =>
      if wrap 128 (v + 1) =? 0 then AddrInvalid else Addr6 (wrap 128 (v + 1)) z
  end.

(** A value that fits its family: what every constructor of [netip.Addr] builds. *)
Definition wf (a : Addr) : Prop :=
  match a with
  | AddrInvalid => True
  | Addr4 v => fits 32 v
  | Addr6 v _ => fits 128 v
  end.

(** ** Classification, after [netip]: a mapped address is classified as IPv4 *)

Definition IsPrivate (a : Addr) : bool :=
  match Unmap a with
  | Addr4 v => (Z.shiftr v 24 =? 10)
               || (Z.land (Z.shiftr v 16) 0xfff0 =? 0xac10)
               || (Z.shiftr v 16 =? 0xc0a8)
  | Addr6 v _ => Z.land (Z.shiftr v 120) 0xfe =? 0xfc
  | AddrInvalid => false
  end.

Definition IsLoopback (a : Addr) : bool :=
  match Unmap a with
  | Addr4 v => Z.shiftr v 24 =? 127
  | Addr6 v _ => v =? 1
  | AddrInvalid => false
  end.

Definition IsMulticast (a : Addr) : bool :=
  match Unmap a with
  | Addr4 v => Z.land (Z.shiftr v 24) 0xf0 =? 0xe0
  | Addr6 v _ => Z.shiftr v 120 =? 0xff
  | AddrInvalid => false
  end.

Definition IsLinkLocalUnicast (a : Addr) : bool :=
  match Unmap a with
  | Addr4 v => Z.shiftr v 16 =? 0xa9fe
  | Addr6 v _ => Z.land (Z.shiftr v 112) 0xffc0 =? 0xfe80
  | AddrInvalid => false
  end.

Definition IsInterfaceLocalMulticast (a : Addr) : bool :=
  match a with
  | Addr6 v _ => negb (Is4In6 a) && (Z.land (Z.shiftr v 112) 0xff0f =? 0xff01)
  | _ => false
  end.

Definition IsUnspecified (a : Addr) : bool :=
  bool_decide (a = Addr4 0) || bool_decide (a = Addr6 0 "").
End netip.

(** ** [netip.Prefix]

    [pbits] is [None] for an invalid prefix (a bit count out of range, or the zero
    prefix), which keeps its address as [netip.PrefixFrom] does. *)
Record Prefix := mkPrefix { paddr : Addr; pbits : option Z }.

#[global] Instance Prefix_eq_dec : EqDecision Prefix.
Proof. solve_decision. Defined.

Module prefix.
Definition zero : Prefix := mkPrefix AddrInvalid None.

Definition PrefixFrom (ip : Addr) (bits : Z) : Prefix :=
  mkPrefix (netip.withoutZone ip)
    (if netip.IsValid ip && (0 <=? bits) && (bits <=? netip.BitLen ip)
     then Some bits else None).

Definition IsValid (p : Prefix) : bool :=
  match pbits p with Some _ => true | None => false end.

(** [Bits] is -1 for an invalid prefix. *)
Definition Bits (p : Prefix) : Z := default (-1) (pbits p).

(** Equality of the first [bits] bits of two addresses of the same family. *)
Definition agree (a b : Addr) (bits : Z) : bool :=
  let n := netip.BitLen a in
  Z.shiftr (netip.value a) (n - bits) =? Z.shiftr (netip.value b) (n - bits).

Definition Contains (p : Prefix) (ip : Addr) : bool :=
  match pbits p with
  | None => false
  | Some bits =>
      negb (netip.hasZone ip) && negb (netip.BitLen (paddr p) =? 0)
      && (netip.BitLen (paddr p) =? netip.BitLen ip)
      && agree (paddr p) ip bits
  end.

Definition Overlaps (p o : Prefix) : bool :=
  match pbits p, pbits o with
  | Some pb, Some ob =>
      bool_decide (p = o)
      || (bool_decide (netip.Is4 (paddr p) = netip.Is4 (paddr o))
          && agree (paddr p) (paddr o) (Z.min pb ob))
  | _, _ => false
  end.

(** A prefix a Go program can hold: its address has no zone and fits its family,
    its bit count is within it. *)
Definition wf (p : Prefix) : Prop :=
  netip.wf (paddr p) /\ netip.hasZone (paddr p) = false /\
  match pbits p with
  | Some b => netip.IsValid (paddr p) = true /\ 0 <= b <= netip.BitLen (paddr p)
  | None => True
  end.
End prefix.

(** ** [M.Socksaddr] *)
Record Socksaddr := mkSocksaddr { Addr_ : Addr; Port : Z; Fqdn : string }.

#[global] Instance Socksaddr_eq_dec : EqDecision Socksaddr.
Proof. solve_decision. Defined.

Module socksaddr.
Definition zero : Socksaddr := mkSocksaddr AddrInvalid 0 "".

Definition IsIP (ap : Socksaddr) : bool := netip.IsValid (Addr_ ap).
Definition IsIPv4 (ap : Socksaddr) : bool := netip.Is4 (Addr_ ap).
Definition IsIPv6 (ap : Socksaddr) : bool := netip.Is6 (Addr_ ap).
Definition IsDomain (ap : Socksaddr) : bool := negb (String.eqb (Fqdn ap) "").
Definition IsValid (ap : Socksaddr) : bool := IsIP ap || IsDomain ap.

Definition Unwrap (ap : Socksaddr) : Socksaddr :=
  if netip.Is4In6 (Addr_ ap)
  then mkSocksaddr (netip.Unmap (Addr_ ap)) (Port ap) ""
  else ap.
End socksaddr.

(** [unwrapIPv6Address] of [sing/common/metadata] *)
Definition unwrapIPv6Address (address : string) : string :=
  if (2 <? String.length address)%nat
     && bool_decide (String.get 0 address = Some "["%char)
     && bool_decide (String.get (String.length address - 1) address = Some "]"%char)
  then String.substring 1 (String.length address - 2) address
  else address.

(** [N.IsPublicAddr] *)
Definition IsPublicAddr (addr : Addr) : bool :=
  negb (netip.IsPrivate addr || netip.IsLoopback addr || netip.IsMulticast addr
        || netip.IsLinkLocalUnicast addr || netip.IsInterfaceLocalMulticast addr
        || netip.IsUnspecified addr).

(** ** Lemmas *)

Lemma Next_wf a : netip.wf a -> netip.wf (netip.Next a).
Proof.
  destruct a as [|v|v z]; simpl; [done| |]; intros _; case_match; simpl; auto with go.
Qed.

(** [Next] steps the value by one, or fails at the end of the family. *)
Lemma Next_value a :
  netip.wf a -> netip.IsValid (netip.Next a) = true ->
  netip.value (netip.Next a) = netip.value a + 1 /\ netip.BitLen (netip.Next a) = netip.BitLen a.
Proof.
  destruct a as [|v|v z]; simpl; [done| |]; intros Hf.
  - destruct (u32 (v + 1) =? 0) eqn:E; [done|]. intros _. split; [|done]. simpl.
    apply Z.eqb_neq in E. apply wrap_id. unfold fits in *. split; [lia|].
    destruct (decide (v + 1 = 2 ^ 32)) as [Hv|]; [|lia].
    exfalso. apply E. rewrite Hv. done.
  - destruct (wrap 128 (v + 1) =? 0) eqn:E; [done|]. intros _. split; [|done]. simpl.
    apply Z.eqb_neq in E. apply wrap_id. unfold fits in *. split; [lia|].
    destruct (decide (v + 1 = 2 ^ 128)) as [Hv|]; [|lia].
    exfalso. apply E. rewrite Hv. done.
Qed.

(** A prefix of [b] bits contains exactly the addresses between its first and its
    last address. *)
Lemma shiftr_eq_range x y k :
  0 <= k -> Z.shiftr x k = Z.shiftr y k <-> Z.shiftr x k * 2 ^ k <= y < (Z.shiftr x k + 1) * 2 ^ k.
Proof.
  intros Hk. rewrite !Z.shiftr_div_pow2 by done.
  assert (Hp : 0 < 2 ^ k) by (by apply Z.pow_pos_nonneg).
  pose proof (Z.div_mod y (2 ^ k) ltac:(lia)) as Hy.
  pose proof (Z.mod_pos_bound y (2 ^ k) Hp) as Hm.
  split.
  - intros ->. nia.
  - intros [H1 H2]. nia.
Qed.
