(* ===== verification/Conn.v ===== *)
(** * Connections, cached and translated ([sing/common/bufio/cache.go], [nat.go])

    A connection is the sequence of what its reads give.  The router reads from it while
    sniffing and gives the bytes back by wrapping the connection in a [CachedConn], or a
    [CachedPacketConn] for packets.  The packets of a connection to a fake address are
    translated by a [bidirectionalNATPacketConn], whose reading side is modelled. *)

From S2P Require Import Prelude Binary Netip.

(** What a read of a stream gives: data, or an error such as a timeout; or the deadline
    of the read cannot be set.  Later reads may succeed again. *)
Inductive StreamRead := ReadData (data : bytes) | ReadFail (e : error) | DeadlineFail (e : error).

Record Packet := mkPacket { packetData : bytes; packetDestination : Socksaddr }.

(** What waiting for a packet gives: a packet, a timeout, another error, or the end of
    the context. *)
Inductive PacketRead := ReadPacket (p : Packet) | ReadTimeout | ReadError (e : error) | ContextDone.

(** ** Streams *)

(** A connection as the outbound gets it; [None] is a buffer that was released. *)
Inductive Conn :=
  | StreamConn (reads : list StreamRead)
  | CachedConn (conn : Conn) (buffer : option bytes).

Definition NewCachedConn (conn : Conn) (buffer : bytes) : Conn := CachedConn conn (Some buffer).

(** A read of at most [n] bytes of the connection itself. *)
Fixpoint readStream (reads : list StreamRead) (n : nat) : result bytes * list StreamRead :=
  match reads with
  | [] => (Err "EOF"%string, [])
  | DeadlineFail _ :: rest => readStream rest n
  | ReadFail e :: rest => (Err e, rest)
  | ReadData data :: rest =>
      (Ok (take n data), if (length data <=? n)%nat then rest else ReadData (drop n data) :: rest)
  end.

(** [CachedConn.Read]: the buffer first; an empty one is released. *)
Fixpoint Conn_Read (c : Conn) (n : nat) : result bytes * Conn :=
  match c with
  | StreamConn reads => let '(r, reads) := readStream reads n in (r, StreamConn reads)
  | CachedConn conn (Some (b :: buffer)) =>
      (Ok (take n (b :: buffer)), CachedConn conn (Some (drop n (b :: buffer))))
  | CachedConn conn _ => let '(r, conn) := Conn_Read conn n in (r, CachedConn conn None)
  end.

(** A sequence of reads of the given sizes: the bytes read, and the connection after. *)
Fixpoint Conn_Reads (c : Conn) (sizes : list nat) : bytes * Conn :=
  match sizes with
  | [] => ([], c)
  | n :: rest =>
      let '(r, c) := Conn_Read c n in
      let '(data, c) := Conn_Reads c rest in
      (match r with Ok d => d | Err _ => [] end ++ data, c)
  end.

(** The bytes a connection holds. *)
Fixpoint streamData (reads : list StreamRead) : bytes :=
  match reads with
  | [] => []
  | ReadData data :: rest => data ++ streamData rest
  | (ReadFail _ | DeadlineFail _) :: rest => streamData rest
  end.

Fixpoint connData (c : Conn) : bytes :=
  match c with
  | StreamConn reads => streamData reads
  | CachedConn conn buffer => default [] buffer ++ connData conn
  end.

Definition okData (r : result bytes) : bytes := match r with Ok d => d | Err _ => [] end.

Lemma readStream_data reads n :
  okData (readStream reads n).1 ++ streamData (readStream reads n).2 = streamData reads.
Proof.
  induction reads as [|[data|e|e] reads IH]; simpl; try done.
  destruct (Nat.leb_spec (length data) n); simpl.
  - by rewrite take_ge by lia.
  - by rewrite (assoc_L (++)), take_drop.
Qed.

Lemma Conn_Read_data c n :
  okData (Conn_Read c n).1 ++ connData (Conn_Read c n).2 = connData c.
Proof.
  assert (Hstep : forall c', okData (Conn_Read c' n).1 ++ connData (Conn_Read c' n).2 = connData c' ->
    okData (let '(r, conn) := Conn_Read c' n in (r, CachedConn conn None)).1 ++
    connData (let '(r, conn) := Conn_Read c' n in (r, CachedConn conn None)).2 = connData c').
  { intros c' IH. destruct (Conn_Read c' n) as [r conn]. exact IH. }
  induction c as [reads|c IH [[|b buffer]|]]; cbn [Conn_Read].
  - pose proof (readStream_data reads n) as Hr. destruct (readStream reads n). exact Hr.
  - exact (Hstep c IH).
  - change (take n (b :: buffer) ++ drop n (b :: buffer) ++ connData c = (b :: buffer) ++ connData c).
    by rewrite (assoc_L (++)), take_drop.
  - exact (Hstep c IH).
Qed.

(** Reading, in whatever sizes, gives the bytes held in order and keeps the rest. *)
Lemma Conn_Reads_data sizes c :
  (Conn_Reads c sizes).1 ++ connData (Conn_Reads c sizes).2 = connData c.
Proof.
  revert c. induction sizes as [|n sizes IH]; intros c; cbn [Conn_Reads]; [done|].
  pose proof (Conn_Read_data c n) as Hr. destruct (Conn_Read c n) as [r c1].
  specialize (IH c1). destruct (Conn_Reads c1 sizes) as [data c2]. simpl in *.
  rewrite <- Hr, <- IH. by rewrite (assoc_L (++)).
Qed.

(** ** Packets *)

Inductive PacketConn :=
  | RawPacketConn (reads : list PacketRead)
  | CachedPacketConn (conn : PacketConn) (buffer : option bytes) (destination : Socksaddr)
  | BidirectionalNATPacketConn (conn : PacketConn) (origin destination : Socksaddr).

Definition NewCachedPacketConn (conn : PacketConn) (packet : Packet) : PacketConn :=
  CachedPacketConn conn (Some (packetData packet)) (packetDestination packet).

Definition socksaddrWithoutPort (s : Socksaddr) : Socksaddr := mkSocksaddr (Addr_ s) 0 (Fqdn s).

Definition NewNATPacketConn (conn : PacketConn) (origin destination : Socksaddr) : PacketConn :=
  BidirectionalNATPacketConn conn (socksaddrWithoutPort origin) (socksaddrWithoutPort destination).

(** A packet for the origin, on any port, is one for the destination on that port. *)
Definition natPacket (origin destination : Socksaddr) (p : Packet) : Packet :=
  if bool_decide (socksaddrWithoutPort (packetDestination p) = origin)
  then mkPacket (packetData p)
         (mkSocksaddr (Addr_ destination) (Port (packetDestination p)) (Fqdn destination))
  else p.

(** A packet read into a buffer with room for [n] bytes; what does not fit is lost. *)
Definition truncatePacket (n : nat) (p : Packet) : Packet :=
  mkPacket (take n (packetData p)) (packetDestination p).

Fixpoint readRawPacket (reads : list PacketRead) (n : nat) : result Packet * list PacketRead :=
  match reads with
  | [] => (Err "EOF"%string, [])
  | ContextDone :: rest => readRawPacket rest n
  | ReadTimeout :: rest => (Err "i/o timeout"%string, rest)
  | ReadError e :: rest => (Err e, rest)
  | ReadPacket p :: rest => (Ok (truncatePacket n p), rest)
  end.

(** [CachedPacketConn.ReadPacket] into a buffer with room for [n] bytes: an empty cached
    packet is an error, and stays.  [bidirectionalNATPacketConn.ReadPacket] translates
    what its connection reads. *)
Fixpoint PacketConn_ReadPacket (c : PacketConn) (n : nat) : result Packet * PacketConn :=
  match c with
  | RawPacketConn reads => let '(r, reads) := readRawPacket reads n in (r, RawPacketConn reads)
  | CachedPacketConn conn (Some buffer) destination =>
      if (n =? 0)%nat then (Err "short buffer"%string, c)
      else
        match buffer with
        | [] => (Err "EOF"%string, c)
        | _ => (Ok (truncatePacket n (mkPacket buffer destination)),
                CachedPacketConn conn None destination)
        end
  | CachedPacketConn conn None destination =>
      let '(r, conn) := PacketConn_ReadPacket conn n in (r, CachedPacketConn conn None destination)
  | BidirectionalNATPacketConn conn origin destination =>
      let '(r, conn) := PacketConn_ReadPacket conn n in
      (p ← r; Ok (natPacket origin destination p),
       BidirectionalNATPacketConn conn origin destination)
  end.

(** A sequence of reads into buffers of the given sizes: the packets read, and the
    connection after. *)
Fixpoint PacketConn_Reads (c : PacketConn) (sizes : list nat) : list Packet * PacketConn :=
  match sizes with
  | [] => ([], c)
  | n :: rest =>
      let '(r, c) := PacketConn_ReadPacket c n in
      let '(ps, c) := PacketConn_Reads c rest in
      (match r with Ok p => p :: ps | Err _ => ps end, c)
  end.

(** The packets a connection holds. *)
Fixpoint packetsOf (reads : list PacketRead) : list Packet :=
  match reads with
  | [] => []
  | ReadPacket p :: rest => p :: packetsOf rest
  | _ :: rest => packetsOf rest
  end.

Fixpoint connPackets (c : PacketConn) : list Packet :=
  match c with
  | RawPacketConn reads => packetsOf reads
  | CachedPacketConn conn buffer destination =>
      option_list ((fun b => mkPacket b destination) <$> buffer) ++ connPackets conn
  | BidirectionalNATPacketConn conn origin destination =>
      natPacket origin destination <$> connPackets conn
  end.

(** No empty datagram is cached. *)
Fixpoint cachedNonempty (c : PacketConn) : bool :=
  match c with
  | RawPacketConn _ => true
  | CachedPacketConn conn buffer _ =>
      match buffer with Some [] => false | _ => true end && cachedNonempty conn
  | BidirectionalNATPacketConn conn _ _ => cachedNonempty conn
  end.

Definition okPackets (r : result Packet) : list Packet := match r with Ok p => [p] | Err _ => [] end.

Lemma natPacket_truncate origin destination n p :
  natPacket origin destination (truncatePacket n p) = truncatePacket n (natPacket origin destination p).
Proof. unfold natPacket. simpl. by case_bool_decide. Qed.

Lemma natPacket_data origin destination p :
  packetData (natPacket origin destination p) = packetData p.
Proof. unfold natPacket. by case_bool_decide. Qed.

(** A packet that fits is read whole. *)
Lemma truncatePacket_fits n p : (length (packetData p) <= n)%nat -> truncatePacket n p = p.
Proof. intros. destruct p. unfold truncatePacket. simpl in *. by rewrite take_ge. Qed.

(** A read takes the first packet, unless it fails and leaves all of them. *)
Lemma PacketConn_ReadPacket_data c n :
  truncatePacket n <$> option_list (head (connPackets c))
  = okPackets (PacketConn_ReadPacket c n).1 /\
  connPackets (PacketConn_ReadPacket c n).2 = tail (connPackets c) \/
  okPackets (PacketConn_ReadPacket c n).1 = [] /\
  connPackets (PacketConn_ReadPacket c n).2 = connPackets c.
Proof.
  induction c as [reads|c IH [buffer|] d|c IH o d]; cbn [PacketConn_ReadPacket connPackets].
  - induction reads as [|[p| |e|] reads IHr]; cbn [readRawPacket packetsOf];
      [right; done|left; done|right; done|right; done|exact IHr].
  - destruct (n =? 0)%nat; [by right|]. destruct buffer as [|b buffer]; [by right|]. by left.
  - destruct (PacketConn_ReadPacket c n) as [r c']. exact IH.
  - destruct (PacketConn_ReadPacket c n) as [r c']. cbn [fst snd connPackets] in *.
    destruct IH as [[Hr ->]|[Hr ->]]; [left|right].
    + destruct (connPackets c), r; simplify_eq/=; by rewrite ?natPacket_truncate.
    + by destruct r.
Qed.

Lemma ReadPacket_nonempty c n :
  cachedNonempty c = true -> cachedNonempty (PacketConn_ReadPacket c n).2 = true.
Proof.
  induction c as [reads|c IH [buffer|] d|c IH o d]; cbn [PacketConn_ReadPacket cachedNonempty].
  - intros _. by destruct (readRawPacket reads n).
  - destruct (n =? 0)%nat; [done|]. by destruct buffer.
  - by destruct (PacketConn_ReadPacket c n).
  - by destruct (PacketConn_ReadPacket c n).
Qed.

(** Reading into buffers with room for every packet gives the packets held in order, and
    keeps the rest. *)
Lemma PacketConn_Reads_data sizes c :
  Forall (fun n => Forall (fun p => (length (packetData p) <= n)%nat) (connPackets c)) sizes ->
  (PacketConn_Reads c sizes).1 ++ connPackets (PacketConn_Reads c sizes).2 = connPackets c.
Proof.
  revert c. induction sizes as [|n sizes IH]; intros c HF; cbn [PacketConn_Reads]; [done|].
  apply Forall_cons in HF as [Hn HF].
  pose proof (PacketConn_ReadPacket_data c n) as Hr.
  destruct (PacketConn_ReadPacket c n) as [r c1]. cbn [fst snd] in Hr.
  assert (Hc1 : okPackets r ++ connPackets c1 = connPackets c).
  { destruct Hr as [[<- ->]|[-> ->]]; [|done]. destruct (connPackets c) as [|p ps]; [done|].
    cbn. apply Forall_cons in Hn as [Hp _]. by rewrite truncatePacket_fits. }
  specialize (IH c1). destruct (PacketConn_Reads c1 sizes) as [ps c2]. cbn [fst snd] in *.
  rewrite <- Hc1. destruct r; cbn; [f_equal|]; apply IH; apply (Forall_impl _ _ _ HF);
    intros m Hm; rewrite <- Hc1 in Hm; apply Forall_app in Hm as [_ Hm]; exact Hm.
Qed.

(** The reads that are left: those of the connection itself, and one for each cached packet. *)
Fixpoint readsLeft (c : PacketConn) : nat :=
  match c with
  | RawPacketConn reads => length reads
  | CachedPacketConn conn (Some _) _ => S (readsLeft conn)
  | CachedPacketConn conn None _ | BidirectionalNATPacketConn conn _ _ => readsLeft conn
  end.

Lemma readsLeft_0 c : readsLeft c = 0%nat -> connPackets c = [].
Proof.
  induction c as [[|]|c IH []|c IH]; cbn; try done. intros Hl. by rewrite (IH Hl).
Qed.

Lemma ReadPacket_left c n :
  cachedNonempty c = true -> n <> 0%nat ->
  (readsLeft (PacketConn_ReadPacket c n).2 <= pred (readsLeft c))%nat.
Proof.
  intros Hc Hn. apply Nat.eqb_neq in Hn.
  induction c as [reads|c IH [buffer|] d|c IH o d]; cbn [PacketConn_ReadPacket readsLeft].
  - clear Hc. induction reads as [|[p| |e|] reads IHr]; cbn in *; try lia.
  - rewrite Hn. destruct buffer; [done|]. cbn. lia.
  - specialize (IH Hc). by destruct (PacketConn_ReadPacket c n).
  - specialize (IH Hc). by destruct (PacketConn_ReadPacket c n).
Qed.

Lemma PacketConn_Reads_left sizes : forall c,
  cachedNonempty c = true -> Forall (fun n => n <> 0%nat) sizes ->
  (readsLeft (PacketConn_Reads c sizes).2 <= readsLeft c - length sizes)%nat.
Proof.
  induction sizes as [|n sizes IH]; intros c Hc HF; cbn [PacketConn_Reads length]; [cbn; lia|].
  apply Forall_cons in HF as [Hn HF].
  pose proof (ReadPacket_left c n Hc Hn) as Hl. pose proof (ReadPacket_nonempty c n Hc) as Hc'.
  destruct (PacketConn_ReadPacket c n) as [r c1]. specialize (IH c1 Hc' HF).
  destruct (PacketConn_Reads c1 sizes). cbn in *. lia.
Qed.

(** Enough reads into buffers with room for every packet give all the packets held. *)
Lemma PacketConn_Reads_all sizes c :
  cachedNonempty c = true -> (readsLeft c <= length sizes)%nat ->
  Forall (fun n => n <> 0 /\ Forall (fun p => length (packetData p) <= n) (connPackets c))%nat sizes ->
  (PacketConn_Reads c sizes).1 = connPackets c.
Proof.
  intros Hc Hl HF. pose proof (PacketConn_Reads_left sizes c Hc) as Hr.
  rewrite <- (PacketConn_Reads_data sizes c) by (apply (Forall_impl _ _ _ HF); tauto).
  rewrite (readsLeft_0 (PacketConn_Reads c sizes).2); [by rewrite (right_id_L [] (++))|].
  enough (readsLeft (PacketConn_Reads c sizes).2 <= readsLeft c - length sizes)%nat by lia.
  apply Hr, (Forall_impl _ _ _ HF). tauto.
Qed.

(** An empty datagram that was read while sniffing blocks the connection for good. *)
Example empty_packet_blocks :
  let c := NewCachedPacketConn (RawPacketConn [ReadPacket (mkPacket [Byte.x01] socksaddr.zero)])
             (mkPacket [] socksaddr.zero) in
  PacketConn_ReadPacket c 1500 = (Err "EOF"%string, c).
Proof. reflexivity. Qed.
