(* ===== verification/Context.v ===== *)
(** * Connection metadata and the world the rules read

    [InboundContext] is [adapter.InboundContext] ([adapter/inbound.go]): what is
    known about a connection or a DNS query when the rules are evaluated.

    [External] gathers the functions of libraries that are not part of the
    repository, [Env] the state of the device that rule items read through the
    network manager, the Clash server and the outbounds. *)

From S2P Require Import Prelude Netip.

(** [adapter.ConnectionOwner] *)
Record ConnectionOwner := mkConnectionOwner {
  ProcessID : Z;
  UserId : Z;
  UserName : string;
  ProcessPath : string;
  AndroidPackageNames : list string;
}.

(** An error of a sniffer as the errors it joins, none standing for nil; the flag is
    [errors.Is(err, sniff.ErrNeedMoreData)]. *)
Record SniffFailure := mkSniffFailure { failureText : error; needsMoreData : bool }.

(** The fields of [adapter.InboundContext] that carry the options of rule actions to
    the dialer and to the packet connection. *)
Record DialingOptions := mkDialingOptions {
  UDPDisableDomainUnmapping : bool;
  UDPConnect : bool;
  UDPTimeout : Z;
  TLSFragment : bool;
  TLSFragmentFallbackDelay : Z;
  TLSRecordFragment : bool;
  NetworkStrategy : option Z;
  NetworkType : list Z;
  FallbackNetworkType : list Z;
  FallbackDelay : Z;
}.

Record InboundContext := mkInboundContext {
  Inbound : string;
  InboundType : string;
  IPVersion : Z;
  Network : string;
  Source : Socksaddr;
  Destination : Socksaddr;
  TunnelSource : string;
  TunnelDestination : string;
  User : string;
  Outbound : string;
  Protocol : string;
  Domain : string;
  Client : string;
  SnifferNames : list string;
  SniffError : list SniffFailure;
  InboundDetour : string;
  LastInbound : string;
  OriginDestination : Socksaddr;
  RouteOriginalDestination : Socksaddr;
  Dialing : DialingOptions;
  DestinationAddresses : list Addr;
  ProcessInfo : option ConnectionOwner;
  QueryType : Z;
  FakeIP : bool;
  IPCIDRMatchSource : bool;
  IPCIDRAcceptEmpty : bool;
  SourceAddressMatch : bool;
  SourcePortMatch : bool;
  DestinationAddressMatch : bool;
  DestinationPortMatch : bool;
  DefinitiveMatchStates : Z;
  IgnoreDestinationIPCIDRMatch : bool;
}.

(** Assignments to single fields. *)
Definition setInbound (c : InboundContext) (v : string) : InboundContext :=
  mkInboundContext v (InboundType c) (IPVersion c) (Network c) (Source c) (Destination c)
    (TunnelSource c) (TunnelDestination c) (User c) (Outbound c) (Protocol c) (Domain c)
    (Client c) (SnifferNames c) (SniffError c) (InboundDetour c) (LastInbound c)
    (OriginDestination c) (RouteOriginalDestination c) (Dialing c) (DestinationAddresses
    c) (ProcessInfo c) (QueryType c) (FakeIP c) (IPCIDRMatchSource c) (IPCIDRAcceptEmpty
    c) (SourceAddressMatch c) (SourcePortMatch c) (DestinationAddressMatch c)
    (DestinationPortMatch c) (DefinitiveMatchStates c) (IgnoreDestinationIPCIDRMatch c).

Definition setIPVersion (c : InboundContext) (v : Z) : InboundContext :=
  mkInboundContext (Inbound c) (InboundType c) v (Network c) (Source c) (Destination c)
    (TunnelSource c) (TunnelDestination c) (User c) (Outbound c) (Protocol c) (Domain c)
    (Client c) (SnifferNames c) (SniffError c) (InboundDetour c) (LastInbound c)
    (OriginDestination c) (RouteOriginalDestination c) (Dialing c) (DestinationAddresses
    c) (ProcessInfo c) (QueryType c) (FakeIP c) (IPCIDRMatchSource c) (IPCIDRAcceptEmpty
    c) (SourceAddressMatch c) (SourcePortMatch c) (DestinationAddressMatch c)
    (DestinationPortMatch c) (DefinitiveMatchStates c) (IgnoreDestinationIPCIDRMatch c).

Definition setNetwork (c : InboundContext) (v : string) : InboundContext :=
  mkInboundContext (Inbound c) (InboundType c) (IPVersion c) v (Source c) (Destination c)
    (TunnelSource c) (TunnelDestination c) (User c) (Outbound c) (Protocol c) (Domain c)
    (Client c) (SnifferNames c) (SniffError c) (InboundDetour c) (LastInbound c)
    (OriginDestination c) (RouteOriginalDestination c) (Dialing c) (DestinationAddresses
    c) (ProcessInfo c) (QueryType c) (FakeIP c) (IPCIDRMatchSource c) (IPCIDRAcceptEmpty
    c) (SourceAddressMatch c) (SourcePortMatch c) (DestinationAddressMatch c)
    (DestinationPortMatch c) (DefinitiveMatchStates c) (IgnoreDestinationIPCIDRMatch c).

Definition setDestination (c : InboundContext) (v : Socksaddr) : InboundContext :=
  mkInboundContext (Inbound c) (InboundType c) (IPVersion c) (Network c) (Source c) v
    (TunnelSource c) (TunnelDestination c) (User c) (Outbound c) (Protocol c) (Domain c)
    (Client c) (SnifferNames c) (SniffError c) (InboundDetour c) (LastInbound c)
    (OriginDestination c) (RouteOriginalDestination c) (Dialing c) (DestinationAddresses
    c) (ProcessInfo c) (QueryType c) (FakeIP c) (IPCIDRMatchSource c) (IPCIDRAcceptEmpty
    c) (SourceAddressMatch c) (SourcePortMatch c) (DestinationAddressMatch c)
    (DestinationPortMatch c) (DefinitiveMatchStates c) (IgnoreDestinationIPCIDRMatch c).

Definition setTunnelDestination (c : InboundContext) (v : string) : InboundContext :=
  mkInboundContext (Inbound c) (InboundType c) (IPVersion c) (Network c) (Source c)
    (Destination c) (TunnelSource c) v (User c) (Outbound c) (Protocol c) (Domain c)
    (Client c) (SnifferNames c) (SniffError c) (InboundDetour c) (LastInbound c)
    (OriginDestination c) (RouteOriginalDestination c) (Dialing c) (DestinationAddresses
    c) (ProcessInfo c) (QueryType c) (FakeIP c) (IPCIDRMatchSource c) (IPCIDRAcceptEmpty
    c) (SourceAddressMatch c) (SourcePortMatch c) (DestinationAddressMatch c)
    (DestinationPortMatch c) (DefinitiveMatchStates c) (IgnoreDestinationIPCIDRMatch c).

Definition setProtocol (c : InboundContext) (v : string) : InboundContext :=
  mkInboundContext (Inbound c) (InboundType c) (IPVersion c) (Network c) (Source c)
    (Destination c) (TunnelSource c) (TunnelDestination c) (User c) (Outbound c) v (Domain
    c) (Client c) (SnifferNames c) (SniffError c) (InboundDetour c) (LastInbound c)
    (OriginDestination c) (RouteOriginalDestination c) (Dialing c) (DestinationAddresses
    c) (ProcessInfo c) (QueryType c) (FakeIP c) (IPCIDRMatchSource c) (IPCIDRAcceptEmpty
    c) (SourceAddressMatch c) (SourcePortMatch c) (DestinationAddressMatch c)
    (DestinationPortMatch c) (DefinitiveMatchStates c) (IgnoreDestinationIPCIDRMatch c).

Definition setDomain (c : InboundContext) (v : string) : InboundContext :=
  mkInboundContext (Inbound c) (InboundType c) (IPVersion c) (Network c) (Source c)
    (Destination c) (TunnelSource c) (TunnelDestination c) (User c) (Outbound c) (Protocol
    c) v (Client c) (SnifferNames c) (SniffError c) (InboundDetour c) (LastInbound c)
    (OriginDestination c) (RouteOriginalDestination c) (Dialing c) (DestinationAddresses
    c) (ProcessInfo c) (QueryType c) (FakeIP c) (IPCIDRMatchSource c) (IPCIDRAcceptEmpty
    c) (SourceAddressMatch c) (SourcePortMatch c) (DestinationAddressMatch c)
    (DestinationPortMatch c) (DefinitiveMatchStates c) (IgnoreDestinationIPCIDRMatch c).

Definition setClient (c : InboundContext) (v : string) : InboundContext :=
  mkInboundContext (Inbound c) (InboundType c) (IPVersion c) (Network c) (Source c)
    (Destination c) (TunnelSource c) (TunnelDestination c) (User c) (Outbound c) (Protocol
    c) (Domain c) v (SnifferNames c) (SniffError c) (InboundDetour c) (LastInbound c)
    (OriginDestination c) (RouteOriginalDestination c) (Dialing c) (DestinationAddresses
    c) (ProcessInfo c) (QueryType c) (FakeIP c) (IPCIDRMatchSource c) (IPCIDRAcceptEmpty
    c) (SourceAddressMatch c) (SourcePortMatch c) (DestinationAddressMatch c)
    (DestinationPortMatch c) (DefinitiveMatchStates c) (IgnoreDestinationIPCIDRMatch c).

Definition setSnifferNames (c : InboundContext) (v : list string) : InboundContext :=
  mkInboundContext (Inbound c) (InboundType c) (IPVersion c) (Network c) (Source c)
    (Destination c) (TunnelSource c) (TunnelDestination c) (User c) (Outbound c) (Protocol
    c) (Domain c) (Client c) v (SniffError c) (InboundDetour c) (LastInbound c)
    (OriginDestination c) (RouteOriginalDestination c) (Dialing c) (DestinationAddresses
    c) (ProcessInfo c) (QueryType c) (FakeIP c) (IPCIDRMatchSource c) (IPCIDRAcceptEmpty
    c) (SourceAddressMatch c) (SourcePortMatch c) (DestinationAddressMatch c)
    (DestinationPortMatch c) (DefinitiveMatchStates c) (IgnoreDestinationIPCIDRMatch c).

Definition setSniffError (c : InboundContext) (v : list SniffFailure) : InboundContext :=
  mkInboundContext (Inbound c) (InboundType c) (IPVersion c) (Network c) (Source c)
    (Destination c) (TunnelSource c) (TunnelDestination c) (User c) (Outbound c) (Protocol
    c) (Domain c) (Client c) (SnifferNames c) v (InboundDetour c) (LastInbound c)
    (OriginDestination c) (RouteOriginalDestination c) (Dialing c) (DestinationAddresses
    c) (ProcessInfo c) (QueryType c) (FakeIP c) (IPCIDRMatchSource c) (IPCIDRAcceptEmpty
    c) (SourceAddressMatch c) (SourcePortMatch c) (DestinationAddressMatch c)
    (DestinationPortMatch c) (DefinitiveMatchStates c) (IgnoreDestinationIPCIDRMatch c).

Definition setInboundDetour (c : InboundContext) (v : string) : InboundContext :=
  mkInboundContext (Inbound c) (InboundType c) (IPVersion c) (Network c) (Source c)
    (Destination c) (TunnelSource c) (TunnelDestination c) (User c) (Outbound c) (Protocol
    c) (Domain c) (Client c) (SnifferNames c) (SniffError c) v (LastInbound c)
    (OriginDestination c) (RouteOriginalDestination c) (Dialing c) (DestinationAddresses
    c) (ProcessInfo c) (QueryType c) (FakeIP c) (IPCIDRMatchSource c) (IPCIDRAcceptEmpty
    c) (SourceAddressMatch c) (SourcePortMatch c) (DestinationAddressMatch c)
    (DestinationPortMatch c) (DefinitiveMatchStates c) (IgnoreDestinationIPCIDRMatch c).

Definition setLastInbound (c : InboundContext) (v : string) : InboundContext :=
  mkInboundContext (Inbound c) (InboundType c) (IPVersion c) (Network c) (Source c)
    (Destination c) (TunnelSource c) (TunnelDestination c) (User c) (Outbound c) (Protocol
    c) (Domain c) (Client c) (SnifferNames c) (SniffError c) (InboundDetour c) v
    (OriginDestination c) (RouteOriginalDestination c) (Dialing c) (DestinationAddresses
    c) (ProcessInfo c) (QueryType c) (FakeIP c) (IPCIDRMatchSource c) (IPCIDRAcceptEmpty
    c) (SourceAddressMatch c) (SourcePortMatch c) (DestinationAddressMatch c)
    (DestinationPortMatch c) (DefinitiveMatchStates c) (IgnoreDestinationIPCIDRMatch c).

Definition setOriginDestination (c : InboundContext) (v : Socksaddr) : InboundContext :=
  mkInboundContext (Inbound c) (InboundType c) (IPVersion c) (Network c) (Source c)
    (Destination c) (TunnelSource c) (TunnelDestination c) (User c) (Outbound c) (Protocol
    c) (Domain c) (Client c) (SnifferNames c) (SniffError c) (InboundDetour c)
    (LastInbound c) v (RouteOriginalDestination c) (Dialing c) (DestinationAddresses c)
    (ProcessInfo c) (QueryType c) (FakeIP c) (IPCIDRMatchSource c) (IPCIDRAcceptEmpty c)
    (SourceAddressMatch c) (SourcePortMatch c) (DestinationAddressMatch c)
    (DestinationPortMatch c) (DefinitiveMatchStates c) (IgnoreDestinationIPCIDRMatch c).

Definition setRouteOriginalDestination (c : InboundContext) (v : Socksaddr) : InboundContext :=
  mkInboundContext (Inbound c) (InboundType c) (IPVersion c) (Network c) (Source c)
    (Destination c) (TunnelSource c) (TunnelDestination c) (User c) (Outbound c) (Protocol
    c) (Domain c) (Client c) (SnifferNames c) (SniffError c) (InboundDetour c)
    (LastInbound c) (OriginDestination c) v (Dialing c) (DestinationAddresses c)
    (ProcessInfo c) (QueryType c) (FakeIP c) (IPCIDRMatchSource c) (IPCIDRAcceptEmpty c)
    (SourceAddressMatch c) (SourcePortMatch c) (DestinationAddressMatch c)
    (DestinationPortMatch c) (DefinitiveMatchStates c) (IgnoreDestinationIPCIDRMatch c).

Definition setDialing (c : InboundContext) (v : DialingOptions) : InboundContext :=
  mkInboundContext (Inbound c) (InboundType c) (IPVersion c) (Network c) (Source c)
    (Destination c) (TunnelSource c) (TunnelDestination c) (User c) (Outbound c) (Protocol
    c) (Domain c) (Client c) (SnifferNames c) (SniffError c) (InboundDetour c)
    (LastInbound c) (OriginDestination c) (RouteOriginalDestination c) v
    (DestinationAddresses c) (ProcessInfo c) (QueryType c) (FakeIP c) (IPCIDRMatchSource
    c) (IPCIDRAcceptEmpty c) (SourceAddressMatch c) (SourcePortMatch c)
    (DestinationAddressMatch c) (DestinationPortMatch c) (DefinitiveMatchStates c)
    (IgnoreDestinationIPCIDRMatch c).

Definition setDestinationAddresses (c : InboundContext) (v : list Addr) : InboundContext :=
  mkInboundContext (Inbound c) (InboundType c) (IPVersion c) (Network c) (Source c)
    (Destination c) (TunnelSource c) (TunnelDestination c) (User c) (Outbound c) (Protocol
    c) (Domain c) (Client c) (SnifferNames c) (SniffError c) (InboundDetour c)
    (LastInbound c) (OriginDestination c) (RouteOriginalDestination c) (Dialing c) v
    (ProcessInfo c) (QueryType c) (FakeIP c) (IPCIDRMatchSource c) (IPCIDRAcceptEmpty c)
    (SourceAddressMatch c) (SourcePortMatch c) (DestinationAddressMatch c)
    (DestinationPortMatch c) (DefinitiveMatchStates c) (IgnoreDestinationIPCIDRMatch c).

Definition setProcessInfo (c : InboundContext) (v : option ConnectionOwner) : InboundContext :=
  mkInboundContext (Inbound c) (InboundType c) (IPVersion c) (Network c) (Source c)
    (Destination c) (TunnelSource c) (TunnelDestination c) (User c) (Outbound c) (Protocol
    c) (Domain c) (Client c) (SnifferNames c) (SniffError c) (InboundDetour c)
    (LastInbound c) (OriginDestination c) (RouteOriginalDestination c) (Dialing c)
    (DestinationAddresses c) v (QueryType c) (FakeIP c) (IPCIDRMatchSource c)
    (IPCIDRAcceptEmpty c) (SourceAddressMatch c) (SourcePortMatch c)
    (DestinationAddressMatch c) (DestinationPortMatch c) (DefinitiveMatchStates c)
    (IgnoreDestinationIPCIDRMatch c).

Definition setQueryType (c : InboundContext) (v : Z) : InboundContext :=
  mkInboundContext (Inbound c) (InboundType c) (IPVersion c) (Network c) (Source c)
    (Destination c) (TunnelSource c) (TunnelDestination c) (User c) (Outbound c) (Protocol
    c) (Domain c) (Client c) (SnifferNames c) (SniffError c) (InboundDetour c)
    (LastInbound c) (OriginDestination c) (RouteOriginalDestination c) (Dialing c)
    (DestinationAddresses c) (ProcessInfo c) v (FakeIP c) (IPCIDRMatchSource c)
    (IPCIDRAcceptEmpty c) (SourceAddressMatch c) (SourcePortMatch c)
    (DestinationAddressMatch c) (DestinationPortMatch c) (DefinitiveMatchStates c)
    (IgnoreDestinationIPCIDRMatch c).

Definition setFakeIP (c : InboundContext) (v : bool) : InboundContext :=
  mkInboundContext (Inbound c) (InboundType c) (IPVersion c) (Network c) (Source c)
    (Destination c) (TunnelSource c) (TunnelDestination c) (User c) (Outbound c) (Protocol
    c) (Domain c) (Client c) (SnifferNames c) (SniffError c) (InboundDetour c)
    (LastInbound c) (OriginDestination c) (RouteOriginalDestination c) (Dialing c)
    (DestinationAddresses c) (ProcessInfo c) (QueryType c) v (IPCIDRMatchSource c)
    (IPCIDRAcceptEmpty c) (SourceAddressMatch c) (SourcePortMatch c)
    (DestinationAddressMatch c) (DestinationPortMatch c) (DefinitiveMatchStates c)
    (IgnoreDestinationIPCIDRMatch c).

(** The part of the context the matching code itself changes. *)
Definition setCache (c : InboundContext) (src emp sa sp da dp : bool) (def : Z) (ign : bool)
    : InboundContext :=
  mkInboundContext (Inbound c) (InboundType c) (IPVersion c) (Network c) (Source c)
    (Destination c) (TunnelSource c) (TunnelDestination c) (User c) (Outbound c) (Protocol
    c) (Domain c) (Client c) (SnifferNames c) (SniffError c) (InboundDetour c)
    (LastInbound c) (OriginDestination c) (RouteOriginalDestination c) (Dialing c)
    (DestinationAddresses c) (ProcessInfo c) (QueryType c) (FakeIP c) src emp sa sp da dp
    def ign.

(** [c.DefinitiveMatchStates = def] *)
Definition setDefinitive (c : InboundContext) (def : Z) : InboundContext :=
  setCache c (IPCIDRMatchSource c) (IPCIDRAcceptEmpty c) (SourceAddressMatch c)
    (SourcePortMatch c) (DestinationAddressMatch c) (DestinationPortMatch c) def
    (IgnoreDestinationIPCIDRMatch c).

(** [c.IPCIDRMatchSource = src; c.IPCIDRAcceptEmpty = emp] *)
Definition setIPCIDR (c : InboundContext) (src emp : bool) : InboundContext :=
  setCache c src emp (SourceAddressMatch c) (SourcePortMatch c)
    (DestinationAddressMatch c) (DestinationPortMatch c) (DefinitiveMatchStates c)
    (IgnoreDestinationIPCIDRMatch c).

(** [c.IgnoreDestinationIPCIDRMatch = ign] *)
Definition setIgnore (c : InboundContext) (ign : bool) : InboundContext :=
  setCache c (IPCIDRMatchSource c) (IPCIDRAcceptEmpty c) (SourceAddressMatch c)
    (SourcePortMatch c) (DestinationAddressMatch c) (DestinationPortMatch c)
    (DefinitiveMatchStates c) ign.

Definition ResetRuleMatchCache (c : InboundContext) : InboundContext :=
  setCache c (IPCIDRMatchSource c) (IPCIDRAcceptEmpty c) false false false false 0
    (IgnoreDestinationIPCIDRMatch c).

Definition ResetRuleCache (c : InboundContext) : InboundContext :=
  ResetRuleMatchCache (setIPCIDR c false false).

(** The host name the domain items look at: the sniffed or mapped domain, else the
    destination's. *)
Definition domainHost (c : InboundContext) : string :=
  if negb (String.eqb (Domain c) "") then Domain c else Fqdn (Destination c).

(** ** Code outside the repository

    Regular expressions, the [netipx] address sets, and the parsers of addresses
    and hardware addresses. *)
Class External := {
  Regexp : Type;
  regexp_Compile : string -> result Regexp;
  regexp_MatchString : Regexp -> string -> bool;
  IPSet : Type;
  IPSet_Contains : IPSet -> Addr -> bool;
  (** an [IPSetBuilder] to which prefixes and addresses were added in this order *)
  IPSetBuilder_IPSet : list (Prefix + Addr) -> result IPSet;
  netip_ParsePrefix : string -> result Prefix;
  netip_ParseAddr : string -> result Addr;
  (** [net.ParseMAC] followed by [String] for a 6 byte address, or [hex.DecodeString]
      followed by [net.HardwareAddr.String] *)
  net_ParseMAC6 : string -> option string;
  hex_HardwareAddr : string -> option string;
  strings_TrimSpace : string -> string;
  (** Unicode case mapping, for strings that are not ASCII *)
  unicode_ToLower : string -> string;
  unicode_EqualFold : string -> string -> bool;
}.

(** [M.ParseAddr]: the zero address when the text does not parse *)
Definition ParseAddr `{External} (address : string) : Addr :=
  match netip_ParseAddr (unwrapIPv6Address address) with
  | Ok addr => addr
  | Err _ => AddrInvalid
  end.

(** [strings.ToLower] and [strings.EqualFold]; both treat ASCII text apart. *)
Definition strings_ToLower `{External} (s : string) : string :=
  if isASCII s then lowerString s else unicode_ToLower s.

Definition strings_EqualFold `{External} (s t : string) : bool :=
  if isASCII s && isASCII t then String.eqb (lowerString s) (lowerString t)
  else unicode_EqualFold s t.

(** ** Device state *)

(** [control.Interface] *)
Record Interface := mkInterface { ifName : string; ifAddresses : list Prefix }.

(** [adapter.NetworkInterface] *)
Record NetworkInterface := mkNetworkInterface {
  niInterface : Interface;
  niType : Z;
  niExpensive : bool;
  niConstrained : bool;
}.

(** [adapter.OutboundWithPreferredRoutes] *)
Record PreferredRoutes := mkPreferredRoutes {
  PreferredDomain : string -> bool;
  PreferredAddress : Addr -> bool;
}.

Record Env := mkEnv {
  DefaultNetworkInterface : option NetworkInterface;
  WIFIState_SSID : string;
  WIFIState_BSSID : string;
  InterfaceFinder_Interfaces : list Interface;
  NetworkInterfaces : list NetworkInterface;
  MyInterfaces : list string;
  InterfaceMonitor_DefaultInterface : option Interface;
  ClashServer_Mode : option string;
  IsAndroid : bool;
}.

(** ** Lemmas *)

Section lemmas.
Context (c : InboundContext).

Lemma setDefinitive_twice d d' : setDefinitive (setDefinitive c d) d' = setDefinitive c d'.
Proof. done. Qed.

Lemma setDefinitive_id : setDefinitive c (DefinitiveMatchStates c) = c.
Proof. by destruct c. Qed.

Lemma setDefinitive_definitive d : DefinitiveMatchStates (setDefinitive c d) = d.
Proof. done. Qed.

Lemma ResetRuleCache_idem : ResetRuleCache (ResetRuleCache c) = ResetRuleCache c.
Proof. done. Qed.
End lemmas.

#[export] Hint Rewrite setDefinitive_twice setDefinitive_id setDefinitive_definitive : go.
