(* ===== verification/DNSMessage.v ===== *)
(** * DNS messages

    The part of [github.com/miekg/dns] messages the program reads and writes, with the
    functions of [dns/client.go], [dns/client_log.go] and [dns/blocked_checker.go] that
    build responses and take addresses out of them. *)

From S2P Require Import Prelude Netip Context.

(** Record types, option and parameter codes, and response codes of the protocol *)
Definition TypeA : Z := 1.
Definition TypeCNAME : Z := 5.
Definition TypeAAAA : Z := 28.
Definition TypeOPT : Z := 41.
Definition TypeHTTPS : Z := 65.
Definition ClassINET : Z := 1.
Definition EDNS0SUBNET : Z := 8.
Definition EDNS0PADDING : Z := 12.
Definition SVCB_IPV4HINT : Z := 4.
Definition SVCB_IPV6HINT : Z := 6.
Definition RcodeSuccess : Z := 0.
Definition RcodeFormatError : Z := 1.
Definition RcodeNameError : Z := 3.
Definition RcodeRefused : Z := 5.

Record Question := mkQuestion { qName : string; qType : Z; qClass : Z }.

(** An option of an OPT record: a client subnet ([EDNS0_SUBNET]), or any other. *)
Inductive EDNS0 :=
  | EDNS0_SUBNET (family : Z) (sourceNetmask : Z) (address : Addr)
  | EDNS0_Other (code : Z) (text : string).

(** The data of a record; the values of an HTTPS record are keys with their text. *)
Inductive RData :=
  | DataA (a : Addr)
  | DataAAAA (a : Addr)
  | DataCNAME (target : string)
  | DataSOA (minttl : Z) (text : string)
  | DataHTTPS (values : list (Z * string)) (text : string)
  | DataOPT (options : list EDNS0)
  | DataOther (text : string).

(** A resource record, with its header. *)
Record RR := mkRR {
  rrName : string;
  rrType : Z;
  rrClass : Z;
  rrTtl : Z;
  rrData : RData;
}.

#[export] Instance EDNS0_eq_dec : EqDecision EDNS0.
Proof. solve_decision. Defined.
#[export] Instance RData_eq_dec : EqDecision RData.
Proof. solve_decision. Defined.
#[export] Instance RR_eq_dec : EqDecision RR.
Proof. solve_decision. Defined.
#[export] Instance Question_eq_dec : EqDecision Question.
Proof. solve_decision. Defined.

Definition setRRName (rr : RR) (n : string) : RR :=
  mkRR n (rrType rr) (rrClass rr) (rrTtl rr) (rrData rr).

Definition setTtl (rr : RR) (ttl : Z) : RR :=
  mkRR (rrName rr) (rrType rr) (rrClass rr) ttl (rrData rr).

(** A message; the last header field stands for the bits the program never touches. *)
Record Msg := mkMsg {
  Id : Z;
  Response : bool;
  Authoritative : bool;
  RecursionDesired : bool;
  RecursionAvailable : bool;
  Rcode : Z;
  otherBits : Z;
  Questions : list Question;
  Answer : list RR;
  Ns : list RR;
  Extra : list RR;
}.

Definition setId (m : Msg) (id : Z) : Msg :=
  mkMsg id (Response m) (Authoritative m) (RecursionDesired m) (RecursionAvailable m) (Rcode m)
    (otherBits m) (Questions m) (Answer m) (Ns m) (Extra m).

Definition setExtra (m : Msg) (extra : list RR) : Msg :=
  mkMsg (Id m) (Response m) (Authoritative m) (RecursionDesired m) (RecursionAvailable m) (Rcode m)
    (otherBits m) (Questions m) (Answer m) (Ns m) extra.

(** A change of every record of the three sections *)
Definition mapRecords (f : RR -> RR) (m : Msg) : Msg :=
  mkMsg (Id m) (Response m) (Authoritative m) (RecursionDesired m) (RecursionAvailable m) (Rcode m)
    (otherBits m) (Questions m) (f <$> Answer m) (f <$> Ns m) (f <$> Extra m).

(** The records of a message that are not OPT records, in the order of the loops. *)
Definition records (m : Msg) : list RR :=
  List.filter (fun r => negb (rrType r =? TypeOPT)) (Answer m ++ Ns m ++ Extra m).

(** ** Responses *)

(** [FixedResponseStatus] *)
Definition FixedResponseStatus (message : Msg) (rcode : Z) : Msg :=
  mkMsg (Id message) true true true true rcode 0 (Questions message) [] [] [].

Definition fixedAnswer (question : Question) (ttl : Z) (address : Addr) : list RR :=
  if netip.Is4 address && (qType question =? TypeA)
  then [mkRR (qName question) TypeA ClassINET ttl (DataA address)]
  else if netip.Is6 address && (qType question =? TypeAAAA)
  then [mkRR (qName question) TypeAAAA ClassINET ttl (DataAAAA address)]
  else [].

(** [FixedResponse] *)
Definition FixedResponse (id : Z) (question : Question) (addresses : list Addr) (ttl : Z) : Msg :=
  mkMsg id true true true true RcodeSuccess 0 [question]
    (flat_map (fixedAnswer question ttl) addresses) [] [].

(** [FixedResponseCNAME] *)
Definition FixedResponseCNAME (id : Z) (question : Question) (record : string) (ttl : Z) : Msg :=
  mkMsg id true true true true RcodeSuccess 0 [question]
    [mkRR (qName question) TypeCNAME ClassINET ttl (DataCNAME record)] [] [].

(** ** Names and addresses *)

(** [dns.IsFqdn] and [dns.Fqdn] of [miekg/dns] *)
Class DNSNames := {
  IsFqdn : string -> bool;
  dns_Fqdn : string -> string;
}.

Section names.
Context `{External} `{DNSNames}.

Definition FqdnToDomain (fqdn : string) : string :=
  if IsFqdn fqdn then String.substring 0 (String.length fqdn - 1) fqdn else fqdn.

(** [strings.Split(s, ",")] *)
Fixpoint splitComma (s : string) (acc : string) : list string :=
  match s with
  | EmptyString => [acc]
  | String c rest =>
      if Ascii.eqb c ","%char then acc :: splitComma rest ""
      else splitComma rest (acc +:+ String c "")
  end.

Definition answerAddresses (rr : RR) : list Addr :=
  match rrData rr with
  | DataA a | DataAAAA a => [a]
  | DataHTTPS values _ =>
      flat_map (fun v =>
          if (v.1 =? SVCB_IPV4HINT) || (v.1 =? SVCB_IPV6HINT)
          then ParseAddr <$> splitComma v.2 "" else []) values
  | _ => []
  end.

(** [MessageToAddresses] *)
Definition MessageToAddresses (response : Msg) : list Addr :=
  if negb (Rcode response =? RcodeSuccess) then []
  else flat_map answerAddresses (Answer response).
End names.

(** ** Blocked addresses *)

(** 10.0.0.0/8 and 2001:4188:2:600::/64 *)
Definition blockedPrefixes : list Prefix :=
  [prefix.PrefixFrom (Addr4 (10 * 2 ^ 24)) 8;
   prefix.PrefixFrom (Addr6 (0x2001 * 2 ^ 112 + 0x4188 * 2 ^ 96 + 2 * 2 ^ 80 + 0x600 * 2 ^ 64) "") 64].

Definition IsBlockedIP (ip : Addr) : bool :=
  negb (netip.IsValid ip) || existsb (fun p => prefix.Contains p ip) blockedPrefixes.

Definition FilterBlocked (addrs : list Addr) : list Addr :=
  List.filter (fun ip => negb (IsBlockedIP ip)) addrs.
