(* ===== verification/RuleItem.v ===== *)
(** * Rule items ([route/rule/rule_item_*.go])

    One constructor of [RuleItem] per item type of the code, with its fields; one
    [New...] function per constructor function and one [..._Match] function per
    [Match] method.  [RuleSetItem] is not here: it evaluates rules and is part of
    the rule engine ([RuleAbstract.v]). *)

From S2P Require Import Prelude Netip Context.

(** What the rule engine relies on of [sing/common/domain]: a matcher built from
    domains and suffixes, and a matcher built from AdGuard rules. *)
Class DomainMatching := {
  Matcher : Type;
  NewMatcher : list string -> list string -> bool -> Matcher;
  Matcher_Match : Matcher -> string -> bool;
  AdGuardMatcher : Type;
  NewAdGuardMatcher : list string -> AdGuardMatcher;
  AdGuardMatcher_Match : AdGuardMatcher -> string -> bool;
}.

(** [rangeItem] *)
Record rangeItem := mkRange { rstart : Z; rend : Z }.

Inductive RuleItem `{External} `{DomainMatching} :=
  | AuthUserItem (users : list string) (userMap : gmap string bool)
  | ClashModeItem (clashServer : bool) (mode : string)
  | ClientItem (clients : list string) (clientMap : gmap string bool)
  | InboundItem (inbounds : list string) (inboundMap : gmap string bool)
  | NetworkItem (networks : list string) (networkMap : gmap string bool)
  | NetworkIsConstrainedItem
  | NetworkIsExpensiveItem
  | NetworkTypeItem (networkType : list Z)
  | OutboundItem (outbounds : list string) (outboundMap : gmap string bool) (matchAny : bool)
  | PackageNameItem (packageNames : list string) (packageMap : gmap string bool)
  | PreferredByItem (outboundTags : list string) (preferred : list PreferredRoutes)
  | ProcessItem (processes : list string) (processMap : gmap string bool)
  | ProcessPathItem (processes : list string) (processMap : gmap string bool)
  | ProcessPathRegexItem (expressions : list string) (matchers : list Regexp)
  | ProtocolItem (protocols : list string) (protocolMap : gmap string bool)
  | QueryTypeItem (typeList : list Z) (typeMap : gmap Z bool)
  | TunnelDestinationItem (destinations : list string) (destinationMap : gmap string bool)
  | TunnelSourceItem (sources : list string) (sourceMap : gmap string bool)
  | UserItem (users : list string) (userMap : gmap string bool)
  | UserIdItem (userIds : list Z) (userIdMap : gmap Z bool)
  | WIFIBSSIDItem (bssidList : list string) (bssidMap : gmap string bool)
  | WIFISSIDItem (ssidList : list string) (ssidMap : gmap string bool)
  | IPVersionItem (isIPv6 : bool)
  | DomainItem (matcher : Matcher)
  | DomainKeywordItem (keywords : list string)
  | DomainRegexItem (expressions : list string) (matchers : list Regexp)
  | AdGuardDomainItem (matcher : AdGuardMatcher)
  | IPCIDRItem (ipSet : IPSet) (isSource : bool)
  | IPIsPrivateItem (isSource : bool)
  | IPAcceptAnyItem
  | PortItem (ports : list Z) (portMap : gmap Z bool) (isSource : bool)
  | PortRangeItem (isSource : bool) (portRanges : list string) (portRangeList : list rangeItem)
  | InterfaceAddressItem (interfaceAddresses : gmap string (list Prefix))
  | NetworkInterfaceAddressItem (networkInterfaceAddresses : gmap Z (list Prefix))
  | DefaultInterfaceAddressItem (interfacePrefixes : list Prefix).

Section items.
Context `{External} `{DomainMatching}.

(** ** Constructors *)

Definition NewAuthUserItem (users : list string) : RuleItem :=
  AuthUserItem users (makeSet users).

Definition NewClashModeItem (mode : string) : RuleItem := ClashModeItem false mode.

Definition NewClientItem (clients : list string) : RuleItem :=
  ClientItem clients (makeSet clients).

Definition NewInboundRule (inbounds : list string) : RuleItem :=
  InboundItem inbounds (makeSet inbounds).

Definition NewNetworkItem (networks : list string) : RuleItem :=
  NetworkItem networks (makeSet networks).

Definition NewNetworkIsConstrainedItem : RuleItem := NetworkIsConstrainedItem.

Definition NewNetworkIsExpensiveItem : RuleItem := NetworkIsExpensiveItem.

Definition NewNetworkTypeItem (networkType : list Z) : RuleItem := NetworkTypeItem networkType.

(** The loop puts every tag but ["any"] in the map. *)
Definition NewOutboundRule (outbounds : list string) : RuleItem :=
  let '(m, any) :=
    foldl (fun '(m, any) outbound =>
             if String.eqb outbound "any" then (m, true)
             else (<[outbound := true]> m, any))
          (∅, false) outbounds in
  OutboundItem outbounds m any.

Definition NewPackageNameItem (packageNameList : list string) : RuleItem :=
  PackageNameItem packageNameList (makeSet packageNameList).

Definition NewPreferredByItem (outboundTags : list string) : RuleItem :=
  PreferredByItem outboundTags [].

Definition NewProcessItem (processNameList : list string) : RuleItem :=
  ProcessItem processNameList (makeSet processNameList).

Definition NewProcessPathItem (processNameList : list string) : RuleItem :=
  ProcessPathItem processNameList (makeSet processNameList).

(** The decimal text of a small index, for the messages. *)
Definition indexText (i : nat) : string := pretty (N.of_nat i).

Fixpoint compileAll (i : nat) (expressions : list string) : result (list Regexp) :=
  match expressions with
  | [] => Ok []
  | regex :: rest =>
      match regexp_Compile regex with
      | Err e => Err (E_Cause e ("parse expression " +:+ indexText i)%string)
      | Ok matcher => matchers ← compileAll (S i) rest; Ok (matcher :: matchers)
      end
  end.

Definition NewProcessPathRegexItem (expressions : list string) : result RuleItem :=
  matchers ← compileAll 0 expressions;
  Ok (ProcessPathRegexItem expressions matchers).

Definition NewProtocolItem (protocols : list string) : RuleItem :=
  ProtocolItem protocols (makeSet protocols).

Definition NewQueryTypeItem (typeList : list Z) : RuleItem :=
  QueryTypeItem typeList (makeSet typeList).

Definition NewTunnelDestinationItem (destinations : list string) : RuleItem :=
  TunnelDestinationItem destinations (makeSet destinations).

Definition NewTunnelSourceItem (sources : list string) : RuleItem :=
  TunnelSourceItem sources (makeSet sources).

Definition NewUserItem (users : list string) : RuleItem := UserItem users (makeSet users).

Definition NewUserIDItem (userIdList : list Z) : RuleItem :=
  UserIdItem userIdList (makeSet userIdList).

(** [adapter.NormalizeWIFIBSSID] *)
Definition NormalizeWIFIBSSID (raw : string) : string :=
  let bssid := strings_TrimSpace raw in
  if String.eqb bssid "" then "" else
  match net_ParseMAC6 bssid with
  | Some parsed => parsed
  | None =>
      if (String.length bssid =? 12)%nat then
        match hex_HardwareAddr bssid with Some decoded => decoded | None => bssid end
      else bssid
  end.

Definition NewWIFIBSSIDItem (bssidList : list string) : RuleItem :=
  WIFIBSSIDItem bssidList (makeSet (NormalizeWIFIBSSID <$> bssidList)).

Definition NewWIFISSIDItem (ssidList : list string) : RuleItem :=
  WIFISSIDItem ssidList (makeSet ssidList).

Definition NewIPVersionItem (isIPv6 : bool) : RuleItem := IPVersionItem isIPv6.

Definition NewDomainItem (domains domainSuffixes : list string) : result RuleItem :=
  if bool_decide ("" ∈ domains) then Err "domain: empty item is not allowed"
  else if bool_decide ("" ∈ domainSuffixes) then
    Err "domain_suffix: empty item is not allowed"
  else Ok (DomainItem (NewMatcher domains domainSuffixes false)).

Definition NewRawDomainItem (matcher : Matcher) : RuleItem := DomainItem matcher.

Definition NewDomainKeywordItem (keywords : list string) : RuleItem :=
  DomainKeywordItem keywords.

Definition NewDomainRegexItem (expressions : list string) : result RuleItem :=
  matchers ← compileAll 0 expressions;
  Ok (DomainRegexItem expressions matchers).

Definition NewAdGuardDomainItem (ruleLines : list string) : RuleItem :=
  AdGuardDomainItem (NewAdGuardMatcher ruleLines).

Definition NewRawAdGuardDomainItem (matcher : AdGuardMatcher) : RuleItem :=
  AdGuardDomainItem matcher.

(** One string of an [ip_cidr] list: a prefix, else an address; the error reported
    is that of the prefix parser. *)
Definition parseCIDR (i : nat) (prefixString : string) : result (Prefix + Addr) :=
  match netip_ParsePrefix prefixString with
  | Ok prefix => Ok (inl prefix)
  | Err err =>
      match netip_ParseAddr prefixString with
      | Ok addr => Ok (inr addr)
      | Err _ => Err (E_Cause err ("parse [" +:+ indexText i +:+ "]")%string)
      end
  end.

Fixpoint parseCIDRs (i : nat) (prefixStrings : list string) : result (list (Prefix + Addr)) :=
  match prefixStrings with
  | [] => Ok []
  | s :: rest => p ← parseCIDR i s; ps ← parseCIDRs (S i) rest; Ok (p :: ps)
  end.

Definition NewIPCIDRItem (isSource : bool) (prefixStrings : list string) : result RuleItem :=
  added ← parseCIDRs 0 prefixStrings;
  ipSet ← IPSetBuilder_IPSet added;
  Ok (IPCIDRItem ipSet isSource).

Definition NewRawIPCIDRItem (isSource : bool) (ipSet : IPSet) : RuleItem :=
  IPCIDRItem ipSet isSource.

Definition NewIPIsPrivateItem (isSource : bool) : RuleItem := IPIsPrivateItem isSource.

Definition NewIPAcceptAnyItem : RuleItem := IPAcceptAnyItem.

Definition NewPortItem (isSource : bool) (ports : list Z) : RuleItem :=
  PortItem ports (makeSet ports) isSource.

(** One entry of a port range list: [start:end], each side may be empty. *)
Definition parsePortRange (portRange : string) : result rangeItem :=
  let bad := ("bad port range: " +:+ portRange)%string in
  match cutAt ":"%char portRange with
  | None => Err bad
  | Some (before, after) =>
      start ← (if String.eqb before "" then Ok 0
               else causing bad (strconv_ParseUint before 16));
      end_ ← (if String.eqb after "" then Ok 0xFFFF
              else causing bad (strconv_ParseUint after 16));
      Ok (mkRange (u16 start) (u16 end_))
  end.

Definition NewPortRangeItem (isSource : bool) (rangeList : list string) : result RuleItem :=
  portRangeList ← mapR parsePortRange rangeList;
  Ok (PortRangeItem isSource rangeList portRangeList).

(** The map is filled in the order of the entries: the last entry of a key wins. *)
Definition NewInterfaceAddressItem (entries : list (string * list Prefix)) : RuleItem :=
  InterfaceAddressItem (foldl (fun m '(k, prefixes) => <[k := prefixes]> m) ∅ entries).

Definition NewNetworkInterfaceAddressItem (entries : list (Z * list Prefix)) : RuleItem :=
  NetworkInterfaceAddressItem (foldl (fun m '(k, prefixes) => <[k := prefixes]> m) ∅ entries).

Definition NewDefaultInterfaceAddressItem (prefixes : list Prefix) : RuleItem :=
  DefaultInterfaceAddressItem prefixes.

(** ** [Match] methods *)

Definition AuthUserItem_Match (userMap : gmap string bool) (metadata : InboundContext) : bool :=
  mapGet userMap (User metadata).

Definition ClashModeItem_Match (env : Env) (clashServer : bool) (mode : string) : bool :=
  if negb clashServer then false
  else strings_EqualFold (default "" (ClashServer_Mode env)) mode.

Definition ClientItem_Match (clientMap : gmap string bool) (metadata : InboundContext) : bool :=
  mapGet clientMap (Client metadata).

Definition InboundItem_Match (inboundMap : gmap string bool) (metadata : InboundContext) : bool :=
  mapGet inboundMap (Inbound metadata).

Definition NetworkItem_Match (networkMap : gmap string bool) (metadata : InboundContext) : bool :=
  mapGet networkMap (Network metadata).

Definition NetworkIsConstrainedItem_Match (env : Env) : bool :=
  match DefaultNetworkInterface env with None => false | Some ni => niConstrained ni end.

Definition NetworkIsExpensiveItem_Match (env : Env) : bool :=
  match DefaultNetworkInterface env with None => false | Some ni => niExpensive ni end.

Definition NetworkTypeItem_Match (env : Env) (networkType : list Z) : bool :=
  match DefaultNetworkInterface env with
  | None => false
  | Some ni => bool_decide (niType ni ∈ networkType)
  end.

Definition OutboundItem_Match (outboundMap : gmap string bool) (matchAny : bool)
    (metadata : InboundContext) : bool :=
  if matchAny then negb (String.eqb (Outbound metadata) "")
  else mapGet outboundMap (Outbound metadata).

Definition PackageNameItem_Match (packageMap : gmap string bool) (metadata : InboundContext) : bool :=
  match ProcessInfo metadata with
  | None => false
  | Some info => existsb (mapGet packageMap) (AndroidPackageNames info)
  end.

Definition PreferredByItem_Match (outbounds : list PreferredRoutes) (metadata : InboundContext) : bool :=
  let host := domainHost metadata in
  (negb (String.eqb host "") && existsb (fun o => PreferredDomain o host) outbounds)
  || (socksaddr.IsIP (Destination metadata)
      && existsb (fun o => PreferredAddress o (Addr_ (Destination metadata))) outbounds)
  || existsb (fun address => existsb (fun o => PreferredAddress o address) outbounds)
       (DestinationAddresses metadata).

(** [filepath.Base] on a system whose separator is [/] *)
Definition filepath_Base (path : string) : string :=
  if String.eqb path "" then "." else
  let isSep := fun c => Ascii.eqb c "/"%char in
  let fix dropSep l := match l with
    | [] => [] | c :: l' => if isSep c then dropSep l' else l end in
  let fix takeName l := match l with
    | [] => [] | c :: l' => if isSep c then [] else c :: takeName l' end in
  let name := takeName (dropSep (reverse (String.list_ascii_of_string path))) in
  match name with
  | [] => "/"
  | _ => String.string_of_list_ascii (reverse name)
  end.

Definition ProcessItem_Match (processMap : gmap string bool) (metadata : InboundContext) : bool :=
  match ProcessInfo metadata with
  | None => false
  | Some info =>
      if String.eqb (ProcessPath info) "" then false
      else mapGet processMap (filepath_Base (ProcessPath info))
  end.

Definition ProcessPathItem_Match (env : Env) (processMap : gmap string bool)
    (metadata : InboundContext) : bool :=
  match ProcessInfo metadata with
  | None => false
  | Some info =>
      if negb (String.eqb (ProcessPath info) "") && mapGet processMap (ProcessPath info)
      then true
      else IsAndroid env && existsb (mapGet processMap) (AndroidPackageNames info)
  end.

Definition ProcessPathRegexItem_Match (matchers : list Regexp) (metadata : InboundContext) : bool :=
  match ProcessInfo metadata with
  | None => false
  | Some info =>
      if String.eqb (ProcessPath info) "" then false
      else existsb (fun m => regexp_MatchString m (ProcessPath info)) matchers
  end.

Definition ProtocolItem_Match (protocolMap : gmap string bool) (metadata : InboundContext) : bool :=
  mapGet protocolMap (Protocol metadata).

Definition QueryTypeItem_Match (typeMap : gmap Z bool) (metadata : InboundContext) : bool :=
  if QueryType metadata =? 0 then false else mapGet typeMap (QueryType metadata).

Definition TunnelDestinationItem_Match (destinationMap : gmap string bool)
    (metadata : InboundContext) : bool :=
  mapGet destinationMap (TunnelDestination metadata).

Definition TunnelSourceItem_Match (sourceMap : gmap string bool) (metadata : InboundContext) : bool :=
  mapGet sourceMap (TunnelSource metadata).

Definition UserItem_Match (userMap : gmap string bool) (metadata : InboundContext) : bool :=
  match ProcessInfo metadata with
  | None => false
  | Some info =>
      if String.eqb (UserName info) "" then false else mapGet userMap (UserName info)
  end.

Definition UserIdItem_Match (userIdMap : gmap Z bool) (metadata : InboundContext) : bool :=
  match ProcessInfo metadata with
  | None => false
  | Some info => if UserId info =? -1 then false else mapGet userIdMap (UserId info)
  end.

Definition WIFIBSSIDItem_Match (env : Env) (bssidMap : gmap string bool) : bool :=
  mapGet bssidMap (WIFIState_BSSID env).

Definition WIFISSIDItem_Match (env : Env) (ssidMap : gmap string bool) : bool :=
  mapGet ssidMap (WIFIState_SSID env).

(** [a != 0 && a == 6 == isIPv6 || b]: Go's [==] associates to the left. *)
Definition IPVersionItem_Match (isIPv6 : bool) (metadata : InboundContext) : bool :=
  (negb (IPVersion metadata =? 0) && Bool.eqb (IPVersion metadata =? 6) isIPv6)
  || (socksaddr.IsIP (Destination metadata)
      && Bool.eqb (socksaddr.IsIPv6 (Destination metadata)) isIPv6).

Definition DomainItem_Match (matcher : Matcher) (metadata : InboundContext) : bool :=
  let host := domainHost metadata in
  if String.eqb host "" then false else Matcher_Match matcher (strings_ToLower host).

Definition DomainKeywordItem_Match (keywords : list string) (metadata : InboundContext) : bool :=
  let host := domainHost metadata in
  if String.eqb host "" then false
  else existsb (fun keyword => strings_Contains (strings_ToLower host) keyword) keywords.

Definition DomainRegexItem_Match (matchers : list Regexp) (metadata : InboundContext) : bool :=
  let host := domainHost metadata in
  if String.eqb host "" then false
  else existsb (fun m => regexp_MatchString m (strings_ToLower host)) matchers.

Definition AdGuardDomainItem_Match (matcher : AdGuardMatcher) (metadata : InboundContext) : bool :=
  let host := domainHost metadata in
  if String.eqb host "" then false else AdGuardMatcher_Match matcher (strings_ToLower host).

Definition IPCIDRItem_Match (ipSet : IPSet) (isSource : bool) (metadata : InboundContext) : bool :=
  if isSource || IPCIDRMatchSource metadata then IPSet_Contains ipSet (Addr_ (Source metadata))
  else if socksaddr.IsIP (Destination metadata)
  then IPSet_Contains ipSet (Addr_ (Destination metadata))
  else match DestinationAddresses metadata with
       | [] => IPCIDRAcceptEmpty metadata
       | addresses => existsb (IPSet_Contains ipSet) addresses
       end.

Definition IPIsPrivateItem_Match (isSource : bool) (metadata : InboundContext) : bool :=
  let destination :=
    if isSource then Addr_ (Source metadata) else Addr_ (Destination metadata) in
  if netip.IsValid destination then negb (IsPublicAddr destination)
  else negb isSource
       && existsb (fun a => negb (IsPublicAddr a)) (DestinationAddresses metadata).

Definition IPAcceptAnyItem_Match (metadata : InboundContext) : bool :=
  negb (bool_decide (DestinationAddresses metadata = [])).

Definition PortItem_Match (portMap : gmap Z bool) (isSource : bool) (metadata : InboundContext) : bool :=
  if isSource then mapGet portMap (Port (Source metadata))
  else mapGet portMap (Port (Destination metadata)).

Definition PortRangeItem_Match (isSource : bool) (portRangeList : list rangeItem)
    (metadata : InboundContext) : bool :=
  let port := if isSource then Port (Source metadata) else Port (Destination metadata) in
  existsb (fun r => (rstart r <=? port) && (port <=? rend r)) portRangeList.

(** The loops range over a Go map, in no particular order: every entry must hold. *)
Definition InterfaceAddressItem_Match (env : Env) (addressesOf : gmap string (list Prefix)) : bool :=
  forallb (fun '(name, addresses) =>
      let iface := default (mkInterface "" [])
        (List.find (fun it => String.eqb (ifName it) name) (InterfaceFinder_Interfaces env)) in
      negb (String.eqb (ifName iface) "")
      && negb (forallb (fun address =>
                 forallb (fun it => negb (prefix.Overlaps address it)) (ifAddresses iface))
               addresses))
    (map_to_list addressesOf).

Definition NetworkInterfaceAddressItem_Match (env : Env) (addressesOf : gmap Z (list Prefix)) : bool :=
  forallb (fun '(ifType, addresses) =>
      existsb (fun ni =>
          negb (bool_decide (ifName (niInterface ni) ∈ MyInterfaces env))
          && (niType ni =? ifType)
          && existsb (fun it => existsb (fun prefix => prefix.Overlaps prefix it) addresses)
               (ifAddresses (niInterface ni)))
        (NetworkInterfaces env))
    (map_to_list addressesOf).

Definition DefaultInterfaceAddressItem_Match (env : Env) (addresses : list Prefix) : bool :=
  match InterfaceMonitor_DefaultInterface env with
  | None => false
  | Some iface =>
      forallb (fun address =>
        negb (forallb (fun it => negb (prefix.Overlaps address it)) (ifAddresses iface)))
      addresses
  end.

(** The [RuleItem] interface's [Match]. *)
Definition Match (env : Env) (item : RuleItem) (metadata : InboundContext) : bool :=
  match item with
  | AuthUserItem _ m => AuthUserItem_Match m metadata
  | ClashModeItem started mode => ClashModeItem_Match env started mode
  | ClientItem _ m => ClientItem_Match m metadata
  | InboundItem _ m => InboundItem_Match m metadata
  | NetworkItem _ m => NetworkItem_Match m metadata
  | NetworkIsConstrainedItem => NetworkIsConstrainedItem_Match env
  | NetworkIsExpensiveItem => NetworkIsExpensiveItem_Match env
  | NetworkTypeItem types => NetworkTypeItem_Match env types
  | OutboundItem _ m any => OutboundItem_Match m any metadata
  | PackageNameItem _ m => PackageNameItem_Match m metadata
  | PreferredByItem _ outbounds => PreferredByItem_Match outbounds metadata
  | ProcessItem _ m => ProcessItem_Match m metadata
  | ProcessPathItem _ m => ProcessPathItem_Match env m metadata
  | ProcessPathRegexItem _ ms => ProcessPathRegexItem_Match ms metadata
  | ProtocolItem _ m => ProtocolItem_Match m metadata
  | QueryTypeItem _ m => QueryTypeItem_Match m metadata
  | TunnelDestinationItem _ m => TunnelDestinationItem_Match m metadata
  | TunnelSourceItem _ m => TunnelSourceItem_Match m metadata
  | UserItem _ m => UserItem_Match m metadata
  | UserIdItem _ m => UserIdItem_Match m metadata
  | WIFIBSSIDItem _ m => WIFIBSSIDItem_Match env m
  | WIFISSIDItem _ m => WIFISSIDItem_Match env m
  | IPVersionItem v6 => IPVersionItem_Match v6 metadata
  | DomainItem matcher => DomainItem_Match matcher metadata
  | DomainKeywordItem keywords => DomainKeywordItem_Match keywords metadata
  | DomainRegexItem _ ms => DomainRegexItem_Match ms metadata
  | AdGuardDomainItem matcher => AdGuardDomainItem_Match matcher metadata
  | IPCIDRItem ipSet src => IPCIDRItem_Match ipSet src metadata
  | IPIsPrivateItem src => IPIsPrivateItem_Match src metadata
  | IPAcceptAnyItem => IPAcceptAnyItem_Match metadata
  | PortItem _ m src => PortItem_Match m src metadata
  | PortRangeItem src _ ranges => PortRangeItem_Match src ranges metadata
  | InterfaceAddressItem m => InterfaceAddressItem_Match env m
  | NetworkInterfaceAddressItem m => NetworkInterfaceAddressItem_Match env m
  | DefaultInterfaceAddressItem ps => DefaultInterfaceAddressItem_Match env ps
  end.
End items.
