(* ===== verification/Matching.v ===== *)
(** * The domain matchers behind the rule items

    The rule engine is written against [DomainMatching]; here the succinct matchers
    implement it, and an item of domains and suffixes matches the hosts it should. *)

From stdpp Require Import sorting.
From S2P Require Import Prelude Netip Context RuleItem Binary Utf8 Succinct.
From S2P Require Import RankSelect SuccinctSpec DomainMatcher DomainMatcherSpec DomainNames.

(** A matcher that could not be built or that panics matches nothing. *)
Definition answer (r : result bool) : bool := match r with Ok b => b | Err _ => false end.

Definition succinctMatching : DomainMatching := {|
  Matcher := result succinctSet;
  NewMatcher := fun domains suffixes legacy =>
    newMatcher (stringBytes <$> domains) (stringBytes <$> suffixes) legacy;
  Matcher_Match := fun m domain => answer (set ← m; Match_ set (stringBytes domain));
  AdGuardMatcher := result succinctSet;
  NewAdGuardMatcher := fun lines => newAdGuardMatcher (stringBytes <$> lines);
  AdGuardMatcher_Match := fun m domain => answer (set ← m; AdGuard_Match set (stringBytes domain));
|}.

(** The string of a text *)
Definition text (rs : list Z) : string := bytesString (utf8 rs).

Lemma texts_bytes (l : list (list Z)) : stringBytes <$> (text <$> l) = utf8 <$> l.
Proof. rewrite <- list_fmap_compose. apply list_fmap_ext. intros i x _. apply stringBytes_bytesString. Qed.

Lemma text_empty rs : text rs = ""%string -> rs = [].
Proof.
  intros E. apply (f_equal stringBytes) in E. unfold text in E. rewrite stringBytes_bytesString in E.
  destruct rs as [|r rs]; [done|]. rewrite utf8_cons in E. pose proof (EncodeRune_length r).
  destruct (EncodeRune r); simpl in *; [lia|done].
Qed.

Lemma text_not_empty (l : list (list Z)) : Forall (fun s => s <> []) l -> ""%string ∉ text <$> l.
Proof.
  intros Hl (rs & E & Hin)%list_elem_of_fmap. rewrite Forall_forall in Hl.
  by apply (Hl rs Hin), text_empty.
Qed.

Section Items.
Context `{External}.
#[local] Existing Instance succinctMatching.

(** A rule item of domains and suffixes is built for every list of names that are not empty,
    and matches a connection exactly when the host it looks at, in lower case, is matched
    by the lists. *)
Lemma domain_item_matches (domains suffixes : list (list Z)) (env : Env) (md : InboundContext) (name : list Z) :
  Forall isName domains -> Forall isName suffixes ->
  Forall (fun s => s <> []) domains -> Forall (fun s => s <> []) suffixes ->
  domains ++ suffixes <> [] -> Z.of_nat (keyRoom domains + keyRoom suffixes) < 2 ^ 29 ->
  domainHost md <> ""%string -> strings_ToLower (domainHost md) = text name -> isName name ->
  exists item, NewDomainItem (text <$> domains) (text <$> suffixes) = Ok item
    /\ (Match env item md = true <-> nameMatches domains suffixes name).
Proof.
  intros Hd Hs Hd0 Hs0 Hne Hroom Hhost Hlower Hname.
  destruct (newMatcher_ok domains suffixes false Hd Hs Hs0 Hne Hroom) as (m & Em & Hm).
  unfold NewDomainItem. rewrite !bool_decide_false by (by apply text_not_empty).
  eexists. split; [done|]. cbn [Match]. unfold DomainItem_Match. rewrite (proj2 (String.eqb_neq _ _)) by done.
  rewrite Hlower. cbn [NewMatcher Matcher_Match succinctMatching]. rewrite !texts_bytes, Em. cbn [mbind result_bind].
  unfold text. rewrite stringBytes_bytesString. destruct (Hm name Hname) as (b & -> & Hb). exact Hb.
Qed.
End Items.
