(* ===== verification/Options.v ===== *)
(** * Configuration options of rules ([option/rule.go], [rule_dns.go],
      [rule_set.go], [rule_action.go])

    The structures a configuration is decoded into, with the source's names, one
    module per Go structure since they share field names.  A Go slice is [None] when
    it is [nil]: [reflect.DeepEqual], which [IsValid] uses, tells [nil] from a slice
    without elements. *)

From S2P Require Import Prelude Netip DNSMessage Context RuleItem.

Abbreviation slice A := (option (list A)).

(** The elements of a slice; [len(s) > 0] is [nonempty (elems s)]. *)
Definition elems {A} (s : slice A) : list A := default [] s.

Definition isNil {A} (o : option A) : bool := match o with None => true | Some _ => false end.

(** ** Rule actions *)

(** [dialer.New] and the options of a direct dialer, which the rules only pass on. *)
Class DirectDialer := {
  DialerOptions : Type;
  isZeroDialerOptions : DialerOptions -> bool;
  DialerOptions_Descriptions : DialerOptions -> list string;
  Dialer : Type;
  dialer_New : DialerOptions -> result Dialer;
}.

(** [C.DomainStrategy] *)
Abbreviation DomainStrategyAsIS := (0%Z) (only parsing).
Abbreviation DomainStrategyPreferIPv4 := (1%Z) (only parsing).
Abbreviation DomainStrategyPreferIPv6 := (2%Z) (only parsing).
Abbreviation DomainStrategyIPv4Only := (3%Z) (only parsing).
Abbreviation DomainStrategyIPv6Only := (4%Z) (only parsing).

Module RawRouteOptionsActionOptions.
Record t := mk {
  OverrideAddress : string;
  OverridePort : Z;
  OverrideTunnelDestination : string;
  NetworkStrategy : option Z;
  FallbackDelay : Z;
  UDPDisableDomainUnmapping : bool;
  UDPConnect : bool;
  UDPTimeout : Z;
  TLSFragment : bool;
  TLSFragmentFallbackDelay : Z;
  TLSRecordFragment : bool;
}.

Definition isZero (o : t) : bool :=
  String.eqb (OverrideAddress o) "" && (OverridePort o =? 0)
  && String.eqb (OverrideTunnelDestination o) "" && isNil (NetworkStrategy o)
  && (FallbackDelay o =? 0) && negb (UDPDisableDomainUnmapping o) && negb (UDPConnect o)
  && (UDPTimeout o =? 0) && negb (TLSFragment o) && (TLSFragmentFallbackDelay o =? 0)
  && negb (TLSRecordFragment o).

Definition zero : t := mk "" 0 "" None 0 false false 0 false 0 false.
End RawRouteOptionsActionOptions.

(** [RouteActionOptions] *)
Record RouteActionOptions := mkRouteActionOptions {
  raoOutbound : string;
  raoRaw : RawRouteOptionsActionOptions.t;
}.

(** [RejectActionOptions] *)
Record RejectActionOptions := mkRejectActionOptions { rejMethod : string; rejNoDrop : bool }.

(** [RouteActionSniff] *)
Record RouteActionSniff := mkRouteActionSniff { Sniffer : slice string; SniffTimeout : Z }.

(** [RouteActionResolve] *)
Record RouteActionResolve := mkRouteActionResolve {
  resServer : string;
  resStrategy : Z;
  resDisableCache : bool;
  resRewriteTTL : option Z;
  resClientSubnet : option Prefix;
}.

Module RuleAction.
Record t `{DirectDialer} := mk {
  Action : string;
  RouteOptions : RouteActionOptions;
  RouteOptionsOptions : RawRouteOptionsActionOptions.t;
  DirectOptions : DialerOptions;
  BypassOptions : RouteActionOptions;
  RejectOptions : RejectActionOptions;
  SniffOptions : RouteActionSniff;
  ResolveOptions : RouteActionResolve;
}.

Arguments mk {_}.

Definition isZeroRoute (o : RouteActionOptions) : bool :=
  String.eqb (raoOutbound o) "" && RawRouteOptionsActionOptions.isZero (raoRaw o).

(** [reflect.DeepEqual] with the zero value *)
Definition isZero `{DirectDialer} (a : t) : bool :=
  String.eqb (Action a) "" && isZeroRoute (RouteOptions a)
  && RawRouteOptionsActionOptions.isZero (RouteOptionsOptions a)
  && isZeroDialerOptions (DirectOptions a) && isZeroRoute (BypassOptions a)
  && String.eqb (rejMethod (RejectOptions a)) "" && negb (rejNoDrop (RejectOptions a))
  && isNil (Sniffer (SniffOptions a)) && (SniffTimeout (SniffOptions a) =? 0)
  && String.eqb (resServer (ResolveOptions a)) "" && (resStrategy (ResolveOptions a) =? 0)
  && negb (resDisableCache (ResolveOptions a)) && isNil (resRewriteTTL (ResolveOptions a))
  && isNil (resClientSubnet (ResolveOptions a)).
End RuleAction.

Module DNSRuleAction.
(** [DNSRouteActionOptions] and [DNSRouteOptionsActionOptions]; the second has no
    [Server] and no [BypassIfFailed]. *)
Record DNSRouteActionOptions := mkDNSRoute {
  Server : string;
  Strategy : Z;
  DisableCache : bool;
  RewriteTTL : option Z;
  ClientSubnet : option Prefix;
  BypassIfFailed : bool;
}.

Record DNSRouteOptionsActionOptions := mkDNSRouteOptions {
  optStrategy : Z;
  optDisableCache : bool;
  optRewriteTTL : option Z;
  optClientSubnet : option Prefix;
}.

(** [DNSRouteActionPredefined] *)
Record DNSRouteActionPredefined := mkPredefined {
  Rcode : option Z;
  Answer : slice RR;
  Ns : slice RR;
  Extra : slice RR;
}.

Record t := mk {
  Action : string;
  RouteOptions : DNSRouteActionOptions;
  RouteOptionsOptions : DNSRouteOptionsActionOptions;
  RejectOptions : RejectActionOptions;
  PredefinedOptions : DNSRouteActionPredefined;
}.

Definition isZero (a : t) : bool :=
  let r := RouteOptions a in let o := RouteOptionsOptions a in let p := PredefinedOptions a in
  String.eqb (Action a) "" && String.eqb (Server r) "" && (Strategy r =? 0)
  && negb (DisableCache r) && isNil (RewriteTTL r) && isNil (ClientSubnet r)
  && negb (BypassIfFailed r) && (optStrategy o =? 0) && negb (optDisableCache o)
  && isNil (optRewriteTTL o) && isNil (optClientSubnet o)
  && String.eqb (rejMethod (RejectOptions a)) "" && negb (rejNoDrop (RejectOptions a))
  && isNil (Rcode p) && isNil (Answer p) && isNil (Ns p) && isNil (Extra p).
End DNSRuleAction.

(** ** Rules *)

Module RawDefaultRule.
Record t := mk {
  Inbound : slice string;
  IPVersion : Z;
  Network : slice string;
  AuthUser : slice string;
  Protocol : slice string;
  Client : slice string;
  Domain : slice string;
  DomainSuffix : slice string;
  DomainKeyword : slice string;
  DomainRegex : slice string;
  Geosite : slice string;
  SourceGeoIP : slice string;
  GeoIP : slice string;
  SourceIPCIDR : slice string;
  SourceIPIsPrivate : bool;
  IPCIDR : slice string;
  IPIsPrivate : bool;
  SourcePort : slice Z;
  SourcePortRange : slice string;
  Port : slice Z;
  PortRange : slice string;
  ProcessName : slice string;
  ProcessPath : slice string;
  ProcessPathRegex : slice string;
  PackageName : slice string;
  User : slice string;
  UserID : slice Z;
  ClashMode : string;
  NetworkType : slice Z;
  NetworkIsExpensive : bool;
  NetworkIsConstrained : bool;
  WIFISSID : slice string;
  WIFIBSSID : slice string;
  RuleSet : slice string;
  RuleSetIPCIDRMatchSource : bool;
  Invert : bool;
  Deprecated_RulesetIPCIDRMatchSource : bool;
  TunnelSource : slice string;
  TunnelDestination : slice string;
  InterfaceAddress : slice (string * list Prefix);
  NetworkInterfaceAddress : slice (Z * list Prefix);
  DefaultInterfaceAddress : slice Prefix;
  PreferredBy : slice string;
}.

(** [reflect.DeepEqual] with the zero value that has the same [Invert] *)
Definition isZero (r : t) : bool :=
  isNil (Inbound r) && (IPVersion r =? 0) && isNil (Network r) &&
  isNil (AuthUser r) && isNil (Protocol r) && isNil (Client r) &&
  isNil (Domain r) && isNil (DomainSuffix r) && isNil (DomainKeyword r) &&
  isNil (DomainRegex r) && isNil (Geosite r) && isNil (SourceGeoIP r) &&
  isNil (GeoIP r) && isNil (SourceIPCIDR r) && negb (SourceIPIsPrivate r) &&
  isNil (IPCIDR r) && negb (IPIsPrivate r) && isNil (SourcePort r) &&
  isNil (SourcePortRange r) && isNil (Port r) && isNil (PortRange r) &&
  isNil (ProcessName r) && isNil (ProcessPath r) && isNil (ProcessPathRegex r) &&
  isNil (PackageName r) && isNil (User r) && isNil (UserID r) &&
  String.eqb (ClashMode r) "" && isNil (NetworkType r) && negb (NetworkIsExpensive r) &&
  negb (NetworkIsConstrained r) && isNil (WIFISSID r) && isNil (WIFIBSSID r) &&
  isNil (RuleSet r) && negb (RuleSetIPCIDRMatchSource r) && negb (Deprecated_RulesetIPCIDRMatchSource r) &&
  isNil (TunnelSource r) && isNil (TunnelDestination r) && isNil (InterfaceAddress r) &&
  isNil (NetworkInterfaceAddress r) && isNil (DefaultInterfaceAddress r) && isNil (PreferredBy r).

Definition zero (inv : bool) : t :=
  mk None 0 None None None None None None None None None None None None false None
    false None None None None None None None None None None "" None false false None
    None None false inv false None None None None None None.
End RawDefaultRule.

Module RawDefaultDNSRule.
Record t := mk {
  Inbound : slice string;
  IPVersion : Z;
  QueryType : slice Z;
  Network : slice string;
  AuthUser : slice string;
  Protocol : slice string;
  Domain : slice string;
  DomainSuffix : slice string;
  DomainKeyword : slice string;
  DomainRegex : slice string;
  Geosite : slice string;
  SourceGeoIP : slice string;
  GeoIP : slice string;
  IPCIDR : slice string;
  IPIsPrivate : bool;
  IPAcceptAny : bool;
  SourceIPCIDR : slice string;
  SourceIPIsPrivate : bool;
  SourcePort : slice Z;
  SourcePortRange : slice string;
  Port : slice Z;
  PortRange : slice string;
  ProcessName : slice string;
  ProcessPath : slice string;
  ProcessPathRegex : slice string;
  PackageName : slice string;
  User : slice string;
  UserID : slice Z;
  Outbound : slice string;
  ClashMode : string;
  NetworkType : slice Z;
  NetworkIsExpensive : bool;
  NetworkIsConstrained : bool;
  WIFISSID : slice string;
  WIFIBSSID : slice string;
  RuleSet : slice string;
  RuleSetIPCIDRMatchSource : bool;
  RuleSetIPCIDRAcceptEmpty : bool;
  Invert : bool;
  TunnelSource : slice string;
  TunnelDestination : slice string;
  InterfaceAddress : slice (string * list Prefix);
  NetworkInterfaceAddress : slice (Z * list Prefix);
  DefaultInterfaceAddress : slice Prefix;
  Deprecated_RulesetIPCIDRMatchSource : bool;
}.

(** [reflect.DeepEqual] with the zero value that has the same [Invert] *)
Definition isZero (r : t) : bool :=
  isNil (Inbound r) && (IPVersion r =? 0) && isNil (QueryType r) &&
  isNil (Network r) && isNil (AuthUser r) && isNil (Protocol r) &&
  isNil (Domain r) && isNil (DomainSuffix r) && isNil (DomainKeyword r) &&
  isNil (DomainRegex r) && isNil (Geosite r) && isNil (SourceGeoIP r) &&
  isNil (GeoIP r) && isNil (IPCIDR r) && negb (IPIsPrivate r) &&
  negb (IPAcceptAny r) && isNil (SourceIPCIDR r) && negb (SourceIPIsPrivate r) &&
  isNil (SourcePort r) && isNil (SourcePortRange r) && isNil (Port r) &&
  isNil (PortRange r) && isNil (ProcessName r) && isNil (ProcessPath r) &&
  isNil (ProcessPathRegex r) && isNil (PackageName r) && isNil (User r) &&
  isNil (UserID r) && isNil (Outbound r) && String.eqb (ClashMode r) "" &&
  isNil (NetworkType r) && negb (NetworkIsExpensive r) && negb (NetworkIsConstrained r) &&
  isNil (WIFISSID r) && isNil (WIFIBSSID r) && isNil (RuleSet r) &&
  negb (RuleSetIPCIDRMatchSource r) && negb (RuleSetIPCIDRAcceptEmpty r) && isNil (TunnelSource r) &&
  isNil (TunnelDestination r) && isNil (InterfaceAddress r) && isNil (NetworkInterfaceAddress r) &&
  isNil (DefaultInterfaceAddress r) && negb (Deprecated_RulesetIPCIDRMatchSource r).

Definition zero (inv : bool) : t :=
  mk None 0 None None None None None None None None None None None None false false
    None false None None None None None None None None None None None "" None false
    false None None None false false inv None None None None None false.
End RawDefaultDNSRule.

Module DefaultHeadlessRule.
Record t `{External} `{DomainMatching} := mk {
  QueryType : slice Z;
  Network : slice string;
  Domain : slice string;
  DomainSuffix : slice string;
  DomainKeyword : slice string;
  DomainRegex : slice string;
  SourceIPCIDR : slice string;
  IPCIDR : slice string;
  SourcePort : slice Z;
  SourcePortRange : slice string;
  Port : slice Z;
  PortRange : slice string;
  ProcessName : slice string;
  ProcessPath : slice string;
  ProcessPathRegex : slice string;
  PackageName : slice string;
  NetworkType : slice Z;
  NetworkIsExpensive : bool;
  NetworkIsConstrained : bool;
  WIFISSID : slice string;
  WIFIBSSID : slice string;
  Invert : bool;
  DomainMatcher : option Matcher;
  SourceIPSet : option IPSet;
  IPSet_ : option IPSet;
  AdGuardDomain : slice string;
  AdGuardDomainMatcher : option AdGuardMatcher;
  TunnelSource : slice string;
  TunnelDestination : slice string;
  NetworkInterfaceAddress : slice (Z * list Prefix);
  DefaultInterfaceAddress : slice Prefix;
}.
Arguments mk {_ _}.

(** [reflect.DeepEqual] with the zero value that has the same [Invert] *)
Definition isZero `{External} `{DomainMatching} (r : t) : bool :=
  isNil (QueryType r) && isNil (Network r) && isNil (Domain r) &&
  isNil (DomainSuffix r) && isNil (DomainKeyword r) && isNil (DomainRegex r) &&
  isNil (SourceIPCIDR r) && isNil (IPCIDR r) && isNil (SourcePort r) &&
  isNil (SourcePortRange r) && isNil (Port r) && isNil (PortRange r) &&
  isNil (ProcessName r) && isNil (ProcessPath r) && isNil (ProcessPathRegex r) &&
  isNil (PackageName r) && isNil (NetworkType r) && negb (NetworkIsExpensive r) &&
  negb (NetworkIsConstrained r) && isNil (WIFISSID r) && isNil (WIFIBSSID r) &&
  isNil (DomainMatcher r) && isNil (SourceIPSet r) && isNil (IPSet_ r) &&
  isNil (AdGuardDomain r) && isNil (AdGuardDomainMatcher r) && isNil (TunnelSource r) &&
  isNil (TunnelDestination r) && isNil (NetworkInterfaceAddress r) && isNil (DefaultInterfaceAddress r).

Definition zero `{External} `{DomainMatching} (inv : bool) : t :=
  mk None None None None None None None None None None None None None None None None
    None false false None None inv None None None None None None None None None.
End DefaultHeadlessRule.

(** [option.Rule], [option.DNSRule] and [option.HeadlessRule] have the same shape: a
    type, the options of a default rule and those of a logical rule.  [D] is the
    default options ([RawDefaultRule] etc. with [Invert]) and [A] the action ([unit]
    for a headless rule, which has none). *)
Inductive RuleOptions (D A : Type) :=
  | mkRuleOptions (Type_ : string) (DefaultOptions : D * A)
      (LogicalOptions : LogicalOptions_ D A)
with LogicalOptions_ (D A : Type) :=
  | mkLogicalOptions (Mode : string) (Rules : list (RuleOptions D A)) (Invert : bool)
      (action : A).
Arguments mkRuleOptions {D A}.
Arguments mkLogicalOptions {D A}.

Definition RuleTypeDefault : string := "default".
Definition RuleTypeLogical : string := "logical".

Section allR.
Context {B : Type} (f : B -> result bool).

(** [common.All] with a predicate that can panic *)
Fixpoint allR (l : list B) : result bool :=
  match l with
  | [] => Ok true
  | x :: l' => b ← f x; if (b : bool) then allR l' else Ok false
  end.
End allR.

Section valid.
Context {D A : Type} (zeroD : D -> bool) (zeroA : A -> bool) (acceptEmptyType : bool)
  (unknown : string).

(** [DefaultRule.IsValid]: some option other than [Invert] is set. *)
Definition DefaultIsValid (o : D * A) : bool := negb (zeroD o.1 && zeroA o.2).

(** [Rule.IsValid] panics on an empty type, [HeadlessRule.IsValid] accepts it. *)
Fixpoint IsValid (r : RuleOptions D A) : result bool :=
  match r with
  | mkRuleOptions ty defaultOptions logicalOptions =>
      if String.eqb ty RuleTypeDefault || (acceptEmptyType && String.eqb ty "")
      then Ok (DefaultIsValid defaultOptions)
      else if String.eqb ty RuleTypeLogical then LogicalIsValid logicalOptions
      else panic (unknown +:+ ty)%string
  end
with LogicalIsValid (l : LogicalOptions_ D A) : result bool :=
  match l with
  | mkLogicalOptions _ rules _ _ => if nonempty rules then allR IsValid rules else Ok false
  end.
End valid.
