(* ===== verification/RuleActions.v ===== *)
(** * Rule actions ([route/rule/rule_action.go])

    What a rule does once it matches: built from the options by [NewRuleAction] and
    [NewDNSRuleAction].  [RuleActionReject.Error] limits the rate of resets: it counts
    the calls of the last 30 seconds. *)

From Stdlib Require Import Sorted.
From S2P Require Import Prelude Netip DNSMessage Context RuleItem Options.

(** [M.ParseSocksaddrHostPort] *)
Definition ParseSocksaddrHostPort `{External} (host : string) (port : Z) : Socksaddr :=
  match netip_ParseAddr (unwrapIPv6Address host) with
  | Err _ => mkSocksaddr AddrInvalid port host
  | Ok netAddr => mkSocksaddr netAddr port ""
  end.

(** The sniffers of [common/sniff]. *)
Inductive StreamSniffer :=
  | TLSClientHello | HTTPHost | StreamDomainNameQuery | BitTorrent | SSH | RDP.

Inductive PacketSniffer :=
  | QUICClientHello | DomainNameQuery | STUNMessage | UTP | UDPTracker | DTLSRecord | NTP.

(** [RuleActionRouteOptions] *)
Module RouteOptions.
Record t := mk {
  OverrideAddress : Socksaddr;
  OverridePort : Z;
  OverrideTunnelDestination : string;
  NetworkStrategy : option Z;
  NetworkType : list Z;
  FallbackNetworkType : list Z;
  FallbackDelay : Z;
  UDPDisableDomainUnmapping : bool;
  UDPConnect : bool;
  UDPTimeout : Z;
  TLSFragment : bool;
  TLSFragmentFallbackDelay : Z;
  TLSRecordFragment : bool;
  BypassIfFailed : bool;
}.
End RouteOptions.

(** [RuleActionDNSRouteOptions] *)
Module DNSRouteOptions.
Record t := mk {
  Strategy : Z;
  DisableCache : bool;
  RewriteTTL : option Z;
  ClientSubnet : Prefix;
  BypassIfFailed : bool;
}.
End DNSRouteOptions.

(** [RuleActionSniff] *)
Record RuleActionSniff_ := mkSniff {
  sniffNames : list string;
  StreamSniffers : list StreamSniffer;
  PacketSniffers : list PacketSniffer;
  sniffTimeout : Z;
  OverrideDestination : bool;
}.

(** [RuleActionResolve] *)
Record RuleActionResolve_ := mkResolve {
  resolveServer : string;
  resolveStrategy : Z;
  resolveDisableCache : bool;
  resolveRewriteTTL : option Z;
  resolveClientSubnet : Prefix;
}.

(** [RuleActionPredefined] *)
Record RuleActionPredefined_ := mkPredefined {
  preRcode : Z;
  preAnswer : list RR;
  preNs : list RR;
  preExtra : list RR;
}.

(** [adapter.RuleAction]; the drop counter of a reject action is kept apart. *)
Inductive Action `{DirectDialer} :=
  | RuleActionRoute (outbound : string) (o : RouteOptions.t)
  | RuleActionBypass (outbound : string) (o : RouteOptions.t)
  | RuleActionRouteOptions (o : RouteOptions.t)
  | RuleActionDirect (dialer : Dialer) (description : string)
  | RuleActionReject (method : string) (noDrop : bool)
  | RuleActionHijackDNS
  | RuleActionSniff (s : RuleActionSniff_)
  | RuleActionResolve (r : RuleActionResolve_)
  | RuleActionDNSRoute (server : string) (o : DNSRouteOptions.t)
  | RuleActionDNSRouteOptions (o : DNSRouteOptions.t)
  | RuleActionPredefined (p : RuleActionPredefined_).

(** [C.RuleActionType...] *)
Abbreviation RuleActionTypeRoute := ("route"%string) (only parsing).
Abbreviation RuleActionTypeRouteOptions := ("route-options"%string) (only parsing).
Abbreviation RuleActionTypeDirect := ("direct"%string) (only parsing).
Abbreviation RuleActionTypeBypass := ("bypass"%string) (only parsing).
Abbreviation RuleActionTypeReject := ("reject"%string) (only parsing).
Abbreviation RuleActionTypeHijackDNS := ("hijack-dns"%string) (only parsing).
Abbreviation RuleActionTypeSniff := ("sniff"%string) (only parsing).
Abbreviation RuleActionTypeResolve := ("resolve"%string) (only parsing).
Abbreviation RuleActionTypePredefined := ("predefined"%string) (only parsing).

Abbreviation RejectMethodDefault := ("default"%string) (only parsing).
Abbreviation RejectMethodDrop := ("drop"%string) (only parsing).
Abbreviation RejectMethodReply := ("reply"%string) (only parsing).

(** The [Type] methods *)
Definition ActionType `{DirectDialer} (a : Action) : string :=
  match a with
  | RuleActionRoute _ _ => RuleActionTypeRoute
  | RuleActionBypass _ _ => RuleActionTypeBypass
  | RuleActionRouteOptions _ => RuleActionTypeRouteOptions
  | RuleActionDirect _ _ => RuleActionTypeDirect
  | RuleActionReject _ _ => RuleActionTypeReject
  | RuleActionHijackDNS => RuleActionTypeHijackDNS
  | RuleActionSniff _ => RuleActionTypeSniff
  | RuleActionResolve _ => RuleActionTypeResolve
  | RuleActionDNSRoute _ _ => RuleActionTypeRoute
  | RuleActionDNSRouteOptions _ => RuleActionTypeRouteOptions
  | RuleActionPredefined _ => RuleActionTypePredefined
  end.

(** One name of [RuleActionSniff.build] *)
Definition snifferNamed (name : string) : option (list StreamSniffer * list PacketSniffer) :=
  if String.eqb name "tls" then Some ([TLSClientHello], [])
  else if String.eqb name "http" then Some ([HTTPHost], [])
  else if String.eqb name "quic" then Some ([], [QUICClientHello])
  else if String.eqb name "dns" then Some ([StreamDomainNameQuery], [DomainNameQuery])
  else if String.eqb name "stun" then Some ([], [STUNMessage])
  else if String.eqb name "bittorrent" then Some ([BitTorrent], [UTP; UDPTracker])
  else if String.eqb name "dtls" then Some ([], [DTLSRecord])
  else if String.eqb name "ssh" then Some ([SSH], [])
  else if String.eqb name "rdp" then Some ([RDP], [])
  else if String.eqb name "ntp" then Some ([], [NTP])
  else None.

Fixpoint buildSniffers (names : list string) (stream : list StreamSniffer)
    (packet : list PacketSniffer) : result (list StreamSniffer * list PacketSniffer) :=
  match names with
  | [] => Ok (stream, packet)
  | name :: rest =>
      match snifferNamed name with
      | Some (s, p) => buildSniffers rest (stream ++ s) (packet ++ p)
      | None => Err ("unknown sniffer: " +:+ name)%string
      end
  end.

(** [Prefixable.Build] of a possibly nil subnet *)
Definition buildPrefix (p : option Prefix) : Prefix := default prefix.zero p.

Section build.
Context `{External} `{DirectDialer}.

(** The fields [NewRuleAction] copies for each of the three actions that carry route
    options. *)
Definition routeOptions (o : RawRouteOptionsActionOptions.t) (tunnel : string) (timeout : Z)
    : RouteOptions.t :=
  RouteOptions.mk
    (ParseSocksaddrHostPort (RawRouteOptionsActionOptions.OverrideAddress o) 0)
    (RawRouteOptionsActionOptions.OverridePort o) tunnel
    (RawRouteOptionsActionOptions.NetworkStrategy o) [] []
    (RawRouteOptionsActionOptions.FallbackDelay o)
    (RawRouteOptionsActionOptions.UDPDisableDomainUnmapping o)
    (RawRouteOptionsActionOptions.UDPConnect o) timeout
    (RawRouteOptionsActionOptions.TLSFragment o)
    (RawRouteOptionsActionOptions.TLSFragmentFallbackDelay o)
    (RawRouteOptionsActionOptions.TLSRecordFragment o) false.

(** The text shown for a direct action *)
Definition directDescription (descriptions : list string) : string :=
  match descriptions with
  | [] => ""
  | [a] => ("(" +:+ a +:+ ")")%string
  | [a; b] => ("(" +:+ a +:+ "," +:+ b +:+ ")")%string
  | a :: b :: _ => ("(" +:+ a +:+ "," +:+ b +:+ ",...)")%string
  end.

(** [NewRuleAction]; the result is [None] for the nil action. *)
Definition NewRuleAction (a : RuleAction.t) : result (option Action) :=
  let ty := RuleAction.Action a in
  if String.eqb ty "" then Ok None
  else if String.eqb ty RuleActionTypeRoute then
    let o := RuleAction.RouteOptions a in
    Ok (Some (RuleActionRoute (raoOutbound o)
      (routeOptions (raoRaw o)
         (RawRouteOptionsActionOptions.OverrideTunnelDestination (raoRaw o)) 0)))
  else if String.eqb ty RuleActionTypeRouteOptions then
    let o := RuleAction.RouteOptionsOptions a in
    Ok (Some (RuleActionRouteOptions
      (routeOptions o "" (RawRouteOptionsActionOptions.UDPTimeout o))))
  else if String.eqb ty RuleActionTypeBypass then
    let o := RuleAction.BypassOptions a in
    Ok (Some (RuleActionBypass (raoOutbound o) (routeOptions (raoRaw o) "" 0)))
  else if String.eqb ty RuleActionTypeDirect then
    directDialer ← dialer_New (RuleAction.DirectOptions a);
    Ok (Some (RuleActionDirect directDialer
      (directDescription (DialerOptions_Descriptions (RuleAction.DirectOptions a)))))
  else if String.eqb ty RuleActionTypeReject then
    let o := RuleAction.RejectOptions a in
    Ok (Some (RuleActionReject (rejMethod o) (rejNoDrop o)))
  else if String.eqb ty RuleActionTypeHijackDNS then Ok (Some RuleActionHijackDNS)
  else if String.eqb ty RuleActionTypeSniff then
    let o := RuleAction.SniffOptions a in
    sniffers ← buildSniffers (elems (Sniffer o)) [] [];
    Ok (Some (RuleActionSniff
      (mkSniff (elems (Sniffer o)) sniffers.1 sniffers.2 (SniffTimeout o) false)))
  else if String.eqb ty RuleActionTypeResolve then
    let o := RuleAction.ResolveOptions a in
    Ok (Some (RuleActionResolve
      (mkResolve (resServer o) (resStrategy o) (resDisableCache o) (resRewriteTTL o)
         (buildPrefix (resClientSubnet o)))))
  else panic ("unknown rule action: " +:+ ty)%string.

Definition NewDNSRuleAction (a : DNSRuleAction.t) : result (option Action) :=
  let ty := DNSRuleAction.Action a in
  if String.eqb ty "" then Ok None
  else if String.eqb ty RuleActionTypeRoute then
    let o := DNSRuleAction.RouteOptions a in
    Ok (Some (RuleActionDNSRoute (DNSRuleAction.Server o)
      (DNSRouteOptions.mk (DNSRuleAction.Strategy o) (DNSRuleAction.DisableCache o)
         (DNSRuleAction.RewriteTTL o) (buildPrefix (DNSRuleAction.ClientSubnet o))
         (DNSRuleAction.BypassIfFailed o))))
  else if String.eqb ty RuleActionTypeRouteOptions then
    let o := DNSRuleAction.RouteOptionsOptions a in
    Ok (Some (RuleActionDNSRouteOptions
      (DNSRouteOptions.mk (DNSRuleAction.optStrategy o) (DNSRuleAction.optDisableCache o)
         (DNSRuleAction.optRewriteTTL o) (buildPrefix (DNSRuleAction.optClientSubnet o))
         false)))
  else if String.eqb ty RuleActionTypeReject then
    let o := DNSRuleAction.RejectOptions a in
    Ok (Some (RuleActionReject (rejMethod o) (rejNoDrop o)))
  else if String.eqb ty RuleActionTypePredefined then
    let o := DNSRuleAction.PredefinedOptions a in
    Ok (Some (RuleActionPredefined
      (mkPredefined (default 0 (DNSRuleAction.Rcode o)) (elems (DNSRuleAction.Answer o))
         (elems (DNSRuleAction.Ns o)) (elems (DNSRuleAction.Extra o)))))
  else panic ("unknown rule action: " +:+ ty)%string.
End build.

(** ** [RuleActionReject.Error] *)

(** The cause of a [RejectedError] ([tun.ErrReset], [tun.ErrDrop]). *)
Inductive RejectCause := ErrReset | ErrDrop.

(** [30*time.Second] in nanoseconds, and the number of calls allowed in it *)
Definition dropWindow : Z := 30 * 10 ^ 9.
Definition dropLimit : nat := 50.

(** The error returned (none for [reply]) and the drop counter afterwards; [now] is the
    time of the call. *)
Definition RejectError (method : string) (noDrop : bool) (dropCounter : list Z) (now : Z)
    : result (option RejectCause * list Z) :=
  if String.eqb method RejectMethodDrop then Ok (Some ErrDrop, dropCounter)
  else if String.eqb method RejectMethodReply then Ok (None, dropCounter)
  else if negb (String.eqb method RejectMethodDefault)
  then panic ("unknown reject method: " +:+ method)%string
  else if noDrop then Ok (Some ErrReset, dropCounter)
  else
    let dropCounter := List.filter (fun t => now - t <=? dropWindow) dropCounter ++ [now] in
    if (dropLimit <? length dropCounter)%nat then Ok (Some ErrDrop, dropCounter)
    else Ok (Some ErrReset, dropCounter).

(** A sequence of calls at the given times. *)
Fixpoint rejectCalls (dropCounter : list Z) (times : list Z) : result (list RejectCause * list Z) :=
  match times with
  | [] => Ok ([], dropCounter)
  | now :: rest =>
      p ← RejectError RejectMethodDefault false dropCounter now;
      q ← rejectCalls p.2 rest;
      Ok (match p.1 with Some c => c :: q.1 | None => q.1 end, q.2)
  end.

(** ** [RuleActionPredefined.Response] *)

Definition strings_HasSuffix (s suffix : string) : bool :=
  (String.length suffix <=? String.length s)%nat
  && String.eqb
       (String.substring (String.length s - String.length suffix) (String.length suffix) s)
       suffix.

(** [rewriteRecords]: a wildcard record takes the name of the question. *)
Definition rewriteRecords (records : list RR) (questionName : string) : list RR :=
  (fun it =>
     if strings_HasPrefix (rrName it) "*"
        && strings_HasSuffix questionName
             (String.substring 1 (String.length (rrName it) - 1) (rrName it))
     then setRRName it questionName else it) <$> records.

(** ** Properties *)

(** The calls within the window before [now]. *)
Definition recent (now : Z) (times : list Z) : list Z :=
  List.filter (fun t => now - t <=? dropWindow) times.

Lemma recent_recent now now' times :
  now <= now' -> recent now' (recent now times) = recent now' times.
Proof.
  intros Hle. unfold recent. induction times as [|t times IH]; simpl; [done|].
  destruct (now - t <=? dropWindow) eqn:E1; simpl; rewrite IH; [done|].
  destruct (now' - t <=? dropWindow) eqn:E2; [|done]. lia.
Qed.

Lemma recent_app now l k : recent now (l ++ k) = recent now l ++ recent now k.
Proof. apply List.filter_app. Qed.

Lemma recent_self now : recent now [now] = [now].
Proof. unfold recent. simpl. rewrite Z.sub_diag. done. Qed.

(** The verdict the rate limit is meant to give for a call at [now] after [past]. *)
Definition floodVerdict (past : list Z) (now : Z) : RejectCause :=
  if (dropLimit <? length (recent now (past ++ [now])))%nat then ErrDrop else ErrReset.

Fixpoint floodVerdicts (past times : list Z) : list RejectCause :=
  match times with
  | [] => []
  | now :: rest => floodVerdict past now :: floodVerdicts (past ++ [now]) rest
  end.

(** The counter only forgets calls that are out of the window for good. *)
Lemma RejectError_spec past last now :
  last <= now ->
  RejectError RejectMethodDefault false (recent last past) now =
  Ok (Some (floodVerdict past now), recent now (past ++ [now])).
Proof.
  intros Hle. unfold RejectError, floodVerdict. cbn -[recent dropWindow dropLimit Nat.ltb List.filter].
  fold (recent now (recent last past)). rewrite recent_recent, recent_app, recent_self by done.
  by destruct (Nat.ltb _ _).
Qed.

Lemma rejectCalls_spec past last times :
  Sorted Z.le (last :: times) ->
  exists counter, rejectCalls (recent last past) times = Ok (floodVerdicts past times, counter).
Proof.
  revert past last. induction times as [|now rest IH]; intros past last HS.
  - by eexists.
  - apply Sorted_inv in HS as [HS Hle]. inversion Hle; subst. cbn [rejectCalls].
    rewrite RejectError_spec by done. cbn [mbind result_bind fst snd].
    destruct (IH (past ++ [now]) now HS) as [c ->]. by eexists.
Qed.

(** The flood protection of a [reject] action: of a sequence of calls at non-decreasing
    times, a call is answered with a drop exactly when, counting it, more than 50 calls
    fell in the 30 seconds before it, and with a reset otherwise: forgetting old entries
    of the counter at each call never loses one that still counts. *)
Theorem reject_flood_window times :
  Sorted Z.le times ->
  exists counter, rejectCalls [] times = Ok (floodVerdicts [] times, counter).
Proof.
  intros HS. destruct times as [|now rest]; [by eexists|].
  apply (rejectCalls_spec [] now (now :: rest)). constructor; [done|]. by constructor.
Qed.

Lemma reject_flood_window_witness :
  Sorted Z.le [0; 5; 31 * 10 ^ 9] /\
  exists counter, rejectCalls [] [0; 5; 31 * 10 ^ 9] =
                  Ok (floodVerdicts [] [0; 5; 31 * 10 ^ 9], counter).
Proof.
  assert (HS : Sorted Z.le [0; 5; 31 * 10 ^ 9]) by (repeat constructor; lia).
  split; [exact HS|]. exact (reject_flood_window [0; 5; 31 * 10 ^ 9] HS).
Defined.
