(* ===== verification/Concrete.v ===== *)
(** * Concrete instances

    Small executable instances of the parameters of the model - regular expressions
    that are plain text, address sets as lists, a table of the addresses and prefixes
    that parse - with a device and a connection.  They show that the hypotheses of the
    theorems can hold together; nothing else depends on them. *)

From S2P Require Import Prelude MatchState Netip Context RuleItem Options RuleActions.

Definition ip4 (a b c d : Z) : Addr := Addr4 (((a * 256 + b) * 256 + c) * 256 + d).

Definition exPrefixes : list (string * Prefix) :=
  [("10.0.0.0/8", prefix.PrefixFrom (ip4 10 0 0 0) 8);
   ("192.0.2.0/24", prefix.PrefixFrom (ip4 192 0 2 0) 24)]%string.

Definition exAddrs : list (string * Addr) :=
  [("10.0.0.1", ip4 10 0 0 1); ("192.0.2.7", ip4 192 0 2 7)]%string.

Definition tableLookup {A} (table : list (string * A)) (s : string) : result A :=
  match List.find (fun p => String.eqb p.1 s) table with
  | Some (_, a) => Ok a
  | None => Err ("unable to parse " +:+ s)%string
  end.

Definition exExternal : External := {|
  Regexp := string;
  regexp_Compile := fun s => Ok s;
  regexp_MatchString := fun r s => strings_Contains s r;
  IPSet := list (Prefix + Addr);
  IPSet_Contains := fun l a =>
    existsb (fun e => match e with
                      | inl p => prefix.Contains p a
                      | inr b => bool_decide (a = b)
                      end) l;
  IPSetBuilder_IPSet := fun l => Ok l;
  netip_ParsePrefix := tableLookup exPrefixes;
  netip_ParseAddr := tableLookup exAddrs;
  net_ParseMAC6 := fun _ => None;
  hex_HardwareAddr := fun _ => None;
  strings_TrimSpace := fun s => s;
  unicode_ToLower := fun s => s;
  unicode_EqualFold := String.eqb;
|}.

Definition exDomainMatching : DomainMatching := {|
  Matcher := list string * list string;
  NewMatcher := fun domains suffixes _ => (domains, suffixes);
  Matcher_Match := fun m s => bool_decide (s ∈ m.1) || existsb (strings_HasSuffix s) m.2;
  AdGuardMatcher := list string;
  NewAdGuardMatcher := fun l => l;
  AdGuardMatcher_Match := fun m s => bool_decide (s ∈ m);
|}.

Definition exDirectDialer : DirectDialer := {|
  DialerOptions := bool;
  isZeroDialerOptions := negb;
  DialerOptions_Descriptions := fun _ => [];
  Dialer := unit;
  dialer_New := fun _ => Ok tt;
|}.

Definition exEnv : Env := mkEnv None "" "" [] [] [] None None false.

Definition exDialing : DialingOptions := mkDialingOptions false false 0 false 0 false None [] [] 0.

(** A TCP connection from 10.0.0.1:1024 to [fqdn] at [port]. *)
Definition exConnection (fqdn : string) (port : Z) : InboundContext :=
  mkInboundContext "in" "mixed" 0 "tcp" (mkSocksaddr (ip4 10 0 0 1) 1024 "")
    (mkSocksaddr AddrInvalid port fqdn) "" "" "" "" "" "" "" [] [] "" "" socksaddr.zero
    socksaddr.zero exDialing [] None 0 false false false false false false false 0 false.

(** ** Options *)

(** A route rule with conditions on the domain, the ports and rule sets. *)
Definition exRouteRule (domains : slice string) (ports : slice Z) (ranges ruleSets : slice string)
    (inv : bool) : RawDefaultRule.t :=
  RawDefaultRule.mk None 0 None None None None domains None None None None None None
    None false None false None None ports ranges None None None None None None "" None
    false false None None ruleSets false inv false None None None None None None.

(** A DNS rule with a domain condition and rule sets. *)
Definition exDNSRule (domains ruleSets : slice string) (matchSource : bool) : RawDefaultDNSRule.t :=
  RawDefaultDNSRule.mk None 0 None None None None domains None None None None None None
    None false false None false None None None None None None None None None None None
    "" None false false None None ruleSets matchSource false false None None None None
    None false.

(** A headless rule with domain, CIDR and port conditions. *)
Definition exHeadlessRule `{External} `{DomainMatching} (domains cidrs : slice string)
    (ports : slice Z) : DefaultHeadlessRule.t :=
  DefaultHeadlessRule.mk None None domains None None None None cidrs None None ports
    None None None None None None false false None None false None None None None None
    None None None None.

Definition exNoRoute : RouteActionOptions :=
  mkRouteActionOptions "" RawRouteOptionsActionOptions.zero.

(** [route] to an outbound *)
Definition exRouteAction `{DirectDialer} (outbound : string) (direct : DialerOptions) : RuleAction.t :=
  RuleAction.mk RuleActionTypeRoute
    (mkRouteActionOptions outbound RawRouteOptionsActionOptions.zero)
    RawRouteOptionsActionOptions.zero direct exNoRoute (mkRejectActionOptions "" false)
    (mkRouteActionSniff None 0) (mkRouteActionResolve "" 0 false None None).

(** [route] to a DNS server *)
Definition exDNSAction (server : string) : DNSRuleAction.t :=
  DNSRuleAction.mk RuleActionTypeRoute
    (DNSRuleAction.mkDNSRoute server 0 false None None false)
    (DNSRuleAction.mkDNSRouteOptions 0 false None None) (mkRejectActionOptions "" false)
    (DNSRuleAction.mkPredefined None None None None).

Definition exDefaultOptions {D A} (d : D) (a : A) : RuleOptions D A :=
  mkRuleOptions RuleTypeDefault (d, a) (mkLogicalOptions "" [] false a).

Definition exLogicalOptions {D A} (d : D) (a : A) (mode : string) (rules : list (RuleOptions D A))
    : RuleOptions D A :=
  mkRuleOptions RuleTypeLogical (d, a) (mkLogicalOptions mode rules false a).
