(* ===== verification/RuleAbstract.v ===== *)
(** * The rule engine ([route/rule/rule_abstract.go], [rule_item_rule_set.go],
      [rule_set_local.go])

    [abstractDefaultRule] groups its items by the condition they express; a
    connection satisfies a group when some item of it matches, and a rule when
    every group that has items is satisfied and every other item matches.  A rule
    with a rule set merges the groups of the rules in the set into its own: this
    is what the states passed down as a base and back as a set are for.

    The metadata is a pointer in the code and every evaluation writes
    [DefinitiveMatchStates] in it: a function returns the updated context with
    its result. *)

From S2P Require Import Prelude MatchState Netip Context RuleItem.

(** [adapter.RuleSetMetadata] *)
Record RuleSetMetadata := mkRuleSetMetadata {
  ContainsProcessRule : bool;
  ContainsWIFIRule : bool;
  ContainsIPCIDRRule : bool;
}.

(** [RuleSetItem]; [setList] is filled by [Start]. *)
Record RuleSetItem (RS : Type) := mkRuleSetItem {
  tagList : list string;
  setList : list RS;
  ipCidrMatchSource : bool;
  ipCidrAcceptEmpty : bool;
}.
Arguments mkRuleSetItem {RS}.
Arguments tagList {RS}.
Arguments setList {RS}.
Arguments ipCidrMatchSource {RS}.
Arguments ipCidrAcceptEmpty {RS}.

(** An entry of [allItems]: an item, or the pointer to the rule's rule set item. *)
Inductive AnyItem `{External} `{DomainMatching} :=
  | PlainItem (item : RuleItem)
  | TheRuleSetItem.

Record abstractDefaultRule `{External} `{DomainMatching} (RS : Type) := mkDefaultRule {
  items : list RuleItem;
  sourceAddressItems : list RuleItem;
  sourcePortItems : list RuleItem;
  destinationAddressItems : list RuleItem;
  destinationIPCIDRItems : list RuleItem;
  destinationPortItems : list RuleItem;
  allItems : list AnyItem;
  ruleSetItem : option (RuleSetItem RS);
  invert : bool;
}.
Arguments mkDefaultRule {_ _ RS}.
Arguments items {_ _ RS}.
Arguments sourceAddressItems {_ _ RS}.
Arguments sourcePortItems {_ _ RS}.
Arguments destinationAddressItems {_ _ RS}.
Arguments destinationIPCIDRItems {_ _ RS}.
Arguments destinationPortItems {_ _ RS}.
Arguments allItems {_ _ RS}.
Arguments ruleSetItem {_ _ RS}.
Arguments invert {_ _ RS}.

(** Rules and rule sets.  [DefaultRule] stands for the three types that embed
    [abstractDefaultRule] (route, DNS and headless rules), [LogicalRule] for those
    that embed [abstractLogicalRule]. *)
Inductive HeadlessRule `{External} `{DomainMatching} :=
  | DefaultRule (r : abstractDefaultRule RuleSet)
  | LogicalRule (mode : string) (rules : list HeadlessRule) (linvert : bool)
with RuleSet `{External} `{DomainMatching} :=
  | LocalRuleSet (tag : string) (rules : list HeadlessRule) (metadata : RuleSetMetadata).

Definition LogicalTypeAnd : string := "and".
Definition LogicalTypeOr : string := "or".

Section default_rule.
Context `{External} `{DomainMatching} {RS : Type}.
Context (env : Env).
Implicit Type r : abstractDefaultRule RS.

Definition matchAnyItem (its : list RuleItem) (metadata : InboundContext) : bool :=
  existsb (fun it => Match env it metadata) its.

Definition destinationIPCIDRMatchesSource r (metadata : InboundContext) : bool :=
  IPCIDRMatchSource metadata && nonempty (destinationIPCIDRItems r).

Definition destinationIPCIDRMatchesDestination r (metadata : InboundContext) : bool :=
  negb (IgnoreDestinationIPCIDRMatch metadata) && negb (IPCIDRMatchSource metadata)
  && nonempty (destinationIPCIDRItems r).

Definition requiresSourceAddressMatch r (metadata : InboundContext) : bool :=
  nonempty (sourceAddressItems r) || destinationIPCIDRMatchesSource r metadata.

Definition requiresDestinationAddressMatch r (metadata : InboundContext) : bool :=
  nonempty (destinationAddressItems r) || destinationIPCIDRMatchesDestination r metadata.

(** [if guard { if match { state |= bit } }] *)
Definition orBit (state : ruleMatchState) (guard : bool) (matched : bool) (bit : ruleMatchState)
    : ruleMatchState :=
  if guard && matched then Z.lor state bit else state.

(** The base state: the bits of the groups the connection satisfies. *)
Definition baseStateOf r (metadata : InboundContext) (evaluationBase : ruleMatchState)
    : ruleMatchState :=
  let s0 := evaluationBase in
  let s1 := orBit s0 (nonempty (sourceAddressItems r))
              (matchAnyItem (sourceAddressItems r) metadata) ruleMatchSourceAddress in
  let s2 := orBit s1 (destinationIPCIDRMatchesSource r metadata
                      && negb (has s1 ruleMatchSourceAddress))
              (matchAnyItem (destinationIPCIDRItems r) metadata) ruleMatchSourceAddress in
  let s3 := orBit s2 (nonempty (sourcePortItems r))
              (matchAnyItem (sourcePortItems r) metadata) ruleMatchSourcePort in
  let s4 := orBit s3 (nonempty (destinationAddressItems r))
              (matchAnyItem (destinationAddressItems r) metadata)
              ruleMatchDestinationAddress in
  let s5 := orBit s4 (destinationIPCIDRMatchesDestination r metadata
                      && negb (has s4 ruleMatchDestinationAddress))
              (matchAnyItem (destinationIPCIDRItems r) metadata)
              ruleMatchDestinationAddress in
  orBit s5 (nonempty (destinationPortItems r))
    (matchAnyItem (destinationPortItems r) metadata) ruleMatchDestinationPort.

(** [deferredGroups]: the destination address check is left to the DNS response. *)
Definition deferredGroups r (metadata : InboundContext) : ruleMatchState :=
  if IgnoreDestinationIPCIDRMatch metadata && negb (IPCIDRMatchSource metadata)
     && nonempty (destinationIPCIDRItems r) && negb (nonempty (destinationAddressItems r))
  then ruleMatchDestinationAddress else 0.

Definition stateFilter r (metadata : InboundContext) (state : ruleMatchState) : bool :=
  if requiresSourceAddressMatch r metadata && negb (has state ruleMatchSourceAddress) then false
  else if nonempty (sourcePortItems r) && negb (has state ruleMatchSourcePort) then false
  else if requiresDestinationAddressMatch r metadata
          && negb (has state ruleMatchDestinationAddress) then false
  else if nonempty (destinationPortItems r) && negb (has state ruleMatchDestinationPort)
  then false
  else true.

Definition invertedFailure (inv : bool) (metadata : InboundContext) (base : ruleMatchState)
    : ruleMatchStateSet * InboundContext :=
  if inv then
    let stateSet := withBase emptyRuleMatchState base in
    (stateSet, setDefinitive metadata stateSet)
  else (0, setDefinitive metadata 0).

(** The end of both rule types once some state matched. *)
Definition finish (inv : bool) (metadata : InboundContext) (base : ruleMatchState)
    (stateSet definitiveStateSet : ruleMatchStateSet) : ruleMatchStateSet * InboundContext :=
  if inv then
    (if isEmpty definitiveStateSet then withBase emptyRuleMatchState base else 0,
     setDefinitive metadata 0)
  else (stateSet, setDefinitive metadata definitiveStateSet).

(** [matchRuleItemStatesWithBase] on the rule set item is a parameter: it evaluates
    the rules of the sets. *)
Definition defaultMatchStatesWithBase
    (matchItem : RuleSetItem RS -> InboundContext -> ruleMatchState ->
                 ruleMatchStateSet * InboundContext)
    r (metadata : InboundContext) (inheritedBase : ruleMatchState)
    : ruleMatchStateSet * InboundContext :=
  if negb (nonempty (allItems r)) then
    let stateSet := withBase emptyRuleMatchState inheritedBase in
    (stateSet, setDefinitive metadata stateSet)
  else
  let evaluationBase := if invert r then 0 else inheritedBase in
  let baseState := baseStateOf r metadata evaluationBase in
  let deferred := deferredGroups r metadata in
  if negb (forallb (fun item => Match env item metadata) (items r))
  then invertedFailure (invert r) metadata inheritedBase
  else
  let '(stateSet, definitiveStateSet, metadata) :=
    match ruleSetItem r with
    | Some item =>
        let '(stateSet, metadata) := matchItem item metadata baseState in
        (stateSet, DefinitiveMatchStates metadata, metadata)
    | None =>
        let stateSet := singleRuleMatchState baseState in (stateSet, stateSet, metadata)
    end in
  let definitiveStateSet :=
    if negb (deferred =? 0)
    then filterStates definitiveStateSet (fun state => Z.ldiff deferred state =? 0)
    else definitiveStateSet in
  let stateSet := filterStates stateSet (stateFilter r metadata) in
  let definitiveStateSet := filterStates definitiveStateSet (stateFilter r metadata) in
  if isEmpty stateSet then invertedFailure (invert r) metadata inheritedBase
  else finish (invert r) metadata inheritedBase stateSet definitiveStateSet.
End default_rule.

(** ** Loops over rules, each evaluated on a copy of the metadata *)
Section loops.
Context {R : Type}.
Context (eval : R -> InboundContext -> ruleMatchState -> ruleMatchStateSet * InboundContext).

(** The loop of an [and] rule: [None] is the early return at a rule that does not
    match. *)
Fixpoint andLoop (rules : list R) (metadata : InboundContext) (base : ruleMatchState)
    (stateSet definitive : ruleMatchStateSet) : option (ruleMatchStateSet * ruleMatchStateSet) :=
  match rules with
  | [] => Some (stateSet, definitive)
  | rule :: rest =>
      let '(nestedStateSet, nested) := eval rule (ResetRuleCache metadata) base in
      if isEmpty nestedStateSet then None
      else andLoop rest metadata base (combine stateSet nestedStateSet)
             (combine definitive (DefinitiveMatchStates nested))
  end.

(** The merging loop of an [or] rule, of a rule set item and of a rule set; [prepare]
    is what each does to the copy before evaluating. *)
Fixpoint mergeLoop (prepare : InboundContext -> InboundContext) (rules : list R)
    (metadata : InboundContext) (base : ruleMatchState)
    (stateSet definitive : ruleMatchStateSet) : ruleMatchStateSet * ruleMatchStateSet :=
  match rules with
  | [] => (stateSet, definitive)
  | rule :: rest =>
      let '(nestedStateSet, nested) := eval rule (prepare metadata) base in
      mergeLoop prepare rest metadata base (merge stateSet nestedStateSet)
        (merge definitive (DefinitiveMatchStates nested))
  end.

Definition logicalMatchStatesWithBase (mode : string) (rules : list R) (inv : bool)
    (metadata : InboundContext) (base : ruleMatchState) : ruleMatchStateSet * InboundContext :=
  let evaluationBase := if inv then 0 else base in
  if String.eqb mode LogicalTypeAnd then
    let start := withBase emptyRuleMatchState evaluationBase in
    match andLoop rules metadata evaluationBase start start with
    | None => invertedFailure inv metadata base
    | Some (stateSet, definitive) => finish inv metadata base stateSet definitive
    end
  else
    let '(stateSet, definitive) := mergeLoop ResetRuleCache rules metadata evaluationBase 0 0 in
    if isEmpty stateSet then invertedFailure inv metadata base
    else finish inv metadata base stateSet definitive.

(** [RuleSetItem.matchStatesWithBase], over the rule sets *)
Definition ruleSetItemMatchStatesWithBase (item : RuleSetItem R) (metadata : InboundContext)
    (base : ruleMatchState) : ruleMatchStateSet * InboundContext :=
  let '(stateSet, definitive) :=
    mergeLoop (fun c => setIPCIDR (ResetRuleMatchCache c) (ipCidrMatchSource item)
                          (ipCidrAcceptEmpty item))
      (setList item) metadata base 0 0 in
  (stateSet, setDefinitive metadata definitive).

(** [LocalRuleSet.matchStatesWithBase], over the rules of a set *)
Definition ruleSetMatchStatesWithBase (rules : list R) (metadata : InboundContext)
    (base : ruleMatchState) : ruleMatchStateSet * InboundContext :=
  let '(stateSet, definitive) := mergeLoop ResetRuleMatchCache rules metadata base 0 0 in
  (stateSet, setDefinitive metadata definitive).
End loops.

(** ** Evaluation *)
Section evaluation.
Context `{External} `{DomainMatching}.
Context (env : Env).

(** [matchHeadlessRuleStatesWithBase]: every rule and rule set of the program has a
    [matchStatesWithBase] method. *)
Fixpoint matchStatesWithBase (rule : HeadlessRule) (metadata : InboundContext)
    (base : ruleMatchState) : ruleMatchStateSet * InboundContext :=
  match rule with
  | DefaultRule r =>
      defaultMatchStatesWithBase env
        (ruleSetItemMatchStatesWithBase setMatchStatesWithBase) r metadata base
  | LogicalRule mode rules inv =>
      logicalMatchStatesWithBase matchStatesWithBase mode rules inv metadata base
  end
with setMatchStatesWithBase (ruleSet : RuleSet) (metadata : InboundContext)
    (base : ruleMatchState) : ruleMatchStateSet * InboundContext :=
  match ruleSet with
  | LocalRuleSet _ rules _ =>
      ruleSetMatchStatesWithBase matchStatesWithBase rules metadata base
  end.

(** [matchStates] and [Match] of a rule *)
Definition matchStates (rule : HeadlessRule) (metadata : InboundContext)
    : ruleMatchStateSet * InboundContext :=
  matchStatesWithBase rule metadata 0.

Definition RuleMatch (rule : HeadlessRule) (metadata : InboundContext) : bool :=
  negb (isEmpty (matchStates rule metadata).1).
End evaluation.
