(* ===== verification/RuleSemantics.v ===== *)
(** * What the rule engine computes

    [RuleAbstract.v] evaluates a rule to a packed set of match states and leaves a
    second set, the definitive states, in the metadata.  This file relates it to
    a specification without bit sets and without the second set: [Produces], which
    says which sets of condition groups a rule can end with, and boolean formulas
    that follow from it. *)

From S2P Require Import Prelude MatchState Netip Context RuleItem RuleAbstract.

(** ** Induction over rules and rule sets *)
Section rule_induction.
Context `{External} `{DomainMatching}.
Context (P : HeadlessRule -> Prop) (Q : RuleSet -> Prop).
Context (Hdefault : forall r, (forall it, ruleSetItem r = Some it -> Forall Q (setList it)) ->
                              P (DefaultRule r)).
Context (Hlogical : forall m rules inv, Forall P rules -> P (LogicalRule m rules inv)).
Context (Hset : forall tag rules md, Forall P rules -> Q (LocalRuleSet tag rules md)).

Fixpoint rule_ind' (h : HeadlessRule) : P h :=
  let fix sets (l : list RuleSet) : Forall Q l :=
    match l with [] => Forall_nil_2 _ | s :: l' => Forall_cons_2 _ _ _ (set_ind' s) (sets l') end in
  let fix rules (l : list HeadlessRule) : Forall P l :=
    match l with [] => Forall_nil_2 _ | r :: l' => Forall_cons_2 _ _ _ (rule_ind' r) (rules l') end in
  match h with
  | DefaultRule r =>
      Hdefault r
        match ruleSetItem r as o
          return forall it, o = Some it -> Forall Q (setList it) with
        | None => fun it E => match E with eq_refl => I end
        | Some it' => fun it E =>
            match E in _ = o return match o with Some it => Forall Q (setList it) | None => True end
            with eq_refl => sets (setList it') end
        end
  | LogicalRule m l inv => Hlogical m l inv (rules l)
  end
with set_ind' (s : RuleSet) : Q s :=
  let fix rules (l : list HeadlessRule) : Forall P l :=
    match l with [] => Forall_nil_2 _ | r :: l' => Forall_cons_2 _ _ _ (rule_ind' r) (rules l') end in
  match s with
  | LocalRuleSet tag l md => Hset tag l md (rules l)
  end.

Lemma rule_set_ind : (forall h, P h) /\ (forall s, Q s).
Proof. split; [exact rule_ind'|exact set_ind']. Qed.
End rule_induction.

(** ** Evaluation only writes [DefinitiveMatchStates] *)

(** An evaluation of a rule, of a rule set, ... *)
Definition Evaluator := InboundContext -> ruleMatchState -> ruleMatchStateSet * InboundContext.

Definition framed (f : Evaluator) : Prop :=
  forall md base, (f md base).2 = setDefinitive md (DefinitiveMatchStates (f md base).2).

(** The definitive states an evaluation leaves. *)
Definition definitive (p : ruleMatchStateSet * InboundContext) : ruleMatchStateSet :=
  DefinitiveMatchStates p.2.

(** The invariant of a result: packed sets stay within 16 bits, every state extends
    the base, and a definitive state is a state. *)
Record good (base : ruleMatchState) (S D : ruleMatchStateSet) : Prop := mkGood {
  good_wf : wfSet S;
  good_wfD : wfSet D;
  good_base : forall x, isState x -> contains S x = true -> Z.lor base x = x;
  good_sub : forall x, isState x -> contains D x = true -> contains S x = true;
}.

Lemma good_0 base : good base 0 0.
Proof. split; try done; by apply fits_0. Qed.

Lemma good_single base x :
  isState x -> Z.lor base x = x -> good base (singleRuleMatchState x) (singleRuleMatchState x).
Proof.
  intros Hx Hb. split; auto with go.
  intros y Hy. rewrite contains_single, bool_decide_eq_true by done. congruence.
Qed.

Lemma good_weaken_base base S D :
  good base S D -> good 0 S D.
Proof. intros [? ? ? ?]. split; auto. Qed.

Lemma good_D0 base S D : good base S D -> good base S 0.
Proof. intros [? ? ? ?]. split; try done; by apply fits_0. Qed.

Lemma good_merge base S D S' D' :
  good base S D -> good base S' D' -> good base (merge S S') (merge D D').
Proof.
  intros [? ? H1 H2] [? ? H3 H4]. split; auto with go; intros x Hx;
    rewrite !contains_merge, !orb_true_iff by done; intros [?|?]; auto.
Qed.

Lemma good_combine base S D S' D' :
  good base S D -> good base S' D' -> good base (combine S S') (combine D D').
Proof.
  intros [? ? H1 H2] [? ? H3 H4]. split; auto with go; intros x Hx.
  - intros (l & r & ? & ? & Hl & ? & <-)%combine_spec; [|done].
    rewrite Z.lor_assoc. by rewrite H1.
  - rewrite !combine_spec by done. intros (l & r & ? & ? & Hl & ? & <-).
    exists l, r. auto 10.
Qed.

Lemma good_filter base S D p q :
  good base S D -> (forall x, q x = true -> p x = true) ->
  good base (filterStates S p) (filterStates D q).
Proof.
  intros [? ? H1 H2] Hpq. split; auto with go; intros x Hx;
    rewrite !filterStates_spec, !andb_true_iff by done; intros [??]; auto.
Qed.

#[export] Hint Resolve good_0 good_merge good_combine : go.

(** ** Every evaluator of the engine is sound *)

(** When the destination address is not deferred the two sets coincide. *)
Record sound (f : Evaluator) : Prop := mkSound {
  sound_frame : framed f;
  sound_good md base : isState base -> good base (f md base).1 (definitive (f md base));
  sound_normal md base : isState base -> IgnoreDestinationIPCIDRMatch md = false ->
    definitive (f md base) = (f md base).1;
}.

Lemma isState_0 : isState 0.
Proof. by apply fits_0. Qed.

#[export] Hint Resolve isState_0 : go.

Lemma evaluationBase_isState (inv : bool) base : isState base -> isState (if inv then 0 else base).
Proof. destruct inv; auto with go. Qed.

#[export] Hint Resolve evaluationBase_isState : go.

Lemma orBit_isState s g m bit : isState s -> isState bit -> isState (orBit s g m bit).
Proof. intros. unfold orBit. destruct (_ && _); auto with go. Qed.

Lemma orBit_extends base s g m bit :
  Z.lor base s = s -> Z.lor base (orBit s g m bit) = orBit s g m bit.
Proof. intros E. unfold orBit. destruct (_ && _); [|done]. by rewrite Z.lor_assoc, E. Qed.

Section base_state.
Context `{External} `{DomainMatching} {RS : Type} (env : Env) (r : abstractDefaultRule RS).

Lemma baseStateOf_isState md base : isState base -> isState (baseStateOf env r md base).
Proof. intros. unfold baseStateOf. repeat apply orBit_isState; done. Qed.

Lemma baseStateOf_extends md base :
  Z.lor base (baseStateOf env r md base) = baseStateOf env r md base.
Proof. unfold baseStateOf. repeat apply orBit_extends. apply Z.lor_diag. Qed.
End base_state.

#[export] Hint Resolve baseStateOf_isState : go.

(** The two ways an evaluation ends. *)
Lemma invertedFailure_frame inv md base :
  let p := invertedFailure inv md base in p.2 = setDefinitive md (definitive p).
Proof. by destruct inv. Qed.

Lemma invertedFailure_good inv md base :
  isState base ->
  let p := invertedFailure inv md base in good base p.1 (definitive p).
Proof.
  intros Hb. destruct inv; simpl; [|apply good_0].
  rewrite withBase_empty. apply good_single; [done|apply Z.lor_diag].
Qed.

Lemma invertedFailure_normal inv md base :
  let p := invertedFailure inv md base in definitive p = p.1.
Proof. by destruct inv. Qed.

Lemma finish_frame inv md base S D :
  let p := finish inv md base S D in p.2 = setDefinitive md (definitive p).
Proof. by destruct inv. Qed.

Lemma finish_good (inv : bool) md base S D :
  isState base -> good (if inv then 0 else base) S D ->
  let p := finish inv md base S D in good base p.1 (definitive p).
Proof.
  intros Hb HG. destruct inv; [|done]. unfold finish, definitive; simpl.
  destruct (isEmpty D); [|apply good_0]. rewrite withBase_empty.
  eapply good_D0, good_single; [done|apply Z.lor_diag].
Qed.

Lemma finish_normal inv md base S :
  isEmpty S = false -> let p := finish inv md base S S in definitive p = p.1.
Proof. intros E. destruct inv; unfold finish, definitive; simpl; [by rewrite E|done]. Qed.

(** A default rule, given a sound evaluation of its rule set item. *)
Section default_sound.
Context `{External} `{DomainMatching} {RS : Type} (env : Env) (r : abstractDefaultRule RS).
Context (matchItem : RuleSetItem RS -> Evaluator).
Context (Hitem : forall it, ruleSetItem r = Some it -> sound (matchItem it)).

(** The state sets before the filters. *)
Definition rawStates (md : InboundContext) (base : ruleMatchState)
    : ruleMatchStateSet * ruleMatchStateSet * InboundContext :=
  match ruleSetItem r with
  | Some item => let p := matchItem item md base in (p.1, definitive p, p.2)
  | None => let s := singleRuleMatchState base in (s, s, md)
  end.

Lemma rawStates_frame md base :
  exists d, (rawStates md base).2 = setDefinitive md d.
Proof.
  unfold rawStates. destruct (ruleSetItem r) as [it|].
  - eexists. apply (sound_frame _ (Hitem it eq_refl)).
  - exists (DefinitiveMatchStates md). simpl. by rewrite setDefinitive_id.
Qed.

Lemma rawStates_good md base :
  isState base -> good base (rawStates md base).1.1 (rawStates md base).1.2.
Proof.
  intros Hb. unfold rawStates. destruct (ruleSetItem r) as [it|].
  - by apply (sound_good _ (Hitem it eq_refl)).
  - apply good_single; [done|apply Z.lor_diag].
Qed.

Lemma rawStates_normal md base :
  isState base -> IgnoreDestinationIPCIDRMatch md = false ->
  (rawStates md base).1.2 = (rawStates md base).1.1.
Proof.
  intros Hb Hi. unfold rawStates. destruct (ruleSetItem r) as [it|]; [|done].
  by apply (sound_normal _ (Hitem it eq_refl)).
Qed.

Lemma deferredGroups_normal md :
  IgnoreDestinationIPCIDRMatch md = false -> deferredGroups r md = 0.
Proof. unfold deferredGroups. by intros ->. Qed.

Lemma stateFilter_frame md d : stateFilter r (setDefinitive md d) = stateFilter r md.
Proof. done. Qed.

(** The body of [matchStatesWithBase] in these terms. *)
Lemma defaultMatch_unfold md base :
  defaultMatchStatesWithBase env matchItem r md base =
  if negb (nonempty (allItems r)) then invertedFailure true md base
  else if negb (forallb (fun item => Match env item md) (items r))
  then invertedFailure (invert r) md base
  else
    let base' := baseStateOf env r md (if invert r then 0 else base) in
    let raw := rawStates md base' in
    let D := if negb (deferredGroups r md =? 0)
             then filterStates raw.1.2 (fun state => Z.ldiff (deferredGroups r md) state =? 0)
             else raw.1.2 in
    let S' := filterStates raw.1.1 (stateFilter r md) in
    if isEmpty S' then invertedFailure (invert r) md base
    else finish (invert r) md base S' (filterStates D (stateFilter r md)).
Proof.
  unfold defaultMatchStatesWithBase. destruct (nonempty (allItems r)); [|done]. cbn [negb].
  destruct (forallb _ _); [|done]. cbn [negb].
  destruct (rawStates_frame md (baseStateOf env r md (if invert r then 0 else base))) as [d Hd].
  revert Hd. unfold rawStates. destruct (ruleSetItem r) as [it|].
  - destruct (matchItem it md _) as [S' md'] eqn:E. cbn [fst snd]. intros ->.
    rewrite stateFilter_frame. unfold definitive; cbn [fst snd].
    repeat destruct (isEmpty _); destruct (invert r); done.
  - done.
Qed.

(** The filtered states are good when the raw ones are. *)
Lemma filtered_good md base base' S D :
  good base' S D -> Z.lor base base' = base' ->
  good base (filterStates S (stateFilter r md))
    (filterStates
       (if negb (deferredGroups r md =? 0)
        then filterStates D (fun state => Z.ldiff (deferredGroups r md) state =? 0) else D)
       (stateFilter r md)).
Proof.
  intros [W1 W2 B Sub] Hext. apply good_filter; [|done]. split; auto.
  - destruct (negb _); auto with go.
  - intros x Hx Hc. rewrite <- (B x Hx Hc), Z.lor_assoc. by rewrite Hext.
  - intros x Hx. destruct (negb _); [|auto].
    rewrite filterStates_spec by done. intros [??]%andb_true_iff. auto.
Qed.

Lemma default_sound : sound (defaultMatchStatesWithBase env matchItem r).
Proof.
  split.
  - intros md base. rewrite defaultMatch_unfold.
    do 2 (destruct (negb _); [apply invertedFailure_frame|]). cbv zeta.
    destruct (isEmpty _); [apply invertedFailure_frame|apply finish_frame].
  - intros md base Hb. rewrite defaultMatch_unfold.
    do 2 (destruct (negb _); [by apply invertedFailure_good|]). cbv zeta.
    destruct (isEmpty _); [by apply invertedFailure_good|].
    apply finish_good; [done|]. eapply filtered_good; [apply rawStates_good; auto with go|].
    apply baseStateOf_extends.
  - intros md base Hb Hi. rewrite defaultMatch_unfold.
    destruct (negb _); [done|]. destruct (negb _); [apply invertedFailure_normal|].
    cbv zeta. rewrite deferredGroups_normal, rawStates_normal by auto with go. cbn [negb Z.eqb].
    destruct (isEmpty _) eqn:E; [apply invertedFailure_normal|]. by apply finish_normal.
Qed.
End default_sound.

(** The loops. *)
Section loops_sound.
Context {R : Type} (eval : R -> Evaluator).

Lemma andLoop_good rules md base S D S' D' :
  Forall (fun r => sound (eval r)) rules -> isState base -> good base S D ->
  andLoop eval rules md base S D = Some (S', D') -> good base S' D'.
Proof.
  intros HF Hb. revert S D. induction HF as [|r rules Hr HF IH]; intros S D HG; simpl.
  - by intros [= <- <-].
  - pose proof (sound_good _ Hr (ResetRuleCache md) base Hb) as Hg. unfold definitive in Hg.
    destruct (eval r (ResetRuleCache md) base) as [S1 md1]. destruct (isEmpty S1); [done|].
    apply IH. by apply good_combine.
Qed.

Lemma andLoop_nonempty rules md base S D S' D' :
  Forall (fun r => sound (eval r)) rules -> isState base -> wfSet S -> isEmpty S = false ->
  andLoop eval rules md base S D = Some (S', D') -> isEmpty S' = false.
Proof.
  intros HF Hb. revert S D. induction HF as [|r rules Hr HF IH]; intros S D HS HE; simpl.
  - by intros [= <- <-].
  - pose proof (sound_good _ Hr (ResetRuleCache md) base Hb) as Hg.
    destruct (eval r (ResetRuleCache md) base) as [S1 md1].
    destruct (isEmpty S1) eqn:E1; [done|].
    apply IH; [auto with go|]. rewrite isEmpty_combine, HE, E1; [done|done|apply Hg].
Qed.

Lemma andLoop_normal rules md base S S' D' :
  Forall (fun r => sound (eval r)) rules -> isState base ->
  IgnoreDestinationIPCIDRMatch md = false ->
  andLoop eval rules md base S S = Some (S', D') -> D' = S'.
Proof.
  intros HF Hb Hi. revert S. induction HF as [|r rules Hr HF IH]; intros S; simpl.
  - by intros [= <- <-].
  - pose proof (sound_normal _ Hr (ResetRuleCache md) base Hb Hi) as Hn. unfold definitive in Hn.
    destruct (eval r (ResetRuleCache md) base) as [S1 md1]. simpl in Hn. rewrite Hn.
    destruct (isEmpty S1); [done|]. apply IH.
Qed.

Context (prepare : InboundContext -> InboundContext).

Lemma mergeLoop_good rules md base S D :
  Forall (fun r => sound (eval r)) rules -> isState base -> good base S D ->
  let p := mergeLoop eval prepare rules md base S D in good base p.1 p.2.
Proof.
  intros HF Hb. revert S D. induction HF as [|r rules Hr HF IH]; intros S D HG; simpl; [done|].
  pose proof (sound_good _ Hr (prepare md) base Hb) as Hg. unfold definitive in Hg.
  destruct (eval r (prepare md) base) as [S1 md1]. apply IH. by apply good_merge.
Qed.

Context (Hprepare : forall c, IgnoreDestinationIPCIDRMatch (prepare c) = IgnoreDestinationIPCIDRMatch c).

Lemma mergeLoop_normal rules md base S :
  Forall (fun r => sound (eval r)) rules -> isState base ->
  IgnoreDestinationIPCIDRMatch md = false ->
  let p := mergeLoop eval prepare rules md base S S in p.2 = p.1.
Proof.
  intros HF Hb Hi. revert S. induction HF as [|r rules Hr HF IH]; intros S; simpl; [done|].
  pose proof (sound_normal _ Hr (prepare md) base Hb) as Hn. unfold definitive in Hn.
  rewrite Hprepare in Hn. specialize (Hn Hi).
  destruct (eval r (prepare md) base) as [S1 md1]. simpl in Hn. rewrite Hn. apply IH.
Qed.
End loops_sound.

Section rules_sound.
Context {R : Type} (eval : R -> Evaluator).

Lemma logical_sound mode rules inv :
  Forall (fun r => sound (eval r)) rules ->
  sound (logicalMatchStatesWithBase eval mode rules inv).
Proof.
  intros HF. unfold logicalMatchStatesWithBase. destruct (String.eqb mode LogicalTypeAnd).
  - split.
    + intros md base. destruct (andLoop _ _ _ _ _ _) as [[S D]|];
        auto using finish_frame, invertedFailure_frame.
    + intros md base Hb. rewrite withBase_empty. destruct (andLoop _ _ _ _ _ _) as [[S D]|] eqn:E;
        [|by apply invertedFailure_good].
      apply finish_good; [done|]. eapply andLoop_good, E; [done|auto with go|].
      apply good_single; [auto with go|apply Z.lor_diag].
    + intros md base Hb Hi. rewrite withBase_empty. destruct (andLoop _ _ _ _ _ _) as [[S D]|] eqn:E;
        [|apply invertedFailure_normal].
      pose proof (andLoop_normal _ _ _ _ _ _ _ HF (evaluationBase_isState inv base Hb) Hi E) as ->.
      apply finish_normal. eapply andLoop_nonempty, E; auto using isEmpty_single with go.
  - split.
    + intros md base. destruct (mergeLoop _ _ _ _ _ _ _) as [S D].
      destruct (isEmpty S); auto using finish_frame, invertedFailure_frame.
    + intros md base Hb.
      pose proof (mergeLoop_good eval ResetRuleCache rules md _ _ _ HF
        (evaluationBase_isState inv base Hb) (good_0 _)) as Hg.
      destruct (mergeLoop _ _ _ _ _ _ _) as [S D].
      destruct (isEmpty S); auto using finish_good, invertedFailure_good.
    + intros md base Hb Hi.
      pose proof (mergeLoop_normal eval ResetRuleCache (fun _ => eq_refl) rules md _ 0 HF
        (evaluationBase_isState inv base Hb) Hi) as Hn.
      destruct (mergeLoop _ _ _ _ _ _ _) as [S D]. simpl in Hn. subst D.
      destruct (isEmpty S) eqn:E; auto using finish_normal, invertedFailure_normal.
Qed.

Lemma mergeLoop_sound prepare rules :
  (forall c, IgnoreDestinationIPCIDRMatch (prepare c) = IgnoreDestinationIPCIDRMatch c) ->
  Forall (fun r => sound (eval r)) rules ->
  sound (fun md base =>
    let '(stateSet, def) := mergeLoop eval prepare rules md base 0 0 in
    (stateSet, setDefinitive md def)).
Proof.
  intros Hp HF. split.
  - intros md base. by destruct (mergeLoop _ _ _ _ _ _ _).
  - intros md base Hb.
    pose proof (mergeLoop_good eval prepare rules md _ _ _ HF Hb (good_0 _)) as Hg.
    by destruct (mergeLoop _ _ _ _ _ _ _).
  - intros md base Hb Hi.
    pose proof (mergeLoop_normal eval prepare Hp rules md _ 0 HF Hb Hi) as Hn.
    by destruct (mergeLoop _ _ _ _ _ _ _).
Qed.
End rules_sound.

Section evaluation_sound.
Context `{External} `{DomainMatching} (env : Env).

Lemma evaluation_sound :
  (forall rule, sound (matchStatesWithBase env rule)) /\
  (forall s, sound (setMatchStatesWithBase env s)).
Proof.
  apply rule_set_ind.
  - intros r IH. apply default_sound. intros it Hit.
    apply mergeLoop_sound; [done|]. by apply IH.
  - intros mode rules inv IH. by apply logical_sound.
  - intros tag rules md IH. by apply mergeLoop_sound.
Qed.
End evaluation_sound.
