(* ===== verification/RuleSpec.v ===== *)
(** * Specification of the rule engine and refinement

    A branch of the evaluation of a rule satisfies a set of condition groups.
    [Produces] says, by recursion on the rule and without bit sets, accumulators
    or early returns, which sets a rule started from a base set can end with.
    [evaluation_refines] states that [matchStatesWithBase] computes exactly these.

    In the first phase of a DNS query the destination address conditions are deferred
    until the response is known ([IgnoreDestinationIPCIDRMatch]).  Each evaluation then
    has two readings, the sets that are possible and those that are definite whatever
    the response says, and the specification is given for both. *)

From S2P Require Import Prelude MatchState Netip Context RuleItem RuleAbstract RuleSemantics.

(** The condition groups, the bits of a [ruleMatchState]. *)
Inductive Group := SourceAddress | SourcePort | DestinationAddress | DestinationPort.

#[export] Instance Group_eq_dec : EqDecision Group.
Proof. solve_decision. Defined.

Definition groupBit (g : Group) : ruleMatchState :=
  match g with
  | SourceAddress => ruleMatchSourceAddress
  | SourcePort => ruleMatchSourcePort
  | DestinationAddress => ruleMatchDestinationAddress
  | DestinationPort => ruleMatchDestinationPort
  end.

Definition groupOfBit (z : Z) : option Group :=
  if z =? 1 then Some SourceAddress else if z =? 2 then Some SourcePort
  else if z =? 4 then Some DestinationAddress else if z =? 8 then Some DestinationPort else None.

#[export] Program Instance Group_countable : Countable Group :=
  inj_countable groupBit groupOfBit _.
Next Obligation. by intros []. Qed.

Definition allGroups : list Group := [SourceAddress; SourcePort; DestinationAddress; DestinationPort].

(** The groups of a state. *)
Definition groups (s : ruleMatchState) : gset Group :=
  list_to_set (filter (fun g => has s (groupBit g) = true) allGroups).

Lemma elem_of_allGroups g : g ∈ allGroups.
Proof. destruct g; repeat constructor. Qed.

Lemma elem_of_groups s g : g ∈ groups s <-> has s (groupBit g) = true.
Proof.
  unfold groups. rewrite elem_of_list_to_set, list_elem_of_filter.
  pose proof (elem_of_allGroups g). tauto.
Qed.

(** The index of a group's bit. *)
Definition groupIndex (g : Group) : Z :=
  match g with SourceAddress => 0 | SourcePort => 1 | DestinationAddress => 2
             | DestinationPort => 3 end.

Lemma has_testbit s g : has s (groupBit g) = Z.testbit s (groupIndex g).
Proof.
  assert (E : groupBit g = 2 ^ groupIndex g) by by destruct g.
  assert (0 <= groupIndex g) by by destruct g.
  unfold has. rewrite E. destruct (Z.testbit s (groupIndex g)) eqn:Hb.
  - apply negb_true_iff, Z.eqb_neq. intros H0.
    apply (f_equal (fun z => Z.testbit z (groupIndex g))) in H0.
    by rewrite Z.land_spec, Hb, Z.pow2_bits_true, Z.bits_0 in H0.
  - apply negb_false_iff, Z.eqb_eq, Z.bits_inj'. intros i Hi.
    rewrite Z.land_spec, Z.bits_0. destruct (decide (i = groupIndex g)) as [->|Hne].
    + by rewrite Hb.
    + by rewrite Z.pow2_bits_false, andb_false_r.
Qed.

Lemma groups_0 : groups 0 = ∅.
Proof. reflexivity. Qed.

Lemma groups_lor s t : groups (Z.lor s t) = groups s ∪ groups t.
Proof.
  apply set_eq. intros g. rewrite elem_of_union, !elem_of_groups, !has_testbit, Z.lor_spec.
  apply orb_true_iff.
Qed.

Lemma groups_inj s t : isState s -> isState t -> groups s = groups t -> s = t.
Proof.
  intros Hs Ht E. apply (fits_ext 4); [lia|done|done|]. intros i Hi.
  assert (exists g, groupIndex g = i) as [g <-].
  { assert (i = 0 \/ i = 1 \/ i = 2 \/ i = 3) as [->|[->|[->| ->]]] by lia;
      [by exists SourceAddress|by exists SourcePort|by exists DestinationAddress
      |by exists DestinationPort]. }
  rewrite <- !has_testbit. apply eq_true_iff_eq. by rewrite <- !elem_of_groups, E.
Qed.

(** The state of a set of groups. *)
Definition stateOf (G : gset Group) : ruleMatchState :=
  foldr (fun g s => if bool_decide (g ∈ G) then Z.lor (groupBit g) s else s) 0 allGroups.

Lemma stateOf_isState G : isState (stateOf G).
Proof. unfold stateOf. simpl. repeat case_bool_decide; done. Qed.

Lemma groups_stateOf G : groups (stateOf G) = G.
Proof.
  apply set_eq. intros g. rewrite elem_of_groups, has_testbit. unfold stateOf. simpl.
  repeat case_bool_decide; destruct g; simpl; (split; [|]); intros; done.
Qed.

#[export] Hint Resolve stateOf_isState : go.

(** ** The specification *)
Section spec.
Context `{External} `{DomainMatching} (env : Env).

(** A meaning: from a reading (definite or possible), a context and a base to the sets
    of groups it can end with. *)
Definition Meaning := bool -> InboundContext -> gset Group -> gset Group -> Prop.

Section list_meaning.
Context {R : Type} (M : R -> Meaning).

(** The union of a set produced by each rule, with the base. *)
Fixpoint allProduce (rules : list R) : Meaning := fun definite md B s =>
  match rules with
  | [] => s = B
  | rule :: rest => exists s1 s2,
      M rule definite (ResetRuleCache md) B s1 /\ allProduce rest definite md B s2 /\
      s = s1 ∪ s2
  end.

(** A set produced by one of the rules. *)
Fixpoint someProduces (prepare : InboundContext -> InboundContext) (rules : list R) : Meaning :=
  fun definite md B s =>
  match rules with
  | [] => False
  | rule :: rest => M rule definite (prepare md) B s \/ someProduces prepare rest definite md B s
  end.

End list_meaning.

Section default_meaning.
Context {RS : Type}.
Implicit Type r : abstractDefaultRule RS.

(** The connection satisfies the condition of the rule for a group. *)
Definition satisfies r (md : InboundContext) (g : Group) : bool :=
  match g with
  | SourceAddress =>
      matchAnyItem env (sourceAddressItems r) md
      || (IPCIDRMatchSource md && matchAnyItem env (destinationIPCIDRItems r) md)
  | SourcePort => matchAnyItem env (sourcePortItems r) md
  | DestinationAddress =>
      matchAnyItem env (destinationAddressItems r) md
      || (negb (IgnoreDestinationIPCIDRMatch md) && negb (IPCIDRMatchSource md)
          && matchAnyItem env (destinationIPCIDRItems r) md)
  | DestinationPort => matchAnyItem env (destinationPortItems r) md
  end.

(** The rule has a condition for the group. *)
Definition requires r (md : InboundContext) (g : Group) : bool :=
  match g with
  | SourceAddress => requiresSourceAddressMatch r md
  | SourcePort => nonempty (sourcePortItems r)
  | DestinationAddress => requiresDestinationAddressMatch r md
  | DestinationPort => nonempty (destinationPortItems r)
  end.

(** The condition of the rule for the group waits for the DNS response: the rule has
    destination CIDR conditions and nothing else for the destination address. *)
Definition defers r (md : InboundContext) (g : Group) : bool :=
  match g with
  | DestinationAddress =>
      IgnoreDestinationIPCIDRMatch md && negb (IPCIDRMatchSource md)
      && nonempty (destinationIPCIDRItems r) && negb (nonempty (destinationAddressItems r))
  | _ => false
  end.

Definition satisfied r (md : InboundContext) : gset Group :=
  list_to_set (filter (fun g => satisfies r md g = true) allGroups).

Lemma elem_of_satisfied r md g : g ∈ satisfied r md <-> satisfies r md g = true.
Proof.
  unfold satisfied. rewrite elem_of_list_to_set, list_elem_of_filter.
  pose proof (elem_of_allGroups g). tauto.
Qed.

Definition allItemsMatch r (md : InboundContext) : Prop :=
  forallb (fun item => Match env item md) (items r) = true.

Context (MS : RS -> Meaning).

(** What a rule set item produces: what some rule of one of its sets does. *)
Definition itemProduces (it : RuleSetItem RS) : Meaning :=
  someProduces MS
    (fun md => setIPCIDR (ResetRuleMatchCache md) (ipCidrMatchSource it) (ipCidrAcceptEmpty it))
    (setList it).

(** A deferred group is not required, unless the result is to be definite. *)
Definition defaultPlain r : Meaning := fun definite md B s =>
  allItemsMatch r md /\
  match ruleSetItem r with
  | None => s = B ∪ satisfied r md
  | Some it => itemProduces it definite md (B ∪ satisfied r md) s
  end /\
  (forall g, requires r md g = true -> g ∈ s) /\
  (definite = true -> forall g, defers r md g = true -> g ∈ s).
End default_meaning.

(** Inversion: the base itself, when nothing is produced without it.  The inverse is
    possible unless the rule definitely matches, and definite when the rule cannot
    match. *)
Definition inverting (inv : bool) (M : Meaning) : Meaning := fun definite md B s =>
  if inv then s = B /\ ~ exists s', M (negb definite) md ∅ s' else M definite md B s.

Definition defaultProduces {RS} (MS : RS -> Meaning) (r : abstractDefaultRule RS) : Meaning :=
  if nonempty (allItems r) then inverting (invert r) (defaultPlain MS r)
  else fun _ _ B s => s = B.

Definition logicalProduces {R} (M : R -> Meaning) (mode : string) (rules : list R) (inv : bool) : Meaning :=
  inverting inv (if String.eqb mode LogicalTypeAnd then allProduce M rules
                 else someProduces M ResetRuleCache rules).

Fixpoint Produces (rule : HeadlessRule) : Meaning :=
  match rule with
  | DefaultRule r => defaultProduces SetProduces r
  | LogicalRule mode rules inv => logicalProduces Produces mode rules inv
  end
with SetProduces (s : RuleSet) : Meaning :=
  match s with
  | LocalRuleSet _ rules _ => someProduces Produces ResetRuleMatchCache rules
  end.
End spec.

(** ** Refinement *)

(** The states of an evaluation in a reading. *)
Definition reading (definite : bool) (p : ruleMatchStateSet * InboundContext)
    : ruleMatchStateSet :=
  if definite then definitive p else p.1.

(** The evaluator computes the meaning, in both readings. *)
Definition refines (f : Evaluator) (M : Meaning) : Prop :=
  forall d md base x, isState base -> isState x ->
    contains (reading d (f md base)) x = true <-> M d md (groups base) (groups x).

Lemma contains_withBase_empty base x :
  isState base -> isState x ->
  contains (withBase emptyRuleMatchState base) x = true <-> groups x = groups base.
Proof.
  intros Hb Hx. rewrite withBase_empty, contains_single, bool_decide_eq_true by done.
  split; [by intros ->|]. intros E. symmetry. by apply groups_inj.
Qed.

(** A set is empty when its meaning is. *)
Lemma isEmpty_meaning S (P : gset Group -> Prop) :
  wfSet S -> (forall x, isState x -> contains S x = true <-> P (groups x)) ->
  isEmpty S = true <-> ~ exists s, P s.
Proof.
  intros HS HP. split.
  - intros E [s Hs]. rewrite <- (groups_stateOf s) in Hs.
    apply HP in Hs; [|auto with go]. by rewrite (isEmpty_contains _ E) in Hs.
  - intros Hno. destruct (isEmpty S) eqn:E; [done|]. exfalso.
    apply isEmpty_false in E as (x & Hx & Hc); [|done]. apply Hno.
    exists (groups x). by apply HP.
Qed.

(** The empty set of a reading, as its meaning. *)
Lemma reading_empty (inv : bool) md base (S D : ruleMatchStateSet) (M : Meaning) (d : bool) :
  good (if inv then 0 else base) S D ->
  (forall d y, isState y -> contains (if d : bool then D else S) y = true <->
                            M d md (groups (if inv then 0 else base)) (groups y)) ->
  isEmpty (if d then D else S) = true <->
  ~ exists s, M d md (groups (if inv then 0 else base)) s.
Proof.
  intros HG HM. apply (isEmpty_meaning _ (M d md _)); [|apply HM]. destruct d; apply HG.
Qed.

(** The shared end of both rule types. *)
Lemma finish_refines (inv d : bool) md base S D (M : Meaning) x :
  isState base -> isState x -> good (if inv then 0 else base) S D ->
  (forall d y, isState y -> contains (if d : bool then D else S) y = true <->
                            M d md (groups (if inv then 0 else base)) (groups y)) ->
  contains (reading d (if isEmpty S then invertedFailure inv md base
                       else finish inv md base S D)) x = true
  <-> inverting inv M d md (groups base) (groups x).
Proof.
  intros Hb Hx HG HM.
  pose proof (fun d => reading_empty inv md base S D M d HG HM) as He.
  assert (Hsub : isEmpty S = true -> isEmpty D = true).
  { intros E. destruct (isEmpty D) eqn:ED; [done|].
    apply isEmpty_false in ED as (y & Hy & Hc); [|apply HG].
    apply (good_sub _ _ _ HG) in Hc; [|done]. by rewrite (isEmpty_contains _ E) in Hc. }
  assert (Hd : forall a, DefinitiveMatchStates (setDefinitive md a) = a) by done.
  unfold inverting, reading, invertedFailure, finish, definitive. destruct inv.
  - rewrite groups_0 in He. rewrite <- He. destruct d; cbn [negb] in *;
      destruct (isEmpty S) eqn:E; cbn [fst snd];
      rewrite ?Hd, ?contains_0, ?contains_withBase_empty by done;
      [intuition|intuition discriminate|rewrite Hsub by done; intuition|].
    destruct (isEmpty D); rewrite ?contains_0, ?contains_withBase_empty by done;
      intuition congruence.
  - rewrite <- HM by done. destruct (isEmpty S) eqn:E; [|by destruct d].
    destruct d; cbn [fst snd]; rewrite ?Hd, contains_0.
    + by rewrite (isEmpty_contains _ (Hsub eq_refl)).
    + by rewrite (isEmpty_contains _ E).
Qed.

(** Nothing was produced: the early exit of both rule types. *)
Lemma invertedFailure_refines (inv d : bool) md base (M : Meaning) x :
  isState base -> isState x ->
  (forall d s, ~ M d md (groups (if inv then 0 else base)) s) ->
  contains (reading d (invertedFailure inv md base)) x = true
  <-> inverting inv M d md (groups base) (groups x).
Proof.
  intros Hb Hx HM. apply (finish_refines inv d md base 0 0); [done|done|apply good_0|].
  intros d' y Hy. assert ((if d' then 0 else 0) = 0) as -> by by destruct d'.
  rewrite contains_0. split; [done|]. intros Hs. by apply HM in Hs.
Qed.

Lemma groups_groupBit g : groups (groupBit g) = {[g]}.
Proof. by destruct g. Qed.

Lemma elem_of_orBit s b guard m g :
  g ∈ groups (orBit s guard m (groupBit b)) <->
  g ∈ groups s \/ (g = b /\ guard = true /\ m = true).
Proof.
  unfold orBit. destruct guard, m; cbn [andb];
    rewrite ?groups_lor, ?groups_groupBit, ?elem_of_union, ?elem_of_singleton;
    intuition congruence.
Qed.

(** A group left out because the state has it already changes nothing. *)
Lemma elem_of_orBit_unless s b guard m g :
  g ∈ groups (orBit s (guard && negb (has s (groupBit b))) m (groupBit b)) <->
  g ∈ groups s \/ (g = b /\ guard = true /\ m = true).
Proof.
  rewrite elem_of_orBit, andb_true_iff, negb_true_iff.
  destruct (has s (groupBit b)) eqn:E; [|intuition congruence].
  apply elem_of_groups in E. split; [tauto|]. intros [?|(-> & ? & ?)]; auto.
Qed.

Lemma nonempty_any {A} (f : A -> bool) l : existsb f l = true -> nonempty l = true.
Proof. by destruct l. Qed.

Section default_refines.
Context `{External} `{DomainMatching} {RS : Type} (env : Env) (r : abstractDefaultRule RS).

Lemma groups_baseStateOf md base :
  groups (baseStateOf env r md base) = groups base ∪ satisfied env r md.
Proof.
  apply set_eq. intros g. rewrite elem_of_union, elem_of_satisfied. unfold baseStateOf.
  rewrite (elem_of_orBit _ DestinationPort).
  rewrite (elem_of_orBit_unless _ DestinationAddress).
  rewrite (elem_of_orBit _ DestinationAddress), (elem_of_orBit _ SourcePort).
  rewrite (elem_of_orBit_unless _ SourceAddress), (elem_of_orBit _ SourceAddress).
  unfold satisfies, destinationIPCIDRMatchesSource, destinationIPCIDRMatchesDestination.
  pose proof (@nonempty_any RuleItem (fun it => Match env it md)) as Hne.
  fold (@matchAnyItem _ _ env) in Hne.
  destruct g; rewrite ?orb_true_iff, ?andb_true_iff;
    repeat match goal with
    | |- context [matchAnyItem env ?l md] =>
        let E := fresh "E" in
        destruct (matchAnyItem env l md) eqn:E;
        [pose proof (Hne l E) as ->|]; clear E
    end; intuition congruence.
Qed.

Lemma stateFilter_forallb md x :
  stateFilter r md x =
  forallb (fun g => implb (requires r md g) (has x (groupBit g))) allGroups.
Proof.
  unfold stateFilter. simpl.
  destruct (requiresSourceAddressMatch r md), (requiresDestinationAddressMatch r md),
    (nonempty (sourcePortItems r)), (nonempty (destinationPortItems r)),
    (has x ruleMatchSourceAddress), (has x ruleMatchSourcePort),
    (has x ruleMatchDestinationAddress), (has x ruleMatchDestinationPort); reflexivity.
Qed.

Lemma stateFilter_spec md x :
  stateFilter r md x = true <-> forall g, requires r md g = true -> g ∈ groups x.
Proof.
  rewrite stateFilter_forallb, forallb_forall. split.
  - intros Hall g. rewrite elem_of_groups. apply implb_true_iff, Hall, list_elem_of_In,
      elem_of_allGroups.
  - intros Hall g _. apply implb_true_iff. rewrite <- elem_of_groups. apply Hall.
Qed.

Context (matchItem : RuleSetItem RS -> Evaluator) (MS : RS -> Meaning).
Context (Hsound : forall it, ruleSetItem r = Some it -> sound (matchItem it)).
Context (Hitem : forall it, ruleSetItem r = Some it ->
                            refines (matchItem it) (itemProduces MS it)).

Lemma rawStates_refines d md base x :
  isState base -> isState x ->
  contains (if d : bool then (rawStates r matchItem md base).1.2
            else (rawStates r matchItem md base).1.1) x = true <->
  match ruleSetItem r with
  | None => groups x = groups base
  | Some it => itemProduces MS it d md (groups base) (groups x)
  end.
Proof.
  intros Hb Hx. unfold rawStates. destruct (ruleSetItem r) as [it|]; cbn [fst snd].
  - by apply (Hitem it eq_refl d).
  - rewrite <- withBase_empty. destruct d; by apply contains_withBase_empty.
Qed.

(** The filter of the deferred groups. *)
Lemma deferred_spec md x :
  (Z.ldiff (deferredGroups r md) x =? 0) = true <->
  forall g, defers r md g = true -> g ∈ groups x.
Proof.
  assert (E : deferredGroups r md
              = if defers r md DestinationAddress then groupBit DestinationAddress else 0)
    by reflexivity.
  rewrite E. destruct (defers r md DestinationAddress) eqn:Ed.
  - rewrite Z.eqb_eq. split.
    + intros Hz [] Hg; try discriminate Hg. apply elem_of_groups. rewrite has_testbit.
      apply (f_equal (fun z => Z.testbit z 2)) in Hz.
      rewrite Z.ldiff_spec, Z.bits_0 in Hz. simpl in Hz. by apply negb_false_iff in Hz.
    + intros Hg. specialize (Hg _ Ed). apply elem_of_groups in Hg. rewrite has_testbit in Hg.
      apply Z.bits_inj'. intros i Hi. rewrite Z.ldiff_spec, Z.bits_0.
      destruct (decide (i = groupIndex DestinationAddress)) as [->|Hne].
      * by rewrite Hg, andb_false_r.
      * change (groupBit DestinationAddress) with (2 ^ 2).
        by rewrite Z.pow2_bits_false.
  - rewrite Z.ldiff_0_l. split; [|done]. intros _ [] Hg; by rewrite ?Ed in Hg.
Qed.

Lemma definiteFilter_spec md D x :
  isState x -> wfSet D ->
  contains (if negb (deferredGroups r md =? 0)
            then filterStates D (fun state => Z.ldiff (deferredGroups r md) state =? 0)
            else D) x = true <->
  contains D x = true /\ forall g, defers r md g = true -> g ∈ groups x.
Proof.
  intros Hx HD. rewrite <- deferred_spec. destruct (deferredGroups r md =? 0) eqn:E; cbn [negb].
  - apply Z.eqb_eq in E. rewrite E, Z.ldiff_0_l. tauto.
  - by rewrite filterStates_spec, andb_true_iff.
Qed.

Lemma default_refines :
  refines (defaultMatchStatesWithBase env matchItem r) (defaultProduces env MS r).
Proof.
  intros d md base x Hb Hx. rewrite defaultMatch_unfold by done. unfold defaultProduces.
  destruct (nonempty (allItems r)); cbn [negb];
    [|destruct d; by apply contains_withBase_empty].
  destruct (forallb (fun item => Match env item md) (items r)) eqn:Eit; cbn [negb].
  2:{ apply invertedFailure_refines; [done..|].
      intros d' s [Ha _]. unfold allItemsMatch in Ha. congruence. }
  cbv zeta. set (base' := baseStateOf _ _ _ _).
  assert (Hb' : isState base') by (subst base'; auto with go).
  pose proof (rawStates_good r matchItem Hsound md base' Hb') as Hraw.
  assert (Hext : Z.lor (if invert r then 0 else base) base' = base')
    by apply baseStateOf_extends.
  pose proof (definiteFilter_spec md (rawStates r matchItem md base').1.2) as HD.
  set (D := if _ : bool then _ else _) in *.
  apply finish_refines; [done|done|subst D; by apply (filtered_good _ _ _ base')|].
  intros d' y Hy. unfold defaultPlain, allItemsMatch.
  rewrite <- groups_baseStateOf, <- (rawStates_refines d') by done. fold base'.
  destruct d'; rewrite filterStates_spec, andb_true_iff, stateFilter_spec by done.
  - rewrite HD by (done || apply Hraw). tauto.
  - rewrite Eit. intuition discriminate.
Qed.
End default_refines.

Section loops_refine.
Context {R : Type} (eval : R -> Evaluator) (M : R -> Meaning).

Lemma mergeLoop_refines prepare rules d md base S D x :
  Forall (fun r => refines (eval r) (M r)) rules -> isState base -> isState x ->
  let p := mergeLoop eval prepare rules md base S D in
  contains (if d : bool then p.2 else p.1) x = true <->
  contains (if d then D else S) x = true \/
  someProduces M prepare rules d md (groups base) (groups x).
Proof.
  intros HF Hb Hx. revert S D. induction HF as [|r rules Hr HF IH]; intros S D; simpl.
  - tauto.
  - pose proof (Hr d (prepare md) base x Hb Hx) as Hrx. unfold reading, definitive in Hrx.
    destruct (eval r (prepare md) base) as [S1 md1]. rewrite IH. rewrite <- Hrx.
    destruct d; simpl; rewrite contains_merge, orb_true_iff by done; tauto.
Qed.

Lemma mergeLoop_refines_empty prepare rules d md base x :
  Forall (fun r => refines (eval r) (M r)) rules -> isState base -> isState x ->
  let p := mergeLoop eval prepare rules md base 0 0 in
  contains (if d : bool then p.2 else p.1) x = true <->
  someProduces M prepare rules d md (groups base) (groups x).
Proof.
  intros HF Hb Hx p. subst p. rewrite mergeLoop_refines by done.
  destruct d; rewrite contains_0; intuition discriminate.
Qed.

Lemma merging_refines prepare rules :
  Forall (fun r => refines (eval r) (M r)) rules ->
  refines (fun md base =>
    let '(stateSet, def) := mergeLoop eval prepare rules md base 0 0 in
    (stateSet, setDefinitive md def)) (someProduces M prepare rules).
Proof.
  intros HF d md base x Hb Hx. rewrite <- (mergeLoop_refines_empty _ _ d md base x HF Hb Hx).
  destruct (mergeLoop _ _ _ _ _ _ _) as [S D]. by destruct d.
Qed.

(** The states of the accumulator joined with what the remaining rules produce. *)
Definition andMeaning (rules : list R) (d : bool) (md : InboundContext) (base : ruleMatchState)
    (S : ruleMatchStateSet) (G : gset Group) : Prop :=
  exists a s, isState a /\ contains S a = true /\ allProduce M rules d md (groups base) s /\
    G = groups a ∪ s.

Lemma andMeaning_nil d md base S x :
  (forall a, isState a -> contains S a = true -> Z.lor base a = a) -> isState x ->
  contains S x = true <-> andMeaning [] d md base S (groups x).
Proof.
  intros HS Hx. unfold andMeaning. simpl. split.
  - intros Hc. exists x, (groups base). split_and!; [done..|].
    rewrite <- groups_lor, Z.lor_comm. by rewrite HS.
  - intros (a & s & Ha & Hc & -> & E).
    rewrite <- groups_lor, Z.lor_comm, HS in E by done.
    by rewrite (groups_inj x a).
Qed.

Lemma andMeaning_cons r rules d md base S S1 G :
  (forall x, isState x -> contains S1 x = true <->
                          M r d (ResetRuleCache md) (groups base) (groups x)) ->
  andMeaning rules d md base (combine S S1) G <-> andMeaning (r :: rules) d md base S G.
Proof.
  intros H1. unfold andMeaning. simpl. split.
  - intros (a & s & Ha & (l & y & ? & ? & ? & Hy & <-)%combine_spec & Hs & ->); [|done].
    exists l, (groups y ∪ s). rewrite H1 in Hy by done. split_and!; [done..| |].
    + by exists (groups y), s.
    + by rewrite groups_lor, (assoc_L (∪)).
  - intros (a & s & Ha & Hc & (s1 & s2 & H1s & H2s & ->) & ->).
    exists (Z.lor a (stateOf s1)), s2. split_and!; [auto with go| |done|].
    + apply combine_spec; [auto with go|]. exists a, (stateOf s1).
      rewrite H1, groups_stateOf by auto with go. auto with go.
    + by rewrite groups_lor, groups_stateOf, (assoc_L (∪)).
Qed.

Lemma andLoop_refines rules md base S D :
  Forall (fun r => sound (eval r) /\ refines (eval r) (M r)) rules ->
  isState base -> good base S D ->
  match andLoop eval rules md base S D with
  | Some (S', D') => forall d x, isState x ->
      contains (if d : bool then D' else S') x = true <->
      andMeaning rules d md base (if d then D else S) (groups x)
  | None => forall d, ~ exists s, allProduce M rules d md (groups base) s
  end.
Proof.
  intros HF Hb. revert S D.
  induction HF as [|r rules [Hs Hr] HF IH]; intros S D HG; cbn [andLoop].
  - intros d x Hx. apply andMeaning_nil; [|done].
    intros a Ha Hc. apply HG; [done|]. destruct d; [by apply HG|done].
  - pose proof (fun d x => Hr d (ResetRuleCache md) base x Hb) as Hrx.
    pose proof (sound_good _ Hs (ResetRuleCache md) base Hb) as Hg.
    unfold reading, definitive in Hrx, Hg.
    destruct (eval r (ResetRuleCache md) base) as [S1 md1]. cbn [fst snd] in Hrx, Hg.
    destruct (isEmpty S1) eqn:E1.
    + simpl. intros d (s & s1 & s2 & Hs1 & _). rewrite <- (groups_stateOf s1) in Hs1.
      apply Hrx in Hs1; [|auto with go].
      assert (contains S1 (stateOf s1) = true) as Hc
        by (destruct d; [apply Hg; [auto with go|done]|done]).
      by rewrite (isEmpty_contains _ E1) in Hc.
    + specialize (IH _ _ (good_combine _ _ _ _ _ HG Hg)).
      destruct (andLoop _ _ _ _ _ _) as [[S' D']|].
      * intros d x Hx. rewrite IH by done. destruct d; apply andMeaning_cons; intros y;
          [exact (Hrx true y)|exact (Hrx false y)].
      * simpl. intros d (s & s1 & s2 & _ & Hs2 & _). apply (IH d). by exists s2.
Qed.

Lemma refines_base r d md base s :
  sound (eval r) -> refines (eval r) (M r) ->
  isState base -> M r d md (groups base) s -> groups base ⊆ s.
Proof.
  intros Hs Hr Hb HM. rewrite <- (groups_stateOf s) in HM |- *.
  apply Hr in HM; [|auto with go..].
  pose proof (sound_good _ Hs md base Hb) as Hg.
  assert (contains (eval r md base).1 (stateOf s) = true) as Hc
    by (destruct d; [apply Hg; [auto with go|done]|done]).
  apply (good_base _ _ _ Hg) in Hc; [|auto with go].
  rewrite <- Hc, groups_lor. apply union_subseteq_l.
Qed.

Lemma allProduce_base rules d md base s :
  Forall (fun r => sound (eval r) /\ refines (eval r) (M r)) rules -> isState base ->
  allProduce M rules d md (groups base) s -> groups base ⊆ s.
Proof.
  intros HF Hb. destruct HF as [|r rules [Hs Hr] HF]; simpl; [by intros ->|].
  intros (s1 & s2 & H1 & _ & ->). apply union_subseteq_l'.
  by apply (refines_base r d (ResetRuleCache md)).
Qed.

Lemma andMeaning_start rules d md base G :
  Forall (fun r => sound (eval r) /\ refines (eval r) (M r)) rules -> isState base ->
  andMeaning rules d md base (singleRuleMatchState base) G <->
  allProduce M rules d md (groups base) G.
Proof.
  intros HF Hb. unfold andMeaning. split.
  - intros (a & s & Ha & Hc & Hs & ->).
    rewrite contains_single, bool_decide_eq_true in Hc by done. subst a.
    by rewrite subseteq_union_1_L by (by eapply allProduce_base).
  - intros HG. exists base, G. rewrite contains_single, bool_decide_eq_true by done.
    split_and!; [done..|]. by rewrite subseteq_union_1_L by (by eapply allProduce_base).
Qed.

Lemma logical_refines mode rules inv :
  Forall (fun r => sound (eval r) /\ refines (eval r) (M r)) rules ->
  refines (logicalMatchStatesWithBase eval mode rules inv) (logicalProduces M mode rules inv).
Proof.
  intros HF d md base x Hb Hx. unfold logicalMatchStatesWithBase, logicalProduces.
  pose proof (Forall_impl _ _ _ HF (fun _ => @proj1 _ _)) as HFs.
  pose proof (Forall_impl _ _ _ HF (fun _ => @proj2 _ _)) as HFr.
  pose proof (evaluationBase_isState inv base Hb) as Hb'.
  destruct (String.eqb mode LogicalTypeAnd).
  - rewrite withBase_empty. set (base' := if inv then 0 else base) in *.
    assert (good base' (singleRuleMatchState base') (singleRuleMatchState base')) as HG
      by (apply good_single; [done|apply Z.lor_diag]).
    pose proof (andLoop_refines rules md base' _ _ HF Hb' HG) as Hl.
    destruct (andLoop _ _ _ _ _ _) as [[S D]|] eqn:E.
    + pose proof (andLoop_good _ _ _ _ _ _ _ _ HFs Hb' HG E) as HGS.
      rewrite <- (finish_refines inv d md base S D); [|done|done|exact HGS|].
      * by rewrite (andLoop_nonempty _ _ _ _ _ _ _ _ HFs Hb' (single_wf _)
                      (isEmpty_single _ Hb') E).
      * intros d' y Hy. rewrite Hl by done. destruct d'; by apply andMeaning_start.
    + apply invertedFailure_refines; [done..|]. intros d' s Hs. apply (Hl d'). by exists s.
  - pose proof (mergeLoop_good eval ResetRuleCache rules md _ _ _ HFs Hb' (good_0 _)) as Hg.
    pose proof (fun d y => mergeLoop_refines_empty ResetRuleCache rules d md _ y HFr Hb') as Hl.
    destruct (mergeLoop _ _ _ _ _ _ _) as [S D]. by apply finish_refines.
Qed.
End loops_refine.

Section evaluation_refines.
Context `{External} `{DomainMatching} (env : Env).

Lemma Forall_sound_refines {A} (f : A -> Evaluator) (M : A -> Meaning) (l : list A) :
  (forall a, sound (f a)) -> Forall (fun a => refines (f a) (M a)) l ->
  Forall (fun a => sound (f a) /\ refines (f a) (M a)) l.
Proof. intros Hs HF. induction HF; constructor; auto. Qed.

Lemma rules_refine :
  (forall rule, refines (matchStatesWithBase env rule) (Produces env rule)) /\
  (forall s, refines (setMatchStatesWithBase env s) (SetProduces env s)).
Proof.
  destruct (evaluation_sound env) as [Hrs Hss]. apply rule_set_ind.
  - intros r IH. apply default_refines; intros it Hit.
    + apply mergeLoop_sound; [done|]. by apply Forall_true.
    + apply merging_refines. by apply IH.
  - intros mode rules inv IH. apply logical_refines. by apply Forall_sound_refines.
  - intros tag rules md IH. by apply merging_refines.
Qed.

(** C1. For every rule (default or logical, inverted or not, with rule sets nested to
    any depth), every connection (the destination address deferred or not) and every
    base state, the packed set of states [matchStatesWithBase] returns is exactly the
    set of group sets the specification [Produces] calls possible from the same base,
    and the definitive states it leaves in the metadata are exactly those it calls
    definite; both fit 16 bits, nothing else in the metadata changes, and the two
    sets are one when the destination address is not deferred. *)
Theorem evaluation_refines rule md base (x : ruleMatchState) :
  isState base -> isState x ->
  let p := matchStatesWithBase env rule md base in
  (contains p.1 x = true <-> Produces env rule false md (groups base) (groups x)) /\
  (contains (definitive p) x = true <-> Produces env rule true md (groups base) (groups x)) /\
  wfSet p.1 /\ wfSet (definitive p) /\ p.2 = setDefinitive md (definitive p) /\
  (IgnoreDestinationIPCIDRMatch md = false -> definitive p = p.1).
Proof.
  intros Hb Hx p. destruct (evaluation_sound env) as [Hs _]. destruct (Hs rule) as [F G N].
  destruct rules_refine as [HR _]. split_and!.
  - exact (HR rule false md base x Hb Hx).
  - exact (HR rule true md base x Hb Hx).
  - by apply G.
  - by apply G.
  - apply F.
  - by apply N.
Qed.
End evaluation_refines.
