(* ===== verification/RuleFormula.v ===== *)
(** * The rule engine as boolean formulas

    Consequences of [rules_refine]: what the documentation promises of a rule, as
    a formula over its items.  The formulas of a single rule are for connections whose
    destination address is not deferred (every use but the first phase of a DNS query);
    the merge with rule sets and the negation of inverted rules are for all. *)

From S2P Require Import Prelude MatchState Netip Context RuleItem RuleAbstract RuleSemantics.
From S2P Require Import RuleSpec.

Section formulas.
Context `{External} `{DomainMatching} (env : Env).

(** The rule matches whatever the deferred destination address will be. *)
Definition definitely (rule : HeadlessRule) (md : InboundContext) : bool :=
  negb (isEmpty (definitive (matchStates env rule md))).

Lemma reading_produces d rule md :
  negb (isEmpty (reading d (matchStates env rule md))) = true <->
  exists s, Produces env rule d md ∅ s.
Proof.
  unfold matchStates. rewrite negb_true_iff, isEmpty_false.
  - split.
    + intros (x & Hx & Hc). exists (groups x). rewrite <- groups_0.
      apply rules_refine in Hc; auto with go.
    + intros [s Hs]. exists (stateOf s). split; [auto with go|].
      apply rules_refine; [auto with go..|]. by rewrite groups_stateOf, groups_0.
  - pose proof (sound_good _ (proj1 (evaluation_sound env) rule) md 0 isState_0) as Hg.
    destruct d; apply Hg.
Qed.

Lemma RuleMatch_produces rule md :
  RuleMatch env rule md = true <-> exists s, Produces env rule false md ∅ s.
Proof. apply (reading_produces false). Qed.

Lemma definitely_produces rule md :
  definitely rule md = true <-> exists s, Produces env rule true md ∅ s.
Proof. apply (reading_produces true). Qed.

Lemma definitely_normal rule md :
  IgnoreDestinationIPCIDRMatch md = false -> definitely rule md = RuleMatch env rule md.
Proof.
  intros Hi. unfold definitely, RuleMatch, matchStates.
  by rewrite (sound_normal _ (proj1 (evaluation_sound env) rule)) by auto with go.
Qed.

(** When nothing is deferred the two readings agree. *)
Lemma RuleMatch_produces_normal d rule md :
  IgnoreDestinationIPCIDRMatch md = false ->
  RuleMatch env rule md = true <-> exists s, Produces env rule d md ∅ s.
Proof.
  intros Hi. destruct d; [|apply RuleMatch_produces].
  by rewrite <- definitely_produces, definitely_normal.
Qed.

(** An inverted meaning is produced when the plain one is not. *)
Lemma inverting_produces (inv b d : bool) (M : Meaning) md :
  (forall d, b = true <-> exists s, M d md ∅ s) ->
  xorb inv b = true <-> exists s, inverting inv M d md ∅ s.
Proof.
  intros Hb. unfold inverting. destruct inv; rewrite ?xorb_true_l, ?xorb_false_l; [|done].
  rewrite negb_true_iff. split.
  - intros ->. exists ∅. split; [done|]. intros Hs. by apply Hb in Hs.
  - intros (s & _ & Hno). apply not_true_is_false. by rewrite (Hb (negb d)).
Qed.

(** Every group the rule has a condition for is satisfied. *)
Definition groupsHold {RS} (r : abstractDefaultRule RS) (md : InboundContext) : bool :=
  forallb (fun g => implb (requires r md g) (satisfies env r md g)) allGroups.

Lemma groupsHold_spec {RS} (r : abstractDefaultRule RS) md :
  groupsHold r md = true <-> forall g, requires r md g = true -> satisfies env r md g = true.
Proof.
  unfold groupsHold. rewrite forallb_forall. split.
  - intros Ha g. apply implb_true_iff, Ha, list_elem_of_In, elem_of_allGroups.
  - intros Ha g _. apply implb_true_iff, Ha.
Qed.

Lemma default_formula r md :
  IgnoreDestinationIPCIDRMatch md = false -> ruleSetItem r = None ->
  RuleMatch env (DefaultRule r) md =
  negb (nonempty (allItems r)) ||
  xorb (invert r) (forallb (fun item => Match env item md) (items r) && groupsHold r md).
Proof.
  intros Hi Hrs. apply eq_true_iff_eq. rewrite RuleMatch_produces, orb_true_iff.
  simpl. unfold defaultProduces. destruct (nonempty (allItems r)); simpl.
  - rewrite <- (inverting_produces _
      (forallb (fun item => Match env item md) (items r) && groupsHold r md));
      [intuition discriminate|].
    intros d. assert (Hno : forall g, defers r md g = false)
      by (intros []; simpl; rewrite ?Hi; done).
    unfold defaultPlain, allItemsMatch. rewrite Hrs, andb_true_iff, groupsHold_spec.
    setoid_rewrite (left_id_L ∅ (∪)). setoid_rewrite <- elem_of_satisfied. split.
    + intros [Hit Hg]. exists (satisfied env r md). split_and!; [done..|].
      intros _ g. by rewrite Hno.
    + intros (s & Hit & -> & Hg & _). eauto.
  - split; [auto|]. intros _. by exists ∅.
Qed.

(** A default rule without rule sets: with no item at all it always matches;
    otherwise it matches when every ungrouped item matches and, of each group that
    has items (source address or CIDR, source port, destination address or CIDR,
    destination port), at least one does - and an inverted rule when this fails. *)
Theorem default_rule_formula r md :
  IgnoreDestinationIPCIDRMatch md = false -> ruleSetItem r = None ->
  RuleMatch env (DefaultRule r) md =
  negb (nonempty (allItems r)) ||
  xorb (invert r) (forallb (fun item => Match env item md) (items r) && groupsHold r md).
Proof. apply default_formula. Qed.

Lemma allProduce_exists rules d md B :
  (exists s, allProduce (Produces env) rules d md B s) <->
  forall r, r ∈ rules -> exists s, Produces env r d (ResetRuleCache md) B s.
Proof.
  induction rules as [|r rules IH]; simpl.
  - split; [by intros _ r ?%elem_of_nil|]. eauto.
  - split.
    + intros (s & s1 & s2 & H1 & H2 & ->) r' [->|Hin]%elem_of_cons; [eauto|].
      apply IH; eauto.
    + intros Ha. destruct (Ha r) as [s1 H1]; [by left|].
      destruct (proj2 IH) as [s2 H2]; [intros; apply Ha; by right|]. eauto 10.
Qed.

Lemma someProduces_elem {R} (M : R -> Meaning) prepare rules d md B s :
  someProduces M prepare rules d md B s <-> exists r, r ∈ rules /\ M r d (prepare md) B s.
Proof.
  induction rules as [|r rules IH]; simpl.
  - split; [done|]. by intros (r & ?%elem_of_nil & _).
  - by rewrite (exists_elem_of_cons (fun r => M r d (prepare md) B s)), <- IH.
Qed.

Lemma someProduces_exists {R} (M : R -> Meaning) prepare rules d md B :
  (exists s, someProduces M prepare rules d md B s) <->
  exists r, r ∈ rules /\ exists s, M r d (prepare md) B s.
Proof.
  setoid_rewrite someProduces_elem. split.
  - intros (s & r & ? & ?). eauto.
  - intros (r & ? & s & ?). eauto.
Qed.

(** A logical rule is the conjunction (mode [and]) or the disjunction (any other
    mode) of its rules, each evaluated with a fresh rule cache, negated when the rule
    is inverted: early returns, inherited bases and accumulated states do not
    matter. *)
Theorem logical_rule_formula mode rules inv md :
  IgnoreDestinationIPCIDRMatch md = false ->
  RuleMatch env (LogicalRule mode rules inv) md =
  xorb inv
    (if String.eqb mode LogicalTypeAnd
     then forallb (fun rule => RuleMatch env rule (ResetRuleCache md)) rules
     else existsb (fun rule => RuleMatch env rule (ResetRuleCache md)) rules).
Proof.
  intros Hi. apply eq_true_iff_eq. rewrite RuleMatch_produces. simpl.
  unfold logicalProduces. symmetry. apply inverting_produces. intros d.
  destruct (String.eqb mode LogicalTypeAnd).
  - rewrite allProduce_exists, forallb_forall. setoid_rewrite <- list_elem_of_In.
    split; intros Ha r Hr.
    + apply (RuleMatch_produces_normal d); auto.
    + apply <- (RuleMatch_produces_normal d); auto.
  - rewrite someProduces_exists, existsb_exists. setoid_rewrite <- list_elem_of_In.
    split; intros (r & Hr & Hm); exists r; (split; [done|]);
      by apply (RuleMatch_produces_normal d).
Qed.

(** The rule with [invert] switched. *)
Definition switchInvert (rule : HeadlessRule) : HeadlessRule :=
  match rule with
  | DefaultRule r =>
      DefaultRule (mkDefaultRule (items r) (sourceAddressItems r) (sourcePortItems r)
        (destinationAddressItems r) (destinationIPCIDRItems r) (destinationPortItems r)
        (allItems r) (ruleSetItem r) (negb (invert r)))
  | LogicalRule mode rules inv => LogicalRule mode rules (negb inv)
  end.

Definition hasItems (rule : HeadlessRule) : bool :=
  match rule with DefaultRule r => nonempty (allItems r) | LogicalRule _ _ _ => true end.

Lemma inverting_negb (inv d : bool) (M : Meaning) md :
  (exists s, M d md ∅ s) \/ ~ (exists s, M d md ∅ s) ->
  (exists s, inverting (negb inv) M d md ∅ s) <->
  ~ exists s, inverting inv M (negb d) md ∅ s.
Proof.
  intros Hdec. unfold inverting. rewrite negb_involutive. destruct inv; simpl; split.
  - intros HM (s & _ & Hno). by apply Hno.
  - intros Hno. destruct Hdec as [?|Hn]; [done|]. exfalso. apply Hno. by exists ∅.
  - by intros (s & _ & Hno).
  - intros Hno. by exists ∅.
Qed.

Lemma produces_dec d rule md :
  (exists s, Produces env rule d md ∅ s) \/ ~ (exists s, Produces env rule d md ∅ s).
Proof. rewrite <- reading_produces. destruct (negb _); auto. Qed.

(** A rule that has items and its inverse: one of the two is not inverted, so both
    come from one meaning. *)
Lemma switchInvert_produces rule d md :
  hasItems rule = true ->
  (exists s, Produces env (switchInvert rule) d md ∅ s) <->
  ~ exists s, Produces env rule (negb d) md ∅ s.
Proof.
  intros Hh.
  assert (exists M inv, Produces env rule = inverting inv M /\
                        Produces env (switchInvert rule) = inverting (negb inv) M)
    as (M & inv & E1 & E2).
  { destruct rule as [r|mode rules inv]; simpl in Hh |- *; [|by eexists _, _].
    unfold defaultProduces. simpl. rewrite Hh. by exists (defaultPlain env (SetProduces env) r), (invert r). }
  assert (Hdec : (exists s, M d md ∅ s) \/ ~ (exists s, M d md ∅ s)).
  { pose proof (produces_dec d rule md) as H1.
    pose proof (produces_dec d (switchInvert rule) md) as H2.
    rewrite E1 in H1. rewrite E2 in H2. unfold inverting in H1, H2. by destruct inv. }
  rewrite E1, E2. by apply inverting_negb.
Qed.

Lemma definitely_RuleMatch rule md : definitely rule md = true -> RuleMatch env rule md = true.
Proof.
  unfold definitely, RuleMatch, matchStates. rewrite !negb_true_iff.
  pose proof (sound_good _ (proj1 (evaluation_sound env) rule) md 0 isState_0) as Hg.
  intros (x & Hx & Hc)%isEmpty_false; [|apply Hg].
  apply isEmpty_false; [apply Hg|]. exists x. split; [done|]. by apply Hg.
Qed.

(** C13. For a rule that has items, also through rule sets and nested logical rules, the
    rule with [invert] switched matches exactly when the rule does not definitely match,
    and definitely matches exactly when the rule does not match at all.  A definite match
    is a match, so a rule and its inverse never both fail; when no destination address is
    deferred a match is definite and switching [invert] negates the result. *)
Theorem switch_invert_negates rule md :
  hasItems rule = true ->
  RuleMatch env (switchInvert rule) md = negb (definitely rule md) /\
  definitely (switchInvert rule) md = negb (RuleMatch env rule md) /\
  (definitely rule md = true -> RuleMatch env rule md = true) /\
  (IgnoreDestinationIPCIDRMatch md = false ->
   definitely rule md = RuleMatch env rule md /\
   RuleMatch env (switchInvert rule) md = negb (RuleMatch env rule md)).
Proof.
  intros Hh.
  assert (E : RuleMatch env (switchInvert rule) md = negb (definitely rule md)).
  { apply eq_true_iff_eq. rewrite negb_true_iff, <- not_true_iff_false.
    rewrite RuleMatch_produces, definitely_produces. by apply (switchInvert_produces _ false). }
  split_and!; [done| |apply definitely_RuleMatch|].
  - apply eq_true_iff_eq. rewrite negb_true_iff, <- not_true_iff_false.
    rewrite RuleMatch_produces, definitely_produces. by apply (switchInvert_produces _ true).
  - intros Hi. rewrite E, definitely_normal by done. done.
Qed.

(** ** Rule sets *)

Definition setRules (s : RuleSet) : list HeadlessRule :=
  match s with LocalRuleSet _ rules _ => rules end.

(** A rule of a set as files usually hold them: conditions, not inverted, and no rule
    sets of its own (the headless rules of a file cannot have any). *)
Definition conditionRule (h : HeadlessRule) (r : abstractDefaultRule RuleSet) : Prop :=
  h = DefaultRule r /\ ruleSetItem r = None /\ invert r = false /\ nonempty (allItems r) = true.

(** The context in which the rules of a set are evaluated. *)
Definition setContext (it : RuleSetItem RuleSet) (md : InboundContext) : InboundContext :=
  ResetRuleMatchCache
    (setIPCIDR (ResetRuleMatchCache md) (ipCidrMatchSource it) (ipCidrAcceptEmpty it)).

(** The conditions of two rules merged: each group one of them has a condition for is
    satisfied by one of them. *)
Definition mergedHold (r : abstractDefaultRule RuleSet) (md : InboundContext)
    (r' : abstractDefaultRule RuleSet) (md' : InboundContext) : Prop :=
  forall g, requires r md g = true \/ requires r' md' g = true ->
            satisfies env r md g = true \/ satisfies env r' md' g = true.

Lemma conditionRule_produces h r md B s :
  conditionRule h r ->
  Produces env h false md B s <->
  allItemsMatch env r md /\ s = B ∪ satisfied env r md /\
  forall g, requires r md g = true -> g ∈ s.
Proof.
  intros (-> & Hrs & Hinv & Hall). simpl. unfold defaultProduces, inverting, defaultPlain.
  rewrite Hall, Hinv, Hrs. intuition discriminate.
Qed.

(** C2. A rule with rule sets that is not inverted and has items, all of whose sets hold
    plain condition rules ([conditionRule]), matches, for any connection, exactly when
    its own ungrouped items match and some rule of one of the sets, evaluated with the
    set's [ip_cidr] flags, can be merged with it: the ungrouped items of the inner rule
    match, and every address or port group that either rule constrains is satisfied by
    one of the two (a destination matched by the rule set satisfies the outer rule's
    destination condition and the other way round). *)
Theorem rule_set_merge_formula r it md :
  ruleSetItem r = Some it -> invert r = false -> nonempty (allItems r) = true ->
  (forall rs h, rs ∈ setList it -> h ∈ setRules rs -> exists r', conditionRule h r') ->
  RuleMatch env (DefaultRule r) md = true <->
  allItemsMatch env r md /\
  exists rs h r', rs ∈ setList it /\ h ∈ setRules rs /\ conditionRule h r' /\
    allItemsMatch env r' (setContext it md) /\ mergedHold r md r' (setContext it md).
Proof.
  intros Hrs Hinv Hall Hplain. rewrite RuleMatch_produces. simpl.
  unfold defaultProduces, inverting. rewrite Hall, Hinv. unfold defaultPlain. rewrite Hrs.
  rewrite (left_id_L ∅ (∪)). unfold itemProduces. split.
  - intros (s & Hit & Hs & Hreq & _). split; [done|].
    apply someProduces_elem in Hs as (rs & Hrsin & Hs). destruct rs as [tag rules rmd].
    simpl in Hs. apply someProduces_elem in Hs as (h & Hh & Hs).
    destruct (Hplain _ _ Hrsin Hh) as [r' Hr'].
    apply (conditionRule_produces _ _ _ _ _ Hr') in Hs as (Hit' & -> & Hreq').
    exists (LocalRuleSet tag rules rmd), h, r'. split_and!; [done..|]. intros g Hg.
    rewrite <- !elem_of_satisfied, <- elem_of_union. destruct Hg; auto.
  - intros (Hit & rs & h & r' & Hrsin & Hh & Hr' & Hit' & Hm).
    exists (satisfied env r md ∪ satisfied env r' (setContext it md)).
    split_and!; [done| | |done].
    + apply someProduces_elem. exists rs. split; [done|]. destruct rs as [tag rules rmd].
      apply someProduces_elem. exists h. split; [done|].
      apply (conditionRule_produces _ _ _ _ _ Hr'). split_and!; [done..|].
      intros g Hg. rewrite elem_of_union, !elem_of_satisfied. auto.
    + intros g Hg. rewrite elem_of_union, !elem_of_satisfied. auto.
Qed.
End formulas.
