(* ===== verification/RuleBuild.v ===== *)
(** * Building rules from options ([route/rule/rule_default.go], [rule_dns.go],
      [rule_headless.go])

    Each constructor runs through the options in a fixed order; an option that is set
    builds an item, which is appended to [allItems] and to the list of its condition
    group.  A [Part] is one such step: the group, and the item, nothing when the option
    is not set, or the error that ends the construction. *)

From S2P Require Import Prelude MatchState Netip Context RuleItem Options RuleActions.
From S2P Require Import RuleAbstract.

(** The list of the rule an item goes to. *)
Inductive Kind :=
  | KItem | KSourceAddress | KSourcePort | KDestinationAddress | KDestinationIPCIDR
  | KDestinationPort.

#[export] Instance Kind_eq_dec : EqDecision Kind.
Proof. solve_decision. Defined.

Section build.
Context `{External} `{DomainMatching} `{DirectDialer}.

Definition emptyRule (inv : bool) : abstractDefaultRule RuleSet :=
  mkDefaultRule [] [] [] [] [] [] [] None inv.

(** [rule.xItems = append(rule.xItems, item); rule.allItems = append(rule.allItems, item)] *)
Definition appendItem (k : Kind) (it : RuleItem) (r : abstractDefaultRule RuleSet)
    : abstractDefaultRule RuleSet :=
  let on k' l := if decide (k = k') then l ++ [it] else l in
  mkDefaultRule (on KItem (items r)) (on KSourceAddress (sourceAddressItems r))
    (on KSourcePort (sourcePortItems r)) (on KDestinationAddress (destinationAddressItems r))
    (on KDestinationIPCIDR (destinationIPCIDRItems r))
    (on KDestinationPort (destinationPortItems r))
    (allItems r ++ [PlainItem it]) (ruleSetItem r) (invert r).

(** [rule.ruleSetItem = item; rule.allItems = append(rule.allItems, item)] *)
Definition appendRuleSet (it : RuleSetItem RuleSet) (r : abstractDefaultRule RuleSet)
    : abstractDefaultRule RuleSet :=
  mkDefaultRule (items r) (sourceAddressItems r) (sourcePortItems r)
    (destinationAddressItems r) (destinationIPCIDRItems r) (destinationPortItems r)
    (allItems r ++ [TheRuleSetItem]) (Some it) (invert r).

Definition Part : Type := Kind * result (option RuleItem).

(** [if guard { item, err := mk; ... }] *)
Definition part (k : Kind) (guard : bool) (mk : result RuleItem) : Part :=
  (k, if guard then it ← mk; Ok (Some it) else Ok None).

(** [if len(option) > 0 { item := ctor(option); ... }], and with a constructor that can
    fail *)
Definition listPart {A} (k : Kind) (option : slice A) (ctor : list A -> RuleItem) : Part :=
  part k (nonempty (elems option)) (Ok (ctor (elems option))).

Definition listPartR {A} (k : Kind) (option : slice A) (ctor : list A -> result RuleItem) : Part :=
  part k (nonempty (elems option)) (ctor (elems option)).

(** [if guard { return nil, E.New(...) }] *)
Definition refuse (guard : bool) (message : string) : Part :=
  (KItem, if guard then Err message else Ok None).

Fixpoint assemble (parts : list Part) (r : abstractDefaultRule RuleSet)
    : result (abstractDefaultRule RuleSet) :=
  match parts with
  | [] => Ok r
  | (k, p) :: rest =>
      o ← p;
      assemble rest (match o with Some it => appendItem k it r | None => r end)
  end.

(** [switch options.IPVersion { case 4, 6: ... default: error }] *)
Definition ipVersionItem (v : Z) : result RuleItem :=
  if (v =? 4) || (v =? 6) then Ok (NewIPVersionItem (v =? 6))
  else Err ("invalid ip version: " +:+ pretty v)%string.

Definition geositeRemoved : string :=
  "geosite database is deprecated in sing-box 1.8.0 and removed in sing-box 1.12.0".
Definition geoipRemoved : string :=
  "geoip database is deprecated in sing-box 1.8.0 and removed in sing-box 1.12.0".
Definition rulesetRemoved : string :=
  "rule_set_ipcidr_match_source is deprecated in sing-box 1.10.0 and removed in sing-box 1.11.0".

Definition NewRuleSetItem (tags : list string) (matchSource acceptEmpty : bool)
    : RuleSetItem RuleSet :=
  mkRuleSetItem tags [] matchSource acceptEmpty.

(** The last step: the rule set item. *)
Definition attachRuleSets (tags : list string) (deprecated matchSource acceptEmpty : bool)
    (r : abstractDefaultRule RuleSet) : result (abstractDefaultRule RuleSet) :=
  if negb (nonempty tags) then Ok r
  else if deprecated then Err rulesetRemoved
  else Ok (appendRuleSet (NewRuleSetItem tags matchSource acceptEmpty) r).

Section defaultRuleParts_section.
Import RawDefaultRule.

(** The items of [NewDefaultRule], in the order of the source: those about the
    connection, then those about the process and the device. *)
Definition defaultConnectionParts (o : RawDefaultRule.t) : list Part :=
   [ listPart KItem (Inbound o) NewInboundRule
   ; part KItem (0 <? IPVersion o) (ipVersionItem (IPVersion o))
   ; listPart KItem (Network o) NewNetworkItem
   ; listPart KItem (AuthUser o) NewAuthUserItem
   ; listPart KItem (Protocol o) NewProtocolItem
   ; listPart KItem (Client o) NewClientItem
   ; part KDestinationAddress (nonempty (elems (Domain o)) || nonempty (elems (DomainSuffix
       o))) (NewDomainItem (elems (Domain o)) (elems (DomainSuffix o)))
   ; listPart KDestinationAddress (DomainKeyword o) NewDomainKeywordItem
   ; listPartR KDestinationAddress (DomainRegex o) NewDomainRegexItem
   ; refuse (nonempty (elems (Geosite o))) geositeRemoved
   ; refuse (nonempty (elems (SourceGeoIP o))) geoipRemoved
   ; refuse (nonempty (elems (GeoIP o))) geoipRemoved
   ; listPartR KSourceAddress (SourceIPCIDR o) (fun l => causing "source_ip_cidr"
       (NewIPCIDRItem true l))
   ; part KSourceAddress (SourceIPIsPrivate o) (Ok (NewIPIsPrivateItem true))
   ; listPartR KDestinationIPCIDR (IPCIDR o) (fun l => causing "ipcidr" (NewIPCIDRItem false
       l))
   ; part KDestinationIPCIDR (IPIsPrivate o) (Ok (NewIPIsPrivateItem false))
   ; listPart KSourcePort (SourcePort o) (NewPortItem true)
   ; listPartR KSourcePort (SourcePortRange o) (fun l => causing "source_port_range"
       (NewPortRangeItem true l))
   ; listPart KDestinationPort (Port o) (NewPortItem false)
   ; listPartR KDestinationPort (PortRange o) (fun l => causing "port_range" (NewPortRangeItem
       false l)) ].

Definition defaultDeviceParts (o : RawDefaultRule.t) : list Part :=
   [ listPart KItem (TunnelSource o) NewTunnelSourceItem
   ; listPart KItem (TunnelDestination o) NewTunnelDestinationItem
   ; listPart KItem (ProcessName o) NewProcessItem
   ; listPart KItem (ProcessPath o) NewProcessPathItem
   ; listPartR KItem (ProcessPathRegex o) (fun l => causing "process_path_regex"
       (NewProcessPathRegexItem l))
   ; listPart KItem (PackageName o) NewPackageNameItem
   ; listPart KItem (User o) NewUserItem
   ; listPart KItem (UserID o) NewUserIDItem
   ; part KItem (negb (String.eqb (ClashMode o) "")) (Ok (NewClashModeItem (ClashMode o)))
   ; listPart KItem (NetworkType o) NewNetworkTypeItem
   ; part KItem (NetworkIsExpensive o) (Ok NewNetworkIsExpensiveItem)
   ; part KItem (NetworkIsConstrained o) (Ok NewNetworkIsConstrainedItem)
   ; listPart KItem (WIFISSID o) NewWIFISSIDItem
   ; listPart KItem (WIFIBSSID o) NewWIFIBSSIDItem
   ; listPart KItem (InterfaceAddress o) NewInterfaceAddressItem
   ; listPart KItem (NetworkInterfaceAddress o) NewNetworkInterfaceAddressItem
   ; listPart KItem (DefaultInterfaceAddress o) NewDefaultInterfaceAddressItem
   ; listPart KItem (PreferredBy o) NewPreferredByItem ].

Definition defaultRuleParts (o : RawDefaultRule.t) : list Part :=
  defaultConnectionParts o ++ defaultDeviceParts o.
End defaultRuleParts_section.

Definition NewDefaultRule (o : RawDefaultRule.t) (a : RuleAction.t)
    : result (abstractDefaultRule RuleSet * option Action) :=
  action ← causing "action" (NewRuleAction a);
  rule ← assemble (defaultRuleParts o) (emptyRule (RawDefaultRule.Invert o));
  rule ← attachRuleSets (elems (RawDefaultRule.RuleSet o))
           (RawDefaultRule.Deprecated_RulesetIPCIDRMatchSource o)
           (RawDefaultRule.RuleSetIPCIDRMatchSource o) false rule;
  Ok (rule, action).

Section defaultDNSRuleParts_section.
Import RawDefaultDNSRule.

(** The items of [NewDefaultDNSRule], in the same two halves. *)
Definition dnsConnectionParts (o : RawDefaultDNSRule.t) : list Part :=
   [ listPart KItem (Inbound o) NewInboundRule
   ; part KItem (0 <? IPVersion o) (ipVersionItem (IPVersion o))
   ; listPart KItem (QueryType o) NewQueryTypeItem
   ; listPart KItem (Network o) NewNetworkItem
   ; listPart KItem (AuthUser o) NewAuthUserItem
   ; listPart KItem (Protocol o) NewProtocolItem
   ; part KDestinationAddress (nonempty (elems (Domain o)) || nonempty (elems (DomainSuffix
       o))) (NewDomainItem (elems (Domain o)) (elems (DomainSuffix o)))
   ; listPart KDestinationAddress (DomainKeyword o) NewDomainKeywordItem
   ; listPartR KDestinationAddress (DomainRegex o) (fun l => causing "domain_regex"
       (NewDomainRegexItem l))
   ; refuse (nonempty (elems (Geosite o))) geositeRemoved
   ; refuse (nonempty (elems (SourceGeoIP o))) geoipRemoved
   ; refuse (nonempty (elems (GeoIP o))) geoipRemoved
   ; listPartR KSourceAddress (SourceIPCIDR o) (fun l => causing "source_ip_cidr"
       (NewIPCIDRItem true l))
   ; listPartR KDestinationIPCIDR (IPCIDR o) (fun l => causing "ip_cidr" (NewIPCIDRItem false
       l))
   ; part KSourceAddress (SourceIPIsPrivate o) (Ok (NewIPIsPrivateItem true))
   ; part KDestinationIPCIDR (IPIsPrivate o) (Ok (NewIPIsPrivateItem false))
   ; part KDestinationIPCIDR (IPAcceptAny o) (Ok NewIPAcceptAnyItem)
   ; listPart KSourcePort (SourcePort o) (NewPortItem true)
   ; listPartR KSourcePort (SourcePortRange o) (fun l => causing "source_port_range"
       (NewPortRangeItem true l))
   ; listPart KDestinationPort (Port o) (NewPortItem false)
   ; listPartR KDestinationPort (PortRange o) (fun l => causing "port_range" (NewPortRangeItem
       false l)) ].

Definition dnsDeviceParts (o : RawDefaultDNSRule.t) : list Part :=
   [ listPart KItem (TunnelSource o) NewTunnelSourceItem
   ; listPart KItem (TunnelDestination o) NewTunnelDestinationItem
   ; listPart KItem (ProcessName o) NewProcessItem
   ; listPart KItem (ProcessPath o) NewProcessPathItem
   ; listPartR KItem (ProcessPathRegex o) (fun l => causing "process_path_regex"
       (NewProcessPathRegexItem l))
   ; listPart KItem (PackageName o) NewPackageNameItem
   ; listPart KItem (User o) NewUserItem
   ; listPart KItem (UserID o) NewUserIDItem
   ; listPart KItem (Outbound o) NewOutboundRule
   ; part KItem (negb (String.eqb (ClashMode o) "")) (Ok (NewClashModeItem (ClashMode o)))
   ; listPart KItem (NetworkType o) NewNetworkTypeItem
   ; part KItem (NetworkIsExpensive o) (Ok NewNetworkIsExpensiveItem)
   ; part KItem (NetworkIsConstrained o) (Ok NewNetworkIsConstrainedItem)
   ; listPart KItem (WIFISSID o) NewWIFISSIDItem
   ; listPart KItem (WIFIBSSID o) NewWIFIBSSIDItem
   ; listPart KItem (InterfaceAddress o) NewInterfaceAddressItem
   ; listPart KItem (NetworkInterfaceAddress o) NewNetworkInterfaceAddressItem
   ; listPart KItem (DefaultInterfaceAddress o) NewDefaultInterfaceAddressItem ].

Definition defaultDNSRuleParts (o : RawDefaultDNSRule.t) : list Part :=
  dnsConnectionParts o ++ dnsDeviceParts o.
End defaultDNSRuleParts_section.

Definition NewDefaultDNSRule (o : RawDefaultDNSRule.t) (a : DNSRuleAction.t)
    : result (abstractDefaultRule RuleSet * option Action) :=
  action ← NewDNSRuleAction a;
  rule ← assemble (defaultDNSRuleParts o) (emptyRule (RawDefaultDNSRule.Invert o));
  rule ← attachRuleSets (elems (RawDefaultDNSRule.RuleSet o))
           (RawDefaultDNSRule.Deprecated_RulesetIPCIDRMatchSource o)
           (RawDefaultDNSRule.RuleSetIPCIDRMatchSource o)
           (RawDefaultDNSRule.RuleSetIPCIDRAcceptEmpty o) rule;
  Ok (rule, action).

(** [else if raw != nil { item := ctor(raw); ... }] after a part with guard [given] *)
Definition rawPart {A} (k : Kind) (given : bool) (ctor : A -> RuleItem) (raw : option A) : Part :=
  (k, if given then Ok None else Ok (ctor <$> raw)).

Section headlessRuleParts_section.
Import DefaultHeadlessRule.

(** The items of [NewDefaultHeadlessRule]; those about the network only with a network
    manager. *)
Definition headlessConnectionParts (o : DefaultHeadlessRule.t) : list Part :=
   [ listPart KItem (QueryType o) NewQueryTypeItem
   ; listPart KItem (Network o) NewNetworkItem
   ; part KDestinationAddress (nonempty (elems (Domain o)) || nonempty (elems (DomainSuffix
       o))) (NewDomainItem (elems (Domain o)) (elems (DomainSuffix o)))
   ; rawPart KDestinationAddress (nonempty (elems (Domain o)) || nonempty (elems (DomainSuffix
       o))) NewRawDomainItem (DomainMatcher o)
   ; listPart KDestinationAddress (DomainKeyword o) NewDomainKeywordItem
   ; listPartR KDestinationAddress (DomainRegex o) (fun l => causing "domain_regex"
       (NewDomainRegexItem l))
   ; listPartR KSourceAddress (SourceIPCIDR o) (fun l => causing "source_ip_cidr"
       (NewIPCIDRItem true l))
   ; rawPart KSourceAddress (nonempty (elems (SourceIPCIDR o))) (NewRawIPCIDRItem true)
       (SourceIPSet o)
   ; listPartR KDestinationIPCIDR (IPCIDR o) (fun l => causing "ipcidr" (NewIPCIDRItem false
       l))
   ; rawPart KDestinationIPCIDR (nonempty (elems (IPCIDR o))) (NewRawIPCIDRItem false) (IPSet_
       o)
   ; listPart KSourcePort (SourcePort o) (NewPortItem true)
   ; listPartR KSourcePort (SourcePortRange o) (fun l => causing "source_port_range"
       (NewPortRangeItem true l))
   ; listPart KDestinationPort (Port o) (NewPortItem false)
   ; listPartR KDestinationPort (PortRange o) (fun l => causing "port_range" (NewPortRangeItem
       false l)) ].

Definition headlessDeviceParts (networkManager : bool) (o : DefaultHeadlessRule.t) : list Part :=
   [ listPart KItem (TunnelSource o) NewTunnelSourceItem
   ; listPart KItem (TunnelDestination o) NewTunnelDestinationItem
   ; listPart KItem (ProcessName o) NewProcessItem
   ; listPart KItem (ProcessPath o) NewProcessPathItem
   ; listPartR KItem (ProcessPathRegex o) (fun l => causing "process_path_regex"
       (NewProcessPathRegexItem l))
   ; listPart KItem (PackageName o) NewPackageNameItem ]
  ++ (if networkManager then
   [ listPart KItem (NetworkType o) NewNetworkTypeItem
   ; part KItem (NetworkIsExpensive o) (Ok NewNetworkIsExpensiveItem)
   ; part KItem (NetworkIsConstrained o) (Ok NewNetworkIsConstrainedItem)
   ; listPart KItem (WIFISSID o) NewWIFISSIDItem
   ; listPart KItem (WIFIBSSID o) NewWIFIBSSIDItem
   ; listPart KItem (NetworkInterfaceAddress o) NewNetworkInterfaceAddressItem
   ; listPart KItem (DefaultInterfaceAddress o) NewDefaultInterfaceAddressItem ]
      else [])
  ++
   [ listPart KDestinationAddress (AdGuardDomain o) NewAdGuardDomainItem
   ; rawPart KDestinationAddress (nonempty (elems (AdGuardDomain o))) NewRawAdGuardDomainItem
       (AdGuardDomainMatcher o) ].

Definition headlessRuleParts (networkManager : bool) (o : DefaultHeadlessRule.t) : list Part :=
  headlessConnectionParts o ++ headlessDeviceParts networkManager o.
End headlessRuleParts_section.

Definition NewDefaultHeadlessRule (networkManager : bool) (o : DefaultHeadlessRule.t)
    : result (abstractDefaultRule RuleSet) :=
  assemble (headlessRuleParts networkManager o) (emptyRule (DefaultHeadlessRule.Invert o)).
End build.

(** ** Rules of any type *)

Section any_rule.
Context `{External} `{DomainMatching} `{DirectDialer}.

(** A rule with its action; a headless rule has none. *)
Record BuiltRule := mkBuiltRule { builtRule : HeadlessRule; builtAction : option Action }.

Definition unknownMode (mode : string) : string := ("unknown logical mode: " +:+ mode)%string.

(** The loop over sub rules, with the index in the error. *)
Section sub_rules.
Context {O : Type} (new : O -> result BuiltRule).

Fixpoint subRules (i : nat) (l : list O) : result (list HeadlessRule) :=
  match l with
  | [] => Ok []
  | o :: rest =>
      rule ← causing ("sub rule[" +:+ indexText i +:+ "]")%string (new o);
      rules ← subRules (S i) rest;
      Ok (builtRule rule :: rules)
  end.
End sub_rules.

(** [NewRule], [NewDNSRule] and [NewHeadlessRule] follow one scheme: [newDefault] builds
    a default rule and [newAction] the action of a logical one, [target] is the outbound
    or server of an action that routes, which [checkTarget] requires. *)
Section scheme.
Context {D A : Type}.
Context (zeroD : D -> bool) (zeroA : A -> bool) (acceptEmptyType : bool) (unknownType : string).
Context (newDefault : D -> A -> result BuiltRule) (newAction : A -> result (option Action)).
Context (target : A -> option string) (missingTarget : string).

Definition targetMissing (checkTarget : bool) (a : A) : bool :=
  checkTarget && bool_decide (target a = Some ""%string).

Fixpoint newRule (checkTarget : bool) (o : RuleOptions D A) : result BuiltRule :=
  match o with
  | mkRuleOptions ty defaultOptions logicalOptions =>
      if String.eqb ty "" || String.eqb ty RuleTypeDefault then
        if negb (DefaultIsValid zeroD zeroA defaultOptions) then Err "missing conditions"
        else if targetMissing checkTarget defaultOptions.2 then Err missingTarget
        else newDefault defaultOptions.1 defaultOptions.2
      else if String.eqb ty RuleTypeLogical then
        valid ← LogicalIsValid zeroD zeroA acceptEmptyType unknownType logicalOptions;
        if negb valid then Err "missing conditions"
        else newLogical checkTarget logicalOptions
      else Err ("unknown rule type: " +:+ ty)%string
  end
with newLogical (checkTarget : bool) (l : LogicalOptions_ D A) : result BuiltRule :=
  match l with
  | mkLogicalOptions mode rules inv a =>
      if targetMissing checkTarget a then Err missingTarget
      else
        action ← newAction a;
        if String.eqb mode LogicalTypeAnd || String.eqb mode LogicalTypeOr then
          sub ← subRules (newRule false) 0 rules;
          Ok (mkBuiltRule (LogicalRule mode sub inv) action)
        else Err (unknownMode mode)
  end.
End scheme.

(** The outbound of a [route] action, which is also the action when none is named. *)
Definition routeTarget (a : RuleAction.t) : option string :=
  if String.eqb (RuleAction.Action a) "" || String.eqb (RuleAction.Action a) RuleActionTypeRoute
  then Some (raoOutbound (RuleAction.RouteOptions a)) else None.

Definition dnsTarget (a : DNSRuleAction.t) : option string :=
  if String.eqb (DNSRuleAction.Action a) ""
     || String.eqb (DNSRuleAction.Action a) RuleActionTypeRoute
  then Some (DNSRuleAction.Server (DNSRuleAction.RouteOptions a)) else None.

Definition NewRule (options : RuleOptions RawDefaultRule.t RuleAction.t) (checkOutbound : bool)
    : result BuiltRule :=
  newRule RawDefaultRule.isZero RuleAction.isZero false "unknown rule type: "
    (fun o a => p ← NewDefaultRule o a; Ok (mkBuiltRule (DefaultRule p.1) p.2))
    (fun a => causing "action" (NewRuleAction a))
    routeTarget "missing outbound field" checkOutbound options.

Definition NewDNSRule (options : RuleOptions RawDefaultDNSRule.t DNSRuleAction.t)
    (checkServer : bool) : result BuiltRule :=
  newRule RawDefaultDNSRule.isZero DNSRuleAction.isZero false "unknown DNS rule type: "
    (fun o a => p ← NewDefaultDNSRule o a; Ok (mkBuiltRule (DefaultRule p.1) p.2))
    NewDNSRuleAction
    dnsTarget "missing server field" checkServer options.

(** A headless rule has no action and requires none. *)
Definition NewHeadlessRule (networkManager : bool)
    (options : RuleOptions DefaultHeadlessRule.t unit) : result BuiltRule :=
  newRule DefaultHeadlessRule.isZero (fun _ => true) true "unknown rule type: "
    (fun o _ => r ← NewDefaultHeadlessRule networkManager o; Ok (mkBuiltRule (DefaultRule r) None))
    (fun _ => Ok None)
    (fun _ => None) "" false options.
End any_rule.
