(* ===== verification/RuleBuildSpec.v ===== *)
(** * Which items a constructed rule has

    [assemble_spec] says which items end in which list of the rule, for any list of
    parts; [groupsHold_lists] reads the groups of a rule off its lists. *)

From S2P Require Import Prelude MatchState Netip Context RuleItem Options RuleActions.
From S2P Require Import RuleAbstract RuleSemantics RuleSpec RuleFormula RuleBuild.

Section spec.
Context `{External} `{DomainMatching} `{DirectDialer}.

(** The item a part contributes. *)
Definition partItem (p : Part) : option RuleItem :=
  match p.2 with Ok o => o | Err _ => None end.

Definition partItems (parts : list Part) : list RuleItem := omap partItem parts.

Definition kindItems (k : Kind) (parts : list Part) : list RuleItem :=
  partItems (filter (fun p => p.1 = k) parts).

(** The list of a rule for a kind. *)
Definition listOf (k : Kind) (r : abstractDefaultRule RuleSet) : list RuleItem :=
  match k with
  | KItem => items r
  | KSourceAddress => sourceAddressItems r
  | KSourcePort => sourcePortItems r
  | KDestinationAddress => destinationAddressItems r
  | KDestinationIPCIDR => destinationIPCIDRItems r
  | KDestinationPort => destinationPortItems r
  end.

Lemma listOf_appendItem k k' it r :
  listOf k (appendItem k' it r) = listOf k r ++ (if decide (k' = k) then [it] else []).
Proof. destruct k, k'; simpl; by rewrite ?app_nil_r. Qed.

Lemma kindItems_cons k p parts :
  kindItems k (p :: parts) =
  (if decide (p.1 = k) then option_list (partItem p) else []) ++ kindItems k parts.
Proof.
  unfold kindItems, partItems. rewrite filter_cons.
  destruct (decide (p.1 = k)); [|done]. simpl. by destruct (partItem p).
Qed.

(** Every item ends in its own list, in order, and nothing else changes. *)
Lemma assemble_spec parts r0 r :
  assemble parts r0 = Ok r ->
  (forall k, listOf k r = listOf k r0 ++ kindItems k parts) /\
  allItems r = allItems r0 ++ (PlainItem <$> partItems parts) /\
  ruleSetItem r = ruleSetItem r0 /\ invert r = invert r0.
Proof.
  revert r0. induction parts as [|[k p] parts IH]; intros r0; simpl.
  - intros [= <-]. rewrite app_nil_r. split_and!; [|done..].
    intros k. by rewrite app_nil_r.
  - destruct p as [o|e]; simpl; [|done]. intros (Hl & Ha & Hr & Hi)%IH. split_and!.
    + intros k'. rewrite Hl, kindItems_cons. unfold partItem. simpl. destruct o as [it|]; simpl.
      * rewrite listOf_appendItem, <- app_assoc. by destruct (decide (k = k')).
      * by destruct (decide (k = k')).
    + rewrite Ha. destruct o as [it|]; simpl; [|done]. by rewrite <- app_assoc.
    + rewrite Hr. by destruct o.
    + rewrite Hi. by destruct o.
Qed.

Lemma assembled_rule parts inv r :
  assemble parts (emptyRule inv) = Ok r ->
  (forall k, listOf k r = kindItems k parts) /\ allItems r = PlainItem <$> partItems parts /\
  ruleSetItem r = None /\ invert r = inv.
Proof.
  intros (Hl & Ha & Hr & Hi)%assemble_spec. split_and!; try done.
  intros k. rewrite Hl. by destruct k.
Qed.

Lemma assemble_parts_ok parts r0 r p :
  assemble parts r0 = Ok r -> p ∈ parts -> exists o, p.2 = Ok o.
Proof.
  revert r0. induction parts as [|[k q] parts IH]; intros r0 Ha Hp; [by apply elem_of_nil in Hp|].
  cbn [assemble] in Ha. apply bind_ok in Ha as (o & Hq & Ha).
  apply elem_of_cons in Hp as [->|Hp]; [by exists o|]. by eapply IH.
Qed.

(** A group is satisfied when it has no item or some item matches. *)
Definition groupMatches (env : Env) (its : list RuleItem) (md : InboundContext) : bool :=
  negb (nonempty its) || existsb (fun it => Match env it md) its.

Lemma nonempty_app {A} (l k : list A) : nonempty (l ++ k) = nonempty l || nonempty k.
Proof. by destruct l. Qed.

Lemma nonempty_fmap {A B} (f : A -> B) (l : list A) : nonempty (f <$> l) = nonempty l.
Proof. by destruct l. Qed.

Lemma groupsHold_lists env (r : abstractDefaultRule RuleSet) md :
  IgnoreDestinationIPCIDRMatch md = false -> IPCIDRMatchSource md = false ->
  groupsHold env r md =
  groupMatches env (sourceAddressItems r) md && groupMatches env (sourcePortItems r) md
  && groupMatches env (destinationAddressItems r ++ destinationIPCIDRItems r) md
  && groupMatches env (destinationPortItems r) md.
Proof.
  intros Hi Hs. unfold groupsHold, groupMatches. simpl.
  unfold requiresSourceAddressMatch, requiresDestinationAddressMatch,
    destinationIPCIDRMatchesSource, destinationIPCIDRMatchesDestination.
  rewrite Hi, Hs, existsb_app, nonempty_app. simpl. rewrite ?orb_false_r, ?andb_true_r.
  fold (matchAnyItem env (sourceAddressItems r) md) (matchAnyItem env (sourcePortItems r) md)
    (matchAnyItem env (destinationPortItems r) md)
    (matchAnyItem env (destinationAddressItems r) md)
    (matchAnyItem env (destinationIPCIDRItems r) md).
  destruct (nonempty (sourceAddressItems r)), (nonempty (sourcePortItems r)),
    (nonempty (destinationPortItems r)), (nonempty (destinationAddressItems r)),
    (nonempty (destinationIPCIDRItems r)); simpl; rewrite ?andb_assoc, ?andb_true_r;
    done.
Qed.

End spec.
