(* ===== verification/RuleSets.v ===== *)
(** * Rule sets, starting rules, and DNS rules ([route/rule/rule_set.go],
      [rule_set_local.go], [rule_item_rule_set.go], [rule_dns.go])

    A rule set is built from headless rules together with metadata that says which
    kinds of items its rules have.  Rules refer to rule sets by tag; [Start] resolves
    the tags.  A DNS rule is matched twice: before the query, when the addresses are
    not known, and on the response when [WithAddressLimit] says that its result depends
    on them. *)

From S2P Require Import Prelude MatchState Netip Context RuleItem Options RuleActions.
From S2P Require Import RuleAbstract RuleBuild.

Section rule_sets.
Context `{External} `{DomainMatching} `{DirectDialer}.

Definition HeadlessOptions : Type := RuleOptions DefaultHeadlessRule.t unit.

(** [HasHeadlessRule]: some default rule, at any depth, satisfies [cond]. *)
Section has.
Context (cond : DefaultHeadlessRule.t -> bool).

Fixpoint HasHeadlessRule_one (rule : HeadlessOptions) : bool :=
  match rule with
  | mkRuleOptions ty (defaultOptions, _) (mkLogicalOptions _ rules _ _) =>
      if String.eqb ty RuleTypeDefault then cond defaultOptions
      else if String.eqb ty RuleTypeLogical then existsb HasHeadlessRule_one rules
      else false
  end.

Definition HasHeadlessRule (rules : list HeadlessOptions) : bool :=
  existsb HasHeadlessRule_one rules.
End has.

Definition isProcessHeadlessRule (rule : DefaultHeadlessRule.t) : bool :=
  nonempty (elems (DefaultHeadlessRule.ProcessName rule))
  || nonempty (elems (DefaultHeadlessRule.ProcessPath rule))
  || nonempty (elems (DefaultHeadlessRule.ProcessPathRegex rule))
  || nonempty (elems (DefaultHeadlessRule.PackageName rule)).

Definition isWIFIHeadlessRule (rule : DefaultHeadlessRule.t) : bool :=
  nonempty (elems (DefaultHeadlessRule.WIFISSID rule))
  || nonempty (elems (DefaultHeadlessRule.WIFIBSSID rule)).

Definition isIPCIDRHeadlessRule (rule : DefaultHeadlessRule.t) : bool :=
  nonempty (elems (DefaultHeadlessRule.IPCIDR rule))
  || negb (isNil (DefaultHeadlessRule.IPSet_ rule)).

(** The loop of [reloadRules] *)
Fixpoint parseRules (networkManager : bool) (i : nat) (rules : list HeadlessOptions)
    : result (list HeadlessRule) :=
  match rules with
  | [] => Ok []
  | o :: rest =>
      rule ← causing ("parse rule_set.rules.[" +:+ indexText i +:+ "]")%string
               (NewHeadlessRule networkManager o);
      rules ← parseRules networkManager (S i) rest;
      Ok (builtRule rule :: rules)
  end.

(** [LocalRuleSet.reloadRules]: on an error the set keeps its old rules. *)
Definition reloadRules (networkManager : bool) (headlessRules : list HeadlessOptions)
    (tag : string) : result RuleSet :=
  rules ← parseRules networkManager 0 headlessRules;
  Ok (LocalRuleSet tag rules
        (mkRuleSetMetadata (HasHeadlessRule isProcessHeadlessRule headlessRules)
           (HasHeadlessRule isWIFIHeadlessRule headlessRules)
           (HasHeadlessRule isIPCIDRHeadlessRule headlessRules))).

Definition Metadata (s : RuleSet) : RuleSetMetadata :=
  match s with LocalRuleSet _ _ metadata => metadata end.

(** [LocalRuleSet.Cleanup] and [Close] drop the rules; the metadata stays. *)
Definition dropRules (s : RuleSet) : RuleSet :=
  match s with LocalRuleSet tag _ metadata => LocalRuleSet tag [] metadata end.

Definition Cleanup (refs : Z) (s : RuleSet) : RuleSet := if refs =? 0 then dropRules s else s.

(** [extractIPSetFromRule] *)
Fixpoint extractIPSetFromRule (rule : HeadlessRule) : list IPSet :=
  match rule with
  | DefaultRule r =>
      omap (fun it => match it with IPCIDRItem ipSet _ => Some ipSet | _ => None end)
        (destinationIPCIDRItems r)
  | LogicalRule _ rules _ => flat_map extractIPSetFromRule rules
  end.

Definition ExtractIPSet (s : RuleSet) : list IPSet :=
  match s with LocalRuleSet _ rules _ => flat_map extractIPSetFromRule rules end.

(** ** Starting rules *)

(** What [Start] finds in the context: the Clash server, the outbounds by tag with
    their preferred routes if their type has them, and the rule sets by tag. *)
Record StartContext := mkStartContext {
  hasClashServer : bool;
  startOutbound : string -> option (string * option PreferredRoutes);
  startRuleSet : string -> option RuleSet;
}.

Context (sc : StartContext).

Fixpoint resolvePreferred (tags : list string) : result (list PreferredRoutes) :=
  match tags with
  | [] => Ok []
  | outboundTag :: rest =>
      match startOutbound sc outboundTag with
      | None => Err ("outbound not found: " +:+ outboundTag)%string
      | Some (ty, None) =>
          Err ("outbound type does not support preferred routes: " +:+ ty)%string
      | Some (_, Some routes) => rs ← resolvePreferred rest; Ok (routes :: rs)
      end
  end.

(** The items with a [Start] method. *)
Definition startItem (it : RuleItem) : result RuleItem :=
  match it with
  | ClashModeItem _ mode => Ok (ClashModeItem (hasClashServer sc) mode)
  | PreferredByItem tags old =>
      new ← resolvePreferred tags; Ok (PreferredByItem tags (old ++ new))
  | _ => Ok it
  end.

Fixpoint resolveTags (tags : list string) : result (list RuleSet) :=
  match tags with
  | [] => Ok []
  | tag :: rest =>
      match startRuleSet sc tag with
      | None => Err ("rule-set not found: " +:+ tag)%string
      | Some s => ss ← resolveTags rest; Ok (s :: ss)
      end
  end.

(** [RuleSetItem.Start] appends to [setList]. *)
Definition startRuleSetItem (it : RuleSetItem RuleSet) : result (RuleSetItem RuleSet) :=
  sets ← resolveTags (tagList it);
  Ok (mkRuleSetItem (tagList it) (setList it ++ sets) (ipCidrMatchSource it)
        (ipCidrAcceptEmpty it)).

Definition startAnyItem (r : abstractDefaultRule RuleSet) (it : AnyItem) : result unit :=
  match it with
  | PlainItem it => _ ← startItem it; Ok tt
  | TheRuleSetItem =>
      match ruleSetItem r with
      | Some item => _ ← startRuleSetItem item; Ok tt
      | None => Ok tt
      end
  end.

(** [abstractDefaultRule.Start]: the items are started in the order of [allItems], which
    decides the error; the group lists hold the same objects and change with them. *)
Definition startDefault (r : abstractDefaultRule RuleSet) : result (abstractDefaultRule RuleSet) :=
  _ ← mapR (startAnyItem r) (allItems r);
  i ← mapR startItem (items r);
  sa ← mapR startItem (sourceAddressItems r);
  sp ← mapR startItem (sourcePortItems r);
  da ← mapR startItem (destinationAddressItems r);
  dc ← mapR startItem (destinationIPCIDRItems r);
  dp ← mapR startItem (destinationPortItems r);
  all ← mapR (fun it => match it with
                        | PlainItem it => it' ← startItem it; Ok (PlainItem it')
                        | TheRuleSetItem => Ok TheRuleSetItem
                        end) (allItems r);
  rs ← (match ruleSetItem r with
        | Some item => item' ← startRuleSetItem item; Ok (Some item')
        | None => Ok None
        end);
  Ok (mkDefaultRule i sa sp da dc dp all rs (invert r)).

Section start_list.
Context (start : HeadlessRule -> result HeadlessRule).

Fixpoint startList (rules : list HeadlessRule) : result (list HeadlessRule) :=
  match rules with
  | [] => Ok []
  | rule :: rest => rule' ← start rule; rest' ← startList rest; Ok (rule' :: rest')
  end.
End start_list.

Fixpoint startRule (rule : HeadlessRule) : result HeadlessRule :=
  match rule with
  | DefaultRule r => r' ← startDefault r; Ok (DefaultRule r')
  | LogicalRule mode rules inv => rules' ← startList startRule rules; Ok (LogicalRule mode rules' inv)
  end.
End rule_sets.

(** ** DNS rules *)
Section dns_rules.
Context `{External} `{DomainMatching}.

(** [RuleSetItem.ContainsDestinationIPCIDRRule] *)
Definition ContainsDestinationIPCIDRRule (it : RuleSetItem RuleSet) : bool :=
  if ipCidrMatchSource it then false
  else existsb (fun s => ContainsIPCIDRRule (Metadata s)) (setList it).

(** [WithAddressLimit] of a default and of a logical DNS rule *)
Fixpoint WithAddressLimit (rule : HeadlessRule) : bool :=
  match rule with
  | DefaultRule r =>
      if nonempty (destinationIPCIDRItems r) then true
      else match ruleSetItem r with
           | Some ruleSet => ContainsDestinationIPCIDRRule ruleSet
           | None => false
           end
  | LogicalRule _ rules _ => existsb WithAddressLimit rules
  end.

Context (env : Env).

(** [Match] defers the destination addresses for the duration of the evaluation. *)
Definition DNSRule_Match (rule : HeadlessRule) (metadata : InboundContext)
    : bool * InboundContext :=
  let p := matchStates env rule (setIgnore metadata true) in
  (negb (isEmpty p.1), setIgnore p.2 false).

Definition MatchAddressLimit (rule : HeadlessRule) (metadata : InboundContext)
    : bool * InboundContext :=
  let p := matchStates env rule metadata in
  (negb (isEmpty p.1), p.2).
End dns_rules.
