(* ===== verification/RuleOptions.v ===== *)
(** * What a configured rule matches

    The documentation of route rules gives one formula over the options of a rule
    ([docs/configuration/route/rule.md]).  [routeFormula] writes it down over the options
    themselves, each option with its documented meaning, and [built_rule_formula] shows
    that a rule that was built and started decides exactly by it. *)

From S2P Require Import Prelude MatchState Netip Context RuleItem Options RuleActions.
From S2P Require Import RuleAbstract RuleSemantics RuleSpec RuleFormula RuleBuild RuleBuildSpec.
From S2P Require Import RuleSets.

(** An option of a rule: whether it is set, and whether it holds of a connection. *)
Definition Condition : Type := bool * bool.

Definition isSet (c : Condition) : bool := c.1.
Definition isMet (c : Condition) : bool := c.1 && c.2.

(** A group: no option of it is set, or one that is set holds. *)
Definition anyCondition (conditions : list Condition) : bool :=
  negb (existsb isSet conditions) || existsb isMet conditions.

(** The other fields: every option that is set holds. *)
Definition allConditions (conditions : list Condition) : bool :=
  forallb (fun c => implb c.1 c.2) conditions.

(** An option with several values holds when one of them does. *)
Definition oneOf {A} (option : slice A) (holds : A -> bool) : Condition :=
  (nonempty (elems option), existsb holds (elems option)).

Section formula.
Context `{External} `{DomainMatching} `{DirectDialer}.
Context (env : Env) (sc : StartContext).

(** The value of a text field is one of the listed ones. *)
Definition isText (value : string) : string -> bool := fun s => bool_decide (value = s).
Definition isNumber (value : Z) : Z -> bool := fun n => bool_decide (value = n).

(** The domain of the connection, in lower case, if it has one. *)
Definition onDomain (md : InboundContext) (holds : string -> bool) : bool :=
  negb (String.eqb (domainHost md) "") && holds (strings_ToLower (domainHost md)).

Definition regexHolds (text expression : string) : bool :=
  match regexp_Compile expression with Ok m => regexp_MatchString m text | Err _ => false end.

Definition inCIDRs (prefixes : list string) (address : Addr) : bool :=
  match parseCIDRs 0 prefixes ≫= IPSetBuilder_IPSet with
  | Ok ipSet => IPSet_Contains ipSet address
  | Err _ => false
  end.

Definition inPortRange (port : Z) (portRange : string) : bool :=
  match parsePortRange portRange with
  | Ok r => (rstart r <=? port) && (port <=? rend r)
  | Err _ => false
  end.

(** The addresses of the destination: the one of the connection, else those its domain
    was resolved to. *)
Definition destinationIPs (md : InboundContext) : list Addr :=
  if netip.IsValid (Addr_ (Destination md)) then [Addr_ (Destination md)]
  else DestinationAddresses md.

Definition onProcess (md : InboundContext) (holds : ConnectionOwner -> bool) : bool :=
  match ProcessInfo md with Some info => holds info | None => false end.

Definition onPath (md : InboundContext) (holds : string -> bool) : bool :=
  onProcess md (fun info => negb (String.eqb (ProcessPath info) "") && holds (ProcessPath info)).

Definition onDefaultInterface (holds : NetworkInterface -> bool) : bool :=
  match DefaultNetworkInterface env with Some ni => holds ni | None => false end.

(** [preferred_by]: an outbound of the list prefers the domain or an address. *)
Definition prefers (md : InboundContext) (tag : string) : bool :=
  match startOutbound sc tag with
  | Some (_, Some routes) =>
      (negb (String.eqb (domainHost md) "") && PreferredDomain routes (domainHost md))
      || existsb (PreferredAddress routes)
           ((if netip.IsValid (Addr_ (Destination md)) then [Addr_ (Destination md)] else [])
            ++ DestinationAddresses md)
  | _ => false
  end.

Section conditions.
Import RawDefaultRule.
Context (o : RawDefaultRule.t) (md : InboundContext).

Definition destinationConditions : list Condition :=
  [ (nonempty (elems (Domain o)) || nonempty (elems (DomainSuffix o)),
     onDomain md (Matcher_Match (NewMatcher (elems (Domain o)) (elems (DomainSuffix o)) false)))
  ; oneOf (DomainKeyword o) (fun keyword => onDomain md (fun d => strings_Contains d keyword))
  ; oneOf (DomainRegex o) (fun e => onDomain md (fun d => regexHolds d e))
  ; (nonempty (elems (IPCIDR o)), existsb (inCIDRs (elems (IPCIDR o))) (destinationIPs md))
  ; (IPIsPrivate o, existsb (fun a => negb (IsPublicAddr a)) (destinationIPs md)) ].

Definition destinationPortConditions : list Condition :=
  [ oneOf (Port o) (isNumber (Netip.Port (Destination md)))
  ; oneOf (PortRange o) (inPortRange (Netip.Port (Destination md))) ].

Definition sourceConditions : list Condition :=
  [ (nonempty (elems (SourceIPCIDR o)), inCIDRs (elems (SourceIPCIDR o)) (Addr_ (Source md)))
  ; (SourceIPIsPrivate o,
     netip.IsValid (Addr_ (Source md)) && negb (IsPublicAddr (Addr_ (Source md)))) ].

Definition sourcePortConditions : list Condition :=
  [ oneOf (SourcePort o) (isNumber (Netip.Port (Source md)))
  ; oneOf (SourcePortRange o) (inPortRange (Netip.Port (Source md))) ].

(** The other fields, first those about the connection, then those about the device. *)
Definition connectionConditions : list Condition :=
  [ oneOf (Inbound o) (isText (Context.Inbound md))
  ; (0 <? IPVersion o,
     negb (Context.IPVersion md =? 0) && Bool.eqb (Context.IPVersion md =? 6) (IPVersion o =? 6)
     || netip.IsValid (Addr_ (Destination md))
        && Bool.eqb (netip.Is6 (Addr_ (Destination md))) (IPVersion o =? 6))
  ; oneOf (Network o) (isText (Context.Network md))
  ; oneOf (AuthUser o) (isText (Context.User md))
  ; oneOf (Protocol o) (isText (Context.Protocol md))
  ; oneOf (Client o) (isText (Context.Client md)) ].

Definition deviceConditions : list Condition :=
  [ oneOf (TunnelSource o) (isText (Context.TunnelSource md))
  ; oneOf (TunnelDestination o) (isText (Context.TunnelDestination md))
  ; oneOf (ProcessName o) (fun s => onPath md (fun path => isText (filepath_Base path) s))
  ; oneOf (ProcessPath o) (fun s => onPath md (fun path => isText path s)
       || IsAndroid env && onProcess md (fun info => bool_decide (s ∈ AndroidPackageNames info)))
  ; oneOf (ProcessPathRegex o) (fun e => onPath md (fun path => regexHolds path e))
  ; oneOf (PackageName o) (fun s => onProcess md (fun info =>
       bool_decide (s ∈ AndroidPackageNames info)))
  ; oneOf (User o) (fun s => onProcess md (fun info =>
       negb (String.eqb (UserName info) "") && isText (UserName info) s))
  ; oneOf (UserID o) (fun n => onProcess md (fun info =>
       negb (UserId info =? -1) && isNumber (UserId info) n))
  ; (negb (String.eqb (ClashMode o) ""),
     hasClashServer sc && strings_EqualFold (default "" (ClashServer_Mode env)) (ClashMode o))
  ; oneOf (NetworkType o) (fun t => onDefaultInterface (fun ni => isNumber (niType ni) t))
  ; (NetworkIsExpensive o, onDefaultInterface niExpensive)
  ; (NetworkIsConstrained o, onDefaultInterface niConstrained)
  ; oneOf (WIFISSID o) (isText (WIFIState_SSID env))
  ; oneOf (WIFIBSSID o) (fun s => isText (WIFIState_BSSID env) (NormalizeWIFIBSSID s))
  ; (nonempty (elems (InterfaceAddress o)),
     Match env (NewInterfaceAddressItem (elems (InterfaceAddress o))) md)
  ; (nonempty (elems (NetworkInterfaceAddress o)),
     Match env (NewNetworkInterfaceAddressItem (elems (NetworkInterfaceAddress o))) md)
  ; (nonempty (elems (DefaultInterfaceAddress o)),
     match InterfaceMonitor_DefaultInterface env with
     | None => false
     | Some iface => forallb (fun p => existsb (prefix.Overlaps p) (ifAddresses iface))
                       (elems (DefaultInterfaceAddress o))
     end)
  ; oneOf (PreferredBy o) (prefers md) ].

(** (domain || domain_suffix || ... || ip_cidr || ip_is_private) && (port || port_range) &&
    (source_ip_cidr || source_ip_is_private) && (source_port || source_port_range) &&
    other fields *)
Definition routeFormula : bool :=
  let others := connectionConditions ++ deviceConditions in
  negb (existsb (fun g => existsb isSet g)
          [others; destinationConditions; destinationPortConditions; sourceConditions;
           sourcePortConditions])
  || xorb (Invert o)
       (anyCondition destinationConditions && anyCondition destinationPortConditions
        && anyCondition sourceConditions && anyCondition sourcePortConditions
        && allConditions others).
End conditions.

(** ** Parts and conditions *)

(** The condition a part stands for, once its item is started. *)
Definition denotes (md : InboundContext) (p : Part) (c : Kind * Condition) : Prop :=
  p.1 = c.1 /\
  match p.2 with
  | Ok (Some it) => c.2.1 = true /\ forall it', startItem sc it = Ok it' -> Match env it' md = c.2.2
  | Ok None => c.2.1 = false
  | Err _ => True
  end.

Definition ofKind (k : Kind) (cs : list (Kind * Condition)) : list Condition :=
  snd <$> filter (fun c => c.1 = k) cs.

Lemma denotes_part md k guard mk holds :
  (forall it it', guard = true -> mk = Ok it -> startItem sc it = Ok it' -> Match env it' md = holds) ->
  denotes md (part k guard mk) (k, (guard, holds)).
Proof.
  intros Hm. unfold denotes, part. destruct guard; simpl; [|done].
  destruct mk as [it|e]; simpl; [|done]. split_and!; [done..|]. intros it'. by apply Hm.
Qed.

(** An option with a list of values, whose item needs no start. *)
Lemma denotes_list {A} md k (option : slice A) ctor holds :
  startItem sc (ctor (elems option)) = Ok (ctor (elems option)) ->
  Match env (ctor (elems option)) md = existsb holds (elems option) ->
  denotes md (listPart k option ctor) (k, oneOf option holds).
Proof.
  intros Hs Hm. apply denotes_part. intros it it' _ [= <-]. rewrite Hs. by intros [= <-].
Qed.

Lemma denotes_refuse md guard message : denotes md (refuse guard message) (KItem, (false, true)).
Proof. unfold denotes, refuse. by destruct guard. Qed.

(** The items of a kind decide as the conditions of that kind. *)
Lemma started_conditions md k parts cs its :
  Forall2 (denotes md) parts cs -> Forall (fun p => exists o, p.2 = Ok o) parts ->
  mapR (startItem sc) (kindItems k parts) = Ok its ->
  nonempty its = existsb isSet (ofKind k cs) /\
  existsb (fun it => Match env it md) its = existsb isMet (ofKind k cs) /\
  forallb (fun it => Match env it md) its = allConditions (ofKind k cs).
Proof.
  intros HF. revert its. induction HF as [|p c parts cs [Hk Hp] HF IH]; intros its Hok.
  { intros [= <-]. done. }
  apply Forall_cons in Hok as [[o Ho] Hok]. rewrite kindItems_cons.
  unfold ofKind. rewrite filter_cons, <- Hk. unfold partItem. rewrite Ho in *.
  destruct (decide (p.1 = k)); [|by apply IH].
  destruct c as [k' [set holds]]; simpl in *. destruct o as [it|]; simpl.
  - destruct Hp as [-> Hm]. intros (it' & Hit & Hs)%bind_ok.
    apply bind_ok in Hs as (its' & Hs & [= <-]). destruct (IH _ Hok Hs) as (Hn & He & Hf).
    simpl. by rewrite He, Hf, (Hm _ Hit).
  - subst set. intros Hs. destruct (IH _ Hok Hs) as (Hn & He & Hf). simpl. by rewrite Hn, He, Hf.
Qed.

(** The conditions of [defaultRuleParts], in the order of the parts. *)
Definition partConditions (o : RawDefaultRule.t) (md : InboundContext) : list (Kind * Condition) :=
  let dst := destinationConditions o md in
  (pair KItem <$> connectionConditions o md) ++ (pair KDestinationAddress <$> take 3 dst) ++
  [(KItem, (false, true)); (KItem, (false, true)); (KItem, (false, true))] ++
  (pair KSourceAddress <$> sourceConditions o md) ++
  (pair KDestinationIPCIDR <$> drop 3 dst) ++
  (pair KSourcePort <$> sourcePortConditions o md) ++
  (pair KDestinationPort <$> destinationPortConditions o md) ++
  (pair KItem <$> deviceConditions o md).

Lemma compileAll_holds expressions : forall i ms text,
  compileAll i expressions = Ok ms ->
  existsb (fun m => regexp_MatchString m text) ms = existsb (regexHolds text) expressions.
Proof.
  induction expressions as [|e l IH]; intros i ms text; simpl; [by intros [= <-]|].
  unfold regexHolds at 1. destruct (regexp_Compile e) as [m|]; [|done].
  intros (ms' & Hms & [= <-])%bind_ok. simpl. f_equal. by eapply IH.
Qed.

Lemma parsePortRanges_hold port l ranges :
  mapR parsePortRange l = Ok ranges ->
  existsb (fun r => (rstart r <=? port) && (port <=? rend r)) ranges = existsb (inPortRange port) l.
Proof.
  intros HF%mapR_ok. induction HF as [|s r l ranges Hr HF IH]; [done|].
  simpl. rewrite IH. unfold inPortRange at 2. by rewrite Hr.
Qed.

Lemma resolved_prefers md tags routes :
  resolvePreferred sc tags = Ok routes ->
  PreferredByItem_Match routes md = existsb (prefers md) tags.
Proof.
  intros Hr. transitivity (existsb (fun r =>
    (negb (String.eqb (domainHost md) "") && PreferredDomain r (domainHost md))
    || existsb (PreferredAddress r)
         ((if netip.IsValid (Addr_ (Destination md)) then [Addr_ (Destination md)] else [])
          ++ DestinationAddresses md)) routes).
  - unfold PreferredByItem_Match, socksaddr.IsIP.
    rewrite existsb_or, existsb_and, <- orb_assoc. f_equal.
    destruct (netip.IsValid _); simpl; [rewrite existsb_or; f_equal|];
      by rewrite existsb_swap.
  - revert routes Hr. induction tags as [|tag tags IH]; intros routes; simpl; [by intros [= <-]|].
    unfold prefers at 1. destruct (startOutbound sc tag) as [[ty [r|]]|]; [|done..].
    intros (rs & Hrs & [= <-])%bind_ok. simpl. by rewrite (IH _ Hrs).
Qed.

(** ** Every part denotes its documented condition *)
Section denotations.
Context (o : RawDefaultRule.t) (md : InboundContext).
Hypothesis source_off : IPCIDRMatchSource md = false.
Hypothesis empty_off : IPCIDRAcceptEmpty md = false.

Lemma denotes_domain k domains suffixes guard :
  denotes md (part k guard (NewDomainItem domains suffixes))
    (k, (guard, onDomain md (Matcher_Match (NewMatcher domains suffixes false)))).
Proof.
  apply denotes_part. intros it it' _. unfold NewDomainItem. repeat case_bool_decide; [done..|].
  intros [= <-] [= <-]. simpl. unfold DomainItem_Match, onDomain. by destruct (String.eqb _ _).
Qed.

Lemma denotes_keyword k option :
  denotes md (listPart k option NewDomainKeywordItem)
    (k, oneOf option (fun keyword => onDomain md (fun d => strings_Contains d keyword))).
Proof.
  apply denotes_list; [done|]. simpl. unfold DomainKeywordItem_Match, onDomain.
  rewrite existsb_and. by destruct (String.eqb _ _).
Qed.

Lemma denotes_domain_regex k option :
  denotes md (listPartR k option NewDomainRegexItem)
    (k, oneOf option (fun e => onDomain md (fun d => regexHolds d e))).
Proof.
  apply denotes_part. intros it it' _ (ms & Hms & [= <-])%bind_ok [= <-]. simpl.
  unfold DomainRegexItem_Match, onDomain. rewrite existsb_and.
  destruct (String.eqb _ _); [done|]. simpl. by eapply compileAll_holds.
Qed.

Lemma denotes_process_regex k option :
  denotes md (listPartR k option (fun l => causing "process_path_regex" (NewProcessPathRegexItem l)))
    (k, oneOf option (fun e => onPath md (fun path => regexHolds path e))).
Proof.
  apply denotes_part. intros it it' _ (ms & Hms & [= <-])%causing_ok%bind_ok [= <-]. simpl.
  unfold ProcessPathRegexItem_Match, onPath, onProcess.
  destruct (ProcessInfo md) as [info|]; [|by rewrite existsb_never]. rewrite existsb_and.
  destruct (String.eqb _ _); [done|]. simpl. by eapply compileAll_holds.
Qed.

Lemma ipSet_inCIDRs l it isSource :
  NewIPCIDRItem isSource l = Ok it ->
  exists ipSet, it = IPCIDRItem ipSet isSource /\ forall a, IPSet_Contains ipSet a = inCIDRs l a.
Proof.
  unfold NewIPCIDRItem, inCIDRs. destruct (parseCIDRs 0 l) as [ps|]; simpl; [|done].
  intros (ipSet & Hs & [= <-])%bind_ok. exists ipSet. by rewrite Hs.
Qed.

Lemma denotes_source_cidr k option msg :
  denotes md (listPartR k option (fun l => causing msg (NewIPCIDRItem true l)))
    (k, (nonempty (elems option), inCIDRs (elems option) (Addr_ (Source md)))).
Proof.
  apply denotes_part. intros it it' _ (ipSet & -> & Hc)%causing_ok%ipSet_inCIDRs [= <-].
  simpl. unfold IPCIDRItem_Match. simpl. by rewrite Hc.
Qed.

Lemma denotes_destination_cidr k option msg :
  denotes md (listPartR k option (fun l => causing msg (NewIPCIDRItem false l)))
    (k, (nonempty (elems option), existsb (inCIDRs (elems option)) (destinationIPs md))).
Proof.
  apply denotes_part. intros it it' _ (ipSet & -> & Hc)%causing_ok%ipSet_inCIDRs [= <-].
  simpl. unfold IPCIDRItem_Match, destinationIPs, socksaddr.IsIP. rewrite source_off, empty_off.
  simpl. destruct (netip.IsValid _); simpl; [by rewrite Hc, orb_false_r|].
  destruct (DestinationAddresses md) as [|a l]; [done|]. by apply (existsb_ext' _ _ (a :: l)).
Qed.

Lemma denotes_ranges k isSource option msg :
  denotes md (listPartR k option (fun l => causing msg (NewPortRangeItem isSource l)))
    (k, oneOf option
      (inPortRange (if isSource then Port (Source md) else Port (Destination md)))).
Proof.
  apply denotes_part. intros it it' _ (rs & Hr & [= <-])%causing_ok%bind_ok [= <-].
  simpl. by apply parsePortRanges_hold.
Qed.

(** An option whose item looks a value up in the listed ones. *)
Lemma denotes_text k option ctor value :
  (forall l, startItem sc (ctor l) = Ok (ctor l)) ->
  (forall l, Match env (ctor l) md = mapGet (makeSet l) value) ->
  denotes md (listPart k option ctor) (k, oneOf option (isText value)).
Proof. intros Hs Hm. apply denotes_list; [done|]. by rewrite Hm, mapGet_one. Qed.

Lemma denotes_number k option ctor value :
  (forall l, startItem sc (ctor l) = Ok (ctor l)) ->
  (forall l, Match env (ctor l) md = mapGet (makeSet l) value) ->
  denotes md (listPart k option ctor) (k, oneOf option (isNumber value)).
Proof. intros Hs Hm. apply denotes_list; [done|]. by rewrite Hm, mapGet_one. Qed.

Lemma denotes_version k v :
  denotes md (part k (0 <? v) (ipVersionItem v))
    (k, (0 <? v, negb (IPVersion md =? 0) && Bool.eqb (IPVersion md =? 6) (v =? 6)
                 || netip.IsValid (Addr_ (Destination md))
                    && Bool.eqb (netip.Is6 (Addr_ (Destination md))) (v =? 6))).
Proof.
  apply denotes_part. intros it it' _. unfold ipVersionItem.
  destruct ((v =? 4) || (v =? 6)); [|done]. by intros [= <-] [= <-].
Qed.

Lemma denotes_private k isSource guard :
  denotes md (part k guard (Ok (NewIPIsPrivateItem isSource)))
    (k, (guard, if isSource
                then netip.IsValid (Addr_ (Source md)) && negb (IsPublicAddr (Addr_ (Source md)))
                else existsb (fun a => negb (IsPublicAddr a)) (destinationIPs md))).
Proof.
  apply denotes_part. intros it it' _ [= <-] [= <-]. simpl. unfold IPIsPrivateItem_Match, destinationIPs.
  destruct isSource; destruct (netip.IsValid _); simpl; by rewrite ?orb_false_r.
Qed.

Lemma connection_denotes :
  Forall2 (denotes md) (defaultConnectionParts o)
    (take 20 (partConditions o md)).
Proof.
  unfold defaultConnectionParts, partConditions, connectionConditions, destinationConditions,
    sourceConditions, sourcePortConditions, destinationPortConditions. simpl.
  repeat (apply Forall2_cons; split); try apply Forall2_nil_2;
    first [ apply denotes_refuse | apply denotes_domain | apply denotes_keyword
          | apply denotes_domain_regex | apply denotes_source_cidr
          | apply denotes_destination_cidr | apply (denotes_ranges _ true)
          | apply (denotes_ranges _ false) | apply denotes_version
          | apply (denotes_private _ true) | apply (denotes_private _ false)
          | by apply denotes_text | by apply denotes_number ].
Qed.

(** The process options, which need to know the process. *)
Lemma denotes_process {K} `{Countable K} k (option : slice K) ctor value (known : ConnectionOwner -> bool) :
  (forall l, startItem sc (ctor l) = Ok (ctor l)) ->
  (forall l, Match env (ctor l) md =
     onProcess md (fun info => known info && mapGet (makeSet l) (value info))) ->
  denotes md (listPart k option ctor)
    (k, oneOf option (fun s => onProcess md (fun info => known info && bool_decide (value info = s)))).
Proof.
  intros Hs Hm. apply denotes_list; [done|]. rewrite Hm. unfold onProcess.
  destruct (ProcessInfo md) as [info|]; [|by rewrite existsb_never].
  by rewrite existsb_and, mapGet_one.
Qed.

Lemma packages_listed (packages l : list string) :
  existsb (mapGet (makeSet l)) packages = existsb (fun s => bool_decide (s ∈ packages)) l.
Proof.
  rewrite (existsb_ext' _ (fun p => existsb (fun s => bool_decide (p = s)) l))
    by (intros p; apply mapGet_one).
  rewrite existsb_swap. apply existsb_ext'. intros s. apply eq_true_iff_eq.
  rewrite existsb_exists, bool_decide_eq_true. setoid_rewrite bool_decide_eq_true.
  split; [intros (x & Hx & ->); by apply list_elem_of_In|]. intros Hs. exists s.
  split; [by apply list_elem_of_In|done].
Qed.

Lemma denotes_package k option :
  denotes md (listPart k option NewPackageNameItem)
    (k, oneOf option (fun s => onProcess md (fun info => bool_decide (s ∈ AndroidPackageNames info)))).
Proof.
  apply denotes_list; [done|]. simpl. unfold PackageNameItem_Match, onProcess.
  destruct (ProcessInfo md); [apply packages_listed|by rewrite existsb_never].
Qed.

Lemma denotes_process_path k option :
  denotes md (listPart k option NewProcessPathItem)
    (k, oneOf option (fun s => onPath md (fun path => isText path s)
       || IsAndroid env && onProcess md (fun info => bool_decide (s ∈ AndroidPackageNames info)))).
Proof.
  apply denotes_list; [done|]. simpl. unfold ProcessPathItem_Match, onPath, onProcess.
  destruct (ProcessInfo md) as [info|]; [|by rewrite andb_false_r, existsb_never].
  rewrite existsb_or, !existsb_and, packages_listed, mapGet_one.
  fold (isText (ProcessPath info)). by destruct (negb _), (existsb (isText _) _).
Qed.

Lemma denotes_network_type k option :
  denotes md (listPart k option NewNetworkTypeItem)
    (k, oneOf option (fun t => onDefaultInterface (fun ni => isNumber (niType ni) t))).
Proof.
  apply denotes_list; [done|]. simpl. unfold NetworkTypeItem_Match, onDefaultInterface.
  destruct (DefaultNetworkInterface env) as [ni|]; [|by rewrite existsb_never].
  by rewrite <- mapGet_makeSet, mapGet_one.
Qed.

Lemma denotes_bssid k option :
  denotes md (listPart k option NewWIFIBSSIDItem)
    (k, oneOf option (fun s => isText (WIFIState_BSSID env) (NormalizeWIFIBSSID s))).
Proof.
  apply denotes_list; [done|]. simpl. unfold WIFIBSSIDItem_Match. rewrite mapGet_one.
  induction (elems option) as [|x l IH]; [done|]. simpl. f_equal. exact IH.
Qed.

Lemma denotes_preferred k option :
  denotes md (listPart k option NewPreferredByItem) (k, oneOf option (prefers md)).
Proof.
  apply denotes_part. intros it it' _ [= <-]. unfold startItem. simpl.
  intros (routes & Hr & [= <-])%bind_ok. simpl. by apply resolved_prefers.
Qed.

Lemma denotes_default_address k option :
  denotes md (listPart k option NewDefaultInterfaceAddressItem)
    (k, (nonempty (elems option),
         match InterfaceMonitor_DefaultInterface env with
         | None => false
         | Some iface => forallb (fun p => existsb (prefix.Overlaps p) (ifAddresses iface))
                           (elems option)
         end)).
Proof.
  apply denotes_part. intros it it' _ [= <-] [= <-]. simpl. unfold DefaultInterfaceAddressItem_Match.
  destruct (InterfaceMonitor_DefaultInterface env) as [iface|]; [|done].
  induction (elems option) as [|p l IH]; [done|]. simpl. rewrite IH. f_equal. clear IH.
  induction (ifAddresses iface) as [|a as' IHa]; [done|]. simpl. rewrite <- IHa.
  by destruct (prefix.Overlaps p a).
Qed.

Lemma denotes_plain k guard it :
  startItem sc it = Ok it -> denotes md (part k guard (Ok it)) (k, (guard, Match env it md)).
Proof. intros Hs. apply denotes_part. intros ? it' _ [= <-]. rewrite Hs. by intros [= <-]. Qed.

Lemma device_denotes :
  Forall2 (denotes md) (defaultDeviceParts o) (pair KItem <$> deviceConditions o md).
Proof.
  unfold defaultDeviceParts, deviceConditions. simpl.
  repeat (apply Forall2_cons; split); try apply Forall2_nil_2;
    first [ apply denotes_process_regex | apply denotes_package | apply denotes_process_path
          | apply denotes_network_type | apply denotes_bssid | apply denotes_preferred
          | apply denotes_default_address | by apply denotes_text
          | by apply denotes_plain | idtac ].
  - apply (denotes_process _ _ _ (fun info => filepath_Base (ProcessPath info))
             (fun info => negb (String.eqb (ProcessPath info) ""))); [done|].
    intros l. simpl. unfold ProcessItem_Match, onProcess.
    destruct (ProcessInfo md) as [info|]; [|done]. by destruct (String.eqb _ _).
  - apply (denotes_process _ _ _ UserName (fun info => negb (String.eqb (UserName info) ""))); [done|].
    intros l. simpl. unfold UserItem_Match, onProcess.
    destruct (ProcessInfo md) as [info|]; [|done]. by destruct (String.eqb _ _).
  - apply (denotes_process _ _ _ UserId (fun info => negb (UserId info =? -1))); [done|].
    intros l. simpl. unfold UserIdItem_Match, onProcess.
    destruct (ProcessInfo md) as [info|]; [|done]. by destruct (_ =? _).
  - apply denotes_part. intros it it' _ [= <-] [= <-]. simpl. unfold ClashModeItem_Match.
    by destruct (hasClashServer sc).
Qed.

Lemma parts_denote : Forall2 (denotes md) (defaultRuleParts o) (partConditions o md).
Proof.
  unfold defaultRuleParts. rewrite <- (take_drop 20 (partConditions o md)).
  apply Forall2_app; [apply connection_denotes|apply device_denotes].
Qed.
End denotations.

(** The lists of a started rule, and that it has items when it had. *)
Lemma startDefault_lists r r' :
  startDefault sc r = Ok r' -> ruleSetItem r = None ->
  (forall k, mapR (startItem sc) (listOf k r) = Ok (listOf k r')) /\
  nonempty (allItems r') = nonempty (allItems r) /\ ruleSetItem r' = None /\ invert r' = invert r.
Proof.
  unfold startDefault. intros Hs Hn. rewrite Hn in Hs. ok_inv. simpl. split_and!; [| |done..].
  - by intros [].
  - match goal with E : mapR _ (allItems r) = Ok ?all |- nonempty ?all = _ =>
      apply mapR_ok in E; by destruct E end.
Qed.

Lemma parts_set md parts cs :
  Forall2 (denotes md) parts cs -> Forall (fun p => exists o, p.2 = Ok o) parts ->
  nonempty (partItems parts) = existsb (fun c : Kind * Condition => c.2.1) cs.
Proof.
  induction 1 as [|p c parts cs [_ Hp] HF IH]; intros Hok; [done|].
  apply Forall_cons in Hok as [[o Ho] Hok]. unfold partItems. simpl. unfold partItem at 1.
  rewrite Ho in *. destruct c as [k [set holds]], o as [it|]; simpl in *.
  - by destruct Hp as [-> _].
  - rewrite Hp. by apply IH.
Qed.

(** Some option of the rule is set. *)
Lemma partConditions_set o md :
  existsb (fun c : Kind * Condition => c.2.1) (partConditions o md) =
  existsb (fun g => existsb isSet g)
    [connectionConditions o md ++ deviceConditions o md; destinationConditions o md;
     destinationPortConditions o md; sourceConditions o md; sourcePortConditions o md].
Proof.
  assert (Hp : forall k (l : list Condition), existsb (fun c : Kind * Condition => c.2.1) (pair k <$> l) = existsb isSet l).
  { intros k l. induction l as [|c l IH]; [done|]. simpl. by rewrite <- IH. }
  unfold partConditions. rewrite !existsb_app, !Hp. cbn [existsb isSet snd]. rewrite existsb_app.
  rewrite <- (take_drop 3 (destinationConditions o md)) at 3. rewrite existsb_app.
  repeat match goal with |- context [@existsb ?A ?f ?l] => generalize (@existsb A f l); intros [] end;
    reflexivity.
Qed.

Lemma partConditions_kinds o md :
  let only k := ofKind k (partConditions o md) in
  allConditions (only KItem) = allConditions (connectionConditions o md ++ deviceConditions o md) /\
  only KSourceAddress = sourceConditions o md /\ only KSourcePort = sourcePortConditions o md /\
  only KDestinationAddress ++ only KDestinationIPCIDR = destinationConditions o md /\
  only KDestinationPort = destinationPortConditions o md.
Proof. split_and!; reflexivity. Qed.

(** C3. A default route rule without rule_set that NewDefaultRule built and that was
    started, evaluated on its own (outside of a rule set, so with the ip_cidr flags of
    rule sets off, and with no destination address deferred), matches a connection
    exactly when the documented formula over its options holds, negated by invert; a
    rule without options matches everything. *)
Theorem built_rule_formula o a r action r' md :
  NewDefaultRule o a = Ok (r, action) -> elems (RawDefaultRule.RuleSet o) = [] ->
  startDefault sc r = Ok r' ->
  IgnoreDestinationIPCIDRMatch md = false -> IPCIDRMatchSource md = false ->
  IPCIDRAcceptEmpty md = false ->
  RuleMatch env (DefaultRule r') md = routeFormula o md.
Proof.
  intros Hb Hrs Hst Hi Hs He. unfold NewDefaultRule in Hb. rewrite Hrs in Hb.
  apply bind_ok in Hb as (act & _ & Hb). apply bind_ok in Hb as (r0 & E & Hb).
  apply bind_ok in Hb as (r1 & [= <-] & [= <- _]).
  assert (Hok : Forall (fun p => exists x, p.2 = Ok x) (defaultRuleParts o))
    by (apply Forall_forall; intros p; by apply (assemble_parts_ok _ _ _ p E)).
  apply assembled_rule in E as (Hl & Ha & Hn & Hinv).
  apply startDefault_lists in Hst as (Hk & Hall & Hn' & Hinv'); [|done].
  pose proof (parts_denote o md Hs He) as HF.
  assert (Hc : forall k, nonempty (listOf k r') = existsb isSet (ofKind k (partConditions o md)) /\
    existsb (fun it => Match env it md) (listOf k r') =
      existsb isMet (ofKind k (partConditions o md)) /\
    forallb (fun it => Match env it md) (listOf k r') = allConditions (ofKind k (partConditions o md))).
  { intros k. apply (started_conditions _ _ _ _ _ HF Hok). by rewrite <- Hk, Hl. }
  rewrite default_formula, groupsHold_lists by done. rewrite Hall, Ha, Hinv', Hinv, nonempty_fmap.
  rewrite (parts_set _ _ _ HF Hok), partConditions_set. unfold routeFormula. f_equal. f_equal.
  unfold groupMatches. rewrite nonempty_app, existsb_app.
  destruct (Hc KItem) as (_ & _ & Ei), (Hc KSourceAddress) as (Na & Ea & _),
    (Hc KSourcePort) as (Np & Ep & _), (Hc KDestinationAddress) as (Nd & Ed & _),
    (Hc KDestinationIPCIDR) as (Nc & Ec & _), (Hc KDestinationPort) as (Nq & Eq & _).
  cbn [listOf] in *. rewrite Ei, Na, Ea, Np, Ep, Nd, Ed, Nc, Ec, Nq, Eq.
  rewrite <- !existsb_app.
  destruct (partConditions_kinds o md) as (-> & -> & -> & -> & ->).
  unfold anyCondition. generalize (allConditions (connectionConditions o md ++ deviceConditions o md)).
  repeat match goal with |- context [negb ?a || ?b] => generalize (negb a || b); intros [] end;
    by intros [].
Qed.
End formula.
