(* ===== verification/FakeIP.v ===== *)
(** * Fake addresses ([dns/transport/fakeip])

    [Store] hands out addresses of a range for domains, one after the other, and starts
    again at the beginning when the range is used up.  Where the pairs are kept is the
    [FakeIPStorage] interface ([adapter/fakeip.go]), here a class with two instances: the
    [MemoryStorage] of this file, and the cache file of [CacheFile.v]. *)

From S2P Require Import Prelude Netip Context DNSMessage.

(** [adapter.FakeIPMetadata] *)
Record FakeIPMetadata_ := mkFakeIPMetadata {
  mInet4Range : Prefix;
  mInet6Range : Prefix;
  mInet4Current : Addr;
  mInet6Current : Addr;
}.

(** The [adapter.FakeIPStorage] interface: every method takes the storage and returns its
    new state with the results of the method, an error as [Some]. *)
Class FakeIPStorage (S : Type) := {
  FakeIPMetadata : S -> option FakeIPMetadata_ * S;
  FakeIPSaveMetadata : S -> FakeIPMetadata_ -> option error * S;
  FakeIPSaveMetadataAsync : S -> FakeIPMetadata_ -> S;
  FakeIPStore : S -> Addr -> string -> option error * S;
  FakeIPLoad : S -> Addr -> option string;
  FakeIPLoadDomain : S -> string -> bool -> option Addr;
  FakeIPReset : S -> option error * S;
}.

(** ** [MemoryStorage] *)
Record MemoryStorage := mkMemoryStorage {
  addressCache : gmap Addr string;
  domainCache4 : gmap string Addr;
  domainCache6 : gmap string Addr;
}.

Definition NewMemoryStorage : MemoryStorage := mkMemoryStorage ∅ ∅ ∅.

Definition MemoryStore (s : MemoryStorage) (address : Addr) (domain : string) : MemoryStorage :=
  let s :=
    match addressCache s !! address with
    | Some oldDomain =>
        if netip.Is4 address
        then mkMemoryStorage (addressCache s) (delete oldDomain (domainCache4 s)) (domainCache6 s)
        else mkMemoryStorage (addressCache s) (domainCache4 s) (delete oldDomain (domainCache6 s))
    | None => s
    end in
  let addresses := <[address := domain]> (addressCache s) in
  if netip.Is4 address
  then mkMemoryStorage addresses (<[domain := address]> (domainCache4 s)) (domainCache6 s)
  else mkMemoryStorage addresses (domainCache4 s) (<[domain := address]> (domainCache6 s)).

Definition MemoryLoad (s : MemoryStorage) (address : Addr) : option string := addressCache s !! address.

Definition MemoryLoadDomain (s : MemoryStorage) (domain : string) (isIPv6 : bool) : option Addr :=
  if negb isIPv6 then domainCache4 s !! domain else domainCache6 s !! domain.

#[export] Instance memoryStorage : FakeIPStorage MemoryStorage := {
  FakeIPMetadata s := (None, s);
  FakeIPSaveMetadata s _ := (None, s);
  FakeIPSaveMetadataAsync s _ := s;
  FakeIPStore s address domain := (None, MemoryStore s address domain);
  FakeIPLoad := MemoryLoad;
  FakeIPLoadDomain := MemoryLoadDomain;
  FakeIPReset s := (None, mkMemoryStorage ∅ ∅ ∅);
}.

(** ** [Store] *)

(** [netip.Addr.As16], [AddrFrom4] of the last four bytes and [AddrFrom16] *)
Definition As16 (a : Addr) : Z :=
  match a with
  | AddrInvalid => 0
  | Addr4 v => Z.lor (Z.shiftl 0xffff 32) v
  | Addr6 v _ => v
  end.

(** [for i := bits; i < 128; i++ { raw[i/8] |= 1 << (7 - i%8) }], with the bytes of [raw]
    as one number in network order *)
Fixpoint setHostBits (n : nat) (i raw : Z) : Z :=
  match n with
  | O => raw
  | S n => setHostBits n (i + 1) (Z.lor raw (Z.shiftl 1 (8 * (15 - i / 8) + (7 - i mod 8))))
  end.

Definition broadcastAddress (p : Prefix) : Addr :=
  let addr := paddr p in
  let bits := prefix.Bits p + (if netip.Is4 addr then 96 else 0) in
  let raw := setHostBits (Z.to_nat (128 - bits)) bits (As16 addr) in
  if netip.Is4 addr then Addr4 (Z.land raw 0xffffffff) else Addr6 raw "".

Record Store (S : Type) := mkStore {
  inet4Range : Prefix;
  inet6Range : Prefix;
  inet4Last : Addr;
  inet6Last : Addr;
  storage : option S;
  inet4Current : Addr;
  inet6Current : Addr;
}.
Arguments mkStore {S}.
Arguments inet4Range {S}.
Arguments inet6Range {S}.
Arguments inet4Last {S}.
Arguments inet6Last {S}.
Arguments storage {S}.
Arguments inet4Current {S}.
Arguments inet6Current {S}.

Definition NewStore {S} (inet4Range inet6Range : Prefix) : Store S :=
  mkStore inet4Range inet6Range
    (if prefix.IsValid inet4Range then broadcastAddress inet4Range else AddrInvalid)
    (if prefix.IsValid inet6Range then broadcastAddress inet6Range else AddrInvalid)
    None AddrInvalid AddrInvalid.

(** [C.DefaultDNSTTL] *)
Definition DefaultDNSTTL : Z := 600.

Section store.
Context {S : Type} `{FakeIPStorage S}.

Definition setStorage (s : Store S) (st : S) : Store S :=
  mkStore (inet4Range s) (inet6Range s) (inet4Last s) (inet6Last s) (Some st)
    (inet4Current s) (inet6Current s).

Definition setCurrent (s : Store S) (current4 current6 : Addr) : Store S :=
  mkStore (inet4Range s) (inet6Range s) (inet4Last s) (inet6Last s) (storage s) current4 current6.

Definition metadataOf (s : Store S) : FakeIPMetadata_ :=
  mkFakeIPMetadata (inet4Range s) (inet6Range s) (inet4Current s) (inet6Current s).

(** [Start] with the storage it chose, the cache file or a new [MemoryStorage] *)
Definition Store_Start (s : Store S) (st : S) : Store S :=
  let '(metadata, st) := FakeIPMetadata st in
  let fresh :=
    setStorage (setCurrent s
      (if prefix.IsValid (inet4Range s) then netip.Next (paddr (inet4Range s)) else inet4Current s)
      (if prefix.IsValid (inet6Range s) then netip.Next (paddr (inet6Range s)) else inet6Current s))
      (FakeIPReset st).2 in
  match metadata with
  | Some m =>
      if bool_decide (mInet4Range m = inet4Range s) && bool_decide (mInet6Range m = inet6Range s)
      then setStorage (setCurrent s (mInet4Current m) (mInet6Current m)) st
      else fresh
  | None => fresh
  end.

Definition Store_Contains (s : Store S) (address : Addr) : bool :=
  prefix.Contains (inet4Range s) address || prefix.Contains (inet6Range s) address.

Definition Store_Close (s : Store S) : option error * Store S :=
  match storage s with
  | None => (None, s)
  | Some st => let '(err, st) := FakeIPSaveMetadata st (metadataOf s) in (err, setStorage s st)
  end.

(** The next address of a range *)
Definition nextAddress (range : Prefix) (last current : Addr) : Addr :=
  let next := netip.Next current in
  if bool_decide (next = last) || negb (prefix.Contains range next)
  then netip.Next (netip.Next (paddr range))
  else next.

(** The part of [Create] that holds the lock; another caller may have stored the domain
    before the lock was taken. *)
Definition createLocked (s : Store S) (st : S) (domain : string) (isIPv6 : bool)
    : result Addr * Store S :=
  match FakeIPLoadDomain st domain isIPv6 with
  | Some address => (Ok address, s)
  | None =>
      let finish (address : Addr) (s : Store S) :=
        let st := (FakeIPStore st address domain).2 in
        (Ok address, setStorage s (FakeIPSaveMetadataAsync st (metadataOf s))) in
      if negb isIPv6 then
        if negb (netip.IsValid (inet4Current s)) then
          (Err "missing IPv4 fakeip address range"%string, s)
        else
          let next := nextAddress (inet4Range s) (inet4Last s) (inet4Current s) in
          finish next (setCurrent s next (inet6Current s))
      else
        if negb (netip.IsValid (inet6Current s)) then
          (Err "missing IPv6 fakeip address range"%string, s)
        else
          let next := nextAddress (inet6Range s) (inet6Last s) (inet6Current s) in
          finish next (setCurrent s (inet4Current s) next)
  end.

(** A store that was not started has a nil storage. *)
Definition Create (s : Store S) (domain : string) (isIPv6 : bool) : result Addr * Store S :=
  match storage s with
  | None => (panic "nil storage", s)
  | Some st =>
      match FakeIPLoadDomain st domain isIPv6 with
      | Some address => (Ok address, s)
      | None => createLocked s st domain isIPv6
      end
  end.

Definition Store_Lookup (s : Store S) (address : Addr) : option string :=
  match storage s with Some st => FakeIPLoad st address | None => None end.

Definition Store_Reset (s : Store S) : Store S :=
  match storage s with Some st => setStorage s (FakeIPReset st).2 | None => s end.

(** ** [Transport] *)
Record Transport := mkTransport { fStore : Store S; inet4Enabled : bool; inet6Enabled : bool }.

Definition NewTransport (inet4Range inet6Range : Prefix) : result Transport :=
  if negb (prefix.IsValid inet4Range) && negb (prefix.IsValid inet6Range)
  then Err "at least one of inet4_range or inet6_range must be set"%string
  else Ok (mkTransport (NewStore inet4Range inet6Range)
             (prefix.IsValid inet4Range) (prefix.IsValid inet6Range)).

Definition Transport_Exchange `{DNSNames} (t : Transport) (message : Msg) : result Msg * Transport :=
  match Questions message with
  | [] => (panic "index out of range", t)
  | question :: _ =>
      if negb (qType question =? TypeA) && negb (qType question =? TypeAAAA) then
        (Err "only IP queries are supported by fakeip"%string, t)
      else if ((qType question =? TypeA) && negb (inet4Enabled t))
              || ((qType question =? TypeAAAA) && negb (inet6Enabled t))
      then (Ok (FixedResponseStatus message RcodeSuccess), t)
      else
        let '(r, s) := Create (fStore t) (FqdnToDomain (qName question)) (qType question =? TypeAAAA) in
        let t := mkTransport s (inet4Enabled t) (inet6Enabled t) in
        match r with
        | Err e => (Err e, t)
        | Ok address =>
            (Ok (FixedResponse (Id message) question [address] DefaultDNSTTL), t)
        end
  end.
End store.
