(* ===== verification/FakeIPSpec.v ===== *)
(** * The fake address store is a ring of addresses

    The specification of the store for one address family is the list of the domains
    that were given a new address, oldest first.  The range has [capacity] usable
    addresses; the [i]-th new domain gets the address number [i mod capacity], and a
    domain keeps its address while it is one of the last [capacity] of the list. *)

From S2P Require Import Prelude Netip Context DNSMessage FakeIP.

(** ** The last address of a range *)

Lemma setHostBits_spec n : forall i raw,
  0 <= i -> i + Z.of_nat n = 128 -> setHostBits n i raw = Z.lor raw (Z.ones (128 - i)).
Proof.
  induction n as [|n IH]; intros i raw Hi Hn; simpl.
  - replace (128 - i) with 0 by lia. by rewrite Z.lor_0_r.
  - rewrite IH by lia. rewrite <- Z.lor_assoc. f_equal.
    replace (8 * (15 - i / 8) + (7 - i mod 8)) with (127 - i)
      by (pose proof (Z.div_mod i 8 ltac:(lia)); lia).
    apply Z.bits_inj'. intros k Hk. rewrite Z.lor_spec, Z.shiftl_1_l, Z.pow2_bits_eqb by lia.
    rewrite !Z.testbit_ones by lia. replace (128 - (i + 1)) with (127 - i) by lia.
    destruct (Z.eqb_spec (127 - i) k), (Z.ltb_spec k (127 - i)), (Z.ltb_spec k (128 - i)),
      (Z.leb_spec 0 k); simpl; lia || done.
Qed.

(** The value of the last address of a valid prefix *)
Definition lastValue (p : Prefix) : Z :=
  Z.lor (netip.value (paddr p)) (Z.ones (netip.BitLen (paddr p) - prefix.Bits p)).

(** An address of the family of [p]. *)
Definition sameFamily (p : Prefix) (v : Z) : Addr :=
  if netip.Is4 (paddr p) then Addr4 v else Addr6 v "".

Lemma broadcastAddress_spec p :
  prefix.wf p -> prefix.IsValid p = true -> broadcastAddress p = sameFamily p (lastValue p).
Proof.
  destruct p as [a [b|]]; [|done]. intros (Hw & Hz & Hv & Hb) _. simpl in *.
  unfold broadcastAddress, sameFamily, lastValue, prefix.Bits. simpl.
  destruct a as [|v|v z]; simpl in *; [done| |].
  - rewrite setHostBits_spec by lia. f_equal.
    replace (128 - (b + 96)) with (32 - b) by lia.
    change 0xffffffff with (Z.ones 32). rewrite Z.land_ones by lia.
    apply (fits_ext 32); [lia|apply wrap_fits; lia| |].
    { apply fits_lor; [lia|done|]. unfold fits. rewrite Z.ones_equiv.
      pose proof (Z.pow_pos_nonneg 2 (32 - b) ltac:(lia) ltac:(lia)).
      pose proof (Z.pow_le_mono_r 2 (32 - b) 32 ltac:(lia) ltac:(lia)). lia. }
    intros i Hi. fold (wrap 32 (Z.lor (Z.lor (Z.shiftl 0xffff 32) v) (Z.ones (32 - b)))).
    rewrite testbit_wrap by lia. rewrite !Z.lor_spec, Z.shiftl_spec_low by lia. done.
  - rewrite setHostBits_spec by lia. by rewrite Z.add_0_r.
Qed.

(** ** The usable addresses of a range *)
Section range.
Context (p : Prefix).

Definition firstValue : Z := netip.value (paddr p).

(** The addresses after the first two and before the last one *)
Definition capacity : Z := lastValue p - firstValue - 2.

Definition usable : Prop := prefix.wf p /\ prefix.IsValid p = true /\ 0 < capacity.

(** Address number [i], counted round the range *)
Definition slot (i : nat) : Addr := sameFamily p (firstValue + 2 + Z.of_nat i mod capacity).

Hypothesis Hp : usable.

Lemma usable_bits : exists b,
  pbits p = Some b /\ 0 <= b <= netip.BitLen (paddr p) /\ fits (netip.BitLen (paddr p)) firstValue /\
  (paddr p = Addr4 firstValue \/ paddr p = Addr6 firstValue "").
Proof.
  destruct Hp as ((Hw & Hz & Hb) & Hv & _). unfold prefix.IsValid in Hv.
  destruct (pbits p) as [b|]; [|done]. exists b. destruct Hb as [Ha Hb]. unfold firstValue.
  destruct (paddr p) as [|v|v z]; simpl in *; [done| |]; (split; [done|]; split; [lia|]; split; [done|]).
  - by left.
  - right. apply negb_false_iff, String.eqb_eq in Hz. by subst z.
Qed.

Lemma lastValue_range :
  fits (netip.BitLen (paddr p)) (lastValue p) /\
  forall v, firstValue <= v <= lastValue p -> prefix.Contains p (sameFamily p v) = true.
Proof.
  destruct usable_bits as (b & Hb & Hl & Hf & Ha). unfold lastValue, prefix.Bits. rewrite Hb. simpl.
  fold firstValue. set (n := netip.BitLen (paddr p)) in *. set (k := n - b).
  assert (Hfit : fits n (Z.lor firstValue (Z.ones k))).
  { apply fits_lor; [lia|done|]. unfold fits. rewrite Z.ones_equiv.
    pose proof (Z.pow_pos_nonneg 2 k ltac:(lia) ltac:(lia)).
    pose proof (Z.pow_le_mono_r 2 k n ltac:(lia) ltac:(lia)). lia. }
  split; [done|]. intros v [Hv1 Hv2].
  assert (Hs : Z.shiftr firstValue k = Z.shiftr v k).
  { assert (Hlast : Z.shiftr (Z.lor firstValue (Z.ones k)) k = Z.shiftr firstValue k).
    { rewrite Z.shiftr_lor, (Z.shiftr_div_pow2 (Z.ones k)) by lia.
      rewrite Z.ones_equiv. rewrite (Z.div_small (Z.pred (2 ^ k))); [by rewrite Z.lor_0_r|].
      pose proof (Z.pow_pos_nonneg 2 k ltac:(lia) ltac:(lia)). lia. }
    rewrite !Z.shiftr_div_pow2 in * by lia.
    pose proof (Z.pow_pos_nonneg 2 k ltac:(lia) ltac:(lia)).
    pose proof (Z.div_le_mono firstValue v (2 ^ k) ltac:(lia) ltac:(lia)).
    pose proof (Z.div_le_mono v _ (2 ^ k) ltac:(lia) Hv2). lia. }
  unfold prefix.Contains, prefix.agree, sameFamily. rewrite Hb. unfold k, n in *.
  destruct Ha as [Ha|Ha]; rewrite Ha in *; simpl in *; by rewrite Hs, Z.eqb_refl.
Qed.

Lemma sameFamily_inj v w : sameFamily p v = sameFamily p w -> v = w.
Proof. unfold sameFamily. destruct (netip.Is4 _); congruence. Qed.

Lemma sameFamily_first : sameFamily p firstValue = paddr p.
Proof. destruct usable_bits as (b & _ & _ & _ & [Ha|Ha]); unfold sameFamily; by rewrite Ha. Qed.

Lemma Next_sameFamily v :
  0 <= v < lastValue p -> netip.Next (sameFamily p v) = sameFamily p (v + 1).
Proof.
  intros Hv. destruct lastValue_range as [Hl _].
  destruct usable_bits as (b & _ & _ & _ & [Ha|Ha]); unfold sameFamily; rewrite Ha in *; simpl in *;
    unfold fits in Hl; rewrite !wrap_id by (unfold fits; lia);
    (destruct (Z.eqb_spec (v + 1) 0); [lia|done]).
Qed.

Lemma slot_value i :
  exists v, slot i = sameFamily p v /\ firstValue + 2 <= v < lastValue p /\ 0 <= firstValue.
Proof.
  destruct Hp as (_ & _ & Hc). destruct usable_bits as (b & _ & _ & Hf & _).
  exists (firstValue + 2 + Z.of_nat i mod capacity). split; [done|].
  pose proof (Z.mod_pos_bound (Z.of_nat i) capacity Hc). unfold fits in Hf. unfold capacity in *. lia.
Qed.

Lemma slot_eq i j :
  slot i = slot j <-> Z.of_nat i mod capacity = Z.of_nat j mod capacity.
Proof.
  unfold slot. split; [intros Hv%sameFamily_inj; lia|]. by intros ->.
Qed.

(** The store steps from one slot to the next and from the last to the first. *)
Lemma next_slot i : nextAddress p (sameFamily p (lastValue p)) (slot i) = slot (S i).
Proof.
  destruct Hp as (_ & _ & Hc). destruct (slot_value i) as (v & Hs & Hv & H0).
  destruct lastValue_range as [_ Hin]. unfold nextAddress. rewrite Hs, Next_sameFamily by lia.
  pose proof (Z.mod_pos_bound (Z.of_nat i) capacity Hc) as Hm.
  assert (Hvi : v = firstValue + 2 + Z.of_nat i mod capacity) by (by apply sameFamily_inj).
  rewrite Hin by lia. rewrite orb_false_r. case_bool_decide as Hl.
  - apply sameFamily_inj in Hl. rewrite <- sameFamily_first, !Next_sameFamily by lia.
    unfold slot. f_equal. replace (Z.of_nat (S i)) with (Z.of_nat i + 1) by lia.
    rewrite <- Zplus_mod_idemp_l. replace (Z.of_nat i mod capacity + 1) with capacity
      by (unfold capacity in *; lia). rewrite Z.mod_same by lia. lia.
  - unfold slot. f_equal. replace (Z.of_nat (S i)) with (Z.of_nat i + 1) by lia.
    rewrite <- Zplus_mod_idemp_l. rewrite (Z.mod_small (_ + 1)); [lia|].
    assert (v + 1 <> lastValue p) by congruence. unfold capacity in *. lia.
Qed.

Lemma first_slot :
  nextAddress p (sameFamily p (lastValue p)) (netip.Next (paddr p)) = slot 0.
Proof.
  destruct Hp as (_ & _ & Hc). destruct (slot_value 0) as (v & Hs & Hv & H0).
  destruct lastValue_range as [_ Hin]. unfold nextAddress.
  rewrite <- sameFamily_first, !Next_sameFamily by lia.
  rewrite Hin by lia. rewrite orb_false_r. rewrite bool_decide_false.
  - unfold slot. f_equal. rewrite Z.mod_0_l by lia. lia.
  - intros Hl%sameFamily_inj. unfold capacity in Hc. lia.
Qed.
End range.

(** ** The ring

    [issued] holds the domains that got a new address, newest first. *)
Section ring.
Context (p : Prefix).

(** The address of a domain, if it is one of the newest [capacity] ones; [age] domains
    are newer than the head of the list. *)
Fixpoint ringFind (age : Z) (issued : list string) (domain : string) : option Addr :=
  match issued with
  | [] => None
  | x :: older =>
      if capacity p <=? age then None
      else if String.eqb x domain then Some (slot p (length older))
      else ringFind (age + 1) older domain
  end.

(** The newest domain with an address *)
Fixpoint ringLookup (issued : list string) (address : Addr) : option string :=
  match issued with
  | [] => None
  | x :: older => if decide (slot p (length older) = address) then Some x else ringLookup older address
  end.

Definition ringCreate (issued : list string) (domain : string) : Addr * list string :=
  match ringFind 0 issued domain with
  | Some address => (address, issued)
  | None => (slot p (length issued), domain :: issued)
  end.

(** No domain has two live addresses. *)
Definition ringWf (issued : list string) : Prop :=
  forall i j d, (i < j)%nat -> Z.of_nat j < capacity p ->
    issued !! i = Some d -> issued !! j = Some d -> False.

Hypothesis Hp : usable p.

Lemma ringFind_some age issued d a :
  ringFind age issued d = Some a <->
  exists j, issued !! j = Some d /\ age + Z.of_nat j < capacity p /\
    a = slot p (length issued - 1 - j) /\ forall i, (i < j)%nat -> issued !! i <> Some d.
Proof.
  revert age. induction issued as [|x l IH]; intros age; simpl.
  { split; [done|]. by intros (j & ? & _). }
  destruct (Z.leb_spec (capacity p) age) as [Hc|Hc].
  { split; [done|]. intros (j & _ & Hj & _). lia. }
  destruct (String.eqb_spec x d) as [->|Hne].
  - split.
    + intros [= <-]. exists 0%nat. split_and!; [done|lia|f_equal; lia|lia].
    + intros ([|j] & Hj & _ & -> & Hf); [do 2 f_equal; lia|]. by destruct (Hf 0%nat ltac:(lia)).
  - rewrite IH. split.
    + intros (j & Hj & Ha & -> & Hf). exists (S j). split_and!; [done|lia|f_equal; lia|].
      intros [|i] Hi; simpl; [congruence|apply Hf; lia].
    + intros ([|j] & Hj & Ha & -> & Hf); simpl in *; [congruence|]. exists j.
      split_and!; [done|lia|f_equal; lia|]. intros i Hi. apply (Hf (S i)). lia.
Qed.

(** The slot of a new domain was last given to the domain [capacity] before it. *)
Lemma ringLookup_next issued d :
  ringLookup issued (slot p (length issued)) = Some d <->
  exists j, Z.of_nat j = capacity p - 1 /\ issued !! j = Some d.
Proof.
  destruct Hp as (_ & _ & Hc).
  cut (forall k, (k < capacity p) ->
    0 <= k -> ringLookup issued (slot p (Z.to_nat (Z.of_nat (length issued) + k))) = Some d <->
    exists j, Z.of_nat j = capacity p - 1 - k /\ issued !! j = Some d).
  { intros Hk. specialize (Hk 0 ltac:(lia) ltac:(lia)). rewrite Z.add_0_r, Nat2Z.id in Hk.
    by replace (capacity p - 1) with (capacity p - 1 - 0) by lia. }
  induction issued as [|x l IH]; intros k Hk H0; cbn [ringLookup length].
  { split; [done|]. by intros (j & _ & ?). }
  destruct (decide _) as [Hs|Hs]; rewrite slot_eq, Z2Nat.id, Nat2Z.inj_succ in Hs by lia.
  - assert (k = capacity p - 1) as ->.
    { replace (Z.succ (Z.of_nat (length l)) + k) with (Z.of_nat (length l) + (k + 1)) in Hs by lia.
      rewrite <- Zplus_mod_idemp_l in Hs.
      pose proof (Z.mod_pos_bound (Z.of_nat (length l)) _ Hc) as Hm.
      destruct (decide (k + 1 = capacity p)); [lia|exfalso].
      destruct (decide (Z.of_nat (length l) mod capacity p + (k + 1) < capacity p)).
      - rewrite (Z.mod_small (_ + (k + 1))) in Hs by lia. lia.
      - rewrite <- (Z.mod_unique (_ + (k + 1)) (capacity p) 1
          (Z.of_nat (length l) mod capacity p + (k + 1) - capacity p)) in Hs by lia. lia. }
    split.
    + intros [= <-]. exists 0%nat. split; [lia|done].
    + intros (j & Hj & Hd). assert (j = 0%nat) as -> by lia. simpl in Hd. congruence.
  - destruct (decide (k + 1 = capacity p)) as [He|He].
    { exfalso. apply Hs. replace (Z.succ (Z.of_nat (length l)) + k)
        with (Z.of_nat (length l) + 1 * capacity p) by lia. by rewrite Z_mod_plus_full. }
    rewrite Nat2Z.inj_succ. replace (Z.succ (Z.of_nat (length l)) + k)
      with (Z.of_nat (length l) + (k + 1)) by lia. rewrite IH by lia. split.
    + intros (j & Hj & Hd). exists (S j). split; [lia|done].
    + intros ([|j] & Hj & Hd); [lia|]. exists j. split; [lia|done].
Qed.

(** A live domain is found under its address. *)
Lemma ringFind_lookup age issued d a :
  0 <= age -> ringFind age issued d = Some a -> ringLookup issued a = Some d.
Proof.
  destruct Hp as (_ & _ & Hc). intros H0 (j & Hj & Ha & -> & _)%ringFind_some.
  revert j Hj Ha. induction issued as [|x l IH]; intros j Hj Ha; [done|]. simpl.
  destruct j as [|j]; simpl in Hj.
  { injection Hj as ->. replace (length l - 0 - 0)%nat with (length l) by lia.
    by rewrite decide_True. }
  pose proof (lookup_lt_Some _ _ _ Hj) as Hlt. rewrite decide_False.
  - replace (length l - 0 - S j)%nat with (length l - 1 - j)%nat by lia. apply IH; [done|lia].
  - rewrite slot_eq. replace (length l - 0 - S j)%nat with (length l - S j)%nat by lia. intros He.
    pose proof (Z.mod_divide (Z.of_nat (S j)) (capacity p) ltac:(lia)) as [Hdiv _].
    destruct Hdiv as [k Hk].
    + replace (Z.of_nat (S j)) with (Z.of_nat (length l) - Z.of_nat (length l - S j)) by lia.
      rewrite Zminus_mod, He, Z.sub_diag. apply Z.mod_0_l. lia.
    + assert (0 < k * capacity p < capacity p) by lia.
      destruct (Z.le_gt_cases k 0); nia.
Qed.

(** A live domain stays where it is, and has one newer domain at most. *)
Lemma ringFind_older age issued d d' a :
  0 <= age -> ringFind (age + 1) issued d = Some a ->
  ringFind age (ringCreate issued d').2 d = Some a.
Proof.
  intros H0 (j & Hj & Ha & Hs & Hf)%ringFind_some. apply ringFind_some. unfold ringCreate.
  destruct (ringFind 0 issued d') as [b|] eqn:Hn; simpl.
  - exists j. split_and!; [done|lia|done..].
  - exists (S j). split_and!; [done|lia|rewrite Hs; f_equal; simpl; lia|].
    intros [|i] Hi; simpl; [|apply Hf; lia]. intros [= ->].
    apply eq_None_not_Some in Hn. apply Hn. eexists. apply ringFind_some. exists j.
    split_and!; [done|lia|done..].
Qed.

(** Giving a new domain its address drops the domain that had it. *)
Lemma ringFind_cons issued d d' :
  ringWf issued -> ringFind 0 issued d = None ->
  ringFind 0 (d :: issued) d' =
  if decide (d' = d) then Some (slot p (length issued))
  else if decide (ringLookup issued (slot p (length issued)) = Some d') then None
  else ringFind 0 issued d'.
Proof.
  destruct Hp as (_ & _ & Hc). intros Hwf Hn. simpl.
  destruct (Z.leb_spec (capacity p) 0); [lia|].
  destruct (String.eqb_spec d d') as [->|Hne]; [by rewrite decide_True|].
  rewrite decide_False by done. destruct (decide _) as [Hl|Hl].
  - apply ringLookup_next in Hl as (j & Hj & Hd). apply eq_None_not_Some.
    intros (a & (i & Hi & Ha & _ & Hf)%ringFind_some).
    destruct (decide (i < j)%nat); [|lia]. by apply (Hwf i j d'); [done|lia|..].
  - apply option_eq. intros a. rewrite !ringFind_some. split; intros (j & Hj & Ha & Hr); exists j.
    { split; [done|]. split; [lia|done]. }
    split; [done|]. split; [|done].
    destruct (decide (Z.of_nat j = capacity p - 1)) as [He|]; [|lia].
    exfalso. apply Hl. apply ringLookup_next. by exists j.
Qed.

Lemma ringWf_create issued d : ringWf issued -> ringWf (ringCreate issued d).2.
Proof.
  intros Hwf. unfold ringCreate. destruct (ringFind 0 issued d) as [a|] eqn:Hn; [done|].
  simpl. intros [|i] [|j] d' Hij Hj Hi Hd; simpl in *; [lia| |lia|].
  - injection Hi as ->. apply eq_None_not_Some in Hn. apply Hn.
    destruct (list_find (eq d') (take (S j) issued)) as [[k x]|] eqn:Hf.
    + apply list_find_Some in Hf as (Hk & <- & Hm).
      apply lookup_take_Some in Hk as [Hk Hlt].
      eexists. apply ringFind_some. exists k. split_and!; [done|lia|done|].
      intros i Hi He. apply (Hm i d'); [|done|done]. apply lookup_take_Some. split; [done|lia].
    + apply list_find_None in Hf. rewrite Forall_forall in Hf. exfalso. apply (Hf d'); [|done].
      apply list_elem_of_lookup. exists j. apply lookup_take_Some. split; [done|lia].
  - by apply (Hwf i j d'); [lia|lia|..].
Qed.
End ring.

(** ** What a storage promises

    The pairs of valid addresses without a zone and of the domains the storage accepts. *)
Definition plainAddr (a : Addr) : bool :=
  match a with
  | AddrInvalid => false
  | Addr4 v => bool_decide (fits 32 v)
  | Addr6 v zone => bool_decide (fits 128 v) && String.eqb zone ""
  end.

Class FakeIPStorageLaws (S : Type) `{FakeIPStorage S} := {
  (** states in which writing works *)
  serving : S -> Prop;
  storable : string -> Prop;
  store_serving st a d :
    serving st -> storable d -> plainAddr a = true -> serving (FakeIPStore st a d).2;
  save_serving st m : serving st -> serving (FakeIPSaveMetadataAsync st m);
  store_load st a d a' :
    serving st -> storable d -> plainAddr a = true -> plainAddr a' = true ->
    FakeIPLoad (FakeIPStore st a d).2 a' = if decide (a' = a) then Some d else FakeIPLoad st a';
  store_loadDomain st a d d' isIPv6 :
    serving st -> storable d -> storable d' -> plainAddr a = true ->
    FakeIPLoadDomain (FakeIPStore st a d).2 d' isIPv6 =
    if Bool.eqb isIPv6 (netip.Is4 a) then FakeIPLoadDomain st d' isIPv6
    else if decide (d' = d) then Some a
    else if decide (FakeIPLoad st a = Some d') then None
    else FakeIPLoadDomain st d' isIPv6;
  save_load st m a : FakeIPLoad (FakeIPSaveMetadataAsync st m) a = FakeIPLoad st a;
  save_loadDomain st m d isIPv6 :
    FakeIPLoadDomain (FakeIPSaveMetadataAsync st m) d isIPv6 = FakeIPLoadDomain st d isIPv6;
}.

#[export] Program Instance memoryLaws : FakeIPStorageLaws MemoryStorage := {
  serving _ := True;
  storable _ := True;
}.
Next Obligation. done. Qed.
Next Obligation. done. Qed.
Next Obligation.
  intros st a d a' _ _ _ _. simpl. unfold MemoryLoad, MemoryStore.
  destruct (addressCache st !! a), (netip.Is4 a); simpl; destruct (decide (a' = a)) as [->|];
    by simplify_map_eq.
Qed.
Next Obligation.
  intros st a d d' v6 _ _ _ _. simpl. unfold MemoryLoad, MemoryLoadDomain, MemoryStore.
  destruct (addressCache st !! a) as [old|] eqn:Ho, (netip.Is4 a), v6; simpl; try done;
    destruct (decide (d' = d)) as [->|]; simplify_map_eq; try done;
    (destruct (decide (Some old = Some d')) as [[= ->]|]; [by simplify_map_eq|]);
    rewrite lookup_delete_ne by congruence; done.
Qed.
Next Obligation. done. Qed.
Next Obligation. done. Qed.

(** ** Refinement *)
Section refinement.
Context {S : Type} `{FakeIPStorage S} `{!FakeIPStorageLaws S}.

Definition rangeOf (s : Store S) (isIPv6 : bool) : Prefix :=
  if isIPv6 then inet6Range s else inet4Range s.
Definition lastOf (s : Store S) (isIPv6 : bool) : Addr :=
  if isIPv6 then inet6Last s else inet4Last s.
Definition currentOf (s : Store S) (isIPv6 : bool) : Addr :=
  if isIPv6 then inet6Current s else inet4Current s.

(** A configured range: none, or one of the family with an address to give. *)
Definition goodRange (p : Prefix) (isIPv6 : bool) : Prop :=
  prefix.IsValid p = false \/ (usable p /\ netip.Is4 (paddr p) = negb isIPv6).

(** The specification: the rings of the two families. *)
Definition Rings : Type := bool -> list string.

Definition pushRing (r : Rings) (isIPv6 : bool) (issued : list string) : Rings :=
  fun f => if Bool.eqb f isIPv6 then issued else r f.

Definition specCreate (range : bool -> Prefix) (r : Rings) (domain : string) (isIPv6 : bool)
    : result Addr * Rings :=
  if prefix.IsValid (range isIPv6) then
    let '(address, issued) := ringCreate (range isIPv6) (r isIPv6) domain in
    (Ok address, pushRing r isIPv6 issued)
  else (Err (if isIPv6 then "missing IPv6 fakeip address range"
             else "missing IPv4 fakeip address range")%string, r).

Definition specLookup (range : bool -> Prefix) (r : Rings) (address : Addr) : option string :=
  let isIPv6 := negb (netip.Is4 address) in
  if prefix.IsValid (range isIPv6) then ringLookup (range isIPv6) (r isIPv6) address else None.

(** The store holds exactly the live pairs of a ring. *)
Definition family (s : Store S) (st : S) (isIPv6 : bool) (issued : list string) : Prop :=
  let p := rangeOf s isIPv6 in
  if prefix.IsValid p then
    usable p /\ netip.Is4 (paddr p) = negb isIPv6 /\ lastOf s isIPv6 = sameFamily p (lastValue p) /\
    ringWf p issued /\
    currentOf s isIPv6 = match issued with [] => netip.Next (paddr p) | _ :: l => slot p (length l) end /\
    (forall d, storable d -> FakeIPLoadDomain st d isIPv6 = ringFind p 0 issued d) /\
    (forall a, plainAddr a = true -> netip.Is4 a = negb isIPv6 -> FakeIPLoad st a = ringLookup p issued a)
  else
    currentOf s isIPv6 = AddrInvalid /\
    (forall d, storable d -> FakeIPLoadDomain st d isIPv6 = None) /\
    (forall a, plainAddr a = true -> netip.Is4 a = negb isIPv6 -> FakeIPLoad st a = None).

Definition refines (s : Store S) (r : Rings) : Prop :=
  exists st, storage s = Some st /\ serving st /\ forall isIPv6, family s st isIPv6 (r isIPv6).

Lemma slot_plain p i : usable p -> plainAddr (slot p i) = true /\ netip.Is4 (slot p i) = netip.Is4 (paddr p).
Proof.
  intros Hp. destruct (slot_value p Hp i) as (v & -> & Hv & H0).
  destruct (lastValue_range p Hp) as [Hl _]. unfold fits in Hl.
  destruct (usable_bits p Hp) as (b & _ & _ & _ & [Ha|Ha]); unfold sameFamily; rewrite Ha in *;
    simpl in *; rewrite bool_decide_true by (unfold fits; lia); done.
Qed.

(** The address [createLocked] gives is the next slot. *)
Lemma family_next s st v6 issued :
  family s st v6 issued -> prefix.IsValid (rangeOf s v6) = true ->
  netip.IsValid (currentOf s v6) = true /\
  nextAddress (rangeOf s v6) (lastOf s v6) (currentOf s v6) = slot (rangeOf s v6) (length issued).
Proof.
  unfold family. intros Hf Hv. rewrite Hv in Hf. destruct Hf as (Hp & _ & -> & _ & -> & _).
  destruct issued as [|x l].
  - rewrite first_slot by done. split; [|done]. destruct (slot_value _ Hp 0) as (v & _ & Hr & H0).
    rewrite <- (sameFamily_first _ Hp), (Next_sameFamily _ Hp) by lia.
    unfold sameFamily. by destruct (netip.Is4 _).
  - rewrite next_slot by done. split; [|done].
    destruct (slot_plain (rangeOf s v6) (length l) Hp) as [Hpl _]. by destruct (slot _ _).
Qed.

(** Storing a pair of one family and moving its counter. *)
Lemma family_stored s st v6 issued d s' m a :
  family s st v6 issued -> serving st -> storable d ->
  prefix.IsValid (rangeOf s v6) = true -> ringFind (rangeOf s v6) 0 issued d = None ->
  a = slot (rangeOf s v6) (length issued) ->
  rangeOf s' v6 = rangeOf s v6 -> lastOf s' v6 = lastOf s v6 -> currentOf s' v6 = a ->
  family s' (FakeIPSaveMetadataAsync (FakeIPStore st a d).2 m) v6 (d :: issued).
Proof.
  unfold family. intros Hf Hs Hd Hv Hn Ha Hr Hl Hc. rewrite Hr, Hl, Hc. rewrite Hv in *.
  destruct Hf as (Hp & H4 & Hlast & Hwf & _ & HD & HA).
  destruct (slot_plain (rangeOf s v6) (length issued) Hp) as [Hpl H4s]. rewrite <- Ha in Hpl, H4s.
  split_and!; try done.
  - pose proof (ringWf_create _ issued d Hwf) as Hw. unfold ringCreate in Hw. by rewrite Hn in Hw.
  - intros d' Hd'. rewrite save_loadDomain, store_loadDomain, H4s, H4 by done.
    replace (Bool.eqb v6 (negb v6)) with false by (by destruct v6).
    rewrite (ringFind_cons _ Hp issued d d' Hwf Hn), <- Ha.
    rewrite (HA a Hpl) by (by rewrite H4s). by rewrite (HD d' Hd').
  - intros a' Hpl' H4'. rewrite save_load, store_load by done. simpl. rewrite <- Ha.
    destruct (decide (a' = a)) as [->|Hne]; [by rewrite decide_True|].
    rewrite decide_False by done. by apply HA.
Qed.

(** ... leaves the other family alone. *)
Lemma family_other s st v6 (issued issued' : list string) d s' m a :
  family s st v6 issued' -> serving st -> storable d -> usable (rangeOf s (negb v6)) ->
  netip.Is4 (paddr (rangeOf s (negb v6))) = v6 ->
  a = slot (rangeOf s (negb v6)) (length issued) ->
  rangeOf s' v6 = rangeOf s v6 -> lastOf s' v6 = lastOf s v6 -> currentOf s' v6 = currentOf s v6 ->
  family s' (FakeIPSaveMetadataAsync (FakeIPStore st a d).2 m) v6 issued'.
Proof.
  unfold family. intros Hf Hs Hd Hp H4 Ha Hr Hl Hc. rewrite Hr, Hl, Hc.
  destruct (slot_plain _ (length issued) Hp) as [Hpl H4s]. rewrite <- Ha in Hpl, H4s. rewrite H4 in H4s.
  assert (HD : forall d', storable d' ->
    FakeIPLoadDomain (FakeIPSaveMetadataAsync (FakeIPStore st a d).2 m) d' v6 = FakeIPLoadDomain st d' v6).
  { intros d' Hd'. rewrite save_loadDomain, store_loadDomain, H4s by done. by destruct v6. }
  assert (HL : forall a', plainAddr a' = true -> netip.Is4 a' = negb v6 ->
    FakeIPLoad (FakeIPSaveMetadataAsync (FakeIPStore st a d).2 m) a' = FakeIPLoad st a').
  { intros a' Hpl' H4'. rewrite save_load, store_load by done.
    rewrite decide_False; [done|]. intros ->. rewrite H4s in H4'. by destruct v6. }
  destruct (prefix.IsValid (rangeOf s v6)).
  - destruct Hf as (? & ? & ? & ? & ? & HF & HA). split_and!; try done; intros; rewrite ?HD, ?HL by done; auto.
  - destruct Hf as (? & HF & HA). split_and!; try done; intros; rewrite ?HD, ?HL by done; auto.
Qed.

(** One call. *)
Lemma create_refines s r d v6 :
  refines s r -> storable d ->
  (Create s d v6).1 = (specCreate (rangeOf s) r d v6).1 /\
  refines (Create s d v6).2 (specCreate (rangeOf s) r d v6).2 /\
  forall f, rangeOf (Create s d v6).2 f = rangeOf s f.
Proof.
  intros (st & Hst & Hs & Hf) Hd. unfold Create, createLocked, specCreate. rewrite Hst.
  pose proof (Hf v6) as Hv6. unfold family in Hv6.
  destruct (prefix.IsValid (rangeOf s v6)) eqn:Hv.
  - destruct Hv6 as (Hp & H4 & _ & _ & _ & HD & _). rewrite (HD d Hd). unfold ringCreate.
    destruct (ringFind _ 0 (r v6) d) as [a|] eqn:Hn; simpl.
    { split; [done|]. split; [|done]. exists st. split; [done|]. split; [done|]. intros f.
      unfold pushRing. destruct (Bool.eqb_spec f v6) as [->|]; apply Hf. }
    destruct (family_next s st v6 (r v6) (Hf v6) Hv) as [Hc Hnext].
    destruct v6; simpl in Hc; rewrite Hc; simpl; simpl in Hnext; rewrite Hnext;
      (split; [done|]; split; [|by intros []]; eexists; split; [done|];
       split; [apply save_serving, store_serving; [done..|by apply slot_plain]|]; intros []);
      first [ by apply (family_stored s)
            | eapply (family_other s _ _ (r true)); [apply Hf|done..]
            | eapply (family_other s _ _ (r false)); [apply Hf|done..] ].
  - destruct Hv6 as (Hc & HD & _). rewrite (HD d Hd).
    destruct v6; simpl in Hc; rewrite Hc; (split; [done|]; split; [|done]); by exists st.
Qed.

(** ** Sequences of calls *)

Fixpoint createAll (s : Store S) (requests : list (string * bool)) : list (result Addr) * Store S :=
  match requests with
  | [] => ([], s)
  | (domain, isIPv6) :: rest =>
      let '(a, s) := Create s domain isIPv6 in
      let '(as_, s) := createAll s rest in (a :: as_, s)
  end.

Fixpoint specAll (range : bool -> Prefix) (r : Rings) (requests : list (string * bool))
    : list (result Addr) * Rings :=
  match requests with
  | [] => ([], r)
  | (domain, isIPv6) :: rest =>
      let '(a, r) := specCreate range r domain isIPv6 in
      let '(as_, r) := specAll range r rest in (a :: as_, r)
  end.

Lemma specAll_ext range range' requests :
  (forall f, range f = range' f) -> forall r, specAll range r requests = specAll range' r requests.
Proof.
  intros Hrange. induction requests as [|[d v6] l IH]; intros r; [done|]. simpl.
  unfold specCreate. rewrite !Hrange. by destruct (if prefix.IsValid _ then _ else _); rewrite IH.
Qed.

Lemma createAll_refines requests : forall s r,
  refines s r -> Forall (fun q => storable q.1) requests ->
  (createAll s requests).1 = (specAll (rangeOf s) r requests).1 /\
  refines (createAll s requests).2 (specAll (rangeOf s) r requests).2 /\
  forall f, rangeOf (createAll s requests).2 f = rangeOf s f.
Proof.
  induction requests as [|[d v6] l IH]; intros s r Hr Hs; [done|]. simpl.
  apply Forall_cons in Hs as [Hd Hs]. destruct (create_refines s r d v6 Hr Hd) as (He & Hr' & Hrange).
  destruct (Create s d v6) as [a s1], (specCreate (rangeOf s) r d v6) as [b r1]. simpl in *. subst b.
  destruct (IH s1 r1 Hr' Hs) as (He2 & Hr2 & Hrange2).
  rewrite (specAll_ext _ _ _ Hrange) in He2, Hr2.
  destruct (createAll s1 l) as [as_ s2], (specAll (rangeOf s) r1 l) as [bs r2]. simpl in *.
  subst. split; [done|]. split; [done|]. intros f. by rewrite Hrange2, Hrange.
Qed.

(** A storage without metadata of an earlier run, empty after the reset. *)
Definition blank (st : S) : Prop :=
  (FakeIPMetadata st).1 = None /\
  let st := (FakeIPReset (FakeIPMetadata st).2).2 in
  serving st /\ (forall a, FakeIPLoad st a = None) /\
  (forall d isIPv6, FakeIPLoadDomain st d isIPv6 = None).

Definition started (p4 p6 : Prefix) (st : S) : Store S := Store_Start (NewStore p4 p6) st.

Lemma started_refines p4 p6 st :
  goodRange p4 false -> goodRange p6 true -> blank st -> refines (started p4 p6 st) (fun _ => []).
Proof.
  intros H4 H6 (Hm & Hs & Ha & Hd). unfold started, Store_Start.
  destruct (FakeIPMetadata st) as [m st']. simpl in *. subst m. simpl.
  eexists. split; [done|]. split; [done|]. intros v6. unfold family. simpl.
  assert (Hg : goodRange (if v6 then p6 else p4) v6) by (by destruct v6).
  replace (rangeOf _ v6) with (if v6 then p6 else p4) by (by destruct v6).
  destruct Hg as [Hg|[Hp H4']].
  - rewrite Hg. split; [|done]. destruct v6; simpl; by rewrite Hg.
  - pose proof Hp as (Hw & Hv & _). rewrite Hv. split; [done|]. split; [done|].
    split; [destruct v6; simpl; rewrite Hv; by apply broadcastAddress_spec|].
    split; [by intros i j d _ _ ?|].
    split; [destruct v6; simpl; by rewrite Hv|done].
Qed.

Lemma started_range p4 p6 st :
  blank st -> forall f, rangeOf (started p4 p6 st) f = if f then p6 else p4.
Proof.
  intros [Hm _]. unfold started, Store_Start. destruct (FakeIPMetadata st) as [m st'].
  simpl in Hm. subst m. by intros [].
Qed.

Lemma refines_lookup s r a :
  refines s r -> plainAddr a = true -> Store_Lookup s a = specLookup (rangeOf s) r a.
Proof.
  intros (st & Hst & _ & Hf) Hp. unfold Store_Lookup, specLookup. rewrite Hst.
  specialize (Hf (negb (netip.Is4 a))). unfold family in Hf.
  destruct (prefix.IsValid _); apply Hf; auto; by rewrite negb_involutive.
Qed.

(** C17. For ranges that are absent or usable (of the right family, with an address to
    give), a storage that keeps its promises and starts without data of an earlier
    run, and domains it can store: after any sequence of Create calls, Create has
    returned and Lookup of any plain address returns what the specification, a ring of
    addresses for each family, says. *)
Theorem fakeip_refines p4 p6 st requests a :
  goodRange p4 false -> goodRange p6 true -> blank st ->
  Forall (fun q => storable q.1) requests -> plainAddr a = true ->
  let range := fun isIPv6 : bool => if isIPv6 then p6 else p4 in
  let '(answers, s) := createAll (started p4 p6 st) requests in
  let '(expected, r) := specAll range (fun _ => []) requests in
  answers = expected /\ Store_Lookup s a = specLookup range r a.
Proof.
  intros H4 H6 Hb Hs Ha range.
  pose proof (started_range p4 p6 st Hb) as Hrange. fold range in Hrange.
  destruct (createAll_refines requests _ _ (started_refines p4 p6 st H4 H6 Hb) Hs) as (He & Hr & Hr').
  rewrite (specAll_ext _ range _ Hrange) in He, Hr. pose proof (refines_lookup _ _ a Hr Ha) as Hl.
  destruct (createAll _ requests) as [answers s], (specAll range _ requests) as [expected r].
  simpl in *. split; [done|]. rewrite Hl. unfold specLookup. by rewrite !Hr', !Hrange.
Qed.

(** ** Keeping an address *)

(** Only requested domains enter the rings. *)
Lemma specAll_requested range requests : forall r f d,
  d ∈ (specAll range r requests).2 f -> d ∈ r f \/ (d, f) ∈ requests.
Proof.
  induction requests as [|[d v6] l IH]; intros r f d' Hd; [by left|]. simpl in Hd.
  destruct (specCreate range r d v6) as [a r1] eqn:Hc.
  destruct (specAll range r1 l) as [as_ r2] eqn:Ha. simpl in Hd.
  specialize (IH r1 f d'). rewrite Ha in IH. destruct (IH Hd) as [Hr|Hl]; [|right; by right].
  unfold specCreate, ringCreate, pushRing in Hc. destruct (prefix.IsValid _); [|left; congruence].
  destruct (ringFind _ _ _ _); injection Hc as _ <-; destruct (Bool.eqb_spec f v6) as [->|]; auto.
  apply elem_of_cons in Hr as [->|]; [right; by left|by left].
Qed.

(** Each further request makes a live domain one older at most. *)
Lemma specAll_keeps range v6 d a requests : forall r age,
  usable (range v6) -> 0 <= age -> ringFind (range v6) (age + Z.of_nat (length requests)) (r v6) d = Some a ->
  ringFind (range v6) age ((specAll range r requests).2 v6) d = Some a.
Proof.
  induction requests as [|[d' f] l IH]; intros r age Hp H0 Hf; simpl in *.
  { by rewrite Z.add_0_r in Hf. }
  destruct (specCreate range r d' f) as [a' r1] eqn:Hc.
  specialize (IH r1 age Hp H0). destruct (specAll range r1 l) as [as_ r2]. simpl in *. apply IH.
  replace (age + Z.of_nat (Datatypes.S (length l))) with (age + Z.of_nat (length l) + 1) in Hf by lia.
  unfold specCreate, pushRing in Hc.
  assert (Hold : ringFind (range v6) (age + Z.of_nat (length l)) (r v6) d = Some a).
  { apply ringFind_some. apply ringFind_some in Hf as (j & ? & ? & ?). exists j. split_and!; [done|lia|..]; naive_solver. }
  destruct (prefix.IsValid (range f)); [|by injection Hc as _ <-].
  destruct (ringCreate (range f) (r f) d') as [b issued] eqn:Hcr. injection Hc as _ <-.
  destruct (Bool.eqb_spec v6 f) as [->|]; [|done].
  replace issued with (ringCreate (range f) (r f) d').2 by (by rewrite Hcr).
  apply ringFind_older; [lia|done].
Qed.

(** A domain that is not in the ring gets the next address. *)
Lemma create_new s r d v6 :
  refines s r -> storable d -> prefix.IsValid (rangeOf s v6) = true -> d ∉ r v6 ->
  (Create s d v6).1 = Ok (slot (rangeOf s v6) (length (r v6))) /\
  refines (Create s d v6).2 (pushRing r v6 (d :: r v6)).
Proof.
  intros Hr Hd Hv Hnew. destruct (create_refines s r d v6 Hr Hd) as (He & Hr1 & _).
  assert (Hn : ringFind (rangeOf s v6) 0 (r v6) d = None).
  { apply eq_None_not_Some. intros (a & (j & Hj & _)%ringFind_some).
    by apply Hnew, (list_elem_of_lookup_2 _ j). }
  unfold specCreate, ringCreate in He, Hr1. by rewrite Hv, Hn in He, Hr1.
Qed.

(** A live domain has its address in both directions. *)
Lemma live_pair s r d v6 a :
  refines s r -> storable d -> usable (rangeOf s v6) -> netip.Is4 (paddr (rangeOf s v6)) = negb v6 ->
  ringFind (rangeOf s v6) 0 (r v6) d = Some a ->
  Store_Lookup s a = Some d /\ (Create s d v6).1 = Ok a.
Proof.
  intros Hr Hd Hp H4 Hf. pose proof Hp as (_ & Hv & _). split.
  - pose proof Hf as (j & _ & _ & Ha & _)%ringFind_some.
    destruct (slot_plain (rangeOf s v6) (length (r v6) - 1 - j) Hp) as [Hpl H4s].
    rewrite <- Ha in Hpl, H4s. rewrite (refines_lookup s r a Hr Hpl). unfold specLookup.
    rewrite H4s, H4, negb_involutive, Hv. by apply (ringFind_lookup _ Hp 0).
  - destruct (create_refines s r d v6 Hr Hd) as (-> & _). unfold specCreate, ringCreate.
    by rewrite Hv, Hf.
Qed.

(** Fake addresses are unambiguous: a domain that is asked for the first time gets an
    address inside the configured range that is neither one of its first two addresses
    nor its last; as long as fewer further requests than the range has usable addresses
    follow, the address leads back to this domain and the domain keeps the address. *)
Theorem fakeip_roundtrip p4 p6 st before d isIPv6 after :
  let range := fun isIPv6 : bool => if isIPv6 then p6 else p4 in
  goodRange p4 false -> goodRange p6 true -> blank st ->
  Forall (fun q => storable q.1) (before ++ (d, isIPv6) :: after) ->
  prefix.IsValid (range isIPv6) = true -> (d, isIPv6) ∉ before ->
  Z.of_nat (length after) < capacity (range isIPv6) ->
  let s := (createAll (started p4 p6 st) before).2 in
  let s' := (createAll (Create s d isIPv6).2 after).2 in
  exists a,
    (Create s d isIPv6).1 = Ok a /\ Store_Lookup s' a = Some d /\ (Create s' d isIPv6).1 = Ok a /\
    exists v, a = sameFamily (range isIPv6) v /\
      firstValue (range isIPv6) + 2 <= v < lastValue (range isIPv6) /\
      prefix.Contains (range isIPv6) a = true.
Proof.
  intros range H4 H6 Hb Hs Hv Hnew Hlen. apply Forall_app in Hs as [Hs1 [Hd Hs2]%Forall_cons].
  simpl in Hd. pose proof (started_range p4 p6 st Hb) as Hrange. fold range in Hrange.
  assert (Hp : usable (range isIPv6) /\ netip.Is4 (paddr (range isIPv6)) = negb isIPv6).
  { assert (Hg : goodRange (range isIPv6) isIPv6) by (by destruct isIPv6).
    destruct Hg as [Hg|Hp]; [|done]. by rewrite Hv in Hg. }
  destruct Hp as [Hp Hfam].
  destruct (createAll_refines before _ _ (started_refines p4 p6 st H4 H6 Hb) Hs1) as (_ & Hr & Hr').
  set (s := (createAll (started p4 p6 st) before).2) in *. set (r := (specAll _ _ before).2) in *.
  assert (Hrs : forall f, rangeOf s f = range f) by (intros f; by rewrite Hr', Hrange).
  destruct (create_refines s r d isIPv6 Hr Hd) as (_ & _ & Hr1').
  destruct (create_new s r d isIPv6 Hr Hd) as [He Hr1]; [by rewrite Hrs|..].
  { intros [Hin|Hin]%specAll_requested; [by apply not_elem_of_nil in Hin|done]. }
  rewrite Hrs in He. exists (slot (range isIPv6) (length (r isIPv6))). split; [done|].
  destruct (createAll_refines after _ _ Hr1 Hs2) as (_ & Hr2 & Hr2').
  rewrite (specAll_ext _ range) in Hr2 by (intros f; by rewrite Hr1', Hrs).
  set (s' := (createAll (Create s d isIPv6).2 after).2) in *.
  assert (Hrs' : rangeOf s' isIPv6 = range isIPv6) by (by rewrite Hr2', Hr1', Hrs).
  destruct (live_pair s' _ d isIPv6 (slot (range isIPv6) (length (r isIPv6))) Hr2 Hd) as [Hl Hc];
    [by rewrite Hrs'..| |].
  { rewrite Hrs'. apply specAll_keeps; [done|lia|]. unfold pushRing. rewrite Bool.eqb_reflx. simpl.
    destruct (Z.leb_spec (capacity (range isIPv6)) (0 + Z.of_nat (length after))); [lia|].
    by rewrite String.eqb_refl. }
  split; [done|]. split; [done|]. destruct (slot_value _ Hp (length (r isIPv6))) as (v & -> & Hb' & _).
  exists v. split; [done|]. split; [done|]. apply (lastValue_range _ Hp). lia.
Qed.
End refinement.

(** ** Examples *)

(** 198.18.0.0/29 and no IPv6 range *)
Definition exRange : Prefix := mkPrefix (Addr4 0xc6120000) (Some 29).

Lemma exRange_good : goodRange exRange false.
Proof. right. split; [|done]. split; [|done]. split; [by vm_compute|]. done. Qed.

Lemma exBlank : blank NewMemoryStorage.
Proof.
  split; [done|]. split; [done|]. split.
  - intros a. apply lookup_empty.
  - intros d []; apply lookup_empty.
Qed.

Definition exRequests : list (string * bool) :=
  [("a"%string, false); ("b"%string, false); ("a"%string, false); ("c"%string, true); ("c"%string, false);
   ("d"%string, false); ("e"%string, false); ("f"%string, false)].

Lemma fakeip_refines_witness :
  (createAll (started exRange prefix.zero NewMemoryStorage) exRequests).1 =
    Ok (Addr4 0xc6120002) :: Ok (Addr4 0xc6120003) :: Ok (Addr4 0xc6120002)
    :: Err "missing IPv6 fakeip address range"%string
    :: (Ok ∘ Addr4 <$> [0xc6120004; 0xc6120005; 0xc6120006; 0xc6120002]) /\
  let range := fun isIPv6 : bool => if isIPv6 then prefix.zero else exRange in
  let '(answers, s) := createAll (started exRange prefix.zero NewMemoryStorage) exRequests in
  let '(expected, r) := specAll range (fun _ => []) exRequests in
  answers = expected /\ Store_Lookup s (Addr4 0xc6120002) = specLookup range r (Addr4 0xc6120002).
Proof.
  split; [vm_compute; reflexivity|].
  refine (fakeip_refines exRange prefix.zero NewMemoryStorage exRequests (Addr4 0xc6120002)
            exRange_good (or_introl eq_refl) exBlank _ eq_refl).
  by apply Forall_true.
Defined.

Lemma fakeip_roundtrip_witness :
  let s := (createAll (started exRange prefix.zero NewMemoryStorage) [("a"%string, false)]).2 in
  let s' := (createAll (Create s "b" false).2 [("c"%string, false); ("d"%string, false)]).2 in
  exists a,
    (Create s "b" false).1 = Ok a /\ Store_Lookup s' a = Some "b"%string /\
    (Create s' "b" false).1 = Ok a /\
    exists v, a = sameFamily exRange v /\ firstValue exRange + 2 <= v < lastValue exRange /\
      prefix.Contains exRange a = true.
Proof.
  refine (fakeip_roundtrip exRange prefix.zero NewMemoryStorage [("a"%string, false)] "b" false
    [("c"%string, false); ("d"%string, false)] exRange_good (or_introl eq_refl) exBlank _ eq_refl _ _).
  - by apply Forall_true.
  - set_solver.
  - vm_compute. reflexivity.
Defined.

(** A range of two addresses has none to give: [Create] then returns an address outside
    of it, here 198.18.0.2 for 198.18.0.0/31, to which no rule for the range applies. *)
Example range_too_small :
  let s := started (mkPrefix (Addr4 0xc6120000) (Some 31)) prefix.zero NewMemoryStorage in
  (Create s "a" false).1 = Ok (Addr4 0xc6120002) /\ Store_Contains s (Addr4 0xc6120002) = false.
Proof. vm_compute. done. Qed.
