(* ===== verification/Saved.v ===== *)
(** * Saved values ([adapter/experimental.go], [adapter/fakeip_metadata.go])

    The binary forms of what the cache file keeps: addresses and prefixes as [net/netip]
    writes them, the state of the fake address store, and downloaded files with their
    time and ETag. *)

From S2P Require Import Prelude Binary Netip FakeIP FakeIPSpec.

(** ** [net/netip] *)

(** [Addr.AsSlice] *)
Definition AsSlice (a : Addr) : bytes :=
  match a with
  | AddrInvalid => []
  | Addr4 v => bigEndian 4 v
  | Addr6 v _ => bigEndian 16 v
  end.

(** [netip.AddrFromSlice], the zero address for another length: [M.AddrFromIP] *)
Definition AddrFromIP (b : bytes) : Addr :=
  if (length b =? 4)%nat then Addr4 (fromBigEndian b)
  else if (length b =? 16)%nat then Addr6 (fromBigEndian b) ""
  else AddrInvalid.

(** [Addr.MarshalBinary] appends the zone. *)
Definition Addr_MarshalBinary (a : Addr) : bytes :=
  match a with Addr6 _ zone => AsSlice a ++ stringBytes zone | _ => AsSlice a end.

Definition Addr_UnmarshalBinary (b : bytes) : result Addr :=
  let n := length b in
  if (n =? 0)%nat then Ok AddrInvalid
  else if (n =? 4)%nat then Ok (Addr4 (fromBigEndian b))
  else if (n =? 16)%nat then Ok (Addr6 (fromBigEndian b) "")
  else if (16 <? n)%nat then Ok (Addr6 (fromBigEndian (take 16 b)) (bytesString (drop 16 b)))
  else Err "unexpected slice size"%string.

Definition Prefix_MarshalBinary (p : Prefix) : bytes :=
  Addr_MarshalBinary (netip.withoutZone (paddr p)) ++ [zByte (prefix.Bits p)].

Definition Prefix_UnmarshalBinary (b : bytes) : result Prefix :=
  match last b with
  | None => Err "unexpected slice size"%string
  | Some bits =>
      addr ← Addr_UnmarshalBinary (take (length b - 1) b);
      Ok (prefix.PrefixFrom addr (byteZ bits))
  end.

(** ** [FakeIPMetadata] *)

(** One element with its length *)
Definition marshalElement (data : bytes) : bytes := bigEndian 2 (Z.of_nat (length data)) ++ data.

Definition FakeIPMetadata_MarshalBinary (m : FakeIPMetadata_) : bytes :=
  marshalElement (Prefix_MarshalBinary (mInet4Range m)) ++
  marshalElement (Prefix_MarshalBinary (mInet6Range m)) ++
  marshalElement (Addr_MarshalBinary (mInet4Current m)) ++
  marshalElement (Addr_MarshalBinary (mInet6Current m)).

(** [common.Must] panics when the length is missing. *)
Definition unmarshalElement {A} (unmarshal : bytes -> result A) (r : bytes) : result (A * bytes) :=
  match ReadUint 2 r with
  | Err e => panic e
  | Ok (length, r) =>
      '(element, r) ← ReadFull (Z.to_nat length) r;
      value ← unmarshal element;
      Ok (value, r)
  end.

Definition FakeIPMetadata_UnmarshalBinary (data : bytes) : result FakeIPMetadata_ :=
  '(inet4Range, r) ← unmarshalElement Prefix_UnmarshalBinary data;
  '(inet6Range, r) ← unmarshalElement Prefix_UnmarshalBinary r;
  '(inet4Current, r) ← unmarshalElement Addr_UnmarshalBinary r;
  '(inet6Current, r) ← unmarshalElement Addr_UnmarshalBinary r;
  Ok (mkFakeIPMetadata inet4Range inet6Range inet4Current inet6Current).

(** ** [SavedBinary] *)

(** [LastUpdated] is the time in seconds. *)
Record SavedBinary := mkSavedBinary { Content : bytes; LastUpdated : Z; LastEtag : string }.

Definition SavedBinary_MarshalBinary (s : SavedBinary) : bytes :=
  bigEndian 1 1 ++ WriteUvarint (Z.of_nat (length (Content s))) ++ Content s ++
  bigEndian 8 (LastUpdated s) ++
  WriteUvarint (Z.of_nat (length (stringBytes (LastEtag s)))) ++ stringBytes (LastEtag s).

(** An [int64] from its 64 bits *)
Definition signed64 (z : Z) : Z := if z <? 2 ^ 63 then z else z - 2 ^ 64.

(** The bytes of a length that must not be longer than what is left *)
Definition readLengthBytes (what : string) (r : bytes) : result (bytes * bytes) :=
  '(length, r) ← ReadUvarint r;
  if Z.of_nat (List.length r) <? length
  then Err ("invalid " +:+ what +:+ " length: " +:+ pretty length)%string
  else ReadFull (Z.to_nat length) r.

Definition SavedBinary_UnmarshalBinary (data : bytes) : result SavedBinary :=
  '(_, r) ← ReadUint 1 data;
  '(content, r) ← readLengthBytes "content" r;
  '(lastUpdated, r) ← ReadUint 8 r;
  '(etag, r) ← readLengthBytes "etag" r;
  Ok (mkSavedBinary content (signed64 lastUpdated) (bytesString etag)).

(** ** Round trips *)

(** A zone a Go address can have in a 16 bit element *)
Definition shortZone (a : Addr) : Prop :=
  match a with Addr6 _ zone => Z.of_nat (length (stringBytes zone)) < 2 ^ 15 | _ => True end.

Lemma AddrFromIP_AsSlice a : netip.wf a -> netip.hasZone a = false -> AddrFromIP (AsSlice a) = a.
Proof.
  unfold AddrFromIP. destruct a as [|v|v z]; intros Hw Hz; [done| |]; cbn [AsSlice];
    rewrite bigEndian_length, fromBigEndian_bigEndian; cbn [Nat.eqb]; rewrite wrap_id by done; [done|].
  by apply negb_false_iff, String.eqb_eq in Hz as ->.
Qed.

Lemma Addr_binary a : netip.wf a -> Addr_UnmarshalBinary (Addr_MarshalBinary a) = Ok a.
Proof.
  unfold Addr_UnmarshalBinary. destruct a as [|v|v z]; intros Hw; [done| |]; cbn [Addr_MarshalBinary AsSlice].
  - rewrite bigEndian_length, fromBigEndian_bigEndian, wrap_id by done. done.
  - rewrite length_app, bigEndian_length. destruct z as [|c z].
    + rewrite app_nil_r, fromBigEndian_bigEndian, wrap_id by done. done.
    + cbn [stringBytes String.list_byte_of_string length Nat.add Nat.eqb Nat.ltb Nat.leb].
      rewrite (take_app_length' _ _ 16) by (by rewrite bigEndian_length).
      rewrite (drop_app_length' _ _ 16) by (by rewrite bigEndian_length).
      rewrite fromBigEndian_bigEndian, wrap_id by done.
      by rewrite bytesString_stringBytes.
Qed.

Lemma Prefix_binary p : prefix.wf p -> Prefix_UnmarshalBinary (Prefix_MarshalBinary p) = Ok p.
Proof.
  destruct p as [a bits]. intros (Hw & Hz & Hb). simpl in *.
  unfold Prefix_UnmarshalBinary, Prefix_MarshalBinary. cbn [paddr].
  assert (Ha : netip.withoutZone a = a).
  { destruct a as [| |v z]; [done..|]. by apply negb_false_iff, String.eqb_eq in Hz as ->. }
  rewrite Ha, last_snoc, length_app. cbn [length].
  rewrite (take_app_length' _ _ (length (Addr_MarshalBinary a) + 1 - 1)) by lia.
  rewrite Addr_binary by done. simpl. f_equal. unfold prefix.PrefixFrom. rewrite Ha. f_equal.
  unfold prefix.Bits. simpl. rewrite byteZ_zByte. destruct bits as [b|]; simpl.
  - destruct Hb as [Hv Hb]. assert (netip.BitLen a <= 128) by (destruct a; simpl; lia).
    rewrite wrap_id by (unfold fits; lia). rewrite Hv. simpl.
    by rewrite (proj2 (Z.leb_le 0 b)), (proj2 (Z.leb_le b _)) by lia.
  - replace (u8 (-1)) with 255 by done. by destruct a.
Qed.

Lemma element_binary {A} (unmarshal : bytes -> result A) data x r :
  Z.of_nat (length data) < 2 ^ 16 -> unmarshal data = Ok x ->
  unmarshalElement unmarshal (marshalElement data ++ r) = Ok (x, r).
Proof.
  intros Hl Hx. unfold unmarshalElement, marshalElement. rewrite <- app_assoc, ReadUint_app.
  - rewrite Nat2Z.id, ReadFull_app. simpl. by rewrite Hx.
  - unfold fits. change (8 * Z.of_nat 2) with 16. lia.
Qed.

Lemma Addr_MarshalBinary_length a : shortZone a -> Z.of_nat (length (Addr_MarshalBinary a)) < 2 ^ 15 + 16.
Proof.
  destruct a as [|v|v z]; cbn [Addr_MarshalBinary AsSlice shortZone]; intros H;
    rewrite ?length_app, ?bigEndian_length; [done..|lia].
Qed.

Lemma Prefix_MarshalBinary_length p :
  netip.hasZone (paddr p) = false -> Z.of_nat (length (Prefix_MarshalBinary p)) < 2 ^ 16.
Proof.
  intros Hz. unfold Prefix_MarshalBinary. rewrite length_app. cbn [length].
  assert (Hs : shortZone (netip.withoutZone (paddr p))) by (by destruct (paddr p)).
  pose proof (Addr_MarshalBinary_length _ Hs). lia.
Qed.

(** Metadata a Go program can hold, with zones that fit an element *)
Definition metadataWf (m : FakeIPMetadata_) : Prop :=
  prefix.wf (mInet4Range m) /\ prefix.wf (mInet6Range m) /\
  netip.wf (mInet4Current m) /\ shortZone (mInet4Current m) /\
  netip.wf (mInet6Current m) /\ shortZone (mInet6Current m).

Lemma metadata_binary m :
  metadataWf m -> FakeIPMetadata_UnmarshalBinary (FakeIPMetadata_MarshalBinary m) = Ok m.
Proof.
  destruct m as [p4 p6 a4 a6]. intros (H4 & H6 & Ha4 & Hz4 & Ha6 & Hz6).
  cbn [mInet4Range mInet6Range mInet4Current mInet6Current] in *.
  unfold FakeIPMetadata_UnmarshalBinary, FakeIPMetadata_MarshalBinary.
  cbn [mInet4Range mInet6Range mInet4Current mInet6Current].
  pose proof (Addr_MarshalBinary_length a4 Hz4). pose proof (Addr_MarshalBinary_length a6 Hz6).
  rewrite (element_binary _ _ p4); [|by apply Prefix_MarshalBinary_length, H4|by apply Prefix_binary].
  cbn [mbind result_bind]. rewrite (element_binary _ _ p6); [|by apply Prefix_MarshalBinary_length, H6|by apply Prefix_binary].
  cbn [mbind result_bind]. rewrite (element_binary _ _ a4); [|lia|by apply Addr_binary]. cbn [mbind result_bind].
  rewrite <- (app_nil_r (marshalElement (Addr_MarshalBinary a6))).
  rewrite (element_binary _ _ a6); [done|lia|by apply Addr_binary].
Qed.

Lemma readLengthBytes_app what b r :
  Z.of_nat (length b) < 2 ^ 64 ->
  readLengthBytes what (WriteUvarint (Z.of_nat (length b)) ++ b ++ r) = Ok (b, r).
Proof.
  intros Hl. unfold readLengthBytes. rewrite ReadUvarint_app by (unfold fits; lia). simpl.
  rewrite length_app. destruct (Z.ltb_spec (Z.of_nat (length b + length r)) (Z.of_nat (length b))); [lia|].
  rewrite Nat2Z.id. apply ReadFull_app.
Qed.

Lemma signed64_wrap z : - 2 ^ 63 <= z < 2 ^ 63 -> signed64 (u64 z) = z.
Proof.
  intros Hz. unfold signed64, wrap. destruct (Z.lt_ge_cases z 0).
  - rewrite <- (Z.mod_unique z (2 ^ 64) (-1) (z + 2 ^ 64)) by lia.
    destruct (Z.ltb_spec (z + 2 ^ 64) (2 ^ 63)); lia.
  - rewrite Z.mod_small by lia. destruct (Z.ltb_spec z (2 ^ 63)); lia.
Qed.

(** Lengths and times of their Go types *)
Definition savedWf (s : SavedBinary) : Prop :=
  Z.of_nat (length (Content s)) < 2 ^ 64 /\ - 2 ^ 63 <= LastUpdated s < 2 ^ 63 /\
  Z.of_nat (length (stringBytes (LastEtag s))) < 2 ^ 64.

Lemma saved_binary s :
  savedWf s -> SavedBinary_UnmarshalBinary (SavedBinary_MarshalBinary s) = Ok s.
Proof.
  destruct s as [content updated etag]. intros (Hc & Hu & He). simpl in *.
  unfold SavedBinary_UnmarshalBinary, SavedBinary_MarshalBinary. cbn [Content LastUpdated LastEtag].
  rewrite ReadUint_app by done. cbn [mbind result_bind].
  rewrite readLengthBytes_app by done. cbn [mbind result_bind].
  unfold ReadUint. rewrite <- (bigEndian_length 8 updated) at 1. rewrite ReadFull_app. cbn [mbind result_bind].
  rewrite <- (app_nil_r (stringBytes etag)) at 2. rewrite readLengthBytes_app by done.
  cbn [mbind result_bind]. rewrite fromBigEndian_bigEndian, signed64_wrap by done.
  by rewrite bytesString_stringBytes.
Qed.

(** What the program saves it reads back: the state of the fake address store, with its
    ranges (set or not) and current addresses, and a downloaded rule set or configuration
    with its time and ETag. *)
Theorem saved_roundtrip m s :
  metadataWf m -> savedWf s ->
  FakeIPMetadata_UnmarshalBinary (FakeIPMetadata_MarshalBinary m) = Ok m /\
  SavedBinary_UnmarshalBinary (SavedBinary_MarshalBinary s) = Ok s.
Proof. intros Hm Hs. split; [by apply metadata_binary|by apply saved_binary]. Qed.

Lemma saved_roundtrip_witness :
  let m := mkFakeIPMetadata exRange prefix.zero (Addr4 0xc6120005) AddrInvalid in
  let s := mkSavedBinary [x01; x02] (-1) "etag" in
  FakeIPMetadata_UnmarshalBinary (FakeIPMetadata_MarshalBinary m) = Ok m /\
  SavedBinary_UnmarshalBinary (SavedBinary_MarshalBinary s) = Ok s.
Proof.
  apply (saved_roundtrip (mkFakeIPMetadata exRange prefix.zero (Addr4 0xc6120005) AddrInvalid)
           (mkSavedBinary [x01; x02] (-1) "etag")).
  - repeat split; unfold fits; simpl; lia.
  - repeat split; simpl; lia.
Defined.
