(* ===== verification/Srs.v ===== *)
(** * Binary rule sets ([common/srs])

    The binary form of headless rules: one tagged item for each list of options, domains
    as a succinct set and addresses as ranges, between the magic bytes with the version and
    the end of a compressed stream. *)

From S2P Require Import Prelude Binary Netip Context RuleItem Options RuleAbstract Succinct DomainMatcher Matching Saved.

(** ** What the format relies on

    [netipx.IPSet] is a slice of address ranges (the code casts it), and [compress/zlib]
    gives back what it compressed.  The reader of a damaged stream fails when it is opened. *)
Class SrsExternal `{External} := {
  IPSet_ranges : IPSet -> list (Addr * Addr);
  IPSet_ofRanges : list (Addr * Addr) -> IPSet;
  (** [Prefixes] and [netip.Prefix.String] *)
  IPSet_PrefixStrings : IPSet -> list string;
  zlib_compress : bytes -> bytes;
  zlib_NewReader : bytes -> result bytes;
}.

#[export] Existing Instance succinctMatching.

Definition MagicBytes : bytes := [x53; x52; x53].

Definition RuleSetVersion1 : Z := 1.
Definition RuleSetVersion2 : Z := 2.
Definition RuleSetVersion3 : Z := 3.
Definition RuleSetVersion4 : Z := 4.
Definition RuleSetVersionCurrent : Z := RuleSetVersion4.

Abbreviation ruleItemQueryType := (0%Z) (only parsing).
Abbreviation ruleItemNetwork := (1%Z) (only parsing).
Abbreviation ruleItemDomain := (2%Z) (only parsing).
Abbreviation ruleItemDomainKeyword := (3%Z) (only parsing).
Abbreviation ruleItemDomainRegex := (4%Z) (only parsing).
Abbreviation ruleItemSourceIPCIDR := (5%Z) (only parsing).
Abbreviation ruleItemIPCIDR := (6%Z) (only parsing).
Abbreviation ruleItemSourcePort := (7%Z) (only parsing).
Abbreviation ruleItemSourcePortRange := (8%Z) (only parsing).
Abbreviation ruleItemPort := (9%Z) (only parsing).
Abbreviation ruleItemPortRange := (10%Z) (only parsing).
Abbreviation ruleItemProcessName := (11%Z) (only parsing).
Abbreviation ruleItemProcessPath := (12%Z) (only parsing).
Abbreviation ruleItemPackageName := (13%Z) (only parsing).
Abbreviation ruleItemWIFISSID := (14%Z) (only parsing).
Abbreviation ruleItemWIFIBSSID := (15%Z) (only parsing).
Abbreviation ruleItemAdGuardDomain := (16%Z) (only parsing).
Abbreviation ruleItemProcessPathRegex := (17%Z) (only parsing).
Abbreviation ruleItemNetworkType := (18%Z) (only parsing).
Abbreviation ruleItemNetworkIsExpensive := (19%Z) (only parsing).
Abbreviation ruleItemNetworkIsConstrained := (20%Z) (only parsing).
Abbreviation ruleItemNetworkInterfaceAddress := (21%Z) (only parsing).
Abbreviation ruleItemDefaultInterfaceAddress := (22%Z) (only parsing).
Abbreviation ruleItemFinal := (255%Z) (only parsing).

(** A slice that was filled by [append] is nil when it has no elements. *)
Definition appended {A} (l : list A) : slice A := match l with [] => None | _ => Some l end.

Section fields.
Context `{External}.
Import DefaultHeadlessRule.

(** An assignment to a field of [option.DefaultHeadlessRule] *)
Inductive Field :=
  | FQueryType (v : slice Z)
  | FNetwork (v : slice string)
  | FDomain (v : slice string)
  | FDomainSuffix (v : slice string)
  | FDomainKeyword (v : slice string)
  | FDomainRegex (v : slice string)
  | FSourceIPCIDR (v : slice string)
  | FIPCIDR (v : slice string)
  | FSourcePort (v : slice Z)
  | FSourcePortRange (v : slice string)
  | FPort (v : slice Z)
  | FPortRange (v : slice string)
  | FProcessName (v : slice string)
  | FProcessPath (v : slice string)
  | FProcessPathRegex (v : slice string)
  | FPackageName (v : slice string)
  | FNetworkType (v : slice Z)
  | FNetworkIsExpensive (v : bool)
  | FNetworkIsConstrained (v : bool)
  | FWIFISSID (v : slice string)
  | FWIFIBSSID (v : slice string)
  | FInvert (v : bool)
  | FDomainMatcher (v : option Matcher)
  | FSourceIPSet (v : option IPSet)
  | FIPSet (v : option IPSet)
  | FAdGuardDomain (v : slice string)
  | FAdGuardDomainMatcher (v : option AdGuardMatcher)
  | FNetworkInterfaceAddress (v : slice (Z * list Prefix))
  | FDefaultInterfaceAddress (v : slice Prefix).

Definition assign (f : Field) (r : t) : t :=
  let 'mk qt nw dm ds dk dr sc ic sp sr po pr pn pp px pk nt ne nc ws wb iv mt ss ip ag am ts td na da := r in
  match f with
  | FQueryType v => mk v nw dm ds dk dr sc ic sp sr po pr pn pp px pk nt ne nc ws wb iv mt ss ip ag am ts td na da
  | FNetwork v => mk qt v dm ds dk dr sc ic sp sr po pr pn pp px pk nt ne nc ws wb iv mt ss ip ag am ts td na da
  | FDomain v => mk qt nw v ds dk dr sc ic sp sr po pr pn pp px pk nt ne nc ws wb iv mt ss ip ag am ts td na da
  | FDomainSuffix v => mk qt nw dm v dk dr sc ic sp sr po pr pn pp px pk nt ne nc ws wb iv mt ss ip ag am ts td na da
  | FDomainKeyword v => mk qt nw dm ds v dr sc ic sp sr po pr pn pp px pk nt ne nc ws wb iv mt ss ip ag am ts td na da
  | FDomainRegex v => mk qt nw dm ds dk v sc ic sp sr po pr pn pp px pk nt ne nc ws wb iv mt ss ip ag am ts td na da
  | FSourceIPCIDR v => mk qt nw dm ds dk dr v ic sp sr po pr pn pp px pk nt ne nc ws wb iv mt ss ip ag am ts td na da
  | FIPCIDR v => mk qt nw dm ds dk dr sc v sp sr po pr pn pp px pk nt ne nc ws wb iv mt ss ip ag am ts td na da
  | FSourcePort v => mk qt nw dm ds dk dr sc ic v sr po pr pn pp px pk nt ne nc ws wb iv mt ss ip ag am ts td na da
  | FSourcePortRange v => mk qt nw dm ds dk dr sc ic sp v po pr pn pp px pk nt ne nc ws wb iv mt ss ip ag am ts td na da
  | FPort v => mk qt nw dm ds dk dr sc ic sp sr v pr pn pp px pk nt ne nc ws wb iv mt ss ip ag am ts td na da
  | FPortRange v => mk qt nw dm ds dk dr sc ic sp sr po v pn pp px pk nt ne nc ws wb iv mt ss ip ag am ts td na da
  | FProcessName v => mk qt nw dm ds dk dr sc ic sp sr po pr v pp px pk nt ne nc ws wb iv mt ss ip ag am ts td na da
  | FProcessPath v => mk qt nw dm ds dk dr sc ic sp sr po pr pn v px pk nt ne nc ws wb iv mt ss ip ag am ts td na da
  | FProcessPathRegex v => mk qt nw dm ds dk dr sc ic sp sr po pr pn pp v pk nt ne nc ws wb iv mt ss ip ag am ts td na da
  | FPackageName v => mk qt nw dm ds dk dr sc ic sp sr po pr pn pp px v nt ne nc ws wb iv mt ss ip ag am ts td na da
  | FNetworkType v => mk qt nw dm ds dk dr sc ic sp sr po pr pn pp px pk v ne nc ws wb iv mt ss ip ag am ts td na da
  | FNetworkIsExpensive v => mk qt nw dm ds dk dr sc ic sp sr po pr pn pp px pk nt v nc ws wb iv mt ss ip ag am ts td na da
  | FNetworkIsConstrained v => mk qt nw dm ds dk dr sc ic sp sr po pr pn pp px pk nt ne v ws wb iv mt ss ip ag am ts td na da
  | FWIFISSID v => mk qt nw dm ds dk dr sc ic sp sr po pr pn pp px pk nt ne nc v wb iv mt ss ip ag am ts td na da
  | FWIFIBSSID v => mk qt nw dm ds dk dr sc ic sp sr po pr pn pp px pk nt ne nc ws v iv mt ss ip ag am ts td na da
  | FInvert v => mk qt nw dm ds dk dr sc ic sp sr po pr pn pp px pk nt ne nc ws wb v mt ss ip ag am ts td na da
  | FDomainMatcher v => mk qt nw dm ds dk dr sc ic sp sr po pr pn pp px pk nt ne nc ws wb iv v ss ip ag am ts td na da
  | FSourceIPSet v => mk qt nw dm ds dk dr sc ic sp sr po pr pn pp px pk nt ne nc ws wb iv mt v ip ag am ts td na da
  | FIPSet v => mk qt nw dm ds dk dr sc ic sp sr po pr pn pp px pk nt ne nc ws wb iv mt ss v ag am ts td na da
  | FAdGuardDomain v => mk qt nw dm ds dk dr sc ic sp sr po pr pn pp px pk nt ne nc ws wb iv mt ss ip v am ts td na da
  | FAdGuardDomainMatcher v => mk qt nw dm ds dk dr sc ic sp sr po pr pn pp px pk nt ne nc ws wb iv mt ss ip ag v ts td na da
  | FNetworkInterfaceAddress v => mk qt nw dm ds dk dr sc ic sp sr po pr pn pp px pk nt ne nc ws wb iv mt ss ip ag am ts td v da
  | FDefaultInterfaceAddress v => mk qt nw dm ds dk dr sc ic sp sr po pr pn pp px pk nt ne nc ws wb iv mt ss ip ag am ts td na v
  end.
End fields.

(** ** Prefixes and address sets ([ip_cidr.go], [ip_set.go]) *)

Definition writeAddr (a : Addr) : bytes :=
  WriteUvarint (Z.of_nat (length (AsSlice a))) ++ AsSlice a.

Definition readIPSetAddr (r : bytes) : result (Addr * bytes) :=
  '(addrLen, r) ← ReadUvarint r;
  if negb (addrLen =? 4) && negb (addrLen =? 16) then Err "invalid argument"%string
  else '(addrBytes, r) ← ReadFull (Z.to_nat addrLen) r; Ok (AddrFromIP addrBytes, r).

Definition writePrefix (p : Prefix) : bytes := writeAddr (paddr p) ++ [zByte (prefix.Bits p)].

Definition readPrefix (r : bytes) : result (Prefix * bytes) :=
  '(addr, r) ← readIPSetAddr r;
  '(prefixBits, r) ← ReadByte r;
  Ok (prefix.PrefixFrom addr prefixBits, r).

Section addresses.
Context `{SrsExternal}.

Definition readRange (r : bytes) : result ((Addr * Addr) * bytes) :=
  '(from, r) ← readIPSetAddr r; '(to, r) ← readIPSetAddr r; Ok ((from, to), r).

Definition readIPSet (r : bytes) : result (IPSet * bytes) :=
  '(version, r) ← ReadByte r;
  if negb (version =? 1) then Err "invalid argument"%string
  else
    '(length, r) ← ReadUint 8 r;
    '(rr, r) ← ReadMany readRange length r;
    Ok (IPSet_ofRanges rr, r).

Definition writeRange (rr : Addr * Addr) : bytes := writeAddr rr.1 ++ writeAddr rr.2.

Definition writeIPSet (set : IPSet) : bytes :=
  [x01] ++ bigEndian 8 (Z.of_nat (length (IPSet_ranges set))) ++ concat (writeRange <$> IPSet_ranges set).
End addresses.

(** ** Items *)

Definition itemByte (itemType : Z) : bytes := [zByte itemType].

Definition writeString (s : string) : bytes := writeByteSlice (stringBytes s).

Definition writeRuleItemString (itemType : Z) (value : list string) : bytes :=
  itemByte itemType ++ WriteUvarint (Z.of_nat (length value)) ++ concat (writeString <$> value).

Definition writeRuleItemUint8 (itemType : Z) (value : list Z) : bytes :=
  itemByte itemType ++ WriteUvarint (Z.of_nat (length value)) ++ concat (bigEndian 1 <$> value).

Definition writeRuleItemUint16 (itemType : Z) (value : list Z) : bytes :=
  itemByte itemType ++ WriteUvarint (Z.of_nat (length value)) ++ concat (bigEndian 2 <$> value).

Definition readString (r : bytes) : result (string * bytes) :=
  '(value, r) ← ReadSliceBytes r; Ok (bytesString value, r).

Definition readRuleItemString (r : bytes) : result (list string * bytes) :=
  '(length, r) ← ReadUvarint r; ReadMany readString length r.

(** A list of prefixes with its length *)
Definition writePrefixes (l : list Prefix) : bytes :=
  WriteUvarint (Z.of_nat (length l)) ++ concat (writePrefix <$> l).

Definition readPrefixes (r : bytes) : result (list Prefix * bytes) :=
  '(prefixCount, r) ← ReadUvarint r; ReadMany readPrefix prefixCount r.

(** [TypedMap.Put]: an existing key keeps its place *)
Fixpoint put {V} (key : Z) (value : V) (m : list (Z * V)) : list (Z * V) :=
  match m with
  | [] => [(key, value)]
  | (k, v) :: m => if k =? key then (k, value) :: m else (k, v) :: put key value m
  end.

Definition writeEntry (e : Z * list Prefix) : bytes := bigEndian 1 (u8 e.1) ++ writePrefixes e.2.

Definition readEntry (r : bytes) : result ((Z * list Prefix) * bytes) :=
  '(key, r) ← ReadUint 1 r; '(value, r) ← readPrefixes r; Ok ((key, value), r).

Definition readEntries (r : bytes) : result (list (Z * list Prefix) * bytes) :=
  '(size, r) ← ReadUvarint r;
  '(entries, r) ← ReadMany readEntry size r;
  Ok (foldl (fun m e => put e.1 e.2 m) [] entries, r).

(** ** Reading default rules *)

Section rules.
Context `{SrsExternal}.
Import DefaultHeadlessRule.

Abbreviation rule := DefaultHeadlessRule.t.

(** The assignments of one item after its type: the branches of the switch of
    [readDefaultRule], but the last *)
Definition readItem (recover : bool) (itemType lastItemType : Z) (r : bytes) : result (list Field * bytes) :=
  let strings (f : slice string -> Field) :=
    '(value, r) ← readRuleItemString r; Ok ([f (appended value)], r) in
  let uint16s (f : slice Z -> Field) :=
    '(value, r) ← ReadSliceUint 2 r; Ok ([f (appended value)], r) in
  if itemType =? ruleItemQueryType then
    '(rawQueryType, r) ← ReadSliceUint 2 r; Ok ([FQueryType (Some rawQueryType)], r)
  else if itemType =? ruleItemNetwork then strings FNetwork
  else if itemType =? ruleItemDomain then
    '(matcher, r) ← readSuccinctSet r;
    if recover then
      '(domains, suffixes) ← Dump matcher;
      Ok ([FDomainMatcher (Some (Ok matcher)); FDomain (appended (bytesString <$> domains));
           FDomainSuffix (appended (bytesString <$> suffixes))], r)
    else Ok ([FDomainMatcher (Some (Ok matcher))], r)
  else if itemType =? ruleItemDomainKeyword then strings FDomainKeyword
  else if itemType =? ruleItemDomainRegex then strings FDomainRegex
  else if itemType =? ruleItemSourceIPCIDR then
    '(set, r) ← readIPSet r;
    Ok (FSourceIPSet (Some set) :: (if recover then [FSourceIPCIDR (Some (IPSet_PrefixStrings set))] else []), r)
  else if itemType =? ruleItemIPCIDR then
    '(set, r) ← readIPSet r;
    Ok (FIPSet (Some set) :: (if recover then [FIPCIDR (Some (IPSet_PrefixStrings set))] else []), r)
  else if itemType =? ruleItemSourcePort then uint16s FSourcePort
  else if itemType =? ruleItemSourcePortRange then strings FSourcePortRange
  else if itemType =? ruleItemPort then uint16s FPort
  else if itemType =? ruleItemPortRange then strings FPortRange
  else if itemType =? ruleItemProcessName then strings FProcessName
  else if itemType =? ruleItemProcessPath then strings FProcessPath
  else if itemType =? ruleItemProcessPathRegex then strings FProcessPathRegex
  else if itemType =? ruleItemPackageName then strings FPackageName
  else if itemType =? ruleItemWIFISSID then strings FWIFISSID
  else if itemType =? ruleItemWIFIBSSID then strings FWIFIBSSID
  else if itemType =? ruleItemAdGuardDomain then
    '(matcher, r) ← readSuccinctSet r;
    if recover then
      rules ← AdGuard_Dump matcher;
      Ok ([FAdGuardDomainMatcher (Some (Ok matcher)); FAdGuardDomain (appended (bytesString <$> rules))], r)
    else Ok ([FAdGuardDomainMatcher (Some (Ok matcher))], r)
  else if itemType =? ruleItemNetworkType then
    '(value, r) ← ReadSliceUint 1 r; Ok ([FNetworkType (appended value)], r)
  else if itemType =? ruleItemNetworkIsExpensive then Ok ([FNetworkIsExpensive true], r)
  else if itemType =? ruleItemNetworkIsConstrained then Ok ([FNetworkIsConstrained true], r)
  else if itemType =? ruleItemNetworkInterfaceAddress then
    '(entries, r) ← readEntries r; Ok ([FNetworkInterfaceAddress (Some entries)], r)
  else if itemType =? ruleItemDefaultInterfaceAddress then
    '(value, r) ← readPrefixes r; Ok ([FDefaultInterfaceAddress (appended value)], r)
  else Err ("unknown rule item type: " +:+ pretty itemType +:+ ", last type: " +:+ pretty lastItemType)%string.

Definition assignAll (fs : list Field) (ru : rule) : rule := foldl (fun ru f => assign f ru) ru fs.

(** [binary.Read] of a [bool] *)
Definition readBool (r : bytes) : result (bool * bytes) := '(b, r) ← ReadUint 1 r; Ok (negb (b =? 0), r).

Fixpoint readItems (fuel : nat) (recover : bool) (lastItemType : Z) (ru : rule) (r : bytes) : result (rule * bytes) :=
  match fuel with
  | O => Err "out of fuel"%string
  | S fuel =>
      '(itemType, r) ← ReadUint 1 r;
      if itemType =? ruleItemFinal then
        '(invert, r) ← readBool r; Ok (assign (FInvert invert) ru, r)
      else
        '(fs, r) ← readItem recover itemType lastItemType r;
        readItems fuel recover itemType (assignAll fs ru) r
  end.

(** Every item takes a byte. *)
Definition readDefaultRule (recover : bool) (r : bytes) : result (rule * bytes) :=
  readItems (S (length r)) recover 0 (DefaultHeadlessRule.zero false) r.

(** ** Writing default rules *)

Fixpoint concatR (l : list (result bytes)) : result bytes :=
  match l with [] => Ok [] | x :: l => b ← x; bs ← concatR l; Ok (b ++ bs) end.

(** An item that is written when its options are given *)
Definition when (given : bool) (item : result bytes) : result bytes := if given then item else Ok [].

Definition since (version : Z) (generateVersion : Z) (what : string) (item : bytes) : result bytes :=
  if generateVersion <? version then Err what else Ok item.

Definition writeRuleItemCIDR (itemType : Z) (value : list string) : result bytes :=
  added ← parseCIDRs 0 value;
  ipSet ← IPSetBuilder_IPSet added;
  Ok (itemByte itemType ++ writeIPSet ipSet).

Definition stringsItem (itemType : Z) (value : slice string) : result bytes :=
  when (nonempty (elems value)) (Ok (writeRuleItemString itemType (elems value))).

Definition portsItem (itemType : Z) (value : slice Z) : result bytes :=
  when (nonempty (elems value)) (Ok (writeRuleItemUint16 itemType (elems value))).

Definition writeConnectionItems (ru : rule) (generateVersion : Z) : list (result bytes) :=
  [ when (nonempty (elems (QueryType ru))) (Ok (writeRuleItemUint16 ruleItemQueryType (elems (QueryType ru))))
  ; stringsItem ruleItemNetwork (Network ru)
  ; when (nonempty (elems (Domain ru)) || nonempty (elems (DomainSuffix ru)))
      (matcher ← newMatcher (stringBytes <$> elems (Domain ru)) (stringBytes <$> elems (DomainSuffix ru))
                   (generateVersion =? RuleSetVersion1);
       Ok (itemByte ruleItemDomain ++ succinctSet_Write matcher))
  ; stringsItem ruleItemDomainKeyword (DomainKeyword ru)
  ; stringsItem ruleItemDomainRegex (DomainRegex ru)
  ; when (nonempty (elems (SourceIPCIDR ru)))
      (causing "source_ip_cidr" (writeRuleItemCIDR ruleItemSourceIPCIDR (elems (SourceIPCIDR ru))))
  ; when (nonempty (elems (IPCIDR ru))) (causing "ipcidr" (writeRuleItemCIDR ruleItemIPCIDR (elems (IPCIDR ru))))
  ; portsItem ruleItemSourcePort (SourcePort ru)
  ; stringsItem ruleItemSourcePortRange (SourcePortRange ru)
  ; portsItem ruleItemPort (Port ru)
  ; stringsItem ruleItemPortRange (PortRange ru) ].

Definition writeDeviceItems (ru : rule) (generateVersion : Z) : list (result bytes) :=
  [ stringsItem ruleItemProcessName (ProcessName ru)
  ; stringsItem ruleItemProcessPath (ProcessPath ru)
  ; stringsItem ruleItemProcessPathRegex (ProcessPathRegex ru)
  ; stringsItem ruleItemPackageName (PackageName ru)
  ; when (nonempty (elems (NetworkType ru)))
      (since RuleSetVersion3 generateVersion "`network_type` rule item is only supported in version 3 or later"
         (writeRuleItemUint8 ruleItemNetworkType (elems (NetworkType ru))))
  ; when (NetworkIsExpensive ru)
      (since RuleSetVersion3 generateVersion "`network_is_expensive` rule item is only supported in version 3 or later"
         (itemByte ruleItemNetworkIsExpensive))
  ; when (NetworkIsConstrained ru)
      (since RuleSetVersion3 generateVersion "`network_is_constrained` rule item is only supported in version 3 or later"
         (itemByte ruleItemNetworkIsConstrained))
  ; when (nonempty (elems (NetworkInterfaceAddress ru)))
      (since RuleSetVersion4 generateVersion "`network_interface_address` rule item is only supported in version 4 or later"
         (itemByte ruleItemNetworkInterfaceAddress
          ++ WriteUvarint (Z.of_nat (length (elems (NetworkInterfaceAddress ru))))
          ++ concat (writeEntry <$> elems (NetworkInterfaceAddress ru))))
  ; when (nonempty (elems (DefaultInterfaceAddress ru)))
      (since RuleSetVersion4 generateVersion "`default_interface_address` rule item is only supported in version 4 or later"
         (itemByte ruleItemDefaultInterfaceAddress ++ writePrefixes (elems (DefaultInterfaceAddress ru))))
  ; stringsItem ruleItemWIFISSID (WIFISSID ru)
  ; stringsItem ruleItemWIFIBSSID (WIFIBSSID ru)
  ; when (nonempty (elems (AdGuardDomain ru)))
      (if generateVersion <? RuleSetVersion2 then Err "AdGuard rule items is only supported in version 2 or later"%string
       else matcher ← newAdGuardMatcher (stringBytes <$> elems (AdGuardDomain ru));
            Ok (itemByte ruleItemAdGuardDomain ++ succinctSet_Write matcher)) ].

Definition writeItems (ru : rule) (generateVersion : Z) : list (result bytes) :=
  writeConnectionItems ru generateVersion ++ writeDeviceItems ru generateVersion.

Definition writeBool (b : bool) : bytes := [if b then x01 else x00].

Definition writeDefaultRule (ru : rule) (generateVersion : Z) : result bytes :=
  items ← concatR (writeItems ru generateVersion);
  Ok ([x00] ++ items ++ itemByte ruleItemFinal ++ writeBool (Invert ru)).

(** ** Rules of any type *)

Abbreviation headless := (RuleOptions rule unit).

Definition zeroLogical : LogicalOptions_ rule unit := mkLogicalOptions "" [] false tt.

Section many_rules.
Context (read : bytes -> result (headless * bytes)) (what : string).

(** A list of rules; the error has the index of the rule *)
Fixpoint readRules (fuel : nat) (i : nat) (count : Z) (r : bytes) : result (list headless * bytes) :=
  if count <=? 0 then Ok ([], r)
  else match fuel with
       | O => Err "out of fuel"%string
       | S fuel =>
           '(x, r) ← causing (what +:+ indexText i +:+ "]")%string (read r);
           '(xs, r) ← readRules fuel (S i) (count - 1) r;
           Ok (x :: xs, r)
       end.
End many_rules.

(** [readLogicalRule]; [read] reads a rule one level deeper *)
Definition readLogicalRule (read : bytes -> result (headless * bytes)) (r : bytes)
    : result (LogicalOptions_ rule unit * bytes) :=
  '(mode, r) ← ReadByte r;
  mode ← (if mode =? 0 then Ok LogicalTypeAnd else if mode =? 1 then Ok LogicalTypeOr
          else Err ("unknown logical mode: " +:+ pretty mode)%string);
  '(length_, r) ← ReadUvarint r;
  '(rules, r) ← readRules read "read logical rule [" (S (length r)) 0 length_ r;
  '(invert, r) ← readBool r;
  Ok (mkLogicalOptions mode rules invert tt, r).

(** [levels] is [maxLogicalRuleDepth + 1 - depth]. *)
Fixpoint readRule (levels : nat) (recover : bool) (r : bytes) : result (headless * bytes) :=
  match levels with
  | O => Err "logical rule nested too deep"%string
  | S levels =>
      '(ruleType, r) ← ReadUint 1 r;
      if ruleType =? 0 then
        '(ru, r) ← readDefaultRule recover r; Ok (mkRuleOptions RuleTypeDefault (ru, tt) zeroLogical, r)
      else if ruleType =? 1 then
        '(l, r) ← readLogicalRule (readRule levels recover) r;
        Ok (mkRuleOptions RuleTypeLogical (DefaultHeadlessRule.zero false, tt) l, r)
      else Err ("unknown rule type: " +:+ pretty ruleType)%string
  end.

Fixpoint writeRule (o : headless) (generateVersion : Z) : result bytes :=
  match o with
  | mkRuleOptions ty (ru, _) logicalRule =>
      if String.eqb ty RuleTypeDefault then writeDefaultRule ru generateVersion
      else if String.eqb ty RuleTypeLogical then writeLogicalRule logicalRule generateVersion
      else panic ("unknown rule type: " +:+ ty)%string
  end
with writeLogicalRule (l : LogicalOptions_ rule unit) (generateVersion : Z) : result bytes :=
  match l with
  | mkLogicalOptions mode rules invert _ =>
      m ← (if String.eqb mode LogicalTypeAnd then Ok x00 else if String.eqb mode LogicalTypeOr then Ok x01
           else panic ("unknown logical mode: " +:+ mode)%string);
      items ← concatR (map (fun ru => writeRule ru generateVersion) rules);
      Ok ([x01; m] ++ WriteUvarint (Z.of_nat (length rules)) ++ items ++ writeBool invert)
  end.

(** ** Rule sets *)

(** [option.PlainRuleSetCompat]: the version and the rules *)
Definition Read (recover : bool) (r : bytes) : result (Z * list headless) :=
  '(magicBytes, r) ← ReadFull 3 r;
  if negb (bool_decide (magicBytes = MagicBytes)) then Err "invalid sing-box rule-set file"%string
  else
    '(version, r) ← ReadUint 1 r;
    if RuleSetVersionCurrent <? version then Err ("unsupported version: " +:+ pretty version)%string
    else
      r ← zlib_NewReader r;
      '(length_, r) ← ReadUvarint r;
      '(rules, _) ← readRules (readRule 101 recover) "read rule[" (S (length r)) 0 length_ r;
      Ok (version, rules).

Definition Write (rules : list headless) (generateVersion : Z) : result bytes :=
  items ← concatR (map (fun ru => writeRule ru generateVersion) rules);
  Ok (MagicBytes ++ bigEndian 1 generateVersion
      ++ zlib_compress (WriteUvarint (Z.of_nat (length rules)) ++ items)).
End rules.
