(* ===== verification/SrsSpec.v ===== *)
(** * Binary rule sets are read back

    A rule set that was written is read back as its compiled form, in which domains and
    addresses are matchers and sets, and the compiled rules build to the rules of the
    source. *)

From stdpp Require Import sorting.
From S2P Require Import Prelude Binary Netip Context RuleItem Options RuleAbstract Utf8 Succinct RankSelect SuccinctSpec SuccinctKeys.
From S2P Require Import DomainMatcher DomainNames Matching Saved Srs.

(** ** Lists and addresses *)

(** A length that a Go program can have *)
Definition small {A} (l : list A) : Prop := fits 64 (Z.of_nat (length l)).

Definition realAddr (a : Addr) : Prop := netip.wf a /\ netip.hasZone a = false /\ netip.IsValid a = true.

(** A written list of elements with its length *)
Lemma ReadCounted {A} (read : bytes -> result (A * bytes)) (write : A -> bytes) xs r :
  small xs -> Forall (fun x => write x <> [] /\ reads read write x) xs ->
  ('(n, r) ← ReadUvarint (WriteUvarint (Z.of_nat (length xs)) ++ concat (write <$> xs) ++ r); ReadMany read n r) = Ok (xs, r).
Proof.
  intros Hl Hr. rewrite ReadUvarint_app by done. cbn [mbind result_bind]. by apply ReadMany_app.
Qed.

Lemma realAddr_length a : realAddr a -> length (AsSlice a) = 4%nat \/ length (AsSlice a) = 16%nat.
Proof. intros (_ & _ & Hv). destruct a; [done|left|right]; apply bigEndian_length. Qed.

Lemma WriteUvarint_nonempty n b : WriteUvarint n ++ b <> [].
Proof. unfold WriteUvarint. cbn [writeUvarint]. by destruct (0x80 <=? n). Qed.

Lemma readIPSetAddr_app a r : realAddr a -> readIPSetAddr (writeAddr a ++ r) = Ok (a, r).
Proof.
  intros Ha. unfold readIPSetAddr, writeAddr. pose proof (realAddr_length a Ha) as Hl. destruct Ha as (Hw & Hz & _).
  rewrite <- app_assoc, ReadUvarint_app by (unfold fits; lia). cbn [mbind result_bind].
  replace (negb _ && negb _) with false by (destruct Hl as [-> | ->]; done).
  rewrite Nat2Z.id, ReadFull_app. cbn [mbind result_bind]. by rewrite AddrFromIP_AsSlice.
Qed.

Lemma readPrefix_app p r : prefix.wf p -> netip.IsValid (paddr p) = true -> readPrefix (writePrefix p ++ r) = Ok (p, r).
Proof.
  intros (Hw & Hz & Hb) Hv. unfold readPrefix, writePrefix. rewrite <- app_assoc.
  rewrite readIPSetAddr_app by done. cbn [mbind result_bind app ReadByte]. destruct p as [a bits]. cbn [paddr pbits] in *.
  do 2 f_equal. unfold prefix.PrefixFrom, prefix.Bits. cbn [pbits]. rewrite Hv. f_equal.
  - destruct a as [| |v z]; [done|done|]. cbn in Hz. apply negb_false_iff, String.eqb_eq in Hz as ->. done.
  - destruct bits as [b|]; cbn [default from_option id].
    + destruct Hb as [_ Hb]. assert (netip.BitLen a <= 128) by (destruct a; cbn; lia).
      rewrite byte_of by lia. rewrite !(proj2 (Z.leb_le _ _)) by lia. done.
    + change (byteZ (zByte (-1))) with 255. destruct a; done.
Qed.

(** Prefixes that can be written *)
Definition goodPrefix (p : Prefix) : Prop := prefix.wf p /\ netip.IsValid (paddr p) = true.

Lemma readPrefixes_app l r : small l -> Forall goodPrefix l -> readPrefixes (writePrefixes l ++ r) = Ok (l, r).
Proof.
  intros Hl Hp. unfold readPrefixes, writePrefixes. rewrite <- app_assoc. apply ReadCounted; [done|].
  eapply Forall_impl; [exact Hp|]. intros p [Hw Hv]. split.
  - unfold writePrefix, writeAddr. rewrite <- app_assoc. apply WriteUvarint_nonempty.
  - intros r'. by apply readPrefix_app.
Qed.

(** Entries with distinct keys *)
Definition goodEntry (e : Z * list Prefix) : Prop := fits 8 e.1 /\ small e.2 /\ Forall goodPrefix e.2.

Lemma readEntry_app e r : goodEntry e -> readEntry (writeEntry e ++ r) = Ok (e, r).
Proof.
  intros (Hk & Hl & Hp). unfold readEntry, writeEntry. rewrite (wrap_id 8) by done.
  rewrite <- app_assoc, ReadUint_app by done. cbn [mbind result_bind].
  rewrite readPrefixes_app by done. by destruct e.
Qed.

Lemma put_fresh {V} k (v : V) m : k ∉ m.*1 -> put k v m = m ++ [(k, v)].
Proof.
  induction m as [|[k' v'] m IH]; intros Hk; [done|]. rewrite fmap_cons in Hk. cbn [put fst] in *.
  apply not_elem_of_cons in Hk as [Hne Hk]. rewrite (proj2 (Z.eqb_neq _ _)) by congruence. by rewrite IH.
Qed.

Lemma put_all {V} (es m : list (Z * V)) : NoDup (m ++ es).*1 -> foldl (fun m e => put e.1 e.2 m) m es = m ++ es.
Proof.
  revert m. induction es as [|[k v] es IH]; intros m Hd; [by rewrite app_nil_r|]. cbn [foldl fst snd].
  rewrite put_fresh.
  - rewrite IH; rewrite <- app_assoc; done.
  - rewrite fmap_app, fmap_cons in Hd. apply NoDup_app in Hd as (_ & Hd & _). intros Hin. apply (Hd k Hin). by left.
Qed.

Lemma readEntries_app es r :
  small es -> Forall goodEntry es -> NoDup es.*1 ->
  readEntries (WriteUvarint (Z.of_nat (length es)) ++ concat (writeEntry <$> es) ++ r) = Ok (es, r).
Proof.
  intros Hl He Hd. unfold readEntries. rewrite ReadUvarint_app by done. cbn [mbind result_bind].
  rewrite (ReadMany_app readEntry writeEntry).
  - cbn [mbind result_bind]. by rewrite put_all.
  - eapply Forall_impl; [exact He|]. intros e Hge. split; [done|]. intros r'. by apply readEntry_app.
Qed.

Lemma readRuleItemString_app l r :
  small l -> Forall (fun s => small (stringBytes s)) l ->
  readRuleItemString (WriteUvarint (Z.of_nat (length l)) ++ concat (writeString <$> l) ++ r) = Ok (l, r).
Proof.
  intros Hl Hs. unfold readRuleItemString. apply ReadCounted; [done|].
  eapply Forall_impl; [exact Hs|]. intros s Hs'. split; [apply WriteUvarint_nonempty|].
  intros r'. unfold readString, writeString. rewrite ReadSliceBytes_app by done. cbn [mbind result_bind].
  by rewrite bytesString_stringBytes.
Qed.

(** ** What the format relies on *)

Class SrsLaws `{SrsExternal} := {
  ofRanges_ranges : forall set, IPSet_ofRanges (IPSet_ranges set) = set;
  (** sets hold addresses without zones *)
  ranges_real : forall added set, IPSetBuilder_IPSet added = Ok set ->
    small (IPSet_ranges set) /\ Forall (fun rr => realAddr rr.1 /\ realAddr rr.2) (IPSet_ranges set);
  zlib_roundtrip : forall b, zlib_NewReader (zlib_compress b) = Ok b;
}.

Lemma readIPSet_app `{SrsLaws} added set r :
  IPSetBuilder_IPSet added = Ok set -> readIPSet (writeIPSet set ++ r) = Ok (set, r).
Proof.
  intros Hset. destruct (ranges_real _ _ Hset) as [Hl Hr]. unfold readIPSet, writeIPSet.
  rewrite <- !app_assoc. cbn [app ReadByte mbind result_bind]. change (byteZ x01) with 1. cbn [Z.eqb negb Pos.eqb].
  rewrite ReadUint_app by done. cbn [mbind result_bind]. rewrite (ReadMany_app readRange writeRange).
  - cbn [mbind result_bind]. by rewrite ofRanges_ranges.
  - eapply Forall_impl; [exact Hr|]. intros [a b] [Ha Hb]. cbn [fst snd] in *. split.
    + unfold writeRange, writeAddr. rewrite <- app_assoc. apply WriteUvarint_nonempty.
    + intros r'. unfold readRange, writeRange. rewrite <- app_assoc. cbn [fst snd].
      rewrite readIPSetAddr_app by done. cbn [mbind result_bind]. by rewrite readIPSetAddr_app.
Qed.

(** ** AdGuard matchers *)

Lemma writeAt_length b off x b' : writeAt b off x = Ok b' -> length b' = length b.
Proof.
  unfold writeAt. destruct (Nat.leb_spec (off + length x) (length b)); [|done]. intros [= <-].
  rewrite !length_app, length_take, length_drop. lia.
Qed.

Lemma reverseDomain_length d b : reverseDomain d = Ok b -> length b = length d.
Proof.
  unfold reverseDomain. intros E. rewrite <- (length_replicate (length d) x00).
  revert E. generalize (length d) at 1 as fuel. generalize 0%nat as i. generalize (replicate (length d) x00) as buf.
  generalize d as rest. intros rest buf i fuel. revert rest buf i.
  induction fuel as [|fuel IH]; intros [|c rest] buf i E; try (by injection E as <-); [done|].
  cbn [reverseLoop] in E. destruct (DecodeRune (c :: rest)) as [r n]. ok_inv.
  apply IH in E. rewrite E. by eapply writeAt_length.
Qed.

Lemma cutSuffix_length c s : (length (cutSuffix c s).1 <= length s)%nat.
Proof.
  unfold cutSuffix. destruct (last s) as [x|] eqn:E; [|done]. apply last_Some in E as [l ->].
  case_decide; [|done]. cbn [fst]. rewrite removelast_last, length_app. lia.
Qed.

Lemma adGuardLine_length l : (length (adGuardLine l) <= length l + 2)%nat.
Proof.
  unfold adGuardLine. destruct l as [|a [|b rest]];
    repeat case_decide; subst; cbv beta iota zeta;
    match goal with |- context [cutSuffix caret ?x] =>
      pose proof (cutSuffix_length caret x) as H1; destruct (cutSuffix caret x) as [y e] end;
    cbn [fst] in H1; destruct e; cbn [length] in *; try lia; rewrite length_app;
    match goal with |- context [cutSuffix dot ?x] => pose proof (cutSuffix_length dot x) as H2 end; cbn [length] in *; lia.
Qed.

Lemma uniqFrom_ok l : forall seen, NoDup (uniqFrom seen l) /\ (forall x, x ∈ uniqFrom seen l -> x ∉ seen)
  /\ (sum_list_with length (uniqFrom seen l) <= sum_list_with length l)%nat /\ (l <> [] -> seen = ∅ -> uniqFrom seen l <> []).
Proof.
  induction l as [|x l IH]; intros seen; cbn [uniqFrom].
  { split_and!; [constructor|by intros x ?%elem_of_nil|done|done]. }
  destruct (decide (x ∈ seen)) as [Hin|Hnin].
  - destruct (IH seen) as (H1 & H2 & H3 & H4). split_and!; [done|done|cbn [sum_list_with]; lia|set_solver].
  - destruct (IH ({[x]} ∪ seen)) as (H1 & H2 & H3 & H4). split_and!; [| |cbn [sum_list_with]; lia|done].
    + constructor; [|done]. intros Hx. apply H2 in Hx. set_solver.
    + intros y [->|Hy]%elem_of_cons; [done|]. apply H2 in Hy. set_solver.
Qed.

Lemma newAdGuardMatcher_trie lines m :
  newAdGuardMatcher lines = Ok m -> lines <> [] ->
  Z.of_nat (sum_list_with (fun s => length s + 2)%nat lines) < 2 ^ 29 ->
  exists keys N, levelOrder m (mkQElt keys 0) N.
Proof.
  unfold newAdGuardMatcher. intros (l & Hl & Hm)%bind_ok Hne Hsize. rewrite mapR_ok in Hl.
  assert (Hlen : (sum_list_with length l <= sum_list_with (fun s => length s + 2) lines)%nat /\ l <> []).
  { split; [|intros ->; by apply Forall2_nil_inv_r in Hl]. clear -Hl. induction Hl as [|x y xs ys Hxy _ IH]; [done|].
    cbn [sum_list_with]. apply reverseDomain_length in Hxy. pose proof (adGuardLine_length x). lia. }
  destruct (uniqFrom_ok l ∅) as (Hd & _ & Hs & Hn). fold (Uniq l) in *.
  destruct (sort_Strings_ok _ Hd) as [Hsorted Hsame].
  destruct (newSuccinctSet_ok (sort_Strings (Uniq l))) as (m' & N & Em & Hlo).
  - intros E. destruct (Uniq l) as [|x u] eqn:Eu; [by apply Hn|]. specialize (Hsame x). rewrite E in Hsame.
    apply (elem_of_nil x). apply Hsame. by left.
  - done.
  - rewrite sort_Strings_size, <- sum_lengths. lia.
  - rewrite Em in Hm. injection Hm as <-. eauto.
Qed.

(** ** Default rules *)

Section rules.
Context `{SrsLaws}.
Import DefaultHeadlessRule.

Abbreviation rule := DefaultHeadlessRule.t.

(** Bytes that are one item, read as the assignments [fs], or none *)
Definition segment (b : bytes) (fs : list Field) : Prop :=
  (b = [] /\ fs = [])
  \/ exists ty body, b = zByte ty :: body /\ 0 <= ty < 255
       /\ forall last_ rest, readItem false ty last_ (body ++ rest) = Ok (fs, rest).

Lemma assignAll_app a b (ru : rule) : assignAll (a ++ b) ru = assignAll b (assignAll a ru).
Proof. apply foldl_app. Qed.

Lemma read_byte z r : 0 <= z < 256 -> ReadUint 1 (zByte z :: r) = Ok (z, r).
Proof.
  intros Hz. pose proof (ReadUint_app 1 z r) as E. cbn [bigEndian app] in E. rewrite Z.shiftr_0_r in E. apply E.
  unfold fits. lia.
Qed.

Lemma readBool_app b r : readBool (writeBool b ++ r) = Ok (b, r).
Proof. by destruct b. Qed.

Lemma readItems_segments segs : forall fuel last_ ru inv rest,
  Forall (fun s => segment s.1 s.2) segs -> (length (concat segs.*1) < fuel)%nat ->
  readItems fuel false last_ ru (concat segs.*1 ++ itemByte ruleItemFinal ++ writeBool inv ++ rest) =
  Ok (assign (FInvert inv) (assignAll (concat segs.*2) ru), rest).
Proof.
  induction segs as [|[b fs] segs IH]; intros fuel last_ ru inv rest Hs Hf; (destruct fuel as [|fuel]; [simpl in Hf; lia|]).
  - cbn [readItems concat fmap list_fmap app]. unfold itemByte. cbn [app].
    rewrite (bind_Ok _ _ _ (read_byte ruleItemFinal _ ltac:(lia))).
    rewrite Z.eqb_refl, readBool_app. done.
  - apply Forall_cons_1 in Hs as [Hseg Hs]. rewrite !fmap_cons in *. cbn [concat fst snd] in *.
    destruct Hseg as [[-> ->]|(ty & body & -> & Hty & Hread)].
    + cbn [app] in *. by apply IH.
    + rewrite <- app_assoc. cbn [app readItems]. rewrite (bind_Ok _ _ _ (read_byte ty _ ltac:(lia))).
      rewrite (proj2 (Z.eqb_neq _ _)) by lia. rewrite (bind_Ok _ _ _ (Hread _ _)).
      cbn [app length] in Hf. rewrite length_app in Hf. rewrite IH, assignAll_app by (done || lia). done.
Qed.

(** The assignments of what is written *)
Definition fieldIf {A} (given : bool) (f : A -> Field) (v : A) : list Field := if given then [f v] else [].

Definition listField {A} (f : slice A -> Field) (v : slice A) : list Field :=
  fieldIf (nonempty (elems v)) f (Some (elems v)).

(** The set of a list of addresses *)
Definition builtIPSet (l : list string) : option IPSet :=
  match (added ← parseCIDRs 0 l; IPSetBuilder_IPSet added) with Ok set => Some set | Err _ => None end.

Definition domainGiven (ru : rule) : bool := nonempty (elems (Domain ru)) || nonempty (elems (DomainSuffix ru)).

Definition itemFields (ru : rule) (v : Z) : list (list Field) :=
  [ listField FQueryType (QueryType ru)
  ; listField FNetwork (Network ru)
  ; fieldIf (domainGiven ru) FDomainMatcher
      (Some (newMatcher (stringBytes <$> elems (Domain ru)) (stringBytes <$> elems (DomainSuffix ru)) (v =? RuleSetVersion1)))
  ; listField FDomainKeyword (DomainKeyword ru)
  ; listField FDomainRegex (DomainRegex ru)
  ; fieldIf (nonempty (elems (SourceIPCIDR ru))) FSourceIPSet (builtIPSet (elems (SourceIPCIDR ru)))
  ; fieldIf (nonempty (elems (IPCIDR ru))) FIPSet (builtIPSet (elems (IPCIDR ru)))
  ; listField FSourcePort (SourcePort ru)
  ; listField FSourcePortRange (SourcePortRange ru)
  ; listField FPort (Port ru)
  ; listField FPortRange (PortRange ru)
  ; listField FProcessName (ProcessName ru)
  ; listField FProcessPath (ProcessPath ru)
  ; listField FProcessPathRegex (ProcessPathRegex ru)
  ; listField FPackageName (PackageName ru)
  ; listField FNetworkType (NetworkType ru)
  ; fieldIf (NetworkIsExpensive ru) FNetworkIsExpensive true
  ; fieldIf (NetworkIsConstrained ru) FNetworkIsConstrained true
  ; listField FNetworkInterfaceAddress (NetworkInterfaceAddress ru)
  ; listField FDefaultInterfaceAddress (DefaultInterfaceAddress ru)
  ; listField FWIFISSID (WIFISSID ru)
  ; listField FWIFIBSSID (WIFIBSSID ru)
  ; fieldIf (nonempty (elems (AdGuardDomain ru))) FAdGuardDomainMatcher
      (Some (newAdGuardMatcher (stringBytes <$> elems (AdGuardDomain ru)))) ].

(** Lists of strings and numbers that a Go program can have *)
Definition goodStrings (l : slice string) : Prop :=
  small (elems l) /\ Forall (fun s => small (stringBytes s)) (elems l).

Definition goodUints (w : Z) (l : slice Z) : Prop := small (elems l) /\ Forall (fits w) (elems l).

(** The domains are names, and short enough for the index of the set. *)
Definition goodDomains (domains suffixes : slice string) : Prop :=
  exists ds ss, elems domains = text <$> ds /\ elems suffixes = text <$> ss
    /\ Forall isName ds /\ Forall isName ss /\ Forall (fun s => s <> []) ss
    /\ Z.of_nat (keyRoom ds + keyRoom ss) < 2 ^ 29.

(** Rules whose options can be written *)
Record goodRule (ru : rule) : Prop := mkGoodRule {
  good_query : goodUints 16 (QueryType ru);
  good_network : goodStrings (Network ru);
  good_domains : goodDomains (Domain ru) (DomainSuffix ru);
  good_keyword : goodStrings (DomainKeyword ru);
  good_regex : goodStrings (DomainRegex ru);
  good_source_port : goodUints 16 (SourcePort ru);
  good_source_range : goodStrings (SourcePortRange ru);
  good_port : goodUints 16 (Port ru);
  good_range : goodStrings (PortRange ru);
  good_process : goodStrings (ProcessName ru);
  good_path : goodStrings (ProcessPath ru);
  good_path_regex : goodStrings (ProcessPathRegex ru);
  good_package : goodStrings (PackageName ru);
  good_type : goodUints 8 (NetworkType ru);
  good_ssid : goodStrings (WIFISSID ru);
  good_bssid : goodStrings (WIFIBSSID ru);
  good_interfaces : small (elems (NetworkInterfaceAddress ru)) /\ Forall goodEntry (elems (NetworkInterfaceAddress ru))
    /\ NoDup (elems (NetworkInterfaceAddress ru)).*1;
  good_default_interface : small (elems (DefaultInterfaceAddress ru)) /\ Forall goodPrefix (elems (DefaultInterfaceAddress ru));
  good_adguard : Z.of_nat (sum_list_with (fun s => length (stringBytes s) + 2)%nat (elems (AdGuardDomain ru))) < 2 ^ 29;
}.

Lemma appended_elems {A} (l : slice A) : nonempty (elems l) = true -> appended (elems l) = Some (elems l).
Proof. by destruct l as [[|x l]|]. Qed.

Lemma segment_when given item fs :
  (given = true -> forall b, item = Ok b -> segment b fs) -> forall b, when given item = Ok b -> segment b (if given then fs else []).
Proof. intros Hg b Hb. destruct given; [by apply Hg|]. injection Hb as <-. by left. Qed.

(** The items of strings *)
Lemma segment_strings ty (f : slice string -> Field) l :
  0 <= ty < 255 -> goodStrings l ->
  (forall last_ r, readItem false ty last_ r = '(value, r) ← readRuleItemString r; Ok ([f (appended value)], r)) ->
  forall b, stringsItem ty l = Ok b -> segment b (listField f l).
Proof.
  intros Hty [Hl Hs] Hread. apply segment_when. intros Hg b [= <-]. right. unfold writeRuleItemString, itemByte.
  eexists ty, _. split; [reflexivity|]. split; [done|]. intros last_ rest. rewrite Hread, <- app_assoc.
  rewrite readRuleItemString_app by done. cbn [mbind result_bind]. by rewrite appended_elems.
Qed.

Lemma segment_uints (n : nat) w ty (f : slice Z -> Field) l :
  (n <> 0)%nat -> w = 8 * Z.of_nat n -> 0 <= ty < 255 -> goodUints w l -> nonempty (elems l) = true ->
  (forall last_ r, exists g, readItem false ty last_ r = ('(value, r) ← ReadSliceUint n r; Ok ([f (g value)], r))
     /\ g (elems l) = Some (elems l)) ->
  segment (itemByte ty ++ WriteUvarint (Z.of_nat (length (elems l))) ++ concat (bigEndian n <$> elems l)) [f (Some (elems l))].
Proof.
  intros Hn -> Hty [Hl Hs] Hg Hread. right. unfold itemByte. eexists ty, _. split; [reflexivity|]. split; [done|].
  intros last_ rest. destruct (Hread last_ ((WriteUvarint (Z.of_nat (length (elems l))) ++ concat (bigEndian n <$> elems l)) ++ rest)) as (g & -> & Eg).
  rewrite <- app_assoc, ReadSliceUint_app by done. cbn [mbind result_bind]. by rewrite Eg.
Qed.

(** The branches of the switch, without recovery of the lists *)
Lemma readItem_domain last_ r : readItem false ruleItemDomain last_ r =
  '(matcher, r) ← readSuccinctSet r; Ok ([FDomainMatcher (Some (Ok matcher))], r).
Proof. done. Qed.

Lemma readItem_adguard last_ r : readItem false ruleItemAdGuardDomain last_ r =
  '(matcher, r) ← readSuccinctSet r; Ok ([FAdGuardDomainMatcher (Some (Ok matcher))], r).
Proof. done. Qed.

Lemma readItem_entries last_ r : readItem false ruleItemNetworkInterfaceAddress last_ r =
  '(entries, r) ← readEntries r; Ok ([FNetworkInterfaceAddress (Some entries)], r).
Proof. done. Qed.

Lemma readItem_prefixes last_ r : readItem false ruleItemDefaultInterfaceAddress last_ r =
  '(value, r) ← readPrefixes r; Ok ([FDefaultInterfaceAddress (appended value)], r).
Proof. done. Qed.

(** The matcher of the domains *)
Lemma segment_domains ru v :
  goodDomains (Domain ru) (DomainSuffix ru) -> domainGiven ru = true -> forall b,
  (matcher ← newMatcher (stringBytes <$> elems (Domain ru)) (stringBytes <$> elems (DomainSuffix ru)) (v =? RuleSetVersion1);
   Ok (itemByte ruleItemDomain ++ succinctSet_Write matcher)) = Ok b ->
  segment b [FDomainMatcher (Some (newMatcher (stringBytes <$> elems (Domain ru)) (stringBytes <$> elems (DomainSuffix ru)) (v =? RuleSetVersion1)))].
Proof.
  intros (ds & ss & Ed & Es & Hd & Hs & Hs0 & Hroom) Hg b. unfold domainGiven in Hg. rewrite Ed, Es in *. rewrite !texts_bytes.
  destruct (newMatcher_trie ds ss (v =? RuleSetVersion1) Hd Hs Hs0) as (m & keys & N & -> & Hlo & _); [|done|].
  { intros [-> ->]%app_nil. done. }
  intros [= <-]. right. unfold itemByte. eexists ruleItemDomain, _. split; [reflexivity|]. split; [done|].
  intros last_ rest. by rewrite readItem_domain, (readSuccinctSet_Write _ _ _ Hlo).
Qed.

Lemma segment_adguard lines (v : Z) :
  Z.of_nat (sum_list_with (fun s => length (stringBytes s) + 2)%nat lines) < 2 ^ 29 -> lines <> [] -> forall b,
  (if v <? RuleSetVersion2 then Err "AdGuard rule items is only supported in version 2 or later"%string
   else matcher ← newAdGuardMatcher (stringBytes <$> lines); Ok (itemByte ruleItemAdGuardDomain ++ succinctSet_Write matcher)) = Ok b ->
  segment b [FAdGuardDomainMatcher (Some (newAdGuardMatcher (stringBytes <$> lines)))].
Proof.
  intros Hsize Hne b Hb. destruct (v <? RuleSetVersion2); [done|]. apply bind_ok in Hb as (m & Hm & [= <-]). rewrite Hm.
  destruct (newAdGuardMatcher_trie _ _ Hm) as (keys & N & Hlo); [by destruct lines| |].
  { eapply Z.le_lt_trans; [|exact Hsize]. apply inj_le. clear. induction lines as [|l lines IH]; [done|].
    rewrite fmap_cons. cbn [sum_list_with]. lia. }
  right. unfold itemByte. eexists ruleItemAdGuardDomain, _. split; [reflexivity|]. split; [done|].
  intros last_ rest. by rewrite readItem_adguard, (readSuccinctSet_Write _ _ _ Hlo).
Qed.

(** A set of addresses *)
Lemma segment_cidr what ty (f : option IPSet -> Field) l :
  0 <= ty < 255 ->
  (forall last_ r, readItem false ty last_ r = '(set, r) ← readIPSet r; Ok ([f (Some set)], r)) -> forall b,
  causing what (writeRuleItemCIDR ty l) = Ok b -> segment b [f (builtIPSet l)].
Proof.
  intros Hty Hread b Hb. apply causing_ok in Hb. unfold writeRuleItemCIDR in Hb.
  apply bind_ok in Hb as (added & Hadded & Hb). apply bind_ok in Hb as (set & Hset & [= <-]).
  unfold builtIPSet. rewrite (bind_Ok _ _ _ Hadded), Hset. right. unfold itemByte.
  eexists ty, _. split; [reflexivity|]. split; [done|]. intros last_ rest. rewrite Hread.
  by rewrite (readIPSet_app _ _ _ Hset).
Qed.

Lemma since_ok version v what item b : since version v what item = Ok b -> b = item.
Proof. unfold since. destruct (v <? version); [done|]. by intros [= <-]. Qed.

(** An item with the bytes [body] *)
Lemma segment_since version v what ty body fs :
  0 <= ty < 255 -> (forall last_ rest, readItem false ty last_ (body ++ rest) = Ok (fs, rest)) -> forall b,
  since version v what (itemByte ty ++ body) = Ok b -> segment b fs.
Proof. intros Hty Hread b ->%since_ok. right. by exists ty, body. Qed.

Lemma writeItems_segments ru v :
  goodRule ru -> Forall2 (fun item fs => forall b, item = Ok b -> segment b fs) (writeItems ru v) (itemFields ru v).
Proof.
  intros G. unfold writeItems, writeConnectionItems, writeDeviceItems, itemFields. cbn [app].
  repeat apply Forall2_cons_2; [..|constructor];
    try (apply segment_strings; [done|apply G|done]).
  all: apply segment_when; intros Hg.
  - intros b [= <-]. apply (segment_uints 2 16); [done|done|done|apply G|done|]. intros. by exists Some.
  - apply segment_domains; [apply G|done].
  - by apply segment_cidr.
  - by apply segment_cidr.
  - intros b [= <-]. apply (segment_uints 2 16); [done|done|done|apply G|done|]. intros. exists appended. by rewrite appended_elems.
  - intros b [= <-]. apply (segment_uints 2 16); [done|done|done|apply G|done|]. intros. exists appended. by rewrite appended_elems.
  - intros b ->%since_ok. apply (segment_uints 1 8); [done|done|done|apply G|done|]. intros. exists appended. by rewrite appended_elems.
  - intros b ->%since_ok. right. by exists ruleItemNetworkIsExpensive, [].
  - intros b ->%since_ok. right. by exists ruleItemNetworkIsConstrained, [].
  - apply segment_since; [done|]. intros last_ rest. destruct (good_interfaces _ G) as (Hl & He & Hd).
    rewrite <- app_assoc. by rewrite readItem_entries, readEntries_app.
  - apply segment_since; [done|]. intros last_ rest. destruct (good_default_interface _ G) as (Hl & Hp).
    rewrite readItem_prefixes, readPrefixes_app by done. cbn [mbind result_bind]. by rewrite appended_elems.
  - apply segment_adguard; [apply G|]. by destruct (elems (AdGuardDomain ru)).
Qed.

(** ** The compiled form *)

Definition given {A} (v : slice A) : slice A := if nonempty (elems v) then Some (elems v) else None.

(** What is read back of a rule written for version [v]: domains and addresses are kept as
    matchers and sets only; conditions on tunnels are not written. *)
Definition compiled (v : Z) (ru : rule) : rule :=
  mk (given (QueryType ru)) (given (Network ru)) None None (given (DomainKeyword ru)) (given (DomainRegex ru)) None None
    (given (SourcePort ru)) (given (SourcePortRange ru)) (given (Port ru)) (given (PortRange ru)) (given (ProcessName ru))
    (given (ProcessPath ru)) (given (ProcessPathRegex ru)) (given (PackageName ru)) (given (NetworkType ru))
    (NetworkIsExpensive ru) (NetworkIsConstrained ru) (given (WIFISSID ru)) (given (WIFIBSSID ru)) (Invert ru)
    (if domainGiven ru
     then Some (newMatcher (stringBytes <$> elems (Domain ru)) (stringBytes <$> elems (DomainSuffix ru)) (v =? RuleSetVersion1))
     else None)
    (if nonempty (elems (SourceIPCIDR ru)) then builtIPSet (elems (SourceIPCIDR ru)) else None)
    (if nonempty (elems (IPCIDR ru)) then builtIPSet (elems (IPCIDR ru)) else None)
    None
    (if nonempty (elems (AdGuardDomain ru)) then Some (newAdGuardMatcher (stringBytes <$> elems (AdGuardDomain ru))) else None)
    None None (given (NetworkInterfaceAddress ru)) (given (DefaultInterfaceAddress ru)).

(** An assignment that is made or not *)
Definition guard (c : bool) (f : Field) (r : t) : Field :=
  match f with
  | FQueryType v => FQueryType (if c then v else QueryType r)
  | FNetwork v => FNetwork (if c then v else Network r)
  | FDomain v => FDomain (if c then v else Domain r)
  | FDomainSuffix v => FDomainSuffix (if c then v else DomainSuffix r)
  | FDomainKeyword v => FDomainKeyword (if c then v else DomainKeyword r)
  | FDomainRegex v => FDomainRegex (if c then v else DomainRegex r)
  | FSourceIPCIDR v => FSourceIPCIDR (if c then v else SourceIPCIDR r)
  | FIPCIDR v => FIPCIDR (if c then v else IPCIDR r)
  | FSourcePort v => FSourcePort (if c then v else SourcePort r)
  | FSourcePortRange v => FSourcePortRange (if c then v else SourcePortRange r)
  | FPort v => FPort (if c then v else Port r)
  | FPortRange v => FPortRange (if c then v else PortRange r)
  | FProcessName v => FProcessName (if c then v else ProcessName r)
  | FProcessPath v => FProcessPath (if c then v else ProcessPath r)
  | FProcessPathRegex v => FProcessPathRegex (if c then v else ProcessPathRegex r)
  | FPackageName v => FPackageName (if c then v else PackageName r)
  | FNetworkType v => FNetworkType (if c then v else NetworkType r)
  | FNetworkIsExpensive v => FNetworkIsExpensive (if c then v else NetworkIsExpensive r)
  | FNetworkIsConstrained v => FNetworkIsConstrained (if c then v else NetworkIsConstrained r)
  | FWIFISSID v => FWIFISSID (if c then v else WIFISSID r)
  | FWIFIBSSID v => FWIFIBSSID (if c then v else WIFIBSSID r)
  | FInvert v => FInvert (if c then v else Invert r)
  | FDomainMatcher v => FDomainMatcher (if c then v else DomainMatcher r)
  | FSourceIPSet v => FSourceIPSet (if c then v else SourceIPSet r)
  | FIPSet v => FIPSet (if c then v else IPSet_ r)
  | FAdGuardDomain v => FAdGuardDomain (if c then v else AdGuardDomain r)
  | FAdGuardDomainMatcher v => FAdGuardDomainMatcher (if c then v else AdGuardDomainMatcher r)
  | FNetworkInterfaceAddress v => FNetworkInterfaceAddress (if c then v else NetworkInterfaceAddress r)
  | FDefaultInterfaceAddress v => FDefaultInterfaceAddress (if c then v else DefaultInterfaceAddress r)
  end.

Lemma assignAll_if (c : bool) f (ru : rule) : assignAll (if c then [f] else []) ru = assign (guard c f ru) ru.
Proof. destruct c, f, ru; reflexivity. Qed.

(** Makes the first of a list of assignments to a rule whose fields are known *)
Ltac assign_first :=
  rewrite assignAll_app, assignAll_if;
  match goal with |- context [assign (guard ?c ?f (mk ?a1 ?a2 ?a3 ?a4 ?a5 ?a6 ?a7 ?a8 ?a9 ?a10 ?a11 ?a12 ?a13 ?a14 ?a15 ?a16
      ?a17 ?a18 ?a19 ?a20 ?a21 ?a22 ?a23 ?a24 ?a25 ?a26 ?a27 ?a28 ?a29 ?a30 ?a31)) ?r] =>
    let x := eval cbn in (assign (guard c f r) r) in change (assign (guard c f r) r) with x
  end.

Lemma compiled_fields v ru :
  assign (FInvert (Invert ru)) (assignAll (concat (itemFields ru v)) (DefaultHeadlessRule.zero false)) = compiled v ru.
Proof.
  unfold itemFields, listField, fieldIf, DefaultHeadlessRule.zero. cbn [concat].
  do 23 assign_first. unfold compiled, given. destruct (NetworkIsExpensive ru), (NetworkIsConstrained ru); reflexivity.
Qed.

Lemma concatR_ok l b : concatR l = Ok b <-> exists bs, Forall2 (fun x y => x = Ok y) l bs /\ b = concat bs.
Proof.
  revert b. induction l as [|x l IH]; intros b; cbn [concatR].
  - split; [intros [= <-]; by exists []|]. intros (bs & ->%Forall2_nil_inv_l & ->). done.
  - rewrite bind_ok. setoid_rewrite bind_ok. setoid_rewrite IH. split.
    + intros (y & Hy & ys & (bs & Hbs & ->) & [= <-]). exists (y :: bs). split; [by constructor|done].
    + intros (bs & (y & ys & Hy & Hys & ->)%Forall2_cons_inv_l & ->). exists y. split; [done|].
      exists (concat ys). split; [by exists ys|done].
Qed.

(** A default rule that was written is read back in its compiled form. *)
Lemma readDefaultRule_app ru v items inv rest :
  goodRule ru -> concatR (writeItems ru v) = Ok items -> inv = Invert ru ->
  readDefaultRule false (items ++ itemByte ruleItemFinal ++ writeBool inv ++ rest) = Ok (compiled v ru, rest).
Proof.
  intros G (bs & Hbs & ->)%concatR_ok ->. pose proof (writeItems_segments ru v G) as Hseg.
  assert (Hlen : length bs = length (itemFields ru v)) by (by rewrite <- (Forall2_length _ _ _ Hbs)).
  assert (Hzip : Forall (fun s => segment s.1 s.2) (zip bs (itemFields ru v))).
  { clear Hlen. revert bs Hbs. induction Hseg as [|x fs xs fss Hx _ IH]; intros bs Hbs.
    - apply Forall2_nil_inv_l in Hbs as ->. constructor.
    - apply Forall2_cons_inv_l in Hbs as (y & ys & Hy & Hys & ->). constructor; [by apply Hx|by apply IH]. }
  rewrite <- (fst_zip bs (itemFields ru v)) by lia. unfold readDefaultRule.
  rewrite readItems_segments; [|done|rewrite length_app; lia].
  rewrite snd_zip by lia. by rewrite compiled_fields.
Qed.

(** ** Rules of any type *)

Abbreviation headless := (RuleOptions rule unit).

(** The options of rules that can be written: their type is known, and they are nested at most
    [levels] deep. *)
Fixpoint goodHeadless (levels : nat) (o : headless) : Prop :=
  match levels with
  | O => False
  | S levels =>
      let 'mkRuleOptions ty (ru, _) (mkLogicalOptions _ rules _ _) := o in
      (ty = RuleTypeDefault /\ goodRule ru)
      \/ (ty = RuleTypeLogical /\ small rules /\ Forall (goodHeadless levels) rules)
  end.

Fixpoint compiledRule (v : Z) (o : headless) : headless :=
  match o with
  | mkRuleOptions ty (ru, _) (mkLogicalOptions mode rules inv _) =>
      if String.eqb ty RuleTypeDefault then mkRuleOptions ty (compiled v ru, tt) zeroLogical
      else mkRuleOptions ty (DefaultHeadlessRule.zero false, tt) (mkLogicalOptions mode (map (compiledRule v) rules) inv tt)
  end.

Lemma readRules_app read what v rules : forall bs fuel i rest,
  Forall2 (fun o b => b <> [] /\ forall rest, read (b ++ rest) = Ok (compiledRule v o, rest)) rules bs ->
  (length rules <= fuel)%nat ->
  readRules read what fuel i (Z.of_nat (length rules)) (concat bs ++ rest) = Ok (map (compiledRule v) rules, rest).
Proof.
  induction rules as [|o rules IH]; intros bs fuel i rest Hbs Hf.
  { apply Forall2_nil_inv_l in Hbs as ->. by destruct fuel. }
  apply Forall2_cons_inv_l in Hbs as (b & bs' & [_ Hb] & Hbs & ->). cbn [length] in *. destruct fuel as [|fuel]; [lia|].
  cbn [readRules]. rewrite (proj2 (Z.leb_gt _ _)) by lia. cbn [concat]. rewrite <- app_assoc, Hb. cbn [causing mbind result_bind].
  replace (Z.of_nat (S (length rules)) - 1) with (Z.of_nat (length rules)) by lia.
  rewrite IH by (done || lia). done.
Qed.

Lemma enough_fuel {A} (P : A -> bytes -> Prop) l (bs : list bytes) rest :
  Forall2 (fun o b => b <> [] /\ P o b) l bs -> (length l <= S (length (concat bs ++ rest)))%nat.
Proof.
  intros H2. rewrite length_app. enough (length l <= length (concat bs))%nat by lia.
  induction H2 as [|o b l bs [Hne _] _ IH]; [done|]. cbn [concat length]. rewrite length_app.
  destruct b; [done|]. cbn [length]. lia.
Qed.

Lemma writeRule_nonempty o v b : writeRule o v = Ok b -> b <> [].
Proof.
  destruct o as [ty [ru u] [mode rules inv u']]. cbn [writeRule].
  destruct (String.eqb ty RuleTypeDefault); [unfold writeDefaultRule; by intros (? & _ & [= <-])%bind_ok|].
  destruct (String.eqb ty RuleTypeLogical); [|done]. cbn [writeLogicalRule].
  by intros (m & _ & (? & _ & [= <-])%bind_ok)%bind_ok.
Qed.

Lemma readable_rules v (read : bytes -> result (headless * bytes)) (good : headless -> Prop) rules bs :
  (forall o b rest, good o -> writeRule o v = Ok b -> read (b ++ rest) = Ok (compiledRule v o, rest)) ->
  Forall good rules -> Forall2 (fun x y => x = Ok y) (map (fun ru => writeRule ru v) rules) bs ->
  Forall2 (fun o b => b <> [] /\ forall rest, read (b ++ rest) = Ok (compiledRule v o, rest)) rules bs.
Proof.
  intros Hread Hrules. revert bs. induction Hrules as [|o rules Ho _ IHr]; intros bs Hbs.
  - apply Forall2_nil_inv_l in Hbs as ->. constructor.
  - apply Forall2_cons_inv_l in Hbs as (b & bs' & Hb & Hbs & ->). constructor; [|by apply IHr].
    split; [by eapply writeRule_nonempty|]. intros rest'. by apply Hread.
Qed.

Lemma readRule_app v levels : forall o b rest,
  goodHeadless levels o -> writeRule o v = Ok b -> readRule levels false (b ++ rest) = Ok (compiledRule v o, rest).
Proof.
  induction levels as [|levels IH]; intros [ty [ru []] [mode rules inv []]] b rest Hgood Hb; [done|].
  cbn [goodHeadless] in Hgood. destruct Hgood as [[-> Hru]|(-> & Hsmall & Hrules)]; cbn [writeRule String.eqb] in Hb.
  - change (String.eqb RuleTypeDefault RuleTypeDefault) with true in Hb. cbn [readRule].
    apply bind_ok in Hb as (items & Hitems & [= <-]). cbn [app].
    rewrite <- !app_assoc. cbn [app].
    rewrite (bind_Ok _ _ _ (read_byte 0 _ ltac:(lia))).
    pose proof (readDefaultRule_app ru v items _ rest Hru Hitems eq_refl) as E. unfold itemByte in E. cbn [app] in E.
    by rewrite Z.eqb_refl, E.
  - change (String.eqb RuleTypeLogical RuleTypeDefault) with false in Hb.
    change (String.eqb RuleTypeLogical RuleTypeLogical) with true in Hb. cbn [writeLogicalRule] in Hb.
    apply bind_ok in Hb as (m & Hm & Hb). apply bind_ok in Hb as (items & Hitems & [= <-]).
    apply concatR_ok in Hitems as (bs & Hbs & ->).
    pose proof (readable_rules _ _ _ _ _ (fun o b rest Ho => IH o b rest Ho) Hrules Hbs) as H2.
    cbn [readRule app]. rewrite <- !app_assoc. rewrite (bind_Ok _ _ _ (read_byte 1 _ ltac:(lia))).
    rewrite Z.eqb_refl. change (1 =? 0) with false. unfold readLogicalRule. cbn [app ReadByte mbind result_bind].
    assert (Em : (if byteZ m =? 0 then Ok LogicalTypeAnd else if byteZ m =? 1 then Ok LogicalTypeOr
                  else Err ("unknown logical mode: " +:+ pretty (byteZ m))%string) = Ok mode).
    { destruct (String.eqb_spec mode LogicalTypeAnd) as [->|]; [by injection Hm as <-|].
      destruct (String.eqb_spec mode LogicalTypeOr) as [->|]; [by injection Hm as <-|done]. }
    rewrite Em. cbn [mbind result_bind]. rewrite ReadUvarint_app by done. cbn [mbind result_bind].
    rewrite (readRules_app _ _ v rules bs _ _ _ H2 (enough_fuel _ _ _ _ H2)). cbn [mbind result_bind].
    by rewrite readBool_app.
Qed.

Lemma Read_written (rules : list headless) (v : Z) (b : bytes) :
  RuleSetVersion1 <= v <= RuleSetVersionCurrent -> small rules -> Forall (goodHeadless 101) rules ->
  Write rules v = Ok b -> Read false b = Ok (v, map (compiledRule v) rules).
Proof.
  intros Hv Hsmall Hrules Hw. unfold RuleSetVersion1, RuleSetVersionCurrent, RuleSetVersion4 in Hv.
  unfold Write in Hw. apply bind_ok in Hw as (items & Hitems & Hb). apply concatR_ok in Hitems as (bs & Hbs & ->).
  match type of Hb with Ok ?x = _ => assert (b = x) as -> by congruence end.
  unfold Read. change 3%nat with (length MagicBytes). rewrite (bind_Ok _ _ _ (ReadFull_app MagicBytes _)). rewrite bool_decide_true by done. cbn [negb].
  rewrite (bind_Ok _ _ _ (ReadUint_app 1 v _ ltac:(unfold fits; lia))).
  rewrite (proj2 (Z.ltb_ge _ _)) by (unfold RuleSetVersionCurrent, RuleSetVersion4; lia).
  rewrite zlib_roundtrip. cbn [mbind result_bind]. rewrite ReadUvarint_app by done. cbn [mbind result_bind].
  pose proof (readable_rules _ _ _ _ _ (fun o b rest Ho => readRule_app v 101 o b rest Ho) Hrules Hbs) as H2.
  rewrite <- (app_nil_r (concat bs)). rewrite (readRules_app _ _ v rules bs _ _ _ H2 (enough_fuel _ _ _ _ H2)). done.
Qed.
(** C21. A list of headless rules that Write accepts (any version, known rule types,
    values within the sizes of the format, interface tables without duplicate keys,
    nesting up to the depth the reader accepts) is read back as the version and the
    compiled form of every rule: the same lists, the domains as a matcher and the
    addresses as sets, without tunnel_source and tunnel_destination, which the format
    does not have. *)
Theorem srs_roundtrip (rules : list headless) (v : Z) (b : bytes) :
  RuleSetVersion1 <= v <= RuleSetVersionCurrent -> small rules -> Forall (goodHeadless 101) rules ->
  Write rules v = Ok b -> Read false b = Ok (v, map (compiledRule v) rules).
Proof. apply Read_written. Qed.
End rules.
