(* ===== verification/SrsRules.v ===== *)
(** * Compiled rules behave like their source

    A rule read from a binary rule set builds to the very rule its source builds to. *)

From S2P Require Import Prelude Binary MatchState Netip Context RuleItem Options RuleActions RuleAbstract RuleBuild.
From S2P Require Import Succinct DomainMatcher Matching Srs SrsSpec.
From S2P Require Import RuleSets.
From S2P Require Import Concrete Utf8 DomainNames.

(** ** What parts add to a rule *)

Section contributions.
Context `{External} `{DomainMatching}.

Definition contrib (p : Part) : result (list (Kind * RuleItem)) :=
  o ← p.2; Ok (match o with Some it => [(p.1, it)] | None => [] end).

Fixpoint contribs (ps : list Part) : result (list (Kind * RuleItem)) :=
  match ps with [] => Ok [] | p :: ps => l ← contrib p; ls ← contribs ps; Ok (l ++ ls) end.

Lemma contribs_app a b : contribs (a ++ b) = (l ← contribs a; l' ← contribs b; Ok (l ++ l')).
Proof.
  induction a as [|p a IH]; cbn [contribs app].
  - cbn [mbind result_bind]. by destruct (contribs b).
  - rewrite IH. destruct (contrib p) as [l|]; [|done]. cbn [mbind result_bind].
    destruct (contribs a) as [l1|]; [|done]. cbn [mbind result_bind].
    destruct (contribs b) as [l2|]; [|done]. cbn [mbind result_bind]. by rewrite app_assoc.
Qed.

Lemma assemble_contribs ps : forall r,
  assemble ps r = (l ← contribs ps; Ok (foldl (fun r ki => appendItem ki.1 ki.2 r) r l)).
Proof.
  induction ps as [|[k p] ps IH]; intros r; [done|]. cbn [assemble contribs contrib fst snd].
  destruct p as [o|]; [|done]. cbn [mbind result_bind]. rewrite IH. destruct (contribs ps) as [l|]; [|done].
  cbn [mbind result_bind]. by destruct o.
Qed.

(** [qs] adds what [ps] adds, unless [ps] fails. *)
Definition addsAs (ps qs : list Part) : Prop := forall l, contribs ps = Ok l -> contribs qs = Ok l.

Lemma addsAs_app a b c d : addsAs a b -> addsAs c d -> addsAs (a ++ c) (b ++ d).
Proof.
  intros H1 H2 l. rewrite !contribs_app. intros (l1 & E1 & (l2 & E2 & [= <-])%bind_ok)%bind_ok.
  by rewrite (H1 _ E1), (H2 _ E2).
Qed.

Lemma addsAs_cons p q ps qs : addsAs [p] [q] -> addsAs ps qs -> addsAs (p :: ps) (q :: qs).
Proof. apply (addsAs_app [p] [q]). Qed.

Lemma addsAs_pair p1 p2 q1 q2 ps qs :
  addsAs [p1; p2] [q1; q2] -> addsAs ps qs -> addsAs (p1 :: p2 :: ps) (q1 :: q2 :: qs).
Proof. apply (addsAs_app [p1; p2] [q1; q2]). Qed.

Lemma addsAs_refl ps : addsAs ps ps.
Proof. by intros l. Qed.

(** An item from the lists, or the same item from what was built before *)
Lemma addsAs_raw {A} k (isGiven : bool) (mk : result RuleItem) (ctor : A -> RuleItem) (mk' : result RuleItem) raw :
  (isGiven = true -> forall it, mk = Ok it -> ctor <$> raw = Some it) -> (isGiven = false -> raw = None) ->
  addsAs [part k isGiven mk; rawPart k isGiven ctor None] [part k false mk'; rawPart k false ctor raw].
Proof.
  intros Hg Hn l. unfold part, rawPart. cbn [contribs contrib fst snd]. destruct isGiven.
  - intros (l1 & (o & (it & Hit & [= <-])%bind_ok & [= <-])%bind_ok & Hrest)%bind_ok.
    cbn [mbind result_bind] in Hrest. injection Hrest as <-. cbn [mbind result_bind]. by rewrite (Hg eq_refl it Hit).
  - rewrite (Hn eq_refl). done.
Qed.
End contributions.

(** ** The parts of a compiled rule *)

Section compiled_rules.
Context `{SrsExternal}.
Import DefaultHeadlessRule.

Abbreviation rule := DefaultHeadlessRule.t.
Abbreviation headless := (RuleOptions rule unit).

(** A rule as a source file gives it: lists only, and none about tunnels *)
Record sourceRule (ru : rule) : Prop := mkSourceRule {
  src_matcher : DomainMatcher ru = None;
  src_source_set : SourceIPSet ru = None;
  src_set : IPSet_ ru = None;
  src_adguard : AdGuardDomainMatcher ru = None;
  src_tunnel_source : TunnelSource ru = None;
  src_tunnel_destination : TunnelDestination ru = None;
}.

Lemma elems_given {A} (l : slice A) : elems (given l) = elems l.
Proof. unfold given. destruct l as [[|x l]|]; done. Qed.

Lemma listPart_given {A} k (l : slice A) ctor : listPart k (given l) ctor = listPart k l ctor.
Proof. unfold listPart. by rewrite elems_given. Qed.

Lemma listPartR_given {A} k (l : slice A) ctor : listPartR k (given l) ctor = listPartR k l ctor.
Proof. unfold listPartR. by rewrite elems_given. Qed.

Lemma addsAs_cidr k what isSource l :
  addsAs [listPartR k l (fun l => causing what (NewIPCIDRItem isSource l)); rawPart k (nonempty (elems l)) (NewRawIPCIDRItem isSource) None]
    [listPartR k None (fun l => causing what (NewIPCIDRItem isSource l));
     rawPart k false (NewRawIPCIDRItem isSource) (if nonempty (elems l) then builtIPSet (elems l) else None)].
Proof.
  apply addsAs_raw; [|by intros ->]. intros -> it Hit%causing_ok. unfold NewIPCIDRItem in Hit.
  apply bind_ok in Hit as (added & Ha & (set & Hs & [= <-])%bind_ok). unfold builtIPSet.
  by rewrite (bind_Ok _ _ _ Ha), Hs.
Qed.

Lemma compiled_parts nm v ru :
  RuleSetVersion2 <= v -> sourceRule ru -> addsAs (headlessRuleParts nm ru) (headlessRuleParts nm (compiled v ru)).
Proof.
  intros Hv [S1 S2 S3 S4 S5 S6]. unfold headlessRuleParts. apply addsAs_app.
  - unfold headlessConnectionParts, compiled.
    cbn [QueryType Network Domain DomainSuffix DomainMatcher DomainKeyword DomainRegex SourceIPCIDR SourceIPSet IPCIDR IPSet_
      SourcePort SourcePortRange Port PortRange]. rewrite S1, S2, S3, !listPart_given, !listPartR_given.
    repeat first [apply addsAs_refl | apply addsAs_cons; [apply addsAs_refl|] | apply addsAs_pair; [apply addsAs_cidr|]
      | apply addsAs_pair; [apply addsAs_raw|]].
    + intros Hg it Hit. unfold domainGiven. rewrite Hg. unfold NewDomainItem in Hit.
      repeat case_bool_decide; [done..|]. injection Hit as <-. cbn [fmap option_fmap option_map NewRawDomainItem].
      unfold NewRawDomainItem. cbn [NewMatcher succinctMatching]. rewrite (proj2 (Z.eqb_neq _ _)); [done|].
      unfold RuleSetVersion1, RuleSetVersion2 in *. lia.
    + intros Hg. unfold domainGiven. by rewrite Hg.
  - unfold headlessDeviceParts, compiled.
    cbn [TunnelSource TunnelDestination ProcessName ProcessPath ProcessPathRegex PackageName NetworkType NetworkIsExpensive
      NetworkIsConstrained WIFISSID WIFIBSSID NetworkInterfaceAddress DefaultInterfaceAddress AdGuardDomain AdGuardDomainMatcher].
    rewrite S4, S5, S6, !listPart_given, !listPartR_given. apply addsAs_app; [apply addsAs_refl|].
    apply addsAs_app; [apply addsAs_refl|]. apply addsAs_raw; [|by intros ->].
    intros -> it [= <-]. done.
Qed.

(** Rules as source files give them, each with a condition that is written *)
Fixpoint sourceOptions (v : Z) (levels : nat) (o : headless) : Prop :=
  match levels with
  | O => False
  | S levels =>
      let 'mkRuleOptions ty (ru, _) (mkLogicalOptions _ rules _ _) := o in
      (ty = RuleTypeDefault /\ sourceRule ru /\ isZero (compiled v ru) = false)
      \/ (ty = RuleTypeLogical /\ Forall (sourceOptions v levels) rules)
  end.

Abbreviation valid := (IsValid isZero (fun _ : unit => true) true "unknown rule type: ").

Lemma allR_true {B} (f : B -> result bool) l : allR f l = Ok true <-> Forall (fun x => f x = Ok true) l.
Proof.
  induction l as [|x l IH]; cbn [allR]; [by split|]. rewrite Forall_cons, <- IH.
  destruct (f x) as [[]|]; cbn [mbind result_bind]; naive_solver.
Qed.

Lemma valid_logical d mode rules inv a :
  valid (mkRuleOptions RuleTypeLogical d (mkLogicalOptions mode rules inv a)) = if nonempty rules then allR valid rules else Ok false.
Proof. done. Qed.

Lemma compiledRule_default v ru a l :
  compiledRule v (mkRuleOptions RuleTypeDefault (ru, a) l) = mkRuleOptions RuleTypeDefault (compiled v ru, tt) zeroLogical.
Proof. by destruct l. Qed.

Lemma compiledRule_logical v d mode rules inv a :
  compiledRule v (mkRuleOptions RuleTypeLogical d (mkLogicalOptions mode rules inv a)) =
  mkRuleOptions RuleTypeLogical (DefaultHeadlessRule.zero false, tt) (mkLogicalOptions mode (map (compiledRule v) rules) inv tt).
Proof. by destruct d. Qed.

Lemma compiled_valid v levels : forall o,
  sourceOptions v levels o -> valid o = Ok true -> valid (compiledRule v o) = Ok true.
Proof.
  induction levels as [|levels IH]; intros [ty [ru []] [mode rules inv []]] Hsrc Hv; [done|].
  destruct Hsrc as [(-> & _ & Hz)|(-> & Hrules)].
  - cbn. unfold DefaultIsValid. cbn. by rewrite Hz.
  - rewrite valid_logical in Hv. rewrite compiledRule_logical, valid_logical. destruct (nonempty rules) eqn:Hne; [|done].
    replace (nonempty (map (compiledRule v) rules)) with true by (by destruct rules).
    apply allR_true. apply allR_true in Hv. apply Forall_map. rewrite Forall_forall in *. eauto.
Qed.

Section build.
Context `{DirectDialer} (nm : bool).

Lemma NewHeadlessRule_default ru a l :
  NewHeadlessRule nm (mkRuleOptions RuleTypeDefault (ru, a) l) =
  if isZero ru then Err "missing conditions"%string
  else r ← NewDefaultHeadlessRule nm ru; Ok (mkBuiltRule (DefaultRule r) None).
Proof.
  unfold NewHeadlessRule. cbn [newRule]. unfold DefaultIsValid, targetMissing. cbn [fst snd andb].
  rewrite andb_true_r. by destruct (isZero ru).
Qed.

Lemma NewHeadlessRule_logical d mode rules inv a :
  NewHeadlessRule nm (mkRuleOptions RuleTypeLogical d (mkLogicalOptions mode rules inv a)) =
  (ok ← valid (mkRuleOptions RuleTypeLogical d (mkLogicalOptions mode rules inv a));
   if negb ok then Err "missing conditions"%string
   else if String.eqb mode LogicalTypeAnd || String.eqb mode LogicalTypeOr then
     sub ← subRules (NewHeadlessRule nm) 0 rules; Ok (mkBuiltRule (LogicalRule mode sub inv) None)
   else Err (unknownMode mode)).
Proof. done. Qed.

Lemma NewDefaultHeadlessRule_compiled v ru r :
  RuleSetVersion2 <= v -> sourceRule ru -> NewDefaultHeadlessRule nm ru = Ok r -> NewDefaultHeadlessRule nm (compiled v ru) = Ok r.
Proof.
  intros Hv Hs. unfold NewDefaultHeadlessRule. rewrite !assemble_contribs. intros (l & Hl & [= <-])%bind_ok.
  by rewrite (compiled_parts nm v ru Hv Hs l Hl).
Qed.

Lemma subRules_compiled (new : headless -> result BuiltRule) v rules : forall i sub,
  Forall (fun o => forall r, new o = Ok r -> new (compiledRule v o) = Ok r) rules ->
  subRules new i rules = Ok sub -> subRules new i (map (compiledRule v) rules) = Ok sub.
Proof.
  induction rules as [|o rules IH]; intros i sub Hall Hsub; [done|]. apply Forall_cons_1 in Hall as [Ho Hall].
  cbn [subRules map] in *. apply bind_ok in Hsub as (r & Hr%causing_ok & (rs & Hrs & [= <-])%bind_ok).
  rewrite (Ho _ Hr). cbn [causing mbind result_bind]. by rewrite (IH _ _ Hall Hrs).
Qed.

(** A rule read back builds to the very rule that its source builds to. *)
Lemma NewHeadlessRule_compiled (v : Z) (levels : nat) (o : headless) (r : BuiltRule) :
  RuleSetVersion2 <= v -> sourceOptions v levels o ->
  NewHeadlessRule nm o = Ok r -> NewHeadlessRule nm (compiledRule v o) = Ok r.
Proof.
  intros Hv. revert o r. induction levels as [|levels IH]; intros [ty [ru []] [mode rules inv []]] r Hsrc Hr; [done|].
  pose proof (compiled_valid v (S levels) _ Hsrc) as Hcv. destruct Hsrc as [(-> & Hs & Hz)|(-> & Hrules)].
  - rewrite compiledRule_default. rewrite NewHeadlessRule_default in *. rewrite Hz. destruct (isZero ru); [done|].
    apply bind_ok in Hr as (r' & Hr' & [= <-]). by rewrite (NewDefaultHeadlessRule_compiled _ _ _ Hv Hs Hr').
  - rewrite compiledRule_logical in *. rewrite NewHeadlessRule_logical in *. apply bind_ok in Hr as (ok & Hok & Hr). destruct ok; [|done].
    rewrite (Hcv Hok). cbn [mbind result_bind negb] in *. destruct (_ || _); [|done].
    apply bind_ok in Hr as (sub & Hsub & [= <-]). rewrite (subRules_compiled _ v _ _ _ ltac:(eapply Forall_impl; [exact Hrules|]; eauto) Hsub).
    done.
Qed.
End build.
End compiled_rules.

(** * Rule set files ([option/rule_set.go], [route/rule/rule_set_local.go])

    A local rule set that is loaded from a binary file: reading, the check of the version
    and the construction of the rules.  Loading the compiled file gives the rule set, rules
    and metadata, that loading the source gives. *)

Section rule_set_file.
Context `{SrsExternal} `{DirectDialer} (nm : bool).
Import DefaultHeadlessRule.

Abbreviation rule := DefaultHeadlessRule.t.
Abbreviation headless := (RuleOptions rule unit).

(** [PlainRuleSetCompat.Upgrade] *)
Definition Upgrade (ruleSet : Z * list headless) : result (list headless) :=
  let '(version, options) := ruleSet in
  if (version =? RuleSetVersion1) || (version =? RuleSetVersion2) || (version =? RuleSetVersion3) || (version =? RuleSetVersion4)
  then Ok options
  else Err ("unknown rule-set version: " +:+ pretty version)%string.

(** [LocalRuleSet.reloadFile] of a file in the binary format *)
Definition reloadBinaryFile (setFile : bytes) (tag : string) : result RuleSet :=
  ruleSet ← Read false setFile;
  plainRuleSet ← Upgrade ruleSet;
  reloadRules nm plainRuleSet tag.

(** ** The metadata of a compiled rule set *)

Lemma built_written (ru : rule) v items :
  concatR (writeItems ru v) = Ok items -> nonempty (elems (IPCIDR ru)) = true -> exists set, builtIPSet (elems (IPCIDR ru)) = Some set.
Proof.
  intros (bs & Hbs & _)%concatR_ok Hne.
  destruct (Forall2_lookup_l _ _ _ 6%nat _ Hbs eq_refl) as (b & _ & Hb). unfold when in Hb. rewrite Hne in Hb.
  apply causing_ok in Hb. unfold writeRuleItemCIDR in Hb. unfold builtIPSet.
  apply bind_ok in Hb as (added & Ha & (set & Hset & _)%bind_ok). rewrite (bind_Ok _ _ _ Ha), Hset. by exists set.
Qed.

(** A condition on default rules that compiling keeps *)
Definition kept (cond : rule -> bool) (v : Z) : Prop := forall ru items,
  sourceRule ru -> concatR (writeItems ru v) = Ok items -> cond (compiled v ru) = cond ru.

Lemma kept_process v : kept isProcessHeadlessRule v.
Proof. intros ru items _ _. unfold isProcessHeadlessRule, compiled. cbn [ProcessName ProcessPath ProcessPathRegex PackageName]. by rewrite !elems_given. Qed.

Lemma kept_wifi v : kept isWIFIHeadlessRule v.
Proof. intros ru items _ _. unfold isWIFIHeadlessRule, compiled. cbn [WIFISSID WIFIBSSID]. by rewrite !elems_given. Qed.

Lemma kept_cidr v : kept isIPCIDRHeadlessRule v.
Proof.
  intros ru items Hs Hw. unfold isIPCIDRHeadlessRule. rewrite (src_set _ Hs). cbn [IPCIDR IPSet_ compiled elems nonempty orb].
  destruct (nonempty (elems (IPCIDR ru))) eqn:Hne; [|done].
  by destruct (built_written ru v items Hw Hne) as (set & ->).
Qed.

Lemma has_compiled cond v levels : kept cond v -> forall o b,
  sourceOptions v levels o -> writeRule o v = Ok b -> HasHeadlessRule_one cond (compiledRule v o) = HasHeadlessRule_one cond o.
Proof.
  intros Hk. induction levels as [|levels IH]; intros [ty [ru []] [mode rules inv []]] b Hsrc Hw; [done|].
  destruct Hsrc as [(-> & Hs & _)|(-> & Hrules)].
  - rewrite compiledRule_default. cbn [HasHeadlessRule_one]. change (String.eqb RuleTypeDefault RuleTypeDefault) with true.
    apply bind_ok in Hw as (items & Hitems & _). by apply (Hk _ items).
  - rewrite compiledRule_logical. cbn [HasHeadlessRule_one]. change (String.eqb RuleTypeLogical RuleTypeDefault) with false.
    change (String.eqb RuleTypeLogical RuleTypeLogical) with true. cbn iota.
    apply bind_ok in Hw as (m & _ & (items & (bs & Hbs & _)%concatR_ok & _)%bind_ok).
    revert bs Hbs. clear -IH Hrules. induction Hrules as [|o rules Ho _ IHr]; intros bs Hbs; [done|].
    apply Forall2_cons_inv_l in Hbs as (b & bs' & Hb & Hbs & ->). cbn [map existsb].
    by rewrite (IH _ _ Ho Hb), (IHr _ Hbs).
Qed.

Lemma hasAny_compiled cond v levels rules bs : kept cond v -> Forall (sourceOptions v levels) rules ->
  Forall2 (fun x y => x = Ok y) (map (fun ru => writeRule ru v) rules) bs ->
  HasHeadlessRule cond (map (compiledRule v) rules) = HasHeadlessRule cond rules.
Proof.
  intros Hk Hrules. revert bs. unfold HasHeadlessRule. induction Hrules as [|o rules Ho _ IHr]; intros bs Hbs; [done|].
  apply Forall2_cons_inv_l in Hbs as (b & bs' & Hb & Hbs & ->). cbn [map existsb].
  by rewrite (has_compiled _ _ _ Hk _ _ Ho Hb), (IHr _ Hbs).
Qed.

Lemma parseRules_compiled v levels rules : RuleSetVersion2 <= v -> Forall (sourceOptions v levels) rules ->
  forall i rs, parseRules nm i rules = Ok rs -> parseRules nm i (map (compiledRule v) rules) = Ok rs.
Proof.
  intros Hv. induction 1 as [|o rules Ho _ IH]; intros i rs Hp; [done|]. cbn [parseRules map] in *.
  apply bind_ok in Hp as (r & Hr%causing_ok & (rs' & Hrs & Heq)%bind_ok).
  rewrite (NewHeadlessRule_compiled _ _ _ _ _ Hv Ho Hr). cbn [causing mbind result_bind].
  by rewrite (IH _ _ Hrs).
Qed.

Lemma reloadRules_compiled v levels rules b tag s : RuleSetVersion2 <= v -> Forall (sourceOptions v levels) rules ->
  Write rules v = Ok b -> reloadRules nm rules tag = Ok s -> reloadRules nm (map (compiledRule v) rules) tag = Ok s.
Proof.
  intros Hv Hsrc (items & (bs & Hbs & _)%concatR_ok & _)%bind_ok Hs. unfold reloadRules in *.
  apply bind_ok in Hs as (rs & Hrs & Heq). rewrite (bind_Ok _ _ _ (parseRules_compiled _ _ _ Hv Hsrc _ _ Hrs)).
  rewrite (hasAny_compiled _ _ _ _ _ (kept_process v) Hsrc Hbs), (hasAny_compiled _ _ _ _ _ (kept_wifi v) Hsrc Hbs),
    (hasAny_compiled _ _ _ _ _ (kept_cidr v) Hsrc Hbs). exact Heq.
Qed.

Lemma Upgrade_ok v options : RuleSetVersion1 <= v <= RuleSetVersionCurrent -> Upgrade (v, options) = Ok options.
Proof.
  unfold RuleSetVersionCurrent, RuleSetVersion4, RuleSetVersion1. intros Hv.
  assert (v = 1 \/ v = 2 \/ v = 3 \/ v = 4) as [-> | [-> | [-> | ->]]] by lia; done.
Qed.

Context (laws : SrsLaws).

(** C22. For source rules without tunnel_source and tunnel_destination, each default
    rule with a condition that the format writes, of sizes the format can hold and
    nested at most as deep as the reader accepts: compiling them with version 2 or
    later and loading the binary file gives the rule set, rules and metadata, that
    loading the source gives. *)
Theorem compiled_rule_set_reloads (rules : list headless) (v : Z) (setFile : bytes) (tag : string) (s : RuleSet) :
  RuleSetVersion2 <= v <= RuleSetVersionCurrent -> small rules ->
  Forall (goodHeadless 101) rules -> Forall (sourceOptions v 101) rules ->
  Write rules v = Ok setFile -> reloadRules nm rules tag = Ok s -> reloadBinaryFile setFile tag = Ok s.
Proof.
  intros Hv Hsmall Hgood Hsrc Hw Hs. unfold RuleSetVersion2 in Hv.
  assert (Hv1 : RuleSetVersion1 <= v <= RuleSetVersionCurrent) by (unfold RuleSetVersion1; lia).
  unfold reloadBinaryFile. rewrite (bind_Ok _ _ _ (Read_written _ _ _ Hv1 Hsmall Hgood Hw)).
  rewrite (bind_Ok _ _ _ (Upgrade_ok _ _ Hv1)). apply (reloadRules_compiled v 101 rules setFile); [unfold RuleSetVersion2; lia|done..].
Qed.
End rule_set_file.

(** * Concrete binary rule sets

    Address sets as lists of ranges and a stream that is not compressed satisfy what the
    format relies on; a rule set is written, read back and built. *)

(** The first and the last address of a prefix *)
Definition exRange (e : Prefix + Addr) : Addr * Addr :=
  match e with
  | inr a => (a, a)
  | inl p =>
      let free := netip.BitLen (paddr p) - prefix.Bits p in
      let base := Z.shiftl (Z.shiftr (netip.value (paddr p)) free) free in
      match paddr p with
      | Addr4 _ => (Addr4 base, Addr4 (base + 2 ^ free - 1))
      | Addr6 _ _ => (Addr6 base "", Addr6 (base + 2 ^ free - 1) "")
      | AddrInvalid => (AddrInvalid, AddrInvalid)
      end
  end.

Definition exReal (a : Addr) : bool :=
  match a with
  | AddrInvalid => false
  | Addr4 v => bool_decide (fits 32 v)
  | Addr6 v z => bool_decide (fits 128 v) && String.eqb z ""
  end.

Definition srsExternal : External := {|
  Regexp := string;
  regexp_Compile := fun s => Ok s;
  regexp_MatchString := fun p s => String.eqb p s;
  IPSet := list (Addr * Addr);
  IPSet_Contains := fun l a => existsb (fun r =>
    (netip.BitLen a =? netip.BitLen r.1) && (netip.value r.1 <=? netip.value a) && (netip.value a <=? netip.value r.2)) l;
  IPSetBuilder_IPSet := fun l =>
    let ranges := exRange <$> l in
    if (Z.of_nat (length l) <? 1000) && forallb (fun r => exReal r.1 && exReal r.2) ranges then Ok ranges
    else Err "invalid address"%string;
  netip_ParsePrefix := tableLookup exPrefixes;
  netip_ParseAddr := tableLookup exAddrs;
  net_ParseMAC6 := fun _ => None;
  hex_HardwareAddr := fun _ => None;
  strings_TrimSpace := fun s => s;
  unicode_ToLower := fun s => s;
  unicode_EqualFold := String.eqb;
|}.

#[local] Existing Instance srsExternal.

Definition srsConcrete : SrsExternal := {|
  IPSet_ranges := fun l => l : list (Addr * Addr);
  IPSet_ofRanges := fun l => l;
  IPSet_PrefixStrings := fun _ => [];
  zlib_compress := fun b => b;
  zlib_NewReader := fun b => Ok b;
|}.

#[local] Existing Instance srsConcrete.

Lemma exReal_ok a : exReal a = true -> realAddr a.
Proof.
  unfold realAddr. destruct a as [|v|v z]; cbn; [done| |].
  - intros Hv%bool_decide_eq_true_1. done.
  - intros [Hv%bool_decide_eq_true_1 ->%String.eqb_eq]%andb_true_iff. done.
Qed.

Lemma srsConcreteLaws : SrsLaws.
Proof.
  split; [done| |done]. intros added set Hset. cbn [IPSetBuilder_IPSet srsExternal] in Hset.
  destruct (Z.ltb_spec (Z.of_nat (length added)) 1000); [|done]. cbn [andb] in Hset.
  destruct (forallb _ _) eqn:Hall; [|done]. injection Hset as <-. rewrite forallb_forall in Hall. split.
  - unfold small, fits. cbn [IPSet_ranges srsConcrete]. rewrite length_fmap. lia.
  - apply Forall_forall. intros r Hr%list_elem_of_In. specialize (Hall r Hr). apply andb_true_iff in Hall as [H1 H2].
    split; by apply exReal_ok.
Qed.

(** ** A rule set *)

(** Domains, a suffix, an address range, ports, an interface address and a tunnel *)
Definition srsRule (tunnel : slice string) : DefaultHeadlessRule.t :=
  DefaultHeadlessRule.mk None None (Some ["example.com"]%string) (Some [".cn"]%string) None None None (Some ["10.0.0.0/8"]%string)
    None None (Some [53; 443]) None None None None None None false false None None false None None None None None tunnel None
    (Some [(0, [prefix.PrefixFrom (ip4 10 0 0 0) 8])]) None.

Definition srsDefault (tunnel : slice string) : RuleOptions DefaultHeadlessRule.t unit :=
  mkRuleOptions RuleTypeDefault (srsRule tunnel, tt) zeroLogical.

(** The rule, and the same in a logical rule *)
Definition srsRules (tunnel : slice string) : list (RuleOptions DefaultHeadlessRule.t unit) :=
  [srsDefault tunnel;
   mkRuleOptions RuleTypeLogical (DefaultHeadlessRule.zero false, tt) (mkLogicalOptions "and" [srsDefault tunnel] true tt)].

Lemma srsRule_good tunnel : goodRule (srsRule tunnel).
Proof.
  split; try (split; [done|repeat constructor; done]).
  - exists [runes "example.com"], [runes ".cn"]. split_and!; [reflexivity|reflexivity|..|vm_compute; reflexivity];
      apply (bool_decide_unpack _); vm_compute; exact I.
  - split_and!; [done| |apply (bool_decide_unpack _); vm_compute; exact I].
    repeat constructor; vm_compute; done.
  - vm_compute. reflexivity.
Qed.

Lemma srsRules_good : Forall (goodHeadless 101) (srsRules None).
Proof.
  assert (Hd : forall levels, goodHeadless (S levels) (srsDefault None)) by (intros; left; split; [reflexivity|apply srsRule_good]).
  constructor; [apply (Hd 100%nat)|]. constructor; [|constructor]. right. split; [reflexivity|]. split.
  - split; vm_compute; [discriminate|reflexivity].
  - constructor; [apply (Hd 99%nat)|constructor].
Qed.

Definition srsBytes : bytes := match Write (srsRules None) 4 with Ok b => b | Err _ => [] end.

Lemma srs_roundtrip_witness :
  Write (srsRules None) 4 = Ok srsBytes /\ Read false srsBytes = Ok (4, map (compiledRule 4) (srsRules None)).
Proof.
  assert (Hw : Write (srsRules None) 4 = Ok srsBytes) by (vm_compute; reflexivity).
  split; [exact Hw|]. apply (@srs_roundtrip _ _ srsConcreteLaws (srsRules None) 4 srsBytes).
  - split; vm_compute; discriminate.
  - split; vm_compute; [discriminate|reflexivity].
  - apply srsRules_good.
  - exact Hw.
Defined.

#[local] Existing Instance exDirectDialer.

Definition srsReloaded : RuleSet :=
  match reloadRules true (srsRules None) "srs" with Ok r => r | Err _ => LocalRuleSet "" [] (mkRuleSetMetadata false false false) end.

Definition succeeds {A} (r : result A) : bool := match r with Ok _ => true | Err _ => false end.

Lemma srsReloaded_ok : succeeds (reloadRules true (srsRules None) "srs") = true ->
  reloadRules true (srsRules None) "srs" = Ok srsReloaded.
Proof. unfold srsReloaded. by destruct (reloadRules true (srsRules None) "srs"). Qed.

Lemma compiled_rule_set_reloads_witness :
  reloadRules true (srsRules None) "srs" = Ok srsReloaded /\ reloadBinaryFile true srsBytes "srs" = Ok srsReloaded.
Proof.
  assert (Hb : reloadRules true (srsRules None) "srs" = Ok srsReloaded) by (apply srsReloaded_ok; vm_compute; reflexivity).
  split; [exact Hb|]. apply (compiled_rule_set_reloads true srsConcreteLaws (srsRules None) 4 srsBytes "srs" srsReloaded).
  - split; vm_compute; discriminate.
  - split; vm_compute; [discriminate|reflexivity].
  - apply srsRules_good.
  - assert (Hd : forall levels, sourceOptions 4 (S levels) (srsDefault None))
      by (intros; left; split; [reflexivity|]; split; [split; reflexivity|vm_compute; reflexivity]).
    constructor; [apply (Hd 100%nat)|]. constructor; [|constructor]. right. split; [reflexivity|].
    constructor; [apply (Hd 99%nat)|constructor].
  - vm_compute. reflexivity.
  - exact Hb.
Defined.

(** A condition on the tunnel does not reach the binary rule set. *)
Example tunnel_condition_lost : Write (srsRules (Some ["lan"]%string)) 4 = Write (srsRules None) 4.
Proof. vm_compute. reflexivity. Qed.
