(* ===== verification/CacheFile.v ===== *)
(** * The cache file ([experimental/cachefile])

    The cache file is a database of [bbolt], which is not part of the repository: the
    class [Bolt] has the operations the program calls, [BoltLaws] what it relies on.  A
    bucket is named by the path of names that leads to it, and a transaction is the
    database as the transaction sees it; [batch] keeps the changes of a transaction that
    returns no error and drops them otherwise. *)

From S2P Require Import Prelude Binary Netip Context DNSMessage FakeIP FakeIPSpec Saved.

Class Bolt := {
  DB : Type;
  (** the keys and values of the bucket at a path, if there is such a bucket *)
  bucketAt : DB -> list bytes -> option (gmap bytes bytes);
  CreateBucketIfNotExists : DB -> list bytes -> bytes -> result DB;
  BucketPut : DB -> list bytes -> bytes -> bytes -> result DB;
  BucketDelete : DB -> list bytes -> bytes -> result DB;
  DeleteBucket : DB -> list bytes -> bytes -> result DB;
}.

(** ** Names *)
Definition bucketSelected : bytes := stringBytes "selected".
Definition bucketExpand : bytes := stringBytes "group_expand".
Definition bucketMode : bytes := stringBytes "clash_mode".
Definition bucketRuleSet : bytes := stringBytes "rule_set".
Definition bucketRDRC : bytes := stringBytes "rdrc2".
Definition bucketFakeIP : bytes := stringBytes "fakeip_address".
Definition bucketFakeIPDomain4 : bytes := stringBytes "fakeip_domain4".
Definition bucketFakeIPDomain6 : bytes := stringBytes "fakeip_domain6".
Definition keyMetadata : bytes := stringBytes "fakeip_metadata".
Definition cacheIDDefault : bytes := stringBytes "default".

(** [saveRDRCCacheKey] *)
Abbreviation saveRDRCCacheKey := (string * string * Z)%type.

Section cache_file.
Context `{Bolt}.

(** The fields that change, and the two options; the clocks are arguments. *)
Record CacheFile := mkCacheFile {
  cacheID : option bytes;
  rdrcTimeout : Z;
  cDB : DB;
  saveMetadata : option FakeIPMetadata_;
  saveDomain : gmap Addr string;
  saveAddress4 : gmap string Addr;
  saveAddress6 : gmap string Addr;
  saveRDRC : gmap saveRDRCCacheKey bool;
}.

Definition setDB (c : CacheFile) (db : DB) : CacheFile :=
  mkCacheFile (cacheID c) (rdrcTimeout c) db (saveMetadata c) (saveDomain c) (saveAddress4 c)
    (saveAddress6 c) (saveRDRC c).

Definition setPending (c : CacheFile) (domains : gmap Addr string) (a4 a6 : gmap string Addr)
    : CacheFile :=
  mkCacheFile (cacheID c) (rdrcTimeout c) (cDB c) (saveMetadata c) domains a4 a6 (saveRDRC c).

Definition setSaveRDRC (c : CacheFile) (m : gmap saveRDRCCacheKey bool) : CacheFile :=
  mkCacheFile (cacheID c) (rdrcTimeout c) (cDB c) (saveMetadata c) (saveDomain c) (saveAddress4 c)
    (saveAddress6 c) m.

(** [New]: the identifier is stored behind a zero byte; the timeout of rejected responses
    is seven days by default. *)
Definition New (id : string) (storeRDRC : bool) (timeout : Z) (db : DB) : CacheFile :=
  mkCacheFile
    (if String.eqb id "" then None else Some (x00 :: stringBytes id))
    (if storeRDRC then if 0 <? timeout then timeout else 7 * 24 * 3600 * 10 ^ 9 else 0)
    db None ∅ ∅ ∅ ∅.

(** [batch] and [update], of a transaction that returns a value *)
Definition batch {A} (c : CacheFile) (fn : DB -> result (A * DB)) : result A * CacheFile :=
  match fn (cDB c) with
  | Ok (a, db) => (Ok a, setDB c db)
  | Err e => (Err e, c)
  end.

Definition batchUnit (c : CacheFile) (fn : DB -> result DB) : option error * CacheFile :=
  match fn (cDB c) with
  | Ok db => (None, setDB c db)
  | Err e => (Some e, c)
  end.

(** ** Mode, selection and files *)

(** [bucket] and [createBucket]: the buckets of an identifier are inside its own bucket. *)
Definition bucketPath (c : CacheFile) (key : bytes) : list bytes :=
  match cacheID c with None => [key] | Some id => [id; key] end.

Definition createBucket (c : CacheFile) (db : DB) (key : bytes) : result DB :=
  match cacheID c with
  | None => CreateBucketIfNotExists db [] key
  | Some id => db ← CreateBucketIfNotExists db [] id; CreateBucketIfNotExists db [id] key
  end.

Definition modeKey (c : CacheFile) : bytes :=
  match cacheID c with Some (x :: l) => x :: l | _ => cacheIDDefault end.

Definition LoadMode (c : CacheFile) : string :=
  match bucketAt (cDB c) [bucketMode] with
  | None => ""
  | Some bucket => bytesString (default [] (bucket !! modeKey c))
  end.

Definition StoreMode (c : CacheFile) (mode : string) : option error * CacheFile :=
  batchUnit c (fun db =>
    db ← CreateBucketIfNotExists db [] bucketMode;
    BucketPut db [bucketMode] (modeKey c) (stringBytes mode)).

Definition LoadSelected (c : CacheFile) (group : string) : string :=
  match bucketAt (cDB c) (bucketPath c bucketSelected) with
  | None => ""
  | Some bucket => bytesString (default [] (bucket !! stringBytes group))
  end.

Definition StoreSelected (c : CacheFile) (group selected : string) : option error * CacheFile :=
  batchUnit c (fun db =>
    db ← createBucket c db bucketSelected;
    BucketPut db (bucketPath c bucketSelected) (stringBytes group) (stringBytes selected)).

(** [Some isExpand] when loaded *)
Definition LoadGroupExpand (c : CacheFile) (group : string) : option bool :=
  bucket ← bucketAt (cDB c) (bucketPath c bucketExpand);
  expandBytes ← bucket !! stringBytes group;
  match expandBytes with [b] => Some (byteZ b =? 1) | _ => None end.

Definition StoreGroupExpand (c : CacheFile) (group : string) (isExpand : bool)
    : option error * CacheFile :=
  batchUnit c (fun db =>
    db ← createBucket c db bucketExpand;
    BucketPut db (bucketPath c bucketExpand) (stringBytes group) [if isExpand then x01 else x00]).

(** [LoadRuleSet] and [LoadBinary] are the same, in the same bucket. *)
Definition LoadRuleSet (c : CacheFile) (tag : string) : option SavedBinary :=
  bucket ← bucketAt (cDB c) (bucketPath c bucketRuleSet);
  match default [] (bucket !! stringBytes tag) with
  | [] => None
  | setBinary => match SavedBinary_UnmarshalBinary setBinary with Ok s => Some s | Err _ => None end
  end.

Definition SaveRuleSet (c : CacheFile) (tag : string) (set : SavedBinary) : option error * CacheFile :=
  batchUnit c (fun db =>
    db ← createBucket c db bucketRuleSet;
    BucketPut db (bucketPath c bucketRuleSet) (stringBytes tag) (SavedBinary_MarshalBinary set)).

Definition LoadBinary (c : CacheFile) (tag : string) : option SavedBinary :=
  bucket ← bucketAt (cDB c) (bucketPath c bucketRuleSet);
  match default [] (bucket !! stringBytes tag) with
  | [] => None
  | setBinary => match SavedBinary_UnmarshalBinary setBinary with Ok s => Some s | Err _ => None end
  end.

Definition SaveBinary (c : CacheFile) (tag : string) (set : SavedBinary) : option error * CacheFile :=
  batchUnit c (fun db =>
    db ← createBucket c db bucketRuleSet;
    BucketPut db (bucketPath c bucketRuleSet) (stringBytes tag) (SavedBinary_MarshalBinary set)).

(** ** Rejected DNS responses ([rdrc.go]) *)

Definition rdrcKey (qName : string) (qType : Z) : bytes := bigEndian 2 qType ++ stringBytes qName.

Definition rdrcPath (c : CacheFile) (transportName : string) : list bytes :=
  bucketPath c bucketRDRC ++ [stringBytes transportName].

(** [LoadRDRC] at a time in nanoseconds: an expired entry is deleted. *)
Definition CacheFile_LoadRDRC (c : CacheFile) (now : Z) (transportName qName : string) (qType : Z)
    : bool * CacheFile :=
  match saveRDRC c !! (transportName, qName, qType) with
  | Some rejected => (rejected, c)
  | None =>
      let key := rdrcKey qName qType in
      match bucketAt (cDB c) (bucketPath c bucketRDRC), bucketAt (cDB c) (rdrcPath c transportName) with
      | Some _, Some bucket =>
          match bucket !! key with
          | None => (false, c)
          | Some content =>
              let expiresAt := signed64 (fromBigEndian (take 8 content)) * 10 ^ 9 in
              if expiresAt <? now
              then (false, (batchUnit c (fun db => BucketDelete db (rdrcPath c transportName) key)).2)
              else (true, c)
          end
      | _, _ => (false, c)
      end
  end.

Definition CacheFile_SaveRDRC (c : CacheFile) (now : Z) (transportName qName : string) (qType : Z)
    : option error * CacheFile :=
  let expiresAt := bigEndian 8 ((now + rdrcTimeout c) / 10 ^ 9) in
  batchUnit c (fun db =>
    db ← createBucket c db bucketRDRC;
    db ← CreateBucketIfNotExists db (bucketPath c bucketRDRC) (stringBytes transportName);
    BucketPut db (rdrcPath c transportName) (rdrcKey qName qType) expiresAt).

(** [SaveRDRCAsync] notes the entry; its goroutine saves it and drops the note. *)
Definition SaveRDRCAsync (c : CacheFile) (transportName qName : string) (qType : Z) : CacheFile :=
  setSaveRDRC c (<[(transportName, qName, qType) := true]> (saveRDRC c)).

Definition saveRDRCDone (c : CacheFile) (now : Z) (transportName qName : string) (qType : Z) : CacheFile :=
  let c := (CacheFile_SaveRDRC c now transportName qName qType).2 in
  setSaveRDRC c (delete (transportName, qName, qType) (saveRDRC c)).

(** ** Fake addresses ([fakeip.go]) *)

Definition CacheFile_FakeIPMetadata (c : CacheFile) : option FakeIPMetadata_ * CacheFile :=
  let '(r, c) := batch c (fun db =>
    match bucketAt db [bucketFakeIP] with
    | None => Err "file does not exist"%string
    | Some bucket =>
        match default [] (bucket !! keyMetadata) with
        | [] => Err "invalid argument"%string
        | metadataBinary =>
            db ← BucketDelete db [bucketFakeIP] keyMetadata;
            m ← FakeIPMetadata_UnmarshalBinary metadataBinary;
            Ok (m, db)
        end
    end) in
  (match r with Ok m => Some m | Err _ => None end, c).

Definition CacheFile_FakeIPSaveMetadata (c : CacheFile) (m : FakeIPMetadata_)
    : option error * CacheFile :=
  batchUnit c (fun db =>
    db ← CreateBucketIfNotExists db [] bucketFakeIP;
    BucketPut db [bucketFakeIP] keyMetadata (FakeIPMetadata_MarshalBinary m)).

(** [FakeIPSaveMetadataAsync] notes the metadata and starts the timer, which saves it. *)
Definition CacheFile_FakeIPSaveMetadataAsync (c : CacheFile) (m : FakeIPMetadata_) : CacheFile :=
  mkCacheFile (cacheID c) (rdrcTimeout c) (cDB c) (Some m) (saveDomain c) (saveAddress4 c)
    (saveAddress6 c) (saveRDRC c).

Definition saveMetadataTimer (c : CacheFile) : CacheFile :=
  match saveMetadata c with
  | Some m => (CacheFile_FakeIPSaveMetadata c m).2
  | None => c
  end.

Definition domainBucket (isIPv6 : bool) : bytes :=
  if isIPv6 then bucketFakeIPDomain6 else bucketFakeIPDomain4.

Definition CacheFile_FakeIPStore (c : CacheFile) (address : Addr) (domain : string)
    : option error * CacheFile :=
  batchUnit c (fun db =>
    db ← CreateBucketIfNotExists db [] bucketFakeIP;
    let oldDomain := bucket ← bucketAt db [bucketFakeIP]; bucket !! AsSlice address in
    db ← BucketPut db [bucketFakeIP] (AsSlice address) (stringBytes domain);
    let bucket := domainBucket (negb (netip.Is4 address)) in
    db ← CreateBucketIfNotExists db [] bucket;
    db ← (match oldDomain with Some old => BucketDelete db [bucket] old | None => Ok db end);
    BucketPut db [bucket] (stringBytes domain) (AsSlice address)).

Definition CacheFile_FakeIPLoad (c : CacheFile) (address : Addr) : option string :=
  match saveDomain c !! address with
  | Some cachedDomain => Some cachedDomain
  | None =>
      let domain := bytesString (default [] (bucket ← bucketAt (cDB c) [bucketFakeIP]; bucket !! AsSlice address)) in
      if String.eqb domain "" then None else Some domain
  end.

Definition CacheFile_FakeIPLoadDomain (c : CacheFile) (domain : string) (isIPv6 : bool) : option Addr :=
  match (if isIPv6 then saveAddress6 c else saveAddress4 c) !! domain with
  | Some cachedAddress => Some cachedAddress
  | None =>
      let address := AddrFromIP (default [] (bucket ← bucketAt (cDB c) [domainBucket isIPv6];
                                             bucket !! stringBytes domain)) in
      if netip.IsValid address then Some address else None
  end.

Definition CacheFile_FakeIPReset (c : CacheFile) : option error * CacheFile :=
  batchUnit c (fun db =>
    db ← DeleteBucket db [] bucketFakeIP;
    db ← DeleteBucket db [] bucketFakeIPDomain4;
    DeleteBucket db [] bucketFakeIPDomain6).

#[export] Instance cacheFileStorage : FakeIPStorage CacheFile := {
  FakeIPMetadata := CacheFile_FakeIPMetadata;
  FakeIPSaveMetadata := CacheFile_FakeIPSaveMetadata;
  FakeIPSaveMetadataAsync := CacheFile_FakeIPSaveMetadataAsync;
  FakeIPStore := CacheFile_FakeIPStore;
  FakeIPLoad := CacheFile_FakeIPLoad;
  FakeIPLoadDomain := CacheFile_FakeIPLoadDomain;
  FakeIPReset := CacheFile_FakeIPReset;
}.
End cache_file.
