(* ===== verification/CacheFileSpec.v ===== *)
(** * The cache file keeps what is stored

    With the documented behaviour of the database ([BoltLaws]) the cache file keeps the
    promises of a [FakeIPStorage], so the theorems of [FakeIPSpec.v] hold of it, a restart
    of the program goes unnoticed, and what is stored is loaded again. *)

From S2P Require Import Prelude Binary Netip Context DNSMessage FakeIP FakeIPSpec Saved CacheFile.

(** ** What is relied on of [bbolt] *)
Class BoltLaws `{Bolt} := {
  (** changes are what they should be *)
  create_view db path name db' :
    CreateBucketIfNotExists db path name = Ok db' ->
    forall p, bucketAt db' p =
      if decide (p = path ++ [name]) then Some (default ∅ (bucketAt db p)) else bucketAt db p;
  put_view db path k v db' :
    BucketPut db path k v = Ok db' ->
    exists kv, bucketAt db path = Some kv /\
      forall p, bucketAt db' p = if decide (p = path) then Some (<[k := v]> kv) else bucketAt db p;
  delete_view db path k db' :
    BucketDelete db path k = Ok db' ->
    exists kv, bucketAt db path = Some kv /\
      forall p, bucketAt db' p = if decide (p = path) then Some (delete k kv) else bucketAt db p;
  deleteBucket_missing db path name :
    bucketAt db (path ++ [name]) = None -> exists e, DeleteBucket db path name = Err e;
  (** an open database, with room for more: a change succeeds unless a key or a name is
      empty or too long, or the name of a key is that of a bucket *)
  healthy : DB -> Prop;
  parent_view db path name :
    healthy db -> path <> [] -> bucketAt db path = None -> bucketAt db (path ++ [name]) = None;
  create_healthy db path name db' :
    healthy db -> CreateBucketIfNotExists db path name = Ok db' -> healthy db';
  put_healthy db path k v db' : healthy db -> BucketPut db path k v = Ok db' -> healthy db';
  delete_healthy db path k db' : healthy db -> BucketDelete db path k = Ok db' -> healthy db';
  create_ok db path name :
    healthy db -> name <> [] ->
    (path = [] \/ exists kv, bucketAt db path = Some kv /\ kv !! name = None) ->
    exists db', CreateBucketIfNotExists db path name = Ok db';
  put_ok db path kv k v :
    healthy db -> bucketAt db path = Some kv -> bucketAt db (path ++ [k]) = None ->
    k <> [] -> Z.of_nat (length k) <= 32768 -> Z.of_nat (length v) < 2 ^ 31 - 1 ->
    exists db', BucketPut db path k v = Ok db';
  delete_ok db path kv k :
    healthy db -> bucketAt db path = Some kv -> bucketAt db (path ++ [k]) = None ->
    exists db', BucketDelete db path k = Ok db';
}.

Section spec.
Context `{BoltLaws}.

(** ** Fake addresses *)

(** The buckets of fake addresses contain no buckets. *)
Definition flat (db : DB) : Prop :=
  forall name k, name ∈ [bucketFakeIP; bucketFakeIPDomain4; bucketFakeIPDomain6] ->
    bucketAt db [name; k] = None.

(** No write is in flight, and the database works. *)
Definition cacheServing (c : CacheFile) : Prop :=
  healthy (cDB c) /\ flat (cDB c) /\ saveDomain c = ∅ /\ saveAddress4 c = ∅ /\ saveAddress6 c = ∅.

Definition cacheStorable (d : string) : Prop :=
  d <> ""%string /\ Z.of_nat (length (stringBytes d)) <= 32768.

Lemma stringBytes_inj s t : stringBytes s = stringBytes t -> s = t.
Proof. intros E. by rewrite <- (bytesString_stringBytes s), E, bytesString_stringBytes. Qed.

Lemma AsSlice_length a : plainAddr a = true -> length (AsSlice a) = 4%nat \/ length (AsSlice a) = 16%nat.
Proof. destruct a; simpl; [done|auto..]. Qed.

Lemma plainAddr_wf a : plainAddr a = true -> netip.wf a /\ netip.hasZone a = false /\ netip.IsValid a = true.
Proof.
  destruct a as [|v|v z]; simpl; [done|intros Hf%bool_decide_eq_true; done|].
  intros [Hf%bool_decide_eq_true ->]%andb_true_iff. done.
Qed.

Lemma AsSlice_inj a b : plainAddr a = true -> plainAddr b = true -> AsSlice a = AsSlice b -> a = b.
Proof.
  intros Ha Hb E. destruct (plainAddr_wf a Ha) as (Hw & Hz & _), (plainAddr_wf b Hb) as (Hw' & Hz' & _).
  by rewrite <- (AddrFromIP_AsSlice a), E, AddrFromIP_AsSlice.
Qed.

Definition fakeBuckets : list bytes := [bucketFakeIP; bucketFakeIPDomain4; bucketFakeIPDomain6].

(** One bucket of fake addresses has new contents, nothing else changed. *)
Definition changed (db db' : DB) (name : bytes) (kv : gmap bytes bytes) : Prop :=
  healthy db' /\ flat db' /\ bucketAt db' [name] = Some kv /\
  forall p, p <> [name] -> bucketAt db' p = bucketAt db p.

Lemma changed_flat db db' name kv :
  flat db -> healthy db' ->
  (forall p, bucketAt db' p = if decide (p = [name]) then Some kv else bucketAt db p) ->
  changed db db' name kv.
Proof.
  intros Hf Hh Hv. split_and!; [done| | |].
  - intros x k Hx. rewrite Hv, decide_False by done. by apply Hf.
  - by rewrite Hv, decide_True.
  - intros p Hp. by rewrite Hv, decide_False.
Qed.

Lemma create_flat db name :
  healthy db -> flat db -> name <> [] ->
  exists db', CreateBucketIfNotExists db [] name = Ok db' /\
    changed db db' name (default ∅ (bucketAt db [name])).
Proof.
  intros Hh Hf Hn. destruct (create_ok db [] name Hh Hn ltac:(by left)) as (db' & E).
  pose proof (create_healthy _ _ _ _ Hh E) as Hh'.
  exists db'. split; [done|]. apply changed_flat; [done..|]. intros p.
  rewrite (create_view _ _ _ _ E). simpl. by destruct (decide (p = [name])) as [->|].
Qed.

Lemma put_flat db name kv k v :
  healthy db -> flat db -> name ∈ fakeBuckets -> bucketAt db [name] = Some kv ->
  k <> [] -> Z.of_nat (length k) <= 32768 -> Z.of_nat (length v) < 2 ^ 31 - 1 ->
  exists db', BucketPut db [name] k v = Ok db' /\ changed db db' name (<[k := v]> kv).
Proof.
  intros Hh Hf Hin Hb Hk Hkl Hvl.
  destruct (put_ok db [name] kv k v Hh Hb) as (db' & E); [by apply Hf|done..|].
  pose proof (put_healthy _ _ _ _ _ Hh E) as Hh'.
  destruct (put_view _ _ _ _ _ E) as (kv' & Hb' & Hv). rewrite Hb in Hb'. injection Hb' as <-.
  exists db'. split; [done|]. by apply changed_flat.
Qed.

Lemma delete_flat db name kv k :
  healthy db -> flat db -> name ∈ fakeBuckets -> bucketAt db [name] = Some kv ->
  exists db', BucketDelete db [name] k = Ok db' /\ changed db db' name (delete k kv).
Proof.
  intros Hh Hf Hin Hb.
  destruct (delete_ok db [name] kv k Hh Hb) as (db' & E); [by apply Hf|].
  pose proof (delete_healthy _ _ _ _ Hh E) as Hh'.
  destruct (delete_view _ _ _ _ E) as (kv' & Hb' & Hv). rewrite Hb in Hb'. injection Hb' as <-.
  exists db'. split; [done|]. by apply changed_flat.
Qed.

Lemma AsSlice_key a :
  plainAddr a = true ->
  AsSlice a <> [] /\ Z.of_nat (length (AsSlice a)) <= 32768 /\ Z.of_nat (length (AsSlice a)) < 2 ^ 31 - 1.
Proof.
  intros Ha. destruct (AsSlice_length a Ha) as [E|E]; rewrite E;
    (split; [intros E'; by rewrite E' in E|lia]).
Qed.

Lemma domainBucket_fake v6 :
  domainBucket v6 <> bucketFakeIP /\ domainBucket v6 <> [] /\ domainBucket v6 ∈ fakeBuckets.
Proof. destruct v6; (split; [done|]; split; [done|]); unfold fakeBuckets; set_solver. Qed.

(** The contents of the two buckets after the transaction of [FakeIPStore] *)
Lemma FakeIPStore_ok c a d :
  cacheServing c -> cacheStorable d -> plainAddr a = true ->
  let name := domainBucket (negb (netip.Is4 a)) in
  let addresses := default ∅ (bucketAt (cDB c) [bucketFakeIP]) in
  let domains := default ∅ (bucketAt (cDB c) [name]) in
  exists db', CacheFile_FakeIPStore c a d = (None, setDB c db') /\ healthy db' /\ flat db' /\
    bucketAt db' [bucketFakeIP] = Some (<[AsSlice a := stringBytes d]> addresses) /\
    bucketAt db' [name] = Some (<[stringBytes d := AsSlice a]>
      (match addresses !! AsSlice a with Some old => delete old domains | None => domains end)) /\
    forall p, p <> [bucketFakeIP] -> p <> [name] -> bucketAt db' p = bucketAt (cDB c) p.
Proof.
  intros (Hh & Hf & _) [Hd Hdl] Ha name addresses domains.
  destruct (AsSlice_key a Ha) as (Hk1 & Hk2 & Hk3). assert (Hdn : stringBytes d <> []) by (by destruct d).
  destruct (domainBucket_fake (negb (netip.Is4 a))) as (Hne & Hnn & Hin). fold name in Hne, Hnn, Hin.
  unfold CacheFile_FakeIPStore, batchUnit. fold name.
  destruct (create_flat _ bucketFakeIP Hh Hf ltac:(done)) as (d1 & -> & H1 & F1 & B1 & V1).
  fold addresses in B1. cbn [mbind result_bind]. rewrite B1. cbn [mbind option_bind].
  destruct (put_flat d1 bucketFakeIP addresses (AsSlice a) (stringBytes d))
    as (d2 & -> & H2 & F2 & B2 & V2); [done|done|unfold fakeBuckets; set_solver|done|done|done|lia|].
  cbn [mbind result_bind].
  destruct (create_flat d2 name H2 F2 Hnn) as (d3 & -> & H3 & F3 & B3 & V3). cbn [mbind result_bind].
  rewrite V2, V1 in B3 by congruence. fold domains in B3.
  set (domains' := match addresses !! AsSlice a with Some old => delete old domains | None => domains end).
  assert (Hdel : exists d4,
    (match addresses !! AsSlice a with Some old => BucketDelete d3 [name] old | None => Ok d3 end) = Ok d4
    /\ changed d3 d4 name domains').
  { unfold domains'. destruct (addresses !! AsSlice a) as [old|]; [by apply delete_flat|by exists d3]. }
  destruct Hdel as (d4 & -> & H4 & F4 & B4 & V4). cbn [mbind result_bind].
  destruct (put_flat d4 name domains' (stringBytes d) (AsSlice a)) as (d5 & -> & H5 & F5 & B5 & V5);
    [done..|]. exists d5. split_and!; [done..| | |].
  - by rewrite V5, V4, V3 by congruence.
  - done.
  - intros p Hp1 Hp2. by rewrite V5, V4, V3, V2, V1.
Qed.

Lemma bucket_lookup (o : option (gmap bytes bytes)) k :
  (o ≫= (fun bucket => bucket !! k)) = default ∅ o !! k.
Proof. destruct o; simpl; [done|by rewrite lookup_empty]. Qed.

(** The cache file keeps the promises of a [FakeIPStorage]. *)
#[export] Program Instance cacheFileLaws : FakeIPStorageLaws CacheFile := {
  serving := cacheServing;
  storable := cacheStorable;
}.
Next Obligation.
  intros c a d Hc Hd Ha. destruct (FakeIPStore_ok c a d Hc Hd Ha) as (db' & E & Hh & Hf & _).
  simpl. rewrite E. destruct Hc as (_ & _ & Hp). done.
Qed.
Next Obligation. intros c m Hc. exact Hc. Qed.
Next Obligation.
  intros c a d a' Hc Hd Ha Ha'. destruct (FakeIPStore_ok c a d Hc Hd Ha) as (db' & E & _ & _ & B & _).
  destruct Hc as (_ & _ & Hp & _). simpl. rewrite E. unfold CacheFile_FakeIPLoad. simpl.
  rewrite B, Hp, !lookup_empty. simpl. destruct (decide (a' = a)) as [->|Hne].
  - rewrite lookup_insert_eq. simpl. rewrite bytesString_stringBytes.
    destruct Hd as [Hd _]. by apply String.eqb_neq in Hd as ->.
  - rewrite lookup_insert_ne by (intros Hs; by apply Hne, AsSlice_inj).
    by rewrite bucket_lookup.
Qed.
Next Obligation.
  intros c a d d' v6 Hc Hd Hd' Ha.
  destruct (FakeIPStore_ok c a d Hc Hd Ha) as (db' & E & _ & _ & BA & BD & V).
  destruct Hc as (_ & _ & Hpd & Hp4 & Hp6). simpl. rewrite E.
  unfold CacheFile_FakeIPLoadDomain, CacheFile_FakeIPLoad. simpl. rewrite Hpd, Hp4, Hp6.
  replace ((if v6 then _ else _) !! d') with (None : option Addr) by (destruct v6; by rewrite lookup_empty).
  rewrite lookup_empty. destruct (plainAddr_wf a Ha) as (Hw & Hz & Hv).
  destruct (Bool.eqb_spec v6 (netip.Is4 a)) as [->|Hne]; simpl.
  { rewrite V; [done| |]; destruct (netip.Is4 a); done. }
  assert (v6 = negb (netip.Is4 a)) as -> by (by destruct v6, (netip.Is4 a)). rewrite BD. simpl.
  destruct (decide (d' = d)) as [->|Hdd].
  { rewrite lookup_insert_eq. simpl. rewrite AddrFromIP_AsSlice by done. by rewrite Hv. }
  rewrite lookup_insert_ne by (intros Hs; by apply Hdd, stringBytes_inj).
  rewrite !bucket_lookup. set (addresses := default ∅ (bucketAt (cDB c) [bucketFakeIP])).
  set (domains := default ∅ _). destruct (addresses !! AsSlice a) as [old|]; simpl; [|done].
  rewrite <- (stringBytes_bytesString old). generalize (bytesString old); clear old; intros old.
  rewrite bytesString_stringBytes. destruct (decide (d' = old)) as [->|Hdo].
  - rewrite lookup_delete_eq. destruct Hd' as [Hd' _]. apply String.eqb_neq in Hd' as ->.
    by rewrite decide_True.
  - rewrite lookup_delete_ne by (intros Hs; by apply Hdo, eq_sym, stringBytes_inj).
    case_decide as Hx; [|done]. destruct (String.eqb old ""); congruence.
Qed.
Next Obligation. done. Qed.
Next Obligation. done. Qed.

(** ** Restarts *)

(** The cache file a new process opens *)
Definition reopen (c : CacheFile) : CacheFile :=
  mkCacheFile (cacheID c) (rdrcTimeout c) (cDB c) None ∅ ∅ ∅ ∅.

Lemma marshal_length m :
  metadataWf m ->
  FakeIPMetadata_MarshalBinary m <> [] /\ Z.of_nat (length (FakeIPMetadata_MarshalBinary m)) < 2 ^ 31 - 1.
Proof.
  intros ((_ & Z4 & _) & (_ & Z6 & _) & _ & S4 & _ & S6). unfold FakeIPMetadata_MarshalBinary, marshalElement.
  split; [done|]. rewrite !length_app, !bigEndian_length.
  pose proof (Prefix_MarshalBinary_length _ Z4). pose proof (Prefix_MarshalBinary_length _ Z6).
  pose proof (Addr_MarshalBinary_length _ S4). pose proof (Addr_MarshalBinary_length _ S6). lia.
Qed.

(** Saving the metadata and loading it in a new process: nothing else changes. *)
Lemma metadata_reopened c m :
  cacheServing c -> metadataWf m ->
  exists c1 c2,
    FakeIPSaveMetadata c m = (None, c1) /\ FakeIPMetadata (reopen c1) = (Some m, c2) /\ cacheServing c2 /\
    (forall a, plainAddr a = true -> FakeIPLoad c2 a = FakeIPLoad c a) /\
    (forall d v6, FakeIPLoadDomain c2 d v6 = FakeIPLoadDomain c d v6).
Proof.
  intros (Hh & Hf & Hp & Hp4 & Hp6) Hm. destruct (marshal_length m Hm) as [Hne Hlen].
  set (addresses := default ∅ (bucketAt (cDB c) [bucketFakeIP])).
  destruct (create_flat _ bucketFakeIP Hh Hf ltac:(done)) as (d1 & E1 & H1 & F1 & B1 & V1).
  destruct (put_flat d1 bucketFakeIP addresses keyMetadata (FakeIPMetadata_MarshalBinary m))
    as (d2 & E2 & H2 & F2 & B2 & V2); [done|done|unfold fakeBuckets; set_solver|done|done|simpl; lia|done|].
  destruct (delete_flat d2 bucketFakeIP _ keyMetadata H2 F2 ltac:(unfold fakeBuckets; set_solver) B2)
    as (d3 & E3 & H3 & F3 & B3 & V3).
  exists (setDB c d2), (setDB (reopen c) d3). simpl. split_and!.
  - unfold CacheFile_FakeIPSaveMetadata, batchUnit. rewrite E1. cbn [mbind result_bind]. by rewrite E2.
  - unfold CacheFile_FakeIPMetadata, batch. simpl. rewrite B2, lookup_insert_eq. pose proof (metadata_binary m Hm) as Hbin.
    destruct (FakeIPMetadata_MarshalBinary m) as [|x l]; [done|]. simpl. rewrite E3. simpl.
    by rewrite Hbin.
  - done.
  - intros a Ha. unfold CacheFile_FakeIPLoad. simpl. rewrite Hp, lookup_empty, B3. simpl.
    rewrite bucket_lookup. fold addresses.
    assert (keyMetadata <> AsSlice a).
    { intros E. apply (f_equal length) in E. by destruct (AsSlice_length a Ha) as [E'|E']; rewrite E' in E. }
    by rewrite lookup_delete_ne, lookup_insert_ne.
  - intros d v6. unfold CacheFile_FakeIPLoadDomain. simpl. rewrite Hp4, Hp6.
    destruct (domainBucket_fake v6) as (Hn & _).
    rewrite V3, V2, V1 by congruence. by destruct v6.
Qed.

Lemma currents_wf (s : Store CacheFile) r v6 :
  refines s r -> netip.wf (currentOf s v6) /\ shortZone (currentOf s v6).
Proof.
  intros (st & _ & _ & Hf). specialize (Hf v6). unfold family in Hf.
  destruct (prefix.IsValid (rangeOf s v6)); [|by destruct Hf as (-> & _)].
  destruct Hf as (Hp & _ & _ & _ & -> & _). destruct (r v6) as [|x l].
  - destruct (usable_bits _ Hp) as (b & _ & _ & Hfit & [Ha|Ha]); split;
      [apply Next_wf| |apply Next_wf|]; rewrite Ha in *; simpl in *; try done; by destruct (_ =? _).
  - destruct (slot_plain _ (length l) Hp) as [Hpl _]. split; [by apply plainAddr_wf|].
    destruct (slot _ _) as [|v|v z]; [done..|]. simpl in *.
    apply andb_true_iff in Hpl as [_ ->%String.eqb_eq]. done.
Qed.

Lemma restart_refines (s : Store CacheFile) r p4 p6 :
  refines s r -> (forall v6, rangeOf s v6 = if v6 then p6 else p4) -> prefix.wf p4 -> prefix.wf p6 ->
  exists c, (Store_Close s).1 = None /\ storage (Store_Close s).2 = Some c /\
    refines (started p4 p6 (reopen c)) r /\ forall v6, rangeOf (started p4 p6 (reopen c)) v6 = rangeOf s v6.
Proof.
  intros Hr Hrange H4 H6. pose proof (Hrange true) as R6. pose proof (Hrange false) as R4. simpl in R4, R6.
  pose proof Hr as (c & Hst & Hc & Hf).
  destruct (metadata_reopened c (metadataOf s) Hc) as (c1 & c2 & E1 & E2 & Hc2 & HA & HD).
  { unfold metadataOf, metadataWf. simpl. rewrite R4, R6.
    pose proof (currents_wf s r false Hr) as [? ?]. pose proof (currents_wf s r true Hr) as [? ?]. done. }
  exists c1. unfold Store_Close. rewrite Hst, E1. simpl. split; [done|]. split; [done|].
  assert (Es : started p4 p6 (reopen c1) =
    setStorage (setCurrent (NewStore p4 p6) (inet4Current s) (inet6Current s)) c2).
  { unfold started, Store_Start. rewrite E2. simpl. rewrite R4, R6. by rewrite !bool_decide_true. }
  rewrite Es. split; [|by intros []]. exists c2. split; [done|]. split; [done|]. intros v6.
  specialize (Hf v6). unfold family in *.
  assert (Rn : rangeOf (setStorage (setCurrent (NewStore p4 p6) (inet4Current s) (inet6Current s)) c2) v6
               = rangeOf s v6) by (rewrite Hrange; by destruct v6). rewrite Rn.
  destruct (prefix.IsValid (rangeOf s v6)) eqn:Hv.
  - destruct Hf as (Hp & H4' & Hl & Hw & Hcur & HFD & HFA). split_and!; try done.
    + rewrite <- broadcastAddress_spec by (apply Hp || done). rewrite Hrange in *.
      destruct v6; simpl; by rewrite Hv.
    + intros d Hd. by rewrite HD, HFD.
    + intros a Ha Ha'. by rewrite HA, HFA.
  - destruct Hf as (Hcur & HFD & HFA). split_and!.
    + rewrite <- Hcur. by destruct v6.
    + intros d Hd. by rewrite HD, HFD.
    + intros a Ha Ha'. by rewrite HA, HFA.
Qed.

(** C18. For ranges that are absent or usable, a cache file without data of an earlier
    run and non-empty domains of at most 32768 bytes: closing after any requests and
    starting again with the same file and ranges is unobservable, later requests get
    the fake addresses they would have got without the restart. *)
Theorem fakeip_restart p4 p6 c before after :
  goodRange p4 false -> goodRange p6 true -> prefix.wf p4 -> prefix.wf p6 -> blank c ->
  Forall (fun q => cacheStorable q.1) (before ++ after) ->
  let s := (createAll (started p4 p6 c) before).2 in
  exists c', (Store_Close s).1 = None /\ storage (Store_Close s).2 = Some c' /\
    (createAll (started p4 p6 (reopen c')) after).1 = (createAll s after).1.
Proof.
  intros H4 H6 W4 W6 Hb [Hs1 Hs2]%Forall_app s.
  destruct (createAll_refines before _ _ (started_refines p4 p6 c H4 H6 Hb) Hs1) as (_ & Hr & Hr').
  fold s in Hr, Hr'.
  destruct (restart_refines s _ p4 p6 Hr) as (c' & He & Hst & Hr2 & Hrange);
    [intros f; by rewrite Hr', started_range|done|done|].
  exists c'. split; [done|]. split; [done|].
  destruct (createAll_refines after _ _ Hr2 Hs2) as (-> & _).
  destruct (createAll_refines after _ _ Hr Hs2) as (-> & _). by rewrite (specAll_ext _ _ _ Hrange).
Qed.

(** ** Stored values *)

Lemma batchUnit_ok c fn : (batchUnit c fn).1 = None -> exists db, fn (cDB c) = Ok db /\ (batchUnit c fn).2 = setDB c db.
Proof. unfold batchUnit. destruct (fn (cDB c)) as [db|e]; [|done]. intros _. by exists db. Qed.

(** A bucket that was created for a value, and the value in it *)
Lemma created_put db path name k v db1 db2 :
  CreateBucketIfNotExists db path name = Ok db1 -> BucketPut db1 (path ++ [name]) k v = Ok db2 ->
  bucketAt db2 (path ++ [name]) = Some (<[k := v]> (default ∅ (bucketAt db (path ++ [name])))) /\
  forall p, p <> path ++ [name] -> bucketAt db2 p = bucketAt db p.
Proof.
  intros E1 E2. pose proof (create_view _ _ _ _ E1) as V1. destruct (put_view _ _ _ _ _ E2) as (kv & B & V2).
  rewrite V1, decide_True in B by done. injection B as <-. split; [by rewrite V2, decide_True|].
  intros p Hp. by rewrite V2, V1, !decide_False.
Qed.

Lemma createBucket_put c db key k v db1 db2 :
  createBucket c db key = Ok db1 -> BucketPut db1 (bucketPath c key) k v = Ok db2 ->
  bucketAt db2 (bucketPath c key) = Some (<[k := v]> (default ∅ (bucketAt db (bucketPath c key)))).
Proof.
  unfold createBucket, bucketPath. destruct (cacheID c) as [id|].
  - intros (d & E0 & E1)%bind_ok E2. destruct (created_put d [id] key k v db1 db2 E1 E2) as [B _].
    simpl in B. rewrite B. do 3 f_equal. by rewrite (create_view _ _ _ _ E0), decide_False.
  - intros E1 E2. by destruct (created_put db [] key k v db1 db2 E1 E2).
Qed.

Lemma saved_loaded c tag set db d1 :
  savedWf set -> createBucket c (cDB c) bucketRuleSet = Ok d1 ->
  BucketPut d1 (bucketPath c bucketRuleSet) (stringBytes tag) (SavedBinary_MarshalBinary set) = Ok db ->
  LoadRuleSet (reopen (setDB c db)) tag = Some set.
Proof.
  intros Hset E1 E2. unfold LoadRuleSet.
  replace (bucketPath (reopen (setDB c db)) bucketRuleSet) with (bucketPath c bucketRuleSet) by done.
  simpl. rewrite (createBucket_put _ _ _ _ _ _ _ E1 E2). cbn [mbind option_bind].
  rewrite lookup_insert_eq. cbn [default]. pose proof (saved_binary set Hset) as Hb.
  destruct (SavedBinary_MarshalBinary set) as [|x l] eqn:E; [done|]. simpl. by rewrite Hb.
Qed.

Lemma selected_loaded c group selected group' :
  (StoreSelected c group selected).1 = None ->
  LoadSelected (reopen (StoreSelected c group selected).2) group' =
  if String.eqb group' group then selected else LoadSelected c group'.
Proof.
  unfold StoreSelected. intros (db & (d1 & E1 & E2)%bind_ok & ->)%batchUnit_ok. unfold LoadSelected.
  replace (bucketPath (reopen (setDB c db)) bucketSelected) with (bucketPath c bucketSelected) by done.
  simpl. rewrite (createBucket_put _ _ _ _ _ _ _ E1 E2).
  destruct (String.eqb_spec group' group) as [->|Hne].
  - rewrite lookup_insert_eq. apply bytesString_stringBytes.
  - rewrite lookup_insert_ne by (intros E; by apply Hne, eq_sym, stringBytes_inj).
    destruct (bucketAt (cDB c) _); simpl; [done|by rewrite lookup_empty].
Qed.

(** What is stored without an error is loaded again, in this process or after a
    restart, with or without a cache identifier: the mode, the selected outbound of a
    group and the one of every other group, whether a group is expanded, and downloaded
    rule sets and configurations. *)
Theorem stored_loaded c mode group selected group' expand tag set :
  savedWf set ->
  ((StoreMode c mode).1 = None -> LoadMode (reopen (StoreMode c mode).2) = mode) /\
  ((StoreSelected c group selected).1 = None ->
   LoadSelected (reopen (StoreSelected c group selected).2) group' =
   if String.eqb group' group then selected else LoadSelected c group') /\
  ((StoreGroupExpand c group expand).1 = None ->
   LoadGroupExpand (reopen (StoreGroupExpand c group expand).2) group = Some expand) /\
  ((SaveRuleSet c tag set).1 = None -> LoadRuleSet (reopen (SaveRuleSet c tag set).2) tag = Some set) /\
  ((SaveBinary c tag set).1 = None -> LoadBinary (reopen (SaveBinary c tag set).2) tag = Some set).
Proof.
  intros Hset. split_and!.
  - unfold StoreMode. intros (db & (d1 & E1 & E2)%bind_ok & ->)%batchUnit_ok. unfold LoadMode. simpl.
    destruct (created_put _ [] _ _ _ _ _ E1 E2) as [B _]. simpl in B. rewrite B.
    replace (modeKey (reopen (setDB c db))) with (modeKey c) by done.
    rewrite lookup_insert_eq. apply bytesString_stringBytes.
  - apply selected_loaded.
  - unfold StoreGroupExpand. intros (db & (d1 & E1 & E2)%bind_ok & ->)%batchUnit_ok. unfold LoadGroupExpand.
    replace (bucketPath (reopen (setDB c db)) bucketExpand) with (bucketPath c bucketExpand) by done.
    simpl. rewrite (createBucket_put _ _ _ _ _ _ _ E1 E2). simpl. rewrite lookup_insert_eq. by destruct expand.
  - unfold SaveRuleSet. intros (db & (d1 & E1 & E2)%bind_ok & ->)%batchUnit_ok. by apply (saved_loaded _ _ _ _ d1).
  - unfold SaveBinary. intros (db & (d1 & E1 & E2)%bind_ok & ->)%batchUnit_ok. by apply (saved_loaded _ _ _ _ d1).
Qed.

(** ** Rejected responses *)

Lemma rdrcKey_inj q ty q' ty' :
  fits 16 ty -> fits 16 ty' -> rdrcKey q ty = rdrcKey q' ty' -> q = q' /\ ty = ty'.
Proof.
  intros Hf Hf' E. apply app_inj_1 in E as [E1 E2]; [|by rewrite !bigEndian_length].
  split; [by apply stringBytes_inj|]. apply (f_equal fromBigEndian) in E1.
  rewrite !fromBigEndian_bigEndian in E1. by rewrite !wrap_id in E1.
Qed.

Lemma rdrcPath_inj c tr tr' : rdrcPath c tr = rdrcPath c tr' -> tr = tr'.
Proof. intros E. apply app_inj_tail in E as [_ E]. by apply stringBytes_inj. Qed.

Lemma bucketPath_nonempty c key : bucketPath c key <> [].
Proof. unfold bucketPath. by destruct (cacheID c). Qed.

(** The transaction of [SaveRDRC] *)
Lemma SaveRDRC_ok c now tr q ty :
  healthy (cDB c) -> (CacheFile_SaveRDRC c now tr q ty).1 = None ->
  exists db, (CacheFile_SaveRDRC c now tr q ty).2 = setDB c db /\ healthy db /\
    bucketAt db (rdrcPath c tr) =
      Some (<[rdrcKey q ty := bigEndian 8 ((now + rdrcTimeout c) / 10 ^ 9)]>
              (default ∅ (bucketAt (cDB c) (rdrcPath c tr)))) /\
    forall tr', tr' <> tr -> bucketAt db (rdrcPath c tr') = bucketAt (cDB c) (rdrcPath c tr').
Proof.
  intros Hh. unfold CacheFile_SaveRDRC.
  intros (db & (d1 & E1 & (d2 & E2 & E3)%bind_ok)%bind_ok & ->)%batchUnit_ok.
  exists db. split; [done|]. destruct (created_put _ _ _ _ _ _ _ E2 E3) as [B V].
  assert (H1 : healthy d1 /\
    forall tr', bucketAt d1 (rdrcPath c tr') = bucketAt (cDB c) (rdrcPath c tr')).
  { unfold createBucket, rdrcPath, bucketPath in *. destruct (cacheID c) as [id|].
    - apply bind_ok in E1 as (d0 & E0 & E1). split; [eauto using create_healthy|]. intros tr'.
      by rewrite (create_view _ _ _ _ E1), (create_view _ _ _ _ E0), !decide_False.
    - split; [eauto using create_healthy|]. intros tr'. by rewrite (create_view _ _ _ _ E1), decide_False. }
  destruct H1 as [Hh1 H1]. split_and!.
  - eauto using put_healthy, create_healthy.
  - unfold rdrcPath at 1. rewrite B. by rewrite <- H1.
  - intros tr' Hne. rewrite <- H1. apply V. intros E. by apply Hne, (rdrcPath_inj c).
Qed.

(** What [LoadRDRC] answers *)
Lemma LoadRDRC_answer c later tr q ty :
  healthy (cDB c) ->
  (CacheFile_LoadRDRC c later tr q ty).1 =
  match saveRDRC c !! (tr, q, ty) with
  | Some rejected => rejected
  | None =>
      match default ∅ (bucketAt (cDB c) (rdrcPath c tr)) !! rdrcKey q ty with
      | Some content => later <=? signed64 (fromBigEndian (take 8 content)) * 10 ^ 9
      | None => false
      end
  end.
Proof.
  intros Hh. unfold CacheFile_LoadRDRC. destruct (saveRDRC c !! (tr, q, ty)); [done|].
  destruct (bucketAt (cDB c) (bucketPath c bucketRDRC)) eqn:Ep.
  - destruct (bucketAt (cDB c) (rdrcPath c tr)) as [kv|]; simpl; [|by rewrite lookup_empty].
    destruct (kv !! rdrcKey q ty) as [content|]; [|done].
    rewrite Z.leb_antisym. by destruct (_ <? later).
  - apply (parent_view _ _ (stringBytes tr)) in Ep; [|done|apply bucketPath_nonempty].
    fold (rdrcPath c tr) in Ep. rewrite Ep. simpl. by rewrite lookup_empty.
Qed.

(** A rejected response is remembered for the configured time: after it was saved
    without an error, [LoadRDRC] reports exactly this transport, name and type as rejected
    until the time of saving plus the timeout, in whole seconds, and no longer; the
    answers for all other questions stay what they were. *)
Theorem rdrc_remembered c now tr q ty later :
  healthy (cDB c) -> fits 16 ty -> fits 63 ((now + rdrcTimeout c) / 10 ^ 9) ->
  saveRDRC c !! (tr, q, ty) = None -> (CacheFile_SaveRDRC c now tr q ty).1 = None ->
  let c' := (CacheFile_SaveRDRC c now tr q ty).2 in
  (CacheFile_LoadRDRC c' later tr q ty).1 = (later <=? (now + rdrcTimeout c) / 10 ^ 9 * 10 ^ 9) /\
  forall tr' q' ty', fits 16 ty' -> (tr', q', ty') <> (tr, q, ty) ->
    (CacheFile_LoadRDRC c' later tr' q' ty').1 = (CacheFile_LoadRDRC c later tr' q' ty').1.
Proof.
  intros Hh Hty Hexp Hp He. destruct (SaveRDRC_ok c now tr q ty Hh He) as (db & -> & Hh' & B & V).
  simpl. split.
  - rewrite LoadRDRC_answer by done. simpl. replace (rdrcPath (setDB c db)) with (rdrcPath c) by done.
    rewrite Hp, B. cbn [from_option id]. rewrite lookup_insert_eq, firstn_all2 by (by rewrite bigEndian_length).
    by rewrite fromBigEndian_bigEndian, signed64_wrap by (unfold fits in Hexp; lia).
  - intros tr' q' ty' Hty' Hne. rewrite !LoadRDRC_answer by done. simpl.
    replace (rdrcPath (setDB c db)) with (rdrcPath c) by done.
    destruct (saveRDRC c !! (tr', q', ty')); [done|].
    destruct (decide (tr' = tr)) as [->|Htr]; [|by rewrite V].
    rewrite B. simpl. rewrite lookup_insert_ne; [done|]. intros [-> ->]%rdrcKey_inj; done.
Qed.
End spec.

(** * Witnesses of the cache file

    A database held in memory satisfies [BoltLaws]; the theorems of [CacheFileSpec.v] are
    applied to it.  The last example shows what happens to the fake addresses of an IPv4
    configuration when its range is changed. *)

(** ** A database in memory: the buckets by their path *)
Abbreviation MapDB := (gmap (list bytes) (gmap bytes bytes)).

Definition mapCreate (db : MapDB) (path : list bytes) (name : bytes) : result MapDB :=
  if bool_decide (name = []) then Err "bucket name required"%string
  else if bool_decide (path <> [] /\ db !! path = None) then Err "bucket not found"%string
  else if bool_decide (is_Some (default ∅ (db !! path) !! name)) then Err "incompatible value"%string
  else Ok (<[path ++ [name] := default ∅ (db !! (path ++ [name]))]> db).

Definition mapPut (db : MapDB) (path : list bytes) (k v : bytes) : result MapDB :=
  match db !! path with
  | None => Err "bucket not found"%string
  | Some kv =>
      if bool_decide (k = []) then Err "key required"%string
      else if 32768 <? Z.of_nat (length k) then Err "key too large"%string
      else if bool_decide (is_Some (db !! (path ++ [k]))) then Err "incompatible value"%string
      else Ok (<[path := <[k := v]> kv]> db)
  end.

Definition mapDelete (db : MapDB) (path : list bytes) (k : bytes) : result MapDB :=
  match db !! path with
  | None => Err "bucket not found"%string
  | Some kv =>
      if bool_decide (is_Some (db !! (path ++ [k]))) then Err "incompatible value"%string
      else Ok (<[path := delete k kv]> db)
  end.

Definition mapDeleteBucket (db : MapDB) (path : list bytes) (name : bytes) : result MapDB :=
  match db !! (path ++ [name]) with
  | None => Err "bucket not found"%string
  | Some _ => Ok (filter (fun e => ~ (path ++ [name]) `prefix_of` e.1) db)
  end.

#[export] Instance mapBolt : Bolt := {
  DB := MapDB;
  bucketAt db path := db !! path;
  CreateBucketIfNotExists := mapCreate;
  BucketPut := mapPut;
  BucketDelete := mapDelete;
  DeleteBucket := mapDeleteBucket;
}.

(** The root has no keys, and every bucket is in an existing one. *)
Definition closed (db : MapDB) : Prop :=
  db !! [] = None /\
  forall path name, path <> [] -> db !! path = None -> db !! (path ++ [name]) = None.

Lemma closed_insert (db : MapDB) path kv :
  closed db -> is_Some (db !! path) -> closed (<[path := kv]> db).
Proof.
  intros [H0 Hc] [old Ho]. split; [rewrite lookup_insert_ne; [done|]; intros ->; by rewrite Ho in H0|].
  intros p name Hp. destruct (decide (p = path)) as [->|]; [by rewrite lookup_insert_eq|].
  rewrite lookup_insert_ne by done. intros Hn. specialize (Hc p name Hp Hn).
  rewrite lookup_insert_ne; [done|]. intros ->. by rewrite Ho in Hc.
Qed.

Lemma mapCreate_view db path name db' :
  mapCreate db path name = Ok db' ->
  forall p, db' !! p = if decide (p = path ++ [name]) then Some (default ∅ (db !! p)) else db !! p.
Proof.
  unfold mapCreate. repeat (case_bool_decide; [done|]).
  intros [= <-] p. destruct (decide (p = path ++ [name])) as [->|]; [by rewrite lookup_insert_eq|].
  by rewrite lookup_insert_ne.
Qed.

Lemma mapPut_view db path k v db' :
  mapPut db path k v = Ok db' ->
  exists kv, db !! path = Some kv /\
    forall p, db' !! p = if decide (p = path) then Some (<[k := v]> kv) else db !! p.
Proof.
  unfold mapPut. destruct (db !! path) as [kv|]; [|done].
  case_bool_decide; [done|]. destruct (_ <? _); [done|]. case_bool_decide; [done|].
  intros [= <-]. exists kv. split; [done|]. intros p.
  destruct (decide (p = path)) as [->|]; [by rewrite lookup_insert_eq|]. by rewrite lookup_insert_ne.
Qed.

Lemma mapDelete_view db path k db' :
  mapDelete db path k = Ok db' ->
  exists kv, db !! path = Some kv /\
    forall p, db' !! p = if decide (p = path) then Some (delete k kv) else db !! p.
Proof.
  unfold mapDelete. destruct (db !! path) as [kv|]; [|done].
  case_bool_decide; [done|]. intros [= <-]. exists kv. split; [done|]. intros p.
  destruct (decide (p = path)) as [->|]; [by rewrite lookup_insert_eq|]. by rewrite lookup_insert_ne.
Qed.

Lemma mapCreate_closed db path name db' : closed db -> mapCreate db path name = Ok db' -> closed db'.
Proof.
  intros [H0 Hc]. unfold mapCreate. case_bool_decide; [done|].
  case_bool_decide as Hp; [done|]. case_bool_decide; [done|]. intros [= <-].
  split; [rewrite lookup_insert_ne; [done|]; by destruct path|]. intros p n Hpn Hn.
  destruct (decide (p = path ++ [name])) as [->|Hne]; [by rewrite lookup_insert_eq in Hn|].
  rewrite lookup_insert_ne in Hn by done. destruct (decide (p ++ [n] = path ++ [name])) as [E|].
  - apply app_inj_tail in E as [-> ->]. exfalso. by apply Hp.
  - rewrite lookup_insert_ne by done. by apply Hc.
Qed.

Lemma mapPut_closed db path k v db' : closed db -> mapPut db path k v = Ok db' -> closed db'.
Proof.
  intros Hc. unfold mapPut. destruct (db !! path) as [kv|] eqn:E; [|done].
  case_bool_decide; [done|]. destruct (_ <? _); [done|]. case_bool_decide; [done|].
  intros [= <-]. by apply closed_insert.
Qed.

Lemma mapDelete_closed db path k db' : closed db -> mapDelete db path k = Ok db' -> closed db'.
Proof.
  intros Hc. unfold mapDelete. destruct (db !! path) as [kv|] eqn:E; [|done].
  case_bool_decide; [done|]. intros [= <-]. by apply closed_insert.
Qed.

Lemma mapCreate_ok db path name :
  closed db -> name <> [] -> (path = [] \/ exists kv, db !! path = Some kv /\ kv !! name = None) ->
  exists db', mapCreate db path name = Ok db'.
Proof.
  intros [H0 _] Hn Hp. unfold mapCreate. rewrite bool_decide_false by done.
  rewrite bool_decide_false by naive_solver. destruct Hp as [->|(kv & E & En)].
  - rewrite H0. simpl. rewrite lookup_empty, bool_decide_false by (by intros [? ?]). by eexists.
  - rewrite E. simpl. rewrite En, bool_decide_false by (by intros [? ?]). by eexists.
Qed.

Lemma mapPut_ok db path kv k v :
  closed db -> db !! path = Some kv -> db !! (path ++ [k]) = None -> k <> [] ->
  Z.of_nat (length k) <= 32768 -> Z.of_nat (length v) < 2 ^ 31 - 1 ->
  exists db', mapPut db path k v = Ok db'.
Proof.
  intros _ E En Hk Hl _. unfold mapPut. rewrite E, En, bool_decide_false by done.
  destruct (Z.ltb_spec 32768 (Z.of_nat (length k))); [lia|].
  rewrite bool_decide_false by (by intros [? ?]). by eexists.
Qed.

Lemma mapDelete_ok db path kv k :
  closed db -> db !! path = Some kv -> db !! (path ++ [k]) = None ->
  exists db', mapDelete db path k = Ok db'.
Proof.
  intros _ E En. unfold mapDelete. rewrite E, En.
  rewrite bool_decide_false by (by intros [? ?]). by eexists.
Qed.

Lemma mapDeleteBucket_missing db path name :
  db !! (path ++ [name]) = None -> exists e, mapDeleteBucket db path name = Err e.
Proof. unfold mapDeleteBucket. intros ->. by eexists. Qed.

#[export] Instance mapBoltLaws : BoltLaws := {
  create_view := mapCreate_view;
  put_view := mapPut_view;
  delete_view := mapDelete_view;
  deleteBucket_missing := mapDeleteBucket_missing;
  healthy := closed;
  parent_view db path name Hc := proj2 Hc path name;
  create_healthy := mapCreate_closed;
  put_healthy := mapPut_closed;
  delete_healthy := mapDelete_closed;
  create_ok := mapCreate_ok;
  put_ok := mapPut_ok;
  delete_ok := mapDelete_ok;
}.

(** ** Witnesses *)

Definition exCache : CacheFile := New "id" true 60000000000 ∅.

Lemma exCache_closed : closed ∅.
Proof. split; [done|]. intros p n _ _. apply lookup_empty. Qed.

Lemma exCache_blank : blank exCache.
Proof.
  split; [vm_compute; reflexivity|]. split.
  - split; [exact exCache_closed|]. split; [|done].
    intros name k _. exact (lookup_empty (M := gmap (list bytes)) _).
  - split; [by intros a|by intros d []].
Qed.

Lemma fakeip_restart_witness :
  let s := (createAll (started exRange prefix.zero exCache) [("a"%string, false)]).2 in
  exists c', (Store_Close s).1 = None /\ storage (Store_Close s).2 = Some c' /\
    (createAll (started exRange prefix.zero (reopen c')) [("b"%string, false); ("a"%string, false)]).1 =
    (createAll s [("b"%string, false); ("a"%string, false)]).1.
Proof.
  refine (fakeip_restart exRange prefix.zero exCache [("a"%string, false)]
    [("b"%string, false); ("a"%string, false)] exRange_good (or_introl eq_refl) _ _ exCache_blank _).
  - split; [by vm_compute|done].
  - done.
  - repeat constructor; simpl; lia || done.
Defined.


Definition exSaved : SavedBinary := mkSavedBinary [x01] 7 "etag".

Lemma stored_loaded_witness :
  (StoreSelected exCache "g" "o").1 = None /\
  LoadSelected (reopen (StoreSelected exCache "g" "o").2) "g" = "o"%string.
Proof.
  assert (E : (StoreSelected exCache "g" "o").1 = None) by (vm_compute; reflexivity).
  split; [exact E|].
  refine (proj1 (proj2 (stored_loaded exCache "rule" "g" "o" "g" true "tag" exSaved _)) E).
  repeat split; simpl; lia.
Defined.

(** Saved at time 1s with a timeout of a minute, and asked a minute later *)
Lemma rdrc_remembered_witness :
  let c' := (CacheFile_SaveRDRC exCache 1000000000 "server" "a.example." 1).2 in
  (CacheFile_LoadRDRC c' 61000000000 "server" "a.example." 1).1 = true /\
  (CacheFile_LoadRDRC c' 61000000000 "server" "a.example." 28).1 =
  (CacheFile_LoadRDRC exCache 61000000000 "server" "a.example." 28).1.
Proof.
  assert (E : (CacheFile_SaveRDRC exCache 1000000000 "server" "a.example." 1).1 = None)
    by (vm_compute; reflexivity).
  assert (Hh : healthy (cDB exCache)) by exact exCache_closed.
  destruct (rdrc_remembered exCache 1000000000 "server" "a.example." 1 61000000000 Hh)
    as [H1 H2]; [unfold fits; lia|vm_compute; done|done|exact E|].
  split; [exact H1|]. apply H2; [unfold fits; lia|congruence].
Defined.

(** ** Changing the range

    Without IPv6 there is no bucket of IPv6 domains, so the transaction of [FakeIPReset]
    fails and nothing is deleted.  After the range was changed from 198.18.0.0/29 to
    10.0.0.0/29, a domain of the earlier run still gets its old address, which is
    outside of the new range. *)
Example changed_range_keeps_addresses :
  let s := (Create (started exRange prefix.zero exCache) "a" false).2 in
  match storage (Store_Close s).2 with
  | None => False
  | Some c =>
      let s' := started (mkPrefix (Addr4 0x0a000000) (Some 29)) prefix.zero (reopen c) in
      (FakeIPReset (reopen c)).1 = Some "bucket not found"%string /\
      (Create s' "a" false).1 = Ok (Addr4 0xc6120002) /\
      Store_Contains s' (Addr4 0xc6120002) = false
  end.
Proof. vm_compute. done. Qed.
