(* ===== verification/DNSRouter.v ===== *)
(** * The DNS router ([dns/router.go])

    [matchDNS] finds the server for a query among the DNS rules; [Exchange] and [Lookup]
    ask it through the DNS client, and go on with the rules after it when the response
    is rejected by the address limit of the rule or the rule is to be bypassed on
    failure.  The client is an interface, [DNSClient]. *)

From S2P Require Import Prelude MatchState Netip Context DNSMessage RuleItem Options RuleActions.
From S2P Require Import RuleAbstract RuleBuild RuleSets.

Definition DNSTypeFakeIP : string := "fakeip".

(** [adapter.DNSTransport] as the router and the client see it; [legacy] holds the strategy
    and subnet of a [LegacyDNSTransport], [detourTag] the outbound of its dialer. *)
Record DNSTransport := mkTransport {
  transportTag : string;
  transportType : string;
  legacy : option (Z * Prefix);
  detourTag : option string;
}.

(** [adapter.DNSQueryOptions] *)
Record DNSQueryOptions := mkQueryOptions {
  Transport : option DNSTransport;
  Strategy : Z;
  LookupStrategy : Z;
  DisableCache : bool;
  RewriteTTL : option Z;
  ClientSubnet : Prefix;
}.

(** The errors of the client and the router. *)
Inductive DNSError :=
  | ErrResponseRejected
  | ErrResponseRejectedCached
  | DNSDropped
  | DNSRejected (method : string) (noDrop : bool)
  | DNSRcode (rcode : Z)
  | DNSFailed (e : error)
  | DNSCause (message : string) (e : DNSError)
  | DNSErrors (e1 e2 : DNSError)
  | DNSPanic (e : error)
  | DNSOutOfFuel.

(** [errors.Is(err, ErrResponseRejected)], which the cached error extends *)
Fixpoint isRejected (e : DNSError) : bool :=
  match e with
  | ErrResponseRejected | ErrResponseRejectedCached => true
  | DNSCause _ e => isRejected e
  | DNSErrors e1 e2 => isRejected e1 || isRejected e2
  | _ => false
  end.

(** [adapter.DNSClient]; a nil transport is [None]. *)
Class DNSClient := {
  ClientState : Type;
  Client_Exchange : ClientState -> InboundContext -> option DNSTransport -> Msg -> DNSQueryOptions ->
    option (list Addr -> bool) -> (Msg + DNSError) * ClientState;
  Client_Lookup : ClientState -> InboundContext -> option DNSTransport -> string -> DNSQueryOptions ->
    option (list Addr -> bool) -> (list Addr + DNSError) * ClientState;
}.

(** The transport manager, the default strategy, whether reverse mapping is on, and
    whether the context of a query is done after a failure. *)
Record DNSWorld := mkDNSWorld {
  dnsTransport : string -> option DNSTransport;
  dnsDefault : DNSTransport;
  defaultDomainStrategy : Z;
  dnsReverseMapping : bool;
  contextDone : nat -> bool;
}.

Section router.
Context `{External} `{DomainMatching} `{DirectDialer} `{DNSNames} `{DNSClient}.
Context (env : Env) (world : DNSWorld).

(** ** Options *)

Definition setStrategy (o : DNSQueryOptions) (s : Z) : DNSQueryOptions :=
  mkQueryOptions (Transport o) s (LookupStrategy o) (DisableCache o) (RewriteTTL o) (ClientSubnet o).

(** The strategy and subnet of a legacy transport, where the options give none. *)
Definition legacyOptions (t : DNSTransport) (o : DNSQueryOptions) : DNSQueryOptions :=
  match legacy t with
  | None => o
  | Some (strategy, subnet) =>
      mkQueryOptions (Transport o)
        (if Strategy o =? DomainStrategyAsIS then strategy else Strategy o)
        (LookupStrategy o) (DisableCache o) (RewriteTTL o)
        (if prefix.IsValid (ClientSubnet o) then ClientSubnet o else subnet)
  end.

(** The options of a rule's action over those of the query. *)
Definition ruleOptions (a : DNSRouteOptions.t) (isFakeIP : bool) (o : DNSQueryOptions)
    : DNSQueryOptions :=
  mkQueryOptions (Transport o)
    (if DNSRouteOptions.Strategy a =? DomainStrategyAsIS then Strategy o
     else DNSRouteOptions.Strategy a)
    (LookupStrategy o)
    (DisableCache o || isFakeIP || DNSRouteOptions.DisableCache a)
    (match DNSRouteOptions.RewriteTTL a with Some ttl => Some ttl | None => RewriteTTL o end)
    (if prefix.IsValid (DNSRouteOptions.ClientSubnet a) then DNSRouteOptions.ClientSubnet a
     else ClientSubnet o).

(** [if dnsOptions.Strategy == AsIS { dnsOptions.Strategy = r.defaultDomainStrategy }] *)
Definition defaultStrategy (o : DNSQueryOptions) : DNSQueryOptions :=
  if Strategy o =? DomainStrategyAsIS then setStrategy o (defaultDomainStrategy world) else o.

(** ** [matchDNS] *)

(** The result: the transport, the rule with its index, the options and the metadata. *)
Record Matched := mkMatched {
  mTransport : option DNSTransport;
  mRule : option (nat * BuiltRule);
  mOptions : DNSQueryOptions;
  mMetadata : InboundContext;
}.

Fixpoint matchRules (allowFakeIP isAddressQuery : bool) (index : nat) (rules : list BuiltRule)
    (options : DNSQueryOptions) (metadata : InboundContext) : Matched :=
  match rules with
  | [] =>
      let transport := dnsDefault world in
      mkMatched (Some transport) None (legacyOptions transport options) metadata
  | rule :: rest =>
      let next := matchRules allowFakeIP isAddressQuery (S index) rest in
      if WithAddressLimit (builtRule rule) && negb isAddressQuery then next options metadata
      else
        let '(matched, md) := DNSRule_Match env (builtRule rule) (ResetRuleCache metadata) in
        if negb matched then next options md
        else
          match builtAction rule with
          | Some (RuleActionDNSRoute server o) =>
              match dnsTransport world server with
              | None => next options md
              | Some transport =>
                  let isFakeIP := String.eqb (transportType transport) DNSTypeFakeIP in
                  if isFakeIP && negb allowFakeIP then next options md
                  else mkMatched (Some transport) (Some (index, rule))
                         (legacyOptions transport (ruleOptions o isFakeIP options)) md
              end
          | Some (RuleActionDNSRouteOptions o) => next (ruleOptions o false options) md
          | Some (RuleActionReject _ _) | Some (RuleActionPredefined _) =>
              mkMatched None (Some (index, rule)) options md
          | _ => next options md
          end
  end.

(** [ruleIndex] is the index of the rule that was tried before, [None] for -1. *)
Definition matchDNS (rules : list BuiltRule) (allowFakeIP : bool) (ruleIndex : option nat)
    (isAddressQuery : bool) (options : DNSQueryOptions) (metadata : InboundContext) : Matched :=
  let start := match ruleIndex with Some i => S i | None => 0%nat end in
  matchRules allowFakeIP isAddressQuery start (drop start rules) options metadata.

(** ** Queries *)

Definition isAddressQuery (message : Msg) : bool :=
  existsb (fun q => (qType q =? TypeA) || (qType q =? TypeAAAA) || (qType q =? TypeHTTPS))
    (Questions message).

(** [addressLimitResponseCheck]; the metadata is copied. *)
Definition addressLimitResponseCheck (rule : option BuiltRule) (metadata : InboundContext)
    : option (list Addr -> bool) :=
  match rule with
  | None => None
  | Some r =>
      if negb (WithAddressLimit (builtRule r)) then None
      else Some (fun responseAddrs =>
        (MatchAddressLimit env (builtRule r) (setDestinationAddresses metadata responseAddrs)).1)
  end.

(** [BypassIfFailed] *)
Definition BypassIfFailed (rule : BuiltRule) : bool :=
  match builtAction rule with
  | Some (RuleActionDNSRoute _ o) => DNSRouteOptions.BypassIfFailed o
  | _ => false
  end.

(** [RuleActionPredefined.Response] *)
Definition predefinedResponse (p : RuleActionPredefined_) (request : Msg) : Msg :=
  let name := match Questions request with q :: _ => qName q | [] => ""%string end in
  mkMsg (Id request) true true true true (preRcode p) 0 (Questions request)
    (rewriteRecords (preAnswer p) name) (rewriteRecords (preNs p) name)
    (rewriteRecords (preExtra p) name).

(** The answer a reject or predefined action gives at once, if any. *)
Definition immediateResponse (rule : option (nat * BuiltRule)) (message : Msg)
    : option (Msg + DNSError) :=
  match rule with
  | Some (_, r) =>
      match builtAction r with
      | Some (RuleActionReject method _) =>
          if String.eqb method RejectMethodDefault
          then Some (inl (mkMsg (Id message) true false false false RcodeRefused 0
                            (take 1 (Questions message)) [] [] []))
          else if String.eqb method RejectMethodDrop then Some (inr DNSDropped)
          else None
      | Some (RuleActionPredefined p) => Some (inl (predefinedResponse p message))
      | _ => None
      end
  | None => None
  end.

(** The loop of [Exchange]; [attempt] counts the iterations.  The result has the transport
    that was asked last, [None] when a rule answered. *)
Fixpoint exchangeLoop (fuel attempt : nat) (rules : list BuiltRule) (message : Msg)
    (options : DNSQueryOptions) (ruleIndex : option nat) (metadata : InboundContext)
    (client : ClientState) : (Msg + DNSError) * option (option DNSTransport) * ClientState :=
  match fuel with
  | O => (inr DNSOutOfFuel, None, client)
  | S fuel =>
      let m := matchDNS rules true ruleIndex (isAddressQuery message) options metadata in
      match immediateResponse (mRule m) message with
      | Some r => (r, None, client)
      | None =>
          let check := addressLimitResponseCheck (snd <$> mRule m) (mMetadata m) in
          let '(r, client) := Client_Exchange client (mMetadata m) (mTransport m) message
                                (defaultStrategy (mOptions m)) check in
          match r, mRule m with
          | inr (DNSPanic e), _ => (r, Some (mTransport m), client)
          | inr e, Some (index, rule) =>
              if (match check with Some _ => isRejected e | None => false end)
                 || (BypassIfFailed rule && negb (contextDone world attempt))
              then exchangeLoop fuel (S attempt) rules message options (Some index)
                     (mMetadata m) client
              else (r, Some (mTransport m), client)
          | _, _ => (r, Some (mTransport m), client)
          end
      end
  end.

(** The metadata of a query *)
Definition queryMetadata (metadata : InboundContext) (q : Question) : InboundContext :=
  let md := setQueryType (setDestination metadata socksaddr.zero) (qType q) in
  let md := if qType q =? TypeA then setIPVersion md 4
            else if qType q =? TypeAAAA then setIPVersion md 6 else md in
  setDomain md (FqdnToDomain (qName q)).

(** The entries [Exchange] adds to the reverse mapping *)
Definition reverseMappings (transport : option DNSTransport) (response : Msg)
    : list (Addr * string * Z) :=
  if dnsReverseMapping world
     && match transport with
        | None => true
        | Some t => negb (String.eqb (transportType t) DNSTypeFakeIP)
        end
  then
    flat_map (fun rr =>
      match rrData rr with
      | DataA a | DataAAAA a => [(a, FqdnToDomain (rrName rr), rrTtl rr)]
      | _ => []
      end) (Answer response)
  else [].

(** [Exchange]: the response or error, the entries added to the reverse mapping, and the
    client. *)
Definition Exchange (rules : list BuiltRule) (metadata : InboundContext) (message : Msg)
    (options : DNSQueryOptions) (client : ClientState)
    : (Msg + DNSError) * list (Addr * string * Z) * ClientState :=
  match Questions message with
  | [q] =>
      let md := queryMetadata metadata q in
      let '(r, transport, client) :=
        match Transport options with
        | Some t =>
            let '(r, client) := Client_Exchange client md (Some t) message
                                  (defaultStrategy (legacyOptions t options)) None in
            (r, Some (Some t), client)
        | None => exchangeLoop (S (length rules)) 0 rules message options None md client
        end in
      (r,
       match r, transport with
       | inl response, Some t => reverseMappings t response
       | _, _ => []
       end,
       client)
  | _ =>
      (inl (mkMsg (Id message) true false false false RcodeFormatError 0 (Questions message)
              [] [] []), [], client)
  end.

(** ** [Lookup] *)

(** The addresses of a predefined answer *)
Definition predefinedAddresses (p : RuleActionPredefined_) : list Addr + DNSError :=
  if negb (preRcode p =? RcodeSuccess) then inr (DNSRcode (preRcode p))
  else inl (FilterBlocked (flat_map (fun rr =>
         match rrData rr with DataA a | DataAAAA a => [a] | _ => [] end) (preAnswer p))).

(** What a reject action returns directly ([inl]), or a predefined one ([inr]) *)
Definition immediateAddresses (rule : option (nat * BuiltRule))
    : option (DNSError + (list Addr + DNSError)) :=
  match rule with
  | Some (_, r) =>
      match builtAction r with
      | Some (RuleActionReject method noDrop) => Some (inl (DNSRejected method noDrop))
      | Some (RuleActionPredefined p) => Some (inr (predefinedAddresses p))
      | _ => None
      end
  | None => None
  end.

(** [printResult]: an empty result is an error, and errors name the domain. *)
Definition lookupResult (domain : string) (r : list Addr + DNSError) : list Addr + DNSError :=
  match r with
  | inl [] => inr (DNSCause ("lookup " +:+ domain)%string (DNSFailed "empty result"))
  | inl addrs => inl addrs
  | inr (DNSPanic e) => inr (DNSPanic e)
  | inr e => inr (DNSCause ("lookup " +:+ domain)%string e)
  end.

(** The loop of [Lookup] *)
Fixpoint lookupLoop (fuel : nat) (rules : list BuiltRule) (domain : string)
    (options : DNSQueryOptions) (ruleIndex : option nat) (metadata : InboundContext)
    (client : ClientState) : (list Addr + DNSError) * ClientState :=
  match fuel with
  | O => (inr DNSOutOfFuel, client)
  | S fuel =>
      let m := matchDNS rules false ruleIndex true options metadata in
      match immediateAddresses (mRule m) with
      | Some (inl e) => (inr e, client)
      | Some (inr r) => (lookupResult domain r, client)
      | None =>
          let check := addressLimitResponseCheck (snd <$> mRule m) (mMetadata m) in
          let '(r, client) := Client_Lookup client (mMetadata m) (mTransport m) domain
                                (defaultStrategy (mOptions m)) check in
          let stop := (lookupResult domain r, client) in
          match r, mRule m with
          | inr (DNSPanic e), _ => stop
          | _, None => stop
          | _, Some (index, rule) =>
              let again := lookupLoop fuel rules domain options (Some index) (mMetadata m) client in
              let empty := match r with inl (_ :: _) => false | _ => true end in
              if empty && BypassIfFailed rule then again
              else
                match check, r with
                | Some _, inr _ => again
                | _, _ => stop
                end
          end
      end
  end.

Definition Lookup (rules : list BuiltRule) (metadata : InboundContext) (domain : string)
    (options : DNSQueryOptions) (client : ClientState) : (list Addr + DNSError) * ClientState :=
  let md := setDomain (setDestination metadata socksaddr.zero) (FqdnToDomain domain) in
  match Transport options with
  | Some t =>
      let '(r, client) := Client_Lookup client md (Some t) domain
                            (defaultStrategy (legacyOptions t options)) None in
      (lookupResult domain r, client)
  | None => lookupLoop (S (length rules)) rules domain options None md client
  end.
End router.
