(* ===== verification/DNSRouterSpec.v ===== *)
(** * Properties of the DNS router

    Which server a query goes to, and that [Exchange] and [Lookup] end. *)

From S2P Require Import Prelude MatchState Netip Context DNSMessage RuleItem Options RuleActions.
From S2P Require Import RuleAbstract RuleSemantics RuleBuild RuleSets DNSRouter.

Section match_dns.
Context `{External} `{DomainMatching} `{DirectDialer} `{DNSNames}.
Context (env : Env) (world : DNSWorld).

(** ** The rule that is selected *)

(** The conditions of a rule hold of the query, and it is not skipped for its address
    limit. *)
Definition applies (isAddressQuery : bool) (md : InboundContext) (rule : BuiltRule) : bool :=
  (isAddressQuery || negb (WithAddressLimit (builtRule rule)))
  && (DNSRule_Match env (builtRule rule) (ResetRuleCache md)).1.

(** The rule can end the search: it names a known server, which is not FakeIP where that
    is not allowed, or it rejects the query or answers it. *)
Definition usable (allowFakeIP : bool) (rule : BuiltRule) : bool :=
  match builtAction rule with
  | Some (RuleActionDNSRoute server _) =>
      match dnsTransport world server with
      | Some t => allowFakeIP || negb (String.eqb (transportType t) DNSTypeFakeIP)
      | None => false
      end
  | Some (RuleActionReject _ _) | Some (RuleActionPredefined _) => true
  | _ => false
  end.

(** The first such rule. *)
Fixpoint firstServer (allowFakeIP isAddressQuery : bool) (md : InboundContext) (index : nat)
    (rules : list BuiltRule) : option (nat * BuiltRule) :=
  match rules with
  | [] => None
  | rule :: rest =>
      if applies isAddressQuery md rule && usable allowFakeIP rule then Some (index, rule)
      else firstServer allowFakeIP isAddressQuery md (S index) rest
  end.

(** The rules before it. *)
Fixpoint beforeServer (allowFakeIP isAddressQuery : bool) (md : InboundContext)
    (rules : list BuiltRule) : list BuiltRule :=
  match rules with
  | [] => []
  | rule :: rest =>
      if applies isAddressQuery md rule && usable allowFakeIP rule then []
      else rule :: beforeServer allowFakeIP isAddressQuery md rest
  end.

(** The options after the [route-options] rules that apply. *)
Definition appliedOptions (isAddressQuery : bool) (md : InboundContext) (rules : list BuiltRule)
    (o : DNSQueryOptions) : DNSQueryOptions :=
  foldl (fun o rule =>
    match builtAction rule with
    | Some (RuleActionDNSRouteOptions a) =>
        if applies isAddressQuery md rule then ruleOptions a false o else o
    | _ => o
    end) o rules.

(** The transport and options of the selected rule, or of the default server. *)
Definition selectedServer (rule : option BuiltRule) (o : DNSQueryOptions)
    : option DNSTransport * DNSQueryOptions :=
  match rule with
  | None => (Some (dnsDefault world), legacyOptions (dnsDefault world) o)
  | Some r =>
      match builtAction r with
      | Some (RuleActionDNSRoute server a) =>
          match dnsTransport world server with
          | Some t =>
              (Some t, legacyOptions t
                 (ruleOptions a (String.eqb (transportType t) DNSTypeFakeIP) o))
          | None => (None, o)
          end
      | _ => (None, o)
      end
  end.

(** Metadata that a DNS rule cannot tell apart. *)
Definition sameQuery (md md' : InboundContext) : Prop :=
  setIgnore (ResetRuleCache md) true = setIgnore (ResetRuleCache md') true.

Lemma DNSRule_Match_same rule md : sameQuery (DNSRule_Match env rule (ResetRuleCache md)).2 md.
Proof.
  unfold sameQuery, DNSRule_Match, matchStates.
  rewrite (sound_frame _ (proj1 (evaluation_sound env) rule)). done.
Qed.

Lemma applies_same aq md md' rule : sameQuery md md' -> applies aq md rule = applies aq md' rule.
Proof. intros Hs. unfold applies, DNSRule_Match. unfold sameQuery in Hs. by rewrite Hs. Qed.

Lemma firstServer_same af aq md md' rules i :
  sameQuery md md' -> firstServer af aq md i rules = firstServer af aq md' i rules.
Proof.
  intros Hs. revert i. induction rules as [|r rules IH]; intros i; simpl; [done|].
  by rewrite (applies_same aq md md' r Hs), IH.
Qed.

Lemma beforeServer_same af aq md md' rules :
  sameQuery md md' -> beforeServer af aq md rules = beforeServer af aq md' rules.
Proof.
  intros Hs. induction rules as [|r rules IH]; simpl; [done|].
  by rewrite (applies_same aq md md' r Hs), IH.
Qed.

Lemma appliedOptions_same aq md md' rules o :
  sameQuery md md' -> appliedOptions aq md rules o = appliedOptions aq md' rules o.
Proof.
  intros Hs. revert o. induction rules as [|r rules IH]; intros o; [done|].
  unfold appliedOptions in *. cbn [foldl]. by rewrite (applies_same aq md md' r Hs), IH.
Qed.
(** A result of [matchRules] against the rules from [i] on. *)
Definition matchedAs (af aq : bool) (i : nat) (rules : list BuiltRule) (o : DNSQueryOptions)
    (md : InboundContext) (m : Matched) : Prop :=
  mRule m = firstServer af aq md i rules /\
  sameQuery (mMetadata m) md /\
  (mTransport m, mOptions m)
  = selectedServer (snd <$> firstServer af aq md i rules)
      (appliedOptions aq md (beforeServer af aq md rules) o).

(** A rule that does not end the search: [o'] are the options after it. *)
Lemma matchedAs_skip af aq i rule rules o o' md md' m :
  sameQuery md' md -> applies aq md rule && usable af rule = false ->
  appliedOptions aq md [rule] o = o' ->
  matchedAs af aq (S i) rules o' md' m -> matchedAs af aq i (rule :: rules) o md m.
Proof.
  intros Hs Hno <- (Hr & Hm & Ht). unfold matchedAs. cbn [firstServer beforeServer]. rewrite Hno.
  rewrite (firstServer_same _ _ _ _ _ _ Hs) in Hr, Ht. rewrite (beforeServer_same _ _ _ _ _ Hs) in Ht.
  rewrite (appliedOptions_same _ _ _ _ _ Hs) in Ht.
  split_and!; [done|by etrans|done].
Qed.

(** A rule that ends it. *)
Lemma matchedAs_stop af aq i rule rules o md m :
  applies aq md rule && usable af rule = true ->
  mRule m = Some (i, rule) -> sameQuery (mMetadata m) md ->
  (mTransport m, mOptions m) = selectedServer (Some rule) o ->
  matchedAs af aq i (rule :: rules) o md m.
Proof. intros Hy Hr Hm Ht. unfold matchedAs. cbn [firstServer beforeServer]. by rewrite Hy. Qed.

Lemma matchRules_spec af aq rules : forall i o md,
  matchedAs af aq i rules o md (matchRules env world af aq i rules o md).
Proof.
  induction rules as [|rule rules IH]; intros i o md; [done|]. cbn [matchRules].
  pose proof (DNSRule_Match_same (builtRule rule) md) as Hs.
  destruct (WithAddressLimit (builtRule rule) && negb aq) eqn:Ew.
  { assert (applies aq md rule = false) as Ha by (unfold applies; destruct aq, (WithAddressLimit _); done).
    apply (matchedAs_skip af aq i rule rules o o md md); [done|by rewrite Ha| |by apply IH].
    unfold appliedOptions. simpl. rewrite Ha. by destruct (builtAction rule) as [[]|]. }
  assert (Ha : applies aq md rule = (DNSRule_Match env (builtRule rule) (ResetRuleCache md)).1)
    by (unfold applies; destruct aq, (WithAddressLimit _); done).
  destruct (DNSRule_Match env (builtRule rule) (ResetRuleCache md)) as [[|] md1];
    cbn [fst snd negb] in *.
  2: { eapply matchedAs_skip; [done|by rewrite Ha| |by apply IH].
       unfold appliedOptions. simpl. rewrite Ha. by destruct (builtAction rule) as [[]|]. }
  destruct (builtAction rule) as [action|] eqn:Ea.
  2: { eapply matchedAs_skip; [done|unfold usable; by rewrite Ha, Ea| |by apply IH].
       unfold appliedOptions. simpl. by rewrite Ea. }
  destruct action; try (eapply matchedAs_skip;
    [done|unfold usable; by rewrite Ha, Ea|unfold appliedOptions; simpl; rewrite Ea, ?Ha; reflexivity|
     by apply IH]); try (apply matchedAs_stop;
    [unfold usable; by rewrite Ha, Ea|done|done|unfold selectedServer; by rewrite Ea]).
  destruct (dnsTransport world server) as [t|] eqn:Et.
  2: { eapply matchedAs_skip; [done|unfold usable; by rewrite Ha, Ea, Et| |by apply IH].
       unfold appliedOptions. simpl. by rewrite Ea. }
  destruct (String.eqb (transportType t) DNSTypeFakeIP && negb af) eqn:Ef.
  - eapply matchedAs_skip; [done| | |by apply IH].
    + unfold usable. rewrite Ha, Ea, Et. destruct af, (String.eqb _ _); done.
    + unfold appliedOptions. simpl. by rewrite Ea.
  - apply matchedAs_stop; [|done|done|unfold selectedServer; by rewrite Ea, Et].
    unfold usable. rewrite Ha, Ea, Et. destruct af, (String.eqb _ _); done.
Qed.

(** C7. The server of a query: [matchDNS] selects the first rule after the one tried before
    whose conditions hold of the query (evaluated as if no other rule had been), that is
    not skipped for its address limit, and that names a known server, rejects the query
    or answers it; the options are those of the query with the [route-options] rules
    before it that apply, in order, and then its own; without such a rule the default
    server is used. *)
Theorem dns_first_server rules af previous aq o md :
  let start := match previous with Some i => S i | None => 0%nat end in
  let candidates := drop start rules in
  let m := matchDNS env world rules af previous aq o md in
  mRule m = firstServer af aq md start candidates /\
  sameQuery (mMetadata m) md /\
  (mTransport m, mOptions m)
  = selectedServer (snd <$> firstServer af aq md start candidates)
      (appliedOptions aq md (beforeServer af aq md candidates) o).
Proof. intros start candidates m. apply matchRules_spec. Qed.
End match_dns.

(** ** Termination *)
Section total.
Context `{External} `{DomainMatching} `{DirectDialer} `{DNSNames} `{DNSClient}.
Context (env : Env) (world : DNSWorld).

(** A result that is a response or an ordinary error. *)
Definition answered {A} (r : A + DNSError) : Prop :=
  match r with inr (DNSPanic _) | inr DNSOutOfFuel => False | _ => True end.

(** The client answers every query to a server. *)
Definition clientAnswers : Prop :=
  (forall st md t message o check, answered (Client_Exchange st md (Some t) message o check).1) /\
  (forall st md t domain o check, answered (Client_Lookup st md (Some t) domain o check).1).

(** No rule rejects with the method [reply], which only concerns ICMP. *)
Definition noReply (rule : BuiltRule) : Prop :=
  forall method noDrop, builtAction rule = Some (RuleActionReject method noDrop) ->
    method = RejectMethodDefault \/ method = RejectMethodDrop.

Lemma firstServer_index af aq md rules : forall i j r,
  firstServer env world af aq md i rules = Some (j, r) ->
  (i <= j < i + length rules)%nat /\ r ∈ rules /\ usable world af r = true.
Proof.
  induction rules as [|rule rules IH]; intros i j r; simpl; [done|].
  destruct (applies env aq md rule && usable world af rule) eqn:E.
  - intros [= <- <-]. apply andb_true_iff in E as [_ E]. split_and!; [lia|lia| |done].
    by left.
  - intros (? & ? & ?)%IH. split_and!; [lia|lia| |done]. by right.
Qed.

(** What [matchDNS] finds: a rule after the one tried before, with a server, unless the
    rule rejects the query or answers it. *)
Lemma matchDNS_found rules af previous aq o md :
  let m := matchDNS env world rules af previous aq o md in
  let start := match previous with Some i => S i | None => 0%nat end in
  match mRule m with
  | None => exists t, mTransport m = Some t
  | Some (j, r) =>
      (start <= j < length rules)%nat /\ r ∈ rules /\
      ((exists t, mTransport m = Some t) \/
       match builtAction r with
       | Some (RuleActionReject _ _) | Some (RuleActionPredefined _) => True
       | _ => False
       end)
  end.
Proof.
  intros m start. pose proof (matchRules_spec env world af aq (drop start rules) start o md)
    as (Hr & _ & Ht). change (matchRules _ _ _ _ _ _ _ _) with m in Hr, Ht. rewrite Hr.
  destruct (firstServer env world af aq md start (drop start rules)) as [[j r]|] eqn:E.
  - apply firstServer_index in E as (Hj & Hin & Hu). rewrite length_drop in Hj.
    split_and!; [lia|lia| |].
    + rewrite <- (take_drop start rules). apply elem_of_app. by right.
    + unfold usable in Hu. cbn [fmap option_fmap option_map snd selectedServer] in Ht.
      destruct (builtAction r) as [[]|]; try done; auto.
      destruct (dnsTransport world server); [|done]. injection Ht as -> _. left. by eexists.
  - injection Ht as -> _. by eexists.
Qed.

Lemma immediateResponse_none rule message :
  noReply rule.2 -> immediateResponse (Some rule) message = None ->
  match builtAction rule.2 with
  | Some (RuleActionReject _ _) | Some (RuleActionPredefined _) => False
  | _ => True
  end.
Proof.
  destruct rule as [i r]. simpl. intros Hn. unfold immediateResponse.
  destruct (builtAction r) as [[]|] eqn:E; try done.
  destruct (Hn _ _ E) as [-> | ->]; done.
Qed.

Lemma immediateResponse_answered rule message r :
  immediateResponse rule message = Some r -> answered r.
Proof.
  unfold immediateResponse. intros Hi. repeat case_match; simplify_eq; done.
Qed.

(** The loop only comes back with a later rule: one round for each rule and one for the
    default server are enough. *)
Lemma exchangeLoop_answered rules message o : forall fuel attempt previous md st,
  clientAnswers -> Forall noReply rules ->
  let start := match previous with Some i => S i | None => 0%nat end in
  (start <= length rules)%nat -> (length rules - start < fuel)%nat ->
  answered (exchangeLoop env world fuel attempt rules message o previous md st).1.1.
Proof.
  induction fuel as [|fuel IH]; intros attempt previous md st Hc HF start Hs Hf; [lia|].
  cbn [exchangeLoop].
  pose proof (matchDNS_found rules true previous (isAddressQuery message) o md) as Hm.
  set (m := matchDNS _ _ _ _ _ _ _ _) in *. cbv zeta in Hm. clearbody m.
  destruct (immediateResponse (mRule m) message) as [r|] eqn:Ei.
  { by apply immediateResponse_answered in Ei. }
  assert (Ht : exists t, mTransport m = Some t).
  { destruct (mRule m) as [[j r]|]; [|done]. destruct Hm as (_ & Hin & [Ht|Ha]); [done|].
    rewrite Forall_forall in HF. apply (immediateResponse_none (j, r)) in Ei; [|by apply HF].
    simpl in Ei. by destruct (builtAction r) as [[]|]. }
  destruct Ht as [t Ht]. rewrite Ht.
  set (check := addressLimitResponseCheck _ _ _). clearbody check.
  pose proof (proj1 Hc st (mMetadata m) t message (defaultStrategy world (mOptions m)) check) as Ha.
  destruct (Client_Exchange _ _ _ _ _ _) as [r st']. simpl in Ha.
  destruct r as [response|e]; [by destruct (mRule m) as [[]|]|].
  destruct (mRule m) as [[j rule]|]; [|by destruct e].
  assert (Hgo : forall b : bool, answered (if b
    then exchangeLoop env world fuel (S attempt) rules message o (Some j) (mMetadata m) st'
    else (inr e, Some (Some t), st')).1.1).
  { intros [|]; [|done]. destruct Hm as (? & _ & _). apply IH; try done; lia. }
  destruct e; try done; apply Hgo.
Qed.

Lemma lookupResult_answered domain r : answered r -> answered (lookupResult domain r).
Proof. destruct r as [[|]|[]]; done. Qed.

Lemma lookupLoop_answered rules domain o : forall fuel previous md st,
  clientAnswers ->
  let start := match previous with Some i => S i | None => 0%nat end in
  (start <= length rules)%nat -> (length rules - start < fuel)%nat ->
  answered (lookupLoop env world fuel rules domain o previous md st).1.
Proof.
  induction fuel as [|fuel IH]; intros previous md st Hc start Hs Hf; [lia|].
  cbn [lookupLoop].
  pose proof (matchDNS_found rules false previous true o md) as Hm.
  set (m := matchDNS _ _ _ _ _ _ _ _) in *. cbv zeta in Hm. clearbody m.
  destruct (immediateAddresses (mRule m)) as [[e|r]|] eqn:Ei.
  { unfold immediateAddresses in Ei. repeat case_match; by simplify_eq. }
  { unfold immediateAddresses, predefinedAddresses in Ei. repeat case_match; simplify_eq;
      by apply lookupResult_answered. }
  assert (Ht : exists t, mTransport m = Some t).
  { destruct (mRule m) as [[j r]|]; [|done]. destruct Hm as (_ & _ & [Ht|Ha]); [done|].
    simpl in Ei. by destruct (builtAction r) as [[]|]. }
  destruct Ht as [t Ht]. rewrite Ht.
  set (check := addressLimitResponseCheck _ _ _). clearbody check.
  pose proof (proj2 Hc st (mMetadata m) t domain (defaultStrategy world (mOptions m)) check) as Ha.
  destruct (Client_Lookup _ _ _ _ _ _) as [r st']. simpl in Ha.
  assert (Hstop : answered (lookupResult domain r)) by by apply lookupResult_answered.
  destruct (mRule m) as [[j rule]|]; [|by destruct r as [|[]]].
  assert (Hgo : answered (lookupLoop env world fuel rules domain o (Some j) (mMetadata m) st').1).
  { destruct Hm as (? & _ & _). apply IH; try done; lia. }
  destruct r as [addrs|e].
  - cbn [fst]. destruct (_ && _); [exact Hgo|]. by destruct check.
  - destruct e; try done; cbn [andb]; destruct (BypassIfFailed rule), check; done.
Qed.

(** Both loops end: see [dns_queries_end]. *)
Lemma queries_answered rules md message domain o st :
  clientAnswers ->
  (Forall noReply rules -> answered (Exchange env world rules md message o st).1.1) /\
  answered (Lookup env world rules md domain o st).1.
Proof.
  intros Hc. split.
  - intros HF. unfold Exchange. destruct (Questions message) as [|q [|]]; [done| |done].
    destruct (Transport o) as [t|].
    + pose proof (proj1 Hc st (queryMetadata md q) t message
        (defaultStrategy world (legacyOptions t o)) None) as Ha.
      by destruct (Client_Exchange _ _ _ _ _ _).
    + pose proof (exchangeLoop_answered rules message o (S (length rules)) 0 None
        (queryMetadata md q) st Hc HF) as Ha. cbv zeta in Ha.
      destruct (exchangeLoop _ _ _ _ _ _ _ _ _ _) as [[r t] st']. apply Ha; lia.
  - unfold Lookup. destruct (Transport o) as [t|].
    + pose proof (proj2 Hc st (setDomain (setDestination md socksaddr.zero) (FqdnToDomain domain)) t
        domain (defaultStrategy world (legacyOptions t o)) None) as Ha.
      destruct (Client_Lookup _ _ _ _ _ _). by apply lookupResult_answered.
    + apply (lookupLoop_answered rules domain o (S (length rules)) None); [done|lia|lia].
Qed.

(** C6. Queries end, for a client that answers every query to a real server (with a
    response or an error: [clientAnswers]): whatever rejected responses and bypassed
    failures make the router go on to later rules, [Lookup] under any rules, and [Exchange]
    under rules none of which rejects with the method [reply] (such a rule makes it
    panic), give a response or an error after at most one round for each rule and one for
    the default server, and never use a nil server. *)
Theorem dns_queries_end rules md message domain o st :
  clientAnswers ->
  (Forall noReply rules -> answered (Exchange env world rules md message o st).1.1) /\
  answered (Lookup env world rules md domain o st).1.
Proof. apply queries_answered. Qed.
End total.
