(* ===== verification/DNSClient.v ===== *)
(** * The DNS client ([dns/client.go], [dns/extension_edns0_subnet.go])

    [Exchange] asks a server, with a cache of responses, a store of rejected responses and
    a short-lived memory of network failures; [Lookup] asks for the addresses of a
    domain.  The caches ([freelru]) are an interface, [LRU]; what happens around a
    call - the time, concurrent queries, the state of outbounds and the answer of the
    server - is the environment of the call, [CallEnv]. *)

From S2P Require Import Prelude MatchState Netip Context DNSMessage RuleItem Options RuleActions.
From S2P Require Import RuleAbstract RuleBuild RuleSets DNSRouter.

(** Nanoseconds of a second, and the life of a network failure *)
Definition second : Z := 10 ^ 9.
Definition negFailTTL : Z := 5 * second.

(** A cache of [freelru]; times are in nanoseconds, and the second component of a lookup
    with lifetime is when the entry expires. *)
Class LRU (K V : Type) := {
  lru : Type;
  lruGet : lru -> Z -> K -> option V * lru;
  lruGetWithLifetime : lru -> Z -> K -> option (V * Z) * lru;
  lruAdd : lru -> K -> V -> lru;
  lruAddWithLifetime : lru -> Z -> K -> V -> Z -> lru;
  lruRemove : lru -> K -> lru;
  lruPurge : lru -> lru;
}.
Arguments lru K V {_}.

(** [transportCacheKey] *)
Abbreviation transportCacheKey := (Question * string)%type.

(** What [miekg/dns] does with the OPT record of a message; the class and TTL of the
    record hold the size and the flags. *)
Class EDNS := {
  IsEdns0 : Msg -> option RR;
  optVersion : RR -> Z;
  (** [SetEdns0] with the size and the DO bit of a record *)
  SetEdns0 : Msg -> RR -> Msg;
}.

(** Fields of [Client] that do not change *)
Record ClientOptions := mkClientOptions {
  disableCache : bool;
  disableExpire : bool;
  independentCache : bool;
  clientSubnet : Prefix;
}.

(** The store of rejected responses ([adapter.RDRCStore]) *)
Class RDRCStore := {
  RDRC : Type;
  LoadRDRC : RDRC -> string -> string -> Z -> bool;
  SaveRDRC : RDRC -> string -> string -> Z -> RDRC;
}.

(** A failed exchange of a transport: a response code, or anything else. *)
Inductive TransportError := TransportRcode (rcode : Z) | TransportFailed (e : error).

(** The environment of a call *)
Record CallEnv := mkCallEnv {
  (** the time when the cache is read, and when the response is stored *)
  nowLoad : Z;
  nowStore : Z;
  (** another query for the same key is in flight: the result of [awaitFlight] *)
  inFlight : option (option error);
  (** the transport the call comes from ([transportTagFromContext]) *)
  contextTransport : option string;
  (** [adapter.ConnectionManager] and the groups of the outbound manager *)
  hasConnectionManager : bool;
  IsOutboundDegraded : string -> bool;
  groupNow : string -> option string;
  (** [transport.Exchange] *)
  transportExchange : DNSTransport -> Msg -> Msg + TransportError;
}.

(** ** Circuit breaker *)

(** The group behind a tag, at most eight levels deep *)
Fixpoint unwrapGroup (call : CallEnv) (i : nat) (tag : string) : string :=
  match i with
  | O => tag
  | S i =>
      match groupNow call tag with
      | None => tag
      | Some now =>
          if String.eqb now "" || String.eqb now tag then tag else unwrapGroup call i now
      end
  end.

Definition transportCircuitOpen (call : CallEnv) (transport : DNSTransport) : option error :=
  match detourTag transport with
  | None => None
  | Some tag =>
      if String.eqb tag "" || negb (hasConnectionManager call) then None
      else
        let tag := unwrapGroup call 8 tag in
        if IsOutboundDegraded call tag
        then Some ("dns: outbound [" +:+ tag +:+ "] circuit-open, fast-fail")%string
        else None
  end.

(** ** Messages *)

Definition isSOA (rr : RR) : bool := match rrData rr with DataSOA _ _ => true | _ => false end.

(** [extractNegativeTTL] *)
Definition extractNegativeTTL (response : Msg) : option Z :=
  match List.find isSOA (Ns response) with
  | Some rr =>
      match rrData rr with
      | DataSOA minttl _ => Some (if rrTtl rr <? minttl then rrTtl rr else minttl)
      | _ => None
      end
  | None => None
  end.

Definition isPadding (o : EDNS0) : bool :=
  match o with EDNS0_Other code _ => code =? EDNS0PADDING | _ => false end.

Definition stripPadding (rr : RR) : RR :=
  match rrData rr with
  | DataOPT options =>
      mkRR (rrName rr) (rrType rr) (rrClass rr) (rrTtl rr)
        (DataOPT (List.filter (fun o => negb (isPadding o)) options))
  | _ => rr
  end.

(** [stripDNSPadding] *)
Definition stripDNSPadding (response : Msg) : Msg :=
  setExtra response (stripPadding <$> Extra response).

(** [IPv4Only] takes the IPv6 hints out of HTTPS records, [IPv6Only] the IPv4 hints. *)
Definition filterHints (strategy : Z) (rr : RR) : RR :=
  match rrData rr with
  | DataHTTPS values text =>
      mkRR (rrName rr) (rrType rr) (rrClass rr) (rrTtl rr)
        (DataHTTPS (List.filter (fun v =>
           negb (v.1 =? (if strategy =? DomainStrategyIPv4Only then SVCB_IPV6HINT
                         else SVCB_IPV4HINT))) values) text)
  | _ => rr
  end.

Definition filterHTTPS (question : Question) (strategy : Z) (response : Msg) : Msg :=
  if (qType question =? TypeHTTPS)
     && ((strategy =? DomainStrategyIPv4Only) || (strategy =? DomainStrategyIPv6Only))
  then
    mkMsg (Id response) (Response response) (Authoritative response) (RecursionDesired response)
      (RecursionAvailable response) (Rcode response) (otherBits response) (Questions response)
      (filterHints strategy <$> Answer response) (Ns response) (Extra response)
  else response.

(** The loop that looks for the smallest TTL *)
Definition lowerTTL (timeToLive : Z) (rr : RR) : Z :=
  if (timeToLive =? 0) || (0 <? rrTtl rr) && (rrTtl rr <? timeToLive) then rrTtl rr
  else timeToLive.

Definition lowestTTL (timeToLive : Z) (response : Msg) : Z :=
  foldl lowerTTL timeToLive (records response).

Definition responseTTL (response : Msg) (rewrite : option Z) : Z :=
  let soa := match Answer response with
             | [] => default 0 (extractNegativeTTL response)
             | _ => 0
             end in
  let timeToLive := if soa =? 0 then lowestTTL 0 response else soa in
  match rewrite with Some ttl => ttl | None => timeToLive end.

Definition isOPT (rr : RR) : bool := rrType rr =? TypeOPT.

(** [record.Header().Ttl = f(record.Header().Ttl)] for all records but OPT *)
Definition changeTTL (f : Z -> Z) (response : Msg) : Msg :=
  mapRecords (fun rr => if isOPT rr then rr else setTtl rr (f (rrTtl rr))) response.

(** ** Client subnet *)

Definition isSubnet (o : EDNS0) : bool := match o with EDNS0_SUBNET _ _ _ => true | _ => false end.

(** The position of the first element that satisfies [f] *)
Fixpoint indexOf {A} (f : A -> bool) (l : list A) : option nat :=
  match l with
  | [] => None
  | x :: rest => if f x then Some 0%nat else S <$> indexOf f rest
  end.

(** The loop [findExists]: the OPT record and the subnet option that are left in
    [optRecord] and [subnetOption]; a record of another type sets [optRecord] to nil. *)
Fixpoint findExists (i : nat) (extra : list RR) (optRecord : option nat)
    : option nat * option nat :=
  match extra with
  | [] => (optRecord, None)
  | rr :: rest =>
      match rrData rr with
      | DataOPT options =>
          match indexOf isSubnet options with
          | Some j => (Some i, Some j)
          | None => findExists (S i) rest (Some i)
          end
      | _ => findExists (S i) rest None
      end
  end.

Definition subnetOption (subnet : Prefix) : EDNS0 :=
  EDNS0_SUBNET (if netip.Is4 (paddr subnet) then 1 else 2) (u8 (prefix.Bits subnet)) (paddr subnet).

(** The record with the option at [j] replaced, or the option appended *)
Definition putSubnet (subnet : Prefix) (j : option nat) (rr : RR) : RR :=
  match rrData rr with
  | DataOPT options =>
      mkRR (rrName rr) (rrType rr) (rrClass rr) (rrTtl rr)
        (DataOPT (match j with
                  | Some j => <[j := subnetOption subnet]> options
                  | None => options ++ [subnetOption subnet]
                  end))
  | _ => rr
  end.

(** [SetClientSubnet]; the message is copied where it is changed in place. *)
Definition SetClientSubnet (message : Msg) (subnet : Prefix) : Msg :=
  match findExists 0 (Extra message) None with
  | (None, _) =>
      setExtra message (Extra message ++ [mkRR "." TypeOPT 0 0 (DataOPT [subnetOption subnet])])
  | (Some i, j) => setExtra message (alter (putSubnet subnet j) i (Extra message))
  end.

(** A request whose response can be cached *)
Definition isSimpleRequest (message : Msg) (options : DNSQueryOptions) : bool :=
  (length (Questions message) =? 1)%nat && negb (nonempty (Ns message))
  && match Extra message with
     | [] => true
     | [rr] =>
         isOPT rr && (0 <? rrClass rr) && (rrTtl rr =? 0)
         && match rrData rr with DataOPT [] => true | _ => false end
     | _ => false
     end
  && negb (prefix.IsValid (ClientSubnet options)).

(** ** The client *)
Section client.
Context `{External} `{DNSNames} `{EDNS} `{RDRCStore}.
Context `{CQ : LRU Question Msg} `{CT : LRU transportCacheKey Msg} `{CN : LRU transportCacheKey unit}.
Context (conf : ClientOptions).

(** [Client]: which of the two caches is used depends on [independentCache]; both are
    nil when caching is disabled. *)
Record Client := mkClient {
  cache : lru Question Msg;
  transportCache : lru transportCacheKey Msg;
  negFail : lru transportCacheKey unit;
  rdrc : option RDRC;
}.

Definition setCaches (c : Client) (q : lru Question Msg) (t : lru transportCacheKey Msg) : Client :=
  mkClient q t (negFail c) (rdrc c).

Definition ClearCache (c : Client) : Client :=
  if disableCache conf then c
  else if independentCache conf then setCaches c (cache c) (lruPurge (transportCache c))
  else setCaches c (lruPurge (cache c)) (transportCache c).

(** [storeCache] *)
Definition storeCache (call : CallEnv) (transport : DNSTransport) (question : Question)
    (message : Msg) (timeToLive : Z) (c : Client) : Client :=
  let key := (question, transportTag transport) in
  if timeToLive =? 0 then c
  else if disableExpire conf then
    if independentCache conf then setCaches c (cache c) (lruAdd (transportCache c) key message)
    else setCaches c (lruAdd (cache c) question message) (transportCache c)
  else
    let lifetime := second * timeToLive in
    if independentCache conf then
      setCaches c (cache c)
        (lruAddWithLifetime (transportCache c) (nowStore call) key message lifetime)
    else
      setCaches c (lruAddWithLifetime (cache c) (nowStore call) question message lifetime)
        (transportCache c).

(** The remaining life of an entry in whole seconds.  The code truncates a double
    ([Duration.Seconds]); that is this quotient as long as fewer than 2^24 seconds (194 days)
    are left, beyond that the last nanoseconds of a second may count as the next one. *)
Definition remainingTTL (now expireAt : Z) : Z := Z.max (Z.quot (expireAt - now) second) 0.

(** The TTLs of a cached response, at [now] *)
Definition agedResponse (now expireAt : Z) (response : Msg) : Msg :=
  let originTTL := lowestTTL 0 response in
  let nowTTL := remainingTTL now expireAt in
  if 0 <? originTTL then
    let duration := u32 (originTTL - nowTTL) in
    changeTTL (fun ttl => u32 (ttl - duration)) response
  else changeTTL (fun _ => u32 nowTTL) response.

(** [loadResponse] *)
Definition loadResponse (call : CallEnv) (transport : DNSTransport) (question : Question)
    (c : Client) : option Msg * Client :=
  let now := nowLoad call in
  let key := (question, transportTag transport) in
  if disableExpire conf then
    if independentCache conf then
      let '(r, t) := lruGet (transportCache c) now key in (r, setCaches c (cache c) t)
    else
      let '(r, q) := lruGet (cache c) now question in (r, setCaches c q (transportCache c))
  else
    let '(r, c) :=
      if independentCache conf then
        let '(r, t) := lruGetWithLifetime (transportCache c) now key in (r, setCaches c (cache c) t)
      else
        let '(r, q) := lruGetWithLifetime (cache c) now question in
        (r, setCaches c q (transportCache c)) in
    match r with
    | None => (None, c)
    | Some (response, expireAt) =>
        if expireAt <? now then
          (None,
           if independentCache conf then setCaches c (cache c) (lruRemove (transportCache c) key)
           else setCaches c (lruRemove (cache c) question) (transportCache c))
        else (Some (agedResponse now expireAt response), c)
    end.

(** The strategy of a query rules out the type of its question. *)
Definition strategyRejects (question : Question) (strategy : Z) : bool :=
  ((qType question =? TypeA) && (strategy =? DomainStrategyIPv6Only))
  || ((qType question =? TypeAAAA) && (strategy =? DomainStrategyIPv4Only)).

(** The check of a response: [true] when it is rejected *)
Definition checkRejects (responseChecker : option (list Addr -> bool)) (response : Msg) : bool :=
  match responseChecker with
  | None => false
  | Some check =>
      if negb (Rcode response =? RcodeSuccess) && negb (Rcode response =? RcodeNameError) then true
      else match Answer response with
           | [] => negb (check [])
           | _ => negb (check (MessageToAddresses response))
           end
  end.

(** The end of [Exchange]: the id of the request, and no EDNS the request does not know *)
Definition finishResponse (message response : Msg) (messageId : Z) : Msg :=
  let response := setId response messageId in
  match IsEdns0 response with
  | Some opt =>
      let strip := setExtra response (List.filter (fun rr => negb (isOPT rr)) (Extra response)) in
      match IsEdns0 message with
      | None => strip
      | Some requestOpt =>
          if optVersion requestOpt <? optVersion opt then SetEdns0 strip opt else response
      end
  | None => response
  end.

(** What [Exchange] does with the response of the server *)
Definition acceptResponse (call : CallEnv) (t : DNSTransport) (question : Question)
    (options : DNSQueryOptions) (responseChecker : option (list Addr -> bool)) (noCache : bool)
    (message response : Msg) (c : Client) : (Msg + DNSError) * Client :=
  let noCache := noCache
    || negb (Rcode response =? RcodeSuccess) && negb (Rcode response =? RcodeNameError) in
  if checkRejects responseChecker response then
    (inr ErrResponseRejected,
     match rdrc c with
     | Some store =>
         if negb noCache
         then mkClient (cache c) (transportCache c) (negFail c)
                (Some (SaveRDRC store (transportTag t) (qName question) (qType question)))
         else c
     | None => c
     end)
  else
    let response := filterHTTPS question (Strategy options) response in
    let timeToLive := responseTTL response (RewriteTTL options) in
    let response := changeTTL (fun _ => timeToLive) response in
    let c := if noCache then c else storeCache call t question response timeToLive c in
    (inl (finishResponse message response (Id message)), c).

(** The part of [Exchange] after a cache miss *)
Definition exchangeServer (call : CallEnv) (t : DNSTransport) (question : Question)
    (options : DNSQueryOptions) (responseChecker : option (list Addr -> bool)) (noCache : bool)
    (message : Msg) (c : Client) : (Msg + DNSError) * Client :=
  let key := (question, transportTag t) in
  if bool_decide (contextTransport call = Some (transportTag t)) then
    (inr (DNSFailed ("DNS query loopback in transport[" +:+ transportTag t +:+ "]")), c)
  else if negb noCache && negb (isNil responseChecker)
          && match rdrc c with
             | Some store => LoadRDRC store (transportTag t) (qName question) (qType question)
             | None => false
             end
  then (inr ErrResponseRejectedCached, c)
  else
    let '(failed, n) := lruGet (negFail c) (nowLoad call) key in
    let c := mkClient (cache c) (transportCache c) n (rdrc c) in
    match failed with
    | Some _ => (inr (DNSFailed ("dns: recent network failure cached for " +:+ qName question)), c)
    | None =>
        match transportCircuitOpen call t with
        | Some e => (inr (DNSFailed e), c)
        | None =>
            match transportExchange call t message with
            | inr (TransportFailed e) =>
                (inr (DNSFailed e),
                 mkClient (cache c) (transportCache c)
                   (lruAddWithLifetime (negFail c) (nowStore call) key tt negFailTTL) (rdrc c))
            | inr (TransportRcode rcode) =>
                acceptResponse call t question options responseChecker noCache message
                  (FixedResponseStatus message rcode) c
            | inl response =>
                acceptResponse call t question options responseChecker noCache message
                  (stripDNSPadding response) c
            end
        end
    end.

(** Waiting for a query in flight: the error that ends it, if any *)
Definition waitFlight (call : CallEnv) (t : DNSTransport) : option error :=
  match inFlight call with
  | None => None
  | Some done =>
      match transportCircuitOpen call t with
      | Some e => Some e
      | None => done
      end
  end.

(** [Exchange]; a nil transport panics where its tag is asked. *)
Definition ClientExchange (call : CallEnv) (transport : option DNSTransport) (message : Msg)
    (options : DNSQueryOptions) (responseChecker : option (list Addr -> bool)) (c : Client)
    : (Msg + DNSError) * Client :=
  match Questions message with
  | [] => (inl (FixedResponseStatus message RcodeFormatError), c)
  | question :: _ =>
      if strategyRejects question (Strategy options)
      then (inl (FixedResponseStatus message RcodeSuccess), c)
      else
        let subnet := if prefix.IsValid (ClientSubnet options) then ClientSubnet options
                      else clientSubnet conf in
        let message := if prefix.IsValid subnet then SetClientSubnet message subnet else message in
        let noCache := negb (isSimpleRequest message options) || disableCache conf
                       || DisableCache options in
        match transport with
        | None => (inr (DNSPanic "nil pointer dereference"), c)
        | Some t =>
            if noCache then exchangeServer call t question options responseChecker noCache message c
            else
              match waitFlight call t with
              | Some e => (inr (DNSFailed e), c)
              | None =>
                  match loadResponse call t question c with
                  | (Some response, c) => (inl (setId response (Id message)), c)
                  | (None, c) =>
                      exchangeServer call t question options responseChecker noCache message c
                  end
              end
        end
  end.

(** ** Lookup *)

Definition responseAddresses (response : Msg) : list Addr + DNSError :=
  if negb (Rcode response =? RcodeSuccess) then inr (DNSRcode (Rcode response))
  else inl (MessageToAddresses response).

(** [lookupToExchange], with [questionCache] *)
Definition lookupToExchange (call : CallEnv) (t : DNSTransport) (name : string) (qType : Z)
    (options : DNSQueryOptions) (responseChecker : option (list Addr -> bool)) (c : Client)
    : (list Addr + DNSError) * Client :=
  let question := mkQuestion name qType ClassINET in
  let '(cached, c) :=
    if disableCache conf || DisableCache options then (None, c)
    else loadResponse call t question c in
  match cached with
  | Some response => (responseAddresses response, c)
  | None =>
      let message := mkMsg 0 false false true false RcodeSuccess 0 [question] [] [] [] in
      let '(r, c) := ClientExchange call (Some t) message options responseChecker c in
      (match r with inl response => responseAddresses response | inr e => inr e end, c)
  end.

Definition sortAddresses (response4 response6 : list Addr) (strategy : Z) : list Addr :=
  if strategy =? DomainStrategyPreferIPv6 then response6 ++ response4 else response4 ++ response6.

(** The error of the two queries of [Lookup], if one failed ([task.Group]) *)
Definition groupError (r4 r6 : list Addr + DNSError) : option DNSError :=
  match r4, r6 with
  | inr e4, inr e6 => Some (DNSErrors (DNSCause "exchange4" e4) (DNSCause "exchange6" e6))
  | inr e4, inl _ => Some (DNSCause "exchange4" e4)
  | inl _, inr e6 => Some (DNSCause "exchange6" e6)
  | inl _, inl _ => None
  end.

Definition addressesOf (r : list Addr + DNSError) : list Addr :=
  match r with inl a => a | inr _ => [] end.

(** [Lookup]; the two queries of a strategy that allows both families run at the same
    time, here one after the other, each with its environment. *)
Definition ClientLookup (call4 call6 : CallEnv) (transport : option DNSTransport) (domain : string)
    (options : DNSQueryOptions) (responseChecker : option (list Addr -> bool)) (c : Client)
    : (list Addr + DNSError) * Client :=
  match transport with
  | None => (inr (DNSPanic "nil pointer dereference"), c)
  | Some t =>
      let dnsName := dns_Fqdn (FqdnToDomain domain) in
      let strategy := if LookupStrategy options =? DomainStrategyAsIS then Strategy options
                      else LookupStrategy options in
      let lookupOptions := setStrategy options strategy in
      let ask call ty c := lookupToExchange call t dnsName ty lookupOptions responseChecker c in
      if strategy =? DomainStrategyIPv4Only then ask call4 TypeA c
      else if strategy =? DomainStrategyIPv6Only then ask call6 TypeAAAA c
      else
        let '(r4, c) := ask call4 TypeA c in
        let '(r6, c) := ask call6 TypeAAAA c in
        (match addressesOf r4, addressesOf r6 with
         | [], [] => match groupError r4 r6 with Some e => inr e | None => inl [] end
         | a4, a6 => inl (sortAddresses a4 a6 strategy)
         end, c)
  end.
End client.
