(* ===== verification/DNSClientSpec.v ===== *)
(** * Properties of the DNS client

    The TTLs of responses and of the cache, the check of responses, the memory of network
    failures and the client subnet; and that the client answers, as the router expects
    of it. *)

From S2P Require Import Prelude MatchState Netip Context DNSMessage RuleItem Options RuleActions.
From S2P Require Import RuleAbstract RuleBuild RuleSets DNSRouter DNSRouterSpec DNSClient.

(** ** TTL *)

(** The lowest of the TTLs that are not zero, or zero when there is none. *)
Definition isLowest (ttls : list Z) (t : Z) : Prop :=
  (t = 0 /\ Forall (fun x => x = 0) ttls) \/
  (0 < t /\ t ∈ ttls /\ Forall (fun x => x = 0 \/ t <= x) ttls).

Lemma lowerTTL_pos t rr : 0 < t -> 0 <= rrTtl rr ->
  lowerTTL t rr = if rrTtl rr =? 0 then t else Z.min t (rrTtl rr).
Proof.
  intros Ht Hr. unfold lowerTTL. rewrite (proj2 (Z.eqb_neq t 0)) by lia. cbn [orb].
  destruct (Z.eqb_spec (rrTtl rr) 0) as [->|]; [done|].
  destruct (Z.ltb_spec 0 (rrTtl rr)); [|lia]. cbn [andb].
  destruct (Z.ltb_spec (rrTtl rr) t); lia.
Qed.

Lemma foldl_lowerTTL_pos rs : forall t, 0 < t -> Forall (fun rr => 0 <= rrTtl rr) rs ->
  isLowest (t :: (rrTtl <$> rs)) (foldl lowerTTL t rs).
Proof.
  induction rs as [|rr rs IH]; intros t Ht HF; cbn [foldl fmap list_fmap].
  - right. split_and!; [done|by left|]. constructor; [right; lia|constructor].
  - apply Forall_cons in HF as [Hr HF]. rewrite lowerTTL_pos by done.
    destruct (Z.eqb_spec (rrTtl rr) 0) as [E|E].
    + destruct (IH t Ht HF) as [[-> Hz]|(Hp & Hin & Hl)]; [inversion Hz; lia|].
      right. split_and!; [done| |].
      * apply elem_of_cons in Hin as [->|Hin]; [by left|by do 2 right].
      * inversion Hl; subst. constructor; [done|]. constructor; [by left|done].
    + destruct (IH (Z.min t (rrTtl rr)) ltac:(lia) HF) as [[-> Hz]|(Hp & Hin & Hl)];
        [inversion Hz; lia|].
      inversion Hl as [|?? Hm Hl']; subst. right. split_and!; [done| |].
      * apply elem_of_cons in Hin as [->|Hin]; [|by do 2 right].
        destruct (Z.min_spec t (rrTtl rr)) as [[_ ->]|[_ ->]]; [by left|by right; left].
      * constructor; [right; lia|]. constructor; [right; lia|done].
Qed.

(** The loop over the records finds the lowest TTL. *)
Lemma lowestTTL_spec response :
  Forall (fun rr => 0 <= rrTtl rr) (records response) ->
  isLowest (rrTtl <$> records response) (lowestTTL 0 response).
Proof.
  unfold lowestTTL. induction (records response) as [|rr rs IH]; intros HF.
  { left. split; [done|constructor]. }
  apply Forall_cons in HF as [Hr HF]. cbn [foldl fmap list_fmap].
  assert (lowerTTL 0 rr = rrTtl rr) as -> by done.
  destruct (Z.eqb_spec (rrTtl rr) 0) as [E|E].
  - rewrite E. destruct (IH HF) as [[-> Hz]|(Hp & Hin & Hl)]; [left|right].
    + split; [done|by constructor].
    + split_and!; [done|by right|]. constructor; [by left|done].
  - apply foldl_lowerTTL_pos; [lia|done].
Qed.

(** *** Changing all TTLs *)

Lemma filter_fmap {A B} (f : A -> B) (p : A -> bool) (q : B -> bool) l :
  (forall x, q (f x) = p x) -> List.filter q (f <$> l) = f <$> List.filter p l.
Proof.
  intros Hf. induction l as [|x l IH]; [done|]. cbn. rewrite Hf.
  destruct (p x); cbn; by rewrite IH.
Qed.

Lemma records_changeTTL f response :
  records (changeTTL f response) = (fun rr => setTtl rr (f (rrTtl rr))) <$> records response.
Proof.
  unfold records, changeTTL, mapRecords. cbn [Answer Ns Extra].
  rewrite <- !fmap_app, (filter_fmap _ (fun r => negb (rrType r =? TypeOPT))).
  - induction (Answer response ++ Ns response ++ Extra response) as [|rr rs IH]; [done|].
    cbn [List.filter]. destruct (rrType rr =? TypeOPT) eqn:E; cbn [negb]; [done|].
    cbn [fmap list_fmap]. rewrite IH. f_equal. unfold isOPT. by rewrite E.
  - intros rr. unfold isOPT. by destruct (rrType rr =? TypeOPT) eqn:E; cbn; rewrite E.
Qed.

Lemma changeTTL_ext f g response :
  (forall rr, rr ∈ records response -> f (rrTtl rr) = g (rrTtl rr)) ->
  changeTTL f response = changeTTL g response.
Proof.
  intros Hfg. unfold changeTTL, mapRecords.
  assert (Hs : forall l : list RR, (forall rr, rr ∈ l -> rr ∈ Answer response ++ Ns response ++ Extra response) ->
    (fun rr => if isOPT rr then rr else setTtl rr (f (rrTtl rr))) <$> l
    = (fun rr => if isOPT rr then rr else setTtl rr (g (rrTtl rr))) <$> l).
  { intros l Hl. apply list_fmap_ext. intros i rr Hi. destruct (isOPT rr) eqn:E; [done|].
    f_equal. apply Hfg. unfold records. apply list_elem_of_In, filter_In. split.
    - apply list_elem_of_In, Hl. by eapply list_elem_of_lookup_2.
    - unfold isOPT in E. by rewrite E. }
  by rewrite !Hs by set_solver.
Qed.

(** Changes of records that keep types and TTLs keep the list of TTLs. *)
Lemma records_ttls (g : RR -> RR) (m m' : Msg) :
  (forall rr, rrType (g rr) = rrType rr /\ rrTtl (g rr) = rrTtl rr) ->
  (Answer m' = g <$> Answer m \/ Answer m' = Answer m) -> (Ns m' = g <$> Ns m \/ Ns m' = Ns m) ->
  (Extra m' = g <$> Extra m \/ Extra m' = Extra m) ->
  rrTtl <$> records m' = rrTtl <$> records m.
Proof.
  intros Hg Ha Hn He. unfold records. rewrite !List.filter_app, !fmap_app.
  assert (Hs : forall l : list RR, rrTtl <$> List.filter (fun r => negb (rrType r =? TypeOPT)) (g <$> l)
    = rrTtl <$> List.filter (fun r => negb (rrType r =? TypeOPT)) l).
  { intros l. rewrite (filter_fmap _ (fun r => negb (rrType r =? TypeOPT))).
    - rewrite <- list_fmap_compose. apply list_fmap_ext. intros ? rr _. apply Hg.
    - intros rr. by rewrite (proj1 (Hg rr)). }
  destruct Ha as [-> | ->], Hn as [-> | ->], He as [-> | ->]; by rewrite ?Hs.
Qed.

Lemma stripPadding_keeps rr : rrType (stripPadding rr) = rrType rr /\ rrTtl (stripPadding rr) = rrTtl rr.
Proof. unfold stripPadding. by destruct (rrData rr). Qed.

Lemma filterHints_keeps strategy rr :
  rrType (filterHints strategy rr) = rrType rr /\ rrTtl (filterHints strategy rr) = rrTtl rr.
Proof. unfold filterHints. by destruct (rrData rr). Qed.

Lemma stripDNSPadding_ttls m : rrTtl <$> records (stripDNSPadding m) = rrTtl <$> records m.
Proof. apply (records_ttls stripPadding); [apply stripPadding_keeps|by right|by right|by left]. Qed.

Lemma filterHTTPS_ttls q s m : rrTtl <$> records (filterHTTPS q s m) = rrTtl <$> records m.
Proof.
  unfold filterHTTPS. destruct (_ && _); [|done].
  apply (records_ttls (filterHints s)); [apply filterHints_keeps|by left|by right|by right].
Qed.

(** ** Exchange *)
Section exchange.
Context `{External} `{DNSNames} `{EDNS} `{RDRCStore}.
Context `{CQ : LRU Question Msg} `{CT : LRU transportCacheKey Msg} `{CN : LRU transportCacheKey unit}.
Context (conf : ClientOptions).

(** What the server said: a response, or a response code. *)
Definition serverResponse (call : CallEnv) (t : DNSTransport) (message : Msg) : option Msg :=
  match transportExchange call t message with
  | inl response => Some response
  | inr (TransportRcode rcode) => Some (FixedResponseStatus message rcode)
  | inr (TransportFailed _) => None
  end.

Lemma exchangeServer_ok call t q o check noCache message c r c' :
  exchangeServer conf call t q o check noCache message c = (inl r, c') ->
  exists response c0,
    serverResponse call t message = Some response /\
    acceptResponse conf call t q o check noCache message (stripDNSPadding response) c0 = (inl r, c').
Proof.
  unfold exchangeServer. destruct (bool_decide _); [done|]. destruct (_ && _); [done|].
  destruct (lruGet _ _ _) as [[|] n]; [done|]. destruct (transportCircuitOpen call t); [done|].
  unfold serverResponse. destruct (transportExchange call t message) as [response|[rcode|e]]; [| |done].
  - intros Ha. eauto.
  - intros Ha. eauto.
Qed.

Lemma acceptResponse_ok call t q o check noCache message m c r c' :
  acceptResponse conf call t q o check noCache message m c = (inl r, c') ->
  let served := filterHTTPS q (Strategy o) m in
  checkRejects check m = false /\
  r = finishResponse message (changeTTL (fun _ => responseTTL served (RewriteTTL o)) served) (Id message).
Proof.
  unfold acceptResponse. destruct (checkRejects check m); [done|]. by intros [= <- <-].
Qed.

(** What [SetEdns0] documents: it adds an OPT record. *)
Definition setsOPT : Prop := forall m opt, records (SetEdns0 m opt) = records m.

Lemma records_strip m :
  records (setExtra m (List.filter (fun rr => negb (isOPT rr)) (Extra m))) = records m.
Proof.
  unfold records. cbn [setExtra Answer Ns Extra]. rewrite !List.filter_app. do 2 f_equal.
  unfold isOPT. induction (Extra m) as [|rr l IH]; [done|]. cbn [List.filter].
  destruct (rrType rr =? TypeOPT) eqn:E; cbn [negb List.filter]; rewrite ?E; [done|].
  cbn [negb]. by rewrite IH.
Qed.

Lemma records_finish message m id : setsOPT -> records (finishResponse message m id) = records m.
Proof.
  intros Hs. unfold finishResponse. set (m' := setId m id).
  assert (records m' = records m) as Hm by done.
  destruct (IsEdns0 m') as [opt|]; [|done]. destruct (IsEdns0 message) as [ropt|].
  - destruct (_ <? _); [|done]. by rewrite Hs, records_strip.
  - by rewrite records_strip.
Qed.

(** The TTL a response is given. *)
Definition isTTLOf (response : Msg) (rewrite : option Z) (ttl : Z) : Prop :=
  match rewrite with
  | Some v => ttl = v
  | None =>
      (Answer response = [] /\ extractNegativeTTL response = Some ttl /\ ttl <> 0) \/
      isLowest (rrTtl <$> records response) ttl
  end.

Lemma responseTTL_spec response rewrite :
  Forall (fun rr => 0 <= rrTtl rr) (records response) ->
  isTTLOf response rewrite (responseTTL response rewrite).
Proof.
  intros HF. unfold responseTTL, isTTLOf. destruct rewrite as [v|]; [done|].
  destruct (Answer response); [|right; by apply lowestTTL_spec].
  destruct (extractNegativeTTL response) as [soa|]; [|right; by apply lowestTTL_spec].
  change (default 0 (Some soa)) with soa.
  destruct (Z.eqb_spec soa 0) as [->|]; [right; by apply lowestTTL_spec|by left].
Qed.

(** The TTL of a response: every record of a response a server gave (OPT aside) leaves
    the client with the same TTL - the one the rule asks for, or else the SOA's for
    an empty answer, or else the lowest TTL of the response that is not zero. *)
Theorem served_ttl call t q o check noCache message c r c' response :
  setsOPT ->
  exchangeServer conf call t q o check noCache message c = (inl r, c') ->
  serverResponse call t message = Some response ->
  Forall (fun rr => 0 <= rrTtl rr) (records response) ->
  exists ttl, isTTLOf response (RewriteTTL o) ttl /\ Forall (fun rr => rrTtl rr = ttl) (records r).
Proof.
  intros Hs Hx Hr HF. apply exchangeServer_ok in Hx as (m & c0 & Hm & Ha).
  rewrite Hr in Hm. injection Hm as <-. apply acceptResponse_ok in Ha as [_ ->].
  set (served := filterHTTPS q (Strategy o) (stripDNSPadding response)).
  assert (Httl : rrTtl <$> records served = rrTtl <$> records response).
  { unfold served. by rewrite filterHTTPS_ttls, stripDNSPadding_ttls. }
  exists (responseTTL served (RewriteTTL o)). split.
  - assert (HF' : Forall (fun rr => 0 <= rrTtl rr) (records served)).
    { assert (Hz : Forall (fun x => 0 <= x) (rrTtl <$> records served))
        by (rewrite Httl; by apply Forall_fmap).
      rewrite Forall_fmap in Hz. exact Hz. }
    pose proof (responseTTL_spec served (RewriteTTL o) HF') as Ht. unfold isTTLOf in *.
    destruct (RewriteTTL o); [done|]. rewrite Httl in Ht. destruct Ht as [(Hn & He & Hz)|Hl]; [|by right].
    left. split_and!; [|rewrite <- He|done].
    + unfold served, filterHTTPS in Hn. destruct (_ && _); [by apply fmap_nil_inv in Hn|done].
    + unfold served, filterHTTPS. by destruct (_ && _).
  - rewrite records_finish by done. rewrite records_changeTTL. by apply Forall_fmap, Forall_true.
Qed.

(** C10. A response is only accepted if it passes the check of the rule: one that a server
    gave is returned to the caller only when its code is NOERROR or NXDOMAIN and the
    check holds of its addresses. *)
Theorem served_response_checked call t q o check noCache message c r c' :
  exchangeServer conf call t q o (Some check) noCache message c = (inl r, c') ->
  exists response,
    serverResponse call t message = Some response /\
    (Rcode response = RcodeSuccess \/ Rcode response = RcodeNameError) /\
    check (MessageToAddresses response) = true.
Proof.
  intros Hx. apply exchangeServer_ok in Hx as (response & c0 & Hm & Ha). exists response.
  split; [done|]. apply acceptResponse_ok in Ha as [Hc _]. unfold checkRejects in Hc.
  change (Rcode (stripDNSPadding response)) with (Rcode response) in Hc.
  change (MessageToAddresses (stripDNSPadding response)) with (MessageToAddresses response) in Hc.
  change (Answer (stripDNSPadding response)) with (Answer response) in Hc.
  destruct (Z.eqb_spec (Rcode response) RcodeSuccess) as [E|E],
    (Z.eqb_spec (Rcode response) RcodeNameError) as [E'|E']; cbn [negb andb] in Hc; try done;
    (split; [auto|]).
  all: destruct (Answer response) eqn:Ea; apply negb_false_iff in Hc; try done.
  all: unfold MessageToAddresses; rewrite Ea; by destruct (negb _).
Qed.

(** ** The cache *)

(** [freelru] keeps times in milliseconds; an entry is gone once its time is reached. *)
Definition millisecond : Z := 10 ^ 6.

Definition expiryOf (now lifetime : Z) : Z :=
  (now / millisecond + lifetime / millisecond) * millisecond.

Definition expired (now expireAt : Z) : bool := expireAt / millisecond <=? now / millisecond.

(** What the client relies on of a cache: an entry that was just added, with a lifetime of at
    least the resolution of the cache, is found until it expires.  ([FreeLRUClaims.v] proves it
    of the sharded cache.) *)
Definition keepsEntries {K V} (C : LRU K V) : Prop :=
  forall l stored k v lifetime now, 0 <= stored -> millisecond <= lifetime ->
    (lruGetWithLifetime (lruAddWithLifetime l stored k v lifetime) now k).1
    = (if expired now (expiryOf stored lifetime) then None
       else Some (v, expiryOf stored lifetime)) /\
    (lruGet (lruAddWithLifetime l stored k v lifetime) now k).1
    = (if expired now (expiryOf stored lifetime) then None else Some v).

Lemma lowest_constant ttls t u : isLowest ttls u -> Forall (fun x => x = t) ttls -> ttls <> [] -> u = t.
Proof.
  intros [[-> Hz]|(_ & Hin & _)] HF Hne.
  - destruct ttls as [|x l]; [done|]. inversion Hz; inversion HF; congruence.
  - rewrite Forall_forall in HF. by apply HF.
Qed.

(** All records age to the seconds that are left. *)
Lemma agedResponse_same now expireAt m ttl :
  0 < ttl < 2 ^ 32 -> Forall (fun rr => rrTtl rr = ttl) (records m) ->
  remainingTTL now expireAt <= ttl ->
  agedResponse now expireAt m = changeTTL (fun _ => remainingTTL now expireAt) m.
Proof.
  intros Ht HF Hr. unfold agedResponse.
  assert (Hz : 0 <= remainingTTL now expireAt) by (unfold remainingTTL; lia).
  set (R := remainingTTL now expireAt) in *. clearbody R.
  assert (Hl : records m = [] \/ lowestTTL 0 m = ttl).
  { destruct (records m) eqn:E; [by left|right]. rewrite <- E in HF.
    apply (lowest_constant (rrTtl <$> records m) ttl).
    - apply lowestTTL_spec. eapply Forall_impl; [exact HF|]. cbn. lia.
    - by apply Forall_fmap.
    - rewrite E. done. }
  destruct Hl as [Hn|Hl].
  { destruct (0 <? lowestTTL 0 m); apply changeTTL_ext; rewrite Hn; intros rr Hin;
      by apply not_elem_of_nil in Hin. }
  rewrite Hl. rewrite (proj2 (Z.ltb_lt 0 ttl)) by lia. apply changeTTL_ext. intros rr Hin.
  rewrite Forall_forall in HF. rewrite (HF rr Hin).
  rewrite (wrap_id 32 (ttl - R)) by (unfold fits; lia). rewrite wrap_id by (unfold fits; lia). lia.
Qed.

(** The life of an entry: until it expires, between nothing and [ttl] seconds are left. *)
Lemma expiry_left stored now ttl :
  0 < ttl -> stored <= now ->
  let expireAt := expiryOf stored (second * ttl) in
  expired now expireAt = false ->
  now < expireAt /\ 0 <= Z.quot (expireAt - now) second <= ttl.
Proof.
  intros Ht Hn expireAt Hx. unfold expired in Hx. apply Z.leb_gt in Hx.
  unfold expireAt, expiryOf in *. rewrite Z.div_mul in Hx by done.
  assert (E : second * ttl / millisecond = ttl * 1000).
  { replace (second * ttl) with (ttl * 1000 * millisecond) by (unfold second, millisecond; lia).
    by apply Z.div_mul. }
  rewrite E in *.
  pose proof (Z.mul_div_le stored millisecond ltac:(done)).
  pose proof (Z.mul_succ_div_gt now millisecond ltac:(done)).
  unfold millisecond, second in *. split; [lia|].
  split; [apply Z.quot_pos; lia|]. apply Z.quot_le_upper_bound; lia.
Qed.

(** What [loadResponse] makes of an entry. *)
Definition loadedEntry (now : Z) (r : option (Msg * Z)) : option Msg :=
  match r with
  | None => None
  | Some (response, expireAt) =>
      if expireAt <? now then None else Some (agedResponse now expireAt response)
  end.

Lemma loadedEntry_aged stored now m ttl :
  0 < ttl < 2 ^ 32 -> Forall (fun rr => rrTtl rr = ttl) (records m) -> stored <= now ->
  let expireAt := expiryOf stored (second * ttl) in
  loadedEntry now (if expired now expireAt then None else Some (m, expireAt))
  = if expired now expireAt then None
    else Some (changeTTL (fun _ => Z.quot (expireAt - now) second) m).
Proof.
  intros Ht HF Hn expireAt. destruct (expired now expireAt) eqn:Ex; [done|].
  destruct (expiry_left stored now ttl ltac:(lia) Hn Ex) as [Hlt Hleft]. fold expireAt in Hlt, Hleft.
  cbn [loadedEntry]. rewrite (proj2 (Z.ltb_ge expireAt now)) by lia. f_equal.
  assert (Hrem : remainingTTL now expireAt = Z.quot (expireAt - now) second)
    by (unfold remainingTTL; lia).
  rewrite <- Hrem in *. apply (agedResponse_same _ _ _ ttl); [done|done|lia].
Qed.

(** Loading from the cache that was stored to. *)
Lemma load_stored call call' t q m ttl c :
  keepsEntries CQ -> keepsEntries CT -> disableExpire conf = false -> 0 < ttl -> 0 <= nowStore call ->
  let expireAt := expiryOf (nowStore call) (second * ttl) in
  (loadResponse conf call' t q (storeCache conf call t q m ttl c)).1
  = loadedEntry (nowLoad call')
      (if expired (nowLoad call') expireAt then None else Some (m, expireAt)).
Proof.
  intros Hq Htr He Ht Hst. cbv zeta. unfold loadResponse, storeCache.
  assert (Hp : millisecond <= second * ttl) by (unfold second, millisecond; lia).
  rewrite He, (proj2 (Z.eqb_neq ttl 0)) by lia.
  destruct (independentCache conf); cbn [setCaches cache transportCache].
  - rewrite <- (proj1 (Htr (transportCache c) (nowStore call) (q, transportTag t) m
      (second * ttl) (nowLoad call') Hst Hp)).
    destruct (lruGetWithLifetime _ _ _) as [[[response e]|] l]; cbn; [|done]. by destruct (_ <? _).
  - rewrite <- (proj1 (Hq (cache c) (nowStore call) q m (second * ttl) (nowLoad call') Hst Hp)).
    destruct (lruGetWithLifetime _ _ _) as [[[response e]|] l]; cbn; [|done]. by destruct (_ <? _).
Qed.

(** C9. With expiry enabled, and caches that keep what was just added until it
    expires: reading back at any later time a response that was stored with a TTL
    between 1 and 2^32-1, which all its records have, gives nothing once the entry has
    expired and before that the response with the whole seconds left as every TTL,
    between 0 and the stored TTL, without wrap-around. *)
Theorem cached_ttl call call' t q m ttl c :
  keepsEntries CQ -> keepsEntries CT -> disableExpire conf = false ->
  0 < ttl < 2 ^ 32 -> Forall (fun rr => rrTtl rr = ttl) (records m) ->
  0 <= nowStore call <= nowLoad call' ->
  let expireAt := expiryOf (nowStore call) (second * ttl) in
  let left := Z.quot (expireAt - nowLoad call') second in
  (loadResponse conf call' t q (storeCache conf call t q m ttl c)).1
  = (if expired (nowLoad call') expireAt then None else Some (changeTTL (fun _ => left) m)) /\
  (expired (nowLoad call') expireAt = false -> 0 <= left <= ttl).
Proof.
  intros Hq Htr He Ht HF Hn expireAt left. split.
  - rewrite load_stored by (done || lia). apply loadedEntry_aged; [done|done|lia].
  - intros Hx. by apply (expiry_left (nowStore call) (nowLoad call') ttl ltac:(lia) (proj2 Hn)).
Qed.

(** ** Network failures *)

(** The query gets as far as the server. *)
Definition asksServer (call : CallEnv) (t : DNSTransport) (q : Question)
    (check : option (list Addr -> bool)) (noCache : bool) (c : Client) : bool :=
  negb (bool_decide (contextTransport call = Some (transportTag t)))
  && negb (negb noCache && negb (isNil check)
           && match rdrc c with
              | Some store => LoadRDRC store (transportTag t) (qName q) (qType q)
              | None => false
              end)
  && isNil (lruGet (negFail c) (nowLoad call) (q, transportTag t)).1
  && isNil (transportCircuitOpen call t).

(** A query that does not get there fails at once. *)
Lemma not_asked call t q o check noCache message c :
  asksServer call t q check noCache c = false ->
  exists e, (exchangeServer conf call t q o check noCache message c).1 = inr e.
Proof.
  unfold asksServer, exchangeServer. destruct (bool_decide _); [by eexists|].
  destruct (negb noCache && _ && _); [by eexists|].
  destruct (lruGet _ _ _) as [[|] n]; [by eexists|]. destruct (transportCircuitOpen call t); [by eexists|].
  done.
Qed.

(** C15. With a failure cache that keeps what was just added until it expires: after a
    query that was sent to a server failed other than with a response code, the same
    question to it fails at once, without asking the server, until the entry of five
    seconds expires, whoever asks. *)
Theorem failure_remembered call call' t q o o' check check' noCache noCache' message message' c e :
  keepsEntries CN -> 0 <= nowStore call ->
  asksServer call t q check noCache c = true ->
  transportExchange call t message = inr (TransportFailed e) ->
  expired (nowLoad call') (expiryOf (nowStore call) (5 * second)) = false ->
  let c' := (exchangeServer conf call t q o check noCache message c).2 in
  asksServer call' t q check' noCache' c' = false /\
  exists e', (exchangeServer conf call' t q o' check' noCache' message' c').1 = inr e'.
Proof.
  intros Hn Hst Ha Hx Hexp c'.
  assert (Hno : asksServer call' t q check' noCache' c' = false); [|eauto using not_asked].
  assert (Hneg : (lruGet (negFail c') (nowLoad call') (q, transportTag t)).1 = Some tt).
  { unfold c', exchangeServer. unfold asksServer in Ha.
    destruct (bool_decide _); [done|]. destruct (negb noCache && _ && _); [done|].
    destruct (lruGet (negFail c) _ _) as [[|] n]; [done|].
    destruct (transportCircuitOpen call t); [done|]. rewrite Hx. cbn [snd negFail].
    rewrite (proj2 (Hn n (nowStore call) (q, transportTag t) tt negFailTTL (nowLoad call') Hst ltac:(done))).
    unfold negFailTTL. by rewrite Hexp. }
  unfold asksServer. rewrite Hneg. cbn [isNil]. by rewrite andb_false_r.
Qed.

(** ** Client subnet *)

(** The options of an OPT record *)
Definition optOptions (rr : RR) : list EDNS0 := match rrData rr with DataOPT o => o | _ => [] end.

Definition withoutSubnet (rr : RR) : Prop := indexOf isSubnet (optOptions rr) = None.

(** The first record with a subnet option is the one that is found. *)
Lemma findExists_first pre rr post options j : forall i opt,
  Forall withoutSubnet pre -> rrData rr = DataOPT options -> indexOf isSubnet options = Some j ->
  findExists i (pre ++ rr :: post) opt = (Some (i + length pre)%nat, Some j).
Proof.
  induction pre as [|x pre IH]; intros i opt HF Hr Hj; cbn [findExists app].
  - rewrite Hr, Hj. cbn. by rewrite Nat.add_0_r.
  - apply Forall_cons in HF as [Hx HF]. unfold withoutSubnet, optOptions in Hx.
    destruct (rrData x); rewrite ?Hx; rewrite IH by done; cbn; do 2 f_equal; lia.
Qed.

(** Without one, the last record if it is an OPT record. *)
Lemma findExists_none extra : forall i opt,
  Forall withoutSubnet extra ->
  findExists i extra opt
  = (match last extra with
     | None => opt
     | Some rr => match rrData rr with
                  | DataOPT _ => Some (i + length extra - 1)%nat
                  | _ => None
                  end
     end, None).
Proof.
  induction extra as [|rr extra IH]; intros i opt HF; [done|].
  apply Forall_cons in HF as [Hr HF]. unfold withoutSubnet, optOptions in Hr. cbn [findExists].
  rewrite last_cons. destruct (rrData rr) eqn:Er; rewrite ?Hr, IH by done;
    destruct (last extra) as [x|] eqn:El; rewrite ?Er.
  all: try (apply last_None in El; subst extra).
  all: try (destruct (rrData x)); try done; do 2 f_equal; cbn [length]; lia.
Qed.

(** A message has a first record with a subnet, or none. *)
Lemma subnet_cases extra :
  Forall withoutSubnet extra \/
  exists pre rr post options j, extra = pre ++ rr :: post /\ Forall withoutSubnet pre /\
    rrData rr = DataOPT options /\ indexOf isSubnet options = Some j.
Proof.
  induction extra as [|rr extra IH]; [by left|].
  destruct (indexOf isSubnet (optOptions rr)) as [j|] eqn:Ej.
  - right. unfold optOptions in Ej. destruct (rrData rr) as [| | | | |options|] eqn:Er; try done.
    exists [], rr, extra, options, j. by split_and!.
  - destruct IH as [HF|(pre & x & post & options & j & -> & HF & Hx & Hj)].
    + left. by constructor.
    + right. exists (rr :: pre), x, post, options, j. split_and!; try done. by constructor.
Qed.

(** The additional section after [SetClientSubnet]. *)
Definition subnetExtra (extra : list RR) (subnet : Prefix) : list RR :=
  match findExists 0 extra None with
  | (None, _) => extra ++ [mkRR "." TypeOPT 0 0 (DataOPT [subnetOption subnet])]
  | (Some i, j) => alter (putSubnet subnet j) i extra
  end.

Lemma SetClientSubnet_extra m subnet :
  SetClientSubnet m subnet = setExtra m (subnetExtra (Extra m) subnet).
Proof. unfold SetClientSubnet, subnetExtra. by destruct (findExists _ _ _) as [[]]. Qed.

Lemma indexOf_split {A} (f : A -> bool) l : forall j, indexOf f l = Some j ->
  exists before x after, l = before ++ x :: after /\ length before = j /\ indexOf f before = None.
Proof.
  induction l as [|y l IH]; intros j; cbn [indexOf]; [done|]. destruct (f y) eqn:Ey.
  - intros [= <-]. by exists [], y, l.
  - destruct (indexOf f l) as [k|] eqn:Ek; [|done]. intros [= <-].
    destruct (IH k eq_refl) as (before & x & after & -> & Hl & Hn).
    exists (y :: before), x, after. cbn. rewrite Ey, Hn, Hl. done.
Qed.

Lemma indexOf_app {A} (f : A -> bool) before x after :
  indexOf f before = None -> f x = true -> indexOf f (before ++ x :: after) = Some (length before).
Proof.
  intros Hb Hx. induction before as [|y l IH]; cbn in *; [by rewrite Hx|].
  destruct (f y); [done|]. destruct (indexOf f l); [done|]. by rewrite IH.
Qed.

(** It has exactly one place for the subnet: only the option there depends on it. *)
Lemma subnetExtra_shape extra :
  exists pre name ty class ttl before after post,
    Forall withoutSubnet pre /\ indexOf isSubnet before = None /\
    forall subnet, subnetExtra extra subnet
      = pre ++ mkRR name ty class ttl (DataOPT (before ++ subnetOption subnet :: after)) :: post.
Proof.
  unfold subnetExtra.
  destruct (subnet_cases extra) as [HF|(pre & rr & post & options & j & -> & HF & Hr & Hj)].
  - rewrite findExists_none by done. destruct (last extra) as [rr|] eqn:El.
    2: { apply last_None in El as ->. by exists [], "."%string, TypeOPT, 0, 0, [], [], []. }
    apply last_Some in El as [pre ->]. apply Forall_app in HF as [HF Hrr].
    destruct (rrData rr) as [| | | | |options|] eqn:Er;
      try (exists (pre ++ [rr]), "."%string, TypeOPT, 0, 0, [], [], []; split_and!;
           [by apply Forall_app|done|done]).
    exists pre, (rrName rr), (rrType rr), (rrClass rr), (rrTtl rr), options, [], [].
    rewrite Forall_singleton in Hrr. unfold withoutSubnet, optOptions in Hrr. rewrite Er in Hrr.
    split_and!; [done|done|]. intros subnet. rewrite length_app. cbn [length].
    rewrite alter_app_r_alt by lia. replace (0 + _ - _ - _)%nat with 0%nat by lia. cbn.
    unfold putSubnet. by rewrite Er.
  - rewrite (findExists_first pre rr post options j) by done.
    destruct (indexOf_split _ _ _ Hj) as (before & x & after & -> & Hl & Hn).
    exists pre, (rrName rr), (rrType rr), (rrClass rr), (rrTtl rr), before, after, post.
    split_and!; [done|done|]. intros subnet. rewrite alter_app_r_alt by lia.
    replace (0 + length pre - length pre)%nat with 0%nat by lia. cbn. unfold putSubnet. rewrite Hr.
    do 4 f_equal. rewrite <- Hl, insert_app_r_alt by lia. by rewrite Nat.sub_diag.
Qed.

(** The last subnet wins: setting a client subnet replaces the one that was set before,
    whatever other options and records the query has, and the query then carries it in
    an OPT record. *)
Theorem client_subnet_last_wins message first second :
  SetClientSubnet (SetClientSubnet message first) second = SetClientSubnet message second /\
  exists rr, rr ∈ Extra (SetClientSubnet message second) /\ subnetOption second ∈ optOptions rr.
Proof.
  destruct (subnetExtra_shape (Extra message))
    as (pre & name & ty & class & ttl & before & after & post & HF & Hn & Hs).
  rewrite !SetClientSubnet_extra. cbn [Extra setExtra]. split.
  - assert (Hx : subnetExtra (subnetExtra (Extra message) first) second
                 = subnetExtra (Extra message) second).
    { rewrite !Hs. unfold subnetExtra.
      rewrite (findExists_first pre _ post (before ++ subnetOption first :: after) (length before)).
      - rewrite alter_app_r_alt by lia.
        replace (0 + length pre - length pre)%nat with 0%nat by lia. cbn. do 4 f_equal.
        rewrite insert_app_r_alt by lia. by rewrite Nat.sub_diag.
      - done.
      - done.
      - by apply indexOf_app. }
    by rewrite Hx.
  - rewrite Hs. eexists. split; [apply elem_of_app; right; by left|].
    cbn. apply elem_of_app. right. by left.
Qed.

(** Responses that depend on a client subnet stay out of the cache: a query with a
    subnet, its own or that of the client, is always sent to the server with the
    subnet, and the caches are neither read nor written. *)
Theorem subnet_not_cached call t q rest message o check c :
  Questions message = q :: rest -> strategyRejects q (Strategy o) = false ->
  let subnet := if prefix.IsValid (ClientSubnet o) then ClientSubnet o else clientSubnet conf in
  prefix.IsValid subnet = true ->
  let p := ClientExchange conf call (Some t) message o check c in
  p = exchangeServer conf call t q o check true (SetClientSubnet message subnet) c /\
  cache p.2 = cache c /\ transportCache p.2 = transportCache c.
Proof.
  intros Hq Hs subnet Hv p.
  assert (Hsimple : isSimpleRequest (SetClientSubnet message subnet) o = false).
  { rewrite SetClientSubnet_extra. unfold isSimpleRequest. cbn [setExtra Extra Questions Ns].
    destruct (subnetExtra_shape (Extra message))
      as (pre & name & ty & class & ttl & before & after & post & _ & _ & Hx).
    rewrite Hx. destruct pre as [|x [|y pre]], post as [|z post]; cbn [app];
      try (by rewrite andb_false_r). destruct before; cbn [app]; by rewrite !andb_false_r. }
  assert (Hp : p = exchangeServer conf call t q o check true (SetClientSubnet message subnet) c).
  { unfold p, ClientExchange. rewrite Hq, Hs. fold subnet. by rewrite Hv, Hsimple. }
  split; [done|]. rewrite Hp. unfold exchangeServer, acceptResponse.
  destruct (bool_decide _); [done|]. destruct (_ && _ && _); [done|].
  destruct (lruGet _ _ _) as [[|] n]; [done|]. destruct (transportCircuitOpen call t); [done|].
  destruct (transportExchange _ _ _) as [response|[rcode|e]]; [| |done].
  all: destruct (checkRejects _ _); [|done]; cbn [fst snd]; by destruct (rdrc _).
Qed.
End exchange.

(** ** The client behind the router *)
Section interface.
Context `{External} `{DomainMatching} `{DirectDialer} `{DNSNames} `{EDNS} `{RDRCStore}.
Context `{CQ : LRU Question Msg} `{CT : LRU transportCacheKey Msg} `{CN : LRU transportCacheKey unit}.
Context (conf : ClientOptions) (callAt : nat -> CallEnv).

(** [Client] as an [adapter.DNSClient]; the state counts the calls, each of which has its
    environment. *)
#[export] Instance clientInterface : DNSClient := {|
  ClientState := Client * nat;
  Client_Exchange := fun '(c, n) _ transport message o check =>
    let '(r, c) := ClientExchange conf (callAt n) transport message o check c in (r, (c, S n));
  Client_Lookup := fun '(c, n) _ transport domain o check =>
    let '(r, c) := ClientLookup conf (callAt n) (callAt (S n)) transport domain o check c in
    (r, (c, S (S n)));
|}.

Lemma acceptResponse_answered call t q o check noCache message m c :
  answered (acceptResponse conf call t q o check noCache message m c).1.
Proof. unfold acceptResponse. by destruct (checkRejects check m). Qed.

Lemma exchangeServer_answered call t q o check noCache message c :
  answered (exchangeServer conf call t q o check noCache message c).1.
Proof.
  unfold exchangeServer. destruct (bool_decide _); [done|]. destruct (_ && _ && _); [done|].
  destruct (lruGet _ _ _) as [[|] n]; [done|]. destruct (transportCircuitOpen call t); [done|].
  destruct (transportExchange _ _ _) as [response|[rcode|e]]; [| |done]; apply acceptResponse_answered.
Qed.

Lemma ClientExchange_answered call t message o check c :
  answered (ClientExchange conf call (Some t) message o check c).1.
Proof.
  unfold ClientExchange. destruct (Questions message) as [|q rest]; [done|].
  destruct (strategyRejects _ _); [done|]. cbv zeta. set (message' := if prefix.IsValid _ then _ else _).
  destruct (negb _ || _ || _); [apply exchangeServer_answered|].
  destruct (waitFlight call t); [done|].
  destruct (loadResponse conf call t q c) as [[response|] c']; [done|apply exchangeServer_answered].
Qed.

Lemma lookupToExchange_answered call t name ty o check c :
  answered (lookupToExchange conf call t name ty o check c).1.
Proof.
  unfold lookupToExchange. cbv zeta.
  assert (Hr : forall m, answered (responseAddresses m)) by (intros m; unfold responseAddresses; by destruct (negb _)).
  destruct (if _ || _ then _ else _) as [[response|] c']; [apply Hr|].
  pose proof (ClientExchange_answered call t
    (mkMsg 0 false false true false RcodeSuccess 0 [mkQuestion name ty ClassINET] [] [] []) o check c') as Ha.
  destruct (ClientExchange _ _ _ _ _ _ _) as [[m|e] c'']; [apply Hr|exact Ha].
Qed.

Lemma ClientLookup_answered call4 call6 t domain o check c :
  answered (ClientLookup conf call4 call6 (Some t) domain o check c).1.
Proof.
  unfold ClientLookup. cbv zeta. destruct (_ =? _); [apply lookupToExchange_answered|].
  destruct (_ =? _); [apply lookupToExchange_answered|].
  destruct (lookupToExchange conf call4 _ _ _ _ _ _) as [r4 c4].
  destruct (lookupToExchange conf call6 _ _ _ _ _ _) as [r6 c6]. cbn [fst].
  destruct (addressesOf r4), (addressesOf r6); try done. by destruct r4, r6.
Qed.

(** The client is what the router expects of it. *)
Lemma client_answers : clientAnswers.
Proof.
  split; intros [c n] md t.
  - intros message o check. pose proof (ClientExchange_answered (callAt n) t message o check c) as Ha.
    cbn. by destruct (ClientExchange _ _ _ _ _ _ _).
  - intros domain o check. pose proof (ClientLookup_answered (callAt n) (callAt (S n)) t domain o check c)
      as Ha. cbn [Client_Lookup clientInterface]. by destruct (ClientLookup _ _ _ _ _ _ _ _).
Qed.

(** C14. The router and the client together: whatever the servers answer or fail to, the
    caches hold and the outbounds do, a [Lookup] of the DNS router under any rules, and an
    [Exchange] under rules none of which rejects with the method [reply] (such a rule makes
    it panic), end with a response or an error and never panic. *)
Theorem dns_router_with_client_answers env world rules md message domain o (st : ClientState) :
  (Forall noReply rules -> answered (Exchange env world rules md message o st).1.1) /\
  answered (Lookup env world rules md domain o st).1.
Proof. apply queries_answered, client_answers. Qed.
End interface.
