(* ===== verification/DNSWitness.v ===== *)
(** * Witnesses of the DNS router and client

    A small cache, servers and rules; the theorems of [DNSRouterSpec.v] and
    [DNSClientSpec.v] applied to them, and what happens beyond their hypotheses. *)

From S2P Require Import Prelude MatchState Netip Context DNSMessage RuleItem Options RuleActions.
From S2P Require Import Concrete RuleAbstract RuleBuild RuleSets DNSRouter DNSRouterSpec.
From S2P Require Import DNSClient DNSClientSpec.

#[local] Existing Instances exExternal exDomainMatching exDirectDialer.

(** A cache as a list, without a limit. *)
Section listLRU.
Context {K V : Type} `{EqDecision K}.

Definition entryOf (l : list (K * (V * option Z))) (now : Z) (k : K) : option (V * option Z) :=
  match List.find (fun e => bool_decide (e.1 = k)) l with
  | Some (_, (v, Some e)) => if expired now e then None else Some (v, Some e)
  | Some (_, (v, None)) => Some (v, None)
  | None => None
  end.

Definition listLRU : LRU K V := {|
  lru := list (K * (V * option Z));
  lruGet := fun l now k => (fst <$> entryOf l now k, l);
  lruGetWithLifetime := fun l now k =>
    ((fun p => (p.1, default 0 p.2)) <$> entryOf l now k, l);
  lruAdd := fun l k v => (k, (v, None)) :: l;
  lruAddWithLifetime := fun l now k v lifetime => (k, (v, Some (expiryOf now lifetime))) :: l;
  lruRemove := fun l k => List.filter (fun e => negb (bool_decide (e.1 = k))) l;
  lruPurge := fun _ => [];
|}.

Lemma listLRU_keeps : keepsEntries listLRU.
Proof.
  intros l stored k v lifetime now _ _. cbn. unfold entryOf. cbn.
  rewrite bool_decide_eq_true_2 by done. by destruct (expired _ _).
Qed.
End listLRU.

#[local] Instance exCacheQ : LRU Question Msg := listLRU.
#[local] Instance exCacheT : LRU transportCacheKey Msg := listLRU.
#[local] Instance exCacheN : LRU transportCacheKey unit := listLRU.
#[local] Instance exNames : DNSNames := {| IsFqdn := fun _ => false; dns_Fqdn := fun s => s |}.
#[local] Instance exEDNS : EDNS :=
  {| IsEdns0 := fun _ => None; optVersion := fun _ => 0; SetEdns0 := fun m _ => m |}.
#[local] Instance exRDRC : RDRCStore :=
  {| RDRC := unit; LoadRDRC := fun _ _ _ _ => false; SaveRDRC := fun s _ _ _ => s |}.

Definition exServer (tag : string) : DNSTransport := mkTransport tag "udp" None None.
Definition exQuestion : Question := mkQuestion "example.org" TypeA ClassINET.
Definition exQuery : Msg := mkMsg 7 false false true false 0 0 [exQuestion] [] [] [].
Definition exOptions : DNSQueryOptions := mkQueryOptions None 0 0 false None prefix.zero.
Definition exConf : ClientOptions := mkClientOptions false false false prefix.zero.
Definition exClient : Client := mkClient [] [] [] None.

Definition exRecord (a : Addr) (ttl : Z) : RR := mkRR "example.org" TypeA ClassINET ttl (DataA a).
Definition exAnswer (ttls : list Z) : Msg :=
  mkMsg 0 true false true true 0 0 [exQuestion] (exRecord (ip4 192 0 2 7) <$> ttls) [] [].

(** A server that answers, and one that does not. *)
Definition exCall (now : Z) (answer : Msg + TransportError) : CallEnv :=
  mkCallEnv now now None None false (fun _ => false) (fun _ => None) (fun _ _ => answer).

Definition exCallOk : CallEnv := exCall 1000 (inl (exAnswer [300; 60])).
Definition exCallFailed : CallEnv := exCall 1000 (inr (TransportFailed "timeout")).

(** *** Client *)

Definition exServed : (Msg + DNSError) * Client :=
  exchangeServer exConf exCallOk (exServer "a") exQuestion exOptions (Some (fun _ => true)) false
    exQuery exClient.

Definition exServedMsg : Msg := match exServed.1 with inl m => m | inr _ => exQuery end.

Lemma exServed_ok :
  exchangeServer exConf exCallOk (exServer "a") exQuestion exOptions (Some (fun _ => true)) false
    exQuery exClient = (inl exServedMsg, exServed.2).
Proof.
  assert (E : exServed.1 = inl exServedMsg) by (vm_compute; reflexivity).
  rewrite <- E. apply surjective_pairing.
Qed.

Lemma served_ttl_witness :
  rrTtl <$> records exServedMsg = [60; 60] /\
  exists ttl, isTTLOf (exAnswer [300; 60]) None ttl /\
    Forall (fun rr => rrTtl rr = ttl) (records exServedMsg).
Proof.
  split; [vm_compute; reflexivity|].
  refine (served_ttl exConf exCallOk (exServer "a") exQuestion exOptions _ false exQuery exClient
    exServedMsg _ (exAnswer [300; 60]) _ exServed_ok _ _).
  - intros m opt. reflexivity.
  - reflexivity.
  - repeat constructor; cbn; lia.
Defined.

Lemma served_response_checked_witness :
  exists response,
    serverResponse exCallOk (exServer "a") exQuery = Some response /\
    (Rcode response = RcodeSuccess \/ Rcode response = RcodeNameError) /\
    (fun _ : list Addr => true) (MessageToAddresses response) = true.
Proof.
  exact (served_response_checked exConf exCallOk (exServer "a") exQuestion exOptions (fun _ => true)
    false exQuery exClient exServedMsg _ exServed_ok).
Defined.

(** Ten seconds after it was stored, a response with TTL 60 has 50 seconds left. *)
Lemma cached_ttl_witness :
  (loadResponse exConf (exCall (11 * second) (inl exQuery)) (exServer "a") exQuestion
     (storeCache exConf (exCall second (inl exQuery)) (exServer "a") exQuestion (exAnswer [60]) 60
        exClient)).1
  = Some (changeTTL (fun _ => 50) (exAnswer [60])).
Proof.
  refine (proj1 (cached_ttl exConf (exCall second (inl exQuery)) (exCall (11 * second) (inl exQuery))
    (exServer "a") exQuestion (exAnswer [60]) 60 exClient _ _ _ _ _ _)).
  - apply listLRU_keeps.
  - apply listLRU_keeps.
  - reflexivity.
  - lia.
  - repeat constructor.
  - unfold exCall, second. cbn. lia.
Defined.

Lemma failure_remembered_witness :
  let c := (exchangeServer exConf exCallFailed (exServer "a") exQuestion exOptions None true exQuery
              exClient).2 in
  asksServer (exCall (4 * second) (inl (exAnswer [60]))) (exServer "a") exQuestion None false c = false.
Proof.
  refine (proj1 (failure_remembered exConf exCallFailed (exCall (4 * second) (inl (exAnswer [60])))
    (exServer "a") exQuestion exOptions exOptions None None true false exQuery exQuery exClient
    "timeout" _ _ _ _ _)).
  - apply listLRU_keeps.
  - done.
  - vm_compute. reflexivity.
  - reflexivity.
  - vm_compute. reflexivity.
Defined.

Definition exSubnet : Prefix := prefix.PrefixFrom (ip4 192 0 2 0) 24.

Lemma subnet_not_cached_witness :
  let o := mkQueryOptions None 0 0 false None exSubnet in
  ClientExchange exConf exCallOk (Some (exServer "a")) exQuery o None exClient
  = exchangeServer exConf exCallOk (exServer "a") exQuestion o None true
      (SetClientSubnet exQuery exSubnet) exClient.
Proof.
  exact (proj1 (subnet_not_cached exConf exCallOk (exServer "a") exQuestion [] exQuery
    (mkQueryOptions None 0 0 false None exSubnet) None exClient eq_refl eq_refl eq_refl)).
Defined.

(** An OPT record that is not the last record is not found: the query gets another one. *)
Example second_OPT_record :
  let opt := mkRR "." TypeOPT 1232 0 (DataOPT []) in
  let m := setExtra exQuery [opt; exRecord (ip4 192 0 2 7) 0] in
  rrType <$> Extra (SetClientSubnet m exSubnet) = [TypeOPT; TypeA; TypeOPT].
Proof. reflexivity. Qed.

(** *** Router *)

Definition exDNSWorld : DNSWorld :=
  mkDNSWorld (fun tag => Some (exServer tag)) (exServer "default") 0 false (fun _ => false).

Definition exAny : HeadlessRule := DefaultRule (mkDefaultRule [] [] [] [] [] [] [] None false).

(** [ip_cidr: 10.0.0.0/8] *)
Definition exPrivate : HeadlessRule :=
  let cidr := IPCIDRItem [inl (prefix.PrefixFrom (ip4 10 0 0 0) 8)] false in
  DefaultRule (mkDefaultRule [] [] [] [] [cidr] [] [PlainItem cidr] None false).

Definition exRouteTo (rule : HeadlessRule) (server : string) : BuiltRule :=
  mkBuiltRule rule
    (Some (RuleActionDNSRoute server (DNSRouteOptions.mk 0 false None prefix.zero false))).

Definition exRules : list BuiltRule := [exRouteTo exPrivate "a"; exRouteTo exAny "b"].

Definition exCalls (n : nat) : CallEnv := exCallOk.

Lemma exRules_noReply : Forall noReply exRules.
Proof.
  apply Forall_cons_2; [intros method noDrop E; discriminate E|].
  by apply Forall_singleton.
Qed.

#[local] Instance exInterface : DNSClient := clientInterface exConf exCalls.

Lemma dns_queries_end_witness :
  answered (Exchange exEnv exDNSWorld exRules (exConnection "" 0) exQuery exOptions (exClient, 0%nat)).1.1 /\
  answered (Lookup exEnv exDNSWorld exRules (exConnection "" 0) "example.org" exOptions
              (exClient, 0%nat)).1.
Proof.
  split.
  - exact (proj1 (dns_queries_end exEnv exDNSWorld exRules (exConnection "" 0) exQuery "example.org"
      exOptions (exClient, 0%nat) (client_answers exConf exCalls)) exRules_noReply).
  - exact (proj2 (dns_queries_end exEnv exDNSWorld exRules (exConnection "" 0) exQuery "example.org"
      exOptions (exClient, 0%nat) (client_answers exConf exCalls))).
Defined.

Lemma dns_router_with_client_answers_witness :
  answered (Exchange exEnv exDNSWorld exRules (exConnection "" 0) exQuery exOptions (exClient, 0%nat)).1.1.
Proof.
  exact (proj1 (dns_router_with_client_answers exConf exCalls exEnv exDNSWorld exRules
    (exConnection "" 0) exQuery "example.org" exOptions (exClient, 0%nat)) exRules_noReply).
Defined.

(** The answer of server [a] is outside of 10.0.0.0/8: the query goes on to server [b]. *)
Example rejected_response_goes_on :
  mTransport (matchDNS exEnv exDNSWorld exRules true None true exOptions (exConnection "" 0))
  = Some (exServer "a") /\
  mTransport (matchDNS exEnv exDNSWorld exRules true (Some 0%nat) true exOptions (exConnection "" 0))
  = Some (exServer "b") /\
  match (Exchange exEnv exDNSWorld exRules (exConnection "" 0) exQuery exOptions
           (exClient, 0%nat)).1.1 with
  | inl m => MessageToAddresses m = [ip4 192 0 2 7; ip4 192 0 2 7]
  | inr _ => False
  end.
Proof. split_and!; vm_compute; reflexivity. Qed.

(** The options of a [route-options] rule are forgotten once a later rule was tried. *)
Example options_lost_after_rejection :
  let rewrite := mkBuiltRule exAny
    (Some (RuleActionDNSRouteOptions (DNSRouteOptions.mk 0 false (Some 10) prefix.zero false))) in
  let match_ previous :=
    RewriteTTL (mOptions (matchDNS exEnv exDNSWorld (rewrite :: exRules) true previous true exOptions
                            (exConnection "" 0))) in
  (match_ None, match_ (Some 1%nat)) = (Some 10, None).
Proof. vm_compute. reflexivity. Qed.

(** A DNS rule that rejects with the method [reply] makes the client use a nil server. *)
Example reject_reply_panics :
  let reply := mkBuiltRule exAny (Some (RuleActionReject RejectMethodReply false)) in
  (Exchange exEnv exDNSWorld [reply] (exConnection "" 0) exQuery exOptions (exClient, 0%nat)).1.1
  = inr (DNSPanic "nil pointer dereference").
Proof. vm_compute. reflexivity. Qed.
