(* ===== verification/DNSRuleSpec.v ===== *)
(** * When a DNS rule depends on the response

    [WithAddressLimit] decides whether the response of a DNS query is checked against
    the rule.  This file shows when the answer "no" is right: the rule then gives the
    same result before the query, with the destination addresses deferred, as on any
    response.  It also shows the case the flag misses. *)

From S2P Require Import Prelude MatchState Netip Context RuleItem Options RuleActions.
From S2P Require Import Concrete RuleAbstract RuleSemantics RuleBuild RuleSets.

(** The metadata of a query once its response is known (or not). *)
Definition withAnswer (md : InboundContext) (addrs : list Addr) (ignore : bool) : InboundContext :=
  setIgnore (setDestinationAddresses md addrs) ignore.

Section independence.
Context `{External} `{DomainMatching} (env : Env).

(** Items that do not read the resolved destination addresses. *)
Definition addressFree (it : RuleItem) : bool :=
  match it with
  | IPCIDRItem _ isSource => isSource
  | IPIsPrivateItem isSource => isSource
  | IPAcceptAnyItem => false
  | PreferredByItem _ _ => false
  | _ => true
  end.

Definition isIPCIDRItem (it : RuleItem) : bool :=
  match it with IPCIDRItem _ _ => true | _ => false end.

(** [answerFree matchSource rule]: evaluated with the flag [matchSource], the rule
    reads no destination address.  Sub rules of a logical rule are evaluated with the
    flag reset. *)
Fixpoint answerFree (matchSource : bool) (rule : HeadlessRule) : bool :=
  match rule with
  | DefaultRule r =>
      forallb addressFree (items r) && forallb addressFree (sourceAddressItems r)
      && forallb addressFree (sourcePortItems r) && forallb addressFree (destinationAddressItems r)
      && forallb addressFree (destinationPortItems r)
      && (if matchSource then forallb isIPCIDRItem (destinationIPCIDRItems r)
          else negb (nonempty (destinationIPCIDRItems r)))
      && match ruleSetItem r with
         | None => true
         | Some it => forallb (setAnswerFree (ipCidrMatchSource it)) (setList it)
         end
  | LogicalRule _ rules _ => forallb (answerFree false) rules
  end
with setAnswerFree (matchSource : bool) (s : RuleSet) : bool :=
  match s with
  | LocalRuleSet _ rules _ => forallb (answerFree matchSource) rules
  end.

Lemma Match_addressFree it md addrs ig :
  addressFree it = true -> Match env it (withAnswer md addrs ig) = Match env it md.
Proof.
  destruct it; try done; simpl; intros Hs; unfold IPCIDRItem_Match, IPIsPrivateItem_Match;
    by rewrite ?Hs.
Qed.

Lemma Match_sourceCIDR it md addrs ig :
  isIPCIDRItem it = true -> IPCIDRMatchSource md = true ->
  Match env it (withAnswer md addrs ig) = Match env it md.
Proof.
  destruct it; try done. simpl. intros _ Hs. unfold IPCIDRItem_Match. simpl.
  by rewrite Hs, orb_true_r.
Qed.

Lemma matchAny_ext its md md' :
  Forall (fun it => Match env it md' = Match env it md) its ->
  matchAnyItem env its md' = matchAnyItem env its md /\
  forallb (fun it => Match env it md') its = forallb (fun it => Match env it md) its.
Proof.
  unfold matchAnyItem. induction 1 as [|it its E HF [IH1 IH2]]; simpl; [done|].
  by rewrite E, IH1, IH2.
Qed.

Lemma forallb_Forall' {A} (p : A -> bool) l : forallb p l = true -> Forall (fun x => p x = true) l.
Proof.
  rewrite forallb_forall, Forall_forall. intros Hl x Hx. apply Hl. by apply list_elem_of_In.
Qed.

Lemma matchAny_addressFree its md addrs ig :
  forallb addressFree its = true ->
  matchAnyItem env its (withAnswer md addrs ig) = matchAnyItem env its md /\
  forallb (fun it => Match env it (withAnswer md addrs ig)) its
  = forallb (fun it => Match env it md) its.
Proof.
  intros HF%forallb_Forall'. apply matchAny_ext. eapply Forall_impl; [exact HF|].
  intros it. apply Match_addressFree.
Qed.

(** Two evaluations give the same sets. *)
Definition sameResult (p q : ruleMatchStateSet * InboundContext) : Prop :=
  p.1 = q.1 /\ definitive p = definitive q.

Lemma failure_same inv md md' base :
  sameResult (invertedFailure inv md base) (invertedFailure inv md' base).
Proof. by destruct inv. Qed.

Lemma finish_same inv md md' base S D :
  sameResult (finish inv md base S D) (finish inv md' base S D).
Proof. by destruct inv. Qed.

Lemma end_same inv md md' base S D :
  sameResult (if isEmpty S then invertedFailure inv md base else finish inv md base S D)
    (if isEmpty S then invertedFailure inv md' base else finish inv md' base S D).
Proof. destruct (isEmpty S); auto using failure_same, finish_same. Qed.

(** An evaluator that does not read the answer, at contexts with the given flag. *)
Definition answerBlind (matchSource : bool) (f : Evaluator) : Prop :=
  forall md addrs ig base, IPCIDRMatchSource md = matchSource ->
    sameResult (f (withAnswer md addrs ig) base) (f md base).

Section default_blind.
Context (r : abstractDefaultRule RuleSet) (matchItem : RuleSetItem RuleSet -> Evaluator).
Context (ms : bool).
Context (Hsound : forall it, ruleSetItem r = Some it -> sound (matchItem it)).
Context (Hitem : forall it, ruleSetItem r = Some it ->
  forall md addrs ig base, sameResult (matchItem it (withAnswer md addrs ig) base) (matchItem it md base)).
Context (Hi : forallb addressFree (items r) = true).
Context (Hsa : forallb addressFree (sourceAddressItems r) = true).
Context (Hsp : forallb addressFree (sourcePortItems r) = true).
Context (Hda : forallb addressFree (destinationAddressItems r) = true).
Context (Hdp : forallb addressFree (destinationPortItems r) = true).
Context (Hdc : if ms then forallb isIPCIDRItem (destinationIPCIDRItems r) = true
               else nonempty (destinationIPCIDRItems r) = false).

Lemma matchAny_cidr md addrs ig :
  IPCIDRMatchSource md = ms ->
  matchAnyItem env (destinationIPCIDRItems r) (withAnswer md addrs ig) =
  matchAnyItem env (destinationIPCIDRItems r) md.
Proof.
  intros Hms. destruct ms.
  - apply matchAny_ext. eapply Forall_impl; [by apply forallb_Forall'|].
    intros it Hit. by apply Match_sourceCIDR.
  - by destruct (destinationIPCIDRItems r).
Qed.

(** With the flag set, or without CIDR items, no destination address is read. *)
Lemma dest_cidr_off md : IPCIDRMatchSource md = ms ->
  destinationIPCIDRMatchesDestination r md = false /\ deferredGroups r md = 0.
Proof.
  intros Hms. unfold destinationIPCIDRMatchesDestination, deferredGroups. rewrite Hms.
  destruct ms; simpl; rewrite ?andb_false_r; [done|].
  by rewrite Hdc, ?andb_false_r.
Qed.

Lemma baseStateOf_blind md addrs ig base :
  IPCIDRMatchSource md = ms ->
  baseStateOf env r (withAnswer md addrs ig) base = baseStateOf env r md base.
Proof.
  intros Hms. unfold baseStateOf.
  rewrite !(proj1 (matchAny_addressFree _ md addrs ig Hsa)),
    !(proj1 (matchAny_addressFree _ md addrs ig Hsp)),
    !(proj1 (matchAny_addressFree _ md addrs ig Hda)),
    !(proj1 (matchAny_addressFree _ md addrs ig Hdp)), !matchAny_cidr by done.
  rewrite (proj1 (dest_cidr_off md Hms)), (proj1 (dest_cidr_off (withAnswer md addrs ig) Hms)).
  done.
Qed.

Lemma stateFilter_blind md addrs ig x :
  IPCIDRMatchSource md = ms ->
  stateFilter r (withAnswer md addrs ig) x = stateFilter r md x.
Proof.
  intros Hms. unfold stateFilter, requiresSourceAddressMatch, requiresDestinationAddressMatch.
  rewrite (proj1 (dest_cidr_off md Hms)), (proj1 (dest_cidr_off (withAnswer md addrs ig) Hms)).
  done.
Qed.

Lemma rawStates_blind md addrs ig base :
  (rawStates r matchItem (withAnswer md addrs ig) base).1 = (rawStates r matchItem md base).1.
Proof.
  unfold rawStates. destruct (ruleSetItem r) as [it|]; [|done]. cbn [fst].
  destruct (Hitem it eq_refl md addrs ig base) as [-> ->]. done.
Qed.

Lemma default_blind : answerBlind ms (defaultMatchStatesWithBase env matchItem r).
Proof.
  intros md addrs ig base Hms. rewrite !defaultMatch_unfold by done.
  destruct (negb _); [apply failure_same|].
  rewrite (proj2 (matchAny_addressFree _ md addrs ig Hi)).
  destruct (negb _); [apply failure_same|]. cbv zeta.
  rewrite baseStateOf_blind, rawStates_blind by done.
  rewrite (proj2 (dest_cidr_off md Hms)), (proj2 (dest_cidr_off (withAnswer md addrs ig) Hms)).
  cbn [negb Z.eqb].
  rewrite !(filterStates_ext _ (stateFilter r (withAnswer md addrs ig)) (stateFilter r md))
    by (intros; by apply stateFilter_blind).
  apply end_same.
Qed.
End default_blind.

Lemma andLoop_blind {R} (eval : R -> Evaluator) rules md addrs ig base S D :
  Forall (fun r => answerBlind false (eval r)) rules ->
  andLoop eval rules (withAnswer md addrs ig) base S D = andLoop eval rules md base S D.
Proof.
  intros HF. revert S D. induction HF as [|r rules Hr HF IH]; intros S D; cbn [andLoop]; [done|].
  destruct (Hr (ResetRuleCache md) addrs ig base eq_refl) as [E1 E2]. unfold definitive in E2.
  change (ResetRuleCache (withAnswer md addrs ig)) with (withAnswer (ResetRuleCache md) addrs ig).
  destruct (eval r (withAnswer (ResetRuleCache md) addrs ig) base) as [S1 m1],
    (eval r (ResetRuleCache md) base) as [S2 m2]. simpl in E1, E2. subst S2. rewrite E2.
  destruct (isEmpty S1); [done|]. apply IH.
Qed.

Lemma mergeLoop_blind {R} (eval : R -> Evaluator) prepare ms rules md addrs ig base S D :
  Forall (fun r => answerBlind ms (eval r)) rules -> IPCIDRMatchSource (prepare md) = ms ->
  prepare (withAnswer md addrs ig) = withAnswer (prepare md) addrs ig ->
  mergeLoop eval prepare rules (withAnswer md addrs ig) base S D =
  mergeLoop eval prepare rules md base S D.
Proof.
  intros HF Hms Hp. revert S D.
  induction HF as [|r rules Hr HF IH]; intros S D; cbn [mergeLoop]; [done|].
  destruct (Hr (prepare md) addrs ig base Hms) as [E1 E2]. unfold definitive in E2. rewrite Hp.
  destruct (eval r (withAnswer (prepare md) addrs ig) base) as [S1 m1],
    (eval r (prepare md) base) as [S2 m2]. simpl in E1, E2. subst S2. rewrite E2. apply IH.
Qed.

Lemma answerFree_blind :
  (forall rule ms, answerFree ms rule = true -> answerBlind ms (matchStatesWithBase env rule)) /\
  (forall s ms, setAnswerFree ms s = true -> answerBlind ms (setMatchStatesWithBase env s)).
Proof.
  destruct (evaluation_sound env) as [Hrs Hss]. apply rule_set_ind.
  - intros r IH ms Hf. simpl in Hf. rewrite !andb_true_iff in Hf.
    destruct Hf as [[[[[[Hi Hsa] Hsp] Hda] Hdp] Hdc] Hsets].
    apply default_blind; try done.
    + intros it Hit. apply mergeLoop_sound; [done|]. by apply Forall_true.
    + intros it Hit md addrs ig base. rewrite Hit in Hsets. specialize (IH it Hit).
      unfold sameResult, definitive, ruleSetItemMatchStatesWithBase.
      rewrite (mergeLoop_blind _ _ (ipCidrMatchSource it)); [|clear Hit|done|done].
      * by destruct (mergeLoop _ _ _ _ _ _ _).
      * apply forallb_Forall' in Hsets. revert Hsets IH. clear. induction 1; inversion 1; constructor; auto.
    + destruct ms; [done|]. by apply negb_true_iff.
  - intros mode rules inv IH ms Hf md addrs ig base Hms. simpl in Hf |- *.
    assert (Forall (fun r => answerBlind false (matchStatesWithBase env r)) rules) as HF.
    { apply forallb_Forall' in Hf. revert Hf IH. clear. induction 1; inversion 1; constructor; auto. }
    unfold logicalMatchStatesWithBase. destruct (String.eqb mode LogicalTypeAnd).
    + rewrite andLoop_blind by done.
      destruct (andLoop _ _ _ _ _ _) as [[S D]|]; auto using failure_same, finish_same.
    + rewrite (mergeLoop_blind _ _ false) by done.
      destruct (mergeLoop _ _ _ _ _ _ _) as [S D]. apply end_same.
  - intros tag rules rmd IH ms Hf md addrs ig base Hms. simpl in Hf |- *.
    unfold ruleSetMatchStatesWithBase. rewrite (mergeLoop_blind _ _ ms); [|clear Hms|done|done].
    + by destruct (mergeLoop _ _ _ _ _ _ _).
    + apply forallb_Forall' in Hf. revert Hf IH. clear. induction 1; inversion 1; constructor; auto.
Qed.
End independence.
