(* ===== verification/AddressLimit.v ===== *)
(** * The address limit of built DNS rules

    From the constructors to [WithAddressLimit]: the items a DNS rule or a headless
    rule puts outside its CIDR list never read the resolved addresses, the metadata of a
    rule set says truthfully whether its rules have CIDR items, and so a rule without
    address limit can be decided before the query. *)

From S2P Require Import Prelude MatchState Netip Context RuleItem Options RuleActions.
From S2P Require Import Concrete RuleAbstract RuleSemantics RuleBuild RuleBuildSpec RuleSets.
From S2P Require Import DNSRuleSpec.

Section built.
Context `{External} `{DomainMatching} `{DirectDialer}.

(** A part that gives CIDR items to the CIDR list and items that read no resolved
    address to the others. *)
Definition partOk (p : Part) : Prop :=
  p.1 = KDestinationIPCIDR \/ forall it, partItem p = Some it -> addressFree it = true.

Lemma part_ok k g mk :
  (forall it, mk = Ok it -> addressFree it = true) -> partOk (part k g mk).
Proof.
  intros Hmk. right. intros it. unfold part, partItem. simpl.
  destruct g; [|done]. destruct mk as [x|]; simpl; [|done]. intros [= <-]. by apply Hmk.
Qed.

Lemma part_cidr g mk : partOk (part KDestinationIPCIDR g mk).
Proof. by left. Qed.

Lemma refuse_ok g m : partOk (refuse g m).
Proof. right. intros it. unfold refuse, partItem. simpl. by destruct g. Qed.

Lemma rawPart_ok {A} k g (ctor : A -> RuleItem) raw :
  (forall a, addressFree (ctor a) = true) -> partOk (rawPart k g ctor raw).
Proof.
  intros Hc. right. intros it. unfold rawPart, partItem. simpl. destruct g; [done|].
  destruct raw as [a|]; simpl; [|done]. intros [= <-]. apply Hc.
Qed.

Lemma rawPart_cidr {A} g (ctor : A -> RuleItem) raw : partOk (rawPart KDestinationIPCIDR g ctor raw).
Proof. by left. Qed.

(** Constructors that can fail build items of one type. *)
Ltac built_free := intros; ok_inv; done.

Lemma NewDomainItem_free d s it : NewDomainItem d s = Ok it -> addressFree it = true.
Proof. unfold NewDomainItem. built_free. Qed.

Lemma NewDomainRegexItem_free l it : NewDomainRegexItem l = Ok it -> addressFree it = true.
Proof. unfold NewDomainRegexItem. built_free. Qed.

Lemma NewProcessPathRegexItem_free l it : NewProcessPathRegexItem l = Ok it -> addressFree it = true.
Proof. unfold NewProcessPathRegexItem. built_free. Qed.

Lemma NewPortRangeItem_free b l it : NewPortRangeItem b l = Ok it -> addressFree it = true.
Proof. unfold NewPortRangeItem. built_free. Qed.

Lemma NewIPCIDRItem_source_free l it : NewIPCIDRItem true l = Ok it -> addressFree it = true.
Proof. unfold NewIPCIDRItem. built_free. Qed.

Lemma NewIPCIDRItem_cidr b l it : NewIPCIDRItem b l = Ok it -> isIPCIDRItem it = true.
Proof. unfold NewIPCIDRItem. built_free. Qed.

Lemma ipVersionItem_free v it : ipVersionItem v = Ok it -> addressFree it = true.
Proof. unfold ipVersionItem. built_free. Qed.

Lemma NewOutboundRule_free l : addressFree (NewOutboundRule l) = true.
Proof. unfold NewOutboundRule. by destruct (foldl _ _ _). Qed.

Ltac parts_ok :=
  repeat (apply Forall_cons; split); try (by apply Forall_nil);
  unfold listPart, listPartR;
  first
    [ apply part_cidr | apply refuse_ok | apply rawPart_cidr
    | apply rawPart_ok; intros; reflexivity
    | apply part_ok; intros it Hit; try apply causing_ok in Hit;
      first
        [ by eapply NewDomainItem_free | by eapply NewDomainRegexItem_free
        | by eapply NewProcessPathRegexItem_free | by eapply NewPortRangeItem_free
        | by eapply NewIPCIDRItem_source_free | by eapply ipVersionItem_free
        | injection Hit as <-; first [reflexivity | apply NewOutboundRule_free] ] ].

Lemma defaultDNSRuleParts_ok o : Forall partOk (defaultDNSRuleParts o).
Proof. apply Forall_app_2; unfold dnsConnectionParts, dnsDeviceParts; parts_ok. Qed.

Lemma headlessRuleParts_ok nm o : Forall partOk (headlessRuleParts nm o).
Proof.
  apply Forall_app_2; unfold headlessConnectionParts, headlessDeviceParts; [parts_ok|].
  apply Forall_app_2; [parts_ok|]. apply Forall_app_2; [|parts_ok]. destruct nm; parts_ok.
Qed.

Lemma kindItems_free k parts :
  Forall partOk parts -> k <> KDestinationIPCIDR ->
  Forall (fun it => addressFree it = true) (kindItems k parts).
Proof.
  intros HF Hk. unfold kindItems, partItems. induction HF as [|p parts Hp HF IH]; [constructor|].
  rewrite filter_cons. destruct (decide (p.1 = k)) as [E|]; [|done]. simpl.
  destruct (partItem p) as [it|] eqn:Eit; [|done]. constructor; [|done].
  destruct Hp as [?|Hp]; [congruence|]. by apply Hp.
Qed.

Lemma forallb_Forall_iff {A} (p : A -> bool) l :
  forallb p l = true <-> Forall (fun x => p x = true) l.
Proof.
  split; [apply forallb_Forall'|]. rewrite forallb_forall, Forall_forall.
  intros Hl x Hx. apply Hl. by apply list_elem_of_In.
Qed.

(** All lists but the CIDR list hold items that read no resolved address. *)
Definition listsFree (r : abstractDefaultRule RuleSet) : Prop :=
  forall k, k <> KDestinationIPCIDR -> forallb addressFree (listOf k r) = true.

Lemma assemble_free parts inv r :
  Forall partOk parts -> assemble parts (emptyRule inv) = Ok r -> listsFree r.
Proof.
  intros HF (Hl & _)%assemble_spec k Hk. rewrite Hl.
  apply forallb_Forall_iff. destruct k; simpl; try done; by apply kindItems_free.
Qed.

Lemma answerFree_default (ms : bool) r :
  listsFree r ->
  (if ms then forallb isIPCIDRItem (destinationIPCIDRItems r) = true
   else nonempty (destinationIPCIDRItems r) = false) ->
  match ruleSetItem r with
  | None => True
  | Some it => forallb (setAnswerFree (ipCidrMatchSource it)) (setList it) = true
  end ->
  answerFree ms (DefaultRule r) = true.
Proof.
  intros Hf Hc Hs. simpl.
  rewrite !andb_true_iff. split_and!;
    [by apply (Hf KItem)|by apply (Hf KSourceAddress)|by apply (Hf KSourcePort)
    |by apply (Hf KDestinationAddress)|by apply (Hf KDestinationPort)| |].
  - destruct ms; [done|]. by rewrite Hc.
  - by destruct (ruleSetItem r).
Qed.
End built.

(** ** Induction over rule options *)
Section options_induction.
Context {D A : Type} (P : RuleOptions D A -> Prop).
Context (Hrule : forall ty d m rules inv a, Forall P rules ->
                   P (mkRuleOptions ty d (mkLogicalOptions m rules inv a))).

Fixpoint options_ind (o : RuleOptions D A) : P o :=
  let fix go (l : list (RuleOptions D A)) : Forall P l :=
    match l with [] => Forall_nil_2 _ | x :: l' => Forall_cons_2 _ _ _ (options_ind x) (go l') end in
  match o with
  | mkRuleOptions ty d (mkLogicalOptions m rules inv a) => Hrule ty d m rules inv a (go rules)
  end.
End options_induction.

Section headless.
Context `{External} `{DomainMatching} `{DirectDialer}.

Lemma subRules_ok {O} (new : O -> result BuiltRule) i l hs :
  subRules new i l = Ok hs <-> Forall2 (fun o h => exists b, new o = Ok b /\ builtRule b = h) l hs.
Proof.
  revert i hs. induction l as [|o l IH]; intros i hs; cbn [subRules].
  - split; [intros [= <-]; constructor|]. by intros ->%Forall2_nil_inv_l.
  - rewrite bind_ok. setoid_rewrite causing_ok. setoid_rewrite bind_ok. split.
    + intros (b & Hb & hs' & Hl & [= <-]). constructor; [eauto|]. by eapply IH.
    + intros (h & hs' & (b & Hb & <-) & Hl & ->)%Forall2_cons_inv_l. exists b. split; [done|].
      exists hs'. split; [|done]. by apply IH.
Qed.

(** The type of every rule is written out, as decoding does. *)
Fixpoint typed (o : HeadlessOptions) : bool :=
  match o with
  | mkRuleOptions ty _ (mkLogicalOptions _ rules _ _) =>
      String.eqb ty RuleTypeDefault || (String.eqb ty RuleTypeLogical && forallb typed rules)
  end.

Definition isLogical (o : HeadlessOptions) : bool :=
  match o with mkRuleOptions ty _ _ => String.eqb ty RuleTypeLogical end.

(** A logical rule of a set has no CIDR items. *)
Definition flatCIDR (o : HeadlessOptions) : bool :=
  negb (isLogical o) || negb (HasHeadlessRule_one isIPCIDRHeadlessRule o).

Lemma kindItems_app k a b : kindItems k (a ++ b) = kindItems k a ++ kindItems k b.
Proof. unfold kindItems, partItems. by rewrite filter_app, omap_app. Qed.

(** The two parts that fill the CIDR list of a headless rule. *)
Definition cidrParts (o : DefaultHeadlessRule.t) : list Part :=
  [listPartR KDestinationIPCIDR (DefaultHeadlessRule.IPCIDR o)
     (fun l => causing "ipcidr" (NewIPCIDRItem false l));
   rawPart KDestinationIPCIDR (nonempty (elems (DefaultHeadlessRule.IPCIDR o)))
     (NewRawIPCIDRItem false) (DefaultHeadlessRule.IPSet_ o)].

Lemma headless_cidr nm o :
  kindItems KDestinationIPCIDR (headlessRuleParts nm o) = partItems (cidrParts o).
Proof.
  unfold headlessRuleParts. rewrite kindItems_app.
  assert (kindItems KDestinationIPCIDR (headlessDeviceParts nm o) = []) as -> by by destruct nm.
  by rewrite app_nil_r.
Qed.

Lemma headless_default nm o r :
  NewDefaultHeadlessRule nm o = Ok r ->
  listsFree r /\ ruleSetItem r = None /\
  forallb isIPCIDRItem (destinationIPCIDRItems r) = true /\
  nonempty (destinationIPCIDRItems r) = isIPCIDRHeadlessRule o.
Proof.
  intros Hr. unfold NewDefaultHeadlessRule in Hr.
  pose proof (assemble_free _ _ _ (headlessRuleParts_ok nm o) Hr) as Hf.
  pose proof (assemble_spec _ _ _ Hr) as (Hl & _ & Hrs & _). specialize (Hl KDestinationIPCIDR).
  simpl in Hl, Hrs. rewrite headless_cidr in Hl. rewrite Hl.
  assert (exists x, (listPartR KDestinationIPCIDR (DefaultHeadlessRule.IPCIDR o)
     (fun l => causing "ipcidr" (NewIPCIDRItem false l))).2 = Ok x) as [x Hx].
  { eapply assemble_parts_ok; [exact Hr|]. unfold headlessRuleParts, headlessConnectionParts.
    apply elem_of_app. left. do 8 right. left. }
  clear Hl Hr. split; [done|]. split; [done|]. unfold cidrParts, partItems, isIPCIDRHeadlessRule.
  revert Hx. unfold listPartR, part, rawPart, partItem. simpl.
  destruct (nonempty (elems (DefaultHeadlessRule.IPCIDR o))); simpl.
  - intros (it & Hit%causing_ok & _)%bind_ok. rewrite Hit. simpl.
    by rewrite (NewIPCIDRItem_cidr _ _ _ Hit).
  - intros _. by destruct (DefaultHeadlessRule.IPSet_ o).
Qed.

(** A headless rule that was built reads no resolved address when its options have no
    CIDR condition, and, matched against the source, when only default rules have. *)
Lemma headless_free nm o :
  forall b (ms : bool), typed o = true -> NewHeadlessRule nm o = Ok b ->
  (if ms then flatCIDR o = true
   else HasHeadlessRule_one isIPCIDRHeadlessRule o = false) ->
  answerFree ms (builtRule b) = true.
Proof.
  induction o as [ty d m rules inv a IH] using options_ind. intros b ms Ht Hb Hc.
  unfold NewHeadlessRule in Hb. cbn [newRule newLogical] in Hb.
  simpl in Ht. unfold flatCIDR, isLogical in Hc. cbn [HasHeadlessRule_one] in Hc.
  destruct d as [d []].
  destruct (String.eqb ty RuleTypeDefault) eqn:Ed.
  - assert (String.eqb ty RuleTypeLogical = false) as El
      by (apply String.eqb_eq in Ed; by subst ty).
    rewrite El in Hc. rewrite orb_true_r in Hb. cbn [fst snd targetMissing andb] in Hb.
    destruct (negb _); [done|].
    apply bind_ok in Hb as (r & Hr & [= <-]).
    apply headless_default in Hr as (Hf & Hrs & Hci & Hne). simpl builtRule.
    apply answerFree_default; [done| |by rewrite Hrs].
    destruct ms; [done|]. by rewrite Hne.
  - simpl in Ht. apply andb_true_iff in Ht as [El Ht]. rewrite El in Hb, Hc.
    assert (String.eqb ty "" = false) as Ee by (apply String.eqb_eq in El; by subst ty).
    rewrite Ee in Hb. cbn [orb] in Hb.
    apply bind_ok in Hb as (v & _ & Hb). destruct (negb v); [done|].
    cbn [targetMissing andb] in Hb. apply bind_ok in Hb as (act & _ & Hb).
    destruct (_ || _); [|done]. apply bind_ok in Hb as (sub & Hsub & [= <-]).
    apply subRules_ok in Hsub.
    assert (Hc' : existsb (HasHeadlessRule_one isIPCIDRHeadlessRule) rules = false).
    { destruct ms; [|done]. simpl in Hc. by apply negb_true_iff. }
    cbn [answerFree builtRule]. clear Hc El Ed Ee m inv.
    revert IH Ht Hc'. induction Hsub as [|o h rules sub (b & Hb & <-) HF IHl]; [done|].
    intros HF'%Forall_cons Ht Hc. destruct HF' as [Ho HF']. simpl in Ht, Hc |- *.
    apply andb_true_iff in Ht as [Ht1 Ht2]. apply orb_false_iff in Hc as [Hc1 Hc2].
    rewrite (Ho b false Ht1 Hb Hc1). by apply IHl.
Qed.

Lemma parseRules_ok nm i l hs :
  parseRules nm i l = Ok hs <->
  Forall2 (fun o h => exists b, NewHeadlessRule nm o = Ok b /\ builtRule b = h) l hs.
Proof.
  revert i hs. induction l as [|o l IH]; intros i hs; cbn [parseRules].
  - split; [intros [= <-]; constructor|]. by intros ->%Forall2_nil_inv_l.
  - rewrite bind_ok. setoid_rewrite causing_ok. setoid_rewrite bind_ok. split.
    + intros (b & Hb & hs' & Hl & [= <-]). constructor; [eauto|]. by eapply IH.
    + intros (h & hs' & (b & Hb & <-) & Hl & ->)%Forall2_cons_inv_l. exists b. split; [done|].
      exists hs'. split; [|done]. by apply IH.
Qed.

(** A rule set loaded from options, with the types written out and no CIDR item under a
    logical rule. *)
Definition loadedSet (s : RuleSet) : Prop :=
  exists nm options tag, reloadRules nm options tag = Ok s /\
    forallb typed options = true /\ forallb flatCIDR options = true.

Lemma loadedSet_free (ms : bool) s :
  loadedSet s -> (if ms then True else ContainsIPCIDRRule (Metadata s) = false) ->
  setAnswerFree ms s = true.
Proof.
  intros (nm & options & tag & Hs & Ht & Hf) Hc. unfold reloadRules in Hs.
  apply bind_ok in Hs as (rules & Hr & [= <-]). simpl in Hc |- *.
  apply parseRules_ok in Hr. revert Ht Hf Hc.
  induction Hr as [|o h options rules (b & Hb & <-) HF IH]; [done|].
  simpl. intros [Ht1 Ht2]%andb_true_iff [Hf1 Hf2]%andb_true_iff Hc.
  rewrite (headless_free nm o b ms Ht1 Hb); [|destruct ms; [done|]].
  - apply IH; [done|done|]. destruct ms; [done|]. by apply orb_false_iff in Hc as [_ Hc].
  - by apply orb_false_iff in Hc as [Hc _].
Qed.
End headless.

Section dns.
Context `{External} `{DomainMatching} `{DirectDialer}.

(** Whatever holds of the default rules built and is kept by logical rules holds of a
    rule that was built. *)
Lemma newRule_ind {D A} zD zA e u (newDefault : D -> A -> result BuiltRule) newAction target miss
    (P : HeadlessRule -> Prop) :
  (forall d a b, newDefault d a = Ok b -> P (builtRule b)) ->
  (forall m l inv, Forall P l -> P (LogicalRule m l inv)) ->
  forall o check b,
  newRule zD zA e u newDefault newAction target miss check o = Ok b -> P (builtRule b).
Proof.
  intros Hd Hl o. induction o as [ty d m rules inv a IH] using options_ind.
  intros check b Hb. cbn [newRule newLogical] in Hb.
  destruct (_ || _).
  - destruct (negb _); [done|]. destruct (targetMissing _ _ _); [done|]. by eapply Hd.
  - destruct (String.eqb _ _); [|done]. apply bind_ok in Hb as (v & _ & Hb).
    destruct (negb v); [done|]. destruct (targetMissing _ _ _); [done|].
    apply bind_ok in Hb as (act & _ & Hb). destruct (_ || _); [|done].
    apply bind_ok in Hb as (sub & Hsub & [= <-]). simpl. apply Hl.
    apply subRules_ok in Hsub. revert IH.
    induction Hsub as [|o h rules sub (b & Hb & <-) HF IHs]; [constructor|].
    intros [Ho HF']%Forall_cons. constructor; [by eapply Ho|auto].
Qed.

(** A DNS rule as built: no item outside the CIDR lists reads a resolved address, and no
    rule set is resolved yet. *)
Definition dnsNode (r : abstractDefaultRule RuleSet) : Prop :=
  listsFree r /\ match ruleSetItem r with Some it => setList it = [] | None => True end.

Fixpoint dnsTree (h : HeadlessRule) : Prop :=
  match h with
  | DefaultRule r => dnsNode r
  | LogicalRule _ rules _ => foldr (fun h P => dnsTree h /\ P) True rules
  end.

Lemma dnsTree_logical m l inv : Forall dnsTree l -> dnsTree (LogicalRule m l inv).
Proof. induction 1; simpl; [done|]. split; done. Qed.

Lemma NewDNSRule_tree o check b : NewDNSRule o check = Ok b -> dnsTree (builtRule b).
Proof.
  apply newRule_ind; [|intros; by apply dnsTree_logical]. clear.
  intros d a b Hb. apply bind_ok in Hb as ([r act] & Hr & [= <-]). simpl.
  unfold NewDefaultDNSRule in Hr. apply bind_ok in Hr as (act' & _ & Hr).
  apply bind_ok in Hr as (r0 & E & Hr). apply bind_ok in Hr as (r1 & Ha & [= <- _]).
  pose proof (assemble_free _ _ _ (defaultDNSRuleParts_ok d) E) as Hf.
  apply assemble_spec in E as (_ & _ & Hrs & _). unfold attachRuleSets in Ha.
  destruct (negb _); [injection Ha as <-|].
  2: destruct (RawDefaultDNSRule.Deprecated_RulesetIPCIDRMatchSource d); [done|injection Ha as <-].
  - split; [done|]. by rewrite Hrs.
  - split; [|done]. intros k Hk. specialize (Hf k Hk). by destruct k.
Qed.

Context (sc : StartContext).
Context (Hsets : forall tag s, startRuleSet sc tag = Some s -> loadedSet s).

Lemma startItem_free it it' :
  startItem sc it = Ok it' -> addressFree it = true -> addressFree it' = true.
Proof. destruct it; simpl; try (by intros [= <-]); done. Qed.

Lemma startItems_free l l' :
  mapR (startItem sc) l = Ok l' -> forallb addressFree l = true -> forallb addressFree l' = true.
Proof.
  intros HF%mapR_ok. rewrite !forallb_Forall_iff.
  induction HF as [|it it' l l' Hit HF IH]; [done|].
  intros [Hf Hl]%Forall_cons. constructor; [by eapply startItem_free|auto].
Qed.

Lemma resolveTags_loaded tags ss : resolveTags sc tags = Ok ss -> Forall loadedSet ss.
Proof.
  revert ss. induction tags as [|tag tags IH]; intros ss; simpl; [by intros [= <-]; constructor|].
  destruct (startRuleSet sc tag) as [s|] eqn:E; [|done].
  intros (ss' & Hs & [= <-])%bind_ok. constructor; [by eapply Hsets|auto].
Qed.

Lemma startDefault_free r r' :
  dnsNode r -> startDefault sc r = Ok r' -> WithAddressLimit (DefaultRule r') = false ->
  answerFree false (DefaultRule r') = true.
Proof.
  intros [Hf Hun] Hs Hw. unfold startDefault in Hs.
  repeat match type of Hs with
  | mbind _ _ = Ok _ => apply bind_ok in Hs as (? & ? & Hs)
  end. injection Hs as <-. cbn [WithAddressLimit destinationIPCIDRItems ruleSetItem] in Hw.
  destruct (nonempty _) eqn:Hne; [done|]. apply answerFree_default; [|done|].
  - intros k Hk.
    destruct k; simpl; try done; (eapply startItems_free; [eassumption|]);
      [by apply (Hf KItem)|by apply (Hf KSourceAddress)|by apply (Hf KSourcePort)
      |by apply (Hf KDestinationAddress)|by apply (Hf KDestinationPort)].
  - cbn [ruleSetItem] in *. destruct (ruleSetItem r) as [it|]; [|by simplify_eq].
    match goal with E : mbind _ _ = Ok ?x |- _ => apply bind_ok in E as (it' & Hit & [= <-]) end.
    unfold startRuleSetItem in Hit. apply bind_ok in Hit as (ss & Hss & [= <-]).
    simpl in Hw |- *. rewrite Hun in Hw |- *. simpl in Hw |- *.
    apply resolveTags_loaded in Hss. apply forallb_Forall_iff. unfold ContainsDestinationIPCIDRRule in Hw.
    simpl in Hw. induction Hss as [|s ss Hl HF IH]; [constructor|]. simpl in Hw.
    destruct (ipCidrMatchSource it).
    + constructor; [by apply (loadedSet_free true)|auto].
    + apply orb_false_iff in Hw as [Hw1 Hw2]. constructor; [by apply (loadedSet_free false)|auto].
Qed.

Lemma startRule_free h : forall h',
  dnsTree h -> startRule sc h = Ok h' -> WithAddressLimit h' = false -> answerFree false h' = true.
Proof.
  revert h. apply (rule_ind' (fun h => forall h', dnsTree h -> startRule sc h = Ok h' ->
    WithAddressLimit h' = false -> answerFree false h' = true) (fun _ => True)); [| |done].
  - intros r _ h' Hd Hs Hw. apply bind_ok in Hs as (r' & Hr & [= <-]).
    by eapply startDefault_free.
  - intros m rules inv IH h' Hd Hs Hw. cbn [startRule] in Hs.
    apply bind_ok in Hs as (rules' & Hr & [= <-]). simpl in Hd, Hw |- *.
    revert rules' Hr Hd Hw. induction IH as [|h rules Hh HF IHl]; intros rules' Hr Hd Hw.
    + by injection Hr as <-.
    + cbn [startList] in Hr. apply bind_ok in Hr as (h' & Hh' & Hr).
      apply bind_ok in Hr as (rules'' & Hr & [= <-]). simpl in Hd, Hw |- *. destruct Hd as [Hd1 Hd2].
      apply orb_false_iff in Hw as [Hw1 Hw2]. rewrite (Hh h') by done. by apply IHl.
Qed.
End dns.

Section address_limit.
Context `{External} `{DomainMatching} `{DirectDialer}.

(** C8. A DNS rule without address limit needs no check of the response: for a rule built
    from any options and started against rule sets that were loaded from options (types
    written out, no CIDR condition inside a logical rule of a set), when
    [WithAddressLimit] is false the match before the query, with the destination
    addresses deferred, equals the match on the response, whatever addresses it has. *)
Theorem address_limit_complete env sc o check b h md addrs :
  NewDNSRule o check = Ok b -> startRule sc (builtRule b) = Ok h ->
  (forall tag s, startRuleSet sc tag = Some s -> loadedSet s) ->
  WithAddressLimit h = false ->
  IPCIDRMatchSource md = false -> IgnoreDestinationIPCIDRMatch md = false ->
  (DNSRule_Match env h md).1 = (MatchAddressLimit env h (setDestinationAddresses md addrs)).1.
Proof.
  intros Hb Hs Hl Hw Hms Hi. apply NewDNSRule_tree in Hb.
  pose proof (startRule_free sc Hl _ h Hb Hs Hw) as Hf.
  pose proof (proj1 (answerFree_blind env) h false Hf md) as Hbl.
  unfold DNSRule_Match, MatchAddressLimit, matchStates. cbn [fst].
  assert (setIgnore md true = withAnswer md (DestinationAddresses md) true) as -> by by destruct md.
  assert (setDestinationAddresses md addrs = withAnswer md addrs false) as ->
    by (destruct md; simpl in Hi; by subst).
  destruct (Hbl (DestinationAddresses md) true 0 Hms) as [-> _].
  by destruct (Hbl addrs false 0 Hms) as [-> _].
Qed.
End address_limit.

(** ** Witnesses *)
#[local] Existing Instances exExternal exDomainMatching exDirectDialer.

Definition exGeoRules : list HeadlessOptions :=
  [exDefaultOptions (exHeadlessRule (Some ["a.example"]) None None) tt]%string.

(** The rule sets of the router: one, with a domain condition. *)
Definition exGeoSets (tag : string) : option RuleSet :=
  if String.eqb tag "geo" then
    match reloadRules true exGeoRules "geo" with Ok s => Some s | Err _ => None end
  else None.

Lemma exGeoSets_loaded tag s : exGeoSets tag = Some s -> loadedSet s.
Proof.
  unfold exGeoSets. destruct (String.eqb tag "geo"); [|done].
  destruct (reloadRules _ _ _) as [s'|] eqn:E; [|done]. intros [= <-].
  exists true, exGeoRules, "geo"%string.
  split; [exact E|]. split; vm_compute; reflexivity.
Qed.

Definition exStart : StartContext := mkStartContext false (fun _ => None) exGeoSets.

Definition exDNSOptions : RuleOptions RawDefaultDNSRule.t DNSRuleAction.t :=
  exDefaultOptions (exDNSRule (Some ["example.org"]) (Some ["geo"]) false) (exDNSAction "local").

Definition noRule : HeadlessRule := LogicalRule "" [] false.

Definition exBuilt : BuiltRule :=
  match NewDNSRule exDNSOptions true with Ok b => b | Err _ => mkBuiltRule noRule None end.

Definition exStarted : HeadlessRule :=
  match startRule exStart (builtRule exBuilt) with Ok h => h | Err _ => noRule end.

Lemma address_limit_complete_witness :
  NewDNSRule exDNSOptions true = Ok exBuilt /\ startRule exStart (builtRule exBuilt) = Ok exStarted /\
  (DNSRule_Match exEnv exStarted (exConnection "example.org" 53)).1 =
  (MatchAddressLimit exEnv exStarted
     (setDestinationAddresses (exConnection "example.org" 53) [ip4 192 0 2 7])).1.
Proof.
  assert (Hb : NewDNSRule exDNSOptions true = Ok exBuilt) by (vm_compute; reflexivity).
  assert (Hs : startRule exStart (builtRule exBuilt) = Ok exStarted) by (vm_compute; reflexivity).
  assert (Hw : WithAddressLimit exStarted = false) by (vm_compute; reflexivity).
  split; [exact Hb|]. split; [exact Hs|].
  exact (address_limit_complete exEnv exStart exDNSOptions true exBuilt exStarted
    (exConnection "example.org" 53) [ip4 192 0 2 7] Hb Hs exGeoSets_loaded Hw eq_refl eq_refl).
Defined.

(** ** What the flag misses *)

Definition exCIDR (cidr : string) : HeadlessOptions :=
  exDefaultOptions (exHeadlessRule None (Some [cidr]) None) tt.

Definition exWrapped (cidr : string) : HeadlessOptions :=
  exLogicalOptions (exHeadlessRule None None None) tt LogicalTypeOr [exCIDR cidr].

Definition exLoad (rules : list HeadlessOptions) : RuleSet :=
  match reloadRules true rules "geo" with
  | Ok s => s
  | Err _ => LocalRuleSet "" [] (mkRuleSetMetadata false false false)
  end.

(** A rule with one rule set, and [rule_set_ip_cidr_match_source]. *)
Definition exMatchSource (s : RuleSet) : HeadlessRule :=
  DefaultRule (mkDefaultRule [] [] [] [] [] [] [TheRuleSetItem]
    (Some (mkRuleSetItem ["geo"%string] [s] true false)) false).

(** [rule_set_ip_cidr_match_source] does not reach the rules inside a logical rule of a
    set: a logical rule clears the flag with the rest of the rule cache before it
    evaluates its rules.  The CIDR condition 10.0.0.0/8 of a set matches a connection from
    10.0.0.1 by its source when it stands alone, and not as the only rule of a logical
    rule; there it is compared with the destination, which [WithAddressLimit] denies, so
    that the result changes with the response. *)
Example match_source_lost_in_logical_rule :
  let md := exConnection "example.org" 443 in
  let flat := exMatchSource (exLoad [exCIDR "10.0.0.0/8"]) in
  let wrapped := exMatchSource (exLoad [exWrapped "10.0.0.0/8"]) in
  RuleMatch exEnv flat md = true /\ RuleMatch exEnv wrapped md = false /\
  WithAddressLimit wrapped = false /\
  (MatchAddressLimit exEnv wrapped (setDestinationAddresses md [ip4 10 9 9 9])).1 = true /\
  (MatchAddressLimit exEnv wrapped (setDestinationAddresses md [ip4 192 0 2 7])).1 = false.
Proof. vm_compute. split_and!; reflexivity. Qed.
