(* ===== verification/RuleWitness.v ===== *)
(** * Witnesses of the rule engine

    Each lemma applies a theorem of the rule engine to a concrete rule and connection,
    with the instances of [Concrete.v]. *)

From S2P Require Import Prelude MatchState Netip Context RuleItem Options RuleActions Concrete.
From S2P Require Import RuleAbstract RuleSemantics RuleSpec RuleFormula RuleBuild RuleBuildSpec.
From S2P Require Import RuleSets RuleOptions.

#[local] Existing Instances exExternal exDomainMatching exDirectDialer.

(** [domain: example.org, port: 443] *)
Definition exPlain : abstractDefaultRule RuleSet :=
  let d := DomainItem (NewMatcher ["example.org"%string] [] false) in
  let p := NewPortItem false [443] in
  mkDefaultRule [] [] [] [d] [] [p] [PlainItem d; PlainItem p] None false.

(** A rule set with the rule [port: 443], and a rule with it and a domain condition *)
Definition exPortRule : abstractDefaultRule RuleSet :=
  let p := NewPortItem false [443] in
  mkDefaultRule [] [] [] [] [] [p] [PlainItem p] None false.

Definition exSet : RuleSet :=
  LocalRuleSet "geo" [DefaultRule exPortRule] (mkRuleSetMetadata false false false).

Definition exSetItem : RuleSetItem RuleSet := mkRuleSetItem ["geo"%string] [exSet] false false.

Definition exMerged : abstractDefaultRule RuleSet :=
  let d := DomainItem (NewMatcher ["example.org"%string] [] false) in
  mkDefaultRule [] [] [] [d] [] [] [PlainItem d; TheRuleSetItem] (Some exSetItem) false.

Definition exMd : InboundContext := exConnection "example.org" 443.

(** States are destination address 4 and destination port 8. *)
Lemma evaluation_refines_witness :
  let p := matchStatesWithBase exEnv (DefaultRule exMerged) exMd 0 in
  contains p.1 12 = true /\
  (contains p.1 12 = true <-> Produces exEnv (DefaultRule exMerged) false exMd (groups 0) (groups 12)).
Proof.
  split; [vm_compute; reflexivity|].
  refine (proj1 (evaluation_refines exEnv (DefaultRule exMerged) exMd 0 12 _ _));
    unfold isState, fits; lia.
Defined.

(** In the first phase of a DNS query a rule with a destination CIDR condition and its
    inverse both match: possible, not definite. *)
Example deferred_rule_and_inverse :
  let cidr := NewRawIPCIDRItem false [] in
  let r := mkDefaultRule [] [] [] [] [cidr] [] [PlainItem cidr] None false in
  let md := setIgnore exMd true in
  RuleMatch exEnv (DefaultRule r) md = true /\
  RuleMatch exEnv (switchInvert (DefaultRule r)) md = true /\
  definitely exEnv (DefaultRule r) md = false.
Proof. vm_compute. auto. Qed.

Lemma default_rule_formula_witness :
  RuleMatch exEnv (DefaultRule exPlain) exMd = true /\
  RuleMatch exEnv (DefaultRule exPlain) exMd =
  negb (nonempty (allItems exPlain)) ||
  xorb (invert exPlain)
    (forallb (fun item => Match exEnv item exMd) (items exPlain) && groupsHold exEnv exPlain exMd).
Proof.
  split; [vm_compute; reflexivity|].
  exact (default_rule_formula exEnv exPlain exMd eq_refl eq_refl).
Defined.

Lemma logical_rule_formula_witness :
  let rules := [DefaultRule exPlain; DefaultRule exPortRule] in
  RuleMatch exEnv (LogicalRule LogicalTypeAnd rules true) exMd =
  xorb true
    (if String.eqb LogicalTypeAnd LogicalTypeAnd
     then forallb (fun rule => RuleMatch exEnv rule (ResetRuleCache exMd)) rules
     else existsb (fun rule => RuleMatch exEnv rule (ResetRuleCache exMd)) rules).
Proof. exact (logical_rule_formula exEnv LogicalTypeAnd _ true exMd eq_refl). Defined.

Lemma switch_invert_negates_witness :
  definitely exEnv (DefaultRule exMerged) exMd = true /\
  RuleMatch exEnv (switchInvert (DefaultRule exMerged)) exMd =
  negb (definitely exEnv (DefaultRule exMerged) exMd).
Proof.
  split; [vm_compute; reflexivity|].
  exact (proj1 (switch_invert_negates exEnv (DefaultRule exMerged) exMd eq_refl)).
Defined.

Lemma rule_set_merge_formula_witness :
  RuleMatch exEnv (DefaultRule exMerged) exMd = true /\
  (RuleMatch exEnv (DefaultRule exMerged) exMd = true <->
   allItemsMatch exEnv exMerged exMd /\
   exists rs h r', rs ∈ setList exSetItem /\ h ∈ setRules rs /\ conditionRule h r' /\
     allItemsMatch exEnv r' (setContext exSetItem exMd) /\
     mergedHold exEnv exMerged exMd r' (setContext exSetItem exMd)).
Proof.
  split; [vm_compute; reflexivity|].
  refine (rule_set_merge_formula exEnv exMerged exSetItem exMd eq_refl eq_refl eq_refl _).
  intros rs h Hrs Hh. apply list_elem_of_singleton in Hrs. subst rs.
  apply list_elem_of_singleton in Hh. subst h. exists exPortRule. repeat split.
Defined.

Definition exRuleOptions : RawDefaultRule.t :=
  exRouteRule (Some ["example.org"%string]) (Some [80]) (Some ["400:500"%string]) None false.

Definition exBuiltRule : abstractDefaultRule RuleSet * option Action :=
  match NewDefaultRule exRuleOptions (exRouteAction "proxy" false) with
  | Ok r => r
  | Err _ => (exPlain, None)
  end.

Definition exStartContext : StartContext :=
  mkStartContext false (fun _ => None) (fun _ => None).

Lemma built_rule_formula_witness :
  NewDefaultRule exRuleOptions (exRouteAction "proxy" false) = Ok (exBuiltRule.1, exBuiltRule.2) /\
  RuleMatch exEnv (DefaultRule exBuiltRule.1) exMd = true /\
  RuleMatch exEnv (DefaultRule exBuiltRule.1) exMd =
  routeFormula exEnv exStartContext exRuleOptions exMd.
Proof.
  assert (Hb : NewDefaultRule exRuleOptions (exRouteAction "proxy" false)
               = Ok (exBuiltRule.1, exBuiltRule.2)) by (vm_compute; reflexivity).
  assert (Hs : startDefault exStartContext exBuiltRule.1 = Ok exBuiltRule.1)
    by (vm_compute; reflexivity).
  split; [exact Hb|]. split; [vm_compute; reflexivity|].
  exact (built_rule_formula exEnv exStartContext exRuleOptions (exRouteAction "proxy" false) _ _ _
           exMd Hb eq_refl Hs eq_refl eq_refl eq_refl).
Defined.
