(* ===== verification/Sniff.v ===== *)
(** * Sniffing ([common/sniff/sniff.go], [actionSniff] of [route/route.go])

    A sniff action reads from the connection before it is routed, so that a protocol
    and a domain can be found; what it reads is kept in buffers and given back to the
    outbound.  The sniffers are an interface: the router only sees whether one succeeded and
    what it wrote in the metadata ([Sniffers.v], [QuicSniff.v]). *)

From S2P Require Import Prelude Binary Netip Conn Context RuleItem Options RuleActions.

(** The sniffers of [common/sniff], which give no error on success, and [net.isDomainName].  A
    stream is an [io.MultiReader] over the buffers. *)
Class Sniffing := {
  sniffStream : StreamSniffer -> InboundContext -> list bytes -> list SniffFailure * InboundContext;
  sniffPacket : PacketSniffer -> InboundContext -> bytes -> list SniffFailure * InboundContext;
  IsDomainName : string -> bool;
}.

(** The outcome of a sniffer *)
Abbreviation sniff A := (outcome (list SniffFailure) A).

Definition failure (e : error) : list SniffFailure := [mkSniffFailure e false].
Definition ErrInvalid : list SniffFailure := failure "invalid argument".
(** [E.Cause1(ErrNeedMoreData, err)] *)
Definition needMoreData (e : error) : list SniffFailure := [mkSniffFailure "need more data" true; mkSniffFailure e false].

(** A read whose error is returned *)
Definition orReturn {A} (r : result A) : sniff A := match r with Ok a => Returns a | Err e => Fails (failure e) end.

(** [errors.Is(err, ErrNeedMoreData)] *)
Definition isNeedMoreData (err : list SniffFailure) : bool := existsb needsMoreData err.

(** [E.Errors]: the joined errors, each text once ([common.UniqBy]) *)
Fixpoint UniqBy (seen : list string) (errors : list SniffFailure) : list SniffFailure :=
  match errors with
  | [] => []
  | e :: rest =>
      if bool_decide (failureText e ∈ seen) then UniqBy seen rest
      else e :: UniqBy (failureText e :: seen) rest
  end.

Definition Errors (errors : list (list SniffFailure)) : list SniffFailure :=
  UniqBy [] (concat errors).

(** [Skip]: ports of protocols in which the server speaks first *)
Definition Skip (metadata : InboundContext) : bool :=
  bool_decide (Port (Destination metadata) ∈ [25; 465; 587; 143; 993; 110; 995]).

Section sniff.
Context `{Sniffing}.

(** The loop over the stream sniffers: the first that succeeds ends it. *)
Fixpoint tryStream (sniffers : list StreamSniffer) (readers : list bytes) (metadata : InboundContext)
    (sniffError : list SniffFailure) : list SniffFailure * InboundContext :=
  match sniffers with
  | [] => (sniffError, metadata)
  | s :: rest =>
      match sniffStream s metadata readers with
      | ([], metadata) => ([], metadata)
      | (err, metadata) => tryStream rest readers metadata (Errors [sniffError; err])
      end
  end.

(** [buf.UDPBufferSize], the size of the buffers of [buf.NewPacket] in the standard build *)
Definition UDPBufferSize : Z := 16 * 1024.

(** [Buffer.FreeLen] *)
Definition freeLen (buffer : bytes) : nat := Z.to_nat (UDPBufferSize - lenZ buffer).

(** [PeekStream], from its loop on: reads until a sniffer succeeds, none wants more data,
    or a read fails; [i] is the number of reads before.  A read takes what fits into the
    buffer, and one into a full buffer fails and takes nothing. *)
Fixpoint PeekStream (i : nat) (reads : list StreamRead) (buffers : list bytes) (buffer : bytes)
    (sniffError : list SniffFailure) (sniffers : list StreamSniffer) (metadata : InboundContext)
    : list SniffFailure * InboundContext * bytes * list StreamRead :=
  let readFailed e rest :=
    (if (0 <? i)%nat then sniffError
     else [mkSniffFailure ("read payload: " +:+ e)%string false],
     metadata, buffer, rest) in
  match reads with
  | DeadlineFail e :: rest =>
      ([mkSniffFailure ("set read deadline: " +:+ e)%string false], metadata, buffer, rest)
  | _ =>
      if (freeLen buffer =? 0)%nat then readFailed "short buffer"%string reads
      else
        match reads with
        | [] => readFailed "EOF"%string []
        | (ReadFail e | DeadlineFail e) :: rest => readFailed e rest
        | ReadData data :: rest =>
            let room := freeLen buffer in
            let buffer := buffer ++ take room data in
            let '(err, metadata) :=
              tryStream sniffers (buffers ++ [buffer]) metadata [] in
            if (length data <=? room)%nat then
              if isNeedMoreData err then PeekStream (S i) rest buffers buffer err sniffers metadata
              else (err, metadata, buffer, rest)
            else (* the buffer is full: the next read fails *)
              (err, metadata, buffer, ReadData (drop room data) :: rest)
        end
  end.

(** The loop of [PeekPacket], with the errors so far. *)
Fixpoint tryPacket (sniffers : list PacketSniffer) (packet : bytes) (metadata : InboundContext)
    (sniffError : list (list SniffFailure)) : list SniffFailure * InboundContext :=
  match sniffers with
  | [] => (Errors sniffError, metadata)
  | s :: rest =>
      match sniffPacket s metadata packet with
      | ([], metadata) => ([], metadata)
      | (err, metadata) => tryPacket rest packet metadata (sniffError ++ [err])
      end
  end.

Definition PeekPacket (metadata : InboundContext) (packet : bytes) (sniffers : list PacketSniffer)
    : list SniffFailure * InboundContext :=
  tryPacket sniffers packet metadata [].

Definition defaultStreamSniffers : list StreamSniffer :=
  [TLSClientHello; HTTPHost; StreamDomainNameQuery; BitTorrent; SSH; RDP].

Definition defaultPacketSniffers : list PacketSniffer :=
  [DomainNameQuery; QUICClientHello; STUNMessage; UTP; UDPTracker; DTLSRecord; NTP].

(** [metadata.SnifferNames = action.SnifferNames; metadata.SniffError = err] *)
Definition recordSniff (metadata : InboundContext) (action : RuleActionSniff_)
    (err : list SniffFailure) : InboundContext :=
  setSniffError (setSnifferNames metadata (sniffNames action)) err.

(** A successful sniff replaces the destination when the action says so. *)
Definition overrideSniffed (metadata : InboundContext) (action : RuleActionSniff_)
    (err : list SniffFailure) : InboundContext :=
  match err with
  | [] =>
      if OverrideDestination action && IsDomainName (Domain metadata)
      then setDestination metadata
             (mkSocksaddr AddrInvalid (Port (Destination metadata)) (Domain metadata))
      else metadata
  | _ => metadata
  end.

(** The same sniffers failed before, and not for want of data. *)
Definition failedBefore (metadata : InboundContext) (action : RuleActionSniff_) : bool :=
  bool_decide (SnifferNames metadata = sniffNames action)
  && nonempty (SniffError metadata) && negb (isNeedMoreData (SniffError metadata)).

(** The stream branch of [actionSniff]: the new buffer, if it is not empty. *)
Definition actionSniffStream (metadata : InboundContext) (action : RuleActionSniff_)
    (reads : list StreamRead) (inputBuffers : list bytes)
    : option bytes * InboundContext * list StreamRead :=
  if Skip metadata || negb (String.eqb (Protocol metadata) "") then (None, metadata, reads)
  else if negb (nonempty (StreamSniffers action)) && nonempty (PacketSniffers action)
  then (None, metadata, reads)
  else if failedBefore metadata action then (None, metadata, reads)
  else
    let sniffers := if nonempty (StreamSniffers action) then StreamSniffers action
                    else defaultStreamSniffers in
    let '(err, metadata, buffer, reads) :=
      PeekStream 0 reads inputBuffers [] [] sniffers metadata in
    let metadata := overrideSniffed (recordSniff metadata action err) action err in
    (if nonempty buffer then Some buffer else None, metadata, reads).

(** [quicMoreData] *)
Definition quicMoreData (metadata : InboundContext) (action : RuleActionSniff_) : bool :=
  bool_decide (SnifferNames metadata = sniffNames action) && isNeedMoreData (SniffError metadata).

Definition peekOne (metadata : InboundContext) (action : RuleActionSniff_)
    (sniffers : list PacketSniffer) (packet : bytes) : list SniffFailure * InboundContext :=
  let '(err, metadata) :=
    if quicMoreData metadata action then PeekPacket metadata packet [QUICClientHello]
    else PeekPacket metadata packet sniffers in
  (err, recordSniff metadata action err).

(** The loop over the packets read before: [inr] when it ends with [goto finally]. *)
Fixpoint peekBuffered (metadata : InboundContext) (action : RuleActionSniff_)
    (sniffers : list PacketSniffer) (inputs : list Packet)
    : InboundContext + (list SniffFailure * InboundContext) :=
  match inputs with
  | [] => inl metadata
  | p :: rest =>
      let '(err, metadata) := peekOne metadata action sniffers (packetData p) in
      if isNeedMoreData err then peekBuffered metadata action sniffers rest
      else inr (err, metadata)
  end.

(** The loop that reads new packets, each into a buffer of its own; the result is [packetBuffers], the error of the last
    step, the metadata and the reads left, or the fatal error. *)
Fixpoint peekNew (reads : list PacketRead) (metadata : InboundContext) (action : RuleActionSniff_)
    (sniffers : list PacketSniffer) (packetBuffers : list Packet)
    : list Packet * result (list SniffFailure * InboundContext) * list PacketRead :=
  match reads with
  | [] => (packetBuffers, Err "EOF"%string, [])
  | ContextDone :: rest => (packetBuffers, Err "context canceled"%string, rest)
  | ReadError e :: rest => (packetBuffers, Err e, rest)
  | ReadTimeout :: rest => (packetBuffers, Ok ([mkSniffFailure "i/o timeout" false], metadata), rest)
  | ReadPacket p :: rest =>
      let p := truncatePacket (Z.to_nat UDPBufferSize) p in
      let '(err, metadata) := peekOne metadata action sniffers (packetData p) in
      let packetBuffers := packetBuffers ++ [p] in
      if isNeedMoreData err then peekNew rest metadata action sniffers packetBuffers
      else (packetBuffers, Ok (err, metadata), rest)
  end.

(** The packet branch of [actionSniff]: the packets it returns, the metadata or the fatal
    error, and the reads left. *)
Definition actionSniffPacket (metadata : InboundContext) (action : RuleActionSniff_)
    (reads : list PacketRead) (inputPacketBuffers : list Packet)
    : list Packet * result InboundContext * list PacketRead :=
  if Skip metadata || negb (String.eqb (Protocol metadata) "") then ([], Ok metadata, reads)
  else if negb (nonempty (PacketSniffers action)) && nonempty (StreamSniffers action)
  then ([], Ok metadata, reads)
  else if failedBefore metadata action then ([], Ok metadata, reads)
  else
    let sniffers := if nonempty (PacketSniffers action) then PacketSniffers action
                    else defaultPacketSniffers in
    match peekBuffered metadata action sniffers inputPacketBuffers with
    | inr (err, metadata) => ([], Ok (overrideSniffed metadata action err), reads)
    | inl metadata =>
        match peekNew reads metadata action sniffers inputPacketBuffers with
        | (packets, Ok (err, metadata), reads) =>
            (packets, Ok (overrideSniffed metadata action err), reads)
        | (packets, Err e, reads) => (packets, Err e, reads)
        end
    end.
End sniff.
