(* ===== verification/Router.v ===== *)
(** * The router ([route/route.go], [route/process_cache.go])

    [matchRule] walks through the rules of the configuration: rules with sniff, resolve
    and route-options actions change the metadata or the buffers and the walk goes on, a
    rule with a final action is selected.  [routeConnection] and [routePacketConnection]
    turn the selected rule into an outbound, an error or a DNS hijack. *)

From S2P Require Import Prelude Binary MatchState Netip Conn Context RuleItem Options RuleActions.
From S2P Require Import RuleAbstract RuleBuild Sniff.

Definition NetworkTCP : string := "tcp".
Definition NetworkUDP : string := "udp".
Definition NetworkICMP : string := "icmp".

(** An outbound as the router sees it; the last field tells whether it implements
    [adapter.DirectRouteOutbound]. *)
Record OutboundInfo := mkOutboundInfo {
  outboundTag : string;
  outboundNetworks : list string;
  outboundDirectRoute : bool;
}.

(** [adapter.DNSQueryOptions] as [actionResolve] fills it. *)
Record ResolveQuery := mkResolveQuery {
  queryServer : option string;
  queryStrategy : Z;
  queryDisableCache : bool;
  queryRewriteTTL : option Z;
  queryClientSubnet : Prefix;
}.

(** The components the router calls. *)
Record RouterWorld := mkRouterWorld {
  (** [processSearcher]: nil, or the cached search by network, source and destination *)
  processSearcher : option (string -> Socksaddr -> Socksaddr -> result ConnectionOwner);
  MyInterfaceAddress : list Addr;
  (** the FakeIP store: [Contains] and [Lookup] *)
  fakeIPStore : option ((Addr -> bool) * (Addr -> option string));
  LookupReverseMapping : Addr -> option string;
  dnsTransportExists : string -> bool;
  dnsLookup : InboundContext -> string -> ResolveQuery -> result (list Addr);
  outboundByTag : string -> option OutboundInfo;
  defaultOutbound : OutboundInfo;
  (** the inbounds by tag, and whether they accept injected connections *)
  inboundInjectable : string -> option bool;
  (** [mux.Destination.Fqdn] and [vmess.MuxDestination.Fqdn] of their packages *)
  muxDestinationFqdn : string;
  vmessMuxFqdn : string;
}.

(** Where a connection goes: to an outbound, [None] standing for a nil one; to the DNS
    router; to another inbound; or it is rejected with the error of the action. *)
Inductive Routed (C : Type) :=
  | ToOutbound (outbound : option OutboundInfo) (metadata : InboundContext) (conn : C)
  | ToDNS (metadata : InboundContext) (conn : C)
  | ToInbound (tag : string) (metadata : InboundContext)
  | Rejected (method : string) (noDrop : bool).
Arguments ToOutbound {C}.
Arguments ToDNS {C}.
Arguments ToInbound {C}.
Arguments Rejected {C}.

Section router.
Context `{External} `{DomainMatching} `{DirectDialer} `{Sniffing}.
Context (env : Env) (world : RouterWorld).

(** ** Preparation *)

Definition isLocalSource (source : Addr) : bool :=
  netip.IsLoopback source || bool_decide (source ∈ MyInterfaceAddress world)
  || existsb (fun i => existsb (fun p => bool_decide (paddr p = source)) (ifAddresses i))
       (InterfaceFinder_Interfaces env).

Definition searchProcessInfo (metadata : InboundContext) : InboundContext :=
  match processSearcher world, ProcessInfo metadata with
  | Some find, None =>
      if negb (isLocalSource (Addr_ (Source metadata))) then metadata
      else
        let originDestination :=
          if socksaddr.IsValid (OriginDestination metadata) then OriginDestination metadata
          else if socksaddr.IsIP (Destination metadata) then Destination metadata
          else socksaddr.zero in
        match find (Network metadata) (Source metadata) originDestination with
        | Ok info => setProcessInfo metadata (Some info)
        | Err _ => metadata
        end
  | _, _ => metadata
  end.

(** The domain of a FakeIP destination, or of the reverse mapping. *)
Definition restoreDomain (metadata : InboundContext) : result InboundContext :=
  let reverse :=
    if String.eqb (Domain metadata) "" then
      match LookupReverseMapping world (Addr_ (Destination metadata)) with
      | Some domain => setDomain metadata domain
      | None => metadata
      end
    else metadata in
  match fakeIPStore world with
  | Some (storeContains, storeLookup) =>
      if netip.IsValid (Addr_ (Destination metadata))
         && storeContains (Addr_ (Destination metadata))
      then
        match storeLookup (Addr_ (Destination metadata)) with
        | None => Err "missing fakeip record, try enable `experimental.cache_file`"%string
        | Some domain =>
            if String.eqb domain "" then Ok metadata
            else
              let md := setOriginDestination metadata (Destination metadata) in
              let md := setDestination md
                          (mkSocksaddr AddrInvalid (Port (Destination metadata)) domain) in
              Ok (setFakeIP md true)
        end
      else Ok reverse
  | None => Ok reverse
  end.

Definition detectIPVersion (metadata : InboundContext) : InboundContext :=
  if socksaddr.IsIPv4 (Destination metadata) then setIPVersion metadata 4
  else if socksaddr.IsIPv6 (Destination metadata) then setIPVersion metadata 6
  else metadata.

(** ** Route options *)

Definition overrideDialing (o : RouteOptions.t) (d : DialingOptions) : DialingOptions :=
  mkDialingOptions
    (UDPDisableDomainUnmapping d || RouteOptions.UDPDisableDomainUnmapping o)
    (UDPConnect d || RouteOptions.UDPConnect o)
    (if 0 <? RouteOptions.UDPTimeout o then RouteOptions.UDPTimeout o else UDPTimeout d)
    (TLSFragment d || RouteOptions.TLSFragment o)
    (if RouteOptions.TLSFragment o then RouteOptions.TLSFragmentFallbackDelay o
     else TLSFragmentFallbackDelay d)
    (TLSRecordFragment d || RouteOptions.TLSRecordFragment o)
    (match RouteOptions.NetworkStrategy o with
     | Some s => Some s | None => NetworkStrategy d end)
    (if nonempty (RouteOptions.NetworkType o) then RouteOptions.NetworkType o else NetworkType d)
    (if nonempty (RouteOptions.FallbackNetworkType o) then RouteOptions.FallbackNetworkType o
     else FallbackNetworkType d)
    (if negb (RouteOptions.FallbackDelay o =? 0) then RouteOptions.FallbackDelay o
     else FallbackDelay d).

(** The block [if routeOptions != nil] of [matchRule] *)
Definition applyRouteOptions (o : RouteOptions.t) (metadata : InboundContext) : InboundContext :=
  let address := RouteOptions.OverrideAddress o in
  let md :=
    if (socksaddr.IsValid address || (0 <? RouteOptions.OverridePort o))
       && negb (socksaddr.IsValid (RouteOriginalDestination metadata))
    then setRouteOriginalDestination metadata (Destination metadata) else metadata in
  let md :=
    if socksaddr.IsValid address then
      setDestinationAddresses
        (setDestination md (mkSocksaddr (Addr_ address) (Port (Destination md)) (Fqdn address))) []
    else md in
  let md :=
    if 0 <? RouteOptions.OverridePort o then
      setDestination md
        (mkSocksaddr (Addr_ (Destination md)) (RouteOptions.OverridePort o) (Fqdn (Destination md)))
    else md in
  let md :=
    if negb (String.eqb (RouteOptions.OverrideTunnelDestination o) "")
    then setTunnelDestination md (RouteOptions.OverrideTunnelDestination o) else md in
  setDialing md (overrideDialing o (Dialing md)).

(** [actionResolve] *)
Definition actionResolve (metadata : InboundContext) (a : RuleActionResolve_)
    : result InboundContext :=
  if socksaddr.IsDomain (Destination metadata) then
    if negb (String.eqb (resolveServer a) "") && negb (dnsTransportExists world (resolveServer a))
    then Err ("DNS server not found: " +:+ resolveServer a)%string
    else
      addresses ← dnsLookup world metadata (Fqdn (Destination metadata))
        (mkResolveQuery
           (if String.eqb (resolveServer a) "" then None else Some (resolveServer a))
           (resolveStrategy a) (resolveDisableCache a) (resolveRewriteTTL a)
           (resolveClientSubnet a));
      Ok (setDestinationAddresses metadata addresses)
  else Ok metadata.

(** ** Walking through the rules *)

(** The connection being routed: a stream, a packet connection, or neither (pre-match). *)
Inductive Input :=
  | InputStream (reads : list StreamRead)
  | InputPackets (reads : list PacketRead)
  | NoInput.

(** The variables of the loop. *)
Record Walk := mkWalk {
  walkMetadata : InboundContext;
  walkBuffers : list bytes;
  walkPackets : list Packet;
  walkInput : Input;
}.

Definition setWalkMetadata (w : Walk) (md : InboundContext) : Walk :=
  mkWalk md (walkBuffers w) (walkPackets w) (walkInput w).

(** A sniff action outside of pre-match. *)
Definition walkSniff (w : Walk) (a : RuleActionSniff_) : result Walk :=
  match walkInput w with
  | InputStream reads =>
      let '(newBuffer, md, reads) :=
        actionSniffStream (walkMetadata w) a reads (walkBuffers w) in
      Ok (mkWalk md (walkBuffers w ++ option_list newBuffer) (walkPackets w) (InputStream reads))
  | InputPackets reads =>
      let '(newPackets, r, reads) :=
        actionSniffPacket (walkMetadata w) a reads (walkPackets w) in
      md ← r;
      Ok (mkWalk md (walkBuffers w) (walkPackets w ++ newPackets) (InputPackets reads))
  | NoInput => Ok w
  end.

(** What a matching rule does: the walk ends with it, or goes on. *)
Inductive Step := Selected (w : Walk) | Continue (w : Walk).

Definition stepRule (preMatch supportBypass : bool) (action : Action) (w : Walk) : result Step :=
  let w :=
    match action with
    | RuleActionRoute _ o | RuleActionRouteOptions o =>
        setWalkMetadata w (applyRouteOptions o (walkMetadata w))
    | _ => w
    end in
  match action with
  | RuleActionSniff a =>
      if negb preMatch then w' ← walkSniff w a; Ok (Continue w')
      else if negb (String.eqb (Network (walkMetadata w)) NetworkICMP) then Ok (Selected w)
      else Ok (Continue w)
  | RuleActionResolve a =>
      md ← actionResolve (walkMetadata w) a; Ok (Continue (setWalkMetadata w md))
  | _ =>
      let actionType := ActionType action in
      if String.eqb actionType RuleActionTypeRoute || String.eqb actionType RuleActionTypeReject
         || String.eqb actionType RuleActionTypeHijackDNS
      then Ok (Selected w)
      else
        match action with
        | RuleActionBypass outbound _ =>
            if negb supportBypass && String.eqb outbound "" then Ok (Continue w)
            else Ok (Selected w)
        | _ => Ok (Continue w)
        end
  end.

(** The loop: the index and action of the selected rule, and the walk at its end. *)
Fixpoint walkRules (preMatch supportBypass : bool) (index : nat) (rules : list BuiltRule) (w : Walk)
    : result (option (nat * Action) * Walk) :=
  match rules with
  | [] => Ok (None, w)
  | rule :: rest =>
      let md := ResetRuleCache (walkMetadata w) in
      let '(matched, md) :=
        (negb (isEmpty (matchStates env (builtRule rule) md).1),
         (matchStates env (builtRule rule) md).2) in
      let w := setWalkMetadata w md in
      if negb matched then walkRules preMatch supportBypass (S index) rest w
      else
        match builtAction rule with
        | None => panic "nil rule action"%string
        | Some action =>
            s ← stepRule preMatch supportBypass action w;
            match s with
            | Selected w => Ok (Some (index, action), w)
            | Continue w => walkRules preMatch supportBypass (S index) rest w
            end
        end
  end.

Definition matchRule (rules : list BuiltRule) (preMatch supportBypass : bool)
    (metadata : InboundContext) (input : Input) : result (option (nat * Action) * Walk) :=
  md ← restoreDomain (searchProcessInfo metadata);
  walkRules preMatch supportBypass 0 rules (mkWalk (detectIPVersion md) [] [] input).

(** ** Dispatch *)

(** The detour of an inbound, the same for both kinds of connections but the kind. *)
Definition injectDetour {C} (kind : string) (metadata : InboundContext) : option (result (Routed C)) :=
  let detour := InboundDetour metadata in
  if String.eqb detour "" then None
  else Some
    (if String.eqb (LastInbound metadata) detour
     then Err ("routing loop on detour: " +:+ detour)%string
     else
       match inboundInjectable world detour with
       | None => Err ("inbound detour not found: " +:+ detour)%string
       | Some false => Err ("inbound detour is not " +:+ kind +:+ " injectable: " +:+ detour)%string
       | Some true =>
           Ok (ToInbound detour
             (setInboundDetour
                (setInbound (setLastInbound metadata (Inbound metadata)) detour) ""))
       end).

(** [uot.MagicAddress] and [uot.LegacyMagicAddress] *)
Definition uotMagicAddress : string := "sp.v2.udp-over-tcp.arpa".
Definition uotLegacyMagicAddress : string := "sp.udp-over-tcp.arpa".

(** Destinations of protocols that only inbounds handle. *)
Definition refuseMagic (fqdn : string) : option error :=
  if String.eqb fqdn (muxDestinationFqdn world) then
    Some "global multiplex is deprecated since sing-box v1.7.0, enable multiplex in Inbound fields instead."%string
  else if String.eqb fqdn (vmessMuxFqdn world) then
    Some "global multiplex (v2ray legacy) not supported since sing-box v1.7.0."%string
  else if String.eqb fqdn uotMagicAddress then
    Some "global UoT not supported since sing-box v1.7.0."%string
  else if String.eqb fqdn uotLegacyMagicAddress then
    Some "global UoT (legacy) not supported since sing-box v1.7.0."%string
  else None.

(** The outbound of an action that names one. *)
Definition findOutbound (kind network tag : string) : result OutboundInfo :=
  match outboundByTag world tag with
  | None => Err ("outbound not found: " +:+ tag)%string
  | Some o =>
      if bool_decide (network ∈ outboundNetworks o) then Ok o
      else Err (kind +:+ " is not supported by outbound: " +:+ outboundTag o)%string
  end.

Definition chooseDefault (network message : string) : result OutboundInfo :=
  if bool_decide (network ∈ outboundNetworks (defaultOutbound world)) then Ok (defaultOutbound world)
  else Err (message +:+ outboundTag (defaultOutbound world))%string.

(** From the selected rule to the destination. *)
Definition dispatch {C} (kind network defaultMessage : string) (selected : option Action)
    (metadata : InboundContext) (conn hijacked : C) : result (Routed C) :=
  match selected with
  | Some (RuleActionRoute tag _) =>
      o ← findOutbound kind network tag; Ok (ToOutbound (Some o) metadata conn)
  | Some (RuleActionBypass tag _) =>
      if String.eqb tag "" then Ok (ToOutbound None metadata conn)
      else o ← findOutbound kind network tag; Ok (ToOutbound (Some o) metadata conn)
  | Some (RuleActionReject method noDrop) =>
      if String.eqb method RejectMethodReply
      then Err ("reject method `reply` is not supported for " +:+ kind +:+ " connections")%string
      else Ok (Rejected method noDrop)
  | Some RuleActionHijackDNS => Ok (ToDNS metadata hijacked)
  | Some _ => Ok (ToOutbound None metadata conn)
  | None => o ← chooseDefault network defaultMessage; Ok (ToOutbound (Some o) metadata conn)
  end.

Definition walkReads (w : Walk) : list StreamRead :=
  match walkInput w with InputStream reads => reads | _ => [] end.

Definition walkPacketReads (w : Walk) : list PacketRead :=
  match walkInput w with InputPackets reads => reads | _ => [] end.

Definition routeConnection (rules : list BuiltRule) (conn : list StreamRead)
    (metadata : InboundContext) : result (Routed Conn) :=
  match injectDetour "TCP" metadata with
  | Some r => r
  | None =>
      let metadata := setNetwork metadata NetworkTCP in
      match refuseMagic (Fqdn (Destination metadata)) with
      | Some e => Err e
      | None =>
          p ← matchRule rules false false metadata (InputStream conn);
          let '(selected, w) := p in
          let conn := foldl NewCachedConn (StreamConn (walkReads w)) (walkBuffers w) in
          dispatch "TCP" NetworkTCP "TCP is not supported by default outbound: "
            (snd <$> selected) (walkMetadata w) conn conn
      end
  end.

(** A hijacked packet connection hands the buffered packets over in order; for an outbound
    the packets to a fake address are translated to the destination it stands for. *)
Definition routePacketConnection (rules : list BuiltRule) (conn : list PacketRead)
    (metadata : InboundContext) : result (Routed PacketConn) :=
  match injectDetour "UDP" metadata with
  | Some r => r
  | None =>
      let metadata := setNetwork metadata NetworkUDP in
      p ← matchRule rules false false metadata (InputPackets conn);
      let '(selected, w) := p in
      let md := walkMetadata w in
      let conn := foldl NewCachedPacketConn (RawPacketConn (walkPacketReads w)) (walkPackets w) in
      dispatch "UDP" NetworkUDP "UDP is not supported by outbound: "
        (snd <$> selected) md
        (if FakeIP md then NewNATPacketConn conn (OriginDestination md) (Destination md) else conn)
        (RawPacketConn ((ReadPacket <$> walkPackets w) ++ walkPacketReads w))
  end.

(** ** Pre-match *)

(** What [PreMatch] answers: nothing to do, an error of the reject action or of a bypass,
    or a direct route over an outbound; [rewritten] is the address that replaces the
    domain of the destination. *)
Inductive PreMatched :=
  | PreNothing
  | PreRejected (method : string) (noDrop : bool)
  | PreBypassed
  | PreRoute (outbound : OutboundInfo) (metadata : InboundContext) (rewritten : option Addr).

(** The type assertion to [adapter.DirectRouteOutbound] panics on other outbounds. *)
Definition directRoute (o : OutboundInfo) : result OutboundInfo :=
  if outboundDirectRoute o then Ok o else panic "interface conversion"%string.

Definition preOutbound (network tag : string) : result OutboundInfo :=
  match outboundByTag world tag with
  | None => Err ("outbound not found: " +:+ tag)%string
  | Some o =>
      if bool_decide (network ∈ outboundNetworks o) then directRoute o
      else Err (network +:+ " is not supported by outbound: " +:+ tag)%string
  end.

(** The end of [PreMatch]: a domain is resolved to an address of the source's family. *)
Definition preRoute (o : OutboundInfo) (metadata : InboundContext) : result PreMatched :=
  if socksaddr.IsDomain (Destination metadata) then
    let v4 := socksaddr.IsIPv4 (Source metadata) in
    md ← (match DestinationAddresses metadata with
          | [] => actionResolve metadata
                    (mkResolve "" (if v4 then DomainStrategyIPv4Only else DomainStrategyIPv6Only)
                       false None prefix.zero)
          | _ => Ok metadata
          end);
    match List.find (if v4 then netip.Is4 else netip.Is6) (DestinationAddresses md) with
    | None =>
        Err ((if v4 then "no IPv4 address found for domain: "
              else "no IPv6 address found for domain: ") +:+ Fqdn (Destination md))%string
    | Some newDestination =>
        Ok (PreRoute o (setDestination md (mkSocksaddr newDestination 0 "")) (Some newDestination))
    end
  else Ok (PreRoute o metadata None).

Definition PreMatch (rules : list BuiltRule) (metadata : InboundContext)
    (hasContext supportBypass : bool) : result PreMatched :=
  p ← matchRule rules true supportBypass metadata NoInput;
  let '(selected, w) := p in
  let md := walkMetadata w in
  let toOutbound tag :=
    if negb hasContext then Ok PreNothing
    else o ← preOutbound (Network md) tag; preRoute o md in
  match snd <$> selected with
  | Some (RuleActionReject method noDrop) =>
      if String.eqb (Network md) NetworkTCP && String.eqb method RejectMethodReply
      then Err "reject method `reply` is not supported for TCP connections"%string
      else if String.eqb (Network md) NetworkUDP && String.eqb method RejectMethodReply
      then Err "reject method `reply` is not supported for UDP connections"%string
      else Ok (PreRejected method noDrop)
  | Some (RuleActionBypass tag _) => if supportBypass then Ok PreBypassed else toOutbound tag
  | Some (RuleActionRoute tag _) => toOutbound tag
  | Some _ => Ok PreNothing
  | None =>
      if negb (String.eqb (Network md) NetworkICMP) then Ok PreNothing
      else
        let o := defaultOutbound world in
        if bool_decide (Network md ∈ outboundNetworks o) then
          o ← directRoute o; preRoute o md
        else Err (Network md +:+ " is not supported by default outbound: " +:+ outboundTag o)%string
  end.
End router.
