(* ===== verification/RouterSpec.v ===== *)
(** * Properties of the router

    What routing does to the payload that was read while sniffing, which outbound a
    connection can reach, and which rule is selected. *)

From S2P Require Import Prelude Binary MatchState Netip Conn Context RuleItem Options RuleActions Concrete.
From S2P Require Import RuleAbstract RuleSemantics RuleBuild Sniff Router.

(** ** Payload *)

Section payload.
Context `{Sniffing}.

(** Sniffing a stream keeps every byte: the buffer holds what was taken. *)
Lemma PeekStream_data i reads buffers buffer e sniffers md :
  let '(_, _, buffer', reads') := PeekStream i reads buffers buffer e sniffers md in
  buffer' ++ streamData reads' = buffer ++ streamData reads.
Proof.
  revert i buffer e md. induction reads as [|r reads IH]; intros i buffer e md;
    cbn [PeekStream]; [by destruct (_ =? _)%nat|].
  destruct r as [data|err|err]; [|by destruct (_ =? _)%nat|done].
  destruct (_ =? _)%nat; [done|]. destruct (tryStream _ _ _ _) as [err md'].
  destruct (Nat.leb_spec (length data) (freeLen buffer)) as [Hl|Hl].
  - rewrite take_ge by done. destruct (isNeedMoreData err).
    + specialize (IH (S i) (buffer ++ data) err md').
      destruct (PeekStream _ _ _ _ _ _ _) as [[[? ?] ?] ?]. rewrite IH. simpl.
      by rewrite (assoc_L (++)).
    + simpl. by rewrite (assoc_L (++)).
  - simpl. by rewrite <- (assoc_L (++)), (assoc_L (++) (take _ _)), take_drop.
Qed.

Lemma actionSniffStream_data md a reads buffers :
  let '(new, _, reads') := actionSniffStream md a reads buffers in
  default [] new ++ streamData reads' = streamData reads.
Proof.
  unfold actionSniffStream. destruct (_ || _); [done|]. destruct (_ && _); [done|].
  destruct (failedBefore md a); [done|].
  pose proof (PeekStream_data 0 reads buffers [] []
    (if nonempty (StreamSniffers a) then StreamSniffers a else defaultStreamSniffers) md) as Hd.
  destruct (PeekStream _ _ _ _ _ _ _) as [[[err md'] buffer] reads'].
  destruct buffer; simpl in Hd |- *; done.
Qed.

(** A packet as sniffing buffers it: cut to the size of the buffer. *)
Definition sniffedPacket : Packet -> Packet := truncatePacket (Z.to_nat UDPBufferSize).

(** The packets read while sniffing are those taken from the connection. *)
Lemma peekNew_packets reads md a sniffers bufs :
  let '(ps, _, reads') := peekNew reads md a sniffers bufs in
  exists taken, ps = bufs ++ (sniffedPacket <$> taken) /\
    packetsOf reads = taken ++ packetsOf reads'.
Proof.
  revert md bufs. induction reads as [|r reads IH]; intros md bufs; cbn [peekNew].
  { exists []. simpl. by rewrite (right_id_L [] (++)). }
  destruct r as [p| | |]; try (exists []; simpl; by rewrite (right_id_L [] (++))).
  destruct (peekOne md a sniffers _) as [err md']. destruct (isNeedMoreData err).
  - specialize (IH md' (bufs ++ [sniffedPacket p])). fold (sniffedPacket p).
    destruct (peekNew _ _ _ _ _) as [[? ?] ?]. destruct IH as (taken & -> & E).
    exists (p :: taken). split; [by rewrite <- (assoc_L (++))|]. simpl. by rewrite E.
  - by exists [p].
Qed.

(** A sniff action returns either nothing, with no packet read, or the packets buffered
    before followed by those it read. *)
Lemma actionSniffPacket_packets md a reads inputs :
  let '(ps, _, reads') := actionSniffPacket md a reads inputs in
  (ps = [] /\ packetsOf reads' = packetsOf reads) \/
  exists taken, ps = inputs ++ (sniffedPacket <$> taken) /\
    packetsOf reads = taken ++ packetsOf reads'.
Proof.
  unfold actionSniffPacket. destruct (_ || _); [auto|]. destruct (_ && _); [auto|].
  destruct (failedBefore md a); [auto|]. cbv zeta.
  destruct (peekBuffered _ _ _ _) as [md'|[err md']]; [|auto].
  pose proof (peekNew_packets reads md' a
    (if nonempty (PacketSniffers a) then PacketSniffers a else defaultPacketSniffers) inputs) as Hp.
  destruct (peekNew _ _ _ _ _) as [[ps [[err md'']|e]] reads']; by right.
Qed.
End payload.

Section walk.
Context `{External} `{DomainMatching} `{DirectDialer} `{Sniffing}.
Context (env : Env) (world : RouterWorld).

(** The payload of a walk: what was buffered, in order, and what is left to read. *)
Definition walkData (w : Walk) : bytes := concat (walkBuffers w) ++ streamData (walkReads w).

Definition isSniff (rule : BuiltRule) : bool :=
  match builtAction rule with Some (RuleActionSniff _) => true | _ => false end.

Definition isStream (w : Walk) : Prop := exists reads, walkInput w = InputStream reads.

Lemma walkSniff_stream w a w' :
  isStream w -> walkSniff w a = Ok w' ->
  isStream w' /\ walkData w' = walkData w /\ (length (walkBuffers w') <= S (length (walkBuffers w)))%nat.
Proof.
  intros [reads Hin] Hw. unfold walkSniff in Hw. rewrite Hin in Hw.
  pose proof (actionSniffStream_data (walkMetadata w) a reads (walkBuffers w)) as Hd.
  destruct (actionSniffStream _ _ _ _) as [[new md] reads']. injection Hw as <-.
  unfold walkData, walkReads. rewrite Hin. simpl. split; [by eexists|].
  rewrite concat_app, <- (assoc_L (++)), length_app, <- Hd. split; [|destruct new; simpl; lia].
  do 2 f_equal. destruct new as [b|]; simpl; by rewrite ?(right_id_L [] (++)).
Qed.

(** A step of the walk keeps the payload, and only a sniff adds a buffer. *)
Lemma stepRule_stream pre sup action w s :
  isStream w -> stepRule world pre sup action w = Ok s ->
  let w' := match s with Selected w' | Continue w' => w' end in
  isStream w' /\ walkData w' = walkData w /\
  (length (walkBuffers w') <= length (walkBuffers w)
     + match action with RuleActionSniff _ => 1 | _ => 0 end)%nat.
Proof.
  intros Hs. unfold stepRule.
  destruct action; simpl; try (intros [= <-]; simpl; split_and!; try done; try lia).
  - destruct (negb sup && _); intros [= <-]; simpl; split_and!; try done; lia.
  - destruct (negb pre).
    + intros (w' & Hw & [= <-])%bind_ok. apply walkSniff_stream in Hw as (? & ? & ?); [|done].
      split_and!; try done. lia.
    + destruct (negb _); intros [= <-]; simpl; split_and!; try done; lia.
  - intros (md & _ & [= <-])%bind_ok. simpl. split_and!; try done. lia.
Qed.

Lemma walkRules_stream pre sup rules : forall i w sel w',
  isStream w -> walkRules env world pre sup i rules w = Ok (sel, w') ->
  isStream w' /\ walkData w' = walkData w /\
  (length (walkBuffers w') <= length (walkBuffers w) + length (List.filter isSniff rules))%nat.
Proof.
  induction rules as [|rule rules IH]; intros i w sel w' Hs; cbn [walkRules].
  - intros [= _ <-]. split_and!; try done. simpl. lia.
  - set (w1 := setWalkMetadata w _).
    assert (isStream w1 /\ walkData w1 = walkData w /\ walkBuffers w1 = walkBuffers w) as (Hs1 & E1 & B1)
      by done.
    destruct (negb (negb _)).
    + intros Hw. apply IH in Hw as (? & -> & Hl); [|done]. rewrite E1, B1 in *. split_and!; try done.
      simpl. destruct (isSniff rule); simpl; lia.
    + destruct (builtAction rule) as [action|] eqn:Ea; [|done].
      intros (s & Hstep & Hrest)%bind_ok.
      apply stepRule_stream in Hstep as (Hs2 & E2 & L2); [|done].
      simpl List.filter. unfold isSniff at 1. rewrite Ea.
      destruct s as [w2|w2].
      * injection Hrest as <- <-. rewrite E2. split_and!; try done. rewrite B1 in L2.
        destruct action; simpl; lia.
      * apply IH in Hrest as (? & -> & Hl); [|done]. rewrite E2. split_and!; try done.
        rewrite B1 in L2. destruct action; simpl; lia.
Qed.
End walk.

(** ** The stream an outbound receives *)
Section stream.
Context `{External} `{DomainMatching} `{DirectDialer} `{Sniffing}.
Context (env : Env) (world : RouterWorld).

(** The connection handed over, if any. *)
Definition routedConn {C} (r : Routed C) : option C :=
  match r with
  | ToOutbound _ _ conn | ToDNS _ conn => Some conn
  | ToInbound _ _ | Rejected _ _ => None
  end.

(** Wrapping the buffers one after the other puts the last one first. *)
Lemma cached_data buffers conn :
  connData (foldl NewCachedConn conn buffers) = concat (reverse buffers) ++ connData conn.
Proof.
  revert conn. induction buffers as [|b buffers IH]; intros conn; cbn [foldl]; [done|].
  rewrite IH, reverse_cons, concat_app. simpl.
  by rewrite (right_id_L [] (++)), <- (assoc_L (++)).
Qed.

Lemma dispatch_conn {C} kind network msg selected md (conn hijacked r : C) res :
  dispatch world kind network msg selected md conn hijacked = Ok res ->
  routedConn res = Some r ->
  (exists o, res = ToOutbound o md conn /\ r = conn) \/ (res = ToDNS md hijacked /\ r = hijacked).
Proof.
  unfold dispatch. intros Hd Hr.
  destruct selected as [[]|]; repeat case_match; ok_inv; simpl in *; simplify_eq; eauto.
Qed.

Lemma injectDetour_conn {C} kind md (res : Routed C) :
  injectDetour world kind md = Some (Ok res) -> routedConn res = None.
Proof. unfold injectDetour. intros Hd. repeat case_match; by simplify_eq. Qed.

Lemma matchRule_stream rules pre sup md conn sel w :
  matchRule env world rules pre sup md (InputStream conn) = Ok (sel, w) ->
  walkData w = streamData conn /\ (length (walkBuffers w) <= length (List.filter isSniff rules))%nat.
Proof.
  intros (md' & _ & Hw)%bind_ok.
  apply walkRules_stream in Hw as (_ & -> & Hl); [|by eexists]. done.
Qed.

(** What is handed over, in terms of the buffers. *)
Lemma routeConnection_conn rules conn md res conn' :
  routeConnection env world rules conn md = Ok res -> routedConn res = Some conn' ->
  exists buffers rest,
    streamData conn = concat buffers ++ rest /\ connData conn' = concat (reverse buffers) ++ rest /\
    (length buffers <= length (List.filter isSniff rules))%nat.
Proof.
  unfold routeConnection. intros Hr Hc.
  destruct (injectDetour world "TCP" md) as [r|] eqn:Ed.
  { subst r. apply injectDetour_conn in Ed. congruence. }
  destruct (refuseMagic _ _); [done|].
  apply bind_ok in Hr as ([sel w] & Hm & Hd). assert (conn' = foldl NewCachedConn (StreamConn (walkReads w)) (walkBuffers w)) as ->
    by (by destruct (dispatch_conn _ _ _ _ _ _ _ _ _ Hd Hc) as [(o & _ & ->)|[_ ->]]).
  apply matchRule_stream in Hm as [Hdata Hl]. exists (walkBuffers w), (streamData (walkReads w)).
  by rewrite cached_data.
Qed.

(** C5. Routing keeps the payload: with at most one sniff rule, whatever the sniffers read
    before the connection was routed, the outbound or the DNS router receives exactly
    the bytes the client sent; reading from it, in whatever sizes, gives them in order,
    none lost and none twice. *)
Theorem sniffed_stream_preserved rules conn md res conn' :
  (length (List.filter isSniff rules) <= 1)%nat ->
  routeConnection env world rules conn md = Ok res -> routedConn res = Some conn' ->
  connData conn' = streamData conn /\
  forall sizes, (Conn_Reads conn' sizes).1 ++ connData (Conn_Reads conn' sizes).2 = streamData conn.
Proof.
  intros Hl Hr Hc.
  assert (Hd : connData conn' = streamData conn).
  { destruct (routeConnection_conn _ _ _ _ _ Hr Hc) as (bs & rest & -> & -> & Hb).
    destruct bs as [|b [|b' bs]]; [done|done|]. simpl in Hb. lia. }
  split; [done|]. intros sizes. by rewrite Conn_Reads_data.
Qed.
End stream.

(** ** The outbound *)
Section outbound.
Context `{External} `{DomainMatching} `{DirectDialer} `{Sniffing}.
Context (env : Env) (world : RouterWorld).

(** The action of a route rule is never one of the DNS actions. *)
Definition routeAction (a : Action) : bool :=
  match a with
  | RuleActionDNSRoute _ _ | RuleActionDNSRouteOptions _ | RuleActionPredefined _ => false
  | _ => true
  end.

Lemma NewRuleAction_route a act : NewRuleAction a = Ok (Some act) -> routeAction act = true.
Proof.
  unfold NewRuleAction. intros Ha.
  repeat match type of Ha with
  | (if ?b then _ else _) = _ => destruct b
  | mbind _ _ = _ => apply bind_ok in Ha as (? & _ & Ha)
  end; try discriminate Ha; by injection Ha as <-.
Qed.

(** The same induction as [newRule_ind], for the action. *)
Lemma newRule_action {D A} zD zA e u (newDefault : D -> A -> result BuiltRule) newAction target miss
    (P : option Action -> Prop) :
  (forall d a b, newDefault d a = Ok b -> P (builtAction b)) ->
  (forall a act, newAction a = Ok act -> P act) ->
  forall o check b,
  newRule zD zA e u newDefault newAction target miss check o = Ok b -> P (builtAction b).
Proof.
  intros Hd Ha [ty d [m rules inv a]] check b Hb. cbn [newRule newLogical] in Hb.
  destruct (_ || _).
  - destruct (negb _); [done|]. destruct (targetMissing _ _ _); [done|]. by eapply Hd.
  - destruct (String.eqb _ _); [|done]. apply bind_ok in Hb as (v & _ & Hb).
    destruct (negb v); [done|]. destruct (targetMissing _ _ _); [done|].
    apply bind_ok in Hb as (act & Hact & Hb). destruct (_ || _); [|done].
    apply bind_ok in Hb as (sub & _ & [= <-]). by eapply Ha.
Qed.

Definition isRouteRule (rule : BuiltRule) : Prop := exists o check, NewRule o check = Ok rule.

Lemma NewRule_action rule act :
  isRouteRule rule -> builtAction rule = Some act -> routeAction act = true.
Proof.
  intros (o & check & Hb). revert act. unfold NewRule in Hb.
  refine (newRule_action _ _ _ _ _ _ _ _
    (fun o => forall act, o = Some act -> routeAction act = true) _ _ _ _ _ Hb).
  - clear. intros d a b Hb. apply bind_ok in Hb as ([r act] & Hr & [= <-]). simpl.
    unfold NewDefaultRule in Hr. apply bind_ok in Hr as (act' & Ha & Hr).
    apply causing_ok in Ha. apply bind_ok in Hr as (? & _ & Hr).
    apply bind_ok in Hr as (? & _ & [= _ <-]). intros act ->. by eapply NewRuleAction_route.
  - clear. intros a act Ha%causing_ok act' ->. by eapply NewRuleAction_route.
Qed.

(** The actions a connection can be dispatched with. *)
Definition dispatched (a : Action) : Prop :=
  match a with
  | RuleActionRoute _ _ | RuleActionReject _ _ | RuleActionHijackDNS => True
  | RuleActionBypass tag _ => String.eqb tag "" = false
  | _ => False
  end.

Lemma stepRule_selected action w w' :
  routeAction action = true -> stepRule world false false action w = Ok (Selected w') ->
  dispatched action.
Proof.
  unfold stepRule. destruct action; simpl; try done; intros _.
  - destruct (String.eqb outbound "") eqn:E; [done|]. by intros.
  - intros (? & _ & [= ])%bind_ok.
  - intros (? & _ & [= ])%bind_ok.
Qed.

Lemma walkRules_selected rules : forall i w j a w',
  Forall isRouteRule rules -> walkRules env world false false i rules w = Ok (Some (j, a), w') ->
  dispatched a.
Proof.
  induction rules as [|rule rules IH]; intros i w j a w' HF; cbn [walkRules]; [done|].
  apply Forall_cons in HF as [Hr HF]. destruct (negb (negb _)); [by apply IH|].
  destruct (builtAction rule) as [action|] eqn:Ea; [|done].
  intros (s & Hs & Hrest)%bind_ok. destruct s as [w1|w1]; [|by eapply IH].
  injection Hrest as <- <- <-. eapply stepRule_selected; [|exact Hs]. by eapply NewRule_action.
Qed.

Lemma findOutbound_network kind network tag o :
  findOutbound world kind network tag = Ok o -> network ∈ outboundNetworks o.
Proof.
  unfold findOutbound. destruct (outboundByTag world tag); [|done].
  case_bool_decide; [|done]. by intros [= <-].
Qed.

Lemma dispatch_outbound {C} kind network msg selected md (conn hijacked : C) o md' conn' :
  (forall a, selected = Some a -> dispatched a) ->
  dispatch world kind network msg selected md conn hijacked = Ok (ToOutbound o md' conn') ->
  exists ob, o = Some ob /\ network ∈ outboundNetworks ob.
Proof.
  intros Hsel. unfold dispatch. destruct selected as [a|].
  - specialize (Hsel a eq_refl). destruct a; simpl in Hsel; try done.
    + intros (ob & Hf & [= <- _ _])%bind_ok. exists ob. eauto using findOutbound_network.
    + rewrite Hsel. intros (ob & Hf & [= <- _ _])%bind_ok. exists ob. eauto using findOutbound_network.
    + by destruct (String.eqb method RejectMethodReply).
  - intros (ob & Hf & [= <- _ _])%bind_ok. exists ob. split; [done|]. unfold chooseDefault in Hf.
    case_bool_decide; [|done]. by injection Hf as <-.
Qed.

(** C11. Whatever the rules of the configuration, a connection that reaches an outbound
    reaches a real one (never a nil outbound) and one that supports its network: TCP for
    a stream, UDP for a packet connection. *)
Theorem routed_outbound_exists rules md :
  Forall isRouteRule rules ->
  (forall conn o md' conn',
     routeConnection env world rules conn md = Ok (ToOutbound o md' conn') ->
     exists ob, o = Some ob /\ NetworkTCP ∈ outboundNetworks ob) /\
  (forall conn o md' conn',
     routePacketConnection env world rules conn md = Ok (ToOutbound o md' conn') ->
     exists ob, o = Some ob /\ NetworkUDP ∈ outboundNetworks ob).
Proof.
  intros HF.
  assert (Hsel : forall md in_ i0 w0, matchRule env world rules false false md in_ = Ok (i0, w0) ->
    forall a, snd <$> i0 = Some a -> dispatched a).
  { intros md0 in_ sel w0 (md1 & _ & Hw)%bind_ok a Ha. destruct sel as [[j a']|]; [|done].
    injection Ha as <-. by eapply walkRules_selected. }
  split; intros conn o md' conn'; unfold routeConnection, routePacketConnection.
  - destruct (injectDetour world "TCP" md) as [r|] eqn:Ed.
    { intros ->. by apply injectDetour_conn in Ed. }
    destruct (refuseMagic _ _); [done|]. intros ([sel w] & Hm & Hd)%bind_ok.
    eapply dispatch_outbound, Hd. by eapply Hsel.
  - destruct (injectDetour world "UDP" md) as [r|] eqn:Ed.
    { intros ->. by apply injectDetour_conn in Ed. }
    intros ([sel w] & Hm & Hd)%bind_ok. eapply dispatch_outbound, Hd. by eapply Hsel.
Qed.
End outbound.

(** ** First match *)
Section first_match.
Context `{External} `{DomainMatching} `{DirectDialer} `{Sniffing}.
Context (env : Env) (world : RouterWorld).

(** Matching a rule leaves nothing behind that the next rule sees. *)
Lemma reset_after_match rule md :
  ResetRuleCache (matchStates env rule md).2 = ResetRuleCache md.
Proof.
  unfold matchStates. rewrite (sound_frame _ (proj1 (evaluation_sound env) rule)). done.
Qed.

(** Actions that end the walk, and actions that neither end it nor change anything. *)
Definition endsWalk (a : Action) : bool :=
  match a with
  | RuleActionRoute _ _ | RuleActionReject _ _ | RuleActionHijackDNS => true
  | RuleActionBypass tag _ => negb (String.eqb tag "")
  | _ => false
  end.

Definition ignored (a : Action) : bool :=
  match a with
  | RuleActionDirect _ _ => true
  | RuleActionBypass tag _ => String.eqb tag ""
  | _ => false
  end.

(** The metadata a selected rule leaves, up to the cache of the evaluation. *)
Definition afterAction (a : option Action) (md : InboundContext) : InboundContext :=
  match a with Some (RuleActionRoute _ o) => applyRouteOptions o md | _ => md end.

(** What the walk should do: the first rule that holds and whose action ends it. *)
Fixpoint firstMatch (index : nat) (rules : list BuiltRule) (md : InboundContext)
    : option (nat * Action) :=
  match rules with
  | [] => None
  | rule :: rest =>
      match builtAction rule with
      | Some a =>
          if endsWalk a && RuleMatch env (builtRule rule) (ResetRuleCache md) then Some (index, a)
          else firstMatch (S index) rest md
      | None => firstMatch (S index) rest md
      end
  end.

Lemma firstMatch_reset rules i md md' :
  ResetRuleCache md = ResetRuleCache md' -> firstMatch i rules md = firstMatch i rules md'.
Proof.
  intros Hmd. revert i. induction rules as [|rule rules IH]; intros i; cbn [firstMatch]; [done|].
  rewrite Hmd. destruct (builtAction rule); [|done]. by destruct (_ && _).
Qed.

Lemma applyRouteOptions_reset o md :
  ResetRuleCache (applyRouteOptions o md) = applyRouteOptions o (ResetRuleCache md).
Proof.
  unfold applyRouteOptions. cbv zeta.
  change (RouteOriginalDestination (ResetRuleCache md)) with (RouteOriginalDestination md).
  destruct (_ && _), (socksaddr.IsValid _), (0 <? _), (negb _); reflexivity.
Qed.

Lemma afterAction_reset a md md' :
  ResetRuleCache md = ResetRuleCache md' ->
  ResetRuleCache (afterAction a md) = ResetRuleCache (afterAction a md').
Proof.
  intros Hmd. destruct a as [[]|]; try done. simpl. by rewrite !applyRouteOptions_reset, Hmd.
Qed.

(** One matching rule: its action ends the walk, or it is as if it were not there. *)
Lemma stepRule_kind a w :
  endsWalk a || ignored a ->
  stepRule world false false a w =
  if endsWalk a then Ok (Selected (setWalkMetadata w (afterAction (Some a) (walkMetadata w))))
  else Ok (Continue w).
Proof.
  destruct w, a; simpl; try done. intros _. by destruct (String.eqb outbound "").
Qed.

Lemma walkRules_first rules : forall i w,
  Forall (fun r => exists a, builtAction r = Some a /\ (endsWalk a || ignored a)) rules ->
  exists w', walkRules env world false false i rules w
             = Ok (firstMatch i rules (walkMetadata w), w') /\
    ResetRuleCache (walkMetadata w')
    = ResetRuleCache (afterAction (snd <$> firstMatch i rules (walkMetadata w)) (walkMetadata w)).
Proof.
  induction rules as [|rule rules IH]; intros i w HF; cbn [walkRules firstMatch].
  { by eexists. }
  apply Forall_cons in HF as [(a & Ea & Hk) HF]. rewrite Ea.
  set (w1 := setWalkMetadata w _). unfold RuleMatch.
  assert (Hmd : ResetRuleCache (walkMetadata w1) = ResetRuleCache (walkMetadata w)).
  { simpl. by rewrite reset_after_match. }
  assert (Hnext : exists w', walkRules env world false false (S i) rules w1
      = Ok (firstMatch (S i) rules (walkMetadata w), w') /\
    ResetRuleCache (walkMetadata w') = ResetRuleCache
      (afterAction (snd <$> firstMatch (S i) rules (walkMetadata w)) (walkMetadata w))).
  { destruct (IH (S i) w1 HF) as (w' & -> & Hw). exists w'.
    by rewrite Hw, (firstMatch_reset _ _ _ _ Hmd), (afterAction_reset _ _ _ Hmd). }
  clearbody w1. destruct (negb (isEmpty _)); cbn [negb]; rewrite ?andb_true_r, ?andb_false_r;
    [|exact Hnext].
  rewrite stepRule_kind by done. destruct (endsWalk a); [|exact Hnext].
  eexists. split; [reflexivity|]. cbn [snd fmap option_fmap option_map]. by apply afterAction_reset.
Qed.

(** The general case: rules that sniff, resolve or set options change what the later ones
    see. *)
Section any_action.
Context (preMatch supportBypass : bool).

(** What a matching rule whose action does not end the walk does to it, and [None] for an
    action that ends it. *)
Definition passing (a : Action) (w : Walk) : option (result Walk) :=
  match a with
  | RuleActionSniff s =>
      if negb preMatch then Some (walkSniff w s)
      else if String.eqb (Network (walkMetadata w)) NetworkICMP then Some (Ok w) else None
  | RuleActionResolve s =>
      Some (md ← actionResolve world (walkMetadata w) s; Ok (setWalkMetadata w md))
  | RuleActionRouteOptions o =>
      Some (Ok (setWalkMetadata w (applyRouteOptions o (walkMetadata w))))
  | RuleActionRoute _ _ | RuleActionDNSRoute _ _ | RuleActionReject _ _ | RuleActionHijackDNS => None
  | RuleActionBypass tag _ =>
      if negb supportBypass && String.eqb tag "" then Some (Ok w) else None
  | _ => Some (Ok w)
  end.

(** A walk without what the evaluation of a rule leaves in the metadata. *)
Definition fresh (w : Walk) : Walk := setWalkMetadata w (ResetRuleCache (walkMetadata w)).

Definition holds (rule : BuiltRule) (w : Walk) : bool :=
  RuleMatch env (builtRule rule) (walkMetadata (fresh w)).

(** The rules are passed over, from one walk to another: each does not hold, or holds and
    has an action that does not end the walk and takes effect. *)
Inductive Passed : list BuiltRule -> Walk -> Walk -> Prop :=
  | passed_none w w' : fresh w = fresh w' -> Passed [] w w'
  | passed_over rule rules w w' :
      holds rule w = false -> Passed rules w w' -> Passed (rule :: rules) w w'
  | passed_effect rule a rules w w1 w2 w' :
      holds rule w = true -> builtAction rule = Some a -> fresh w = fresh w1 ->
      passing a w1 = Some (Ok w2) -> Passed rules w2 w' -> Passed (rule :: rules) w w'.

(** The rule at an index holds once the rules before it have been passed over. *)
Definition reached (rules : list BuiltRule) (w : Walk) (i : nat) (rule : BuiltRule) (w1 : Walk) : Prop :=
  rules !! i = Some rule /\ Passed (take i rules) w w1 /\ holds rule w1 = true.

(** How a walk may end. *)
Definition walkOutcome (start : nat) (rules : list BuiltRule) (w : Walk)
    (r : result (option (nat * Action) * Walk)) : Prop :=
  match r with
  | Ok (Some (i, a), w') => exists j rule w1, i = (start + j)%nat /\ reached rules w j rule w1 /\
      builtAction rule = Some a /\ passing a w1 = None /\
      fresh w' = fresh (setWalkMetadata w1 (afterAction (Some a) (walkMetadata w1)))
  | Ok (None, w') => Passed rules w w'
  | Err e => exists j rule w1, reached rules w j rule w1 /\
      match builtAction rule with
      | Some a => passing a w1 = Some (Err e)
      | None => Err e = (panic "nil rule action"%string : result Walk)
      end
  end.

Lemma stepRule_passing a w :
  stepRule world preMatch supportBypass a w =
  match passing a w with
  | None => Ok (Selected (setWalkMetadata w (afterAction (Some a) (walkMetadata w))))
  | Some r => w' ← r; Ok (Continue w')
  end.
Proof.
  destruct w as [md bs ps input], a; try done; cbn.
  - by destruct (_ && _).
  - destruct preMatch; cbn; [|done]. by destruct (String.eqb _ _).
  - by destruct (actionResolve _ _ _).
Qed.

(** One rule passed over moves the outcome of the rest by one. *)
Lemma walkOutcome_cons start rule rules w w1 r :
  (forall rules' w', Passed rules' w1 w' -> Passed (rule :: rules') w w') ->
  walkOutcome (S start) rules w1 r -> walkOutcome start (rule :: rules) w r.
Proof.
  intros Hp. destruct r as [[[[i a]|] w']|e]; cbn.
  - intros (j & rule' & w2 & -> & (Hj & Hpass & Hh) & Hrest). exists (S j), rule', w2.
    split; [lia|]. split; [|done]. split_and!; [done| |done]. by apply Hp.
  - apply Hp.
  - intros (j & rule' & w2 & (Hj & Hpass & Hh) & Hrest). exists (S j), rule', w2.
    split; [|done]. split_and!; [done| |done]. by apply Hp.
Qed.

Lemma Passed_fresh rules w w1 w' : fresh w = fresh w1 -> Passed rules w1 w' -> Passed rules w w'.
Proof.
  intros E Hp. revert w E. induction Hp as [w1 w' E'|rule rules w1 w' Hh Hp IH|
    rule a rules w1 w2 w3 w' Hh Ha E' Hpass Hp IH]; intros w E.
  - constructor. congruence.
  - constructor; [|auto]. unfold holds in *. by rewrite E.
  - econstructor; [|done| |done..]; [unfold holds in *; by rewrite E|congruence].
Qed.

(** The rule that is being matched is reached. *)
Lemma reached_here rule rules w w1 :
  holds rule w = true -> fresh w = fresh w1 -> reached (rule :: rules) w 0 rule w1.
Proof.
  intros Hh E. split_and!; [done|by constructor|]. unfold holds in *. by rewrite <- E.
Qed.

Lemma walkRules_outcome rules : forall start w,
  walkOutcome start rules w (walkRules env world preMatch supportBypass start rules w).
Proof.
  induction rules as [|rule rules IH]; intros start w; cbn [walkRules]; [by constructor|].
  set (w1 := setWalkMetadata w _).
  assert (E : fresh w = fresh w1).
  { unfold fresh, w1. cbn [walkMetadata setWalkMetadata]. by rewrite reset_after_match. }
  change (negb (isEmpty _)) with (holds rule w). clearbody w1.
  destruct (holds rule w) eqn:Hh; cbn [negb].
  - pose proof (reached_here rule rules w w1 Hh E) as Hr.
    destruct (builtAction rule) as [a|] eqn:Ea; [|exists 0%nat, rule, w1; by rewrite Ea].
    rewrite stepRule_passing. destruct (passing a w1) as [[w2|e]|] eqn:Ep; cbn [mbind result_bind].
    + eapply walkOutcome_cons, IH. intros rules' w' Hp. by eapply passed_effect.
    + exists 0%nat, rule, w1. by rewrite Ea.
    + exists 0%nat, rule, w1. split; [lia|]. by split_and!.
  - eapply walkOutcome_cons, IH. intros rules' w' Hp.
    apply passed_over; [done|]. by eapply Passed_fresh.
Qed.
End any_action.

(** C4. The first match wins.  For any rules, connection and mode of the walk, matching
    selects a rule only if it holds and its action ends the walk, and every rule before it
    was passed over: it did not hold, or held and took effect without ending the walk
    (sniff, resolve and route options change the connection the later rules see; direct
    and, without support for it, a bypass that names no outbound change nothing).  It
    selects none only if all rules are passed over so, and fails only with the error of a
    resolve or sniff action that was reached, or on a rule without action.  Each rule is
    evaluated as if no other rule had been evaluated before, and a selected route action
    changes the metadata by its options.  When moreover no rule looks into the
    connection, the DNS or sets options, matching (not in pre-match) succeeds with the
    first rule that holds and whose action ends the walk. *)
Theorem first_match_wins rules preMatch supportBypass input md md0 :
  restoreDomain world (searchProcessInfo env world md) = Ok md0 ->
  let w0 := mkWalk (detectIPVersion md0) [] [] input in
  walkOutcome preMatch supportBypass 0 rules w0
    (matchRule env world rules preMatch supportBypass md input) /\
  (Forall (fun r => exists a, builtAction r = Some a /\ (endsWalk a || ignored a)) rules ->
   exists w,
    matchRule env world rules false false md input
    = Ok (firstMatch 0 rules (detectIPVersion md0), w) /\
    ResetRuleCache (walkMetadata w) = ResetRuleCache
      (afterAction (snd <$> firstMatch 0 rules (detectIPVersion md0)) (detectIPVersion md0))).
Proof.
  intros Hmd w0. unfold matchRule. rewrite Hmd. split.
  - apply walkRules_outcome.
  - intros HF. exact (walkRules_first rules 0 w0 HF).
Qed.
End first_match.

(** ** The packets an outbound receives *)
Section packets.
Context `{External} `{DomainMatching} `{DirectDialer} `{Sniffing}.
Context (env : Env) (world : RouterWorld).

Lemma cached_packets packets conn :
  connPackets (foldl NewCachedPacketConn conn packets) = reverse packets ++ connPackets conn.
Proof.
  revert conn. induction packets as [|[b d] ps IH]; intros conn; cbn [foldl]; [done|].
  rewrite IH, reverse_cons, <- (assoc_L (++)). done.
Qed.

Lemma packetsOf_buffered packets reads :
  packetsOf ((ReadPacket <$> packets) ++ reads) = packets ++ packetsOf reads.
Proof. induction packets as [|p ps IH]; [done|]. simpl. by f_equal. Qed.

(** The packets of the client: those buffered, as sniffing buffers them, and those left. *)
Definition walkKeeps (all : list Packet) (w : Walk) : Prop :=
  exists reads taken, walkInput w = InputPackets reads /\
    walkPackets w = sniffedPacket <$> taken /\ all = taken ++ packetsOf reads.

(** A sniff that is the first to buffer packets keeps them. *)
Lemma walkSniff_packets all w a w' :
  walkKeeps all w -> walkPackets w = [] -> walkSniff w a = Ok w' -> walkKeeps all w'.
Proof.
  intros (reads & taken & Hin & Ht & ->) He Hw. rewrite He in Ht.
  symmetry in Ht. apply fmap_nil_inv in Ht as ->.
  unfold walkSniff in Hw. rewrite Hin, He in Hw.
  pose proof (actionSniffPacket_packets (walkMetadata w) a reads []) as Hp.
  destruct (actionSniffPacket _ _ _ _) as [[new r] reads'].
  apply bind_ok in Hw as (md & _ & [= <-]). destruct Hp as [[-> Hp]|(taken & -> & Hp)].
  - exists reads', []. by rewrite Hp.
  - by exists reads', taken.
Qed.

Lemma stepRule_packets all pre sup action w s :
  walkKeeps all w ->
  match action with RuleActionSniff _ => walkPackets w = [] | _ => True end ->
  stepRule world pre sup action w = Ok s ->
  let w' := match s with Selected w' | Continue w' => w' end in
  walkKeeps all w' /\
  match action with RuleActionSniff _ => True | _ => walkPackets w' = walkPackets w end.
Proof.
  intros Hs He. unfold stepRule.
  destruct action; simpl; try (intros [= <-]; simpl; by split_and!).
  - destruct (negb sup && _); intros [= <-]; simpl; by split_and!.
  - destruct (negb pre).
    + intros (w' & Hw & [= <-])%bind_ok. by eapply walkSniff_packets in Hw.
    + destruct (negb _); intros [= <-]; simpl; by split_and!.
  - intros (md & _ & [= <-])%bind_ok. simpl. by split_and!.
Qed.

Lemma walkRules_packets all pre sup rules : forall i w sel w',
  walkKeeps all w ->
  (length (List.filter isSniff rules) = 0 \/
   length (List.filter isSniff rules) = 1 /\ walkPackets w = [])%nat ->
  walkRules env world pre sup i rules w = Ok (sel, w') -> walkKeeps all w'.
Proof.
  induction rules as [|rule rules IH]; intros i w sel w' Hs Hl; cbn [walkRules].
  { by intros [= _ <-]. }
  set (w1 := setWalkMetadata w _).
  assert (walkKeeps all w1 /\ walkPackets w1 = walkPackets w) as (Hs1 & P1) by done.
  simpl List.filter in Hl. destruct (negb (negb _)).
  { apply IH; [done|]. rewrite P1. destruct (isSniff rule); simpl in Hl; [left; lia|done]. }
  assert (Hsn : isSniff rule = match builtAction rule with Some (RuleActionSniff _) => true
    | _ => false end) by done.
  rewrite Hsn in Hl. destruct (builtAction rule) as [action|]; [|done].
  intros (s & Hstep & Hrest)%bind_ok.
  eapply stepRule_packets in Hstep as (Hs2 & P2); [|done|].
  2: { destruct action; try done. simpl in Hl. rewrite P1. destruct Hl as [?|[? ?]]; [lia|done]. }
  destruct s as [w2|w2]; [by injection Hrest as <- <-|].
  apply IH in Hrest; [done|done|].
  destruct action; cbn in Hl; try (rewrite P2; exact Hl). left; lia.
Qed.

(** What the packets of the client become for the outbound: those to a fake address are
    sent to the destination it stands for. *)
Definition outboundPacket (md : InboundContext) (p : Packet) : Packet :=
  if FakeIP md
  then natPacket (socksaddrWithoutPort (OriginDestination md))
         (socksaddrWithoutPort (Destination md)) p
  else p.

Lemma connPackets_fake md conn :
  connPackets (if FakeIP md then NewNATPacketConn conn (OriginDestination md) (Destination md)
               else conn)
  = outboundPacket md <$> connPackets conn.
Proof. unfold outboundPacket. destruct (FakeIP md); [done|]. by rewrite list_fmap_id. Qed.

Lemma cachedNonempty_fake (b : bool) o d conn :
  cachedNonempty (if b then NewNATPacketConn conn o d else conn) = cachedNonempty conn.
Proof. by destruct b. Qed.

Lemma cachedNonempty_cached packets conn :
  Forall (fun p => packetData p <> []) packets -> cachedNonempty conn = true ->
  cachedNonempty (foldl NewCachedPacketConn conn packets) = true.
Proof.
  intros HF. revert conn. induction HF as [|[[|b bs] d] ps Hp HF IH]; intros conn Hc; [done..|].
  cbn [foldl]. by apply IH.
Qed.

Lemma sniffedPacket_nonempty ps :
  Forall (fun p => packetData p <> []) ps ->
  Forall (fun p => packetData p <> []) (sniffedPacket <$> ps).
Proof.
  intros HF. apply Forall_fmap. apply (Forall_impl _ _ _ HF). intros [[|b bs] d]; [done|].
  intros _. unfold sniffedPacket, truncatePacket, compose. cbn [packetData].
  destruct (Z.to_nat UDPBufferSize) as [|k] eqn:E; [|done].
  apply (f_equal Z.of_nat) in E. rewrite Z2Nat.id in E by done. done.
Qed.

(** C16. With at most one sniff rule no packet is lost or sent twice.  The DNS hijacker holds
    the packets of the client in order.  The connection of an outbound holds them too, those
    read while sniffing first and in reverse; each keeps its payload (cut to the 16 KiB of
    a packet buffer if it was read while sniffing), and its destination unless that is the
    fake address of the connection, which the real destination replaces.  If no packet is
    empty, enough reads into buffers with room for every packet deliver all of them in
    that order. *)
Theorem sniffed_packets_preserved rules conn md res conn' :
  (length (List.filter isSniff rules) <= 1)%nat ->
  routePacketConnection env world rules conn md = Ok res -> routedConn res = Some conn' ->
  (exists sniffed rest, packetsOf conn = sniffed ++ rest /\
    ((exists md', res = ToDNS md' conn' /\
       connPackets conn' = (sniffedPacket <$> sniffed) ++ rest) \/
     (exists o md', res = ToOutbound o md' conn' /\
       connPackets conn'
       = outboundPacket md' <$> (reverse (sniffedPacket <$> sniffed) ++ rest)))) /\
  (Forall (fun p => packetData p <> []) (packetsOf conn) ->
   exists k, forall sizes, (k <= length sizes)%nat ->
     Forall (fun n => n <> 0 /\
                      Forall (fun p => length (packetData p) <= n) (connPackets conn'))%nat sizes ->
     (PacketConn_Reads conn' sizes).1 = connPackets conn').
Proof.
  intros Hl Hr Hc. unfold routePacketConnection in Hr.
  destruct (injectDetour world "UDP" md) as [r|] eqn:Ed.
  { subst r. apply injectDetour_conn in Ed. congruence. }
  apply bind_ok in Hr as ([sel w] & (md1 & _ & Hw)%bind_ok & Hd).
  apply (walkRules_packets (packetsOf conn)) in Hw as (reads & sniffed & Hin & Hs & Hp);
    [|by exists conn, []|].
  2: { destruct (length _) as [|[|n]]; [by left|by right|lia]. }
  assert (Hrd : walkPacketReads w = reads) by (unfold walkPacketReads; by rewrite Hin).
  rewrite Hs, Hrd in Hd.
  assert (Hread : (Forall (fun p => packetData p <> []) (packetsOf conn) -> cachedNonempty conn' = true) ->
    Forall (fun p => packetData p <> []) (packetsOf conn) ->
    exists k, forall sizes, (k <= length sizes)%nat ->
     Forall (fun n => n <> 0 /\
                      Forall (fun p => length (packetData p) <= n) (connPackets conn'))%nat sizes ->
     (PacketConn_Reads conn' sizes).1 = connPackets conn').
  { intros Hn HF. exists (readsLeft conn'). intros sizes Hk Hz. apply PacketConn_Reads_all; auto. }
  destruct (dispatch_conn _ _ _ _ _ _ _ _ _ _ Hd Hc) as [(o & -> & ->)|[-> ->]]; split.
  - exists sniffed, (packetsOf reads). split; [done|]. right. eexists _, _. split; [done|].
    by rewrite connPackets_fake, cached_packets.
  - apply Hread. rewrite Hp, cachedNonempty_fake. intros [HF _]%Forall_app.
    by apply cachedNonempty_cached; [apply sniffedPacket_nonempty|].
  - exists sniffed, (packetsOf reads). split; [done|]. left. eexists. split; [done|].
    cbn [connPackets]. by rewrite packetsOf_buffered.
  - by apply Hread.
Qed.
End packets.

(** ** Pre-match *)
Section pre_match.
Context `{External} `{DomainMatching} `{DirectDialer} `{Sniffing}.
Context (env : Env) (world : RouterWorld).

Lemma preRoute_route o md o' md' rewritten :
  preRoute world o md = Ok (PreRoute o' md' rewritten) ->
  o' = o /\ Network md' = Network md /\
  match rewritten with
  | None => socksaddr.IsDomain (Destination md') = false
  | Some a =>
      Destination md' = mkSocksaddr a 0 "" /\ a ∈ DestinationAddresses md' /\
      (if socksaddr.IsIPv4 (Source md') then netip.Is4 a else netip.Is6 a) = true
  end.
Proof.
  unfold preRoute. destruct (socksaddr.IsDomain _) eqn:Ed; [|intros [= <- <- <-]; by rewrite Ed].
  intros (md1 & Hmd & Hf)%bind_ok.
  assert (Network md1 = Network md /\ Source md1 = Source md) as [<- Hs].
  { destruct (DestinationAddresses md); [|by injection Hmd as <-].
    unfold actionResolve in Hmd. rewrite Ed in Hmd. simpl in Hmd.
    apply bind_ok in Hmd as (addresses & _ & [= <-]). done. }
  rewrite <- Hs in Hf. destruct (List.find _ _) as [a|] eqn:Ea; [|done]. injection Hf as <- <- <-.
  apply find_some in Ea as [Hin Hfam]. split_and!; [done|done|done|by apply list_elem_of_In|].
  cbn. by destruct (socksaddr.IsIPv4 (Source md1)).
Qed.

Lemma directRoute_ok o o' : directRoute o = Ok o' -> o' = o /\ outboundDirectRoute o = true.
Proof. unfold directRoute. destruct (outboundDirectRoute o); [|done]. by intros [= <-]. Qed.

Lemma preOutbound_ok network tag o :
  preOutbound world network tag = Ok o ->
  network ∈ outboundNetworks o /\ outboundDirectRoute o = true.
Proof.
  unfold preOutbound. destruct (outboundByTag world tag); [|done].
  case_bool_decide; [|done]. by intros [-> ?]%directRoute_ok.
Qed.

(** A pre-matched connection is only handed to an outbound that can route it directly
    and supports its network, and a domain destination is replaced by one of its
    addresses, of the same family as the source. *)
Theorem pre_match_route rules md hasContext sup o md' rewritten :
  PreMatch env world rules md hasContext sup = Ok (PreRoute o md' rewritten) ->
  outboundDirectRoute o = true /\ Network md' ∈ outboundNetworks o /\
  match rewritten with
  | None => socksaddr.IsDomain (Destination md') = false
  | Some a =>
      Destination md' = mkSocksaddr a 0 "" /\ a ∈ DestinationAddresses md' /\
      (if socksaddr.IsIPv4 (Source md') then netip.Is4 a else netip.Is6 a) = true
  end.
Proof.
  intros ([sel w] & _ & Hp)%bind_ok.
  assert (Hto : forall tag,
    (if negb hasContext then Ok PreNothing
     else o' ← preOutbound world (Network (walkMetadata w)) tag; preRoute world o' (walkMetadata w))
    = Ok (PreRoute o md' rewritten) ->
    outboundDirectRoute o = true /\ Network (walkMetadata w) ∈ outboundNetworks o /\
    exists o', preRoute world o' (walkMetadata w) = Ok (PreRoute o md' rewritten)).
  { intros tag. destruct (negb hasContext); [done|]. intros (o' & Ho & Hr)%bind_ok.
    apply preOutbound_ok in Ho as [? ?]. destruct (preRoute_route _ _ _ _ _ Hr) as (-> & _ & _). eauto. }
  assert (Hall : outboundDirectRoute o = true /\ Network (walkMetadata w) ∈ outboundNetworks o /\
    exists o', preRoute world o' (walkMetadata w) = Ok (PreRoute o md' rewritten)).
  { cbv zeta in Hp. destruct (snd <$> sel) as [[]|]; try done; try by eapply Hto.
    - destruct sup; [done|]. by eapply Hto.
    - by repeat (destruct (_ && _)).
    - destruct (negb _); [done|]. case_bool_decide as Hn; [|done].
      apply bind_ok in Hp as (o' & [-> Hd]%directRoute_ok & Hr).
      destruct (preRoute_route _ _ _ _ _ Hr) as (-> & _ & _). eauto. }
  destruct Hall as (Hd & Hn & o' & Hr). destruct (preRoute_route _ _ _ _ _ Hr) as (_ & -> & Hrest).
  done.
Qed.
End pre_match.

(** ** Options without effect *)
Section no_effect.
Context `{External} `{DirectDialer} `{Sniffing}.
Context (world : RouterWorld).

(** The route options of a bypass action are never applied. *)
Lemma bypass_options_ignored pre sup tag o w s :
  stepRule world pre sup (RuleActionBypass tag o) w = Ok s -> s = Selected w \/ s = Continue w.
Proof. unfold stepRule. simpl. destruct (_ && _); intros [= <-]; auto. Qed.

(** A route action built from the configuration carries neither the UDP timeout nor the
    network types that the configuration gives. *)
Lemma route_options_dropped a tag o :
  NewRuleAction a = Ok (Some (RuleActionRoute tag o)) ->
  RouteOptions.UDPTimeout o = 0 /\ RouteOptions.NetworkType o = [] /\
  RouteOptions.FallbackNetworkType o = [].
Proof.
  unfold NewRuleAction. intros Ha.
  repeat match type of Ha with
  | (if ?b then _ else _) = _ => destruct b
  | mbind _ _ = _ => apply bind_ok in Ha as (? & _ & Ha)
  end; try discriminate Ha. by injection Ha as <- <-.
Qed.
End no_effect.

(** * Witnesses of the router, and what happens beyond the hypotheses

    Concrete routers with the instances of [Concrete.v]: the theorems of [RouterSpec.v]
    applied to them, and configurations with several sniff actions in which the
    payload is not preserved. *)

#[local] Existing Instances exExternal exDomainMatching exDirectDialer.

(** A TLS sniffer that finds nothing, and a DNS sniffer that always wants more data. *)
#[local] Instance exSniffing : Sniffing := {|
  sniffStream := fun s md data => ([mkSniffFailure "not found" false], md);
  sniffPacket := fun s md data =>
    ([mkSniffFailure "need more data" (length data <? 4)%nat], md);
  IsDomainName := fun _ => false;
|}.

Definition exProxy : OutboundInfo := mkOutboundInfo "proxy" [NetworkTCP; NetworkUDP] true.

Definition exWorld : RouterWorld :=
  mkRouterWorld None [] None (fun _ => None) (fun _ => true) (fun _ _ _ => Ok [ip4 192 0 2 7])
    (fun tag => if String.eqb tag "proxy" then Some exProxy else None) exProxy (fun _ => None)
    "sp.mux" "v1.mux".

(** A rule without conditions, which holds of every connection. *)
Definition exAlways : HeadlessRule :=
  DefaultRule (mkDefaultRule [] [] [] [] [] [] [] None false).

Definition exSniffRule (names : list string) (stream : list StreamSniffer) : BuiltRule :=
  mkBuiltRule exAlways (Some (RuleActionSniff (mkSniff names stream [] 0 false))).

Definition exNoOptions : RouteOptions.t :=
  RouteOptions.mk socksaddr.zero 0 "" None [] [] 0 false false 0 false 0 false false.

Definition exRouteTo (tag : string) : BuiltRule :=
  mkBuiltRule exAlways (Some (RuleActionRoute tag exNoOptions)).

Definition exRules : list BuiltRule := [exSniffRule [] []; exRouteTo "proxy"].

Definition exStream : list StreamRead :=
  [ReadData [Byte.x01; Byte.x02]; ReadData [Byte.x03]; ReadData [Byte.x04]].

(** The result of a routing that succeeds. *)
Definition okRouted {C} (r : result (Routed C)) : Routed C :=
  match r with Ok r => r | Err _ => Rejected "" false end.

(** *** Witnesses *)

Definition exRouted : Routed Conn :=
  okRouted (routeConnection exEnv exWorld exRules exStream (exConnection "example.org" 443)).

Definition exRoutedConn : Conn := default (StreamConn []) (routedConn exRouted).

Lemma sniffed_stream_preserved_witness :
  routeConnection exEnv exWorld exRules exStream (exConnection "example.org" 443) = Ok exRouted /\
  connData exRoutedConn = streamData exStream.
Proof.
  assert (Hr : routeConnection exEnv exWorld exRules exStream (exConnection "example.org" 443)
               = Ok exRouted) by (vm_compute; reflexivity).
  assert (Hc : routedConn exRouted = Some exRoutedConn) by (vm_compute; reflexivity).
  split; [exact Hr|].
  exact (proj1 (sniffed_stream_preserved exEnv exWorld exRules exStream _ exRouted _ (le_n 1) Hr Hc)).
Defined.

(** Packets of a UDP connection *)
Definition exPacket (b : Byte.byte) : Packet := mkPacket [b] socksaddr.zero.

Definition exPackets : list PacketRead :=
  [ReadPacket (exPacket Byte.x01); ReadPacket (exPacket Byte.x02); ReadTimeout].

Definition exRoutedPackets : Routed PacketConn :=
  okRouted (routePacketConnection exEnv exWorld exRules exPackets (exConnection "example.org" 443)).

Definition exPacketConn : PacketConn := default (RawPacketConn []) (routedConn exRoutedPackets).

Lemma sniffed_packets_preserved_witness :
  routePacketConnection exEnv exWorld exRules exPackets (exConnection "example.org" 443)
  = Ok exRoutedPackets /\
  exists sniffed rest, packetsOf exPackets = sniffed ++ rest /\
    ((exists md', exRoutedPackets = ToDNS md' exPacketConn /\
       connPackets exPacketConn = (sniffedPacket <$> sniffed) ++ rest) \/
     (exists o md', exRoutedPackets = ToOutbound o md' exPacketConn /\
       connPackets exPacketConn
       = outboundPacket md' <$> (reverse (sniffedPacket <$> sniffed) ++ rest))).
Proof.
  assert (Hr : routePacketConnection exEnv exWorld exRules exPackets (exConnection "example.org" 443)
               = Ok exRoutedPackets) by (vm_compute; reflexivity).
  assert (Hc : routedConn exRoutedPackets = Some exPacketConn) by (vm_compute; reflexivity).
  split; [exact Hr|].
  exact (proj1 (sniffed_packets_preserved exEnv exWorld exRules exPackets _ exRoutedPackets _ (le_n 1)
                  Hr Hc)).
Defined.

(** A route rule as the configuration builds it. *)
Definition exConfigured : BuiltRule :=
  match NewRule (exDefaultOptions (exRouteRule (Some ["example.org"%string]) None None None false)
                   (exRouteAction "proxy" false)) true with
  | Ok b => b
  | Err _ => mkBuiltRule exAlways None
  end.

Lemma exConfigured_built :
  NewRule (exDefaultOptions (exRouteRule (Some ["example.org"%string]) None None None false)
             (exRouteAction "proxy" false)) true = Ok exConfigured.
Proof. vm_compute. reflexivity. Qed.

Lemma routed_outbound_exists_witness :
  (forall conn o md' conn',
     routeConnection exEnv exWorld [exConfigured] conn (exConnection "example.org" 443)
     = Ok (ToOutbound o md' conn') ->
     exists ob, o = Some ob /\ NetworkTCP ∈ outboundNetworks ob) /\
  (forall conn o md' conn',
     routePacketConnection exEnv exWorld [exConfigured] conn (exConnection "example.org" 443)
     = Ok (ToOutbound o md' conn') ->
     exists ob, o = Some ob /\ NetworkUDP ∈ outboundNetworks ob).
Proof.
  refine (routed_outbound_exists exEnv exWorld [exConfigured] _ _).
  apply Forall_singleton. eexists _, _. exact exConfigured_built.
Defined.

Lemma first_match_wins_witness :
  let rules := [exRouteTo "proxy"; mkBuiltRule exAlways (Some RuleActionHijackDNS)] in
  exists w,
    matchRule exEnv exWorld rules false false (exConnection "example.org" 443) NoInput
    = Ok (Some (0%nat, RuleActionRoute "proxy" exNoOptions), w) /\
    ResetRuleCache (walkMetadata w)
    = ResetRuleCache (applyRouteOptions exNoOptions (exConnection "example.org" 443)).
Proof.
  refine (proj2 (first_match_wins exEnv exWorld
    [exRouteTo "proxy"; mkBuiltRule exAlways (Some RuleActionHijackDNS)] false false NoInput _
    (exConnection "example.org" 443) _) _).
  - reflexivity.
  - repeat constructor; eexists; by split.
Defined.

Definition exPreMatched : PreMatched :=
  match PreMatch exEnv exWorld [exRouteTo "proxy"] (exConnection "example.org" 443) true false with
  | Ok r => r
  | Err _ => PreNothing
  end.

Definition exPreMd : InboundContext :=
  match exPreMatched with PreRoute _ md _ => md | _ => exConnection "" 0 end.

Lemma pre_match_route_witness :
  PreMatch exEnv exWorld [exRouteTo "proxy"] (exConnection "example.org" 443) true false
  = Ok (PreRoute exProxy exPreMd (Some (ip4 192 0 2 7))) /\
  Network exPreMd ∈ outboundNetworks exProxy.
Proof.
  assert (Hp : PreMatch exEnv exWorld [exRouteTo "proxy"] (exConnection "example.org" 443) true false
               = Ok (PreRoute exProxy exPreMd (Some (ip4 192 0 2 7)))) by (vm_compute; reflexivity).
  split; [exact Hp|].
  exact (proj1 (proj2 (pre_match_route exEnv exWorld _ _ _ _ _ _ _ Hp))).
Defined.

(** *** Beyond the hypotheses *)

(** With two sniff actions the bytes read by the second come out first. *)
Example two_sniffs_reorder_stream :
  let rules := [exSniffRule ["tls"] [TLSClientHello]; exSniffRule ["http"] [HTTPHost];
                exRouteTo "proxy"]%string in
  (connData <$> routedConn (okRouted
     (routeConnection exEnv exWorld rules exStream (exConnection "example.org" 443))),
   streamData exStream)
  = (Some [Byte.x03; Byte.x01; Byte.x02; Byte.x04], [Byte.x01; Byte.x02; Byte.x03; Byte.x04]).
Proof. vm_compute. reflexivity. Qed.

(** One sniff action that reads two packets hands them over in reverse order. *)
Example one_sniff_reverses_packets :
  (connPackets exPacketConn, packetsOf exPackets)
  = ([exPacket Byte.x02; exPacket Byte.x01], [exPacket Byte.x01; exPacket Byte.x02]).
Proof. vm_compute. reflexivity. Qed.

(** Two packet sniff actions hand the packets of the first over twice. *)
Example two_sniffs_duplicate_packets :
  let rules := [exSniffRule [] []; exSniffRule [] []; exRouteTo "proxy"] in
  connPackets <$> routedConn (okRouted
    (routePacketConnection exEnv exWorld rules
       [ReadPacket (exPacket Byte.x01); ReadTimeout; ReadPacket (exPacket Byte.x02); ReadTimeout]
       (exConnection "example.org" 443)))
  = Some [exPacket Byte.x02; exPacket Byte.x01; exPacket Byte.x01].
Proof. vm_compute. reflexivity. Qed.
