(* ===== verification/OutboundManager.v ===== *)
(** * Outbounds and their manager ([adapter/outbound], [adapter/lifecycle.go])

    The manager keeps the outbounds in the order of their creation, an index by tag and
    the tags that depend on a tag.  It starts outbounds after their dependencies, replaces
    an outbound of the same tag, and closes all of them within one time budget. *)

From S2P Require Import Prelude.

(** ** Stages *)

Inductive StartStage := StartStateInitialize | StartStateStart | StartStatePostStart | StartStateStarted.

Definition stageIndex (s : StartStage) : nat :=
  match s with StartStateInitialize => 0 | StartStateStart => 1 | StartStatePostStart => 2 | StartStateStarted => 3 end.

Definition stageString (s : StartStage) : string :=
  match s with
  | StartStateInitialize => "initialize" | StartStateStart => "start"
  | StartStatePostStart => "post-start" | StartStateStarted => "finish-start"
  end.

Definition ListStartStages : list StartStage :=
  [StartStateInitialize; StartStateStart; StartStatePostStart; StartStateStarted].

(** The start methods of an object and what they answer: [adapter.Lifecycle], or some of
    [PreStart], [Start] and [PostStart] *)
Inductive Starter :=
  | Lifecycle (Start : StartStage -> result unit)
  | Legacy (PreStart Start PostStart : option (result unit)).

Definition call (method : option (result unit)) : result unit := default (Ok tt) method.

Definition LegacyStart (starter : Starter) (stage : StartStage) : result unit :=
  match starter with
  | Lifecycle Start => Start stage
  | Legacy PreStart Start PostStart =>
      match stage with
      | StartStateInitialize => call PreStart
      | StartStateStart => call Start
      | StartStatePostStart => Ok tt
      | StartStateStarted => call PostStart
      end
  end.

(** ** Outbounds *)

(** A [Close] method: the time it takes, none if it never returns, and its answer *)
Record Closer := mkCloser { closeTime : option Z; closeAnswer : result unit }.

Record Object := mkObject {
  Type_ : string;
  Tag : string;
  Network : list string;
  Dependencies : list string;
  starter : Starter;
  closer : option Closer;
}.

(** An object with its address: [==] on interfaces that hold pointers compares addresses. *)
Record Outbound := mkOutbound { ptr : nat; object :> Object }.

Definition same (a b : Outbound) : bool := (ptr a =? ptr b)%nat.

Definition name (o : Outbound) : string := ("outbound/" +:+ Type_ o +:+ "[" +:+ Tag o +:+ "]")%string.

(** [common.Close] *)
Definition common_Close (o : Outbound) : result unit :=
  match closer o with Some c => closeAnswer c | None => Ok tt end.

(** Calls of methods of outbounds, in order *)
Inductive Call := Started (o : Outbound) (stage : StartStage) | Closed (o : Outbound).

(** ** The registry *)

Section registry.
Context {Options : Type}.

(** What constructors get: the options of the configuration, or those of the placeholder
    for an outbound that could not be created *)
Inductive AnyOptions := GivenOptions (o : Options) | InvalidOptions (o : Options) (err : error).

(** A constructor returns or panics. *)
Inductive Constructed := Returned (r : result Object) | Panicked (msg : string).

Definition Registry : Type := gmap string (string -> AnyOptions -> Constructed).

Definition CreateOutbound (r : Registry) (tag outboundType : string) (options : AnyOptions) : Constructed :=
  match r !! outboundType with
  | None => Returned (Err ("outbound type not found: " +:+ outboundType)%string)
  | Some constructor => constructor tag options
  end.

Definition TypeInvalidConfig : string := "hinvalid".

(** [invalid.New] *)
Definition invalid_New (tag : string) (_ : AnyOptions) : Constructed :=
  Returned (Ok (mkObject TypeInvalidConfig tag ["tcp"; "udp"]%string [] (Legacy None None None) None)).

(** The construction in [Manager.Create]: an error or a panic of the constructor makes the
    placeholder. *)
Definition construct (r : Registry) (tag inboundType : string) (options : Options) : result Object :=
  let outbound :=
    match CreateOutbound r tag inboundType (GivenOptions options) with
    | Returned res => res
    | Panicked msg => Err ("constructor panic: " +:+ msg)%string
    end in
  match outbound with
  | Ok o => Ok o
  | Err err =>
      let err2 := ("parse outbound[" +:+ tag +:+ "] error: " +:+ err)%string in
      match CreateOutbound r tag TypeInvalidConfig (InvalidOptions options err2) with
      | Returned res => res
      | Panicked msg => panic msg
      end
  end.
End registry.
Arguments AnyOptions : clear implicits.
Arguments Registry : clear implicits.

(** ** The manager *)

(** [endpoint.Manager], as far as the outbound manager reads it *)
Record Endpoints := mkEndpoints { endpoints : list Outbound; endpointByTag : gmap string Outbound }.

(** [nextPtr] is the address of the next object. *)
Record Manager := mkManager {
  defaultTag : string;
  started : bool;
  stage : StartStage;
  outbounds : list Outbound;
  outboundByTag : gmap string Outbound;
  dependByTag : gmap string (list string);
  defaultOutbound : option Outbound;
  nextPtr : nat;
}.

Definition NewManager (tag : string) : Manager :=
  mkManager tag false StartStateInitialize [] ∅ ∅ None 0.

(** What a method of the manager does: the new state, the calls it makes, the error *)
Definition Effect : Type := Manager * list Call * result unit.

(** *** Starting *)

Section start.
Context (m : Manager) (toStart : list Outbound).

(** One pass over the outbounds: those started, in order, whether it made progress, and the
    error of a start *)
Fixpoint startPass (l : list Outbound) (done : gset string) (calls : list Call) (canContinue : bool)
    : gset string * list Call * bool * result unit :=
  match l with
  | [] => (done, calls, canContinue, Ok tt)
  | o :: l =>
      if bool_decide (Tag o ∈ done) then startPass l done calls canContinue
      else if negb (forallb (fun dependency => bool_decide (dependency ∈ done)) (Dependencies o))
      then startPass l done calls canContinue
      else
        let done := {[Tag o]} ∪ done in
        let calls := calls ++ [Started o StartStateStart] in
        match causing ("start " +:+ name o)%string (LegacyStart (starter o) StartStateStart) with
        | Ok _ => startPass l done calls true
        | Err e => (done, calls, true, Err e)
        end
  end.

Definition circularError (oTree : list string) (tag : string) : error :=
  ("circular outbound dependency: " +:+ strings_Join oTree " -> " +:+ " -> " +:+ tag)%string.

Definition missingError (tag : string) (o : Outbound) : error :=
  ("dependency[" +:+ tag +:+ "] not found for outbound[" +:+ Tag o +:+ "]")%string.

(** [lintOutbound] looks for the reason why nothing more can be started. *)
Fixpoint lintOutbound (fuel : nat) (done : gset string) (oTree : list string) (oCurrent : Outbound) : error :=
  let problemOutboundTag :=
    default ""%string (head (filter (fun it => it ∉ done) (Dependencies oCurrent))) in
  if bool_decide (problemOutboundTag ∈ oTree) then circularError oTree problemOutboundTag
  else
    match outboundByTag m !! problemOutboundTag, fuel with
    | None, _ => missingError problemOutboundTag oCurrent
    | Some problemOutbound, S fuel => lintOutbound fuel done (oTree ++ [problemOutboundTag]) problemOutbound
    | Some _, O => "out of fuel"%string
    end.

(** A tree without repetition has at most the tags of the index and the first one. *)
Definition lintFuel : nat := S (size (outboundByTag m)).

Fixpoint startLoop (fuel : nat) (done : gset string) (calls : list Call) : list Call * result unit :=
  match fuel with
  | O => (calls, Err "out of fuel"%string)
  | S fuel =>
      let '(done, calls, canContinue, r) := startPass toStart done calls false in
      match r with
      | Err e => (calls, Err e)
      | Ok _ =>
          if (size done =? length toStart)%nat then (calls, Ok tt)
          else if canContinue then startLoop fuel done calls
          else match filter (fun it : Outbound => Tag it ∉ done) toStart with
               | [] => (calls, panic "nil pointer dereference")
               | currentOutbound :: _ =>
                   (calls, Err (lintOutbound lintFuel done [Tag currentOutbound] currentOutbound))
               end
      end
  end.

(** Every pass but the last marks a tag. *)
Definition startOutbounds : list Call * result unit := startLoop (S (S (length toStart))) ∅ [].
End start.

(** The other stages: one outbound after the other *)
Fixpoint startStage (s : StartStage) (l : list Outbound) : list Call * result unit :=
  match l with
  | [] => ([], Ok tt)
  | o :: l =>
      match causing (stageString s +:+ " " +:+ name o)%string (LegacyStart (starter o) s) with
      | Ok _ => let '(calls, r) := startStage s l in (Started o s :: calls, r)
      | Err e => ([Started o s], Err e)
      end
  end.

(** The default outbound when it was not created: the endpoint of that tag, or a direct
    outbound *)
Definition resolveDefault (m : Manager) (em : Endpoints) (fallback : result Object) : result Manager :=
  let 'mkManager dt st sg os byTag dep def next := m in
  match def with
  | Some _ => Ok m
  | None =>
      if negb (String.eqb dt "") then
        match endpointByTag em !! dt with
        | None => Err ("default outbound not found: " +:+ dt)%string
        | Some e => Ok (mkManager dt st sg os byTag dep (Some e) next)
        end
      else
        obj ← causing "create direct outbound for fallback" fallback;
        let direct := mkOutbound next obj in
        Ok (mkManager dt st sg (os ++ [direct]) (<[Tag direct := direct]> byTag) dep (Some direct) (S next))
  end.

Definition Manager_Start (m : Manager) (em : Endpoints) (fallback : result Object) (s : StartStage) : Effect :=
  let 'mkManager dt st sg os byTag dep def next := m in
  if st && (stageIndex s <=? stageIndex sg)%nat then (m, [], panic "already started")
  else
    let m := mkManager dt true s os byTag dep def next in
    match s with
    | StartStateStart =>
        match resolveDefault m em fallback with
        | Err e => (m, [], Err e)
        | Ok m => let '(calls, r) := startOutbounds m (outbounds m ++ endpoints em) in (m, calls, r)
        end
    | _ => let '(calls, r) := startStage s os in (m, calls, r)
    end.

(** *** Closing *)

Definition StopTimeout : Z := 5000.

(** The loop of [Close]: the calls, and the time until it returns.  A [Close] that has not
    returned when the budget is spent is abandoned. *)
Fixpoint closeLoop (deadline now : Z) (l : list Outbound) : list Call * Z :=
  match l with
  | [] => ([], now)
  | o :: l =>
      match closer o with
      | None => closeLoop deadline now l
      | Some c =>
          let remaining := deadline - now in
          let now :=
            if remaining <=? 0 then now
            else now + match closeTime c with Some t => Z.min t remaining | None => remaining end in
          let '(calls, now) := closeLoop deadline now l in (Closed o :: calls, now)
      end
  end.

(** [Manager.Close] called at the time [now]; it always returns nil. *)
Definition Manager_Close (m : Manager) (now : Z) : Manager * list Call * Z :=
  let 'mkManager dt st sg os byTag dep def next := m in
  if negb st then (m, [], now)
  else
    let '(calls, now) := closeLoop (now + StopTimeout) now os in
    (mkManager dt false sg [] byTag dep def next, calls, now).

(** *** Finding, removing and creating *)

Definition Manager_Outbound (m : Manager) (em : Endpoints) (tag : string) : option Outbound :=
  match outboundByTag m !! tag with Some o => Some o | None => endpointByTag em !! tag end.

(** [append(l[:i], l[i+1:]...)] for the first element that is [o]; none if there is none *)
Fixpoint removeOutbound (o : Outbound) (l : list Outbound) : option (list Outbound) :=
  match l with
  | [] => None
  | x :: l => if same x o then Some l else (fun l => x :: l) <$> removeOutbound o l
  end.

Definition dependents (dep : gmap string (list string)) (tag : string) : list string := default [] (dep !! tag).

Definition addDependent (tag : string) (dep : gmap string (list string)) (dependency : string) : gmap string (list string) :=
  <[dependency := dependents dep dependency ++ [tag]]> dep.

Definition dropDependent (tag : string) (dep : gmap string (list string)) (dependency : string) : gmap string (list string) :=
  if (length (dependents dep dependency) =? 1)%nat then delete dependency dep
  else <[dependency := filter (fun it => it <> tag) (dependents dep dependency)]> dep.

Definition Manager_Remove (m : Manager) (tag : string) : Effect :=
  let 'mkManager dt st sg os byTag dep def next := m in
  match byTag !! tag : option Outbound with
  | None => (m, [], Err "invalid argument"%string)
  | Some outbound =>
      let byTag := delete tag byTag in
      match removeOutbound outbound os with
      | None => (mkManager dt st sg os byTag dep def next, [], panic "invalid inbound index")
      | Some os =>
          let def := if match def with Some d => same d outbound | None => false end then head os else def in
          let dependBy := dependents dep tag in
          if nonempty dependBy then
            (mkManager dt st sg os byTag dep def next, [],
             Err ("outbound[" +:+ tag +:+ "] is depended by " +:+ strings_Join dependBy ", ")%string)
          else
            let m := mkManager dt st sg os byTag (foldl (dropDependent tag) dep (Dependencies outbound)) def next in
            if st then (m, match closer outbound with Some _ => [Closed outbound] | None => [] end, common_Close outbound)
            else (m, [], Ok tt)
      end
  end.

(** All stages of an outbound that is created while the manager runs *)
Fixpoint startAll (o : Outbound) (stages : list StartStage) : list Call * result unit :=
  match stages with
  | [] => ([], Ok tt)
  | s :: stages =>
      match causing (stageString s +:+ " " +:+ name o)%string (LegacyStart (starter o) s) with
      | Ok _ => let '(calls, r) := startAll o stages in (Started o s :: calls, r)
      | Err e => ([Started o s], Err e)
      end
  end.

(** The second half of [Create]: the outbound takes the place of one of the same tag. *)
Definition install (m : Manager) (calls : list Call) (tag : string) (outbound : Outbound) : Effect :=
  let 'mkManager dt st sg os byTag dep def next := m in
  let replaced :=
    match byTag !! tag : option Outbound with
    | None => (calls, Ok os)
    | Some existsOutbound =>
        let calls := if st then calls ++ match closer existsOutbound with Some _ => [Closed existsOutbound] | None => [] end
                     else calls in
        (calls,
         _ ← (if st then causing ("close " +:+ name existsOutbound)%string (common_Close existsOutbound) else Ok tt);
         match removeOutbound existsOutbound os with Some os => Ok os | None => panic "invalid inbound index" end)
    end in
  match replaced with
  | (calls, Err e) => (m, calls, Err e)
  | (calls, Ok os) =>
      let def := if String.eqb tag dt || (String.eqb dt "" && negb (bool_decide (is_Some def))) then Some outbound else def in
      (mkManager dt st sg (os ++ [outbound]) (<[tag := outbound]> byTag)
         (foldl (addDependent tag) dep (Dependencies outbound)) def next, calls, Ok tt)
  end.

Definition Manager_Create {Options} (r : Registry Options) (m : Manager) (tag inboundType : string) (options : Options) : Effect :=
  if String.eqb tag "" then (m, [], Err "invalid argument"%string)
  else
    match construct r tag inboundType options with
    | Err e => (m, [], Err e)
    | Ok obj =>
        let 'mkManager dt st sg os byTag dep def next := m in
        let outbound := mkOutbound next obj in
        let m := mkManager dt st sg os byTag dep def (S next) in
        let '(calls, res) := if st then startAll outbound ListStartStages else ([], Ok tt) in
        match res with
        | Err e => (m, calls, Err e)
        | Ok _ => install m calls tag outbound
        end
    end.
