(* ===== verification/OutboundStart.v ===== *)
(** * The order in which outbounds are started

    [startOutbounds] starts an outbound only after its dependencies.  When it stops early it
    names a start that failed, a cycle of dependencies or a dependency that does not exist. *)

From S2P Require Import Prelude OutboundManager.

Definition tags (l : list Outbound) : list string := (fun o : Outbound => Tag o) <$> l.

Definition starts (l : list Outbound) : list Call := (fun o => Started o StartStateStart) <$> l.

(** Every outbound comes after its dependencies. *)
Definition ordered (l : list Outbound) : Prop := forall pre (o : Outbound) post,
  l = pre ++ o :: post -> forall d, d ∈ Dependencies o -> d ∈ tags pre.

Lemma tags_app a b : tags (a ++ b) = tags a ++ tags b.
Proof. apply fmap_app. Qed.

Lemma starts_app a b : starts (a ++ b) = starts a ++ starts b.
Proof. apply fmap_app. Qed.

Lemma elem_tags (o : Outbound) l : o ∈ l -> Tag o ∈ tags l.
Proof. intros Ho. apply list_elem_of_fmap. eauto. Qed.

Lemma tags_elem t l : t ∈ tags l -> exists o : Outbound, o ∈ l /\ Tag o = t.
Proof. intros (o & -> & Ho)%list_elem_of_fmap. eauto. Qed.

Lemma tags_inj l (a b : Outbound) : NoDup (tags l) -> a ∈ l -> b ∈ l -> Tag a = Tag b -> a = b.
Proof.
  intros Hnd [i Hi]%list_elem_of_lookup_1 [j Hj]%list_elem_of_lookup_1 Heq.
  assert (i = j) as ->; [|congruence].
  eapply NoDup_lookup; [exact Hnd| |]; unfold tags; rewrite list_lookup_fmap; [by rewrite Hi|]. by rewrite Hj, Heq.
Qed.

Lemma ordered_snoc l (o : Outbound) : ordered l -> (forall d, d ∈ Dependencies o -> d ∈ tags l) -> ordered (l ++ [o]).
Proof.
  intros Hl Ho pre x post E d Hd. destruct post as [|y post _] using rev_ind.
  - apply app_inj_tail in E as [<- <-]. auto.
  - rewrite app_comm_cons, app_assoc in E. apply app_inj_tail in E as [-> _]. by apply (Hl pre x post).
Qed.

Section start_spec.
Context (m : Manager) (toStart : list Outbound).

(** The outbounds [os] were started so far, and [done] has their tags. *)
Record progress (os : list Outbound) (done : gset string) : Prop := mkProgress {
  progress_done : forall t, t ∈ done <-> t ∈ tags os;
  progress_nodup : NoDup (tags os);
  progress_from : forall o, o ∈ os -> o ∈ toStart;
  progress_ordered : ordered os;
}.

Lemma progress_start os done (o : Outbound) :
  progress os done -> o ∈ toStart -> Tag o ∉ done -> (forall d, d ∈ Dependencies o -> d ∈ done) ->
  progress (os ++ [o]) ({[Tag o]} ∪ done).
Proof.
  intros [Hd Hn Hf Ho] Hin Hnew Hdeps. split.
  - intros t. rewrite tags_app, elem_of_app, elem_of_union, Hd, elem_of_singleton. cbn. rewrite list_elem_of_singleton. tauto.
  - rewrite tags_app. apply NoDup_app. split_and!; [done| |apply NoDup_singleton].
    intros t Ht ->%list_elem_of_singleton. by rewrite Hd in Hnew.
  - intros x [Hx|Hx%list_elem_of_singleton]%elem_of_app; [auto|by subst].
  - apply ordered_snoc; [done|]. intros d Hin'. apply Hd. auto.
Qed.

(** What stops an outbound from being started *)
Definition blocked (done : gset string) (o : Outbound) : Prop :=
  Tag o ∈ done \/ exists d, d ∈ Dependencies o /\ d ∉ done.

(** Why a call of a start method made the whole start fail *)
Definition failed (os : list Outbound) (e : error) : Prop := exists pre (o : Outbound) err,
  os = pre ++ [o] /\ LegacyStart (starter o) StartStateStart = Err err /\ e = E_Cause err ("start " +:+ name o)%string.

Lemma startPass_ok l : forall os done calls cc done' calls' cc' r,
  progress os done -> (forall o, o ∈ l -> o ∈ toStart) -> startPass l done calls cc = (done', calls', cc', r) ->
  exists new, calls' = calls ++ starts new /\ progress (os ++ new) done'
    /\ match r with
       | Ok _ => cc' = cc || nonempty new /\ (new = [] -> forall o, o ∈ l -> blocked done o)
       | Err e => failed new e
       end.
Proof.
  induction l as [|o l IH]; intros os done calls cc done' calls' cc' r Hp Hl Hs; cbn [startPass] in Hs.
  { injection Hs as <- <- <- <-. exists []. rewrite !app_nil_r. split_and!; [done|done|by rewrite orb_false_r|].
    intros _ o Ho. by apply elem_of_nil in Ho. }
  assert (Hl' : forall o, o ∈ l -> o ∈ toStart) by (intros; apply Hl; by right).
  assert (Hskip : blocked done o -> startPass l done calls cc = (done', calls', cc', r) ->
    exists new, calls' = calls ++ starts new /\ progress (os ++ new) done'
    /\ match r with
       | Ok _ => cc' = cc || nonempty new /\ (new = [] -> forall x, x ∈ o :: l -> blocked done x)
       | Err e => failed new e
       end).
  { intros Hb (new & E1 & E2 & E3)%(IH os); [|done|done]. exists new. split_and!; [done|done|].
    destruct r; [|done]. destruct E3 as [E3 E4]. split; [done|]. intros Hn x [->|Hx]%elem_of_cons; auto. }
  case_bool_decide as Hin; [apply Hskip; [by left|done]|].
  destruct (forallb _ _) eqn:Hdeps; cbn [negb] in Hs.
  - rewrite forallb_forall in Hdeps.
    assert (Hp' : progress (os ++ [o]) ({[Tag o]} ∪ done)).
    { apply progress_start; [done|apply Hl; by left|done|]. intros d Hd%list_elem_of_In. by apply Hdeps, bool_decide_eq_true in Hd. }
    destruct (LegacyStart (starter o) StartStateStart) as [[]|err] eqn:Hst; cbn [causing] in Hs.
    + apply (IH (os ++ [o])) in Hs as (new & -> & E2 & E3); [|done|done]. exists (o :: new).
      rewrite <- !app_assoc in *. cbn [app] in *. split_and!; [done|done|].
      destruct r; [destruct E3 as [-> _]; by rewrite !orb_true_r|]. destruct E3 as (pre & o' & err & -> & E3 & ->).
      exists (o :: pre), o', err. done.
    + injection Hs as <- <- <- <-. exists [o]. split_and!; [done|done|]. exists [], o, err. done.
  - apply Hskip; [|done]. right. apply not_true_iff_false in Hdeps. rewrite forallb_forall in Hdeps.
    destruct (decide (Exists (fun d => d ∉ done) (Dependencies o))) as [(d & Hd & Hn)%Exists_exists|Hall]; [eauto|].
    exfalso. apply Hdeps. intros d Hd%list_elem_of_In. apply bool_decide_eq_true. apply dec_stable. intros Hn.
    apply Hall, Exists_exists. eauto.
Qed.

(** Consecutive tags of [path ++ [tag]] are outbounds and their dependencies. *)
Definition dependsPath (path : list string) (tag : string) : Prop := forall i a b,
  path !! i = Some a -> (path ++ [tag]) !! S i = Some b -> exists o : Outbound, o ∈ toStart /\ Tag o = a /\ b ∈ Dependencies o.

Lemma dependsPath_snoc path (o : Outbound) tag :
  last path = Some (Tag o) -> o ∈ toStart -> tag ∈ Dependencies o ->
  (forall pre, path = pre ++ [Tag o] -> dependsPath pre (Tag o)) -> dependsPath path tag.
Proof.
  intros Hlast Ho Ht Hpre i a b Ha Hb. destruct path as [|x path _] using rev_ind; [done|].
  rewrite last_snoc in Hlast. injection Hlast as ->. specialize (Hpre path eq_refl).
  destruct (decide (i = length path)) as [->|Hne].
  - rewrite list_lookup_middle in Ha by done. injection Ha as <-. exists o. split_and!; [done|done|].
    rewrite lookup_app_r in Hb by (rewrite length_app; cbn; lia).
    replace (S (length path) - length (path ++ [Tag o]))%nat with 0%nat in Hb by (rewrite length_app; cbn; lia).
    by injection Hb as <-.
  - pose proof (lookup_lt_Some _ _ _ Ha) as Hlt. rewrite length_app in Hlt. cbn in Hlt.
    rewrite lookup_app_l in Ha by lia. rewrite lookup_app_l in Hb by (rewrite length_app; cbn; lia). by apply (Hpre i).
Qed.

(** The index of the manager has outbounds that are to be started. *)
Definition indexed : Prop := forall t (o : Outbound), outboundByTag m !! t = Some o -> o ∈ toStart /\ Tag o = t.

(** Some outbounds are left, and each of them waits for a dependency. *)
Definition stalled (os : list Outbound) : Prop :=
  (exists o : Outbound, o ∈ toStart /\ Tag o ∉ tags os)
  /\ forall o : Outbound, o ∈ toStart -> Tag o ∈ tags os \/ exists d, d ∈ Dependencies o /\ d ∉ tags os.

(** How a start ends *)
Inductive Outcome (os : list Outbound) : result unit -> Prop :=
  | AllStarted : (forall o, o ∈ toStart -> o ∈ os) -> Outcome os (Ok tt)
  | StartFailed e : failed os e -> Outcome os (Err e)
  | Circular path tag : stalled os -> tag ∈ path -> dependsPath path tag -> (forall t, t ∈ path -> t ∉ tags os) ->
      Outcome os (Err (circularError path tag))
  | Missing (o : Outbound) tag : stalled os -> o ∈ toStart -> tag ∈ Dependencies o -> tag ∉ tags os -> outboundByTag m !! tag = None ->
      Outcome os (Err (missingError tag o)).

Lemma first_blocked done (o : Outbound) : Tag o ∉ done -> blocked done o ->
  exists d, d ∈ Dependencies o /\ d ∉ done /\ head (filter (fun it => it ∉ done) (Dependencies o)) = Some d.
Proof.
  intros Hn [?|(d & Hd & Hnd)]; [done|]. destruct (filter _ (Dependencies o)) as [|d' l] eqn:Hf.
  - exfalso. assert (d ∈ filter (fun it => it ∉ done) (Dependencies o)) as Hin by (by apply list_elem_of_filter). rewrite Hf in Hin. by apply elem_of_nil in Hin.
  - assert (d' ∈ filter (fun it => it ∉ done) (Dependencies o)) as [? ?]%list_elem_of_filter by (rewrite Hf; by left).
    exists d'. done.
Qed.

Lemma path_length oTree start : NoDup oTree ->
  (forall t, t ∈ oTree -> t = start \/ is_Some (outboundByTag m !! t)) -> (length oTree <= S (size (outboundByTag m)))%nat.
Proof.
  intros Hnd Hall. rewrite <- (size_dom (D := gset string)), <- (size_list_to_set (C := gset string)) by done.
  transitivity (size ({[start]} ∪ dom (outboundByTag m) : gset string)).
  - apply subseteq_size. intros t Ht%elem_of_list_to_set. apply elem_of_union.
    destruct (Hall _ Ht) as [-> |Hs]; [left; by apply elem_of_singleton|right; by apply elem_of_dom].
  - rewrite size_union_alt. pose proof (subseteq_size (dom (outboundByTag m) ∖ {[start]}) (dom (outboundByTag m)) ltac:(set_solver)).
    rewrite size_singleton. lia.
Qed.

Lemma lintOutbound_ok os done start fuel : forall oTree (o : Outbound),
  indexed -> progress os done -> (forall x, x ∈ toStart -> blocked done x) ->
  (length oTree + fuel = S (S (size (outboundByTag m))))%nat -> NoDup oTree ->
  (forall t, t ∈ oTree -> t = start \/ is_Some (outboundByTag m !! t)) -> (forall t, t ∈ oTree -> t ∉ tags os) ->
  last oTree = Some (Tag o) -> o ∈ toStart -> (forall pre, oTree = pre ++ [Tag o] -> dependsPath pre (Tag o)) ->
  Outcome os (Err (lintOutbound m fuel done oTree o)).
Proof.
  induction fuel as [|fuel IH]; intros oTree o Hidx Hp Hb Hlen Hnd Hdom Hun Hlast Ho Hpath.
  { exfalso. pose proof (path_length _ _ Hnd Hdom). lia. }
  assert (HTn : Tag o ∉ tags os) by (apply Hun; by apply last_Some_elem_of).
  assert (Hn : Tag o ∉ done) by (by rewrite (progress_done _ _ Hp)).
  destruct (first_blocked _ _ Hn (Hb _ Ho)) as (d & Hd & Hdn & Hhd). cbn [lintOutbound]. rewrite Hhd. cbn [default from_option id].
  assert (Hst : stalled os).
  { split; [eauto|]. intros x Hx. rewrite <- (progress_done _ _ Hp). destruct (Hb _ Hx) as [?|(d' & ? & Hd')]; [by left|].
    right. exists d'. by rewrite <- (progress_done _ _ Hp). }
  assert (Hdp : dependsPath oTree d) by (eapply dependsPath_snoc; eauto). rewrite (progress_done _ _ Hp) in Hdn.
  case_bool_decide as Hc; [by apply Circular|].
  destruct (outboundByTag m !! d) as [p|] eqn:Hpd; [|by apply Missing].
  destruct (Hidx _ _ Hpd) as [Hpin HpT]. apply IH; try done.
  - rewrite length_app. cbn. lia.
  - apply NoDup_app. split_and!; [done| |apply NoDup_singleton]. by intros t Ht ->%list_elem_of_singleton.
  - intros t [Ht| ->%list_elem_of_singleton]%elem_of_app; [auto|]. right. eauto.
  - intros t [Ht| ->%list_elem_of_singleton]%elem_of_app; [auto|done].
  - by rewrite last_snoc, HpT.
  - intros pre E%app_inj_tail. destruct E as [-> <-]. done.
Qed.

Lemma all_started os done : NoDup (tags toStart) -> progress os done ->
  size done = length toStart -> forall o, o ∈ toStart -> o ∈ os.
Proof.
  intros Hnd Hp Hsize o Ho.
  assert (Hsub : done ⊆ list_to_set (tags toStart)).
  { intros t Ht%(progress_done _ _ Hp). apply tags_elem in Ht as (x & Hx & <-).
    apply elem_of_list_to_set, elem_tags. by apply (progress_from _ _ Hp). }
  assert (Heq : done = list_to_set (tags toStart)).
  { apply leibniz_equiv, set_subseteq_size_equiv; [done|]. rewrite (size_list_to_set (C := gset string)) by done. unfold tags. rewrite length_fmap. lia. }
  assert (Ht : Tag o ∈ done) by (rewrite Heq; by apply elem_of_list_to_set, elem_tags).
  apply (progress_done _ _ Hp) in Ht as (x & Hx & HT)%tags_elem.
  rewrite <- (tags_inj toStart x o Hnd (progress_from _ _ Hp _ Hx) Ho HT). done.
Qed.

Lemma progress_size os done : progress os done -> size done = length os.
Proof.
  intros Hp. replace (length os) with (length (tags os)) by apply length_fmap.
  rewrite <- (size_list_to_set (C := gset string) (tags os)) by apply Hp. apply set_size_proper. intros t.
  rewrite elem_of_list_to_set. apply Hp.
Qed.

Lemma progress_bound os done : NoDup (tags toStart) -> progress os done -> (length os <= length toStart)%nat.
Proof.
  intros Hnd Hp. rewrite <- (length_fmap (fun o : Outbound => Tag o) os), <- (length_fmap (fun o : Outbound => Tag o) toStart).
  apply NoDup_incl_length; [apply NoDup_ListNoDup, Hp|].
  intros t Ht%list_elem_of_In. apply tags_elem in Ht as (o & Ho & <-). apply list_elem_of_In, elem_tags. by apply Hp.
Qed.

(** The first outbound that was not started *)
Lemma stalled_outcome os done : NoDup (tags toStart) -> indexed -> progress os done -> size done <> length toStart ->
  (forall x, x ∈ toStart -> blocked done x) ->
  exists (o : Outbound) l, filter (fun it : Outbound => Tag it ∉ done) toStart = o :: l
    /\ Outcome os (Err (lintOutbound m (lintFuel m) done [Tag o] o)).
Proof.
  intros Hnd Hidx Hp Hsize Hb. destruct (filter _ toStart) as [|o l] eqn:Hf.
  - exfalso. apply Hsize. rewrite (progress_size _ _ Hp). apply Nat.le_antisymm; [by eapply progress_bound|].
    rewrite <- (progress_size _ _ Hp), <- (length_fmap (fun o : Outbound => Tag o) toStart), <- (size_list_to_set (C := gset string)) by done.
    apply subseteq_size. intros t (x & Hx & <-)%elem_of_list_to_set%tags_elem. apply dec_stable. intros Hn.
    assert (x ∈ filter (fun it : Outbound => Tag it ∉ done) toStart) as Hin by (by apply list_elem_of_filter). rewrite Hf in Hin. by apply elem_of_nil in Hin.
  - exists o, l. split; [done|].
    assert (o ∈ filter (fun it : Outbound => Tag it ∉ done) toStart) as [Hn Ho]%list_elem_of_filter by (rewrite Hf; by left).
    apply (lintOutbound_ok os done (Tag o)); try done.
    + apply NoDup_singleton.
    + intros t ->%list_elem_of_singleton. by left.
    + intros t ->%list_elem_of_singleton. by rewrite <- (progress_done _ _ Hp).
    + intros [|x pre] E; [|by destruct pre]. intros i a b Ha. done.
Qed.

Lemma startLoop_ok fuel : forall os done calls r,
  NoDup (tags toStart) -> indexed -> progress os done -> (length toStart + 2 <= fuel + length os)%nat ->
  startLoop m toStart fuel done (starts os) = (calls, r) ->
  exists os' done', calls = starts os' /\ progress os' done' /\ Outcome os' r.
Proof.
  induction fuel as [|fuel IH]; intros os done calls r Hnd Hidx Hp Hfuel Hs.
  { pose proof (progress_bound _ _ Hnd Hp). lia. }
  cbn [startLoop] in Hs. destruct (startPass _ _ _ _) as [[[done' calls'] cc'] r'] eqn:Hpass.
  apply (startPass_ok toStart os) in Hpass as (new & -> & Hp' & Hr); [|done|done].
  rewrite <- starts_app in Hs.
  destruct r' as [[]|e].
  - destruct Hr as [-> Hblocked]. cbn [orb] in Hs. destruct (Nat.eqb_spec (size done') (length toStart)) as [Heq|Hne].
    { injection Hs as <- <-. exists (os ++ new), done'. split_and!; [done|done|]. apply AllStarted. by eapply all_started. }
    destruct new as [|o new]; cbn [nonempty] in Hs.
    + rewrite app_nil_r in *. destruct (stalled_outcome os done' Hnd Hidx Hp' Hne) as (o & l & Hf & Ho).
      { intros x Hx. destruct (Hblocked eq_refl x Hx) as [Hb|(d & Hd & Hb)]; [left|right; exists d; split; [done|]];
          rewrite (progress_done _ _ Hp'), <- (progress_done _ _ Hp); done. }
      rewrite Hf in Hs. injection Hs as <- <-. by exists os, done'.
    + apply (IH (os ++ o :: new) done' calls r); try done. rewrite length_app. cbn. lia.
  - injection Hs as <- <-. exists (os ++ new), done'. split_and!; [done|done|]. apply StartFailed.
    destruct Hr as (pre & o & err & -> & E & ->). exists (os ++ pre), o, err. by rewrite app_assoc.
Qed.

Lemma progress_0 : progress [] ∅.
Proof.
  split; [|constructor| |].
  - intros t. cbn. by rewrite elem_of_empty, elem_of_nil.
  - intros o Ho. by apply elem_of_nil in Ho.
  - intros pre o post E. by destruct pre.
Qed.

Lemma startOutbounds_ok calls r :
  NoDup (tags toStart) -> indexed -> startOutbounds m toStart = (calls, r) ->
  exists os, calls = starts os /\ NoDup (tags os) /\ (forall o, o ∈ os -> o ∈ toStart) /\ ordered os /\ Outcome os r.
Proof.
  intros Hnd Hidx Hs. apply (startLoop_ok _ [] ∅) in Hs as (os & dn & -> & [_ ? ? ?] & Ho); [eauto 7|done|done|apply progress_0|cbn; lia].
Qed.

(** ** Dependencies without cycles *)

(** Every dependency is to be started as well, and has a smaller rank. *)
Definition acyclic (rank : string -> nat) : Prop := forall o : Outbound, o ∈ toStart -> forall d, d ∈ Dependencies o ->
  d ∈ tags toStart /\ (rank d < rank (Tag o))%nat.

Lemma acyclic_not_stalled rank os : acyclic rank -> ~ stalled os.
Proof.
  intros Hrank [(o & Ho & Hn) Hall]. remember (rank (Tag o)) as n eqn:En. revert o Ho Hn En.
  induction n as [n IH] using lt_wf_ind. intros o Ho Hn ->.
  destruct (Hall _ Ho) as [|(d & Hd & Hdn)]; [done|]. destruct (Hrank _ Ho _ Hd) as [(o' & Ho' & <-)%tags_elem Hlt].
  by apply (IH _ Hlt o').
Qed.

Lemma startOutbounds_complete rank :
  NoDup (tags toStart) -> indexed -> acyclic rank ->
  (forall o : Outbound, o ∈ toStart -> LegacyStart (starter o) StartStateStart = Ok tt) ->
  exists os, startOutbounds m toStart = (starts os, Ok tt) /\ os ≡ₚ toStart.
Proof.
  intros Hnd Hidx Hrank Hok. destruct (startOutbounds m toStart) as [calls r] eqn:Hs.
  apply startOutbounds_ok in Hs as (os & -> & Hos & Hfrom & Hord & Hout); [|done|done].
  destruct Hout as [Hall|e (pre & o & err & -> & Herr & _)|path tag Hst|o tag Hst].
  - exists os. split; [done|]. apply NoDup_Permutation; [by eapply NoDup_fmap_1..|]. intros o. split; auto.
  - rewrite Hok in Herr; [done|]. apply Hfrom, elem_of_app. right. by apply list_elem_of_singleton.
  - by destruct (acyclic_not_stalled rank os Hrank Hst).
  - by destruct (acyclic_not_stalled rank os Hrank Hst).
Qed.
End start_spec.
