(* ===== verification/OutboundManagerSpec.v ===== *)
(** * What the outbound manager guarantees

    Its index, its list and its record of dependents agree whatever is created, removed and
    started; outbounds are started in the order of their dependencies; one that cannot be
    created becomes a placeholder; closing takes bounded time. *)

From S2P Require Import Prelude OutboundManager OutboundStart.

(** ** The invariant *)

Record wf (m : Manager) : Prop := mkWf {
  wf_index : forall t (o : Outbound), outboundByTag m !! t = Some o <-> o ∈ outbounds m /\ Tag o = t;
  wf_ptr : NoDup (ptr <$> outbounds m);
  wf_fresh : forall o : Outbound, o ∈ outbounds m -> (ptr o < nextPtr m)%nat;
  wf_deps : forall o : Outbound, o ∈ outbounds m -> NoDup (Dependencies o);
  (** a dependency knows who depends on it *)
  wf_dependents : forall o : Outbound, o ∈ outbounds m -> forall d, d ∈ Dependencies o -> Tag o ∈ dependents (dependByTag m) d;
  (** without a tag for it, the first outbound is the default *)
  wf_default : defaultTag m = ""%string -> defaultOutbound m = None -> outbounds m = [];
}.

Lemma wf_tags m : wf m -> NoDup (tags (outbounds m)).
Proof.
  intros Hwf. pose proof (wf_index _ Hwf) as Hidx. pose proof (wf_ptr _ Hwf) as Hptr.
  apply NoDup_alt. intros i j t Hi Hj. unfold tags in *. rewrite list_lookup_fmap in Hi, Hj.
  destruct (outbounds m !! i) as [a|] eqn:Ha; [|done]. destruct (outbounds m !! j) as [b|] eqn:Hb; [|done].
  injection Hi as Hi. injection Hj as Hj.
  assert (a = b) as ->.
  { pose proof (proj2 (Hidx t a) (conj (list_elem_of_lookup_2 _ _ _ Ha) Hi)) as E1.
    pose proof (proj2 (Hidx t b) (conj (list_elem_of_lookup_2 _ _ _ Hb) Hj)) as E2. congruence. }
  eapply NoDup_lookup; [exact Hptr| |]; rewrite list_lookup_fmap; [by rewrite Ha|by rewrite Hb].
Qed.

Lemma same_eq m (a b : Outbound) : wf m -> a ∈ outbounds m -> b ∈ outbounds m -> same a b = true -> a = b.
Proof.
  intros Hwf [i Hi]%list_elem_of_lookup_1 [j Hj]%list_elem_of_lookup_1 Heq%Nat.eqb_eq.
  assert (i = j) as ->; [|congruence]. eapply NoDup_lookup; [apply (wf_ptr _ Hwf)| |]; rewrite list_lookup_fmap; [by rewrite Hi|].
  by rewrite Hj, Heq.
Qed.

(** ** Removing from the list *)

Lemma removeOutbound_some o l : o ∈ l -> exists l', removeOutbound o l = Some l'.
Proof.
  induction 1 as [x l|x y l _ (l' & IH)]; cbn [removeOutbound]; unfold same.
  - rewrite Nat.eqb_refl. eauto.
  - destruct (ptr y =? ptr x)%nat; [eauto|]. rewrite IH. cbn. eauto.
Qed.

Lemma removeOutbound_ok o l l' : NoDup (ptr <$> l) -> o ∈ l -> removeOutbound o l = Some l' ->
  exists a b, l = a ++ o :: b /\ l' = a ++ b.
Proof.
  revert l'. induction l as [|x l IH]; intros l' Hnd Hin Hr; cbn [removeOutbound] in Hr; [done|].
  apply NoDup_cons in Hnd as [Hx Hnd]. unfold same in Hr. destruct (Nat.eqb_spec (ptr x) (ptr o)) as [E|E].
  - injection Hr as <-. apply elem_of_cons in Hin as [->|Hin]; [by exists [], l|]. exfalso. apply Hx. rewrite E.
    by apply list_elem_of_fmap_2.
  - apply elem_of_cons in Hin as [->|Hin]; [done|]. destruct (removeOutbound o l) as [l0|] eqn:Hl; [|done].
    injection Hr as <-. destruct (IH _ Hnd Hin eq_refl) as (a & b & -> & ->). by exists (x :: a), b.
Qed.

(** The state without [o], which had the tag [t] *)
Lemma wf_without m (o : Outbound) l t :
  wf m -> outboundByTag m !! t = Some o -> removeOutbound o (outbounds m) = Some l ->
  (forall (x : Outbound), x ∈ l <-> x ∈ outbounds m /\ x <> o) /\ NoDup (ptr <$> l)
  /\ (forall t' (x : Outbound), delete t (outboundByTag m) !! t' = Some x <-> x ∈ l /\ Tag x = t').
Proof.
  intros Hwf Ho Hr. destruct (proj1 (wf_index _ Hwf _ _) Ho) as [Hin HT].
  destruct (removeOutbound_ok _ _ _ (wf_ptr _ Hwf) Hin Hr) as (a & b & El & ->).
  pose proof (wf_ptr _ Hwf) as Hnd. rewrite El in Hnd. rewrite fmap_app in Hnd. cbn in Hnd.
  assert (Hnd' : NoDup (ptr <$> a ++ b) /\ ptr o ∉ ptr <$> a ++ b).
  { rewrite fmap_app. apply NoDup_app in Hnd as (H1 & H2 & H3). apply NoDup_cons in H3 as [H3 H4]. split.
    - apply NoDup_app. split_and!; [done| |done]. intros x Hx Hxb. apply (H2 x Hx). by right.
    - intros [H5|H5]%elem_of_app; [|done]. apply (H2 _ H5). by left. }
  destruct Hnd' as [Hnd' Hno].
  assert (Hmem : forall x : Outbound, x ∈ a ++ b <-> x ∈ outbounds m /\ x <> o).
  { intros x. rewrite El, !elem_of_app, elem_of_cons. split; [|tauto].
    intros Hx. split; [tauto|]. intros ->. apply Hno. apply list_elem_of_fmap_2, elem_of_app. tauto. }
  split_and!; [done|done|]. intros t' x. rewrite Hmem, lookup_delete_Some, (wf_index _ Hwf). split.
  - intros (Hne & Hx & HTx). split_and!; [done| |done]. intros ->. congruence.
  - intros ((Hx & Hne) & HTx). split_and!; [|done|done]. intros ->.
    apply Hne. assert (E : outboundByTag m !! Tag x = Some x) by (by apply (wf_index _ Hwf)). congruence.
Qed.

(** ** Dependents *)

Lemma dependents_insert dep d l d' : dependents (<[d := l]> dep) d' = if decide (d = d') then l else dependents dep d'.
Proof.
  unfold dependents. destruct (decide (d = d')) as [->|Hne]; [by rewrite lookup_insert_eq|by rewrite lookup_insert_ne].
Qed.

Lemma dependents_delete dep d d' : dependents (delete d dep) d' = if decide (d = d') then [] else dependents dep d'.
Proof.
  unfold dependents. destruct (decide (d = d')) as [->|Hne]; [by rewrite lookup_delete_eq|by rewrite lookup_delete_ne].
Qed.

Lemma addDependents_ok tag ds : forall dep d x,
  x ∈ dependents (foldl (addDependent tag) dep ds) d <-> x ∈ dependents dep d \/ (x = tag /\ d ∈ ds).
Proof.
  induction ds as [|d0 ds IH]; intros dep d x; cbn [foldl].
  - rewrite elem_of_nil. tauto.
  - rewrite IH. unfold addDependent. rewrite dependents_insert, elem_of_cons. destruct (decide (d0 = d)) as [->|Hne].
    + rewrite elem_of_app, list_elem_of_singleton. tauto.
    + naive_solver.
Qed.

(** Dropping the dependents of an outbound drops its tag only. *)
Lemma dropDependents_ok tag ds : forall dep,
  NoDup ds -> (forall d, d ∈ ds -> tag ∈ dependents dep d) ->
  forall d x, x <> tag -> x ∈ dependents (foldl (dropDependent tag) dep ds) d <-> x ∈ dependents dep d.
Proof.
  induction ds as [|d0 ds IH]; intros dep Hnd Hall d x Hx; cbn [foldl]; [done|].
  apply NoDup_cons in Hnd as [Hd0 Hnd].
  assert (Hd : forall d', dependents (dropDependent tag dep d0) d' =
    if decide (d0 = d') then filter (fun it => it <> tag) (dependents dep d0) else dependents dep d').
  { intros d'. unfold dropDependent. destruct (Nat.eqb_spec (length (dependents dep d0)) 1) as [E|E]; [|by rewrite dependents_insert].
    rewrite dependents_delete. destruct (decide (d0 = d')) as [->|]; [|done].
    specialize (Hall d' ltac:(by left)). destruct (dependents dep d') as [|y [|z l]]; [done| |done].
    apply list_elem_of_singleton in Hall as <-. rewrite filter_cons_False by tauto. done. }
  rewrite IH; [rewrite Hd|done| |done].
  - destruct (decide (d0 = d)) as [->|]; [|done]. rewrite list_elem_of_filter. tauto.
  - intros d' Hd'. rewrite Hd. rewrite decide_False by (intros ->; done). apply Hall. by right.
Qed.

(** ** Every operation keeps the invariant *)

Lemma wf_new tag : wf (NewManager tag).
Proof.
  split; cbn; try done.
  - intros t o. rewrite lookup_empty, elem_of_nil. naive_solver.
  - constructor.
  - intros o Ho. by apply elem_of_nil in Ho.
  - intros o Ho. by apply elem_of_nil in Ho.
  - intros o Ho. by apply elem_of_nil in Ho.
Qed.

Lemma filter_all (P : Outbound -> Prop) `{!forall x, Decision (P x)} (l : list Outbound) : (forall x, x ∈ l -> P x) -> filter P l = l.
Proof.
  induction l as [|x l IH]; intros Hl; [done|]. rewrite filter_cons_True by (apply Hl; by left). f_equal. apply IH.
  intros y Hy. apply Hl. by right.
Qed.

Lemma removed_filter m (o : Outbound) l : wf m -> o ∈ outbounds m -> removeOutbound o (outbounds m) = Some l ->
  l = filter (fun x : Outbound => Tag x <> Tag o) (outbounds m).
Proof.
  intros Hwf Ho Hr. pose proof (wf_tags _ Hwf) as Hnd.
  destruct (removeOutbound_ok _ _ _ (wf_ptr _ Hwf) Ho Hr) as (a & b & El & ->). rewrite El in *.
  rewrite tags_app in Hnd. apply NoDup_app in Hnd as (_ & Ha & Hb). apply NoDup_cons in Hb as [Hb _].
  rewrite filter_app, filter_cons_False by tauto. rewrite !filter_all; [done| |].
  - intros x Hx E. apply Hb. rewrite <- E. by apply elem_tags.
  - intros x Hx E. apply (Ha (Tag x)); [by apply elem_tags|]. rewrite E. by left.
Qed.

Lemma wf_remove m tag m' calls r : wf m -> Manager_Remove m tag = (m', calls, r) ->
  wf m' /\ outboundByTag m' !! tag = None /\ outbounds m' = filter (fun o : Outbound => Tag o <> tag) (outbounds m)
  /\ (r = Ok tt -> forall o : Outbound, o ∈ outbounds m' -> tag ∉ Dependencies o).
Proof.
  intros Hwf Hr. unfold Manager_Remove in Hr. destruct m as [dt st sg os byTag dep def next].
  destruct (byTag !! tag) as [o|] eqn:Ho; [|injection Hr as <- <- <-; cbn; split_and!; [done|done| |done]].
  2: { symmetry. apply filter_all. intros x Hx <-. assert (E : byTag !! Tag x = Some x) by (by apply (wf_index _ Hwf)). congruence. }
  pose proof (wf_index _ Hwf tag o) as [Hi _]. destruct (Hi Ho) as [Hin HT]. clear Hi. cbn in Hin.
  destruct (removeOutbound_some _ _ Hin) as (l & Hl). rewrite Hl in Hr.
  destruct (wf_without _ o l tag Hwf Ho Hl) as (Hmem & Hnd & Hidx). cbn in Hmem, Hidx.
  assert (Hfil : l = filter (fun o : Outbound => Tag o <> tag) os) by (rewrite <- HT; by apply (removed_filter _ _ _ Hwf)).
  set (def' := if match def with Some d => same d o | None => false end then head l else def) in Hr.
  assert (Hdef : dt = ""%string -> def' = None -> l = []).
  { intros Hdt Hd. subst def'. destruct def as [d|].
    - destruct (same d o); [|done]. by destruct l.
    - pose proof (wf_default _ Hwf Hdt eq_refl) as E. cbn in E. subst os. by apply elem_of_nil in Hin. }
  assert (Hother : forall x : Outbound, x ∈ l -> Tag x <> tag).
  { intros x Hx E. pose proof (proj2 (Hidx (Tag x) x) (conj Hx eq_refl)) as [? _]%lookup_delete_Some. congruence. }
  assert (Hkeep : forall dep', (forall x d, x <> tag -> x ∈ dependents dep' d <-> x ∈ dependents dep d) ->
    wf (mkManager dt st sg l (delete tag byTag) dep' def' next)).
  { intros dep' Hdep. split; cbn; [done|done| | | |done].
    - intros x Hx%Hmem. apply (wf_fresh _ Hwf). tauto.
    - intros x Hx%Hmem. apply (wf_deps _ Hwf). tauto.
    - intros x Hx d Hd. apply Hdep; [by apply Hother|]. apply (wf_dependents _ Hwf); [|done]. by apply Hmem. }
  destruct (nonempty (dependents dep tag)) eqn:Hne.
  - injection Hr as <- <- <-. cbn. split_and!; [by apply Hkeep|apply lookup_delete_eq|done|done].
  - assert (Hfin : forall m', m' = mkManager dt st sg l (delete tag byTag) (foldl (dropDependent tag) dep (Dependencies o)) def' next ->
      wf m' /\ outboundByTag m' !! tag = None /\ outbounds m' = filter (fun o : Outbound => Tag o <> tag) os
      /\ (forall x : Outbound, x ∈ outbounds m' -> tag ∉ Dependencies x)).
    { intros m0 ->. cbn. split_and!; [|apply lookup_delete_eq|done|].
      - apply Hkeep. intros x d Hx. apply dropDependents_ok; [by apply (wf_deps _ Hwf)| |done].
        intros d' Hd'. rewrite <- HT. by apply (wf_dependents _ Hwf).
      - intros x Hx Hd. apply Hmem in Hx as [Hx _]. pose proof (wf_dependents _ Hwf x Hx _ Hd) as Hin'. cbn in Hin'.
        destruct (dependents dep tag); [by apply elem_of_nil in Hin'|done]. }
    destruct (Hfin _ eq_refl) as (? & ? & ? & ?). destruct st; injection Hr as <- <- <-; split_and!; (done || congruence || auto).
Qed.

(** [install] after the outbound of the same tag was taken out *)
Lemma wf_put m (o : Outbound) l byTag def :
  wf m -> (forall x : Outbound, x ∈ l -> x ∈ outbounds m /\ Tag x <> Tag o) -> NoDup (ptr <$> l) ->
  (forall t (x : Outbound), byTag !! t = Some x /\ t <> Tag o <-> x ∈ l /\ Tag x = t) ->
  (forall x : Outbound, x ∈ outbounds m -> (ptr x < ptr o)%nat) -> (ptr o < nextPtr m)%nat -> NoDup (Dependencies o) ->
  (defaultTag m = ""%string -> def = None -> False) ->
  wf (mkManager (defaultTag m) (started m) (stage m) (l ++ [o]) (<[Tag o := o]> byTag)
        (foldl (addDependent (Tag o)) (dependByTag m) (Dependencies o)) def (nextPtr m)).
Proof.
  intros Hwf Hl Hnd Hidx Hlt Hnext Hdeps Hdef. split; cbn.
  - intros t x. rewrite elem_of_app, list_elem_of_singleton, lookup_insert_Some. specialize (Hidx t x). split.
    + intros [[<- <-]|[Hne Hx]]; [tauto|]. destruct (proj1 Hidx (conj Hx (not_eq_sym Hne))). tauto.
    + intros [[Hx| ->] HT]; [|tauto]. right. destruct (proj2 Hidx (conj Hx HT)). split; congruence.
  - rewrite fmap_app. apply NoDup_app. split_and!; [done| |apply NoDup_singleton].
    intros p (x & -> & Hx)%list_elem_of_fmap Hp%list_elem_of_singleton. cbn in Hp. destruct (Hl _ Hx) as [Hx' _]. pose proof (Hlt _ Hx'). lia.
  - intros x [Hx| ->%list_elem_of_singleton]%elem_of_app; [|done]. apply (wf_fresh _ Hwf). by apply Hl.
  - intros x [Hx| ->%list_elem_of_singleton]%elem_of_app; [|done]. apply (wf_deps _ Hwf). by apply Hl.
  - intros x [Hx| ->%list_elem_of_singleton]%elem_of_app d Hd; apply addDependents_ok; [|tauto].
    left. apply (wf_dependents _ Hwf); [by apply Hl|done].
  - intros Hdt Hd. by destruct (Hdef Hdt Hd).
Qed.

Lemma install_ok m calls (o : Outbound) m' calls' r :
  wf m -> (forall x : Outbound, x ∈ outbounds m -> (ptr x < ptr o)%nat) -> (ptr o < nextPtr m)%nat -> NoDup (Dependencies o) ->
  install m calls (Tag o) o = (m', calls', r) ->
  match r with
  | Ok _ => wf m' /\ outboundByTag m' = <[Tag o := o]> (outboundByTag m)
      /\ outbounds m' = filter (fun x : Outbound => Tag x <> Tag o) (outbounds m) ++ [o]
  | Err _ => m' = m /\ started m = true
  end.
Proof.
  intros Hwf Hlt Hnext Hdeps. unfold install. destruct m as [dt st sg os byTag dep def next].
  set (def' := if _ || _ then Some o else def).
  assert (Hdef : dt = ""%string -> def' = None -> False).
  { intros -> Hd. subst def'. destruct (String.eqb (Tag o) ""), def; cbn in Hd; done. }
  destruct (byTag !! Tag o) as [old|] eqn:Hold.
  - pose proof (proj1 (wf_index _ Hwf _ _) Hold) as [Hin HT]. cbn in Hin.
    destruct (removeOutbound_some _ _ Hin) as (l & Hl). rewrite Hl.
    destruct (wf_without _ old l (Tag o) Hwf Hold Hl) as (Hmem & Hnd & Hidx). cbn in Hmem, Hidx.
    assert (Hres : forall e, (_ ← (if st then causing ("close " +:+ name old)%string (common_Close old) else Ok tt); Ok l) = Err e -> st = true)
      by (by destruct st).
    destruct (_ ≫= _) as [l0|e] eqn:Hc; [|intros [= <- <- <-]; split; [done|by eapply Hres]].
    apply bind_ok in Hc as (_ & _ & [= <-]). intros [= <- <- <-]. split_and!; [|done|].
    + apply (wf_put _ o l byTag def' Hwf); cbn; try done.
      * intros x Hx. split; [by apply Hmem|]. intros E.
        pose proof (proj2 (Hidx (Tag x) x) (conj Hx eq_refl)) as [? _]%lookup_delete_Some. congruence.
      * intros t x. rewrite <- Hidx, lookup_delete_Some. naive_solver.
    + cbn. f_equal. rewrite <- HT. by apply (removed_filter _ _ _ Hwf).
  - intros [= <- <- <-].
    assert (Hno : forall x : Outbound, x ∈ os -> Tag x <> Tag o).
    { intros x Hx E. assert (E' : byTag !! Tag x = Some x) by (by apply (wf_index _ Hwf)). congruence. }
    split_and!; [|done|].
    + apply (wf_put _ o os byTag def' Hwf); cbn; try done; [by auto|apply (wf_ptr _ Hwf)|].
      intros t x. rewrite <- (wf_index _ Hwf). cbn. split; [tauto|]. intros Hx. split; [done|]. intros ->. congruence.
    + cbn. by rewrite filter_all.
Qed.

(** Without a started manager, [install] calls nothing. *)
Lemma install_quiet m calls tag (o : Outbound) m' calls' res :
  started m = false -> install m calls tag o = (m', calls', res) -> calls' = calls.
Proof.
  unfold install. destruct m as [dt st sg os byTag dep def next]. cbn. intros ->.
  destruct (byTag !! tag) as [old|]; [|by intros [= <- <- <-]]. destruct (_ ≫= _); by intros [= <- <- <-].
Qed.

Section operations.
Context {Options : Type} (r : Registry Options).

(** Constructors give the outbound the tag they are given, and name each dependency once. *)
Definition goodRegistry : Prop := forall ty constructor tag options obj,
  r !! ty = Some constructor -> constructor tag options = Returned (Ok obj) -> Tag obj = tag /\ NoDup (Dependencies obj).

Lemma CreateOutbound_good tag ty options obj : goodRegistry ->
  CreateOutbound r tag ty options = Returned (Ok obj) -> Tag obj = tag /\ NoDup (Dependencies obj).
Proof. unfold CreateOutbound. intros Hr. destruct (r !! ty) as [c|] eqn:Hc; [by apply (Hr ty)|done]. Qed.

Lemma construct_good tag ty options obj : goodRegistry ->
  construct r tag ty options = Ok obj -> Tag obj = tag /\ NoDup (Dependencies obj).
Proof.
  intros Hr. unfold construct. destruct (CreateOutbound r tag ty _) as [[obj'|e]|msg] eqn:Hc.
  - intros [= ->]. by eapply CreateOutbound_good.
  - destruct (CreateOutbound r tag TypeInvalidConfig _) as [[obj''|]|] eqn:Hi; intros [= ->]. by eapply CreateOutbound_good.
  - destruct (CreateOutbound r tag TypeInvalidConfig _) as [[obj''|]|] eqn:Hi; intros [= ->]. by eapply CreateOutbound_good.
Qed.

Lemma construct_total tag ty options : r !! TypeInvalidConfig = Some invalid_New ->
  exists obj, construct r tag ty options = Ok obj /\
    match CreateOutbound r tag ty (GivenOptions options) with
    | Returned (Ok obj') => obj = obj'
    | _ => Type_ obj = TypeInvalidConfig /\ Dependencies obj = []
    end.
Proof.
  intros Hinv. unfold construct. destruct (CreateOutbound r tag ty _) as [[obj|e]|msg]; [eauto| |];
    unfold CreateOutbound; rewrite Hinv; eexists; (split; [reflexivity|done]).
Qed.

Lemma wf_next m : wf m -> wf (mkManager (defaultTag m) (started m) (stage m) (outbounds m) (outboundByTag m) (dependByTag m) (defaultOutbound m) (S (nextPtr m))).
Proof. intros [H1 H2 H3 H4 H5 H6]. split; cbn; try done. intros o Ho. pose proof (H3 o Ho). lia. Qed.

Lemma wf_create m tag ty options m' calls res : goodRegistry -> wf m ->
  Manager_Create r m tag ty options = (m', calls, res) -> wf m'.
Proof.
  intros Hr Hwf. unfold Manager_Create. destruct (String.eqb tag ""); [by intros [= <- <- <-]|].
  destruct (construct r tag ty options) as [obj|e] eqn:Hobj; [|by intros [= <- <- <-]].
  apply construct_good in Hobj as [HT Hd]; [|done]. pose proof (wf_next _ Hwf) as Hwf'.
  destruct m as [dt st sg os byTag dep def next].
  destruct (if st then _ else _) as [calls0 [[]|e]]; [|by intros [= <- <- <-]].
  intros Hi. rewrite <- HT in Hi. change (Tag obj) with (Tag (mkOutbound next obj)) in Hi. apply install_ok in Hi; try done.
  - destruct res; [tauto|]. destruct Hi as [-> _]. done.
  - intros x Hx. by apply (wf_fresh _ Hwf).
  - cbn. lia.
Qed.

Lemma wf_start m em fallback s m' calls res : wf m ->
  (forall obj, fallback = Ok obj -> Dependencies obj = []) ->
  Manager_Start m em fallback s = (m', calls, res) -> wf m'.
Proof.
  intros Hwf Hf. unfold Manager_Start. destruct m as [dt st sg os byTag dep def next].
  destruct (st && _); [by intros [= <- <- <-]|].
  assert (Hwf' : wf (mkManager dt true s os byTag dep def next)) by (destruct Hwf; by split).
  assert (Hother : forall r0, (let '(calls, r) := r0 : list Call * result unit in (mkManager dt true s os byTag dep def next, calls, r)) = (m', calls, res) -> wf m')
    by (intros [c x] [= <- <- <-]; done).
  destruct s; try (by apply Hother). destruct (resolveDefault _ em fallback) as [m0|e] eqn:Hd; [|by intros [= <- <- <-]].
  destruct (startOutbounds _ _) as [c x]. intros [= <- <- <-]. unfold resolveDefault in Hd.
  destruct def as [d|]; [by injection Hd as <-|]. destruct (String.eqb_spec dt "") as [->|Hne]; cbn [negb] in Hd.
  - apply bind_ok in Hd as (obj & Hobj%causing_ok & [= <-]). pose proof (wf_default _ Hwf eq_refl eq_refl) as E. cbn in E. subst os.
    pose proof (wf_put _ (mkOutbound next obj) [] byTag (Some (mkOutbound next obj)) (wf_next _ Hwf')) as Hput. cbn in Hput.
    rewrite (Hf _ Hobj) in Hput. cbn in Hput. apply Hput; try done; [..|lia|constructor].
    + intros x0 Hx. by apply elem_of_nil in Hx.
    + constructor.
    + intros t x0. pose proof (wf_index _ Hwf t x0) as E. cbn in E. rewrite E, elem_of_nil. tauto.
    + intros x0 Hx. by apply elem_of_nil in Hx.
  - destruct (endpointByTag em !! dt); [|done]. injection Hd as <-. destruct Hwf'. by split.
Qed.

(** ** The life of a manager *)

(** What happens to a manager after its creation; [Close] ends it. *)
Inductive step (em : Endpoints) : Manager -> Manager -> Prop :=
  | step_create m tag ty options m' calls res :
      Manager_Create r m tag ty options = (m', calls, res) -> step em m m'
  | step_remove m tag m' calls res : Manager_Remove m tag = (m', calls, res) -> step em m m'
  | step_start m fallback s m' calls res : (forall obj, fallback = Ok obj -> Dependencies obj = []) ->
      Manager_Start m em fallback s = (m', calls, res) -> step em m m'.

Lemma reachable_wf em tag m : goodRegistry -> rtc (step em) (NewManager tag) m -> wf m.
Proof.
  intros Hr Hm. apply rtc_nsteps in Hm as (n & Hn). assert (Hwf : wf (NewManager tag)) by apply wf_new.
  induction Hn as [|n a b c Hstep _ IH]; [done|]. apply IH. destruct Hstep.
  - by eapply wf_create.
  - by eapply wf_remove.
  - by eapply wf_start.
Qed.

(** C24. With constructors that give an outbound its tag and name no dependency twice:
    whatever is created, removed and started, failures included, the index by tag and
    the list of outbounds agree, no two outbounds share a tag, and every dependency of
    an outbound has it among its recorded dependents (the record may also hold
    others); a removal takes out exactly the outbound of its tag and, when it
    succeeds, leaves nothing that depends on it. *)
Theorem manager_invariant (em : Endpoints) (tag : string) (m : Manager) :
  goodRegistry -> rtc (step em) (NewManager tag) m ->
  wf m /\ NoDup (tags (outbounds m))
  /\ forall t m' calls res, Manager_Remove m t = (m', calls, res) ->
       outboundByTag m' !! t = None /\ outbounds m' = filter (fun o : Outbound => Tag o <> t) (outbounds m)
       /\ (res = Ok tt -> forall o : Outbound, o ∈ outbounds m' -> t ∉ Dependencies o).
Proof.
  intros Hr Hm. pose proof (reachable_wf em tag m Hr Hm) as Hwf. split_and!; [done|by apply wf_tags|].
  intros t m' calls res Hrm. destruct (wf_remove _ _ _ _ _ Hwf Hrm) as (_ & H1 & H2 & H3). done.
Qed.

(** An outbound that cannot be created does not stop the others: with the placeholder
    registered, [Create] on a manager that was not started succeeds whatever the constructor
    returns and even if it panics; the tag then stands for the new outbound, or for the
    placeholder if the constructor failed, at the end of the list, and other outbounds stay. *)
Theorem create_degrades (m : Manager) (tag ty : string) (options : Options) :
  goodRegistry -> r !! TypeInvalidConfig = Some invalid_New -> wf m -> started m = false -> tag <> ""%string ->
  exists m' (o : Outbound), Manager_Create r m tag ty options = (m', [], Ok tt)
    /\ outboundByTag m' = <[tag := o]> (outboundByTag m)
    /\ outbounds m' = filter (fun x : Outbound => Tag x <> tag) (outbounds m) ++ [o]
    /\ match CreateOutbound r tag ty (GivenOptions options) with
       | Returned (Ok obj) => object o = obj
       | _ => Type_ o = TypeInvalidConfig /\ Dependencies o = []
       end.
Proof.
  intros Hr Hinv Hwf Hst Htag. destruct (construct_total tag ty options Hinv) as (obj & Hobj & Hspec).
  destruct (construct_good _ _ _ _ Hr Hobj) as [HT Hd]. unfold Manager_Create.
  destruct (String.eqb_spec tag "") as [|_]; [done|]. rewrite Hobj. pose proof (wf_next _ Hwf) as Hwf'.
  destruct m as [dt st sg os byTag dep def next]. cbn in Hst. subst st tag.
  destruct (install _ [] (Tag obj) (mkOutbound next obj)) as [[m' calls] res] eqn:Hi. exists m', (mkOutbound next obj).
  pose proof Hi as Hcalls. apply install_quiet in Hcalls as ->; [|done].
  apply (install_ok _ [] (mkOutbound next obj)) in Hi; [|done| |cbn; lia|done].
  - destruct res as [[]|e]; [|by destruct Hi as [_ [=]]]. destruct Hi as (_ & H1 & H2). split_and!; [done|done|done|].
    by destruct (CreateOutbound r (Tag obj) ty (GivenOptions options)) as [[]|].
  - intros x Hx. by apply (wf_fresh _ Hwf).
Qed.
End operations.

(** ** Starting *)

Lemma wf_indexed m em : wf m -> indexed m (outbounds m ++ endpoints em).
Proof. intros Hwf t o Ho. apply (wf_index _ Hwf) in Ho as [Ho HT]. split; [|done]. apply elem_of_app. by left. Qed.

(** C23. For a consistent manager whose outbounds and endpoints all have distinct
    tags: they are started in an order that respects their dependencies, each at most
    once, and the start ends with all of them started, with a start that failed, or,
    when those left wait for each other, with an error that names a cycle of
    dependencies or a dependency whose tag is not in the manager's index of outbounds;
    endpoints are not in that index, so an endpoint that cannot be started yet is
    reported as not found too. *)
Theorem start_order (m : Manager) (em : Endpoints) (calls : list Call) (res : result unit) :
  wf m -> NoDup (tags (outbounds m ++ endpoints em)) ->
  startOutbounds m (outbounds m ++ endpoints em) = (calls, res) ->
  exists os, calls = starts os /\ NoDup (tags os) /\ (forall o, o ∈ os -> o ∈ outbounds m ++ endpoints em)
    /\ ordered os /\ Outcome m (outbounds m ++ endpoints em) os res.
Proof. intros Hwf Hnd. apply startOutbounds_ok; [done|by apply wf_indexed]. Qed.

(** If every dependency exists, no outbound depends on itself through others and every
    start method succeeds, all outbounds and endpoints are started. *)
Theorem start_complete (m : Manager) (em : Endpoints) (rank : string -> nat) :
  wf m -> NoDup (tags (outbounds m ++ endpoints em)) -> acyclic (outbounds m ++ endpoints em) rank ->
  (forall o : Outbound, o ∈ outbounds m ++ endpoints em -> LegacyStart (starter o) StartStateStart = Ok tt) ->
  exists os, startOutbounds m (outbounds m ++ endpoints em) = (starts os, Ok tt) /\ os ≡ₚ outbounds m ++ endpoints em.
Proof. intros Hwf Hnd. apply startOutbounds_complete; [done|by apply wf_indexed]. Qed.

(** ** Closing *)

(** The outbounds with a [Close] method *)
Definition closable (l : list Outbound) : list Outbound := filter (fun o : Outbound => is_Some (closer o)) l.

(** The time that closing takes if nothing is abandoned; none if a [Close] never returns *)
Fixpoint closingTime (l : list Outbound) : option Z :=
  match l with
  | [] => Some 0
  | o :: l =>
      match closer o with
      | None => closingTime l
      | Some c => t ← closeTime c; t' ← closingTime l; Some (t + t')
      end
  end.

Definition takesTime (l : list Outbound) : Prop := forall (o : Outbound) c t,
  o ∈ l -> closer o = Some c -> closeTime c = Some t -> 0 <= t.

Lemma takesTime_cons o l : takesTime (o :: l) -> takesTime l.
Proof. intros H x c t Hx. apply H. by right. Qed.

Lemma closingTime_nonneg l : forall t, takesTime l -> closingTime l = Some t -> 0 <= t.
Proof.
  induction l as [|o l IH]; intros t Ht Hc; cbn [closingTime] in Hc; [injection Hc as <-; lia|].
  pose proof (takesTime_cons _ _ Ht) as Htl. destruct (closer o) as [c|] eqn:Ho; [|by apply IH].
  destruct (closeTime c) as [tc|] eqn:Hct; [|done]. cbn in Hc. destruct (closingTime l) as [tl|]; [|done]. cbn in Hc. injection Hc as <-.
  pose proof (Ht o c tc ltac:(by left) Ho Hct). specialize (IH tl Htl eq_refl). lia.
Qed.

Lemma closeLoop_ok deadline l : forall now, takesTime l ->
  (closeLoop deadline now l).1 = Closed <$> closable l
  /\ now <= (closeLoop deadline now l).2 <= Z.max now deadline
  /\ forall t, closingTime l = Some t -> now + t <= deadline -> (closeLoop deadline now l).2 = now + t.
Proof.
  induction l as [|o l IH]; intros now Ht; cbn [closeLoop closingTime].
  - split_and!; [done|cbn; lia|cbn; lia|]. intros t [= <-] _. cbn. lia.
  - unfold closable. rewrite filter_cons. destruct (closer o) as [c|] eqn:Hc.
    + rewrite decide_True by eauto. set (now' := if _ <=? 0 then now else _).
      assert (Hnow' : now <= now' <= Z.max now deadline /\ forall t, closeTime c = Some t -> now + t <= deadline -> now' = now + t).
      { subst now'. destruct (closeTime c) as [t|] eqn:Hct.
        - pose proof (Ht o c t ltac:(by left) Hc Hct). destruct (Z.leb_spec (deadline - now) 0); (split; [lia|]); intros ? [= <-] ?; lia.
        - destruct (Z.leb_spec (deadline - now) 0); (split; [lia|done]). }
      destruct Hnow' as [H1 H2]. destruct (IH now' (takesTime_cons _ _ Ht)) as (E1 & E2 & E3).
      destruct (closeLoop deadline now' l) as [calls fin]. cbn [fst snd] in *. split_and!; [cbn; by rewrite E1|lia|lia|].
      intros t Hsum Hle. destruct (closeTime c) as [tc|] eqn:Hct; [|done]. cbn in Hsum.
      destruct (closingTime l) as [tl|] eqn:Htl; [|done]. cbn in Hsum. injection Hsum as <-.
      assert (0 <= tl) by (eapply closingTime_nonneg; [by eapply takesTime_cons|done]).
      assert (En : now' = now + tc) by (apply (H2 tc eq_refl); lia). rewrite (E3 tl eq_refl); lia.
    + rewrite decide_False by (by intros [? ?]). apply IH. by eapply takesTime_cons.
Qed.

(** Closing a started manager calls the [Close] of every outbound once, in order, and
    returns within the one budget whatever the outbounds do, even if some never return; if
    they all fit into the budget it waits for each of them. *)
Theorem close_within_budget (m : Manager) (now : Z) :
  started m = true -> takesTime (outbounds m) ->
  exists fin, Manager_Close m now =
      (mkManager (defaultTag m) false (stage m) [] (outboundByTag m) (dependByTag m) (defaultOutbound m) (nextPtr m),
       Closed <$> closable (outbounds m), fin)
    /\ now <= fin <= now + StopTimeout
    /\ forall t, closingTime (outbounds m) = Some t -> t <= StopTimeout -> fin = now + t.
Proof.
  intros Hst Ht. destruct m as [dt st sg os byTag dep def next]. cbn in *. subst st.
  destruct (closeLoop_ok (now + StopTimeout) os now Ht) as (E1 & E2 & E3).
  destruct (closeLoop (now + StopTimeout) now os) as [calls fin]. cbn in E1, E2, E3. exists fin. unfold StopTimeout in *.
  split_and!; [by rewrite E1|lia|lia|]. intros t Hsum Hle. apply E3; [done|lia].
Qed.

(** * Concrete outbound managers

    A registry with a plain outbound whose options are its dependencies and one whose
    constructor panics, and managers that show where the code does not do what it means to. *)

Definition exObject (tag : string) (deps : list string) : Object :=
  mkObject "plain" tag ["tcp"]%string deps (Legacy None (Some (Ok tt)) None) (Some (mkCloser (Some 10) (Ok tt))).

Definition exPlain (tag : string) (o : AnyOptions (list string)) : Constructed :=
  match o with
  | GivenOptions deps => if bool_decide (NoDup deps) then Returned (Ok (exObject tag deps)) else Returned (Err "duplicate"%string)
  | InvalidOptions _ err => Returned (Err err)
  end.

(** A constructor that takes any dependencies *)
Definition exLoose (tag : string) (o : AnyOptions (list string)) : Constructed :=
  match o with GivenOptions deps => Returned (Ok (exObject tag deps)) | InvalidOptions _ err => Returned (Err err) end.

Definition exRegistry : Registry (list string) :=
  <["plain" := exPlain]> (<["broken" := fun _ _ => Panicked "index out of range"]> {["hinvalid" := invalid_New]})%string.

Lemma exRegistry_good : goodRegistry exRegistry.
Proof.
  intros ty c tag options obj Hc Ho. unfold exRegistry, Registry in Hc.
  apply lookup_insert_Some in Hc as [[_ <-]|[_ Hc]]; [|apply lookup_insert_Some in Hc as [[_ <-]|[_ Hc]]; [|apply lookup_singleton_Some in Hc as [_ <-]]].
  - destruct options as [deps|]; [|done]. cbn in Ho. case_bool_decide; [|done]. by injection Ho as <-.
  - done.
  - injection Ho as <-. split; [done|constructor].
Qed.

Definition state (e : Effect) : Manager := e.1.1.

Definition exM1 : Manager := state (Manager_Create exRegistry (NewManager "") "b" "plain" ["a"]%string).
Definition exM2 : Manager := state (Manager_Create exRegistry exM1 "a" "plain" []).

Lemma create_step em m tag ty options : step exRegistry em m (state (Manager_Create exRegistry m tag ty options)).
Proof. destruct (Manager_Create exRegistry m tag ty options) as [[m' calls] res] eqn:E. by eapply step_create. Qed.

Lemma exM2_reachable em : rtc (step exRegistry em) (NewManager "") exM2.
Proof. eapply rtc_l; [apply create_step|]. eapply rtc_l; [apply create_step|]. apply rtc_refl. Qed.

Definition exEndpoints : Endpoints :=
  let e := mkOutbound 100 (exObject "wg" ["b"]%string) in mkEndpoints [e] {["wg"%string := e]}.

Lemma exM2_wf : wf exM2.
Proof. eapply (reachable_wf exRegistry exEndpoints); [apply exRegistry_good|apply exM2_reachable]. Qed.

Lemma manager_invariant_witness :
  goodRegistry exRegistry /\ wf exM2 /\ NoDup (tags (outbounds exM2))
  /\ forall t m' calls res, Manager_Remove exM2 t = (m', calls, res) ->
       outboundByTag m' !! t = None /\ outbounds m' = filter (fun o : Outbound => Tag o <> t) (outbounds exM2)
       /\ (res = Ok tt -> forall o : Outbound, o ∈ outbounds m' -> t ∉ Dependencies o).
Proof.
  split; [apply exRegistry_good|].
  apply (manager_invariant exRegistry exEndpoints "" exM2 exRegistry_good (exM2_reachable exEndpoints)).
Defined.

Lemma create_degrades_witness :
  exists m' (o : Outbound), Manager_Create exRegistry exM2 "c" "broken" [] = (m', [], Ok tt)
    /\ outboundByTag m' = <["c"%string := o]> (outboundByTag exM2)
    /\ outbounds m' = filter (fun x : Outbound => Tag x <> "c"%string) (outbounds exM2) ++ [o]
    /\ Type_ o = TypeInvalidConfig /\ Dependencies o = [].
Proof.
  apply (create_degrades exRegistry exM2 "c" "broken" []);
    [apply exRegistry_good|reflexivity|apply exM2_wf|reflexivity|discriminate].
Defined.

Lemma start_order_witness :
  exists os, (startOutbounds exM2 (outbounds exM2 ++ endpoints exEndpoints)).1 = starts os /\ NoDup (tags os)
    /\ (forall o, o ∈ os -> o ∈ outbounds exM2 ++ endpoints exEndpoints)
    /\ ordered os /\ Outcome exM2 (outbounds exM2 ++ endpoints exEndpoints) os
         (startOutbounds exM2 (outbounds exM2 ++ endpoints exEndpoints)).2.
Proof.
  apply (start_order exM2 exEndpoints).
  - apply exM2_wf.
  - apply (bool_decide_unpack _). vm_compute. exact I.
  - apply surjective_pairing.
Defined.

Definition exRank (t : string) : nat := if String.eqb t "a" then 0 else if String.eqb t "b" then 1 else 2.

Lemma start_complete_witness :
  exists os, startOutbounds exM2 (outbounds exM2 ++ endpoints exEndpoints) = (starts os, Ok tt)
    /\ os ≡ₚ outbounds exM2 ++ endpoints exEndpoints.
Proof.
  apply (start_complete exM2 exEndpoints exRank).
  - apply exM2_wf.
  - apply (bool_decide_unpack _). vm_compute. exact I.
  - intros o Ho d Hd. vm_compute in Ho. repeat (apply elem_of_cons in Ho as [->|Ho];
      [vm_compute in Hd; repeat (apply elem_of_cons in Hd as [->|Hd]; [split; [apply (bool_decide_unpack _); vm_compute; exact I|vm_compute; lia]|]);
       by apply elem_of_nil in Hd|]). by apply elem_of_nil in Ho.
  - intros o Ho. vm_compute in Ho. repeat (apply elem_of_cons in Ho as [->|Ho]; [reflexivity|]). by apply elem_of_nil in Ho.
Defined.

(** One outbound that never closes among others *)
Definition exClosing : Manager :=
  let o n c := mkOutbound n (mkObject "plain" (pretty n) [] [] (Legacy None None None) c) in
  mkManager "" true StartStateStarted
    [o 0%nat (Some (mkCloser (Some 20) (Ok tt))); o 1%nat (Some (mkCloser None (Ok tt))); o 2%nat None; o 3%nat (Some (mkCloser (Some 30) (Ok tt)))]
    ∅ ∅ None 4.

Lemma close_within_budget_witness :
  exists fin, Manager_Close exClosing 0 =
      (mkManager "" false StartStateStarted [] ∅ ∅ None 4, Closed <$> closable (outbounds exClosing), fin)
    /\ 0 <= fin <= 0 + StopTimeout /\ forall t, closingTime (outbounds exClosing) = Some t -> t <= StopTimeout -> fin = 0 + t.
Proof.
  apply (close_within_budget exClosing 0); [reflexivity|].
  intros o c t Ho Hc Ht. unfold exClosing, outbounds in Ho. repeat (apply elem_of_cons in Ho as [->|Ho]; [by simplify_eq/=|]).
  by apply elem_of_nil in Ho.
Defined.

(** ** Where the code does not do what it means to *)

(** The message of an error *)
Definition message (e : Effect) : string := match e.2 with Ok _ => "" | Err e => e end.

(** [Remove] refuses to remove an outbound that others depend on, after it has removed it. *)
Example refused_removal_removes :
  message (Manager_Remove exM2 "a") = "outbound[a] is depended by b"%string
  /\ tags (outbounds (state (Manager_Remove exM2 "a"))) = ["b"]%string.
Proof. vm_compute. done. Qed.

(** The default outbound is replaced by one of the same tag, and stays the default. *)
Example replaced_default_stays :
  let m := state (Manager_Create exRegistry exM1 "b" "plain" []) in
  (ptr <$> defaultOutbound m) = Some 0%nat /\ (ptr <$> outbounds m) = [1%nat].
Proof. vm_compute. done. Qed.

(** An outbound that was replaced still counts as depending on what it named. *)
Example replaced_dependency_stays :
  let m := state (Manager_Create exRegistry exM2 "b" "plain" []) in
  message (Manager_Remove m "a") = "outbound[a] is depended by b"%string
  /\ forallb (fun o : Outbound => negb (nonempty (Dependencies o))) (outbounds m) = true.
Proof. vm_compute. done. Qed.

(** Removing an outbound that names a dependency twice forgets another dependent. *)
Example doubled_dependency_forgets :
  let r := <["loose"%string := exLoose]> exRegistry in
  let m := state (Manager_Create r (NewManager "") "a" "plain" []) in
  let m := state (Manager_Create r m "c" "loose" ["a"; "a"]%string) in
  let m := state (Manager_Create r m "d" "plain" ["a"]%string) in
  let m := state (Manager_Remove m "c") in
  message (Manager_Remove m "a") = ""%string /\ Dependencies <$> (object <$> outbounds (state (Manager_Remove m "a"))) = [["a"]]%string.
Proof. vm_compute. done. Qed.

(** An endpoint with the tag of the direct outbound that is made up when no outbound is
    configured stops the start with a panic. *)
Example endpoint_named_direct_panics :
  let e := mkOutbound 100 (exObject "direct" []) in
  message (Manager_Start (NewManager "") (mkEndpoints [e] {["direct"%string := e]}) (Ok (exObject "direct" [])) StartStateStart)
  = "panic: nil pointer dereference"%string.
Proof. vm_compute. done. Qed.
