(* ===== verification/Groups.v ===== *)
(** * Outbound groups ([protocol/group], [common/urltest])

    A selector routes to the member that was selected last, which it keeps in the cache file.
    A URL test group measures its members and routes to the fastest, and leaves its choice
    only for one that is faster by more than the tolerance. *)

From S2P Require Import Prelude Binary CacheFile OutboundManager.

Definition NetworkTCP : string := "tcp".
Definition NetworkUDP : string := "udp".

(** What [Now] of the outbounds that are groups answers; none for other outbounds *)
Section groups.
Context (groupNow : Outbound -> option string).

Definition RealTag (detour : Outbound) : string := default (Tag detour) (groupNow detour).

(** ** Selectors *)

Section selector.
Context `{Bolt}.

Record Selector := mkSelector {
  selTag : string;
  selTags : list string;
  selDefault : string;
  selOutbounds : gmap string Outbound;
  selected : option Outbound;
  interruptExternalConnections : bool;
}.

Definition NewSelector (tag : string) (options : list string) (default_ : string) (interrupt : bool) : result Selector :=
  if negb (nonempty options) then Err "missing tags"%string
  else Ok (mkSelector tag options default_ ∅ None interrupt).

Definition setSelected (s : Selector) (o : option Outbound) : Selector :=
  mkSelector (selTag s) (selTags s) (selDefault s) (selOutbounds s) o (interruptExternalConnections s).

Definition Selector_Network (s : Selector) : list string :=
  match selected s with None => [NetworkTCP; NetworkUDP] | Some o => Network o end.

(** The loop of [Start] over the tags *)
Fixpoint resolveMembers (find : string -> option Outbound) (i : nat) (tags : list string) (m : gmap string Outbound)
    : result (gmap string Outbound) :=
  match tags with
  | [] => Ok m
  | tag :: tags =>
      match find tag with
      | None => Err ("outbound " +:+ pretty i +:+ " not found: " +:+ tag)%string
      | Some detour => resolveMembers find (S i) tags (<[tag := detour]> m)
      end
  end.

(** [Selector.Start]; [find] is [Outbound] of the manager, [cacheFile] the cache file if there
    is one. *)
Definition Selector_Start (s : Selector) (find : string -> option Outbound) (cacheFile : option CacheFile) : result Selector :=
  members ← resolveMembers find 0 (selTags s) (selOutbounds s);
  let s := mkSelector (selTag s) (selTags s) (selDefault s) members (selected s) (interruptExternalConnections s) in
  let stored :=
    if String.eqb (selTag s) "" then None
    else match cacheFile with
         | None => None
         | Some c =>
             let selected := LoadSelected c (selTag s) in
             if String.eqb selected "" then None else members !! selected
         end in
  match stored with
  | Some detour => Ok (setSelected s (Some detour))
  | None =>
      if negb (String.eqb (selDefault s) "") then
        match members !! selDefault s with
        | None => Err ("default outbound not found: " +:+ selDefault s)%string
        | Some detour => Ok (setSelected s (Some detour))
        end
      else
        match selTags s with
        | [] => panic "index out of range"
        | tag :: _ => Ok (setSelected s (members !! tag))
        end
  end.

Definition Selector_Now (s : Selector) : result string :=
  match selected s with
  | Some o => Ok (Tag o)
  | None => match selTags s with [] => panic "index out of range" | tag :: _ => Ok tag end
  end.

Definition AddMember (s : Selector) (tag : string) (detour : Outbound) : Selector :=
  mkSelector (selTag s)
    (if bool_decide (is_Some (selOutbounds s !! tag)) then selTags s else selTags s ++ [tag])
    (selDefault s) (<[tag := detour]> (selOutbounds s)) (selected s) (interruptExternalConnections s).

(** The tags without the first [tag] *)
Fixpoint dropTag (tag : string) (tags : list string) : list string :=
  match tags with
  | [] => []
  | t :: tags => if String.eqb t tag then tags else t :: dropTag tag tags
  end.

(** [RemoveMember]: the selector, whether there was such a member, whether connections are
    interrupted *)
Definition RemoveMember (s : Selector) (tag : string) : Selector * bool * bool :=
  match selOutbounds s !! tag with
  | None => (s, false, false)
  | Some removed =>
      let members := delete tag (selOutbounds s) in
      let tags := dropTag tag (selTags s) in
      let s' := mkSelector (selTag s) tags (selDefault s) members (selected s) (interruptExternalConnections s) in
      let fallback :=
        if match selected s with Some o => same o removed | None => false end then
          match members !! selDefault s with
          | Some d => Some d
          | None => match tags with [] => None | t :: _ => members !! t end
          end
        else None in
      match fallback with
      | Some f => (setSelected s' (Some f), true, true)
      | None => (s', true, false)
      end
  end.

(** [SelectOutbound]: the selector, the cache file, whether there is such a member, and which
    connections are interrupted: none, or [Some external] *)
Definition SelectOutbound (s : Selector) (cacheFile : option CacheFile) (tag : string)
    : Selector * option CacheFile * bool * option bool :=
  match selOutbounds s !! tag with
  | None => (s, cacheFile, false, None)
  | Some detour =>
      if match selected s with Some o => same o detour | None => false end then (s, cacheFile, true, None)
      else
        let cacheFile :=
          if String.eqb (selTag s) "" then cacheFile
          else (fun c => (StoreSelected c (selTag s) tag).2) <$> cacheFile in
        (setSelected s (Some detour), cacheFile, true, Some (interruptExternalConnections s))
  end.
End selector.

(** ** The history of measurements *)

Section urltest.
Context {IpInfo : Type}.

Record URLTestHistory := mkURLTestHistory {
  Time : Z;
  Delay : Z;
  ipInfo : option IpInfo;
  IsFromCache : bool;
}.

Definition HistoryStorage : Type := gmap string URLTestHistory.

Definition LoadURLTestHistory (s : HistoryStorage) (tag : string) : option URLTestHistory := s !! tag.

Definition StoreURLTestHistory (s : HistoryStorage) (tag : string) (history : URLTestHistory) : HistoryStorage :=
  match s !! tag with
  | Some old =>
      <[tag := mkURLTestHistory (Time history) (Delay history)
                 (match ipInfo history with Some i => Some i | None => ipInfo old end) (IsFromCache old)]> s
  | None => <[tag := history]> s
  end.

(** A failed measurement is not removed: it has the largest delay. *)
Definition DeleteURLTestHistory (s : HistoryStorage) (now : Z) (tag : string) : HistoryStorage :=
  StoreURLTestHistory s tag (mkURLTestHistory now 65535 None false).

(** ** URL test groups *)

Record URLTestGroup := mkURLTestGroup {
  testOutbounds : list Outbound;
  interval : Z;
  tolerance : Z;
  idleTimeout : Z;
  selectedOutboundTCP : option Outbound;
  selectedOutboundUDP : option Outbound;
}.

Definition NewURLTestGroup (outbounds : list Outbound) (interval tolerance idleTimeout : Z) : result URLTestGroup :=
  let interval := if interval =? 0 then 180000 else interval in
  let tolerance := if tolerance =? 0 then 50 else tolerance in
  let idleTimeout := if idleTimeout =? 0 then 1800000 else idleTimeout in
  if idleTimeout <? interval then Err "interval must be less or equal than idle_timeout"%string
  else Ok (mkURLTestGroup outbounds interval tolerance idleTimeout None None).

Definition supports (network : string) (o : Outbound) : bool := bool_decide (network ∈ Network o).

Definition selectedFor (g : URLTestGroup) (network : string) : option Outbound :=
  if String.eqb network NetworkTCP then selectedOutboundTCP g
  else if String.eqb network NetworkUDP then selectedOutboundUDP g else None.

(** The loop of [Select]: the best outbound so far and its delay, 0 for none *)
Fixpoint selectLoop (h : HistoryStorage) (tolerance : Z) (network : string) (l : list Outbound)
    (minDelay : Z) (minOutbound : option Outbound) : option Outbound :=
  match l with
  | [] => minOutbound
  | detour :: l =>
      if negb (supports network detour) then selectLoop h tolerance network l minDelay minOutbound
      else
        match LoadURLTestHistory h (RealTag detour) with
        | None => selectLoop h tolerance network l minDelay minOutbound
        | Some history =>
            if (minDelay =? 0) || (u16 (Delay history + tolerance) <? minDelay)
            then selectLoop h tolerance network l (Delay history) (Some detour)
            else selectLoop h tolerance network l minDelay minOutbound
        end
  end.

Definition Select (g : URLTestGroup) (h : HistoryStorage) (network : string) : option Outbound * bool :=
  let '(minDelay, minOutbound) :=
    match selectedFor g network with
    | None => (0, None)
    | Some o =>
        match LoadURLTestHistory h (RealTag o) with
        | None => (0, None)
        | Some history => (Delay history, Some o)
        end
    end in
  match selectLoop h (tolerance g) network (testOutbounds g) minDelay minOutbound with
  | Some o => (Some o, true)
  | None => (head (filter (fun o => supports network o = true) (testOutbounds g)), false)
  end.

(** One network of [performUpdateCheck]: the new selection and whether one was replaced *)
Definition updateSelected (old : option Outbound) (selection : option Outbound * bool) : option Outbound * bool :=
  match selection, old with
  | (Some o, _), None => (Some o, false)
  | (Some o, true), Some old => if same o old then (Some old, false) else (Some o, true)
  | _, _ => (old, false)
  end.

(** [performUpdateCheck]: the group, and whether connections are interrupted *)
Definition performUpdateCheck (g : URLTestGroup) (h : HistoryStorage) : URLTestGroup * bool :=
  let '(tcp, u1) := updateSelected (selectedOutboundTCP g) (Select g h NetworkTCP) in
  let g := mkURLTestGroup (testOutbounds g) (interval g) (tolerance g) (idleTimeout g) tcp (selectedOutboundUDP g) in
  let '(udp, u2) := updateSelected (selectedOutboundUDP g) (Select g h NetworkUDP) in
  (mkURLTestGroup (testOutbounds g) (interval g) (tolerance g) (idleTimeout g) tcp udp, u1 || u2).

(** The members that [urlTest] measures: the tag that the result has and the real tag *)
Fixpoint toCheck (g : URLTestGroup) (h : HistoryStorage) (find : string -> option Outbound) (now : Z) (force : bool)
    (checked : gset string) (l : list Outbound) : list (string * string) :=
  match l with
  | [] => []
  | detour :: l =>
      let realTag := RealTag detour in
      if bool_decide (realTag ∈ checked) then toCheck g h find now force checked l
      else if negb force && match LoadURLTestHistory h realTag with
                            | Some history => now - Time history <? interval g
                            | None => false
                            end
      then toCheck g h find now force checked l
      else
        let checked := {[realTag]} ∪ checked in
        match find realTag with
        | None => toCheck g h find now force checked l
        | Some _ => (Tag detour, realTag) :: toCheck g h find now force checked l
        end
  end.

(** Keeping a measurement: [measure] gives the delay or the error of a member. *)
Definition keepMeasured (measure : string -> result Z) (now : Z) (acc : gmap string Z * HistoryStorage) (c : string * string)
    : gmap string Z * HistoryStorage :=
  match measure c.2 with
  | Err _ => (acc.1, DeleteURLTestHistory acc.2 now c.2)
  | Ok delay => (<[c.1 := delay]> acc.1, StoreURLTestHistory acc.2 c.2 (mkURLTestHistory now delay None false))
  end.

(** [urlTest] when no other check is running: the members are measured at once, their real
    tags differ, so the order in which they finish does not matter. *)
Definition urlTest (g : URLTestGroup) (h : HistoryStorage) (find : string -> option Outbound)
    (measure : string -> result Z) (now : Z) (force : bool) : gmap string Z * HistoryStorage * (URLTestGroup * bool) :=
  let '(result, h) := foldl (keepMeasured measure now) (∅, h) (toCheck g h find now force ∅ (testOutbounds g)) in
  (result, h, performUpdateCheck g h).
End urltest.
End groups.
