(* ===== verification/GroupsSpec.v ===== *)
(** * What outbound groups guarantee

    The selection of a selector is one of its members and survives a restart; a URL test
    group selects a member that is at most the tolerance slower than any other. *)

From S2P Require Import Prelude Binary CacheFile CacheFileSpec OutboundManager OutboundStart Groups.

(** ** Selectors *)

Section selectors.
Context `{BoltLaws}.

(** The tags and the members agree, and while there are members one of them is selected. *)
Record selWf (s : Selector) : Prop := mkSelWf {
  sel_nodup : NoDup (selTags s);
  sel_members : forall t, t ∈ selTags s <-> is_Some (selOutbounds s !! t);
  sel_selected : selTags s <> [] -> exists t o, selected s = Some o /\ selOutbounds s !! t = Some o;
}.

Lemma resolveMembers_ok find tags : forall i m m', resolveMembers find i tags m = Ok m' ->
  forall t, m' !! t = if bool_decide (t ∈ tags) then find t else m !! t.
Proof.
  induction tags as [|tag tags IH]; intros i m m' Hr t; cbn [resolveMembers] in Hr; [by injection Hr as <-|].
  destruct (find tag) as [o|] eqn:Ho; [|done]. rewrite (IH _ _ _ Hr). destruct (decide (tag = t)) as [->|Hne].
  - rewrite (bool_decide_true (t ∈ t :: tags)) by (by left). rewrite lookup_insert_eq, Ho. by case_bool_decide.
  - rewrite lookup_insert_ne by done. by rewrite (bool_decide_ext (t ∈ tag :: tags) (t ∈ tags)) by (rewrite elem_of_cons; naive_solver).
Qed.

Lemma resolveMembers_found find tags : forall i m m', resolveMembers find i tags m = Ok m' ->
  forall t, t ∈ tags -> is_Some (find t).
Proof.
  induction tags as [|tag tags IH]; intros i m m' Hr t Ht; cbn [resolveMembers] in Hr; [by apply elem_of_nil in Ht|].
  destruct (find tag) as [o|] eqn:Ho; [|done]. apply elem_of_cons in Ht as [->|Ht]; [by rewrite Ho|by eapply IH].
Qed.

Lemma resolveMembers_total find tags : forall i m, (forall t, t ∈ tags -> is_Some (find t)) ->
  exists m', resolveMembers find i tags m = Ok m'.
Proof.
  induction tags as [|tag tags IH]; intros i m Hf; cbn [resolveMembers]; [eauto|].
  destruct (Hf tag ltac:(by left)) as [o ->]. apply IH. intros t Ht. apply Hf. by right.
Qed.

(** The members of a selector that was started *)
Lemma started_members tag tags def interrupt find c s0 s : NewSelector tag tags def interrupt = Ok s0 ->
  Selector_Start s0 find c = Ok s ->
  selTags s = tags /\ tags <> [] /\ (forall t, selOutbounds s !! t = if bool_decide (t ∈ tags) then find t else None)
  /\ (forall t, t ∈ tags -> is_Some (find t)) /\ exists t o, selected s = Some o /\ selOutbounds s !! t = Some o.
Proof.
  unfold NewSelector. destruct tags as [|t0 tags]; [done|]. cbn [nonempty negb]. intros [= <-]. unfold Selector_Start.
  cbn [selTags selOutbounds selTag selDefault selected interruptExternalConnections].
  intros (members & Hm & Hs)%bind_ok. pose proof (resolveMembers_ok _ _ _ _ _ Hm) as Hok.
  pose proof (resolveMembers_found _ _ _ _ _ Hm) as Hfound.
  assert (Hsel : exists o t, s = setSelected (mkSelector tag (t0 :: tags) def members None interrupt) (Some o) /\ members !! t = Some o).
  { destruct (if String.eqb tag "" then None else _) as [o|] eqn:Hst.
    - injection Hs as <-. destruct (String.eqb tag ""); [done|]. destruct c as [c|]; [|done].
      destruct (String.eqb (LoadSelected c tag) ""); [done|]. eauto.
    - destruct (negb (String.eqb def "")).
      + destruct (members !! def) as [o|] eqn:Ho; [|done]. injection Hs as <-. eauto.
      + injection Hs as <-. pose proof (Hok t0) as E. rewrite bool_decide_true in E by (by left).
        destruct (Hfound t0 ltac:(by left)) as [o Ho]. rewrite Ho in E. rewrite E. eauto. }
  destruct Hsel as (o & t & -> & Ho). cbn. split_and!; [done|done| |done|eauto].
  intros t'. by rewrite Hok, lookup_empty.
Qed.

Lemma selWf_started tag tags def interrupt find c s0 s : NoDup tags -> NewSelector tag tags def interrupt = Ok s0 ->
  Selector_Start s0 find c = Ok s -> selWf s.
Proof.
  intros Hnd Hnew Hst. destruct (started_members _ _ _ _ _ _ _ _ Hnew Hst) as (Htags & _ & Hm & Hf & Hsel). split; rewrite ?Htags; [done| |done].
  intros t. rewrite Hm. case_bool_decide as Ht; [naive_solver|]. rewrite is_Some_alt. naive_solver.
Qed.

(** ** Changing the members *)

Lemma dropTag_ok tag tags : NoDup tags -> NoDup (dropTag tag tags) /\ forall t, t ∈ dropTag tag tags <-> t ∈ tags /\ t <> tag.
Proof.
  induction 1 as [|x l Hx Hnd [IH1 IH2]]; cbn [dropTag].
  - split; [constructor|]. intros t. rewrite elem_of_nil. tauto.
  - destruct (String.eqb_spec x tag) as [->|Hne].
    + split; [done|]. intros t. rewrite elem_of_cons. split; [|naive_solver]. intros Ht. split; [by right|]. by intros ->.
    + split.
      * apply NoDup_cons. split; [|done]. rewrite IH2. tauto.
      * intros t. rewrite !elem_of_cons, IH2. naive_solver.
Qed.

Lemma selWf_add s tag o : selWf s -> selOutbounds s !! tag = None -> selTags s <> [] -> selWf (AddMember s tag o).
Proof.
  intros [Hnd Hm Hs] Hnew Hne. unfold AddMember. rewrite bool_decide_false by (rewrite Hnew; by intros []). split; cbn.
  - apply NoDup_app. split_and!; [done| |apply NoDup_singleton]. intros t Ht ->%list_elem_of_singleton. apply Hm in Ht.
    rewrite Hnew in Ht. by destruct Ht.
  - intros t. rewrite elem_of_app, list_elem_of_singleton, Hm. destruct (decide (tag = t)) as [->|Hd].
    + rewrite lookup_insert_eq. naive_solver.
    + rewrite lookup_insert_ne by done. naive_solver.
  - intros _. destruct (Hs Hne) as (t & o' & E1 & E2). exists t, o'. split; [done|]. rewrite lookup_insert_ne by congruence. done.
Qed.

Lemma selWf_remove s tag : selWf s -> selWf (RemoveMember s tag).1.1.
Proof.
  intros [Hnd Hm Hs]. unfold RemoveMember. destruct (selOutbounds s !! tag) as [removed|] eqn:Hr; [|by split].
  destruct (dropTag_ok tag _ Hnd) as [Hnd' Hin].
  assert (Hmem : forall t, t ∈ dropTag tag (selTags s) <-> is_Some (delete tag (selOutbounds s) !! t)).
  { intros t. rewrite Hin, Hm, <- !not_eq_None_Some, lookup_delete_None. naive_solver. }
  assert (Hrest : dropTag tag (selTags s) <> [] -> selTags s <> []) by (intros Hne E; by rewrite E in Hne).
  set (members := delete tag (selOutbounds s)) in *. generalize dependent (dropTag tag (selTags s)). intros tags Hnd' _ Hmem Hrest.
  assert (Hhead : forall t l, tags = t :: l -> is_Some (members !! t)) by (intros t l E; apply Hmem; rewrite E; by left).
  destruct (match selected s with Some o => same o removed | None => false end) eqn:Hsame.
  - destruct (members !! selDefault s) as [d|] eqn:Hd; [by split; eauto|].
    destruct tags as [|t l]; [by split|]. destruct (Hhead t l eq_refl) as [o Ho]. rewrite Ho. split; [done|done|eauto].
  - split; [done|done|]. cbn. intros Hne. destruct (Hs (Hrest Hne)) as (t & o & E1 & E2).
    exists t, o. split; [done|]. rewrite E1 in Hsame. subst members. rewrite lookup_delete_ne; [done|]. intros ->.
    rewrite E2 in Hr. injection Hr as ->. unfold same in Hsame. by rewrite Nat.eqb_refl in Hsame.
Qed.

Lemma selWf_select s c tag : selWf s -> selWf (SelectOutbound s c tag).1.1.1.
Proof.
  intros [Hnd Hm Hs]. unfold SelectOutbound. destruct (selOutbounds s !! tag) as [o|] eqn:Ho; [|by split].
  destruct (match selected s with Some _ => _ | None => _ end); [by split|]. split; cbn; eauto.
Qed.

(** What happens to a running selector: members come under new tags and go, and one is selected. *)
Inductive selStep : Selector -> Selector -> Prop :=
  | sel_add s tag o : selOutbounds s !! tag = None -> selTags s <> [] -> selStep s (AddMember s tag o)
  | sel_remove s tag : selStep s (RemoveMember s tag).1.1
  | sel_select s c tag : selStep s (SelectOutbound s c tag).1.1.1.

Lemma selWf_steps s s' : selWf s -> rtc selStep s s' -> selWf s'.
Proof.
  intros Hwf Hst. induction Hst as [|a b c Hab _ IH]; [done|]. apply IH.
  destruct Hab; [by apply selWf_add|by apply selWf_remove|by apply selWf_select].
Qed.

(** From its start on, while members come and go and others are selected, a selector that
    has members routes to one of them: what it reports is a member, and its tags are exactly
    the tags of its members. *)
Theorem selected_is_member tag tags def interrupt find c s0 s s' :
  NoDup tags -> NewSelector tag tags def interrupt = Ok s0 -> Selector_Start s0 find c = Ok s -> rtc selStep s s' ->
  (forall t, t ∈ selTags s' <-> is_Some (selOutbounds s' !! t))
  /\ (selTags s' <> [] -> exists t o, selected s' = Some o /\ selOutbounds s' !! t = Some o
        /\ Selector_Now s' = Ok (Tag o) /\ Selector_Network s' = Network o).
Proof.
  intros Hnd Hnew Hst Hrun. pose proof (selWf_steps _ _ (selWf_started _ _ _ _ _ _ _ _ Hnd Hnew Hst) Hrun) as [_ Hm Hs].
  split; [done|]. intros Hne. destruct (Hs Hne) as (t & o & E1 & E2). exists t, o. unfold Selector_Now, Selector_Network.
  by rewrite E1.
Qed.

(** A selection survives a restart: after [SelectOutbound] has changed the selection and
    the cache file has taken it, the selector with the same tag and that member starts on
    the file with the member selected, whatever its default and other members are. *)
Theorem selection_survives_restart s c tag s' c' ext tags def interrupt find s0 :
  selTag s <> ""%string -> tag <> ""%string -> SelectOutbound s (Some c) tag = (s', Some c', true, Some ext) ->
  (StoreSelected c (selTag s) tag).1 = None ->
  NewSelector (selTag s) tags def interrupt = Ok s0 -> tag ∈ tags -> (forall t, t ∈ tags -> is_Some (find t)) ->
  exists s1, Selector_Start s0 find (Some (reopen c')) = Ok s1 /\ selected s1 = find tag.
Proof.
  intros Hg Ht Hsel Hstore Hnew Hin Hfind. unfold SelectOutbound in Hsel. destruct (selOutbounds s !! tag) as [o|]; [|done].
  destruct (match selected s with Some _ => _ | None => _ end); [done|]. injection Hsel as <- Hc <-.
  rewrite (proj2 (String.eqb_neq _ _) Hg) in Hc. injection Hc as <-. pose proof (selected_loaded c (selTag s) tag (selTag s) Hstore) as Hl.
  rewrite String.eqb_refl in Hl. unfold NewSelector in Hnew. destruct (negb (nonempty tags)); [done|]. injection Hnew as <-.
  unfold Selector_Start. cbn [selTags selOutbounds selTag selDefault]. destruct (resolveMembers_total find tags 0 ∅ Hfind) as [m Hm].
  rewrite (bind_Ok _ _ _ Hm), (proj2 (String.eqb_neq _ _) Hg), Hl, (proj2 (String.eqb_neq _ _) Ht).
  pose proof (resolveMembers_ok _ _ _ _ _ Hm tag) as E. rewrite bool_decide_true in E by done. rewrite E.
  destruct (Hfind tag Hin) as [o' ->]. eexists. done.
Qed.
End selectors.

(** ** URL test groups *)

Section url_test.
Context (groupNow : Outbound -> option string) {IpInfo : Type} (h : HistoryStorage (IpInfo := IpInfo)).

Notation delayOf o := (Delay <$> LoadURLTestHistory h (RealTag groupNow o)).

(** A measurement that the comparison of [Select] can add the tolerance to *)
Definition measured (tolerance : Z) (o : Outbound) : Prop := forall d, delayOf o = Some d -> 0 < d /\ d + tolerance < 2 ^ 16.

(** [o] has been measured, and no member of [l] is faster by more than the tolerance. *)
Definition bestOf (tolerance : Z) (network : string) (l : list Outbound) (o : Outbound) : Prop := exists d,
  delayOf o = Some d /\ forall x dx, x ∈ l -> supports network x = true -> delayOf x = Some dx -> d <= dx + tolerance.

Lemma selectLoop_ok tolerance network l : forall min out,
  0 <= tolerance -> (forall x, x ∈ l -> measured tolerance x) ->
  (out = None /\ min = 0) \/ (exists o, out = Some o /\ delayOf o = Some min /\ 0 < min) ->
  match selectLoop groupNow h tolerance network l min out with
  | None => out = None /\ forall x, x ∈ l -> supports network x = true -> delayOf x = None
  | Some o => (exists d, delayOf o = Some d /\ (min = 0 \/ d <= min)
        /\ forall x dx, x ∈ l -> supports network x = true -> delayOf x = Some dx -> d <= dx + tolerance)
      /\ (out = Some o \/ (o ∈ l /\ supports network o = true))
      /\ forall o0, out = Some o0 ->
           (forall x dx, x ∈ l -> supports network x = true -> delayOf x = Some dx -> min <= dx + tolerance) -> o = o0
  end.
Proof.
  induction l as [|x l IH]; intros min out Htol Hm Hinv; cbn [selectLoop].
  { destruct Hinv as [[-> ->]|(o & -> & Ho & Hpos)].
    - split; [done|]. intros x Hx. by apply elem_of_nil in Hx.
    - split_and!; [|by left|congruence]. exists min. split_and!; [done|lia|]. intros x dx Hx. by apply elem_of_nil in Hx. }
  assert (Hm' : forall y, y ∈ l -> measured tolerance y) by (intros y Hy; apply Hm; by right).
  (* the member is passed over *)
  assert (Hskip : (supports network x = true -> forall dx, delayOf x = Some dx -> 0 < min <= dx + tolerance) ->
    match selectLoop groupNow h tolerance network l min out with
    | None => out = None /\ forall y, y ∈ x :: l -> supports network y = true -> delayOf y = None
    | Some o => (exists d, delayOf o = Some d /\ (min = 0 \/ d <= min)
          /\ forall y dy, y ∈ x :: l -> supports network y = true -> delayOf y = Some dy -> d <= dy + tolerance)
        /\ (out = Some o \/ (o ∈ x :: l /\ supports network o = true))
        /\ forall o0, out = Some o0 ->
             (forall y dy, y ∈ x :: l -> supports network y = true -> delayOf y = Some dy -> min <= dy + tolerance) -> o = o0
    end).
  { intros Hx. specialize (IH min out Htol Hm' Hinv). destruct (selectLoop _ _ _ _ l min out) as [o|].
    - destruct IH as ((d & E1 & E2 & E3) & E4 & E5). split_and!; [|destruct E4 as [?|[? ?]]; [by left|right; split; [by right|done]]|].
      + exists d. split_and!; [done|done|]. intros y dy [->|Hy]%elem_of_cons Hs Hd; [|by eapply E3]. specialize (Hx Hs dy Hd). lia.
      + intros o0 Ho0 Hall. apply E5; [done|]. intros y dy Hy. apply Hall. by right.
    - destruct IH as [-> E]. split; [done|]. intros y [->|Hy]%elem_of_cons Hs; [|by apply E].
      destruct (delayOf x) as [dx|] eqn:Hd; [|done]. specialize (Hx Hs dx eq_refl).
      destruct Hinv as [[_ ->]|(o & [=] & _)]. lia. }
  destruct (supports network x) eqn:Hs; cbn [negb]; [|by apply Hskip].
  destruct (LoadURLTestHistory h (RealTag groupNow x)) as [hx|] eqn:Hx; [|apply Hskip; intros _ dx [=]].
  assert (Hdx : delayOf x = Some (Delay hx)) by (by rewrite Hx). destruct (Hm x ltac:(by left) _ Hdx) as [Hpos Hfit].
  rewrite wrap_id by (unfold fits; lia).
  destruct ((min =? 0) || (Delay hx + tolerance <? min)) eqn:Hc; [|apply Hskip].
  - clear Hskip. specialize (IH (Delay hx) (Some x) Htol Hm' ltac:(right; eauto)).
    destruct (selectLoop _ _ _ _ l (Delay hx) (Some x)) as [o|]; [|by destruct IH].
    destruct IH as ((d & E1 & E2 & E3) & E4 & E5).
    apply orb_true_iff in Hc. rewrite Z.eqb_eq, Z.ltb_lt in Hc. split_and!.
    + exists d. split_and!; [done|lia|]. intros y dy [->|Hy]%elem_of_cons Hsy Hd; [|by eapply E3]. rewrite Hdx in Hd. injection Hd as <-. lia.
    + right. destruct E4 as [[= ->]|[? ?]]; [split; [by left|done]|split; [by right|done]].
    + intros o0 Ho0 Hall. specialize (Hall x (Delay hx) ltac:(by left) Hs Hdx). destruct Hinv as [[-> _]|(o1 & -> & _ & ?)]; [done|]. lia.
  - intros _ dx Hd. cbn in Hd. injection Hd as <-. apply orb_false_iff in Hc as [?%Z.eqb_neq ?%Z.ltb_ge].
    destruct Hinv as [[_ ?]|(o1 & _ & _ & ?)]; lia.
Qed.

(** C25. For measured delays that are positive and, with the tolerance added, fit into
    16 bits: a URL test group selects for a network the outbound selected before or a
    member that supports the network, measured and at most the tolerance slower than
    any such member measured; it keeps its choice unless a member is faster by more
    than the tolerance; and it takes the first member that supports the network if
    none is measured. *)
Theorem select_within_tolerance (g : URLTestGroup) (network : string) :
  0 <= tolerance g ->
  (forall x, x ∈ testOutbounds g \/ selectedFor g network = Some x -> measured (tolerance g) x) ->
  match Select groupNow g h network with
  | (Some o, true) =>
      (selectedFor g network = Some o \/ (o ∈ testOutbounds g /\ supports network o = true))
      /\ bestOf (tolerance g) network (testOutbounds g) o
      /\ forall old, selectedFor g network = Some old -> bestOf (tolerance g) network (testOutbounds g) old -> o = old
  | (o, _) =>
      (forall x, x ∈ testOutbounds g -> supports network x = true -> delayOf x = None)
      /\ o = head (filter (fun o => supports network o = true) (testOutbounds g))
  end.
Proof.
  intros Htol Hm. unfold Select.
  assert (Hstart : exists min out, match selectedFor g network with
      | None => (0, None)
      | Some o => match LoadURLTestHistory h (RealTag groupNow o) with None => (0, None) | Some history => (Delay history, Some o) end
      end = (min, out)
      /\ ((out = None /\ min = 0) \/ (exists o, out = Some o /\ delayOf o = Some min /\ 0 < min))
      /\ (forall o, out = Some o -> selectedFor g network = Some o)
      /\ forall old d, selectedFor g network = Some old -> delayOf old = Some d -> out = Some old /\ min = d).
  { destruct (selectedFor g network) as [o|] eqn:Ho; [|exists 0, None; naive_solver].
    destruct (LoadURLTestHistory h (RealTag groupNow o)) as [ho|] eqn:Hh.
    - assert (Hd : delayOf o = Some (Delay ho)) by (by rewrite Hh). destruct (Hm o (or_intror eq_refl) _ Hd).
      exists (Delay ho), (Some o). split_and!; [done|right; eauto|congruence|]. intros old d [= <-] E. rewrite Hd in E. split; congruence.
    - exists 0, None. split_and!; [done|by left|done|]. intros old d [= <-]. by rewrite Hh. }
  destruct Hstart as (min & out & -> & Hinv & Hout & Hold).
  pose proof (selectLoop_ok (tolerance g) network (testOutbounds g) min out Htol ltac:(auto) Hinv) as Hloop.
  destruct (selectLoop _ _ _ _ _ min out) as [o|].
  - destruct Hloop as ((d & E1 & _ & E3) & E4 & E5). split_and!.
    + destruct E4; [left; auto|by right].
    + exists d. done.
    + intros old Hsel (dold & Hd & Hall). destruct (Hold _ _ Hsel Hd) as [-> ->]. by apply E5.
  - destruct Hloop as [-> E]. by destruct (head _).
Qed.
End url_test.

(** * Concrete outbound groups

    Two members in a selector and in a URL test group: the theorems of [GroupsSpec.v] applied
    to them, and what happens beyond their hypotheses. *)

Definition exMember (n : nat) (tag : string) : Outbound :=
  mkOutbound n (mkObject "plain" tag ["tcp"; "udp"]%string [] (Legacy None None None) None).

Definition exFind (t : string) : option Outbound :=
  if String.eqb t "a" then Some (exMember 0 "a") else if String.eqb t "b" then Some (exMember 1 "b") else None.

Definition noGroup (_ : Outbound) : option string := None.

(** ** Selectors *)

Definition exSelector0 : Selector := mkSelector "g" ["a"; "b"]%string "" ∅ None false.

Definition exSelector : Selector :=
  match Selector_Start exSelector0 exFind (Some exCache) with Ok s => s | Err _ => exSelector0 end.

Lemma selected_is_member_witness :
  let s := (RemoveMember (SelectOutbound exSelector (Some exCache) "b").1.1.1 "b").1.1 in
  selTags s = ["a"]%string /\ exists t o, selected s = Some o /\ selOutbounds s !! t = Some o
    /\ Selector_Now s = Ok (Tag o) /\ Selector_Network s = Network o.
Proof.
  intros s. split; [vm_compute; reflexivity|].
  apply (selected_is_member "g" ["a"; "b"]%string "" false exFind (Some exCache) exSelector0 exSelector s).
  - apply (bool_decide_unpack _). vm_compute. exact I.
  - reflexivity.
  - vm_compute. reflexivity.
  - eapply rtc_l; [apply (sel_select _ (Some exCache) "b")|]. eapply rtc_l; [apply (sel_remove _ "b")|]. apply rtc_refl.
  - vm_compute. discriminate.
Defined.

Lemma selection_survives_restart_witness :
  let c' := (StoreSelected exCache "g" "b").2 in
  exists s1, Selector_Start exSelector0 exFind (Some (reopen c')) = Ok s1 /\ selected s1 = exFind "b".
Proof.
  intros c'. apply (selection_survives_restart exSelector exCache "b" (setSelected exSelector (exFind "b")) c' false
    ["a"; "b"]%string "" false exFind exSelector0).
  - discriminate.
  - discriminate.
  - reflexivity.
  - vm_compute. reflexivity.
  - reflexivity.
  - right. left.
  - intros t Ht. apply elem_of_cons in Ht as [->|Ht]; [by eexists|]. apply elem_of_cons in Ht as [->|Ht]; [by eexists|].
    by apply elem_of_nil in Ht.
Defined.

(** ** URL test groups *)

Definition exHistory (l : list (string * Z)) : HistoryStorage (IpInfo := unit) :=
  list_to_map ((fun e => (e.1, mkURLTestHistory 0 e.2 None false)) <$> l).

Definition exGroup : URLTestGroup := mkURLTestGroup [exMember 0 "a"; exMember 1 "b"] 180000 50 1800000 (Some (exMember 0 "a")) None.

Definition exMeasured : HistoryStorage (IpInfo := unit) := exHistory [("a", 120); ("b", 100)]%string.

(** The second member is faster, but not by more than the tolerance. *)
Lemma select_within_tolerance_witness :
  Select noGroup exGroup exMeasured "tcp" = (Some (exMember 0 "a"), true)
  /\ (selectedFor exGroup "tcp" = Some (exMember 0 "a")
      \/ (exMember 0 "a" ∈ testOutbounds exGroup /\ supports "tcp" (exMember 0 "a") = true))
  /\ bestOf noGroup exMeasured 50 "tcp" (testOutbounds exGroup) (exMember 0 "a")
  /\ forall old, selectedFor exGroup "tcp" = Some old -> bestOf noGroup exMeasured 50 "tcp" (testOutbounds exGroup) old -> exMember 0 "a" = old.
Proof.
  split; [vm_compute; reflexivity|].
  refine (select_within_tolerance noGroup exMeasured exGroup "tcp" _ _); [vm_compute; discriminate|].
  intros x [Hx|Hx] d Hd.
  - apply elem_of_cons in Hx as [->|Hx]; [vm_compute in Hd; injection Hd as <-; vm_compute; split; reflexivity|].
    apply elem_of_cons in Hx as [->|Hx]; [vm_compute in Hd; injection Hd as <-; vm_compute; split; reflexivity|]. by apply elem_of_nil in Hx.
  - injection Hx as <-. vm_compute in Hd. injection Hd as <-. vm_compute. split; reflexivity.
Defined.

(** ** Where the code does not do what it means to *)

(** What a check of the group selects for TCP *)
Definition checkedNow (measure : string -> result Z) : option string :=
  let '(_, _, (g, _)) := urlTest noGroup exGroup (exHistory []) exFind measure 1000 false in
  (fun o : Outbound => Tag o) <$> selectedOutboundTCP g.

(** A member that failed its test has the delay 65535; with the tolerance this wraps around
    to a small number, so the failed member replaces one that works. *)
Example failed_member_selected :
  checkedNow (fun t => if String.eqb t "a" then Ok 100 else Err "timeout"%string) = Some "b"%string.
Proof. vm_compute. reflexivity. Qed.

(** A member with a delay below one millisecond counts as not measured. *)
Example fastest_member_passed_over :
  checkedNow (fun t => if String.eqb t "a" then Ok 0 else Ok 900) = Some "b"%string.
Proof. vm_compute. reflexivity. Qed.

(** A member that is added again under its tag replaces the member, not the selection. *)
Example replaced_member_stays_selected :
  let s := AddMember exSelector "a" (exMember 7 "a") in
  (ptr <$> selected s) = Some 0%nat /\ (ptr <$> selOutbounds s !! "a"%string) = Some 7%nat.
Proof. vm_compute. done. Qed.
