(* ===== verification/Huffman.v ===== *)
(** * Huffman codes of HPACK ([replace/x-net/http2/hpack/huffman.go], [tables.go])

    Every byte has a code of 5 to 30 bits.  The encoder collects the codes in a 64-bit
    buffer; the decoder walks a tree that branches over eight bits at a time. *)

From S2P Require Import Prelude Binary.

Definition huffmanCodes : list Z :=
  [0x1ff8; 0x7fffd8; 0xfffffe2; 0xfffffe3; 0xfffffe4; 0xfffffe5; 0xfffffe6; 0xfffffe7;
   0xfffffe8; 0xffffea; 0x3ffffffc; 0xfffffe9; 0xfffffea; 0x3ffffffd; 0xfffffeb; 0xfffffec;
   0xfffffed; 0xfffffee; 0xfffffef; 0xffffff0; 0xffffff1; 0xffffff2; 0x3ffffffe; 0xffffff3;
   0xffffff4; 0xffffff5; 0xffffff6; 0xffffff7; 0xffffff8; 0xffffff9; 0xffffffa; 0xffffffb;
   0x14; 0x3f8; 0x3f9; 0xffa; 0x1ff9; 0x15; 0xf8; 0x7fa;
   0x3fa; 0x3fb; 0xf9; 0x7fb; 0xfa; 0x16; 0x17; 0x18;
   0x0; 0x1; 0x2; 0x19; 0x1a; 0x1b; 0x1c; 0x1d;
   0x1e; 0x1f; 0x5c; 0xfb; 0x7ffc; 0x20; 0xffb; 0x3fc;
   0x1ffa; 0x21; 0x5d; 0x5e; 0x5f; 0x60; 0x61; 0x62;
   0x63; 0x64; 0x65; 0x66; 0x67; 0x68; 0x69; 0x6a;
   0x6b; 0x6c; 0x6d; 0x6e; 0x6f; 0x70; 0x71; 0x72;
   0xfc; 0x73; 0xfd; 0x1ffb; 0x7fff0; 0x1ffc; 0x3ffc; 0x22;
   0x7ffd; 0x3; 0x23; 0x4; 0x24; 0x5; 0x25; 0x26;
   0x27; 0x6; 0x74; 0x75; 0x28; 0x29; 0x2a; 0x7;
   0x2b; 0x76; 0x2c; 0x8; 0x9; 0x2d; 0x77; 0x78;
   0x79; 0x7a; 0x7b; 0x7ffe; 0x7fc; 0x3ffd; 0x1ffd; 0xffffffc;
   0xfffe6; 0x3fffd2; 0xfffe7; 0xfffe8; 0x3fffd3; 0x3fffd4; 0x3fffd5; 0x7fffd9;
   0x3fffd6; 0x7fffda; 0x7fffdb; 0x7fffdc; 0x7fffdd; 0x7fffde; 0xffffeb; 0x7fffdf;
   0xffffec; 0xffffed; 0x3fffd7; 0x7fffe0; 0xffffee; 0x7fffe1; 0x7fffe2; 0x7fffe3;
   0x7fffe4; 0x1fffdc; 0x3fffd8; 0x7fffe5; 0x3fffd9; 0x7fffe6; 0x7fffe7; 0xffffef;
   0x3fffda; 0x1fffdd; 0xfffe9; 0x3fffdb; 0x3fffdc; 0x7fffe8; 0x7fffe9; 0x1fffde;
   0x7fffea; 0x3fffdd; 0x3fffde; 0xfffff0; 0x1fffdf; 0x3fffdf; 0x7fffeb; 0x7fffec;
   0x1fffe0; 0x1fffe1; 0x3fffe0; 0x1fffe2; 0x7fffed; 0x3fffe1; 0x7fffee; 0x7fffef;
   0xfffea; 0x3fffe2; 0x3fffe3; 0x3fffe4; 0x7ffff0; 0x3fffe5; 0x3fffe6; 0x7ffff1;
   0x3ffffe0; 0x3ffffe1; 0xfffeb; 0x7fff1; 0x3fffe7; 0x7ffff2; 0x3fffe8; 0x1ffffec;
   0x3ffffe2; 0x3ffffe3; 0x3ffffe4; 0x7ffffde; 0x7ffffdf; 0x3ffffe5; 0xfffff1; 0x1ffffed;
   0x7fff2; 0x1fffe3; 0x3ffffe6; 0x7ffffe0; 0x7ffffe1; 0x3ffffe7; 0x7ffffe2; 0xfffff2;
   0x1fffe4; 0x1fffe5; 0x3ffffe8; 0x3ffffe9; 0xffffffd; 0x7ffffe3; 0x7ffffe4; 0x7ffffe5;
   0xfffec; 0xfffff3; 0xfffed; 0x1fffe6; 0x3fffe9; 0x1fffe7; 0x1fffe8; 0x7ffff3;
   0x3fffea; 0x3fffeb; 0x1ffffee; 0x1ffffef; 0xfffff4; 0xfffff5; 0x3ffffea; 0x7ffff4;
   0x3ffffeb; 0x7ffffe6; 0x3ffffec; 0x3ffffed; 0x7ffffe7; 0x7ffffe8; 0x7ffffe9; 0x7ffffea;
   0x7ffffeb; 0xffffffe; 0x7ffffec; 0x7ffffed; 0x7ffffee; 0x7ffffef; 0x7fffff0; 0x3ffffee].

Definition huffmanCodeLen : list Z :=
  [13; 23; 28; 28; 28; 28; 28; 28; 28; 24; 30; 28; 28; 30; 28; 28;
   28; 28; 28; 28; 28; 28; 30; 28; 28; 28; 28; 28; 28; 28; 28; 28;
   6; 10; 10; 12; 13; 6; 8; 11; 10; 10; 8; 11; 8; 6; 6; 6;
   5; 5; 5; 6; 6; 6; 6; 6; 6; 6; 7; 8; 15; 6; 12; 10;
   13; 6; 7; 7; 7; 7; 7; 7; 7; 7; 7; 7; 7; 7; 7; 7;
   7; 7; 7; 7; 7; 7; 7; 7; 8; 7; 8; 13; 19; 13; 14; 6;
   15; 5; 6; 5; 6; 5; 6; 6; 6; 5; 7; 7; 6; 6; 6; 5;
   6; 7; 6; 5; 5; 6; 7; 7; 7; 7; 7; 15; 11; 14; 13; 28;
   20; 22; 20; 20; 22; 22; 22; 23; 22; 23; 23; 23; 23; 23; 24; 23;
   24; 24; 22; 23; 24; 23; 23; 23; 23; 21; 22; 23; 22; 23; 23; 24;
   22; 21; 20; 22; 22; 23; 23; 21; 23; 22; 22; 24; 21; 22; 23; 23;
   21; 21; 22; 21; 23; 22; 23; 23; 20; 22; 22; 22; 23; 22; 22; 23;
   26; 26; 20; 19; 22; 23; 22; 25; 26; 26; 26; 27; 27; 26; 24; 25;
   19; 21; 26; 27; 27; 26; 27; 24; 21; 21; 26; 26; 28; 27; 27; 27;
   20; 24; 20; 21; 22; 21; 21; 23; 22; 22; 25; 25; 24; 24; 26; 23;
   26; 27; 26; 26; 27; 27; 27; 27; 27; 28; 27; 27; 27; 27; 27; 26].

(** [huffmanCodes[c]] and [huffmanCodeLen[c]] *)
Definition codeOf (c : Byte.byte) : Z := nth (Z.to_nat (byteZ c)) huffmanCodes 0.
Definition codeLenOf (c : Byte.byte) : Z := nth (Z.to_nat (byteZ c)) huffmanCodeLen 0.

(** ** Encoding *)

Definition HuffmanEncodeLength (s : bytes) : Z :=
  u64 (foldl (fun n c => u64 (n + codeLenOf c)) 0 s + 7) / 8.

(** One byte of the string: the output, the buffer and the number of its bits *)
Definition appendCode (st : bytes * Z * Z) (c : Byte.byte) : bytes * Z * Z :=
  let '(dst, x, n) := st in
  let n := n + codeLenOf c in
  let x := Z.lor (u64 (Z.shiftl x (codeLenOf c mod 64))) (codeOf c) in
  if 32 <=? n then
    let n := n mod 32 in
    let y := u32 (Z.shiftr x n) in
    (dst ++ [zByte (Z.shiftr y 24); zByte (Z.shiftr y 16); zByte (Z.shiftr y 8); zByte y], x, n)
  else (dst, x, n).

Definition eosPadByte : Z := Z.shiftr 0x3fffffff (30 - 8).

Definition AppendHuffmanString (dst s : bytes) : bytes :=
  let '(dst, x, n) := foldl appendCode (dst, 0, 0) s in
  let over := n mod 8 in
  let '(x, n) :=
    if 0 <? over then
      let pad := 8 - over in (Z.lor (u64 (Z.shiftl x pad)) (Z.shiftr eosPadByte over), n + pad)
    else (x, n) in
  if n / 8 =? 0 then dst
  else if n / 8 =? 1 then dst ++ [zByte x]
  else if n / 8 =? 2 then let y := u16 x in dst ++ [zByte (Z.shiftr y 8); zByte y]
  else if n / 8 =? 3 then let y := u16 (Z.shiftr x 8) in dst ++ [zByte (Z.shiftr y 8); zByte y; zByte x]
  else let y := u32 x in dst ++ [zByte (Z.shiftr y 24); zByte (Z.shiftr y 16); zByte (Z.shiftr y 8); zByte y].

(** ** Decoding *)

(** A leaf has the bits of its last byte that belong to the code. *)
Inductive node :=
  | Leaf (codeLen : Z) (sym : Byte.byte)
  | Internal (children : list (option node)).

Definition newInternalNode : node := Internal (replicate 256 None).

(** [for i := start; i < start+end; i++ { children[i] = leaf }] *)
Definition fillLeaves (start count : nat) (leaf : node) (children : list (option node)) : list (option node) :=
  foldl (fun children i => <[i := Some leaf]> children) children (seq start count).

(** The path of a code from a node down; [fuel] is one more than the bytes of the code. *)
Fixpoint insertCode (fuel : nat) (cur : node) (code codeLen : Z) (sym : Byte.byte) : node :=
  match cur, fuel with
  | Internal children, S fuel =>
      if 8 <? codeLen then
        let codeLen := codeLen - 8 in
        let i := Z.to_nat (u8 (Z.shiftr code codeLen)) in
        let child := match children !! i with Some (Some child) => child | _ => newInternalNode end in
        Internal (<[i := Some (insertCode fuel child code codeLen sym)]> children)
      else
        let shift := 8 - codeLen in
        Internal (fillLeaves (Z.to_nat (u8 (Z.shiftl code shift))) (Z.to_nat (Z.shiftl 1 shift)) (Leaf codeLen sym) children)
  | _, _ => cur
  end.

Definition buildRootHuffmanNode : node :=
  foldl (fun root sym => insertCode 5 root (codeOf sym) (codeLenOf sym) sym) newInternalNode
    (zByte <$> seqZ 0 256).

Definition child (n : node) (idx : Z) : option node :=
  match n with Internal children => mjoin (children !! Z.to_nat idx) | Leaf _ _ => None end.

(** What decoding can fail with *)
Inductive HpackError :=
  | errNeedMore
  | ErrStringLength
  | ErrInvalidHuffman
  | DecodingError (msg : string)
  | Panic (msg : string).

#[global] Instance HpackError_eq_dec : EqDecision HpackError.
Proof. solve_decision. Defined.

Inductive parsed (A : Type) := Parsed (a : A) | Failed (e : HpackError).
Arguments Parsed {A} a.
Arguments Failed {A} e.

#[global] Instance parsed_bind : MBind parsed := fun A B f m =>
  match m with Parsed a => f a | Failed e => Failed e end.

(** The node, the bits that were not used, and the bits of the unfinished symbol *)
Record huffState := mkHuffState { hNode : node; cur : Z; cbits : Z; sbits : Z; hBuf : bytes }.

Section decode.
Context (root : node) (maxLen : Z).

Definition full (buf : bytes) : bool := negb (maxLen =? 0) && (Z.of_nat (length buf) =? maxLen).

(** [for cbits >= 8]; every round uses a bit at least *)
Fixpoint symbols (fuel : nat) (st : huffState) : parsed huffState :=
  let 'mkHuffState n cur cbits sbits buf := st in
  if cbits <? 8 then Parsed st
  else match fuel with
       | O => Failed (Panic "out of fuel")
       | S fuel =>
           match child n (u8 (Z.shiftr cur (cbits - 8))) with
           | None => Failed ErrInvalidHuffman
           | Some (Leaf codeLen sym) =>
               if full buf then Failed ErrStringLength
               else symbols fuel (mkHuffState root cur (cbits - codeLen) (cbits - codeLen) (buf ++ [sym]))
           | Some n => symbols fuel (mkHuffState n cur (cbits - 8) sbits buf)
           end
       end.

Fixpoint huffBytes (v : bytes) (st : huffState) : parsed huffState :=
  match v with
  | [] => Parsed st
  | b :: v =>
      let 'mkHuffState n cur cbits sbits buf := st in
      let cur := Z.lor (u64 (Z.shiftl cur 8)) (byteZ b) in
      st ← symbols (Z.to_nat (cbits + 8)) (mkHuffState n cur (u8 (cbits + 8)) (u8 (sbits + 8)) buf);
      huffBytes v st
  end.

(** [for cbits > 0], after the last byte *)
Fixpoint lastSymbols (fuel : nat) (st : huffState) : parsed huffState :=
  let 'mkHuffState n cur cbits sbits buf := st in
  if cbits <=? 0 then Parsed st
  else match fuel with
       | O => Failed (Panic "out of fuel")
       | S fuel =>
           match child n (u8 (u64 (Z.shiftl cur (8 - cbits)))) with
           | None => Failed ErrInvalidHuffman
           | Some (Leaf codeLen sym) =>
               if cbits <? codeLen then Parsed st
               else if full buf then Failed ErrStringLength
               else lastSymbols fuel (mkHuffState root cur (cbits - codeLen) (cbits - codeLen) (buf ++ [sym]))
           | Some _ => Parsed st
           end
       end.

Definition huffmanDecodeFrom (v : bytes) : parsed bytes :=
  st ← huffBytes v (mkHuffState root 0 0 0 []);
  st ← lastSymbols (Z.to_nat (cbits st)) st;
  if 7 <? sbits st then Failed ErrInvalidHuffman
  else
    let mask := Z.shiftl 1 (cbits st) - 1 in
    if Z.land (cur st) mask =? mask then Parsed (hBuf st) else Failed ErrInvalidHuffman.
End decode.

Definition huffmanDecode (maxLen : Z) (v : bytes) : parsed bytes :=
  huffmanDecodeFrom buildRootHuffmanNode maxLen v.
