(* ===== verification/HuffmanSpec.v ===== *)
(** * Huffman coding of HPACK strings is lossless

    The encoded form of a string is the bits of its codes, filled up with ones; the decoder
    finds the codes again in whatever pieces the bytes give it. *)

From S2P Require Import Prelude Binary Huffman.

(** ** Bits *)

(** The low [n] bits of a number, highest first *)
Fixpoint bitsBE (n : nat) (z : Z) : list bool :=
  match n with O => [] | S n => Z.testbit z (Z.of_nat n) :: bitsBE n z end.

Lemma length_bitsBE n z : length (bitsBE n z) = n.
Proof. induction n as [|n IH]; cbn; [done|by rewrite IH]. Qed.

Lemma bitsBE_ext n a b : (forall i, 0 <= i < Z.of_nat n -> Z.testbit a i = Z.testbit b i) -> bitsBE n a = bitsBE n b.
Proof.
  induction n as [|n IH]; intros Hab; [done|]. cbn. rewrite (Hab (Z.of_nat n)) by lia. f_equal. apply IH. intros i Hi. apply Hab. lia.
Qed.

Lemma bitsBE_inj n a b : bitsBE n a = bitsBE n b -> forall i, 0 <= i < Z.of_nat n -> Z.testbit a i = Z.testbit b i.
Proof.
  induction n as [|n IH]; intros Hab i Hi; [lia|]. cbn in Hab. injection Hab as H1 H2.
  destruct (decide (i = Z.of_nat n)) as [->|]; [done|]. apply IH; [done|lia].
Qed.

Lemma bitsBE_split a b z : bitsBE (a + b) z = bitsBE a (Z.shiftr z (Z.of_nat b)) ++ bitsBE b z.
Proof.
  induction a as [|a IH]; [done|]. cbn [Nat.add bitsBE app]. rewrite Z.shiftr_spec by lia. rewrite IH. f_equal. f_equal. lia.
Qed.

Lemma bitsBE_wrap n w z : (Z.of_nat n <= w) -> bitsBE n (wrap w z) = bitsBE n z.
Proof. intros Hw. apply bitsBE_ext. intros i Hi. apply testbit_wrap; lia. Qed.

Lemma bitsBE_byte z : bitsBE 8 (byteZ (zByte z)) = bitsBE 8 z.
Proof. rewrite byteZ_zByte. by apply bitsBE_wrap. Qed.

Lemma bitsBE_eq n a b : fits (Z.of_nat n) a -> fits (Z.of_nat n) b -> bitsBE n a = bitsBE n b -> a = b.
Proof. intros Ha Hb E. apply (fits_ext (Z.of_nat n)); [lia|done|done|]. by apply bitsBE_inj. Qed.

(** Appending the [l] bits of [code] to a buffer *)
Lemma bitsBE_append n l x code : (n + l <= 64)%nat -> fits (Z.of_nat l) code ->
  bitsBE (n + l) (Z.lor (u64 (Z.shiftl x (Z.of_nat l))) code) = bitsBE n x ++ bitsBE l code.
Proof.
  intros Hn Hc. rewrite bitsBE_split. f_equal; apply bitsBE_ext; intros i Hi.
  - rewrite Z.shiftr_spec, Z.lor_spec, testbit_wrap, Z.shiftl_spec by lia.
    rewrite (fits_testbit (Z.of_nat l) code) by (done || lia). rewrite orb_false_r. f_equal. lia.
  - rewrite Z.lor_spec, testbit_wrap, Z.shiftl_spec_low by lia. done.
Qed.

Definition bytesBits (b : bytes) : list bool := concat ((fun c => bitsBE 8 (byteZ c)) <$> b).

Lemma bytesBits_app a b : bytesBits (a ++ b) = bytesBits a ++ bytesBits b.
Proof. unfold bytesBits. by rewrite fmap_app, concat_app. Qed.

Lemma bytesBits_length b : length (bytesBits b) = (8 * length b)%nat.
Proof. induction b as [|c b IH]; [done|]. unfold bytesBits in *. cbn [fmap list_fmap concat]. rewrite length_app, IH, length_bitsBE. cbn. lia. Qed.

(** ** Codes *)

Definition codeLenN (c : Byte.byte) : nat := Z.to_nat (codeLenOf c).
Definition codeBits (c : Byte.byte) : list bool := bitsBE (codeLenN c) (codeOf c).
Definition codesBits (s : bytes) : list bool := concat (codeBits <$> s).

Definition symbolsAll : list Byte.byte := zByte <$> seqZ 0 256.

Lemma elem_symbolsAll c : In c symbolsAll.
Proof.
  apply list_elem_of_In. unfold symbolsAll. apply list_elem_of_fmap. exists (byteZ c). split; [by rewrite zByte_byteZ|].
  apply elem_of_seqZ. pose proof (byteZ_fits c) as Hf. unfold fits in Hf. lia.
Qed.

(** A property of all symbols that was checked for each of them *)
Lemma checked (P : Byte.byte -> bool) : forallb P symbolsAll = true -> forall c, P c = true.
Proof. intros H c. rewrite forallb_forall in H. apply H, elem_symbolsAll. Qed.

Lemma codes_checked : forallb (fun c => (5 <=? codeLenOf c) && (codeLenOf c <=? 30) && (0 <=? codeOf c) && (codeOf c <? 2 ^ codeLenOf c)) symbolsAll = true.
Proof. vm_compute. reflexivity. Qed.

Lemma code_ok c : 5 <= codeLenOf c <= 30 /\ fits (codeLenOf c) (codeOf c).
Proof. pose proof (checked _ codes_checked c) as H. rewrite !andb_true_iff, !Z.leb_le, Z.ltb_lt in H. unfold fits. lia. Qed.

Lemma length_codeBits c : length (codeBits c) = codeLenN c.
Proof. apply length_bitsBE. Qed.

(** ** Encoding *)

Lemma four_bytes y : bytesBits [zByte (Z.shiftr y 24); zByte (Z.shiftr y 16); zByte (Z.shiftr y 8); zByte y] = bitsBE 32 y.
Proof.
  unfold bytesBits. cbn [fmap list_fmap concat]. rewrite !bitsBE_byte, app_nil_r.
  change 32%nat with (8 + (8 + (8 + 8)))%nat. rewrite (bitsBE_split 8 (8 + (8 + 8))), (bitsBE_split 8 (8 + 8)), (bitsBE_split 8 8). done.
Qed.

Lemma appendCode_ok dst x n c dst' x' n' : 0 <= n < 32 -> appendCode (dst, x, n) c = (dst', x', n') ->
  0 <= n' < 32 /\ bytesBits dst' ++ bitsBE (Z.to_nat n') x' = bytesBits dst ++ bitsBE (Z.to_nat n) x ++ codeBits c.
Proof.
  intros Hn. unfold appendCode. destruct (code_ok c) as [Hl Hc]. rewrite (Z.mod_small (codeLenOf c)) by lia.
  pose proof (bitsBE_append (Z.to_nat n) (codeLenN c) x (codeOf c)) as Hx. unfold codeLenN in Hx. rewrite !Z2Nat.id in Hx by lia.
  specialize (Hx ltac:(lia) Hc). fold (codeLenN c) in Hx. fold (codeBits c) in Hx.
  destruct (Z.leb_spec 32 (n + codeLenOf c)) as [Hge|Hlt]; intros [= <- <- <-].
  - split; [by apply Z.mod_pos_bound|]. rewrite <- Hx, bytesBits_app, <- app_assoc. f_equal. rewrite four_bytes, bitsBE_wrap by lia.
    replace (Z.to_nat n + codeLenN c)%nat with (32 + Z.to_nat ((n + codeLenOf c) mod 32))%nat.
    + rewrite bitsBE_split, Z2Nat.id by (apply Z.mod_pos_bound; lia). done.
    + unfold codeLenN. divlia.
  - split; [lia|]. rewrite <- Hx. f_equal. f_equal. unfold codeLenN. lia.
Qed.

Lemma appendCodes_ok s : forall dst x n dst' x' n', 0 <= n < 32 -> foldl appendCode (dst, x, n) s = (dst', x', n') ->
  0 <= n' < 32 /\ bytesBits dst' ++ bitsBE (Z.to_nat n') x' = bytesBits dst ++ bitsBE (Z.to_nat n) x ++ codesBits s.
Proof.
  induction s as [|c s IH]; intros dst x n dst' x' n' Hn Hs; cbn [foldl] in Hs.
  - injection Hs as <- <- <-. unfold codesBits. cbn. by rewrite app_nil_r.
  - destruct (appendCode (dst, x, n) c) as [[dst1 x1] n1] eqn:E1. apply appendCode_ok in E1 as [Hn1 E1]; [|done].
    apply IH in Hs as [Hn' Hs]; [|done]. split; [done|]. rewrite Hs, app_assoc, E1. unfold codesBits. cbn [fmap list_fmap concat].
    by rewrite !app_assoc.
Qed.

Lemma ones_bits n : bitsBE n (2 ^ Z.of_nat n - 1) = replicate n true.
Proof.
  transitivity (bitsBE n (Z.ones (Z.of_nat n))); [by rewrite Z.ones_equiv, Z.sub_1_r|].
  induction n as [|n IH]; [done|]. cbn [bitsBE replicate]. rewrite Z.ones_spec_low by lia. f_equal. rewrite <- IH. apply bitsBE_ext.
  intros i Hi. by rewrite !Z.ones_spec_low by lia.
Qed.

(** The bits of an encoded string: the codes, and ones up to the end of the last byte *)
Lemma AppendHuffmanString_bits dst s : exists p, (p < 8)%nat /\
  bytesBits (AppendHuffmanString dst s) = bytesBits dst ++ codesBits s ++ replicate p true.
Proof.
  unfold AppendHuffmanString. destruct (foldl appendCode (dst, 0, 0) s) as [[dst' x] n] eqn:Hs.
  apply appendCodes_ok in Hs as [Hn Hs]; [|lia]. change (bitsBE (Z.to_nat 0) 0) with (@nil bool) in Hs. cbn [app] in Hs.
  assert (Hpad : exists p x' n', (p < 8)%nat /\
    (if 0 <? n mod 8 then (Z.lor (u64 (Z.shiftl x (8 - n mod 8))) (Z.shiftr eosPadByte (n mod 8)), n + (8 - n mod 8)) else (x, n)) = (x', n')
    /\ n' mod 8 = 0 /\ 0 <= n' <= 32 /\ bitsBE (Z.to_nat n') x' = bitsBE (Z.to_nat n) x ++ replicate p true).
  { destruct (Z.ltb_spec 0 (n mod 8)) as [Hover|Hover].
    - assert (Ho : 0 < n mod 8 < 8) by (split; [lia|by apply Z.mod_pos_bound]).
      exists (Z.to_nat (8 - n mod 8)). eexists _, _. split_and!; [lia|reflexivity|divlia|divlia|divlia|].
      replace (Z.to_nat (n + (8 - n mod 8))) with (Z.to_nat n + Z.to_nat (8 - n mod 8))%nat by lia.
      replace (Z.shiftr eosPadByte (n mod 8)) with (2 ^ Z.of_nat (Z.to_nat (8 - n mod 8)) - 1).
      + rewrite <- (Z2Nat.id (8 - n mod 8)) at 2 by lia. rewrite bitsBE_append, ones_bits; [done|lia|]. unfold fits. lia.
      + rewrite Z2Nat.id by lia. generalize dependent (n mod 8). intros o _ Ho.
        assert (o = 1 \/ o = 2 \/ o = 3 \/ o = 4 \/ o = 5 \/ o = 6 \/ o = 7) as Hcase by lia.
        by repeat destruct Hcase as [-> | Hcase]; [..|subst o].
    - exists 0%nat, x, n. split_and!; [lia|done|divlia|lia|lia|]. by rewrite app_nil_r. }
  destruct Hpad as (p & x' & n' & Hp & -> & Hmod & Hn' & Hx). exists p. split; [done|].
  rewrite app_assoc, <- Hs, <- app_assoc, <- Hx. clear Hx Hs.
  assert (n' = 0 \/ n' = 8 \/ n' = 16 \/ n' = 24 \/ n' = 32) as Hcase by divlia.
  destruct Hcase as [-> |[-> |[-> |[-> | ->]]]].
  - cbn. by rewrite app_nil_r.
  - change (8 / 8 =? 0) with false. change (8 / 8 =? 1) with true. cbv iota. rewrite bytesBits_app. f_equal.
    unfold bytesBits. cbn [fmap list_fmap concat]. by rewrite bitsBE_byte, app_nil_r.
  - change (16 / 8 =? 0) with false. change (16 / 8 =? 1) with false. change (16 / 8 =? 2) with true. cbv iota zeta. rewrite bytesBits_app. f_equal.
    unfold bytesBits. cbn [fmap list_fmap concat]. rewrite !bitsBE_byte, app_nil_r. change (Z.to_nat 16) with (8 + 8)%nat.
    rewrite <- (bitsBE_wrap (8 + 8) 16 x') by lia. by rewrite bitsBE_split.
  - change (24 / 8 =? 0) with false. change (24 / 8 =? 1) with false. change (24 / 8 =? 2) with false. change (24 / 8 =? 3) with true.
    cbv iota zeta. rewrite bytesBits_app. f_equal. unfold bytesBits. cbn [fmap list_fmap concat]. rewrite !bitsBE_byte, app_nil_r.
    change (Z.to_nat 24) with (16 + 8)%nat. rewrite (bitsBE_split 16 8 x'), app_assoc. f_equal.
    change (Z.of_nat 8) with 8. rewrite <- (bitsBE_wrap 16 16 (Z.shiftr x' 8)) by lia. by rewrite (bitsBE_split 8 8).
  - change (32 / 8 =? 0) with false. change (32 / 8 =? 1) with false. change (32 / 8 =? 2) with false. change (32 / 8 =? 3) with false.
    cbv iota zeta. rewrite bytesBits_app. f_equal. rewrite four_bytes. by apply bitsBE_wrap.
Qed.

(** ** The tree *)

Abbreviation root := buildRootHuffmanNode.

(** The node after [k] bytes of the code of [c] *)
Fixpoint nodeAt (r : node) (c : Byte.byte) (k : nat) : option node :=
  match k with
  | O => Some r
  | S k => n ← nodeAt r c k; child n (u8 (Z.shiftr (codeOf c) (codeLenOf c - 8 * Z.of_nat (S k))))
  end.

Definition isInternal (n : option node) : bool := match n with Some (Internal _) => true | _ => false end.

(** The whole bytes before the last bits of a code, and the number of these bits *)
Definition chunks (c : Byte.byte) : nat := Z.to_nat ((codeLenOf c - 1) / 8).
Definition lastBits (c : Byte.byte) : Z := codeLenOf c - 8 * Z.of_nat (chunks c).

Definition treeCheck (r : node) (c : Byte.byte) : bool :=
  forallb (fun k => isInternal (nodeAt r c k)) (seq 0 (S (chunks c)))
  && forallb (fun j =>
       match n ← nodeAt r c (chunks c); child n (codeOf c mod 2 ^ lastBits c * 2 ^ (8 - lastBits c) + j) with
       | Some (Leaf l sym) => (l =? lastBits c) && bool_decide (sym = c)
       | _ => false
       end) (seqZ 0 (2 ^ (8 - lastBits c))).

Lemma tree_checked : (let r := root in forallb (treeCheck r) symbolsAll) = true.
Proof. vm_compute. reflexivity. Qed.

(** Fewer than eight ones are no code, and the tree goes on after them. *)
Lemma padding_checked : (let r := root in forallb (fun p =>
  match child r (256 - 2 ^ (8 - p)) with Some (Leaf l _) => p <? l | Some (Internal _) => true | None => false end) (seqZ 1 7)) = true.
Proof. vm_compute. reflexivity. Qed.

Opaque buildRootHuffmanNode.

Lemma lastBits_ok c : 1 <= lastBits c <= 8 /\ (chunks c <= 3)%nat /\ codeLenN c = (8 * chunks c + Z.to_nat (lastBits c))%nat.
Proof. destruct (code_ok c) as [Hl _]. unfold lastBits, chunks, codeLenN. divlia. Qed.

Lemma node_internal c k : (k <= chunks c)%nat -> exists ch, nodeAt root c k = Some (Internal ch).
Proof.
  intros Hk. pose proof (checked _ tree_checked c) as H. apply andb_true_iff in H as [H _]. rewrite forallb_forall in H.
  specialize (H k ltac:(apply in_seq; lia)). unfold isInternal in H. destruct (nodeAt root c k) as [[|ch]|]; [done|eauto|done].
Qed.

Lemma node_leaf c n idx : nodeAt root c (chunks c) = Some n -> fits 8 idx ->
  bitsBE (Z.to_nat (lastBits c)) (Z.shiftr idx (8 - lastBits c)) = bitsBE (Z.to_nat (lastBits c)) (codeOf c) ->
  child n idx = Some (Leaf (lastBits c) c).
Proof.
  intros Hn Hidx Hbits. destruct (lastBits_ok c) as [Hr _]. pose proof (checked _ tree_checked c) as H.
  apply andb_true_iff in H as [_ H]. rewrite forallb_forall in H. rewrite Hn in H. cbn [mbind option_bind] in H.
  assert (Htop : Z.shiftr idx (8 - lastBits c) = codeOf c mod 2 ^ lastBits c).
  { apply (bitsBE_eq (Z.to_nat (lastBits c))); rewrite ?Z2Nat.id by lia.
    - unfold fits in *. rewrite Z.shiftr_div_pow2 by lia. split; [apply Z.div_pos; lia|].
      apply Z.div_lt_upper_bound; [lia|]. rewrite <- Z.pow_add_r by lia. replace (8 - lastBits c + lastBits c) with 8 by lia. lia.
    - apply (wrap_fits (lastBits c)). lia.
    - rewrite Hbits. symmetry. apply (bitsBE_wrap _ (lastBits c)). lia. }
  specialize (H (idx mod 2 ^ (8 - lastBits c))). rewrite Z.shiftr_div_pow2 in Htop by lia. rewrite <- Htop in H.
  replace (idx / 2 ^ (8 - lastBits c) * 2 ^ (8 - lastBits c) + idx mod 2 ^ (8 - lastBits c)) with idx in H
    by (rewrite Z.mul_comm; apply Z.div_mod; lia).
  specialize (H ltac:(apply list_elem_of_In, elem_of_seqZ; pose proof (Z.mod_pos_bound idx (2 ^ (8 - lastBits c))); lia)).
  destruct (child n idx) as [[l sym|]|]; [|done..]. by apply andb_prop in H as [->%Z.eqb_eq ->%bool_decide_eq_true].
Qed.

(** ** Decoding *)

(** The bits of the symbols [s] of which [k] bytes of the first were used, and [p] ones *)
Definition pending (s : bytes) (k p : nat) : list bool := drop (8 * k) (codesBits s ++ replicate p true).

(** The decoder has found the symbols before [s] and [k] bytes of the first of [s]; its unused bits
    and those that follow are the bits that are left. *)
Record decodes (s : bytes) (k p : nat) (later : list bool) (st : huffState) : Prop := mkDecodes {
  dec_node : match s with [] => k = 0%nat /\ hNode st = root | c :: _ => (k <= chunks c)%nat /\ nodeAt root c k = Some (hNode st) end;
  dec_bits : bitsBE (Z.to_nat (cbits st)) (cur st) ++ later = pending s k p;
  dec_cbits : 0 <= cbits st;
  dec_sbits : sbits st = 8 * Z.of_nat k + cbits st;
}.

Lemma codesBits_cons c s : codesBits (c :: s) = codeBits c ++ codesBits s.
Proof. done. Qed.

(** The bits of a code after [k] bytes: another byte, or the last bits *)
Lemma drop_chunk c k : (k < chunks c)%nat ->
  drop (8 * k) (codeBits c) = bitsBE 8 (Z.shiftr (codeOf c) (codeLenOf c - 8 * Z.of_nat (S k))) ++ drop (8 * S k) (codeBits c).
Proof.
  intros Hk. destruct (lastBits_ok c) as (Hr & _ & HL). unfold codeBits.
  assert (Hl : Z.of_nat (codeLenN c) = codeLenOf c) by (unfold codeLenN; destruct (code_ok c); lia).
  replace (codeLenN c) with (8 * k + (8 + (codeLenN c - 8 * S k)))%nat at 1 by lia.
  rewrite bitsBE_split, drop_app_length' by (by rewrite length_bitsBE). rewrite bitsBE_split. f_equal; [f_equal; f_equal; lia|].
  replace (codeLenN c) with (8 * S k + (codeLenN c - 8 * S k))%nat at 2 by lia.
  by rewrite bitsBE_split, drop_app_length' by (by rewrite length_bitsBE).
Qed.

Lemma drop_last c : drop (8 * chunks c) (codeBits c) = bitsBE (Z.to_nat (lastBits c)) (codeOf c).
Proof.
  destruct (lastBits_ok c) as (Hr & _ & HL). unfold codeBits. rewrite HL, bitsBE_split. by rewrite drop_app_length' by (by rewrite length_bitsBE).
Qed.

Lemma pending_cons c s k p : (k <= chunks c)%nat -> pending (c :: s) k p = drop (8 * k) (codeBits c) ++ pending s 0 p.
Proof.
  intros Hk. unfold pending. rewrite codesBits_cons, <- app_assoc. change (8 * 0)%nat with 0%nat. rewrite drop_0.
  apply drop_app_le. rewrite length_codeBits. destruct (lastBits_ok c). lia.
Qed.

Lemma pending_nil p : pending [] 0 p = replicate p true.
Proof. done. Qed.

(** The bits of a window of the buffer *)
Lemma window_bits cur cbits : 8 <= cbits -> bitsBE (Z.to_nat cbits) cur
  = bitsBE 8 (u8 (Z.shiftr cur (cbits - 8))) ++ bitsBE (Z.to_nat (cbits - 8)) cur.
Proof.
  intros Hc. replace (Z.to_nat cbits) with (8 + Z.to_nat (cbits - 8))%nat by lia. rewrite bitsBE_split, Z2Nat.id by lia.
  by rewrite bitsBE_wrap by lia.
Qed.

(** Using [r] bits of the buffer *)
Lemma use_bits r cur cbits (a later rest : list bool) : 0 <= r <= cbits -> length a = Z.to_nat r ->
  bitsBE (Z.to_nat cbits) cur ++ later = a ++ rest ->
  bitsBE (Z.to_nat r) (Z.shiftr cur (cbits - r)) = a /\ bitsBE (Z.to_nat (cbits - r)) cur ++ later = rest.
Proof.
  intros Hr Ha E. replace (Z.to_nat cbits) with (Z.to_nat r + Z.to_nat (cbits - r))%nat in E by lia.
  rewrite bitsBE_split, Z2Nat.id, <- app_assoc in E by lia. apply app_inj_1 in E; [done|]. by rewrite length_bitsBE.
Qed.

(** Eight bits that start with the last bits of a code *)
Lemma leaf_lookup c n idx e : nodeAt root c (chunks c) = Some n -> fits 8 idx ->
  bitsBE 8 idx = drop (8 * chunks c) (codeBits c) ++ e -> child n idx = Some (Leaf (lastBits c) c).
Proof.
  intros Hn Hidx E. apply node_leaf; [done|done|]. destruct (lastBits_ok c) as (Hr & _). rewrite drop_last in E.
  replace 8%nat with (Z.to_nat (lastBits c) + Z.to_nat (8 - lastBits c))%nat in E by lia. rewrite bitsBE_split, Z2Nat.id in E by lia.
  apply app_inj_1 in E as [E _]; [done|]. by rewrite !length_bitsBE.
Qed.

Section decoding.
Context (maxLen : Z).

Definition room (buf s : bytes) : Prop := maxLen = 0 \/ Z.of_nat (length buf + length s) <= maxLen.

Lemma room_full buf c s : room buf (c :: s) -> full maxLen buf = false.
Proof. unfold room, full. cbn [length]. intros [->|Hr]; [done|]. destruct (maxLen =? 0); [done|]. apply Z.eqb_neq. lia. Qed.

Lemma room_next buf c s : room buf (c :: s) -> room (buf ++ [c]) s.
Proof. unfold room. rewrite length_app. cbn [length]. intros [->|Hr]; [by left|right; lia]. Qed.

(** A round of the decoder that has eight bits at least *)
Lemma decode_round s k p later n cur cbits sbits buf :
  (p < 8)%nat -> decodes s k p later (mkHuffState n cur cbits sbits buf) -> 8 <= cbits -> exists c s1, s = c :: s1 /\
  ((k = chunks c /\ child n (u8 (Z.shiftr cur (cbits - 8))) = Some (Leaf (lastBits c) c)
    /\ decodes s1 0 p later (mkHuffState root cur (cbits - lastBits c) (cbits - lastBits c) (buf ++ [c])))
   \/ ((k < chunks c)%nat /\ exists ch, child n (u8 (Z.shiftr cur (cbits - 8))) = Some (Internal ch)
      /\ decodes s (S k) p later (mkHuffState (Internal ch) cur (cbits - 8) sbits buf))).
Proof.
  intros Hp [Hnode Hbits Hc Hs] Hge. cbn [hNode Huffman.cur Huffman.cbits Huffman.sbits] in *. destruct s as [|c s1].
  { exfalso. apply (f_equal length) in Hbits. destruct Hnode as [-> _]. rewrite pending_nil, length_app, length_bitsBE, length_replicate in Hbits. lia. }
  exists c, s1. split; [done|]. destruct Hnode as [Hk Hnode]. rewrite pending_cons in Hbits by done.
  destruct (lastBits_ok c) as (Hr & _). assert (Hidx : fits 8 (u8 (Z.shiftr cur (cbits - 8)))) by (apply wrap_fits; lia).
  destruct (decide (k = chunks c)) as [->|Hne]; [left|right].
  - destruct (use_bits (lastBits c) cur cbits (drop (8 * chunks c) (codeBits c)) later _ ltac:(lia) ltac:(by rewrite drop_last, length_bitsBE) Hbits) as [E1 E2].
    split_and!; [done| |].
    + apply (leaf_lookup c n _ (bitsBE (Z.to_nat (8 - lastBits c)) (Z.shiftr cur (cbits - 8)))); [done|done|].
      rewrite <- E1, bitsBE_wrap by lia. replace 8%nat with (Z.to_nat (lastBits c) + Z.to_nat (8 - lastBits c))%nat at 1 by lia.
      rewrite bitsBE_split, Z2Nat.id, Z.shiftr_shiftr by lia. f_equal. f_equal. f_equal. lia.
    + split; cbn; [|done|lia|lia]. destruct s1 as [|c1 s1]; [done|]. split; [lia|done].
  - assert (Hlt : (k < chunks c)%nat) by lia. split; [done|]. rewrite (drop_chunk c k Hlt), <- app_assoc in Hbits.
    destruct (use_bits 8 cur cbits (bitsBE 8 (Z.shiftr (codeOf c) (codeLenOf c - 8 * Z.of_nat (S k)))) later _ ltac:(lia) ltac:(by rewrite length_bitsBE) Hbits) as [E1 E2].
    destruct (node_internal c (S k) Hlt) as (ch & Hch). exists ch.
    assert (Hi : u8 (Z.shiftr cur (cbits - 8)) = u8 (Z.shiftr (codeOf c) (codeLenOf c - 8 * Z.of_nat (S k)))).
    { apply (bitsBE_eq 8); [done|apply wrap_fits; lia|]. rewrite !bitsBE_wrap by lia. exact E1. }
    pose proof Hch as Hch'. cbn [nodeAt] in Hch'. rewrite Hnode in Hch'. cbn [mbind option_bind] in Hch'. rewrite Hi. split; [done|].
    split; cbn [hNode Huffman.cur Huffman.cbits Huffman.sbits]; [done| |lia|lia]. by rewrite pending_cons.
Qed.

Lemma symbols_ok fuel : forall s k p later st, (p < 8)%nat -> decodes s k p later st -> room (hBuf st) s -> (Z.to_nat (cbits st) <= fuel)%nat ->
  exists found s' k' st', s = found ++ s' /\ symbols root maxLen fuel st = Parsed st' /\ decodes s' k' p later st' /\ cbits st' < 8
    /\ hBuf st' = hBuf st ++ found.
Proof.
  induction fuel as [|fuel IH]; intros s k p later [n cur cbits sbits buf] Hp Hdec Hroom Hfuel; cbn [Huffman.cbits hBuf] in *; cbn [symbols].
  - pose proof (dec_cbits _ _ _ _ _ Hdec) as Hc. cbn in Hc. destruct (Z.ltb_spec cbits 8); [|lia].
    exists [], s, k. eexists. split_and!; [done|done|done|done|]. cbn. by rewrite app_nil_r.
  - destruct (Z.ltb_spec cbits 8) as [|Hge]. { exists [], s, k. eexists. split_and!; [done|done|done|done|]. cbn. by rewrite app_nil_r. }
    destruct (decode_round _ _ _ _ _ _ _ _ _ Hp Hdec Hge) as (c & s1 & -> & [(_ & Hch & Hdec')|(_ & ch & Hch & Hdec')]); rewrite Hch.
    + rewrite (room_full _ _ _ Hroom). destruct (lastBits_ok c) as (Hr & _).
      destruct (IH _ _ _ _ _ Hp Hdec') as (found & s' & k' & st' & E1 & E2 & E3 & E4 & E5); [by apply room_next|cbn; lia|].
      exists (c :: found), s', k', st'. split_and!; [by rewrite E1|done|done|done|]. rewrite E5. cbn. by rewrite <- app_assoc.
    + destruct (IH _ _ _ _ _ Hp Hdec') as (found & s' & k' & st' & E1 & E2 & E3 & E4 & E5); [done|cbn; lia|].
      exists found, s', k', st'. done.
Qed.

Lemma huffBytes_ok v : forall s k p st, (p < 8)%nat -> decodes s k p (bytesBits v) st -> room (hBuf st) s -> cbits st < 8 ->
  exists found s' k' st', s = found ++ s' /\ huffBytes root maxLen v st = Parsed st' /\ decodes s' k' p [] st' /\ cbits st' < 8
    /\ hBuf st' = hBuf st ++ found.
Proof.
  induction v as [|b v IH]; intros s k p [n cur cbits sbits buf] Hp Hdec Hroom Hc; cbn [Huffman.cbits hBuf] in *.
  { exists [], s, k. eexists. split_and!; [done|done|done|done|]. cbn. by rewrite app_nil_r. }
  cbn [huffBytes]. destruct Hdec as [Hnode Hbits H0 Hs]. cbn [hNode Huffman.cur Huffman.cbits Huffman.sbits] in Hnode, Hbits, H0, Hs.
  assert (Hk : (k <= 3)%nat) by (destruct s as [|c s1]; [lia|destruct (lastBits_ok c); lia]).
  set (st0 := mkHuffState n _ _ _ buf).
  assert (Hdec0 : decodes s k p (bytesBits v) st0).
  { split; cbn; [done| |apply wrap_fits; lia|].
    - rewrite wrap_id by (unfold fits; lia). replace (Z.to_nat (cbits + 8)) with (Z.to_nat cbits + 8)%nat by lia.
      change (Z.shiftl cur 8) with (Z.shiftl cur (Z.of_nat 8)). rewrite bitsBE_append, <- app_assoc; [done|lia|apply byteZ_fits].
    - rewrite !wrap_id by (unfold fits; lia). lia. }
  destruct (symbols_ok (Z.to_nat (cbits + 8)) _ _ _ _ _ Hp Hdec0 Hroom) as (found & s' & k' & st' & -> & E2 & E3 & E4 & E5).
  { subst st0. cbn. rewrite wrap_id by (unfold fits; lia). lia. }
  rewrite E2. cbn [mbind parsed_bind].
  destruct (IH _ _ _ _ Hp E3) as (found2 & s2 & k2 & st2 & -> & F2 & F3 & F4 & F5); [|done|].
  { unfold room in *. rewrite E5. subst st0. cbn. rewrite length_app in *. lia. }
  exists (found ++ found2), s2, k2, st2. split_and!; [by rewrite app_assoc|done|done|done|]. rewrite F5, E5. subst st0. cbn. by rewrite app_assoc.
Qed.

Lemma lastSymbols_ok fuel : forall s k p st, (p < 8)%nat -> decodes s k p [] st -> room (hBuf st) s -> cbits st < 8 ->
  (Z.to_nat (cbits st) <= fuel)%nat ->
  exists st', lastSymbols root maxLen fuel st = Parsed st' /\ decodes [] 0 p [] st' /\ hBuf st' = hBuf st ++ s.
Proof.
  induction fuel as [|fuel IH]; intros s k p [n cur cbits sbits buf] Hp Hdec Hroom Hc Hfuel; cbn [Huffman.cbits hBuf] in *; cbn [lastSymbols];
    pose proof Hdec as [Hnode Hbits H0 Hs]; cbn [hNode Huffman.cur Huffman.cbits Huffman.sbits] in Hnode, Hbits, H0, Hs; rewrite app_nil_r in Hbits.
  all: assert (Hnil : cbits <= 0 -> s = []).
  all: try (intros Hle; destruct s as [|c s1]; [done|]; exfalso; apply (f_equal length) in Hbits; destruct Hnode as [Hk _];
    rewrite pending_cons, length_app, length_drop, length_codeBits, length_bitsBE in Hbits by done; destruct (lastBits_ok c); lia).
  - destruct (Z.leb_spec cbits 0) as [Hle|]; [|lia]. rewrite (Hnil Hle) in *. destruct Hnode as [-> _]. eexists. split_and!; [done|done|]. by rewrite app_nil_r.
  - destruct (Z.leb_spec cbits 0) as [Hle|Hpos].
    { rewrite (Hnil Hle) in *. destruct Hnode as [-> _]. eexists. split_and!; [done|done|]. by rewrite app_nil_r. }
    set (idx := u8 (u64 (Z.shiftl cur (8 - cbits)))). assert (Hidx : fits 8 idx) by (apply wrap_fits; lia).
    assert (Hw : bitsBE 8 idx = bitsBE (Z.to_nat cbits) cur ++ bitsBE (Z.to_nat (8 - cbits)) 0).
    { subst idx. rewrite bitsBE_wrap by lia. replace 8%nat with (Z.to_nat cbits + Z.to_nat (8 - cbits))%nat by lia.
      rewrite <- (Z.lor_0_r (u64 _)). rewrite <- (Z2Nat.id (8 - cbits)) at 2 by lia. apply bitsBE_append; [lia|]. apply fits_0. lia. }
    rewrite Hbits in Hw. destruct s as [|c s1].
    + destruct Hnode as [-> ->]. assert (Hpc : Z.of_nat p = cbits).
      { apply (f_equal length) in Hbits. rewrite pending_nil, length_bitsBE, length_replicate in Hbits. lia. }
      assert (Hi : idx = 256 - 2 ^ (8 - cbits)).
      { apply (bitsBE_eq 8); [done| |].
        - unfold fits. assert (cbits = 1 \/ cbits = 2 \/ cbits = 3 \/ cbits = 4 \/ cbits = 5 \/ cbits = 6 \/ cbits = 7) as Hcase by lia.
          destruct Hcase as [-> |[-> |[-> |[-> |[-> |[-> | ->]]]]]]; done.
        - rewrite Hw, pending_nil. clear -Hpc Hc Hpos.
          assert (p = 1 \/ p = 2 \/ p = 3 \/ p = 4 \/ p = 5 \/ p = 6 \/ p = 7)%nat as Hcase by lia.
          destruct Hcase as [-> |[-> |[-> |[-> |[-> |[-> | ->]]]]]]; by rewrite <- Hpc. }
      pose proof padding_checked as Hpad. cbv zeta in Hpad. rewrite forallb_forall in Hpad. specialize (Hpad cbits ltac:(apply list_elem_of_In, elem_of_seqZ; lia)).
      rewrite <- Hi in Hpad. destruct (child root idx) as [[l sym|ch]|]; [rewrite Hpad| |done];
        (eexists; split_and!; [done|done|by rewrite app_nil_r]).
    + destruct Hnode as [Hk Hnode]. rewrite pending_cons in Hbits, Hw by done. destruct (lastBits_ok c) as (Hr & _ & HL).
      assert (Hke : k = chunks c /\ lastBits c <= cbits).
      { apply (f_equal length) in Hbits. rewrite length_app, length_drop, length_codeBits, length_bitsBE in Hbits. lia. }
      destruct Hke as [-> Hle]. rewrite (leaf_lookup c n idx (pending s1 0 p ++ bitsBE (Z.to_nat (8 - cbits)) 0)) by (done || by rewrite app_assoc).
      destruct (Z.ltb_spec cbits (lastBits c)); [lia|]. rewrite (room_full _ _ _ Hroom).
      rewrite <- (app_nil_r (bitsBE _ _)) in Hbits.
      destruct (use_bits (lastBits c) cur cbits (drop (8 * chunks c) (codeBits c)) [] _ ltac:(lia) ltac:(by rewrite drop_last, length_bitsBE) Hbits) as [_ E2].
      destruct (IH s1 0%nat p (mkHuffState root cur (cbits - lastBits c) (cbits - lastBits c) (buf ++ [c])) Hp) as (st' & F1 & F2 & F3); cbn; try lia.
      * split; cbn; [|done|lia|lia]. destruct s1 as [|c1 s1]; [done|]. split; [lia|done].
      * by apply room_next.
      * exists st'. split_and!; [done|done|]. rewrite F3. cbn. by rewrite <- app_assoc.
Qed.

Lemma huffmanDecode_ok s : maxLen = 0 \/ Z.of_nat (length s) <= maxLen ->
  huffmanDecode maxLen (AppendHuffmanString [] s) = Parsed s.
Proof.
  intros Hroom. destruct (AppendHuffmanString_bits [] s) as (p & Hp & Hbits). cbn in Hbits. unfold huffmanDecode, huffmanDecodeFrom.
  destruct (huffBytes_ok (AppendHuffmanString [] s) s 0 p (mkHuffState root 0 0 0 []) Hp) as (found & s' & k' & st & -> & E1 & E2 & E3 & E4); [|done|done|].
  { split; cbn; [|done|lia|lia]. destruct s as [|c s]; [done|]. split; [lia|done]. }
  rewrite E1. cbn [mbind parsed_bind].
  destruct (lastSymbols_ok (Z.to_nat (cbits st)) s' k' p st Hp E2) as (st' & F1 & [_ Fb Fc Fs] & F3); [|done|done|].
  { unfold room. rewrite E4. cbn. rewrite length_app in Hroom. lia. }
  rewrite F1. cbn [mbind parsed_bind]. rewrite app_nil_r, pending_nil in Fb.
  assert (Hcp : cbits st' = Z.of_nat p) by (apply (f_equal length) in Fb; rewrite length_bitsBE, length_replicate in Fb; lia).
  destruct (Z.ltb_spec 7 (sbits st')); [lia|]. rewrite Z.shiftl_1_l, Hcp.
  rewrite (proj2 (Z.eqb_eq _ _)); [by rewrite F3, E4|]. rewrite Z.sub_1_r, <- Z.ones_equiv, Z.land_ones by lia.
  apply (bitsBE_eq p); [apply (wrap_fits (Z.of_nat p)); lia|rewrite Z.ones_equiv; unfold fits; lia|].
  change (?a mod 2 ^ ?w) with (wrap w a). rewrite bitsBE_wrap by lia. rewrite Z.ones_equiv, <- Z.sub_1_r, ones_bits, <- Fb, Hcp. by rewrite Nat2Z.id.
Qed.
End decoding.
