(* ===== verification/Hpack.v ===== *)
(** * HPACK ([replace/x-net/http2/hpack])

    The header compression of HTTP/2: a static and a dynamic table of header fields, an
    encoder that refers to their entries where it can, and a decoder that reads header blocks
    in the pieces they arrive in. *)

From S2P Require Import Prelude Binary Huffman.

(** ** Header fields and tables ([hpack.go], [tables.go], [static_table.go]) *)

Record HeaderField := mkHeaderField { Name : bytes; Value : bytes; Sensitive : bool }.

Definition Size (hf : HeaderField) : Z := u32 (Z.of_nat (length (Name hf)) + Z.of_nat (length (Value hf)) + 32).

Abbreviation pairNameValue := (bytes * bytes)%type.

(** The two maps of a table are nil or not together. *)
Record headerFieldTable := mkTable {
  ents : list HeaderField;
  evictCount : Z;
  maps : option (gmap bytes Z * gmap pairNameValue Z);
}.

Definition pairOf (f : HeaderField) : pairNameValue := (Name f, Value f).

(** The newest entry of each name and of each pair gets the identifier. *)
Definition setMaps (m : gmap bytes Z * gmap pairNameValue Z) (f : HeaderField) (id : Z) : gmap bytes Z * gmap pairNameValue Z :=
  (<[Name f := id]> m.1, <[pairOf f := id]> m.2).

Fixpoint buildMapsFrom (id : Z) (l : list HeaderField) (m : gmap bytes Z * gmap pairNameValue Z)
    : gmap bytes Z * gmap pairNameValue Z :=
  match l with [] => m | f :: l => buildMapsFrom (u64 (id + 1)) l (setMaps m f id) end.

Definition buildMaps (t : headerFieldTable) : headerFieldTable :=
  mkTable (ents t) (evictCount t) (Some (buildMapsFrom (u64 (evictCount t + 1)) (ents t) (∅, ∅))).

Definition addEntry (t : headerFieldTable) (f : HeaderField) : headerFieldTable :=
  mkTable (ents t ++ [f]) (evictCount t)
    ((fun m => setMaps m f (u64 (Z.of_nat (length (ents t)) + evictCount t + 1))) <$> maps t).

(** Reading a key that a map does not have gives 0. *)
Definition mapGet0 {K} `{Countable K} (m : gmap K Z) (k : K) : Z := default 0 (m !! k).

Definition unsetKey {K} `{Countable K} (m : gmap K Z) (k : K) (id : Z) : gmap K Z :=
  if mapGet0 m k =? id then delete k m else m.

Fixpoint unsetMaps (id : Z) (l : list HeaderField) (m : gmap bytes Z * gmap pairNameValue Z)
    : gmap bytes Z * gmap pairNameValue Z :=
  match l with
  | [] => m
  | f :: l => unsetMaps (u64 (id + 1)) l (unsetKey m.1 (Name f) id, unsetKey m.2 (pairOf f) id)
  end.

Definition evictOldest (t : headerFieldTable) (n : nat) : parsed headerFieldTable :=
  if (length (ents t) <? n)%nat then Failed (Panic "evictOldest")
  else if u64 (evictCount t + Z.of_nat n) <? evictCount t then Failed (Panic "evictCount overflow")
  else Parsed (mkTable (drop n (ents t)) (u64 (evictCount t + Z.of_nat n))
         (unsetMaps (u64 (evictCount t + 1)) (take n (ents t)) <$> maps t)).

(** [isStatic] is [t == staticTable]. *)
Definition idToIndex (isStatic : bool) (t : headerFieldTable) (id : Z) : parsed Z :=
  if id <=? evictCount t then Failed (Panic "id <= evictCount")
  else
    let k := u64 (id - evictCount t - 1) in
    Parsed (if isStatic then u64 (k + 1) else u64 (Z.of_nat (length (ents t)) - k)).

(** The index, whether the value matches too, and the table with its maps *)
Definition search (isStatic : bool) (t : headerFieldTable) (f : HeaderField) : parsed (Z * bool * headerFieldTable) :=
  let t := match maps t with None => buildMaps t | Some _ => t end in
  let m := default (∅, ∅) (maps t) in
  let pair := if Sensitive f then 0 else mapGet0 m.2 (pairOf f) in
  if negb (pair =? 0) then i ← idToIndex isStatic t pair; Parsed (i, true, t)
  else
    let named := mapGet0 m.1 (Name f) in
    if negb (named =? 0) then i ← idToIndex isStatic t named; Parsed (i, false, t)
    else Parsed (0, false, t).

Definition staticByName : list (string * Z) :=
  [(":authority", 1); (":method", 3); (":path", 5); (":scheme", 7);
   (":status", 14); ("accept-charset", 15); ("accept-encoding", 16); ("accept-language", 17);
   ("accept-ranges", 18); ("accept", 19); ("access-control-allow-origin", 20); ("age", 21);
   ("allow", 22); ("authorization", 23); ("cache-control", 24); ("content-disposition", 25);
   ("content-encoding", 26); ("content-language", 27); ("content-length", 28); ("content-location", 29);
   ("content-range", 30); ("content-type", 31); ("cookie", 32); ("date", 33);
   ("etag", 34); ("expect", 35); ("expires", 36); ("from", 37);
   ("host", 38); ("if-match", 39); ("if-modified-since", 40); ("if-none-match", 41);
   ("if-range", 42); ("if-unmodified-since", 43); ("last-modified", 44); ("link", 45);
   ("location", 46); ("max-forwards", 47); ("proxy-authenticate", 48); ("proxy-authorization", 49);
   ("range", 50); ("referer", 51); ("refresh", 52); ("retry-after", 53);
   ("server", 54); ("set-cookie", 55); ("strict-transport-security", 56); ("transfer-encoding", 57);
   ("user-agent", 58); ("vary", 59); ("via", 60); ("www-authenticate", 61)]%string.

Definition staticByNameValue : list (string * string * Z) :=
  [(":authority", "", 1); (":method", "GET", 2); (":method", "POST", 3);
   (":path", "/", 4); (":path", "/index.html", 5); (":scheme", "http", 6);
   (":scheme", "https", 7); (":status", "200", 8); (":status", "204", 9);
   (":status", "206", 10); (":status", "304", 11); (":status", "400", 12);
   (":status", "404", 13); (":status", "500", 14); ("accept-charset", "", 15);
   ("accept-encoding", "gzip, deflate", 16); ("accept-language", "", 17); ("accept-ranges", "", 18);
   ("accept", "", 19); ("access-control-allow-origin", "", 20); ("age", "", 21);
   ("allow", "", 22); ("authorization", "", 23); ("cache-control", "", 24);
   ("content-disposition", "", 25); ("content-encoding", "", 26); ("content-language", "", 27);
   ("content-length", "", 28); ("content-location", "", 29); ("content-range", "", 30);
   ("content-type", "", 31); ("cookie", "", 32); ("date", "", 33);
   ("etag", "", 34); ("expect", "", 35); ("expires", "", 36);
   ("from", "", 37); ("host", "", 38); ("if-match", "", 39);
   ("if-modified-since", "", 40); ("if-none-match", "", 41); ("if-range", "", 42);
   ("if-unmodified-since", "", 43); ("last-modified", "", 44); ("link", "", 45);
   ("location", "", 46); ("max-forwards", "", 47); ("proxy-authenticate", "", 48);
   ("proxy-authorization", "", 49); ("range", "", 50); ("referer", "", 51);
   ("refresh", "", 52); ("retry-after", "", 53); ("server", "", 54);
   ("set-cookie", "", 55); ("strict-transport-security", "", 56); ("transfer-encoding", "", 57);
   ("user-agent", "", 58); ("vary", "", 59); ("via", "", 60);
   ("www-authenticate", "", 61)]%string.

Definition staticEnts : list (string * string) :=
  [(":authority", ""); (":method", "GET"); (":method", "POST"); (":path", "/");
   (":path", "/index.html"); (":scheme", "http"); (":scheme", "https"); (":status", "200");
   (":status", "204"); (":status", "206"); (":status", "304"); (":status", "400");
   (":status", "404"); (":status", "500"); ("accept-charset", ""); ("accept-encoding", "gzip, deflate");
   ("accept-language", ""); ("accept-ranges", ""); ("accept", ""); ("access-control-allow-origin", "");
   ("age", ""); ("allow", ""); ("authorization", ""); ("cache-control", "");
   ("content-disposition", ""); ("content-encoding", ""); ("content-language", ""); ("content-length", "");
   ("content-location", ""); ("content-range", ""); ("content-type", ""); ("cookie", "");
   ("date", ""); ("etag", ""); ("expect", ""); ("expires", "");
   ("from", ""); ("host", ""); ("if-match", ""); ("if-modified-since", "");
   ("if-none-match", ""); ("if-range", ""); ("if-unmodified-since", ""); ("last-modified", "");
   ("link", ""); ("location", ""); ("max-forwards", ""); ("proxy-authenticate", "");
   ("proxy-authorization", ""); ("range", ""); ("referer", ""); ("refresh", "");
   ("retry-after", ""); ("server", ""); ("set-cookie", ""); ("strict-transport-security", "");
   ("transfer-encoding", ""); ("user-agent", ""); ("vary", ""); ("via", "");
   ("www-authenticate", "")]%string.

Definition staticTable : headerFieldTable :=
  mkTable ((fun e => mkHeaderField (stringBytes e.1) (stringBytes e.2) false) <$> staticEnts) 0
    (Some (list_to_map ((fun e => (stringBytes e.1, e.2)) <$> staticByName),
           list_to_map ((fun e => ((stringBytes e.1.1, stringBytes e.1.2), e.2)) <$> staticByNameValue))).

Definition staticLen : Z := 61.

(** ** The dynamic table *)

Record dynamicTable := mkDynamicTable {
  table : headerFieldTable;
  size_ : Z;
  maxSize : Z;
  allowedMaxSize : Z;
}.

(** The loop of [evict]: the size and the number of entries to evict *)
Fixpoint evictLoop (size maxSize : Z) (n : nat) (l : list HeaderField) : Z * nat :=
  match l with
  | [] => (size, n)
  | f :: l => if maxSize <? size then evictLoop (u32 (size - Size f)) maxSize (S n) l else (size, n)
  end.

Definition evict (dt : dynamicTable) : parsed dynamicTable :=
  let '(size, n) := evictLoop (size_ dt) (maxSize dt) 0 (ents (table dt)) in
  t ← evictOldest (table dt) n;
  Parsed (mkDynamicTable t size (maxSize dt) (allowedMaxSize dt)).

Definition setMaxSize (dt : dynamicTable) (v : Z) : parsed dynamicTable :=
  evict (mkDynamicTable (table dt) (size_ dt) v (allowedMaxSize dt)).

Definition dynAdd (dt : dynamicTable) (f : HeaderField) : parsed dynamicTable :=
  evict (mkDynamicTable (addEntry (table dt) f) (u32 (size_ dt + Size f)) (maxSize dt) (allowedMaxSize dt)).

Definition emptyTable : headerFieldTable := mkTable [] 0 None.

(** ** Encoding ([encode.go]) *)

Definition uint32Max : Z := 2 ^ 32 - 1.
Definition initialHeaderTableSize : Z := 4096.

Fixpoint appendVarIntRest (fuel : nat) (i : Z) : bytes :=
  match fuel with
  | O => []
  | S fuel => if 128 <=? i then zByte (Z.lor 0x80 (Z.land i 0x7f)) :: appendVarIntRest fuel (Z.shiftr i 7) else [zByte i]
  end.

(** A number of 64 bits has at most ten groups of seven bits. *)
Definition appendVarInt (n i : Z) : bytes :=
  let k := Z.shiftl 1 n - 1 in
  if i <? k then [zByte i] else zByte k :: appendVarIntRest 10 (i - k).

(** [dst[first] |= b] *)
Definition orFirst (b : Z) (l : bytes) : bytes :=
  match l with [] => [] | c :: l => zByte (Z.lor (byteZ c) b) :: l end.

Definition encodeTypeByte (indexing sensitive : bool) : Z := if sensitive then 0x10 else if indexing then 0x40 else 0.

Definition appendIndexed (i : Z) : bytes := orFirst 0x80 (appendVarInt 7 i).

Definition appendTableSize (v : Z) : bytes := orFirst 0x20 (appendVarInt 5 v).

Definition appendHpackString (s : bytes) : bytes :=
  let huffmanLength := HuffmanEncodeLength s in
  if huffmanLength <? Z.of_nat (length s) then orFirst 0x80 (AppendHuffmanString (appendVarInt 7 huffmanLength) s)
  else appendVarInt 7 (Z.of_nat (length s)) ++ s.

Definition appendNewName (f : HeaderField) (indexing : bool) : bytes :=
  zByte (encodeTypeByte indexing (Sensitive f)) :: appendHpackString (Name f) ++ appendHpackString (Value f).

Definition appendIndexedName (f : HeaderField) (i : Z) (indexing : bool) : bytes :=
  orFirst (encodeTypeByte indexing (Sensitive f)) (appendVarInt (if indexing then 6 else 4) i) ++ appendHpackString (Value f).

Record Encoder := mkEncoder {
  encTab : dynamicTable;
  minSize : Z;
  maxSizeLimit : Z;
  tableSizeUpdate : bool;
}.

Definition NewEncoder : parsed Encoder :=
  dt ← setMaxSize (mkDynamicTable emptyTable 0 0 0) initialHeaderTableSize;
  Parsed (mkEncoder dt uint32Max initialHeaderTableSize false).

Definition searchTable (e : Encoder) (f : HeaderField) : parsed (Z * bool * Encoder) :=
  '(i, nameValueMatch, _) ← search true staticTable f;
  if nameValueMatch : bool then Parsed (i, true, e)
  else
    '(j, nameValueMatch, t) ← search false (table (encTab e)) f;
    let e := mkEncoder (mkDynamicTable t (size_ (encTab e)) (maxSize (encTab e)) (allowedMaxSize (encTab e)))
               (minSize e) (maxSizeLimit e) (tableSizeUpdate e) in
    if (nameValueMatch : bool) || ((i =? 0) && negb (j =? 0)) then Parsed (u64 (j + staticLen), nameValueMatch, e)
    else Parsed (i, false, e).

Definition shouldIndex (e : Encoder) (f : HeaderField) : bool := negb (Sensitive f) && (Size f <=? maxSize (encTab e)).

(** The bytes that [WriteField] writes, and the encoder after it *)
Definition WriteField (e : Encoder) (f : HeaderField) : parsed (bytes * Encoder) :=
  let '(update, e) :=
    if tableSizeUpdate e then
      ((if minSize e <? maxSize (encTab e) then appendTableSize (minSize e) else []) ++ appendTableSize (maxSize (encTab e)),
       mkEncoder (encTab e) uint32Max (maxSizeLimit e) false)
    else ([], e) in
  '(idx, nameValueMatch, e) ← searchTable e f;
  if nameValueMatch : bool then Parsed (update ++ appendIndexed idx, e)
  else
    let indexing := shouldIndex e f in
    e ← (if indexing then dt ← dynAdd (encTab e) f; Parsed (mkEncoder dt (minSize e) (maxSizeLimit e) (tableSizeUpdate e))
         else Parsed e);
    Parsed (update ++ (if idx =? 0 then appendNewName f indexing else appendIndexedName f idx indexing), e).

Definition Encoder_SetMaxDynamicTableSize (e : Encoder) (v : Z) : parsed Encoder :=
  let v := if maxSizeLimit e <? v then maxSizeLimit e else v in
  dt ← setMaxSize (encTab e) v;
  Parsed (mkEncoder dt (if v <? minSize e then v else minSize e) (maxSizeLimit e) true).

Definition SetMaxDynamicTableSizeLimit (e : Encoder) (v : Z) : parsed Encoder :=
  if v <? maxSize (encTab e) then dt ← setMaxSize (encTab e) v; Parsed (mkEncoder dt (minSize e) v true)
  else Parsed (mkEncoder (encTab e) (minSize e) v (tableSizeUpdate e)).

(** ** Decoding ([hpack.go]) *)

Record Decoder := mkDecoder {
  decTab : dynamicTable;
  emitEnabled : bool;
  maxStrLen : Z;
  saveBuf : bytes;
  firstField : bool;
}.

Definition NewDecoder (maxDynamicTableSize : Z) : parsed Decoder :=
  dt ← setMaxSize (mkDynamicTable emptyTable 0 0 maxDynamicTableSize) maxDynamicTableSize;
  Parsed (mkDecoder dt true 0 [] true).

Definition setTab (d : Decoder) (dt : dynamicTable) : Decoder := mkDecoder dt (emitEnabled d) (maxStrLen d) (saveBuf d) (firstField d).

Definition SetMaxStringLength (d : Decoder) (n : Z) : Decoder := mkDecoder (decTab d) (emitEnabled d) n (saveBuf d) (firstField d).

Definition SetEmitEnabled (d : Decoder) (v : bool) : Decoder := mkDecoder (decTab d) v (maxStrLen d) (saveBuf d) (firstField d).

Definition Decoder_SetMaxDynamicTableSize (d : Decoder) (v : Z) : parsed Decoder :=
  dt ← setMaxSize (decTab d) v; Parsed (setTab d dt).

Definition SetAllowedMaxDynamicTableSize (d : Decoder) (v : Z) : Decoder :=
  setTab d (mkDynamicTable (table (decTab d)) (size_ (decTab d)) (maxSize (decTab d)) v).

Definition decoderAt (d : Decoder) (i : Z) : option HeaderField :=
  if i =? 0 then None
  else if i <=? staticLen then ents staticTable !! Z.to_nat (i - 1)
  else
    let dt := ents (table (decTab d)) in
    if Z.of_nat (length dt) + staticLen <? i then None
    else dt !! Z.to_nat (Z.of_nat (length dt) - (i - staticLen)).

(** The loop of [readVarInt] over the bytes after the first *)
Fixpoint readVarIntRest (i m : Z) (p : bytes) : parsed (Z * bytes) :=
  match p with
  | [] => Failed errNeedMore
  | b :: p =>
      let i := u64 (i + u64 (Z.shiftl (Z.land (byteZ b) 127) m)) in
      if Z.land (byteZ b) 128 =? 0 then Parsed (i, p)
      else if 63 <=? m + 7 then Failed (DecodingError "varint integer overflow")
      else readVarIntRest i (m + 7) p
  end.

Definition readVarInt (n : Z) (p : bytes) : parsed (Z * bytes) :=
  if (n <? 1) || (8 <? n) then Failed (Panic "bad n")
  else
    match p with
    | [] => Failed errNeedMore
    | b :: p =>
        let i := if n <? 8 then Z.land (byteZ b) (Z.shiftl 1 n - 1) else byteZ b in
        if i <? Z.shiftl 1 n - 1 then Parsed (i, p) else readVarIntRest i 0 p
    end.

(** A string that was read: whether it is Huffman coded, and its bytes *)
Record undecodedString := mkUndecoded { isHuff : bool; ub : bytes }.

Definition readString (d : Decoder) (p : bytes) : parsed (undecodedString * bytes) :=
  match p with
  | [] => Failed errNeedMore
  | b :: _ =>
      let huff := negb (Z.land (byteZ b) 128 =? 0) in
      '(strLen, p) ← readVarInt 7 p;
      if negb (maxStrLen d =? 0) && (u64 (maxStrLen d) <? strLen) then Failed ErrStringLength
      else if Z.of_nat (length p) <? strLen then Failed errNeedMore
      else Parsed (mkUndecoded huff (take (Z.to_nat strLen) p), drop (Z.to_nat strLen) p)
  end.

Definition decodeString (d : Decoder) (u : undecodedString) : parsed bytes :=
  if negb (isHuff u) then Parsed (ub u) else huffmanDecode (maxStrLen d) (ub u).

(** What parsing one representation did: the decoder, the fields it emitted, the bytes that are
    left, and the error *)
Record step := mkStep { sDec : Decoder; sOut : list HeaderField; sBuf : bytes; sErr : option HpackError }.

Definition callEmit (d : Decoder) (buf : bytes) (hf : HeaderField) : step :=
  if negb (maxStrLen d =? 0) && ((maxStrLen d <? Z.of_nat (length (Name hf))) || (maxStrLen d <? Z.of_nat (length (Value hf))))
  then mkStep d [] buf (Some ErrStringLength)
  else mkStep d (if emitEnabled d then [hf] else []) buf None.

(** An error before the decoder has changed *)
Definition orFail {A} (d : Decoder) (buf : bytes) (p : parsed A) (k : A -> step) : step :=
  match p with Parsed a => k a | Failed e => mkStep d [] buf (Some e) end.

Definition InvalidIndexError : HpackError := DecodingError "invalid indexed representation index".

Definition parseFieldIndexed (d : Decoder) (buf : bytes) : step :=
  orFail d buf (
    '(idx, rest) ← readVarInt 7 buf;
    match decoderAt d idx with None => Failed InvalidIndexError | Some hf => Parsed (hf, rest) end)
  (fun '(hf, rest) => callEmit d rest (mkHeaderField (Name hf) (Value hf) false)).

Inductive indexType := indexedTrue | indexedFalse | indexedNever.

Definition indexed (it : indexType) : bool := match it with indexedTrue => true | _ => false end.
Definition sensitive (it : indexType) : bool := match it with indexedNever => true | _ => false end.

(** The name of a literal: of an entry, or a string *)
Definition readName (d : Decoder) (nameIdx : Z) (buf : bytes) : parsed ((bytes + undecodedString) * bytes) :=
  if 0 <? nameIdx then
    match decoderAt d nameIdx with
    | None => Failed InvalidIndexError
    | Some ihf => Parsed (inl (Name ihf), buf)
    end
  else '(u, buf) ← readString d buf; Parsed (inr u, buf).

Definition parseFieldLiteral (n : Z) (it : indexType) (d : Decoder) (buf : bytes) : step :=
  orFail d buf (
    '(nameIdx, rest) ← readVarInt n buf;
    '(name, rest) ← readName d nameIdx rest;
    '(undecodedValue, rest) ← readString d rest;
    let wantStr := emitEnabled d || indexed it in
    hf ← (if wantStr then
            name ← match name with inl name => Parsed name | inr u => decodeString d u end;
            value ← decodeString d undecodedValue;
            Parsed (mkHeaderField name value false)
          else Parsed (mkHeaderField (match name with inl name => name | inr _ => [] end) [] false));
    dt ← (if indexed it then dynAdd (decTab d) hf else Parsed (decTab d));
    Parsed (hf, dt, rest))
  (fun '(hf, dt, rest) => callEmit (setTab d dt) rest (mkHeaderField (Name hf) (Value hf) (sensitive it))).

Definition parseDynamicTableSizeUpdate (d : Decoder) (buf : bytes) : step :=
  if negb (firstField d) && (0 <? size_ (decTab d))
  then mkStep d [] buf (Some (DecodingError "dynamic table size update MUST occur at the beginning of a header block"))
  else
    orFail d buf (
      '(size, rest) ← readVarInt 5 buf;
      if allowedMaxSize (decTab d) <? size then Failed (DecodingError "dynamic table size update too large")
      else dt ← setMaxSize (decTab d) (u32 size); Parsed (dt, rest))
    (fun '(dt, rest) => mkStep (setTab d dt) [] rest None).

Definition parseHeaderFieldRepr (d : Decoder) (buf : bytes) : step :=
  match buf with
  | [] => mkStep d [] buf (Some (Panic "index out of range"))
  | c :: _ =>
      let b := byteZ c in
      if negb (Z.land b 128 =? 0) then parseFieldIndexed d buf
      else if Z.land b 192 =? 64 then parseFieldLiteral 6 indexedTrue d buf
      else if Z.land b 240 =? 0 then parseFieldLiteral 4 indexedFalse d buf
      else if Z.land b 240 =? 16 then parseFieldLiteral 4 indexedNever d buf
      else if Z.land b 224 =? 32 then parseDynamicTableSizeUpdate d buf
      else mkStep d [] buf (Some (DecodingError "invalid encoding"))
  end.

Definition setBuf (d : Decoder) (buf : bytes) (first : bool) : Decoder :=
  mkDecoder (decTab d) (emitEnabled d) (maxStrLen d) buf first.

(** The loop of [Write]; every round uses a byte *)
Fixpoint decodeLoop (fuel : nat) (d : Decoder) (buf : bytes) : Decoder * list HeaderField * option HpackError :=
  match buf, fuel with
  | [], _ => (d, [], None)
  | _, O => (d, [], Some (Panic "out of fuel"))
  | _, S fuel =>
      let '(mkStep d' out rest err) := parseHeaderFieldRepr d buf in
      match err with
      | Some errNeedMore =>
          if negb (maxStrLen d =? 0) && (2 * (maxStrLen d + 8) <? Z.of_nat (length buf)) then (d', out, Some ErrStringLength)
          else (setBuf d' buf (firstField d'), out, None)
      | Some e => (setBuf d' (saveBuf d') false, out, Some e)
      | None =>
          let '(d', out', err) := decodeLoop fuel (setBuf d' (saveBuf d') false) rest in (d', out ++ out', err)
      end
  end.

Definition Decoder_Write (d : Decoder) (p : bytes) : Decoder * list HeaderField * option HpackError :=
  match p with
  | [] => (d, [], None)
  | _ => let buf := saveBuf d ++ p in decodeLoop (length buf) (setBuf d [] (firstField d)) buf
  end.

Definition Decoder_Close (d : Decoder) : Decoder * option HpackError :=
  match saveBuf d with
  | [] => (setBuf d [] true, None)
  | _ => (setBuf d [] (firstField d), Some (DecodingError "truncated headers"))
  end.

Definition DecodeFull (d : Decoder) (p : bytes) : Decoder * parsed (list HeaderField) :=
  let '(d, hf, err) := Decoder_Write d p in
  match err with
  | Some e => (d, Failed e)
  | None =>
      let '(d, err) := Decoder_Close d in
      (d, match err with Some e => Failed e | None => Parsed hf end)
  end.
