(* ===== verification/HpackTables.v ===== *)
(** * The header tables of HPACK

    The maps of a table, built by the first search and updated by every addition and eviction,
    find what a linear search for the newest entry finds; eviction keeps the longest suffix of
    the entries that fits. *)

From S2P Require Import Prelude Binary Huffman Hpack.

(** ** Linear search for the newest entry *)

Fixpoint lastIndex (P : HeaderField -> bool) (l : list HeaderField) : option nat :=
  match l with
  | [] => None
  | f :: l => match lastIndex P l with Some k => Some (S k) | None => if P f then Some 0%nat else None end
  end.

Lemma lastIndex_snoc P l f : lastIndex P (l ++ [f]) = if P f then Some (length l) else lastIndex P l.
Proof. induction l as [|g l IH]; [done|]. cbn. rewrite IH. by destruct (P f), (lastIndex P l). Qed.

Lemma lastIndex_Some P l k : lastIndex P l = Some k -> exists f, l !! k = Some f /\ P f = true.
Proof.
  revert k. induction l as [|g l IH]; intros k; [done|]. cbn. destruct (lastIndex P l) as [k'|].
  - intros [= <-]. by apply IH.
  - destruct (P g) eqn:E; [|done]. intros [= <-]. by exists g.
Qed.

Section keyed.
Context {K : Type} `{Countable K} (key : HeaderField -> K).

Definition hasKey (x : K) (f : HeaderField) : bool := bool_decide (key f = x).

(** The identifier of the newest entry of every key *)
Definition mapOk (count : Z) (l : list HeaderField) (m : gmap K Z) : Prop :=
  forall x, m !! x = (fun k => count + Z.of_nat k + 1) <$> lastIndex (hasKey x) l.

Lemma mapOk_add count l m f : mapOk count l m ->
  mapOk count (l ++ [f]) (<[key f := count + Z.of_nat (length l) + 1]> m).
Proof.
  intros Hm x. rewrite lastIndex_snoc. unfold hasKey at 1. case_bool_decide as E.
  - subst x. by rewrite lookup_insert_eq.
  - rewrite lookup_insert_ne by done. apply Hm.
Qed.

Lemma mapOk_unset count f l m : 0 <= count -> mapOk count (f :: l) m ->
  mapOk (count + 1) l (unsetKey m (key f) (count + 1)).
Proof.
  intros H0 Hm x. pose proof (Hm x) as Hx. pose proof (Hm (key f)) as Hf. cbn in Hx, Hf. unfold hasKey at 2 in Hf.
  rewrite bool_decide_true in Hf by done. unfold unsetKey, mapGet0. destruct (decide (key f = x)) as [<-|Hne].
  - clear Hx. destruct (lastIndex (hasKey (key f)) l) as [k|] eqn:E; cbn in Hf; rewrite Hf; cbn.
    + destruct (Z.eqb_spec (count + Z.of_nat (S k) + 1) (count + 1)) as [Heq|_]; [lia|]. rewrite Hf. f_equal. lia.
    + rewrite (proj2 (Z.eqb_eq _ _)) by lia. apply lookup_delete_eq.
  - assert (m !! x = (fun k => count + 1 + Z.of_nat k + 1) <$> lastIndex (hasKey x) l) as <-.
    { rewrite Hx. unfold hasKey at 2. rewrite bool_decide_false by done.
      destruct (lastIndex (hasKey x) l) as [k|]; [|done]. cbn. f_equal. lia. }
    destruct (_ =? _); [by rewrite lookup_delete_ne|done].
Qed.

(** What a search by this key finds *)
Lemma mapOk_get count l m x : 0 <= count -> mapOk count l m ->
  match lastIndex (hasKey x) l with
  | Some k => mapGet0 m x = count + Z.of_nat k + 1
  | None => mapGet0 m x = 0
  end.
Proof. intros H0 Hm. unfold mapGet0. rewrite Hm. by destruct (lastIndex (hasKey x) l). Qed.
End keyed.

(** ** The maps of a table *)

Definition mapsOk (count : Z) (l : list HeaderField) (m : gmap bytes Z * gmap pairNameValue Z) : Prop :=
  mapOk Name count l m.1 /\ mapOk pairOf count l m.2.

Record tableOk (t : headerFieldTable) : Prop := {
  ok_count : 0 <= evictCount t;
  ok_room : evictCount t + Z.of_nat (length (ents t)) < 2 ^ 64;
  ok_maps : match maps t with Some m => mapsOk (evictCount t) (ents t) m | None => True end;
}.

Lemma mapsOk_add count l m f : mapsOk count l m -> mapsOk count (l ++ [f]) (setMaps m f (count + Z.of_nat (length l) + 1)).
Proof. intros [H1 H2]. split; by apply mapOk_add. Qed.

Lemma mapsOk_build l : forall count pre m, 0 <= count -> count + Z.of_nat (length pre + length l) < 2 ^ 64 ->
  mapsOk count pre m ->
  mapsOk count (pre ++ l) (buildMapsFrom (u64 (count + Z.of_nat (length pre) + 1)) l m).
Proof.
  induction l as [|f l IH]; intros count pre m H0 Hroom Hm; cbn [buildMapsFrom]; [by rewrite app_nil_r|].
  cbn [length] in Hroom. rewrite (wrap_id 64 (count + Z.of_nat (length pre) + 1)) by (unfold fits; lia).
  replace (pre ++ f :: l) with ((pre ++ [f]) ++ l) by (by rewrite <- app_assoc).
  replace (count + Z.of_nat (length pre) + 1 + 1) with (count + Z.of_nat (length (pre ++ [f])) + 1) by (rewrite length_app; cbn; lia).
  apply IH; [done|rewrite length_app; cbn; lia|by apply mapsOk_add].
Qed.

Lemma mapsOk_unset l : forall count rest m, 0 <= count -> count + Z.of_nat (length l) < 2 ^ 64 -> mapsOk count (l ++ rest) m ->
  mapsOk (count + Z.of_nat (length l)) rest (unsetMaps (u64 (count + 1)) l m).
Proof.
  induction l as [|f l IH]; intros count rest m H0 Hroom Hm; cbn [unsetMaps length].
  - by rewrite Z.add_0_r.
  - cbn [length] in Hroom. rewrite (wrap_id 64 (count + 1)) by (unfold fits; lia).
    replace (count + Z.of_nat (S (length l))) with (count + 1 + Z.of_nat (length l)) by lia.
    apply IH; [lia|lia|]. destruct Hm as [H1 H2]. split; by apply mapOk_unset.
Qed.

Lemma mapsOk_nil count : mapsOk count [] (∅, ∅).
Proof. split; intros x; cbn; apply lookup_empty. Qed.

Lemma buildMaps_ok t : tableOk t -> tableOk (buildMaps t).
Proof.
  intros [H0 Hr _]. split; [done|done|]. cbn. change (ents t) with ([] ++ ents t) at 1.
  replace (evictCount t + 1) with (evictCount t + Z.of_nat (length (@nil HeaderField)) + 1) by (cbn; lia).
  by apply mapsOk_build; [|cbn [length]; lia|apply mapsOk_nil].
Qed.

Lemma addEntry_ok t f : tableOk t -> evictCount t + Z.of_nat (length (ents t)) + 1 < 2 ^ 64 -> tableOk (addEntry t f).
Proof.
  intros [H0 Hr Hm] Hroom. split; [done|cbn; rewrite length_app; cbn; lia|]. cbn. destruct (maps t) as [m|]; [|done]. cbn.
  rewrite (wrap_id 64) by (unfold fits; lia). replace (Z.of_nat (length (ents t)) + evictCount t + 1) with (evictCount t + Z.of_nat (length (ents t)) + 1) by lia.
  by apply mapsOk_add.
Qed.

Lemma evictOldest_ok t n : tableOk t -> (n <= length (ents t))%nat ->
  exists t', evictOldest t n = Parsed t' /\ tableOk t' /\ ents t' = drop n (ents t) /\
    evictCount t' = evictCount t + Z.of_nat n.
Proof.
  intros [H0 Hr Hm] Hn. unfold evictOldest. destruct (Nat.ltb_spec (length (ents t)) n); [lia|].
  rewrite (wrap_id 64 (evictCount t + Z.of_nat n)) by (unfold fits; lia).
  destruct (Z.ltb_spec (evictCount t + Z.of_nat n) (evictCount t)); [lia|]. eexists. split_and!; [done| |done|done].
  split; cbn; [lia|rewrite length_drop; lia|]. destruct (maps t) as [m|]; [|done]. cbn.
  rewrite <- (length_take_le (ents t) n) at 1 by done. apply mapsOk_unset; [done|rewrite length_take_le by done; lia|by rewrite take_drop].
Qed.

(** The maps that [static_table.go] lists are those of its entries. *)
Lemma static_maps : maps staticTable = Some (buildMapsFrom 1 (ents staticTable) (∅, ∅)).
Proof. apply (bool_decide_eq_true_1 _). vm_compute. reflexivity. Qed.

Lemma static_ok : tableOk staticTable.
Proof.
  split; [done|done|]. rewrite static_maps. change (evictCount staticTable) with 0. change (ents staticTable) with ([] ++ ents staticTable) at 1.
  apply (mapsOk_build _ 0 []); [lia|done|apply mapsOk_nil].
Qed.

(** ** Searching *)

Definition samePair (f : HeaderField) : HeaderField -> bool := hasKey pairOf (pairOf f).
Definition sameName (f : HeaderField) : HeaderField -> bool := hasKey Name (Name f).

(** The newest entry with the name and the value, unless the field is sensitive, or else the
    newest entry with the name *)
Definition newest (l : list HeaderField) (f : HeaderField) : option (nat * bool) :=
  match (if Sensitive f then None else lastIndex (samePair f) l) with
  | Some k => Some (k, true)
  | None => (fun k => (k, false)) <$> lastIndex (sameName f) l
  end.

(** The HPACK index of an entry: the position in the static table, the distance from the end of
    a dynamic one *)
Definition indexOf (isStatic : bool) (l : list HeaderField) (k : nat) : Z :=
  if isStatic then Z.of_nat k + 1 else Z.of_nat (length l) - Z.of_nat k.

Lemma idToIndex_ok isStatic t k : tableOk t -> (k < length (ents t))%nat ->
  idToIndex isStatic t (evictCount t + Z.of_nat k + 1) = Parsed (indexOf isStatic (ents t) k).
Proof.
  intros [H0 Hr _] Hk. unfold idToIndex, indexOf. destruct (Z.leb_spec (evictCount t + Z.of_nat k + 1) (evictCount t)); [lia|].
  replace (evictCount t + Z.of_nat k + 1 - evictCount t - 1) with (Z.of_nat k) by lia.
  f_equal. rewrite (wrap_id 64 (Z.of_nat k)) by (unfold fits; lia). destruct isStatic; apply wrap_id; unfold fits; lia.
Qed.

Lemma lastIndex_lt P l k : lastIndex P l = Some k -> (k < length l)%nat.
Proof. intros (f & Hf & _)%lastIndex_Some. by apply lookup_lt_Some in Hf. Qed.

(** A table with its maps in place *)
Definition withMaps (t : headerFieldTable) : headerFieldTable := match maps t with None => buildMaps t | Some _ => t end.

Lemma search_ok isStatic t f : tableOk t ->
  search isStatic t f = Parsed (from_option (fun kb => (indexOf isStatic (ents t) kb.1, kb.2)) (0, false) (newest (ents t) f), withMaps t) /\
  tableOk (withMaps t) /\ ents (withMaps t) = ents t /\ evictCount (withMaps t) = evictCount t.
Proof.
  intros Ht. assert (Hw : tableOk (withMaps t) /\ ents (withMaps t) = ents t /\ evictCount (withMaps t) = evictCount t).
  { unfold withMaps. destruct (maps t) eqn:E; [done|]. split; [by apply buildMaps_ok|done]. }
  split; [|done]. destruct Hw as (Hok & He & Hc). unfold search. change (match maps t with None => _ | _ => _ end) with (withMaps t).
  assert (exists m, maps (withMaps t) = Some m) as [m Hm] by (unfold withMaps; destruct (maps t) eqn:E; eauto).
  pose proof (ok_maps _ Hok) as HM. rewrite Hm in HM |- *. destruct HM as [M1 M2]. change (default (∅, ∅) (Some m)) with m.
  pose proof (mapOk_get pairOf _ _ _ (pairOf f) (ok_count _ Hok) M2) as G2. pose proof (mapOk_get Name _ _ _ (Name f) (ok_count _ Hok) M1) as G1.
  pose proof (ok_count _ Hok) as H0. rewrite He in *.
  assert (Hi : forall k, (k < length (ents t))%nat -> idToIndex isStatic (withMaps t) (evictCount (withMaps t) + Z.of_nat k + 1) = Parsed (indexOf isStatic (ents t) k)).
  { intros k Hk. rewrite <- He. apply idToIndex_ok; [done|by rewrite He]. }
  assert (Hname : (if negb (mapGet0 m.1 (Name f) =? 0) then i ← idToIndex isStatic (withMaps t) (mapGet0 m.1 (Name f)); Parsed (i, false, withMaps t) else Parsed (0, false, withMaps t))
    = Parsed (from_option (fun k => (indexOf isStatic (ents t) k, false)) (0, false) (lastIndex (sameName f) (ents t)), withMaps t)).
  { unfold sameName. destruct (lastIndex (hasKey Name (Name f)) (ents t)) as [k|] eqn:E; rewrite G1; [|done].
    rewrite (proj2 (Z.eqb_neq _ _)) by lia. cbn [negb]. by rewrite (Hi k (lastIndex_lt _ _ _ E)). }
  rewrite Hname. unfold newest. destruct (Sensitive f); cbn [Z.eqb negb]; [by destruct (lastIndex (sameName f) _)|].
  unfold samePair. destruct (lastIndex (hasKey pairOf (pairOf f)) (ents t)) as [k|] eqn:E; rewrite G2; cbn [Z.eqb negb].
  - rewrite (proj2 (Z.eqb_neq _ _)) by lia. cbn [negb]. by rewrite (Hi k (lastIndex_lt _ _ _ E)).
  - by destruct (lastIndex (sameName f) _).
Qed.

(** ** Sizes and eviction *)

Fixpoint total (l : list HeaderField) : Z := match l with [] => 0 | f :: l => Size f + total l end.

Lemma Size_fits f : fits 32 (Size f).
Proof. by apply wrap_fits. Qed.

Lemma total_app l k : total (l ++ k) = total l + total k.
Proof. induction l as [|f l IH]; [done|]. cbn. rewrite IH. lia. Qed.

Lemma total_nonneg l : 0 <= total l.
Proof. induction l as [|f l IH]; [done|]. cbn. pose proof (Size_fits f) as []. lia. Qed.

(** The longest suffix of a list that is not larger than [max] *)
Fixpoint fit (max : Z) (l : list HeaderField) : list HeaderField :=
  match l with [] => [] | f :: l' => if max <? total l then fit max l' else l end.

Lemma fit_small max l : total l <= max -> fit max l = l.
Proof. destruct l as [|f l]; [done|]. intros H. cbn [fit]. by destruct (Z.ltb_spec max (total (f :: l))); [lia|]. Qed.

Lemma fit_le max l : 0 <= max -> total (fit max l) <= max.
Proof. intros H0. induction l as [|f l IH]; [done|]. cbn [fit]. by destruct (Z.ltb_spec max (total (f :: l))). Qed.

Lemma fit_suffix max l : fit max l `suffix_of` l.
Proof. induction l as [|f l IH]; [done|]. cbn [fit]. destruct (_ <? _); [by apply suffix_cons_r|done]. Qed.

(** A larger limit and a longer list keep at least as much. *)
Lemma fit_mono max max' l k : max <= max' -> l `suffix_of` k -> fit max l `suffix_of` fit max' k.
Proof.
  intros Hle [p ->]. induction p as [|f p IH]; cbn [app].
  - induction l as [|f l IH]; [done|]. cbn [fit]. destruct (Z.ltb_spec max (total (f :: l))), (Z.ltb_spec max' (total (f :: l))); try lia; [done| |done].
    apply suffix_cons_r, fit_suffix.
  - cbn [fit]. destruct (Z.ltb_spec max' (total (f :: p ++ l))); [done|]. etrans; [apply fit_suffix|]. by exists (f :: p).
Qed.

Lemma suffix_drop {A} (l k : list A) : l `suffix_of` k -> l = drop (length k - length l) k.
Proof. intros [p ->]. rewrite length_app. replace (length p + length l - length l)%nat with (length p) by lia. by rewrite drop_app_length. Qed.

Lemma evictLoop_ok max l : forall n, 0 <= max -> total l < 2 ^ 32 ->
  evictLoop (total l) max n l = (total (fit max l), (n + (length l - length (fit max l)))%nat).
Proof.
  induction l as [|f l IH]; intros n H0 Hl; cbn [evictLoop fit length]; [f_equal; lia|].
  destruct (Z.ltb_spec max (total (f :: l))); [|f_equal; cbn; lia]. cbn in Hl |- *. pose proof (total_nonneg l). pose proof (Size_fits f) as [].
  replace (Size f + total l - Size f) with (total l) by lia. rewrite (wrap_id 32) by (unfold fits; lia). rewrite IH by lia.
  pose proof (suffix_length _ _ (fit_suffix max l)). f_equal. lia.
Qed.

(** A dynamic table whose size is that of its entries and within its limit *)
Record dynOk (dt : dynamicTable) : Prop := {
  ok_table : tableOk (table dt);
  ok_size : size_ dt = total (ents (table dt));
  ok_fit : size_ dt <= maxSize dt;
  ok_max : fits 32 (maxSize dt);
}.

Definition count (dt : dynamicTable) : Z := evictCount (table dt) + Z.of_nat (length (ents (table dt))).

Lemma evict_ok dt : tableOk (table dt) -> size_ dt = total (ents (table dt)) -> size_ dt < 2 ^ 32 -> fits 32 (maxSize dt) ->
  exists dt', evict dt = Parsed dt' /\ dynOk dt' /\ ents (table dt') = fit (maxSize dt) (ents (table dt)) /\
    maxSize dt' = maxSize dt /\ allowedMaxSize dt' = allowedMaxSize dt /\ count dt' = count dt.
Proof.
  intros Ht Hs Hlt Hmax. unfold evict. rewrite Hs in *. destruct Hmax as [Hm0 Hm1]. rewrite evictLoop_ok by done. cbn [Nat.add].
  pose proof (fit_suffix (maxSize dt) (ents (table dt))) as Hsuf. pose proof (suffix_length _ _ Hsuf) as Hlen.
  destruct (evictOldest_ok (table dt) (length (ents (table dt)) - length (fit (maxSize dt) (ents (table dt)))) Ht) as (t' & -> & Ht' & He & Hc); [lia|].
  cbn [mbind parsed_bind]. rewrite <- (suffix_drop _ _ Hsuf) in He. eexists. split; [done|]. split_and!; try done.
  - split; cbn; [done|by rewrite He| |by split]. by apply fit_le.
  - unfold count. cbn. rewrite Hc, He. lia.
Qed.

Lemma setMaxSize_ok dt v : dynOk dt -> fits 32 v ->
  exists dt', setMaxSize dt v = Parsed dt' /\ dynOk dt' /\ ents (table dt') = fit v (ents (table dt)) /\
    maxSize dt' = v /\ allowedMaxSize dt' = allowedMaxSize dt /\ count dt' = count dt.
Proof.
  intros [H1 H2 H3 H4] Hv. unfold fits in H4. apply (evict_ok (mkDynamicTable (table dt) (size_ dt) v (allowedMaxSize dt))); cbn; try done. lia.
Qed.

Lemma dynAdd_ok dt f : dynOk dt -> maxSize dt + Size f < 2 ^ 32 -> count dt + 1 < 2 ^ 64 ->
  exists dt', dynAdd dt f = Parsed dt' /\ dynOk dt' /\ ents (table dt') = fit (maxSize dt) (ents (table dt) ++ [f]) /\
    maxSize dt' = maxSize dt /\ allowedMaxSize dt' = allowedMaxSize dt /\ count dt' = count dt + 1.
Proof.
  intros [H1 H2 H3 H4] Hs Hc. pose proof (total_nonneg (ents (table dt))). pose proof (Size_fits f) as [].
  destruct (evict_ok (mkDynamicTable (addEntry (table dt) f) (u32 (size_ dt + Size f)) (maxSize dt) (allowedMaxSize dt))) as (dt' & E & Hok & He & Hm & Ha & Hn); cbn in *.
  - by apply addEntry_ok.
  - rewrite wrap_id by (unfold fits; lia). rewrite total_app. cbn. lia.
  - rewrite wrap_id by (unfold fits; lia). lia.
  - done.
  - exists dt'. split_and!; try done. rewrite Hn. unfold count. cbn. rewrite length_app. cbn. lia.
Qed.
