(* ===== verification/HpackCodec.v ===== *)
(** * The primitive types of HPACK

    Integers with a prefix of [n] bits and strings are read back as they were written, and the
    readers decide on a prefix of the input: more input does not change what they found. *)

From S2P Require Import Prelude Binary Huffman HuffmanSpec Hpack.

(** ** Integers *)

Lemma flag_lor n h y : 0 <= n -> fits n h -> 0 <= y -> h + y * 2 ^ n < 256 ->
  byteZ (zByte (Z.lor (byteZ (zByte h)) (y * 2 ^ n))) = h + y * 2 ^ n.
Proof.
  intros Hn Hh Hy Hlt. pose proof (lor_shiftl h n y Hn Hh) as E. rewrite Z.shiftl_mul_pow2 in E by done. destruct Hh as [Hh0 Hh1].
  pose proof (Z.pow_pos_nonneg 2 n ltac:(lia) Hn). rewrite !byteZ_zByte, (wrap_id 8 h), E by (unfold fits; nia).
  apply wrap_id. unfold fits. nia.
Qed.

Lemma land_prefix n h y : 0 <= n -> fits n h -> Z.land (h + y * 2 ^ n) (2 ^ n - 1) = h.
Proof.
  intros Hn Hh. rewrite Z.sub_1_r, <- Z.ones_equiv, Z.land_ones by done.
  rewrite Z.mod_add by (apply Z.pow_nonzero; lia). by apply Z.mod_small.
Qed.

(** A property of small numbers that was checked for each of them *)
Lemma checkedZ (P : Z -> bool) n : forallb P (seqZ 0 n) = true -> forall z, 0 <= z < n -> P z = true.
Proof. intros H z Hz. rewrite forallb_forall in H. apply H, list_elem_of_In, elem_of_seqZ. lia. Qed.

Lemma top_bit h y : fits 7 h -> 0 <= y <= 1 -> (Z.land (h + y * 2 ^ 7) 128 =? 0) = (y =? 0).
Proof.
  intros Hh Hy. apply eqb_prop. apply (checkedZ (fun y => Bool.eqb (Z.land (h + y * 2 ^ 7) 128 =? 0) (y =? 0)) 2); [|lia].
  by apply (checkedZ (fun h => forallb (fun y => Bool.eqb (Z.land (h + y * 2 ^ 7) 128 =? 0) (y =? 0)) (seqZ 0 2)) 128).
Qed.

(** What is written after the prefix *)
Lemma readVarIntRest_ok fuel : forall i0 m i r, 0 <= m -> m mod 7 = 0 -> 0 <= i0 -> 0 <= i < 2 ^ (63 - m) -> i < 2 ^ (7 * Z.of_nat fuel) ->
  i0 + i * 2 ^ m < 2 ^ 64 -> (1 <= fuel)%nat -> readVarIntRest i0 m (appendVarIntRest fuel i ++ r) = Parsed (i0 + i * 2 ^ m, r).
Proof.
  induction fuel as [|fuel IH]; intros i0 m i r Hm Hm7 Hi0 Hi Hf Hb H1; [lia|]. cbn [appendVarIntRest].
  pose proof (Z.pow_pos_nonneg 2 m ltac:(lia) Hm) as Hpow. pose proof (Z.mod_pos_bound i 128 ltac:(lia)) as Hmod. pose proof (Z.div_mod i 128 ltac:(lia)) as Hdiv.
  destruct (Z.leb_spec 128 i) as [Hlarge|Hsmall]; cbn [readVarIntRest app].
  - assert (Hm56 : m + 7 < 63).
    { destruct (Z.lt_ge_cases (m + 7) 63); [done|]. assert (2 ^ (63 - m) <= 2 ^ 7) by (apply Z.pow_le_mono_r; lia). lia. }
    assert (Hbyte : byteZ (zByte (Z.lor 128 (Z.land i 127))) = i mod 128 + 1 * 2 ^ 7).
    { change 127 with (Z.ones 7). rewrite Z.land_ones, Z.lor_comm by lia. change (2 ^ 7) with 128.
      rewrite <- (wrap_id 8 (i mod 128)) at 1 by (unfold fits; lia). rewrite <- byteZ_zByte. apply (flag_lor 7 (i mod 128) 1); unfold fits; lia. }
    rewrite Hbyte. change 127 with (2 ^ 7 - 1). rewrite land_prefix by (unfold fits; lia).
    rewrite top_bit by (unfold fits; lia). change (1 =? 0) with false. cbn iota. destruct (Z.leb_spec 63 (m + 7)); [lia|]. rewrite (wrap_id 64 (Z.shiftl _ _)), Z.shiftl_mul_pow2 by (done || rewrite ?Z.shiftl_mul_pow2 by done; unfold fits; nia).
    rewrite (wrap_id 64) by (unfold fits; nia). rewrite Z.shiftr_div_pow2 by lia. change (2 ^ 7) with 128.
    assert (Hp7 : 2 ^ (m + 7) = 2 ^ m * 128) by (by rewrite Z.pow_add_r by lia).
    rewrite IH; [do 2 f_equal; nia|lia| |nia| | |nia|].
    + rewrite Z.add_mod, Hm7 by lia. done.
    + split; [apply Z.div_pos; lia|]. apply Z.div_lt_upper_bound; [lia|]. change 128 with (2 ^ 7) at 1. rewrite <- Z.pow_add_r by lia.
      replace (7 + (63 - (m + 7))) with (63 - m) by lia. lia.
    + apply Z.div_lt_upper_bound; [lia|]. change 128 with (2 ^ 7) at 1. rewrite <- Z.pow_add_r by lia. by replace (7 + 7 * Z.of_nat fuel) with (7 * Z.of_nat (S fuel)) by lia.
    + destruct fuel as [|fuel]; [|lia]. change (2 ^ (7 * Z.of_nat 1)) with 128 in Hf. lia.
  - rewrite byteZ_zByte, (wrap_id 8) by (unfold fits; lia). change 127 with (Z.ones 7).
    rewrite Z.land_ones by lia. rewrite Z.mod_small by (change (2 ^ 7) with 128; lia).
    pose proof (top_bit i 0 ltac:(unfold fits; lia) ltac:(lia)) as Hz. rewrite Z.add_0_r in Hz. rewrite Hz. rewrite (wrap_id 64 (Z.shiftl _ _)), Z.shiftl_mul_pow2 by (done || rewrite ?Z.shiftl_mul_pow2 by done; unfold fits; nia).
    by rewrite (wrap_id 64) by (unfold fits; nia).
Qed.

(** The head of an integer with flags above its prefix *)
Lemma flagged_head n y i : 0 <= n -> 0 <= i -> 0 <= y -> y * 2 ^ n + 2 ^ n <= 256 ->
  exists c l h, orFirst (y * 2 ^ n) (appendVarInt n i) = c :: l /\ byteZ c = h + y * 2 ^ n /\ fits n h.
Proof.
  intros Hn Hi Hy Hlt. pose proof (Z.pow_pos_nonneg 2 n ltac:(lia) Hn). unfold appendVarInt. rewrite Z.shiftl_1_l.
  destruct (Z.ltb_spec i (2 ^ n - 1)); cbn [orFirst].
  - exists (zByte (Z.lor (byteZ (zByte i)) (y * 2 ^ n))), [], i. split_and!; [done| |unfold fits; lia]. apply flag_lor; unfold fits; lia.
  - eexists _, _, (2 ^ n - 1). split_and!; [done| |unfold fits; lia]. apply flag_lor; unfold fits; lia.
Qed.

Lemma readVarInt_ok n y i r : 1 <= n <= 7 -> 0 <= y -> y * 2 ^ n + 2 ^ n <= 256 -> 0 <= i < 2 ^ 63 ->
  readVarInt n (orFirst (y * 2 ^ n) (appendVarInt n i) ++ r) = Parsed (i, r).
Proof.
  intros Hn Hy Hlt Hi. pose proof (Z.pow_pos_nonneg 2 n ltac:(lia) ltac:(lia)) as Hpow. unfold readVarInt.
  destruct (Z.ltb_spec n 1), (Z.ltb_spec 8 n), (Z.ltb_spec n 8); try lia. cbn [orb]. unfold appendVarInt.
  rewrite Z.shiftl_1_l. destruct (Z.ltb_spec i (2 ^ n - 1)) as [Hs|Hl]; cbn [orFirst app]; rewrite flag_lor by (unfold fits; lia); rewrite land_prefix by (unfold fits; lia).
  - by destruct (Z.ltb_spec i (2 ^ n - 1)); [|lia].
  - destruct (Z.ltb_spec (2 ^ n - 1) (2 ^ n - 1)); [lia|]. assert (2 ^ 1 <= 2 ^ n) by (apply Z.pow_le_mono_r; lia).
    rewrite (readVarIntRest_ok 10); [f_equal; f_equal; change (2 ^ 0) with 1; lia|lia|done|lia| | | |lia]; change (2 ^ (7 * Z.of_nat 10)) with (2 ^ 70);
      change (63 - 0) with 63; change (2 ^ 0) with 1; lia.
Qed.

Lemma orFirst_0 l : orFirst 0 l = l.
Proof. destruct l as [|c l]; [done|]. cbn. by rewrite Z.lor_0_r, zByte_byteZ. Qed.

Lemma orFirst_app b l k : l <> [] -> orFirst b (l ++ k) = orFirst b l ++ k.
Proof. by destruct l. Qed.

Lemma appendVarInt_nonempty n i : appendVarInt n i <> [].
Proof. unfold appendVarInt. by destruct (_ <? _). Qed.

(** ** Strings *)

Lemma appendCodes_app s : forall dst x n, foldl appendCode (dst, x, n) s =
  let '(d, x', n') := foldl appendCode ([], x, n) s in (dst ++ d, x', n').
Proof.
  induction s as [|c s IH]; intros dst x n; cbn [foldl]; [by rewrite app_nil_r|]. unfold appendCode at 2 4.
  destruct (_ <=? _); [|apply IH]. rewrite IH. symmetry. rewrite IH. destruct (foldl appendCode ([], _, _) s) as [[d x'] n']. by rewrite app_assoc.
Qed.

Lemma AppendHuffmanString_app dst s : AppendHuffmanString dst s = dst ++ AppendHuffmanString [] s.
Proof.
  unfold AppendHuffmanString. rewrite (appendCodes_app s dst), (appendCodes_app s []). destruct (foldl appendCode ([], 0, 0) s) as [[d x] n]. cbn [app].
  destruct (0 <? n mod 8); repeat destruct (_ =? _); by rewrite ?app_assoc.
Qed.

Lemma codeLen_sum s : forall n, 0 <= n -> n + 30 * Z.of_nat (length s) < 2 ^ 64 ->
  foldl (fun n c => u64 (n + codeLenOf c)) n s = n + Z.of_nat (length (codesBits s)) /\ Z.of_nat (length (codesBits s)) <= 30 * Z.of_nat (length s).
Proof.
  induction s as [|c s IH]; intros n Hn Hb; cbn [foldl length]; [cbn; lia|]. cbn [length] in Hb.
  destruct (code_ok c) as [Hc _]. rewrite codesBits_cons, length_app, length_codeBits. unfold codeLenN.
  rewrite wrap_id by (unfold fits; lia). destruct (IH (n + codeLenOf c)) as [-> ?]; lia.
Qed.

Lemma HuffmanEncodeLength_ok s : 30 * Z.of_nat (length s) + 7 < 2 ^ 64 -> HuffmanEncodeLength s = Z.of_nat (length (AppendHuffmanString [] s)).
Proof.
  intros Hb. destruct (AppendHuffmanString_bits [] s) as (p & Hp & Hbits). apply (f_equal length) in Hbits.
  rewrite bytesBits_length, !length_app, length_replicate in Hbits. cbn in Hbits. unfold HuffmanEncodeLength.
  destruct (codeLen_sum s 0) as [-> ?]; [lia|lia|]. rewrite wrap_id by (unfold fits; lia). divlia.
Qed.

(** A string within the limit of the decoder *)
Definition strOk (d : Decoder) (s : bytes) : Prop :=
  Z.of_nat (length s) < 2 ^ 58 /\ (maxStrLen d = 0 \/ Z.of_nat (length s) <= maxStrLen d < 2 ^ 63).

Lemma readString_raw d huff y (b r : bytes) : huff = (y =? 1) -> 0 <= y <= 1 -> strOk d b ->
  readString d (orFirst (y * 2 ^ 7) (appendVarInt 7 (Z.of_nat (length b))) ++ b ++ r) = Parsed (mkUndecoded huff b, r).
Proof.
  intros -> Hy [Hlen Hmax]. unfold readString. set (p := orFirst _ _ ++ _).
  assert (exists c p', p = c :: p' /\ negb (Z.land (byteZ c) 128 =? 0) = (y =? 1)) as (c & p' & Hp & Hc).
  { subst p. destruct (flagged_head 7 y (Z.of_nat (length b))) as (c & l & h & -> & E & Hh); [lia|lia|lia|lia|]. exists c. eexists. split; [done|]. rewrite E.
    rewrite top_bit by (done || lia). by destruct (Z.eqb_spec y 0), (Z.eqb_spec y 1); try lia. }
  rewrite Hp. rewrite <- Hp, Hc. subst p. rewrite readVarInt_ok by lia. cbn [mbind parsed_bind].
  assert (negb (maxStrLen d =? 0) && (u64 (maxStrLen d) <? Z.of_nat (length b)) = false) as ->.
  { destruct Hmax as [-> |Hmax]; [done|]. rewrite wrap_id by (unfold fits; lia). apply andb_false_iff. right. apply Z.ltb_ge. lia. }
  rewrite length_app. destruct (Z.ltb_spec (Z.of_nat (length b + length r)) (Z.of_nat (length b))); [lia|].
  by rewrite Nat2Z.id, take_app_length, drop_app_length.
Qed.

Lemma readString_ok d s r : strOk d s ->
  exists u, readString d (appendHpackString s ++ r) = Parsed (u, r) /\ decodeString d u = Parsed s.
Proof.
  intros Hs. pose proof Hs as [Hlen Hmax]. unfold appendHpackString. rewrite HuffmanEncodeLength_ok by lia.
  destruct (Z.ltb_spec (Z.of_nat (length (AppendHuffmanString [] s))) (Z.of_nat (length s))).
  - rewrite AppendHuffmanString_app, orFirst_app by apply appendVarInt_nonempty. rewrite <- app_assoc. exists (mkUndecoded true (AppendHuffmanString [] s)).
    split; [apply (readString_raw d true 1); [done|lia|]; unfold strOk; lia|]. apply huffmanDecode_ok. lia.
  - exists (mkUndecoded false s). split; [|done]. rewrite <- (orFirst_0 (appendVarInt _ _)), <- app_assoc. by apply (readString_raw d false 0).
Qed.

(** ** Readers decide on a prefix *)

(** What was read stays when bytes follow; only a request for more can change. *)
Definition reader {A} (r : bytes -> parsed (A * bytes)) : Prop := forall p q,
  match r p with
  | Parsed (a, rest) => r (p ++ q) = Parsed (a, rest ++ q) /\ (length rest <= length p)%nat
  | Failed errNeedMore => True
  | Failed e => r (p ++ q) = Failed e
  end.

Lemma reader_bind {A B} (r : bytes -> parsed (A * bytes)) (k : A -> bytes -> parsed (B * bytes)) :
  reader r -> (forall a, reader (k a)) -> reader (fun p => '(a, rest) ← r p; k a rest).
Proof.
  intros Hr Hk p q. specialize (Hr p q). destruct (r p) as [[a rest]|e]; cbn [mbind parsed_bind].
  - destruct Hr as [-> Hle]. cbn. specialize (Hk a rest q). destruct (k a rest) as [[b rest']|e]; [|done]. destruct Hk as [-> ?]. split; [done|lia].
  - destruct e; [done| | | |]; by rewrite Hr.
Qed.

Lemma reader_pure {A} (m : parsed A) : reader (fun p => a ← m; Parsed (a, p)).
Proof. intros p q. destruct m as [a|e]; cbn; [done|]. by destruct e. Qed.

Lemma readVarIntRest_reader i m : reader (readVarIntRest i m).
Proof.
  intros p. revert i m. induction p as [|b p IH]; intros i m q; [done|]. cbn [readVarIntRest app].
  destruct (_ =? 0); [split; [done|cbn; lia]|]. destruct (_ <=? _); [done|]. specialize (IH (u64 (i + u64 (Z.shiftl (Z.land (byteZ b) 127) m))) (m + 7) q).
  destruct (readVarIntRest _ _ p) as [[a rest]|e]; [|done]. destruct IH as [? ?]. split; [done|cbn; lia].
Qed.

Lemma readVarInt_reader n : reader (readVarInt n).
Proof.
  intros p q. unfold readVarInt. destruct (_ || _); [done|]. destruct p as [|b p]; [done|]. cbn [app].
  destruct (_ <? _); [split; [done|cbn; lia]|]. pose proof (readVarIntRest_reader (if n <? 8 then Z.land (byteZ b) (Z.shiftl 1 n - 1) else byteZ b) 0 p q) as H.
  destruct (readVarIntRest _ _ p) as [[a rest]|e]; [|done]. destruct H as [? ?]. split; [done|cbn; lia].
Qed.

(** An integer takes a byte at least. *)
Lemma readVarInt_consumes n p i rest : readVarInt n p = Parsed (i, rest) -> (length rest < length p)%nat.
Proof.
  unfold readVarInt. destruct (_ || _); [done|]. destruct p as [|b p]; [done|]. destruct (_ <? _); [intros [= _ <-]; cbn; lia|].
  intros H. pose proof (readVarIntRest_reader (if n <? 8 then Z.land (byteZ b) (Z.shiftl 1 n - 1) else byteZ b) 0 p []) as Hr. rewrite H in Hr. cbn. lia.
Qed.

Lemma readString_reader d : reader (readString d).
Proof.
  intros p q. unfold readString. destruct p as [|b p]; [done|]. cbn [app].
  pose proof (readVarInt_reader 7 (b :: p) q) as H. destruct (readVarInt 7 (b :: p)) as [[n rest]|e]; cbn [mbind parsed_bind].
  - destruct H as [H Hle]. change (b :: p ++ q) with ((b :: p) ++ q). rewrite H. cbn [mbind parsed_bind]. destruct (_ && _); [done|]. destruct (Z.ltb_spec (Z.of_nat (length rest)) n); [done|].
    rewrite length_app. destruct (Z.ltb_spec (Z.of_nat (length rest + length q)) n); [lia|]. rewrite take_app_le, drop_app_le, length_drop by lia. split; [done|lia].
  - change (b :: p ++ q) with ((b :: p) ++ q). destruct e; [done| | | |]; by rewrite H.
Qed.
