(* ===== verification/HpackChunks.v ===== *)
(** * Header blocks in pieces

    A decoder that gets a header block in pieces of any sizes emits the same fields and ends in
    the same state as one that gets the whole block at once. *)

From S2P Require Import Prelude Binary Huffman Hpack HpackCodec.

(** ** One representation *)

Definition extend (s : step) (q : bytes) : step := mkStep (sDec s) (sOut s) (sBuf s ++ q) (sErr s).

Section orFail.
Context {A : Type} (d : Decoder) (r : bytes -> parsed (A * bytes)) (k : A -> bytes -> step).
Context (Hr : reader r).

Definition run (buf : bytes) : step := orFail d buf (r buf) (fun '(a, rest) => k a rest).

Lemma run_extend buf q : (forall a rest, k a (rest ++ q) = extend (k a rest) q) -> sErr (run buf) <> Some errNeedMore ->
  run (buf ++ q) = extend (run buf) q.
Proof.
  intros Hk. unfold run. specialize (Hr buf q). destruct (r buf) as [[a rest]|e]; cbn.
  - destruct Hr as [-> _]. intros _. apply Hk.
  - intros He. destruct e; [done| | | |]; by rewrite Hr.
Qed.

Lemma run_more buf : (forall a rest, sErr (k a rest) <> Some errNeedMore) -> sErr (run buf) = Some errNeedMore ->
  sDec (run buf) = d /\ sOut (run buf) = [].
Proof. intros Hk. unfold run. destruct (r buf) as [[a rest]|e]; cbn; [|done]. by intros ?%Hk. Qed.
End orFail.

Lemma callEmit_extend d hf buf q : callEmit d (buf ++ q) hf = extend (callEmit d buf hf) q.
Proof. unfold callEmit. by destruct (_ && _). Qed.

Lemma callEmit_err d hf buf : sErr (callEmit d buf hf) <> Some errNeedMore.
Proof. unfold callEmit. by destruct (_ && _). Qed.

Lemma callEmit_buf d hf buf : sBuf (callEmit d buf hf) = buf /\ sDec (callEmit d buf hf) = d.
Proof. unfold callEmit. by destruct (_ && _). Qed.

Definition readIndexed (d : Decoder) (p : bytes) : parsed (HeaderField * bytes) :=
  '(idx, rest) ← readVarInt 7 p;
  match decoderAt d idx with None => Failed InvalidIndexError | Some hf => Parsed (hf, rest) end.

Definition readUpdate (d : Decoder) (p : bytes) : parsed (dynamicTable * bytes) :=
  '(size, rest) ← readVarInt 5 p;
  if allowedMaxSize (decTab d) <? size then Failed (DecodingError "dynamic table size update too large")
  else dt ← setMaxSize (decTab d) (u32 size); Parsed (dt, rest).

(** The field of a literal and the table with it *)
Definition literalField (d : Decoder) (it : indexType) (name : bytes + undecodedString) (undecodedValue : undecodedString)
    : parsed (HeaderField * dynamicTable) :=
  hf ← (if emitEnabled d || indexed it then
          name ← match name with inl name => Parsed name | inr u => decodeString d u end;
          value ← decodeString d undecodedValue;
          Parsed (mkHeaderField name value false)
        else Parsed (mkHeaderField (match name with inl name => name | inr _ => [] end) [] false));
  dt ← (if indexed it then dynAdd (decTab d) hf else Parsed (decTab d));
  Parsed (hf, dt).

Definition readLiteral (n : Z) (it : indexType) (d : Decoder) (p : bytes) : parsed (HeaderField * dynamicTable * bytes) :=
  '(nameIdx, rest) ← readVarInt n p;
  '(name, rest) ← readName d nameIdx rest;
  '(undecodedValue, rest) ← readString d rest;
  field ← literalField d it name undecodedValue;
  Parsed (field, rest).

Lemma reader_choice {A} (b : bool) (r s : bytes -> parsed (A * bytes)) : reader r -> reader s -> reader (fun p => if b then r p else s p).
Proof. by destruct b. Qed.

Lemma reader_fail {A} e : reader (fun _ => @Failed (A * bytes) e).
Proof. intros p q. by destruct e. Qed.

Lemma readIndexed_reader d : reader (readIndexed d).
Proof. apply reader_bind; [apply readVarInt_reader|]. intros idx p q. by destruct (decoderAt d idx). Qed.

Lemma readUpdate_reader d : reader (readUpdate d).
Proof. apply reader_bind; [apply readVarInt_reader|]. intros size. apply reader_choice; [apply reader_fail|apply reader_pure]. Qed.

Lemma readName_reader d i : reader (readName d i).
Proof.
  unfold readName. apply reader_choice; [intros p q; by destruct (decoderAt d i)|].
  apply (reader_bind (readString d) (fun u rest => Parsed (inr u, rest))); [apply readString_reader|]. by intros u p q.
Qed.

Lemma readLiteral_reader n it d : reader (readLiteral n it d).
Proof.
  apply (reader_bind (readVarInt n)); [apply readVarInt_reader|]. intros i. apply (reader_bind (readName d i)); [apply readName_reader|].
  intros name. apply (reader_bind (readString d)); [apply readString_reader|]. intros u. apply reader_pure.
Qed.

Lemma parseFieldIndexed_run d buf : parseFieldIndexed d buf =
  run d (readIndexed d) (fun hf rest => callEmit d rest (mkHeaderField (Name hf) (Value hf) false)) buf.
Proof. done. Qed.

Lemma parseFieldLiteral_run n it d buf : parseFieldLiteral n it d buf =
  run d (readLiteral n it d) (fun '(hf, dt) rest => callEmit (setTab d dt) rest (mkHeaderField (Name hf) (Value hf) (sensitive it))) buf.
Proof.
  unfold parseFieldLiteral, run, readLiteral, literalField. destruct (readVarInt n buf) as [[i rest]|]; cbn [mbind parsed_bind]; [|done].
  destruct (readName d i rest) as [[name rest']|]; cbn [mbind parsed_bind]; [|done]. destruct (readString d rest') as [[u rest'']|]; cbn [mbind parsed_bind]; [|done].
  cbv zeta. destruct (if emitEnabled d || indexed it then _ else _) as [hf|]; cbn [mbind parsed_bind]; [|done].
  by destruct (if indexed it then _ else _) as [dt|].
Qed.

(** The parser that the first byte selects *)
Lemma parse_dispatch d (P : (bytes -> step) -> Prop) :
  P (parseFieldIndexed d) -> (forall n it, 4 <= n <= 6 -> P (parseFieldLiteral n it d)) -> P (parseDynamicTableSizeUpdate d) ->
  P (fun buf => mkStep d [] buf (Some (DecodingError "invalid encoding"))) ->
  forall c, exists f, P f /\ forall l, parseHeaderFieldRepr d (c :: l) = f (c :: l).
Proof.
  intros H1 H2 H3 H4 c. unfold parseHeaderFieldRepr. destruct (negb _); [by exists (parseFieldIndexed d)|]. destruct (_ =? _); [eexists; split; [apply (H2 6 indexedTrue); lia|done]|].
  destruct (_ =? _); [eexists; split; [apply (H2 4 indexedFalse); lia|done]|]. destruct (_ =? _); [eexists; split; [apply (H2 4 indexedNever); lia|done]|].
  destruct (_ =? _); [by exists (parseDynamicTableSizeUpdate d)|]. by eexists (fun buf => mkStep d [] buf _).
Qed.

(** Parsing reads a prefix of the buffer: bytes that follow do not matter. *)
Lemma parse_extend d buf q : buf <> [] -> sErr (parseHeaderFieldRepr d buf) <> Some errNeedMore ->
  parseHeaderFieldRepr d (buf ++ q) = extend (parseHeaderFieldRepr d buf) q.
Proof.
  destruct buf as [|c buf]; [done|]. intros _.
  destruct (parse_dispatch d (fun f => forall p, sErr (f p) <> Some errNeedMore -> f (p ++ q) = extend (f p) q)) with (c := c) as (f & Hf & E).
  - intros p. rewrite !parseFieldIndexed_run. apply run_extend; [apply readIndexed_reader|]. intros hf rest. apply callEmit_extend.
  - intros n it _ p. rewrite !parseFieldLiteral_run. apply run_extend; [apply readLiteral_reader|]. intros [hf dt] rest. apply callEmit_extend.
  - intros p. unfold parseDynamicTableSizeUpdate. destruct (_ && _); [done|].
    by apply (run_extend d (readUpdate d) (fun dt rest => mkStep (setTab d dt) [] rest None)); [apply readUpdate_reader|].
  - done.
  - cbn [app]. rewrite !E. apply (Hf (c :: buf)).
Qed.

(** A request for more bytes leaves the decoder as it was. *)
Lemma parse_more d buf : buf <> [] -> sErr (parseHeaderFieldRepr d buf) = Some errNeedMore ->
  sDec (parseHeaderFieldRepr d buf) = d /\ sOut (parseHeaderFieldRepr d buf) = [].
Proof.
  destruct buf as [|c buf]; [done|]. intros _.
  destruct (parse_dispatch d (fun f => forall p, sErr (f p) = Some errNeedMore -> sDec (f p) = d /\ sOut (f p) = [])) with (c := c) as (f & Hf & ->); [..|apply Hf].
  - intros p. rewrite parseFieldIndexed_run. apply run_more. intros hf rest. apply callEmit_err.
  - intros n it _ p. rewrite parseFieldLiteral_run. apply run_more. intros [hf dt] rest. apply callEmit_err.
  - intros p. unfold parseDynamicTableSizeUpdate. destruct (_ && _); [done|].
    by apply (run_more d (readUpdate d) (fun dt rest => mkStep (setTab d dt) [] rest None)).
  - done.
Qed.

Definition sameSettings (d d' : Decoder) : Prop :=
  maxStrLen d' = maxStrLen d /\ emitEnabled d' = emitEnabled d /\ saveBuf d' = saveBuf d /\ firstField d' = firstField d /\
  allowedMaxSize (decTab d') = allowedMaxSize (decTab d).

Lemma evict_allowed dt dt' : evict dt = Parsed dt' -> allowedMaxSize dt' = allowedMaxSize dt /\ maxSize dt' = maxSize dt.
Proof. unfold evict. destruct (evictLoop _ _ _ _) as [size n]. destruct (evictOldest _ _); [|done]. by intros [= <-]. Qed.

Lemma literalField_allowed d it name u hf dt : literalField d it name u = Parsed (hf, dt) -> allowedMaxSize dt = allowedMaxSize (decTab d).
Proof.
  unfold literalField. destruct (if emitEnabled d || indexed it then _ else _) as [hf'|]; cbn [mbind parsed_bind]; [|done].
  destruct (indexed it); [|by intros [= _ <-]]. destruct (dynAdd _ _) as [dt'|] eqn:E; cbn [mbind parsed_bind]; [|done].
  intros [= _ <-]. by apply evict_allowed in E as [-> _].
Qed.

Lemma readLiteral_inv n it d p hf dt rest : readLiteral n it d p = Parsed (hf, dt, rest) ->
  exists name u, literalField d it name u = Parsed (hf, dt) /\ (length rest < length p)%nat.
Proof.
  unfold readLiteral. destruct (readVarInt n p) as [[i r1]|] eqn:E1; cbn [mbind parsed_bind]; [|done].
  pose proof (readName_reader d i r1 []) as R2. destruct (readName d i r1) as [[name r2]|]; cbn [mbind parsed_bind]; [|done].
  pose proof (readString_reader d r2 []) as R3. destruct (readString d r2) as [[u r3]|]; cbn [mbind parsed_bind]; [|done].
  destruct (literalField d it name u) as [fd|] eqn:E; cbn [mbind parsed_bind]; [|done]. intros [= -> <-]. exists name, u. split; [done|].
  apply readVarInt_consumes in E1. lia.
Qed.

(** A representation that was parsed took a byte at least, and the settings stay. *)
Lemma parse_consumes d buf : buf <> [] -> sErr (parseHeaderFieldRepr d buf) = None ->
  (length (sBuf (parseHeaderFieldRepr d buf)) < length buf)%nat.
Proof.
  destruct buf as [|c buf]; [done|]. intros _.
  destruct (parse_dispatch d (fun f => forall p, sErr (f p) = None -> (length (sBuf (f p)) < length p)%nat)) with (c := c) as (f & Hf & ->); [..|apply Hf].
  - intros p. rewrite parseFieldIndexed_run. unfold run, readIndexed. destruct (readVarInt 7 p) as [[i r1]|] eqn:E; cbn; [|done].
    apply readVarInt_consumes in E. destruct (decoderAt d i) as [hf|]; cbn; [|done]. by rewrite (proj1 (callEmit_buf _ _ _)).
  - intros n it _ p. rewrite parseFieldLiteral_run. unfold run. destruct (readLiteral n it d p) as [[[hf dt] rest]|] eqn:E; cbn; [|done].
    apply readLiteral_inv in E as (? & ? & _ & ?). by rewrite (proj1 (callEmit_buf _ _ _)).
  - intros p. unfold parseDynamicTableSizeUpdate. destruct (_ && _); [done|]. destruct (readVarInt 5 p) as [[i r1]|] eqn:E; cbn; [|done].
    apply readVarInt_consumes in E. destruct (_ <? _); [done|]. by destruct (setMaxSize _ _).
  - done.
Qed.

Lemma parse_settings d buf : sameSettings d (sDec (parseHeaderFieldRepr d buf)).
Proof.
  destruct buf as [|c buf]; [done|].
  destruct (parse_dispatch d (fun f => forall p, sameSettings d (sDec (f p)))) with (c := c) as (f & Hf & ->); [..|apply Hf].
  - intros p. rewrite parseFieldIndexed_run. unfold run. destruct (readIndexed d p) as [[hf rest]|]; cbn; [|done]. by rewrite (proj2 (callEmit_buf _ _ _)).
  - intros n it _ p. rewrite parseFieldLiteral_run. unfold run. destruct (readLiteral n it d p) as [[[hf dt] rest]|] eqn:E; cbn; [|done].
    rewrite (proj2 (callEmit_buf _ _ _)). apply readLiteral_inv in E as (? & ? & ?%literalField_allowed & _). by split_and!.
  - intros p. unfold parseDynamicTableSizeUpdate. destruct (_ && _); [done|]. destruct (readVarInt 5 p) as [[i r1]|]; cbn; [|done].
    destruct (_ <? _); [done|]. destruct (setMaxSize _ _) as [dt|] eqn:E; [|done]. apply evict_allowed in E as [? _]. by split_and!.
  - done.
Qed.

(** ** The loop *)

Lemma decodeLoop_S fuel d c buf : decodeLoop (S fuel) d (c :: buf) =
  let s := parseHeaderFieldRepr d (c :: buf) in
  match sErr s with
  | Some errNeedMore =>
      if negb (maxStrLen d =? 0) && (2 * (maxStrLen d + 8) <? Z.of_nat (length (c :: buf))) then (sDec s, sOut s, Some ErrStringLength)
      else (setBuf (sDec s) (c :: buf) (firstField (sDec s)), sOut s, None)
  | Some e => (setBuf (sDec s) (saveBuf (sDec s)) false, sOut s, Some e)
  | None =>
      let '(d', out', err) := decodeLoop fuel (setBuf (sDec s) (saveBuf (sDec s)) false) (sBuf s) in (d', sOut s ++ out', err)
  end.
Proof. cbn [decodeLoop]. by destruct (parseHeaderFieldRepr d (c :: buf)) as [d' out rest [[]|]]. Qed.

(** One round for each byte is enough. *)
Lemma decodeLoop_fuel n : forall m d buf, (length buf <= n)%nat -> (length buf <= m)%nat -> decodeLoop n d buf = decodeLoop m d buf.
Proof.
  induction n as [|n IH]; intros m d [|c buf] Hn Hm; cbn [length] in *; [by destruct m|lia|by destruct m|]. destruct m as [|m]; [lia|].
  rewrite !decodeLoop_S. cbv zeta. pose proof (parse_consumes d (c :: buf)) as Hc. destruct (sErr _) as [[]|]; try done.
  specialize (Hc ltac:(done) ltac:(done)). cbn [length] in Hc. by rewrite (IH m) by lia.
Qed.

Lemma setBuf_id d : saveBuf d = [] -> setBuf d [] (firstField d) = d.
Proof. destruct d. cbn. by intros ->. Qed.

(** The loop over two pieces: what the first one left is put before the second one. *)
Lemma decodeLoop_app n : forall d buf q, (length buf <= n)%nat -> maxStrLen d = 0 -> saveBuf d = [] ->
  decodeLoop (length (buf ++ q)) d (buf ++ q) =
  let '(d1, o1, e1) := decodeLoop n d buf in
  match e1 with
  | Some e => (d1, o1, Some e)
  | None => let '(d2, o2, e2) := decodeLoop (length (saveBuf d1 ++ q)) (setBuf d1 [] (firstField d1)) (saveBuf d1 ++ q) in (d2, o1 ++ o2, e2)
  end.
Proof.
  induction n as [|n IH]; intros d [|c buf] q Hn Hmax Hsave; cbn [length] in Hn; [|lia| |].
  1, 2: cbn [decodeLoop app]; rewrite setBuf_id, Hsave by done; cbn [app]; by destruct (decodeLoop _ _ _) as [[? ?] ?].
  rewrite decodeLoop_S. cbn [app length]. rewrite decodeLoop_S. change (c :: buf ++ q) with ((c :: buf) ++ q). cbv zeta.
  pose proof (parse_settings d (c :: buf)) as (Sm & Se & Ss & Sf & _). pose proof (parse_extend d (c :: buf) q ltac:(done)) as Hext.
  pose proof (parse_more d (c :: buf) ltac:(done)) as Hmore. pose proof (parse_consumes d (c :: buf) ltac:(done)) as Hcons.
  destruct (sErr (parseHeaderFieldRepr d (c :: buf))) as [e|] eqn:He.
  - destruct (decide (e = errNeedMore)) as [->|Hne].
    + destruct (Hmore eq_refl) as [-> ->]. rewrite Hmax. cbn [Z.eqb negb andb]. cbn [saveBuf setBuf firstField].
      change (setBuf (setBuf d (c :: buf) (firstField d)) [] (firstField d)) with (setBuf d [] (firstField d)). rewrite setBuf_id by done.
      cbn [app length]. rewrite decodeLoop_S. cbv zeta. rewrite Hmax. cbn [Z.eqb negb andb app]. change (c :: buf ++ q) with ((c :: buf) ++ q).
      by destruct (match sErr _ with Some _ => _ | None => _ end) as [[? ?] ?].
    + rewrite (Hext ltac:(congruence)). cbn [extend sErr sDec sOut]. rewrite He. by destruct e.
  - rewrite (Hext ltac:(congruence)). cbn [extend sErr sDec sOut sBuf]. rewrite He. specialize (Hcons eq_refl). cbn [length] in Hcons.
    rewrite <- (decodeLoop_fuel (length (sBuf (parseHeaderFieldRepr d (c :: buf)) ++ q))) by (rewrite ?length_app; lia).
    rewrite IH; [|lia|cbn [setBuf maxStrLen]; congruence|cbn [setBuf saveBuf]; congruence].
    destruct (decodeLoop n _ _) as [[d1 o1] [e1|]]; [done|]. destruct (decodeLoop _ _ (saveBuf d1 ++ q)) as [[d2 o2] e2]. by rewrite app_assoc.
Qed.

(** ** Writing in pieces *)

(** The fragments of a header block, up to the first error *)
Fixpoint writeAll (d : Decoder) (fragments : list bytes) : Decoder * list HeaderField * option HpackError :=
  match fragments with
  | [] => (d, [], None)
  | p :: fragments =>
      let '(d, out, err) := Decoder_Write d p in
      match err with
      | Some e => (d, out, Some e)
      | None => let '(d, out', err) := writeAll d fragments in (d, out ++ out', err)
      end
  end.

Lemma decodeLoop_settings n : forall d buf, maxStrLen (decodeLoop n d buf).1.1 = maxStrLen d /\
  allowedMaxSize (decTab (decodeLoop n d buf).1.1) = allowedMaxSize (decTab d).
Proof.
  induction n as [|n IH]; intros d [|c buf]; try done. rewrite decodeLoop_S. cbv zeta. destruct (parse_settings d (c :: buf)) as (Sm & _ & _ & _ & Sa).
  destruct (sErr _) as [[]|]; cbn; try done; [by destruct (_ && _)|].
  specialize (IH (setBuf (sDec (parseHeaderFieldRepr d (c :: buf))) (saveBuf (sDec (parseHeaderFieldRepr d (c :: buf)))) false) (sBuf (parseHeaderFieldRepr d (c :: buf)))).
  destruct (decodeLoop n _ _) as [[d' out] err]. cbn in *. destruct IH. split; congruence.
Qed.

Lemma Write_settings d p : maxStrLen (Decoder_Write d p).1.1 = maxStrLen d.
Proof. unfold Decoder_Write. destruct p; [done|]. by rewrite (proj1 (decodeLoop_settings _ _ _)). Qed.

Lemma Write_app d p q : maxStrLen d = 0 ->
  Decoder_Write d (p ++ q) =
  let '(d, out, err) := Decoder_Write d p in
  match err with
  | Some e => (d, out, Some e)
  | None => let '(d, out', err) := Decoder_Write d q in (d, out ++ out', err)
  end.
Proof.
  intros Hmax. destruct p as [|c p]; [cbn [app Decoder_Write]; by destruct (Decoder_Write d q) as [[? ?] ?]|].
  destruct q as [|c' q].
  - rewrite app_nil_r. destruct (Decoder_Write d (c :: p)) as [[d1 o1] [e|]]; [done|]. cbn. by rewrite app_nil_r.
  - set (p' := c :: p). set (q' := c' :: q). unfold Decoder_Write at 1 2. change (match p' ++ q' with [] => ?a | _ => ?b end) with b.
    change (match p' with [] => ?a | _ => ?b end) with b. cbv zeta.
    rewrite app_assoc, (decodeLoop_app (length (saveBuf d ++ p'))); [|done|done|done]. done.
Qed.

Lemma writeAll_concat fragments : forall d, maxStrLen d = 0 -> writeAll d fragments = Decoder_Write d (concat fragments).
Proof.
  induction fragments as [|p fragments IH]; intros d Hmax; [done|]. cbn [writeAll concat]. rewrite Write_app by done.
  pose proof (Write_settings d p) as Hs. destruct (Decoder_Write d p) as [[d1 o1] [e|]]; [done|]. by rewrite IH by (cbn in Hs; congruence).
Qed.
