(* ===== verification/HpackSpec.v ===== *)
(** * Encoder and decoder of HPACK in step

    An encoder and a decoder that see the same header blocks keep their tables in step: the
    entries of the encoder are the newest ones of the decoder, so that every index the encoder
    writes means the same field to the decoder. *)

From S2P Require Import Prelude Binary Huffman HuffmanSpec Hpack HpackTables HpackCodec HpackChunks.

(** ** Reading a run of bytes *)

(** The loop gets past the bytes, whatever follows them. *)
Definition gets (d : Decoder) (b : bytes) (out : list HeaderField) (d' : Decoder) : Prop :=
  forall r, decodeLoop (length (b ++ r)) d (b ++ r) =
    let '(d2, out2, err) := decodeLoop (length r) d' r in (d2, out ++ out2, err).

Lemma gets_nil d : gets d [] [] d.
Proof. intros r. cbn [app]. by destruct (decodeLoop _ d r) as [[? ?] ?]. Qed.

Lemma gets_app d b out d1 b' out' d2 : gets d b out d1 -> gets d1 b' out' d2 -> gets d (b ++ b') (out ++ out') d2.
Proof.
  intros H1 H2 r. rewrite <- app_assoc, H1, H2. destruct (decodeLoop _ d2 r) as [[? ?] ?]. by rewrite app_assoc.
Qed.

Lemma gets_step d b out d' : b <> [] -> (forall r, parseHeaderFieldRepr d (b ++ r) = mkStep d' out r None) ->
  gets d b out (setBuf d' (saveBuf d') false).
Proof.
  intros Hb Hp r. specialize (Hp r). destruct b as [|c b]; [done|]. cbn [app length] in *. rewrite decodeLoop_S, Hp. cbn [sErr sDec sOut sBuf].
  rewrite (decodeLoop_fuel _ (length r)) by (rewrite ?length_app; lia). done.
Qed.

Lemma gets_all d b out d' : gets d b out d' -> decodeLoop (length b) d b = (d', out, None).
Proof. intros H. specialize (H []). rewrite app_nil_r in H. rewrite H. cbn. by rewrite app_nil_r. Qed.

(** ** Tables in step *)

Record fieldOk (d : Decoder) (f : HeaderField) : Prop := {
  ok_name : strOk d (Name f);
  ok_value : strOk d (Value f);
  ok_bytes : Z.of_nat (length (Name f)) + Z.of_nat (length (Value f)) + 32 < 2 ^ 31;
}.

Lemma Size_ok d f : fieldOk d f -> 32 <= Size f < 2 ^ 31.
Proof. intros [_ _ H]. unfold Size. rewrite wrap_id by (unfold fits; lia). lia. Qed.

Abbreviation entsE e := (ents (table (encTab e))).
Abbreviation entsD d := (ents (table (decTab d))).

Record synced (e : Encoder) (d : Decoder) : Prop := {
  sy_enc : dynOk (encTab e);
  sy_dec : dynOk (decTab d);
  sy_ents : entsE e `suffix_of` entsD d;
  sy_max : tableSizeUpdate e = false -> maxSize (encTab e) <= maxSize (decTab d);
  sy_limit : maxSize (encTab e) <= maxSizeLimit e <= allowedMaxSize (decTab d);
  sy_allowed : maxSize (decTab d) <= allowedMaxSize (decTab d) < 2 ^ 31;
  sy_min : total (entsE e) <= minSize e /\ fits 32 (minSize e) /\ (tableSizeUpdate e = false -> minSize e = uint32Max);
  sy_sizes : Forall (fun f => 32 <= Size f) (entsD d);
  sy_emit : emitEnabled d = true;
  sy_save : saveBuf d = [];
}.

(** The tables after the encoder added a field that the decoder adds too *)
Definition withTab (e : Encoder) (dt : dynamicTable) : Encoder := mkEncoder dt (minSize e) (maxSizeLimit e) (tableSizeUpdate e).

Lemma suffix_Forall {A} (P : A -> Prop) l k : l `suffix_of` k -> Forall P k -> Forall P l.
Proof. intros [p ->]. by intros [_ ?]%Forall_app. Qed.

Definition counted (n : Z) (e : Encoder) (d : Decoder) : Prop := count (encTab e) + n < 2 ^ 64 /\ count (decTab d) + n < 2 ^ 64.

Lemma synced_add e d f n : synced e d -> tableSizeUpdate e = false -> fieldOk d f -> 0 <= n -> counted (n + 1) e d ->
  exists dtE dtD, dynAdd (encTab e) f = Parsed dtE /\ dynAdd (decTab d) f = Parsed dtD /\
    synced (withTab e dtE) (setTab d dtD) /\ counted n (withTab e dtE) (setTab d dtD).
Proof.
  intros [H1 H2 H3 H4 H5 H6 H7 H8 H9 H10] Hu Hf Hn [Hc1 Hc2]. specialize (H4 Hu). pose proof (Size_ok d f Hf).
  destruct (dynAdd_ok (encTab e) f H1) as (dtE & -> & E1 & E2 & E3 & E4 & E5); [lia|lia|].
  destruct (dynAdd_ok (decTab d) f H2) as (dtD & -> & D1 & D2 & D3 & D4 & D5); [lia|lia|].
  exists dtE, dtD. split_and!; [done|done| |unfold counted; cbn; lia].
  assert (Hm : minSize e = uint32Max) by (apply H7, Hu).
  split; cbn; try done; rewrite ?E2, ?E3, ?D2, ?D3, ?D4; try done.
  - apply fit_mono; [lia|]. by apply suffix_snoc.
  - split_and!; [|apply H7|done]. pose proof (ok_max _ H1) as []. pose proof (fit_le (maxSize (encTab e)) (entsE e ++ [f]) ltac:(done)). unfold uint32Max in Hm. lia.
  - eapply suffix_Forall; [apply fit_suffix|]. apply Forall_app. split; [done|]. constructor; [lia|done].
Qed.

(** ** Indices *)

Lemma decoderAt_static d k g : ents staticTable !! k = Some g -> decoderAt d (indexOf true (ents staticTable) k) = Some g /\ 0 < indexOf true (ents staticTable) k < 2 ^ 63.
Proof.
  intros Hk. pose proof (lookup_lt_Some _ _ _ Hk) as Hlt. change (length (ents staticTable)) with 61%nat in Hlt. unfold indexOf, decoderAt, staticLen. split; [|lia].
  destruct (Z.eqb_spec (Z.of_nat k + 1) 0), (Z.leb_spec (Z.of_nat k + 1) 61); try lia. by replace (Z.to_nat (Z.of_nat k + 1 - 1)) with k by lia.
Qed.

Lemma decoderAt_dynamic d l k g : l `suffix_of` entsD d -> Z.of_nat (length (entsD d)) < 2 ^ 62 -> l !! k = Some g ->
  u64 (indexOf false l k + staticLen) = indexOf false l k + staticLen /\ decoderAt d (indexOf false l k + staticLen) = Some g /\
  0 < indexOf false l k + staticLen < 2 ^ 63.
Proof.
  intros [p Hp] Hlen Hk. pose proof (lookup_lt_Some _ _ _ Hk) as Hlt. unfold indexOf, decoderAt, staticLen. rewrite Hp in *. rewrite !length_app in *.
  split_and!; [apply wrap_id; unfold fits; lia| |lia|lia].
  destruct (Z.eqb_spec (Z.of_nat (length l) - Z.of_nat k + 61) 0), (Z.leb_spec (Z.of_nat (length l) - Z.of_nat k + 61) 61),
    (Z.ltb_spec (Z.of_nat (length p + length l) + 61) (Z.of_nat (length l) - Z.of_nat k + 61)); try lia.
  replace (Z.to_nat _) with (length p + k)%nat by lia. by rewrite lookup_app_r, Nat.add_comm, Nat.add_sub by lia.
Qed.

(** What the newest entry has in common with the field *)
Lemma newest_Some l f k b : newest l f = Some (k, b) ->
  exists g, l !! k = Some g /\ Name g = Name f /\ (b = true -> Value g = Value f /\ Sensitive f = false).
Proof.
  unfold newest. destruct (if Sensitive f then None else lastIndex (samePair f) l) as [k'|] eqn:E.
  - intros [= <- <-]. destruct (Sensitive f); [done|]. apply lastIndex_Some in E as (g & Hg & Heq). unfold samePair, hasKey, pairOf in Heq.
    apply bool_decide_eq_true in Heq. exists g. by simplify_eq.
  - destruct (lastIndex (sameName f) l) as [k'|] eqn:E'; [|done]. cbn. intros [= <- <-]. apply lastIndex_Some in E' as (g & Hg & Heq).
    unfold sameName, hasKey in Heq. apply bool_decide_eq_true in Heq. by exists g.
Qed.

(** An index that the encoder found, for the decoder *)
Definition means (d : Decoder) (idx : Z) (match_ : bool) (f : HeaderField) : Prop :=
  0 < idx < 2 ^ 63 /\ exists g, decoderAt d idx = Some g /\ Name g = Name f /\ (match_ = true -> Value g = Value f /\ Sensitive f = false).

Lemma total_length l : Forall (fun f => 32 <= Size f) l -> 32 * Z.of_nat (length l) <= total l.
Proof. induction 1; cbn; lia. Qed.

(** The encoder after a search: its table has its maps. *)
Definition searched (e : Encoder) : Encoder :=
  withTab e (mkDynamicTable (withMaps (table (encTab e))) (size_ (encTab e)) (maxSize (encTab e)) (allowedMaxSize (encTab e))).

Lemma searched_ok e d : synced e d -> synced (searched e) d /\ count (encTab (searched e)) = count (encTab e).
Proof.
  intros Hsy. destruct (search_ok false (table (encTab e)) (mkHeaderField [] [] false) (ok_table _ (sy_enc _ _ Hsy))) as (_ & Hok & He & Hc).
  split; [|unfold count; cbn; by rewrite Hc, He]. destruct Hsy as [[A1 A2 A3 A4] H2 H3 H4 H5 H6 H7 H8 H9 H10].
  split; cbn; rewrite ?He; try done. split; cbn; rewrite ?He; done.
Qed.

Lemma static_means d f k b : newest (ents staticTable) f = Some (k, b) -> means d (indexOf true (ents staticTable) k) b f.
Proof. intros (g & Hg & HN & HV)%newest_Some. destruct (decoderAt_static d k g Hg). split; [done|]. by exists g. Qed.

Lemma dynamic_means e d f k b : synced e d -> newest (entsE e) f = Some (k, b) -> 0 < indexOf false (entsE e) k /\
  u64 (indexOf false (entsE e) k + staticLen) = indexOf false (entsE e) k + staticLen /\ means d (indexOf false (entsE e) k + staticLen) b f.
Proof.
  intros Hsy (g & Hg & HN & HV)%newest_Some. pose proof (total_length _ (sy_sizes _ _ Hsy)). pose proof (ok_fit _ (sy_dec _ _ Hsy)).
  pose proof (ok_size _ (sy_dec _ _ Hsy)). pose proof (sy_allowed _ _ Hsy).
  destruct (decoderAt_dynamic d (entsE e) k g (sy_ents _ _ Hsy)) as (? & ? & ?); [lia|done|]. apply lookup_lt_Some in Hg.
  split; [unfold indexOf; lia|]. split; [done|]. split; [done|]. by exists g.
Qed.

Lemma searchTable_ok e d f : synced e d -> exists idx match_ e', searchTable e f = Parsed (idx, match_, e') /\
  (e' = e \/ e' = searched e) /\ (idx = 0 /\ match_ = false \/ means d idx match_ f).
Proof.
  intros Hsy. unfold searchTable. destruct (search_ok true staticTable f static_ok) as (-> & _). cbn [mbind parsed_bind].
  destruct (search_ok false (table (encTab e)) f (ok_table _ (sy_enc _ _ Hsy))) as (-> & _). cbn [mbind parsed_bind]. fold (searched e).
  destruct (newest (ents staticTable) f) as [[k b]|] eqn:Es; cbn [from_option fst snd].
  - pose proof (static_means d f k b Es) as Hst. destruct b; [eauto 10|]. pose proof (proj1 Hst) as Hpos.
    destruct (Z.eqb_spec (indexOf true (ents staticTable) k) 0); [lia|]. cbn [andb].
    destruct (newest (entsE e) f) as [[k' b']|] eqn:Ed; cbn [from_option fst snd]; rewrite orb_false_r; [|eauto 10].
    destruct (dynamic_means e d f k' b' Hsy Ed) as (_ & -> & Hd). destruct b'; eauto 10.
  - cbn [Z.eqb andb]. destruct (newest (entsE e) f) as [[k' b']|] eqn:Ed; cbn [from_option fst snd]; [|eauto 10].
    destruct (dynamic_means e d f k' b' Hsy Ed) as (Hpos & -> & Hd). destruct (Z.eqb_spec (indexOf false (entsE e) k') 0); [lia|].
    cbn [negb]. rewrite orb_true_r. eauto 10.
Qed.

(** ** One field *)

(** The parser that a first byte selects, in the order of the cases *)
Definition parser (b : Z) : nat :=
  if negb (Z.land b 128 =? 0) then 0%nat else if Z.land b 192 =? 64 then 1%nat else if Z.land b 240 =? 0 then 2%nat
  else if Z.land b 240 =? 16 then 3%nat else if Z.land b 224 =? 32 then 4%nat else 5%nat.

Definition parsers (d : Decoder) : list (bytes -> step) :=
  [parseFieldIndexed d; parseFieldLiteral 6 indexedTrue d; parseFieldLiteral 4 indexedFalse d; parseFieldLiteral 4 indexedNever d;
   parseDynamicTableSizeUpdate d].

Lemma parse_parser d c l f : parsers d !! parser (byteZ c) = Some f -> parseHeaderFieldRepr d (c :: l) = f (c :: l).
Proof. unfold parser, parseHeaderFieldRepr. repeat destruct (negb _); repeat destruct (_ =? _); by intros [= <-]. Qed.

(** The prefix and the flags of each representation *)
Definition flags : list (Z * Z) := [(7, 1); (6, 1); (4, 0); (4, 1); (5, 1)].

Lemma flags_checked : forallb (fun k => match flags !! k with
    | Some (n, y) => forallb (fun h => (parser (h + y * 2 ^ n) =? k)%nat) (seqZ 0 (2 ^ n)) && (0 <=? y) && (y * 2 ^ n + 2 ^ n <=? 256) && (4 <=? n) && (n <=? 7)
    | None => true end) (seq 0 5) = true.
Proof. vm_compute. reflexivity. Qed.

Lemma flags_ok k n y : flags !! k = Some (n, y) -> 0 <= y /\ y * 2 ^ n + 2 ^ n <= 256 /\ 4 <= n <= 7 /\ forall h, fits n h -> parser (h + y * 2 ^ n) = k.
Proof.
  intros Hk. pose proof flags_checked as H. rewrite forallb_forall in H. specialize (H k). rewrite Hk in H.
  rewrite !andb_true_iff, !Z.leb_le in H. destruct H as ((((H1 & H2) & H3) & H4) & H5).
  - apply in_seq. apply lookup_lt_Some in Hk. cbn in Hk. lia.
  - split_and!; try done. intros h Hh. by apply Nat.eqb_eq, (checkedZ _ _ H1 h).
Qed.

Lemma dispatch_ok k n y f i r d : flags !! k = Some (n, y) -> parsers d !! k = Some f -> 0 <= i ->
  parseHeaderFieldRepr d (orFirst (y * 2 ^ n) (appendVarInt n i) ++ r) = f (orFirst (y * 2 ^ n) (appendVarInt n i) ++ r).
Proof.
  intros Hk Hf Hi. destruct (flags_ok k n y Hk) as (Hy & Hlt & Hn & Hp). destruct (flagged_head n y i) as (c & l & h & -> & Hc & Hh); [lia|lia|lia|lia|].
  cbn [app]. apply parse_parser. by rewrite Hc, Hp.
Qed.

Lemma flagged_read k n y i r : flags !! k = Some (n, y) -> 0 <= i < 2 ^ 63 ->
  readVarInt n (orFirst (y * 2 ^ n) (appendVarInt n i) ++ r) = Parsed (i, r).
Proof. intros (Hy & Hlt & Hn & _)%flags_ok Hi. apply readVarInt_ok; lia. Qed.

Lemma flagged_nonempty b n i : orFirst b (appendVarInt n i) <> [].
Proof. pose proof (appendVarInt_nonempty n i). by destruct (appendVarInt n i). Qed.

Lemma callEmit_ok d buf f : fieldOk d f -> emitEnabled d = true -> callEmit d buf f = mkStep d [f] buf None.
Proof.
  intros [[_ H1] [_ H2] _] He. unfold callEmit. rewrite He. destruct (Z.eqb_spec (maxStrLen d) 0); cbn [negb andb]; [done|].
  destruct (Z.ltb_spec (maxStrLen d) (Z.of_nat (length (Name f)))), (Z.ltb_spec (maxStrLen d) (Z.of_nat (length (Value f)))); done || lia.
Qed.

Lemma parse_indexed e d f idx r : synced e d -> fieldOk d f -> means d idx true f ->
  parseHeaderFieldRepr d (appendIndexed idx ++ r) = mkStep d [f] r None.
Proof.
  intros Hsy Hf (Hi & g & Hg & HN & HV). destruct (HV eq_refl) as [HV' HS]. unfold appendIndexed. change 128 with (1 * 2 ^ 7).
  rewrite (dispatch_ok 0 7 1 (parseFieldIndexed d)) by (done || lia). unfold parseFieldIndexed.
  rewrite (flagged_read 0) by (done || lia). cbn [mbind parsed_bind]. rewrite Hg. cbn [orFail]. rewrite HN, HV', <- HS.
  destruct f as [n v s]. apply callEmit_ok; [done|]. apply Hsy.
Qed.

(** The representation of a literal: what its name is in the bytes *)
Definition literalBytes (f : HeaderField) (idx : Z) (indexing : bool) : bytes :=
  if idx =? 0 then appendNewName f indexing else appendIndexedName f idx indexing.

Definition typeOf (f : HeaderField) (indexing : bool) : indexType :=
  if Sensitive f then indexedNever else if indexing then indexedTrue else indexedFalse.

Lemma literal_flags f indexing : (Sensitive f = true -> indexing = false) ->
  exists k y, flags !! k = Some (if indexing then 6 else 4, y) /\ encodeTypeByte indexing (Sensitive f) = y * 2 ^ (if indexing then 6 else 4) /\
    forall d, parsers d !! k = Some (parseFieldLiteral (if indexing then 6 else 4) (typeOf f indexing) d).
Proof.
  intros Hs. unfold typeOf, encodeTypeByte. destruct (Sensitive f); [rewrite Hs by done; by exists 3%nat, 1|].
  destruct indexing; [by exists 1%nat, 1|by exists 2%nat, 0].
Qed.

Lemma literalBytes_eq f idx indexing : 0 <= idx -> literalBytes f idx indexing =
  orFirst (encodeTypeByte indexing (Sensitive f)) (appendVarInt (if indexing then 6 else 4) idx) ++
  (if idx =? 0 then appendHpackString (Name f) else []) ++ appendHpackString (Value f).
Proof.
  intros H0. unfold literalBytes. destruct (Z.eqb_spec idx 0) as [-> |Hne]; [|done]. unfold appendNewName, encodeTypeByte.
  by destruct (Sensitive f), indexing.
Qed.

Lemma readLiteral_ok e d f idx n y k it r fd : synced e d -> fieldOk d f -> idx = 0 \/ means d idx false f -> flags !! k = Some (n, y) ->
  literalField d it (inl (Name f)) (mkUndecoded false (Value f)) = Parsed fd ->
  readLiteral n it d (orFirst (y * 2 ^ n) (appendVarInt n idx) ++ ((if idx =? 0 then appendHpackString (Name f) else []) ++ appendHpackString (Value f)) ++ r) = Parsed (fd, r).
Proof.
  intros Hsy [Hn Hv _] Hidx Hk Hfd. unfold readLiteral. rewrite (flagged_read k) by (done || destruct Hidx as [-> |[? _]]; lia). cbn [mbind parsed_bind].
  unfold literalField in Hfd |- *. rewrite (sy_emit _ _ Hsy) in *. cbn [orb mbind parsed_bind] in *.
  destruct (readString_ok d (Value f) r Hv) as (uv & Hrv & Hdv). change (decodeString d (mkUndecoded false (Value f))) with (Parsed (Value f)) in Hfd. cbn [mbind parsed_bind] in Hfd.
  unfold readName. destruct Hidx as [-> |[Hi (g & Hg & HN & _)]].
  - cbn [Z.eqb Z.ltb Z.compare]. rewrite <- app_assoc. destruct (readString_ok d (Name f) (appendHpackString (Value f) ++ r) Hn) as (un & -> & Hdn).
    cbn [mbind parsed_bind]. rewrite Hrv. cbn [mbind parsed_bind]. rewrite Hdn. cbn [mbind parsed_bind]. rewrite Hdv. cbn [mbind parsed_bind]. by rewrite Hfd.
  - destruct (Z.eqb_spec idx 0), (Z.ltb_spec 0 idx); try lia. rewrite Hg. cbn [mbind parsed_bind app]. rewrite Hrv. cbn [mbind parsed_bind]. rewrite Hdv. cbn [mbind parsed_bind].
    by rewrite HN, Hfd.
Qed.

Lemma parse_literal e d f idx indexing r fd : synced e d -> fieldOk d f -> idx = 0 \/ means d idx false f ->
  (Sensitive f = true -> indexing = false) ->
  literalField d (typeOf f indexing) (inl (Name f)) (mkUndecoded false (Value f)) = Parsed fd ->
  parseHeaderFieldRepr d (literalBytes f idx indexing ++ r) =
  callEmit (setTab d fd.2) r (mkHeaderField (Name fd.1) (Value fd.1) (sensitive (typeOf f indexing))).
Proof.
  intros Hsy Hf Hidx Hs Hfd. assert (0 <= idx) by (destruct Hidx as [-> |[? _]]; lia). rewrite literalBytes_eq by done.
  destruct (literal_flags f indexing Hs) as (k & y & Hk & -> & Hp). rewrite <- app_assoc, (dispatch_ok k _ _ _ _ _ _ Hk (Hp d)) by done.
  rewrite parseFieldLiteral_run. unfold run. rewrite (readLiteral_ok e d f idx _ _ k _ _ fd) by done. by destruct fd.
Qed.

Lemma fieldOk_settings d d' f : maxStrLen d' = maxStrLen d -> fieldOk d f -> fieldOk d' f.
Proof. intros Hm [H1 H2 H3]. split; unfold strOk in *; by rewrite ?Hm. Qed.

(** One field: what the encoder writes is the field for the decoder, and they stay in step. *)
Lemma field_step e d f n : synced e d -> tableSizeUpdate e = false -> fieldOk d f -> 0 <= n -> counted (n + 1) e d ->
  exists b e' d', WriteField e f = Parsed (b, e') /\ b <> [] /\ (forall r, parseHeaderFieldRepr d (b ++ r) = mkStep d' [f] r None) /\
    synced e' d' /\ tableSizeUpdate e' = false /\ counted n e' d' /\ maxStrLen d' = maxStrLen d.
Proof.
  intros Hsy Hu Hf Hn Hc. unfold WriteField. rewrite Hu. destruct (searchTable_ok e d f Hsy) as (idx & match_ & e1 & -> & He1 & Hidx). cbn [mbind parsed_bind].
  assert (Hsy1 : synced e1 d /\ tableSizeUpdate e1 = false /\ counted (n + 1) e1 d).
  { unfold counted in *. destruct (searched_ok e d Hsy) as [? Hce]. destruct He1 as [-> | ->]; [done|]. rewrite Hce. by destruct Hc. }
  clear Hsy He1 Hc Hu. destruct Hsy1 as (Hsy & Hu & Hc). destruct match_.
  - destruct Hidx as [[_ ?]|Hm]; [done|]. exists (appendIndexed idx), e1, d. split_and!; try done.
    + apply flagged_nonempty.
    + intros r. by eapply parse_indexed.
    + unfold counted in *. lia.
  - assert (Hidx' : idx = 0 \/ means d idx false f) by naive_solver. clear Hidx.
    change (if idx =? 0 then _ else _) with (literalBytes f idx (shouldIndex e1 f)).
    assert (Hs : Sensitive f = true -> shouldIndex e1 f = false) by (unfold shouldIndex; by intros ->).
    assert (Hne : literalBytes f idx (shouldIndex e1 f) <> []).
    { rewrite literalBytes_eq by (destruct Hidx' as [-> |[? _]]; lia). pose proof (flagged_nonempty (encodeTypeByte (shouldIndex e1 f) (Sensitive f)) (if shouldIndex e1 f then 6 else 4) idx).
      by destruct (orFirst _ _). }
    assert (Hpl := fun r => parse_literal e1 d f idx (shouldIndex e1 f) r). destruct (shouldIndex e1 f) eqn:Hsi.
    + assert (HS : Sensitive f = false) by (unfold shouldIndex in Hsi; by destruct (Sensitive f)). destruct f as [name value s]. cbn in HS. subst s.
      destruct (synced_add e1 d (mkHeaderField name value false) n Hsy Hu Hf Hn Hc) as (dtE & dtD & -> & HD & Hsy' & Hc'). cbn [mbind parsed_bind].
      eexists (literalBytes _ idx true), _, (setTab d dtD). split; [done|]. split_and!; try done. intros r.
      rewrite (Hpl r (mkHeaderField name value false, dtD)); [|done|done|done|done|].
      * apply callEmit_ok; [by apply (fieldOk_settings d)|apply Hsy].
      * unfold literalField, typeOf. cbn [Sensitive indexed]. rewrite orb_true_r. cbn. by rewrite HD.
    + cbn [mbind parsed_bind]. eexists (literalBytes _ idx false), _, d. split; [done|]. split_and!; try done; [|unfold counted in *; lia]. intros r.
      rewrite (Hpl r (mkHeaderField (Name f) (Value f) false, decTab d)); [|done|done|done|done|].
      * cbn [fst snd Name Value]. replace (mkHeaderField _ _ _) with f by (unfold typeOf; destruct f as [? ? []]; done). replace (setTab d (decTab d)) with d by (by destruct d). apply callEmit_ok; [done|apply Hsy].
      * unfold literalField, typeOf. rewrite (sy_emit _ _ Hsy). by destruct (Sensitive f).
Qed.

(** ** Size updates *)

Definition settle (e : Encoder) : Encoder := mkEncoder (encTab e) uint32Max (maxSizeLimit e) false.

Definition updates (e : Encoder) : bytes :=
  (if minSize e <? maxSize (encTab e) then appendTableSize (minSize e) else []) ++ appendTableSize (maxSize (encTab e)).

Lemma WriteField_pending e f : tableSizeUpdate e = true -> WriteField e f = ('(b, e') ← WriteField (settle e) f; Parsed (updates e ++ b, e')).
Proof.
  intros Hu. unfold WriteField. rewrite Hu. cbn [settle tableSizeUpdate]. fold (settle e). destruct (searchTable (settle e) f) as [[[idx m] e1]|]; cbn [mbind parsed_bind]; [|done].
  destruct m; [done|]. destruct (if shouldIndex e1 f then _ else _) as [e2|]; done.
Qed.

Lemma fit_empty max l : max < 32 -> Forall (fun f => 32 <= Size f) l -> fit max l = [].
Proof.
  intros Hm. induction 1 as [|f l Hf _ IH]; [done|]. cbn [fit]. pose proof (total_nonneg l). destruct (Z.ltb_spec max (total (f :: l))) as [|Hle]; [done|]. cbn in Hle. lia.
Qed.

(** One update, at the start of a block or with an empty table *)
Lemma update_step d v r : dynOk (decTab d) -> firstField d = true \/ entsD d = [] -> fits 32 v -> v <= allowedMaxSize (decTab d) ->
  exists dt, setMaxSize (decTab d) v = Parsed dt /\ parseHeaderFieldRepr d (appendTableSize v ++ r) = mkStep (setTab d dt) [] r None.
Proof.
  intros Hok Hfirst Hv Ha. unfold fits in Hv. destruct (setMaxSize_ok (decTab d) v Hok Hv) as (dt & E & _). exists dt. split; [done|].
  unfold appendTableSize. change 32 with (1 * 2 ^ 5). rewrite (dispatch_ok 4 5 1 (parseDynamicTableSizeUpdate d)) by (done || lia). unfold parseDynamicTableSizeUpdate.
  assert (negb (firstField d) && (0 <? size_ (decTab d)) = false) as ->.
  { destruct Hfirst as [-> |He]; [done|]. by rewrite (ok_size _ Hok), He, andb_false_r. }
  rewrite (flagged_read 4) by (done || lia). cbn [mbind parsed_bind]. destruct (Z.ltb_spec (allowedMaxSize (decTab d)) v); [lia|].
  rewrite (wrap_id 32) by done. by rewrite E.
Qed.

(** At most one update with entries left in the table *)
Definition calm (e : Encoder) : Prop := tableSizeUpdate e = false \/ maxSize (encTab e) <= minSize e \/ minSize e < 32.

(** The decoder after an update to [v] *)
Lemma synced_update e d v : synced e d -> tableSizeUpdate e = true -> firstField d = true \/ entsD d = [] -> fits 32 v -> total (entsE e) <= v ->
  v <= allowedMaxSize (decTab d) ->
  exists d', gets d (appendTableSize v) [] d' /\ synced e d' /\ maxSize (decTab d') = v /\ entsD d' = fit v (entsD d) /\
    count (decTab d') = count (decTab d) /\ maxStrLen d' = maxStrLen d.
Proof.
  intros Hsy Hu Hfirst Hv Ht Ha. destruct (setMaxSize_ok (decTab d) v (sy_dec _ _ Hsy) Hv) as (dt & E & D1 & D2 & D3 & D4 & D5).
  exists (setBuf (setTab d dt) (saveBuf d) false). split.
  - apply (gets_step d _ [] (setTab d dt)); [apply flagged_nonempty|]. intros r.
    destruct (update_step d v r (sy_dec _ _ Hsy) Hfirst Hv Ha) as (dt' & E' & ->). congruence.
  - destruct Hsy as [H1 H2 H3 H4 H5 H6 H7 H8 H9 H10]. split_and!; try done. split; cbn; rewrite ?D2, ?D3, ?D4; try done; try lia.
    + rewrite <- (fit_small v (entsE e)) by done. by apply fit_mono.
    + by rewrite Hu.
    + eapply suffix_Forall; [apply fit_suffix|done].
Qed.

Lemma synced_settle e d : synced e d -> maxSize (encTab e) <= maxSize (decTab d) -> synced (settle e) d.
Proof.
  intros [H1 H2 H3 H4 H5 H6 H7 H8 H9 H10] Hm. split; cbn; try done. pose proof (ok_fit _ H1). pose proof (ok_size _ H1). pose proof (ok_max _ H1) as [].
  unfold uint32Max. split_and!; [lia|done|done].
Qed.

(** The updates that a resized encoder writes *)
Lemma updates_step e d : synced e d -> tableSizeUpdate e = true -> calm e -> firstField d = true ->
  exists d', gets d (updates e) [] d' /\ synced (settle e) d' /\ count (decTab d') = count (decTab d) /\ maxStrLen d' = maxStrLen d.
Proof.
  intros Hsy Hu Hcalm Hfirst. pose proof (sy_enc _ _ Hsy) as He. pose proof (ok_max _ He) as Hm. pose proof (sy_limit _ _ Hsy) as Hl.
  pose proof (sy_min _ _ Hsy) as (Hmin & Hfit & _). pose proof (ok_fit _ He) as Hf. rewrite (ok_size _ He) in Hf. unfold updates. destruct (Z.ltb_spec (minSize e) (maxSize (encTab e))) as [Hlt|Hge].
  - destruct Hcalm as [? |[? |Hsmall]]; [congruence|lia|].
    destruct (synced_update e d (minSize e) Hsy Hu (or_introl Hfirst) Hfit Hmin) as (d1 & G1 & S1 & M1 & E1 & C1 & L1); [lia|].
    assert (Hempty : entsD d1 = []) by (rewrite E1; apply fit_empty; [done|apply Hsy]).
    destruct (synced_update e d1 (maxSize (encTab e)) S1 Hu (or_intror Hempty) Hm Hf) as (d2 & G2 & S2 & M2 & _ & C2 & L2); [pose proof (sy_limit _ _ S1); lia|].
    exists d2. split_and!; [by apply (gets_app d _ [] d1 _ [])|apply synced_settle; [done|lia]|lia|congruence].
  - destruct (synced_update e d (maxSize (encTab e)) Hsy Hu (or_introl Hfirst) Hm Hf) as (d1 & G1 & S1 & M1 & _ & C1 & L1); [lia|].
    exists d1. split_and!; [done|apply synced_settle; [done|lia]|done|done].
Qed.
