(* ===== verification/HpackBlocks.v ===== *)
(** * Header blocks over a connection

    A sequence of header blocks, each after changes of the size of the encoder's table and each
    arriving in fragments, is decoded to the fields that were encoded. *)

From S2P Require Import Prelude Binary Huffman HuffmanSpec Hpack HpackTables HpackCodec HpackChunks HpackSpec.

(** ** Definitions *)

Inductive resize := SetSize (v : Z) | SetLimit (v : Z).

Record block := mkBlock { resizes : list resize; fields : list HeaderField }.

Definition resizeOne (e : Encoder) (r : resize) : parsed Encoder :=
  match r with SetSize v => Encoder_SetMaxDynamicTableSize e v | SetLimit v => SetMaxDynamicTableSizeLimit e v end.

Fixpoint resizeAll (e : Encoder) (rs : list resize) : parsed Encoder :=
  match rs with [] => Parsed e | r :: rs => e ← resizeOne e r; resizeAll e rs end.

Fixpoint encodeFields (e : Encoder) (fs : list HeaderField) : parsed (bytes * Encoder) :=
  match fs with
  | [] => Parsed ([], e)
  | f :: fs => '(b, e) ← WriteField e f; '(bs, e) ← encodeFields e fs; Parsed (b ++ bs, e)
  end.

Fixpoint encodeBlocks (e : Encoder) (blocks : list block) : parsed (list bytes * Encoder) :=
  match blocks with
  | [] => Parsed ([], e)
  | b :: blocks =>
      e ← resizeAll e (resizes b);
      '(w, e) ← encodeFields e (fields b);
      '(ws, e) ← encodeBlocks e blocks;
      Parsed (w :: ws, e)
  end.

(** The fragments of a block, and then the end of it *)
Definition decodeBlock (d : Decoder) (fragments : list bytes) : Decoder * parsed (list HeaderField) :=
  let '(d, hf, err) := writeAll d fragments in
  match err with
  | Some e => (d, Failed e)
  | None => let '(d, err) := Decoder_Close d in (d, match err with Some e => Failed e | None => Parsed hf end)
  end.

Fixpoint decodeBlocks (d : Decoder) (blocks : list (list bytes)) : list (parsed (list HeaderField)) :=
  match blocks with
  | [] => []
  | b :: blocks => let '(d, r) := decodeBlock d b in r :: decodeBlocks d blocks
  end.

Definition resizeOk (allowed : Z) (r : resize) : Prop :=
  match r with SetSize v => fits 32 v | SetLimit v => 0 <= v <= allowed end.

(** One change before a block, or one that empties the table and another *)
Definition calmResizes (rs : list resize) : bool :=
  match rs with [] | [_] => true | [SetSize v; _] => v =? 0 | _ => false end.

Record blockOk (allowed : Z) (b : block) : Prop := {
  bk_resizes : Forall (resizeOk allowed) (resizes b);
  bk_calm : calmResizes (resizes b) = true;
  bk_fields : fields b <> [];
  bk_sizes : Forall (fun f => Z.of_nat (length (Name f)) + Z.of_nat (length (Value f)) + 32 < 2 ^ 31) (fields b);
}.

(** ** Resizing *)

Lemma total_suffix l k : l `suffix_of` k -> total l <= total k.
Proof. intros [p ->]. rewrite total_app. pose proof (total_nonneg p). lia. Qed.

Lemma synced_shrink e d v min limit dt : synced e d -> setMaxSize (encTab e) v = Parsed dt -> fits 32 v -> fits 32 min -> (min = minSize e \/ min = v) ->
  v <= limit <= allowedMaxSize (decTab d) -> synced (mkEncoder dt min limit true) d /\ count dt = count (encTab e) /\ maxSize dt = v.
Proof.
  intros [H1 H2 H3 H4 H5 H6 (H7 & H7' & _) H8 H9 H10] E Hv Hmin Hcase Hl. destruct (setMaxSize_ok (encTab e) v H1 Hv) as (dt' & E' & D1 & D2 & D3 & _ & D5).
  rewrite E in E'. injection E' as <-. split; [|done]. pose proof (fit_le v (entsE e) ltac:(unfold fits in Hv; lia)). pose proof (total_suffix _ _ (fit_suffix v (entsE e))).
  split; cbn; rewrite ?D2, ?D3; try done.
  - etrans; [apply fit_suffix|done].
  - split_and!; [destruct Hcase; lia|done|done].
Qed.

Lemma resize_step e d r : synced e d -> resizeOk (allowedMaxSize (decTab d)) r ->
  exists e', resizeOne e r = Parsed e' /\ synced e' d /\ count (encTab e') = count (encTab e) /\ minSize e' <= minSize e /\
    (calm e -> tableSizeUpdate e = false -> calm e') /\ (r = SetSize 0 -> minSize e' <= 0).
Proof.
  intros Hsy Hr. pose proof (sy_limit _ _ Hsy) as Hl. pose proof (sy_allowed _ _ Hsy) as Ha. pose proof (sy_min _ _ Hsy) as (_ & Hmf & Hm). pose proof (ok_max _ (sy_enc _ _ Hsy)) as Hmax.
  destruct r as [v|v]; cbn [resizeOne resizeOk] in *.
  - unfold Encoder_SetMaxDynamicTableSize. set (v' := if maxSizeLimit e <? v then maxSizeLimit e else v).
    assert (Hv' : fits 32 v' /\ v' <= maxSizeLimit e) by (unfold fits in *; subst v'; destruct (Z.ltb_spec (maxSizeLimit e) v); lia). destruct Hv' as [Hv' Hle].
    destruct (setMaxSize_ok (encTab e) v' (sy_enc _ _ Hsy) Hv') as (dt & E & _). rewrite E. cbn [mbind parsed_bind].
    set (min := if v' <? minSize e then v' else minSize e). assert (Hmin : (min = minSize e \/ min = v') /\ fits 32 min /\ min <= minSize e /\ min <= v').
    { subst min. destruct (Z.ltb_spec v' (minSize e)); split_and!; auto; lia. }
    destruct Hmin as (Hcase & Hfit & Hle' & Hlev). destruct (synced_shrink e d v' min (maxSizeLimit e) dt Hsy E Hv' Hfit Hcase ltac:(lia)) as (S' & C' & M').
    eexists. split; [done|]. split_and!; try done.
    + intros _ Hu. right. left. cbn. rewrite M'. specialize (Hm Hu). subst min. unfold uint32Max, fits in *. destruct (Z.ltb_spec v' (minSize e)); lia.
    + intros [= ->]. cbn. subst v'. unfold fits in *. destruct (Z.ltb_spec (maxSizeLimit e) 0); lia.
  - unfold SetMaxDynamicTableSizeLimit. destruct (Z.ltb_spec v (maxSize (encTab e))) as [Hlt|Hge].
    + assert (Hv : fits 32 v) by (unfold fits in *; lia). destruct (setMaxSize_ok (encTab e) v (sy_enc _ _ Hsy) Hv) as (dt & E & _). rewrite E. cbn [mbind parsed_bind].
      destruct (synced_shrink e d v (minSize e) v dt Hsy E Hv Hmf (or_introl eq_refl) ltac:(lia)) as (S' & C' & M'). eexists. split; [done|]. split_and!; try done.
      intros _ Hu. right. left. cbn. rewrite M', (Hm Hu). unfold uint32Max, fits in *. lia.
    + eexists. split; [done|]. split_and!; try done. destruct Hsy as [H1 H2 H3 H4 H5 H6 H7 H8 H9 H10]. split; cbn; try done. lia.
Qed.

Lemma resizes_step e d rs : synced e d -> tableSizeUpdate e = false -> Forall (resizeOk (allowedMaxSize (decTab d))) rs -> calmResizes rs = true ->
  exists e', resizeAll e rs = Parsed e' /\ synced e' d /\ calm e' /\ count (encTab e') = count (encTab e).
Proof.
  intros Hsy Hu Hrs Hcalm. destruct rs as [|r [|r' [|? ?]]]; [by exists e; split_and!; [..|left|]| | |by destruct r].
  - apply Forall_cons in Hrs as [Hr _]. destruct (resize_step e d r Hsy Hr) as (e' & E & S' & C' & _ & K' & _). exists e'. cbn. rewrite E. split_and!; try done. apply K'; [by left|done].
  - apply Forall_cons in Hrs as [Hr [Hr' _]%Forall_cons]. destruct r as [v|v]; [|done]. cbn in Hcalm. apply Z.eqb_eq in Hcalm as ->.
    destruct (resize_step e d (SetSize 0) Hsy Hr) as (e1 & E1 & S1 & C1 & _ & _ & Z1). destruct (resize_step e1 d r' S1 Hr') as (e2 & E2 & S2 & C2 & M2 & _ & _).
    exists e2. cbn [resizeAll]. rewrite E1. cbn [mbind parsed_bind]. rewrite E2. split_and!; try done; [|congruence]. right. right. specialize (Z1 eq_refl). lia.
Qed.

(** ** Blocks *)

Lemma synced_first e d b : synced e d -> synced e (setBuf d (saveBuf d) b).
Proof. by intros [H1 H2 H3 H4 H5 H6 H7 H8 H9 H10]. Qed.

Lemma Forall_settings d d' fs : maxStrLen d' = maxStrLen d -> Forall (fieldOk d) fs -> Forall (fieldOk d') fs.
Proof. intros Hm H. apply (Forall_impl _ _ _ H). intros f. by apply fieldOk_settings. Qed.

Lemma fields_step fs : forall e d n, synced e d -> tableSizeUpdate e = false -> Forall (fieldOk d) fs -> 0 <= n ->
  counted (n + Z.of_nat (length fs)) e d ->
  exists b e' d', encodeFields e fs = Parsed (b, e') /\ gets d b fs d' /\ synced e' d' /\ tableSizeUpdate e' = false /\ counted n e' d' /\ maxStrLen d' = maxStrLen d.
Proof.
  induction fs as [|f fs IH]; intros e d n Hsy Hu Hf Hn Hc; cbn [encodeFields length] in *.
  - exists [], e, d. split_and!; try done; [apply gets_nil|]. by rewrite Z.add_0_r in Hc.
  - apply Forall_cons in Hf as [Hf Hfs]. destruct (field_step e d f (n + Z.of_nat (length fs)) Hsy Hu Hf) as (b & e1 & d1 & -> & Hb & Hp & S1 & U1 & C1 & M1); [lia| |].
    { by replace (n + Z.of_nat (length fs) + 1) with (n + Z.of_nat (S (length fs))) by lia. }
    destruct (IH e1 (setBuf d1 (saveBuf d1) false) n) as (bs & e2 & d2 & E2 & G2 & S2 & U2 & C2 & M2); [by apply synced_first|done|by apply (Forall_settings d)|done|done|].
    cbn [mbind parsed_bind]. rewrite E2. cbn [mbind parsed_bind]. exists (b ++ bs), e2, d2. split_and!; try done; [|cbn in M2; congruence].
    apply (gets_app d b [f] (setBuf d1 (saveBuf d1) false) bs fs); [by apply gets_step|done].
Qed.

(** A block with the updates before it *)
Lemma block_bytes fs e d n : synced e d -> calm e -> firstField d = true -> fs <> [] -> Forall (fieldOk d) fs -> 0 <= n ->
  counted (n + Z.of_nat (length fs)) e d ->
  exists b e' d', encodeFields e fs = Parsed (b, e') /\ gets d b fs d' /\ synced e' d' /\ tableSizeUpdate e' = false /\ counted n e' d' /\ maxStrLen d' = maxStrLen d.
Proof.
  intros Hsy Hcalm Hfirst Hne Hf Hn Hc. destruct (tableSizeUpdate e) eqn:Hu; [|by apply fields_step].
  destruct (updates_step e d Hsy Hu Hcalm Hfirst) as (d1 & G1 & S1 & C1 & M1).
  destruct (fields_step fs (settle e) d1 n S1 eq_refl) as (b & e2 & d2 & E2 & G2 & S2 & U2 & C2 & M2); [by apply (Forall_settings d)|done|unfold counted in *; cbn; lia|].
  destruct fs as [|f fs]; [done|]. exists (updates e ++ b), e2, d2. cbn [encodeFields] in *. rewrite WriteField_pending by done.
  destruct (WriteField (settle e) f) as [[bf ef]|]; cbn [mbind parsed_bind] in *; [|done]. destruct (encodeFields ef fs) as [[bs es]|]; cbn [mbind parsed_bind] in *; [|done].
  injection E2 as <- <-. split; [by rewrite <- app_assoc|]. split_and!; try done; [|congruence]. by apply (gets_app d (updates e) [] d1 _ (f :: fs)).
Qed.

Lemma decodeBlock_ok d b fs d' fragments : saveBuf d = [] -> saveBuf d' = [] -> gets d b fs d' -> fs <> [] -> maxStrLen d = 0 -> concat fragments = b ->
  decodeBlock d fragments = (setBuf d' [] true, Parsed fs).
Proof.
  intros S S' G Hne Hmax Hb. unfold decodeBlock. rewrite writeAll_concat, Hb by done. apply gets_all in G. unfold Decoder_Write.
  destruct b as [|c b]; [cbn in G; congruence|]. rewrite S. cbn [app]. rewrite setBuf_id, G by done. unfold Decoder_Close. by rewrite S'.
Qed.

Fixpoint fieldCount (blocks : list block) : Z := match blocks with [] => 0 | b :: blocks => Z.of_nat (length (fields b)) + fieldCount blocks end.

Lemma fieldCount_nonneg blocks : 0 <= fieldCount blocks.
Proof. induction blocks; cbn; lia. Qed.

Lemma synced_close e d : synced e d -> synced e (setBuf d [] true).
Proof. by intros [H1 H2 H3 H4 H5 H6 H7 H8 H9 H10]. Qed.

Lemma blocks_step blocks : forall e d, synced e d -> tableSizeUpdate e = false -> firstField d = true -> maxStrLen d = 0 ->
  Forall (blockOk (allowedMaxSize (decTab d))) blocks -> counted (fieldCount blocks) e d ->
  exists ws e', encodeBlocks e blocks = Parsed (ws, e') /\
    forall fragments, @concat Byte.byte <$> fragments = ws -> decodeBlocks d fragments = (fun b => Parsed (fields b)) <$> blocks.
Proof.
  induction blocks as [|b blocks IH]; intros e d Hsy Hu Hfirst Hmax Hok Hc; cbn [encodeBlocks].
  - exists [], e. split; [done|]. by intros [|? ?].
  - apply Forall_cons in Hok as [[Hr Hcalm Hne Hs] Hbs]. cbn in Hc. pose proof (fieldCount_nonneg blocks) as H0.
    destruct (resizes_step e d (resizes b) Hsy Hu Hr Hcalm) as (e1 & -> & S1 & K1 & C1). cbn [mbind parsed_bind].
    destruct (block_bytes (fields b) e1 d (fieldCount blocks) S1 K1 Hfirst Hne) as (w & e2 & d2 & -> & G2 & S2 & U2 & C2 & M2); [|done|unfold counted in *; lia|].
    { apply (Forall_impl _ _ _ Hs). intros f Hf. split; [unfold strOk; lia|unfold strOk; lia|done]. }
    cbn [mbind parsed_bind]. assert (Ha : allowedMaxSize (decTab d2) = allowedMaxSize (decTab d)).
    { apply gets_all in G2. pose proof (decodeLoop_settings (length w) d w) as [_ Hs2]. by rewrite G2 in Hs2. }
    destruct (IH e2 (setBuf d2 [] true)) as (ws & e3 & -> & Hdec); [by apply synced_close|done|done|cbn; congruence|cbn; by rewrite Ha|done|].
    exists (w :: ws), e3. split; [done|]. intros [|fr fragments]; [done|]. intros [= Hw Hws]. cbn [decodeBlocks].
    rewrite (decodeBlock_ok d w (fields b) d2); [|apply Hsy|apply S2|done|done|done|done]. cbn. f_equal. by apply Hdec.
Qed.

Lemma new_synced allowed : initialHeaderTableSize <= allowed < 2 ^ 31 -> exists e d, NewEncoder = Parsed e /\ NewDecoder allowed = Parsed d /\
  synced e d /\ tableSizeUpdate e = false /\ firstField d = true /\ maxStrLen d = 0 /\ allowedMaxSize (decTab d) = allowed /\ count (encTab e) = 0 /\ count (decTab d) = 0.
Proof.
  unfold initialHeaderTableSize. intros Ha. assert (Hempty : tableOk emptyTable) by done.
  assert (Hok : forall v, dynOk (mkDynamicTable emptyTable 0 0 v)) by done.
  destruct (setMaxSize_ok _ allowed (Hok allowed)) as (dd & D0 & D1 & D2 & D3 & D4 & D5); [unfold fits; lia|].
  destruct (setMaxSize_ok _ initialHeaderTableSize (Hok 0)) as (de & E0 & E1 & E2 & E3 & E4 & E5); [done|]. unfold NewEncoder, NewDecoder. rewrite D0, E0.
  cbn in D2, D4, D5, E2, E4, E5. eexists _, _. split; [done|]. split; [done|]. split_and!; try done. unfold initialHeaderTableSize in E3. split; cbn; rewrite ?D2, ?D3, ?D4, ?E2, ?E3; try done; unfold initialHeaderTableSize; lia.
Qed.

(** * The decoder of HPACK on hostile input

    Whatever bytes a peer sends, the decoder does not panic, its table stays within the size that
    was advertised and the fields it emits stay within the limit for strings. *)

Definition notPanic (e : HpackError) : Prop := match e with Panic _ => False | _ => True end.

(** A call that does not panic, and what holds of its result *)
Definition yields {A} (m : parsed A) (P : A -> Prop) : Prop := match m with Parsed a => P a | Failed e => notPanic e end.

Lemma yields_bind {A B} (m : parsed A) (f : A -> parsed B) P Q : yields m P -> (forall a, P a -> yields (f a) Q) -> yields (a ← m; f a) Q.
Proof. destruct m as [a|e]; cbn; [|done]. intros H HQ. by apply HQ. Qed.

Lemma yields_impl {A} (m : parsed A) (P Q : A -> Prop) : yields m P -> (forall a, P a -> Q a) -> yields m Q.
Proof. destruct m; cbn; auto. Qed.

(** ** Huffman decoding *)

(** Every leaf of the tree uses a bit at least and a byte at most. *)
Fixpoint wfNode (fuel : nat) (n : node) : bool :=
  match n, fuel with
  | Leaf codeLen _, _ => (1 <=? codeLen) && (codeLen <=? 8)
  | Internal children, S fuel => forallb (fun o => match o with Some n => wfNode fuel n | None => true end) children
  | Internal _, O => false
  end.

Lemma root_wf : wfNode 5 buildRootHuffmanNode = true.
Proof. vm_compute. reflexivity. Qed.

Definition wf (n : node) : Prop := exists fuel, wfNode fuel n = true.

Lemma child_wf n idx m : wf n -> child n idx = Some m -> wf m.
Proof.
  intros [fuel H] Hc. destruct n as [|children]; [done|]. destruct fuel as [|fuel]; [done|]. cbn in H, Hc. exists fuel.
  rewrite forallb_forall in H. destruct (children !! Z.to_nat idx) as [o|] eqn:E; [|done]. cbn in Hc. subst o.
  apply (H (Some m)). by apply list_elem_of_In, list_elem_of_lookup_2 with (Z.to_nat idx).
Qed.

Section huffman.
Context (maxLen : Z).

Definition within (buf : bytes) : Prop := maxLen = 0 \/ Z.of_nat (length buf) <= maxLen.

Lemma within_snoc buf c : within buf -> full maxLen buf = false -> within (buf ++ [c]).
Proof.
  unfold within, full. rewrite length_app. cbn. intros [->|Hle] Hf; [by left|]. destruct (Z.eqb_spec maxLen 0); [by left|]. right. cbn in Hf. apply Z.eqb_neq in Hf. lia.
Qed.

Definition huffOk (st : huffState) : Prop := wf (hNode st) /\ 0 <= cbits st /\ within (hBuf st).

Lemma symbols_safe fuel : forall st, huffOk st -> (Z.to_nat (cbits st) <= fuel)%nat ->
  yields (symbols buildRootHuffmanNode maxLen fuel st) (fun st => huffOk st /\ cbits st < 8).
Proof.
  assert (Hroot : wf buildRootHuffmanNode) by (by exists 5%nat; apply root_wf).
  induction fuel as [|fuel IH]; intros [n cur cbits sbits buf] (Hn & H0 & Hb) Hf; cbn [symbols]; cbn [hNode Huffman.cbits hBuf] in *;
    (destruct (Z.ltb_spec cbits 8); [by split|]); [lia|].
  destruct (child n _) as [m|] eqn:E; [|done]. pose proof (child_wf _ _ _ Hn E) as Hm. destruct m as [codeLen sym|children].
  - destruct (full maxLen buf) eqn:Hfull; [done|]. destruct Hm as [k Hm]. assert (1 <= codeLen <= 8) by (destruct k; cbn in Hm; rewrite andb_true_iff, !Z.leb_le in Hm; lia).
    apply IH; [|cbn; lia]. split_and!; cbn; [done|lia|by apply within_snoc].
  - apply IH; [|cbn; lia]. split_and!; cbn; [done|lia|done].
Qed.

Lemma huffBytes_safe v : forall st, huffOk st -> cbits st < 8 -> yields (huffBytes buildRootHuffmanNode maxLen v st) (fun st => huffOk st /\ cbits st < 8).
Proof.
  induction v as [|b v IH]; intros [n cur cbits sbits buf] (Hn & H0 & Hb) Hlt; cbn [hNode Huffman.cbits hBuf] in *; [done|]. cbn [huffBytes].
  eapply yields_bind; [apply symbols_safe; [split_and!; cbn; [done| |done]|]; cbn; rewrite wrap_id by (unfold fits; lia); lia|]. intros st [Hst Hst']. by apply IH.
Qed.

Lemma lastSymbols_safe fuel : forall st, huffOk st -> (Z.to_nat (cbits st) <= fuel)%nat ->
  yields (lastSymbols buildRootHuffmanNode maxLen fuel st) huffOk.
Proof.
  assert (Hroot : wf buildRootHuffmanNode) by (by exists 5%nat; apply root_wf).
  induction fuel as [|fuel IH]; intros [n cur cbits sbits buf] (Hn & H0 & Hb) Hf; cbn [lastSymbols]; cbn [hNode Huffman.cbits hBuf] in *;
    (destruct (Z.leb_spec cbits 0); [done|]); [lia|].
  destruct (child n _) as [m|] eqn:E; [|done]. pose proof (child_wf _ _ _ Hn E) as Hm. destruct m as [codeLen sym|children]; [|done].
  destruct (Z.ltb_spec cbits codeLen); [done|]. destruct (full maxLen buf) eqn:Hfull; [done|]. destruct Hm as [k Hm].
  assert (1 <= codeLen <= 8) by (destruct k; cbn in Hm; rewrite andb_true_iff, !Z.leb_le in Hm; lia).
  apply IH; [|cbn; lia]. split_and!; cbn; [done|lia|by apply within_snoc].
Qed.

Lemma huffmanDecode_safe v : 0 <= maxLen -> yields (huffmanDecode maxLen v) within.
Proof.
  intros H0. unfold huffmanDecode, huffmanDecodeFrom. eapply yields_bind.
  { apply huffBytes_safe; [|done]. split_and!; cbn; [by exists 5%nat; apply root_wf|done|right; cbn; lia]. }
  intros st [Hst _]. eapply yields_bind; [by apply lastSymbols_safe|]. intros st' (_ & _ & Hw). destruct (_ <? _); [done|]. by destruct (_ =? _).
Qed.
End huffman.

(** ** Reading *)

Lemma readVarIntRest_safe p : forall i m, yields (readVarIntRest i m p) (fun a => 0 <= a.1).
Proof.
  induction p as [|b p IH]; intros i m; [done|]. cbn [readVarIntRest]. destruct (_ =? 0); [apply wrap_fits; lia|]. destruct (_ <=? _); [done|apply IH].
Qed.

Lemma readVarInt_safe n p : 1 <= n <= 8 -> yields (readVarInt n p) (fun a => 0 <= a.1).
Proof.
  intros Hn. unfold readVarInt. destruct (Z.ltb_spec n 1), (Z.ltb_spec 8 n); try lia. cbn [orb]. destruct p as [|b p]; [done|].
  destruct (_ <? Z.shiftl 1 n - 1); [|apply readVarIntRest_safe]. pose proof (byteZ_fits b) as [? _]. cbn. destruct (n <? 8); [apply Z.land_nonneg; by left|done].
Qed.

Section limits.
Context (L allowed : Z) (HL : 0 < L < 2 ^ 29) (Hallowed : 0 <= allowed < 2 ^ 31).

(** A string that was read, and one of a table: the static one has strings longer than a short
    limit *)
Definition short (s : bytes) : Prop := Z.of_nat (length s) <= L.
Definition kept (s : bytes) : Prop := Z.of_nat (length s) <= Z.max L 64.
Definition keptField (f : HeaderField) : Prop := kept (Name f) /\ kept (Value f).

Record decoderOk (d : Decoder) : Prop := {
  dk_table : dynOk (decTab d);
  dk_max : maxSize (decTab d) <= allowed;
  dk_allowed : allowedMaxSize (decTab d) = allowed;
  dk_limit : maxStrLen d = L;
  dk_ents : Forall keptField (ents (table (decTab d)));
}.

Lemma readString_safe d p : maxStrLen d = L -> yields (readString d p) (fun a => short (ub a.1)).
Proof.
  intros Hd. unfold readString. destruct p as [|b p]; [done|]. eapply yields_bind; [apply readVarInt_safe; lia|]. intros [n rest] Hn. cbn in Hn.
  rewrite Hd, (wrap_id 64) by (unfold fits; lia). destruct (Z.eqb_spec L 0); [lia|]. cbn [negb andb]. destruct (Z.ltb_spec L n); [done|]. destruct (_ <? _); [done|].
  cbn. unfold short. rewrite length_take. lia.
Qed.

Lemma decodeString_safe d u : maxStrLen d = L -> short (ub u) -> yields (decodeString d u) short.
Proof.
  intros Hd Hu. unfold decodeString. destruct (isHuff u); cbn [negb]; [|done]. rewrite Hd. eapply yields_impl; [apply huffmanDecode_safe; lia|].
  intros s [?|?]; [lia|done].
Qed.

Lemma static_short : forallb (fun f => (Z.of_nat (length (Name f)) <=? 64) && (Z.of_nat (length (Value f)) <=? 64)) (ents staticTable) = true.
Proof. vm_compute. reflexivity. Qed.

Lemma decoderAt_kept d i f : decoderOk d -> decoderAt d i = Some f -> keptField f.
Proof.
  intros Hd. unfold decoderAt. destruct (_ =? 0); [done|]. destruct (i <=? staticLen).
  - intros Hf%list_elem_of_lookup_2%list_elem_of_In. pose proof static_short as H. rewrite forallb_forall in H. specialize (H f Hf).
    rewrite andb_true_iff, !Z.leb_le in H. unfold keptField, kept. lia.
  - destruct (_ <? _); [done|]. intros Hf%list_elem_of_lookup_2. by apply (Forall_forall _ _) with (1 := dk_ents _ Hd).
Qed.

Lemma short_kept s : short s -> kept s.
Proof. unfold short, kept. lia. Qed.

Lemma kept_Size f : keptField f -> Size f < 2 ^ 31.
Proof. intros [H1 H2]. unfold kept, Size in *. rewrite wrap_id by (unfold fits; lia). lia. Qed.

(** ** One representation *)

Definition shortField (f : HeaderField) : Prop := short (Name f) /\ short (Value f).

Record safeStep (d : Decoder) (s : step) : Prop := {
  ss_dec : decoderOk (sDec s);
  ss_count : count (decTab (sDec s)) <= count (decTab d) + 1;
  ss_err : from_option notPanic True (sErr s);
  ss_out : Forall shortField (sOut s);
}.

Lemma safe_fail d buf e : decoderOk d -> notPanic e -> safeStep d (mkStep d [] buf (Some e)).
Proof. intros Hd He. split; cbn; try done. lia. Qed.

Lemma safe_orFail {A} d buf (m : parsed A) k P : decoderOk d -> yields m P -> (forall a, P a -> safeStep d (k a)) -> safeStep d (orFail d buf m k).
Proof. intros Hd Hm Hk. destruct m as [a|e]; cbn in *; [by apply Hk|by apply safe_fail]. Qed.

Lemma safe_emit d d' buf f : decoderOk d' -> count (decTab d') <= count (decTab d) + 1 -> safeStep d (callEmit d' buf f).
Proof.
  intros Hd Hc. unfold callEmit. rewrite (dk_limit _ Hd). destruct (Z.eqb_spec L 0); [lia|]. cbn [negb andb].
  destruct (Z.ltb_spec L (Z.of_nat (length (Name f)))), (Z.ltb_spec L (Z.of_nat (length (Value f)))); cbn [orb]; split; cbn; try done.
  destruct (emitEnabled d'); [|done]. by repeat constructor.
Qed.

Lemma readName_safe d i p : decoderOk d -> yields (readName d i p) (fun a => match a.1 with inl name => kept name | inr u => short (ub u) end).
Proof.
  intros Hd. unfold readName. destruct (0 <? i).
  - destruct (decoderAt d i) as [f|] eqn:E; [|done]. cbn. apply (decoderAt_kept _ _ _ Hd E).
  - eapply yields_bind; [apply readString_safe, Hd|]. by intros [u rest].
Qed.

Lemma dynAdd_safe d f : decoderOk d -> keptField f -> count (decTab d) + 1 < 2 ^ 64 ->
  yields (dynAdd (decTab d) f) (fun dt => decoderOk (setTab d dt) /\ count dt <= count (decTab d) + 1).
Proof.
  intros [H1 H2 H3 H4 H5] Hf Hc. pose proof (kept_Size f Hf). destruct (dynAdd_ok (decTab d) f H1) as (dt & -> & D1 & D2 & D3 & D4 & D5); [lia|done|].
  cbn. split; [|lia]. split; cbn; rewrite ?D2, ?D3, ?D4; try done. destruct (fit_suffix (maxSize (decTab d)) (ents (table (decTab d)) ++ [f])) as [pre Hpre].
  assert (HF : Forall keptField (ents (table (decTab d)) ++ [f])) by (apply Forall_app; split; [done|by constructor]). rewrite Hpre in HF. by apply Forall_app in HF as [_ ?].
Qed.

Lemma literalField_safe d it name u : decoderOk d -> match name with inl name => kept name | inr u => short (ub u) end -> short (ub u) -> count (decTab d) + 1 < 2 ^ 64 ->
  yields (literalField d it name u) (fun fd => decoderOk (setTab d fd.2) /\ count fd.2 <= count (decTab d) + 1).
Proof.
  intros Hd Hname Hu Hc. assert (Hsame : decoderOk (setTab d (decTab d))) by (by destruct d). unfold literalField. destruct (indexed it).
  - rewrite orb_true_r. eapply yields_bind with (P := keptField).
    + eapply yields_bind with (P := kept); [|intros s Hs; eapply yields_bind; [apply decodeString_safe; [apply Hd|done]|]; intros v Hv; split; [done|by apply short_kept]].
      destruct name as [name|un]; [done|]. eapply yields_impl; [apply decodeString_safe; [apply Hd|done]|apply short_kept].
    + intros f Hf. eapply yields_bind; [by apply dynAdd_safe|]. by intros dt [].
  - eapply yields_bind with (P := fun _ => True); [|intros f _; cbn; split; [done|lia]]. destruct (emitEnabled d || false); [|done].
    eapply yields_bind with (P := fun _ => True); [|intros s _; eapply yields_bind; [apply decodeString_safe; [apply Hd|done]|done]].
    destruct name as [name|un]; [done|]. eapply yields_impl; [apply decodeString_safe; [apply Hd|done]|done].
Qed.

Lemma parse_safe d buf : decoderOk d -> count (decTab d) + 1 < 2 ^ 64 -> buf <> [] -> safeStep d (parseHeaderFieldRepr d buf).
Proof.
  intros Hd Hc. destruct buf as [|c buf]; [done|]. intros _.
  destruct (parse_dispatch d (fun f => forall p, safeStep d (f p))) with (c := c) as (f & Hf & ->); [..|apply Hf]; intros.
  - eapply safe_orFail with (P := fun _ => True); [done| |intros [hf rest] _; apply safe_emit; [done|lia]].
    eapply yields_bind; [apply readVarInt_safe; lia|]. intros [i rest] _. by destruct (decoderAt d i).
  - rewrite parseFieldLiteral_run. eapply safe_orFail with (P := fun a => decoderOk (setTab d a.1.2) /\ count a.1.2 <= count (decTab d) + 1); [done| |].
    + eapply yields_bind; [apply readVarInt_safe; lia|]. intros [i r1] _. eapply yields_bind; [by apply readName_safe|]. intros [name r2] Hname.
      eapply yields_bind; [apply readString_safe, Hd|]. intros [u r3] Hu. eapply yields_bind; [by apply literalField_safe|]. by intros [].
    + intros [[hf dt] rest] []. by apply safe_emit.
  - unfold parseDynamicTableSizeUpdate. destruct (_ && _); [by apply safe_fail|].
    eapply safe_orFail with (P := fun a => decoderOk (setTab d a.1) /\ count a.1 = count (decTab d)); [done| |intros [dt rest] [? Hcount]; cbn in Hcount; split; cbn; try done; lia].
    eapply yields_bind; [apply readVarInt_safe; lia|]. intros [size rest] Hsize. cbn in Hsize. destruct Hd as [H1 H2 H3 H4 H5]. rewrite H3.
    destruct (Z.ltb_spec allowed size); [done|]. rewrite (wrap_id 32) by (unfold fits; lia).
    destruct (setMaxSize_ok (decTab d) size H1) as (dt & -> & D1 & D2 & D3 & D4 & D5); [unfold fits; lia|]. cbn. split; [|done]. split; cbn; rewrite ?D2, ?D3, ?D4; try done.
    destruct (fit_suffix size (ents (table (decTab d)))) as [pre Hpre]. rewrite Hpre in H5. by apply Forall_app in H5 as [_ ?].
  - by apply safe_fail.
Qed.

(** ** Any input *)

Lemma decoderOk_buf d b first : decoderOk d -> decoderOk (setBuf d b first).
Proof. by intros [H1 H2 H3 H4 H5]. Qed.

(** The decoder, what it emitted and its error after input of a length *)
Definition safeRun (n : Z) (d : Decoder) (r : Decoder * list HeaderField * option HpackError) : Prop :=
  let '(d', out, err) := r in
  decoderOk d' /\ count (decTab d') + Z.of_nat (length (saveBuf d')) <= count (decTab d) + n /\ from_option notPanic True err /\ Forall shortField out.

Lemma decodeLoop_safe n : forall d buf, decoderOk d -> saveBuf d = [] -> (length buf <= n)%nat -> count (decTab d) + Z.of_nat (length buf) < 2 ^ 64 ->
  safeRun (Z.of_nat (length buf)) d (decodeLoop n d buf).
Proof.
  induction n as [|n IH]; intros d [|c buf] Hd Hs Hn Hc; cbn [length] in *; try lia.
  1, 2: unfold safeRun; cbn; rewrite Hs; split_and!; try done; cbn; lia.
  rewrite decodeLoop_S. cbv zeta. pose proof (parse_safe d (c :: buf) Hd ltac:(lia) ltac:(done)) as [P1 P2 P3 P4]. pose proof (parse_consumes d (c :: buf) ltac:(done)) as Hcons.
  pose proof (parse_more d (c :: buf) ltac:(done)) as Hmore. pose proof (parse_settings d (c :: buf)) as (_ & _ & Ss & _). rewrite Hs in Ss.
  set (s := parseHeaderFieldRepr d (c :: buf)) in *. assert (Hsd : Z.of_nat (length (saveBuf (sDec s))) = 0) by (by rewrite Ss).
  destruct (sErr s) as [e|].
  - destruct (decide (e = errNeedMore)) as [->|Hne].
    + destruct (Hmore eq_refl) as [Hm1 Hm2]. rewrite Hm1, Hm2. destruct (_ && _); unfold safeRun; cbn; rewrite ?Hs; cbn; split_and!; try done; try lia. by apply decoderOk_buf.
    + assert (safeRun (Z.of_nat (S (length buf))) d (setBuf (sDec s) (saveBuf (sDec s)) false, sOut s, Some e)); [|by destruct e].
      unfold safeRun. cbn [setBuf decTab saveBuf]. split_and!; try done; [by apply decoderOk_buf|lia].
  - specialize (Hcons eq_refl). cbn [length] in Hcons.
    specialize (IH (setBuf (sDec s) (saveBuf (sDec s)) false) (sBuf s) (decoderOk_buf _ _ _ P1) Ss ltac:(lia) ltac:(cbn [setBuf decTab]; lia)).
    destruct (decodeLoop n _ _) as [[d' out] err]. destruct IH as (R1 & R2 & R3 & R4). cbn [setBuf decTab] in R2. split_and!; try done; [lia|by apply Forall_app].
Qed.

Lemma Write_safe d p : decoderOk d -> count (decTab d) + Z.of_nat (length (saveBuf d)) + Z.of_nat (length p) < 2 ^ 64 ->
  safeRun (Z.of_nat (length (saveBuf d)) + Z.of_nat (length p)) d (Decoder_Write d p).
Proof.
  intros Hd Hc. destruct p as [|c p]; [unfold safeRun; cbn; split_and!; try done; lia|]. unfold Decoder_Write.
  pose proof (decodeLoop_safe (length (saveBuf d ++ c :: p)) (setBuf d [] (firstField d)) (saveBuf d ++ c :: p) (decoderOk_buf _ _ _ Hd) eq_refl ltac:(done)) as H.
  assert (Hl : Z.of_nat (length (saveBuf d)) + Z.of_nat (length (c :: p)) = Z.of_nat (length (saveBuf d ++ c :: p))) by (rewrite length_app; lia).
  rewrite Hl. apply H. cbn [setBuf decTab]. lia.
Qed.

Lemma writeAll_safe fragments : forall d, decoderOk d -> count (decTab d) + Z.of_nat (length (saveBuf d)) + Z.of_nat (length (concat fragments)) < 2 ^ 64 ->
  safeRun (Z.of_nat (length (saveBuf d)) + Z.of_nat (length (concat fragments))) d (writeAll d fragments).
Proof.
  induction fragments as [|p fragments IH]; intros d Hd Hc; cbn [writeAll concat]; [unfold safeRun; cbn in *; split_and!; try done; lia|]. cbn [concat] in Hc. rewrite length_app in *.
  pose proof (Write_safe d p Hd ltac:(lia)) as H. destruct (Decoder_Write d p) as [[d1 o1] [e|]]; destruct H as (W1 & W2 & W3 & W4); [unfold safeRun; split_and!; try done; lia|].
  specialize (IH d1 W1 ltac:(lia)). destruct (writeAll d1 fragments) as [[d2 o2] e2]. destruct IH as (R1 & R2 & R3 & R4). split_and!; try done; [lia|by apply Forall_app].
Qed.
End limits.
