(* ===== verification/HpackClaims.v ===== *)
(** * HPACK: the theorems

    The round trip over a connection, decoding in fragments, the search of the tables and the
    containment of hostile input, with examples. *)

From S2P Require Import Prelude Binary Huffman HuffmanSpec Hpack HpackTables HpackCodec HpackChunks HpackSpec HpackBlocks.

(** C26. A new HPACK encoder and a new decoder that advertised a table size of at
    least the initial 4096 and below 2^31; header blocks that are not empty, with
    fields below 2^31 bytes and fewer than 2^64 in all, each after no change of the
    encoder's table size or limit, after one, or after a size of zero and another
    change, limits within what was advertised: the encoder does not fail and the
    decoder gives back the fields of every block in whatever fragments it arrives. *)
Theorem hpack_roundtrip (allowed : Z) (blocks : list block) (Hallowed : initialHeaderTableSize <= allowed < 2 ^ 31)
    (Hblocks : Forall (blockOk allowed) blocks) (Hcount : fieldCount blocks < 2 ^ 64) :
  exists e d ws e', NewEncoder = Parsed e /\ NewDecoder allowed = Parsed d /\ encodeBlocks e blocks = Parsed (ws, e') /\
    forall fragments, @concat Byte.byte <$> fragments = ws -> decodeBlocks d fragments = (fun b => Parsed (fields b)) <$> blocks.
Proof.
  destruct (new_synced allowed Hallowed) as (e & d & He & Hd & Hsy & Hu & Hf & Hm & Ha & Ce & Cd).
  destruct (blocks_step blocks e d Hsy Hu Hf Hm) as (ws & e' & E & D); [by rewrite Ha|unfold counted; lia|]. by exists e, d, ws, e'.
Qed.

Definition hf (name value : string) : HeaderField := mkHeaderField (stringBytes name) (stringBytes value) false.

(** Two requests of a connection: the second one refers to entries that the first one added,
    after the table was resized. *)
Definition requests : list block :=
  [mkBlock [] [hf ":method" "GET"; hf ":authority" "www.example.com"; hf "cache-control" "no-cache";
               mkHeaderField (stringBytes "authorization") (stringBytes "secret") true];
   mkBlock [SetSize 150] [hf ":method" "GET"; hf ":authority" "www.example.com"; hf "custom-key" "custom-value"];
   mkBlock [SetSize 0; SetSize 4096] [hf "custom-key" "custom-value"; hf "custom-key" "custom-value"]].

Lemma hpack_roundtrip_witness :
  (initialHeaderTableSize <= 4096 < 2 ^ 31 /\ Forall (blockOk 4096) requests /\ fieldCount requests < 2 ^ 64) /\
  exists e d ws e', NewEncoder = Parsed e /\ NewDecoder 4096 = Parsed d /\ encodeBlocks e requests = Parsed (ws, e') /\
    forall fragments, @concat Byte.byte <$> fragments = ws -> decodeBlocks d fragments = (fun b => Parsed (fields b)) <$> requests.
Proof.
  assert (H : initialHeaderTableSize <= 4096 < 2 ^ 31 /\ Forall (blockOk 4096) requests /\ fieldCount requests < 2 ^ 64).
  { split; [done|]. split; [|done]. repeat constructor; done. }
  split; [exact H|]. destruct H as (H1 & H2 & H3). exact (hpack_roundtrip 4096 requests H1 H2 H3).
Defined.

(** The second block of the requests: a size update, two indices and a literal *)
Example requests_bytes :
  match (e ← NewEncoder; encodeBlocks e requests) with
  | Parsed (ws, _) => (fun w => length w) <$> ws
  | Failed _ => []
  end = [30; 24; 25]%nat.
Proof. vm_compute. reflexivity. Qed.

(** The string of the RFC and of the repository's tests *)
Example huffman_example : byteZ <$> AppendHuffmanString [] (stringBytes "www.example.com") =
  [0xf1; 0xe3; 0xc2; 0xe5; 0xf2; 0x3a; 0x6b; 0xa0; 0xab; 0x90; 0xf4; 0xff].
Proof. vm_compute. reflexivity. Qed.

(** An encoder that is resized twice before a block writes two size updates; its decoder accepts
    the second one only if the first one emptied the table. *)
Example two_updates_rejected :
  (e ← NewEncoder; d ← NewDecoder 4096;
   '(ws, _) ← encodeBlocks e [mkBlock [] [hf "a" "b"]; mkBlock [SetSize 100; SetSize 4096] [hf "a" "b"]];
   Parsed (decodeBlocks d ((fun w => [w]) <$> ws))) =
  Parsed [Parsed [hf "a" "b"]; Failed (DecodingError "dynamic table size update MUST occur at the beginning of a header block")].
Proof. vm_compute. reflexivity. Qed.

(** C28. Fragments do not matter: a decoder without a limit for strings that gets a header block
    in any fragments emits the same fields, fails with the same error and ends in the same state
    as one that gets the block at once, whatever the bytes are and wherever they are cut. *)
Theorem hpack_fragments (d : Decoder) (fragments : list bytes) (Hmax : maxStrLen d = 0) :
  writeAll d fragments = Decoder_Write d (concat fragments).
Proof. by apply writeAll_concat. Qed.

Definition freshDecoder : Decoder := mkDecoder (mkDynamicTable emptyTable 0 4096 4096) true 0 [] true.

(** An indexed field, and a literal cut inside its name and before its value *)
Lemma hpack_fragments_witness : maxStrLen freshDecoder = 0 /\
  writeAll freshDecoder [[x82]; []; [x00; x01]; [x61; x01]; [x62]] = Decoder_Write freshDecoder [x82; x00; x01; x61; x01; x62] /\
  (Decoder_Write freshDecoder [x82; x00; x01; x61; x01; x62]).1.2 = [hf ":method" "GET"; hf "a" "b"].
Proof.
  split; [reflexivity|]. split; [exact (hpack_fragments freshDecoder [[x82]; []; [x00; x01]; [x61; x01]; [x62]] eq_refl)|]. vm_compute. reflexivity.
Defined.

(** The maps of the dynamic table: a table reached by additions, evictions and searches,
    whose maps were built at the first search and updated since.  A search never panics and finds
    what a linear search finds: the index of the newest entry with the same name and value, unless
    the field is sensitive, or else that of the newest entry with the same name, or else 0. *)
Theorem table_search_newest (t : headerFieldTable) (f : HeaderField) (Ht : tableOk t) :
  exists t', search false t f =
    Parsed (match newest (ents t) f with
            | Some (k, valueToo) => (Z.of_nat (length (ents t)) - Z.of_nat k, valueToo, t')
            | None => (0, false, t')
            end) /\ ents t' = ents t /\ tableOk t' /\
  (forall g, evictCount t + Z.of_nat (length (ents t)) + 1 < 2 ^ 64 -> tableOk (addEntry t' g)) /\
  (forall n, (n <= length (ents t))%nat -> exists t'', evictOldest t' n = Parsed t'' /\ ents t'' = drop n (ents t) /\ tableOk t'').
Proof.
  destruct (search_ok false t f Ht) as (-> & Hok & He & Hc). exists (withMaps t). split_and!; [|done|done| |].
  - by destruct (newest (ents t) f) as [[k b]|].
  - intros g Hg. apply addEntry_ok; [done|by rewrite He, Hc].
  - intros n Hn. destruct (evictOldest_ok (withMaps t) n Hok) as (t'' & -> & Ht'' & E & _); [by rewrite He|]. exists t''. by rewrite E, He.
Qed.

Lemma table_search_newest_witness :
  let t := mkTable [hf "a" "1"; hf "b" "2"; hf "a" "3"] 5 None in
  tableOk t /\ newest (ents t) (hf "a" "1") = Some (0%nat, true) /\ newest (ents t) (hf "a" "4") = Some (2%nat, false) /\
  exists t', search false t (hf "a" "1") = Parsed (3, true, t').
Proof.
  intros t. assert (Ht : tableOk t) by (split; done). split; [exact Ht|]. split; [vm_compute; reflexivity|]. split; [vm_compute; reflexivity|].
  destruct (table_search_newest t (hf "a" "1") Ht) as (t' & E & _). exists t'. exact E.
Defined.

(** ** Hostile input *)

(** What a connection does with its decoder *)
Inductive decoderOp := OpWrite (p : bytes) | OpClose | OpEmitEnabled (v : bool).

Definition runOp (d : Decoder) (op : decoderOp) : Decoder * list HeaderField * option HpackError :=
  match op with
  | OpWrite p => Decoder_Write d p
  | OpClose => let '(d, err) := Decoder_Close d in (d, [], err)
  | OpEmitEnabled v => (SetEmitEnabled d v, [], None)
  end.

(** All the fields that were emitted and all the errors *)
Fixpoint runOps (d : Decoder) (ops : list decoderOp) : Decoder * list HeaderField * list HpackError :=
  match ops with
  | [] => (d, [], [])
  | op :: ops =>
      let '(d, out, err) := runOp d op in
      let '(d, out', errs) := runOps d ops in
      (d, out ++ out', match err with Some e => e :: errs | None => errs end)
  end.

Fixpoint written (ops : list decoderOp) : Z :=
  match ops with [] => 0 | OpWrite p :: ops => Z.of_nat (length p) + written ops | _ :: ops => written ops end.

Lemma runOps_safe L allowed ops : 0 < L < 2 ^ 29 -> 0 <= allowed < 2 ^ 31 -> forall d, decoderOk L allowed d ->
  count (decTab d) + Z.of_nat (length (saveBuf d)) + written ops < 2 ^ 64 ->
  let '(d', out, errs) := runOps d ops in decoderOk L allowed d' /\ Forall notPanic errs /\ Forall (shortField L) out.
Proof.
  intros HL Ha. induction ops as [|op ops IH]; intros d Hd Hc; [done|].
  assert (Hw : 0 <= written ops) by (clear; induction ops as [|[] ops IH]; cbn in *; lia).
  assert (Hop : let '(d', out, err) := runOp d op in decoderOk L allowed d' /\ count (decTab d') + Z.of_nat (length (saveBuf d')) + written ops < 2 ^ 64 /\
    from_option notPanic True err /\ Forall (shortField L) out).
  { destruct op as [p| |v]; cbn [runOp]; cbn in Hc.
    - pose proof (Write_safe L allowed HL Ha d p Hd ltac:(lia)) as H. destruct (Decoder_Write d p) as [[d1 o1] e1]. destruct H as (? & ? & ? & ?). split_and!; try done. lia.
    - unfold Decoder_Close. destruct (saveBuf d); split_and!; try done; try (by apply decoderOk_buf); cbn in *; lia.
    - split_and!; try done. by destruct Hd. }
  cbn [runOps]. destruct (runOp d op) as [[d1 o1] e1]. destruct Hop as (O1 & O2 & O3 & O4). specialize (IH d1 O1 O2).
  destruct (runOps d1 ops) as [[d2 o2] es]. destruct IH as (? & ? & ?). split_and!; [done| |by apply Forall_app]. destruct e1; [by constructor|done].
Qed.

(** C27. Hostile input: a new decoder that advertised a table of [allowed] bytes and limits strings
    to [L] bytes.  Whatever bytes are written to it in whatever pieces, whenever blocks end and
    whether fields are wanted or not, also after errors: no call panics, the size that the table
    records is the size of its entries and never exceeds what was advertised, and no emitted name
    or value is longer than [L]. *)
Theorem hpack_contained (L allowed : Z) (ops : list decoderOp) (HL : 0 < L < 2 ^ 29) (Ha : 0 <= allowed < 2 ^ 31) (Hw : written ops < 2 ^ 64) :
  exists d, NewDecoder allowed = Parsed d /\
    let '(d', out, errs) := runOps (SetMaxStringLength d L) ops in
    size_ (decTab d') = total (ents (table (decTab d'))) /\ size_ (decTab d') <= maxSize (decTab d') <= allowed /\
    Forall notPanic errs /\ Forall (shortField L) out.
Proof.
  assert (Hok : dynOk (mkDynamicTable emptyTable 0 0 allowed)) by done.
  destruct (setMaxSize_ok _ allowed Hok) as (dt & E & D1 & D2 & D3 & D4 & D5); [unfold fits; lia|]. unfold NewDecoder. rewrite E. cbn [mbind parsed_bind].
  eexists. split; [done|]. cbn in D2, D4. change (count (mkDynamicTable emptyTable 0 0 allowed)) with 0 in D5. pose proof (runOps_safe L allowed ops HL Ha (mkDecoder dt true L [] true)) as H.
  unfold SetMaxStringLength. cbn [decTab emitEnabled saveBuf firstField]. destruct (runOps (mkDecoder dt true L [] true) ops) as [[d' out] errs].
  destruct H as (R1 & R2 & R3); [split; cbn; rewrite ?D2, ?D3, ?D4; try done; lia|cbn [decTab saveBuf length]; lia|].
  split_and!; try done; [apply R1|apply R1|apply R1].
Qed.

(** Garbage, a truncated block and a long string *)
Definition hostile : list decoderOp :=
  [OpWrite [x82; xff; xff]; OpClose; OpEmitEnabled false; OpWrite [x3f; xff; xff; xff; xff; x7f]; OpWrite [x40; x01; x61; x01; x62]; OpClose;
   OpWrite [x00; x7f; x7f]].

Lemma hpack_contained_witness :
  (0 < 100 < 2 ^ 29 /\ 0 <= 4096 < 2 ^ 31 /\ written hostile < 2 ^ 64) /\
  exists d, NewDecoder 4096 = Parsed d /\
    let '(d', out, errs) := runOps (SetMaxStringLength d 100) hostile in
    size_ (decTab d') = total (ents (table (decTab d'))) /\ size_ (decTab d') <= maxSize (decTab d') <= 4096 /\
    Forall notPanic errs /\ Forall (shortField 100) out.
Proof.
  assert (H : 0 < 100 < 2 ^ 29 /\ 0 <= 4096 < 2 ^ 31 /\ written hostile < 2 ^ 64) by (split_and!; vm_compute; done).
  split; [exact H|]. destruct H as (H1 & H2 & H3). exact (hpack_contained 100 4096 hostile H1 H2 H3).
Defined.

(** The field before the garbage is emitted; the errors are reported; the literal is kept. *)
Example hostile_run :
  match NewDecoder 4096 with
  | Parsed d => let '(d', out, errs) := runOps (SetMaxStringLength d 100) hostile in (out, errs, size_ (decTab d'))
  | Failed _ => ([], [], 0)
  end = ([hf ":method" "GET"], [DecodingError "truncated headers"; DecodingError "dynamic table size update too large"; ErrStringLength], 34).
Proof. vm_compute. reflexivity. Qed.
