(* ===== verification/Rings.v ===== *)
(** * Doubly linked rings

    A ring of positions is given by the links of its elements, [nx] to the next one and [pv] to
    the previous one, as an array of elements has them.  The operations change a few links. *)

From S2P Require Import Prelude.

(** A function that differs at one argument *)
Definition fset (f : Z -> Z) (p v : Z) : Z -> Z := fun q => if q =? p then v else f q.

Lemma fset_eq f p v : fset f p v p = v.
Proof. unfold fset. by rewrite Z.eqb_refl. Qed.

Lemma fset_ne f p v q : q <> p -> fset f p v q = f q.
Proof. unfold fset. intros H. by destruct (Z.eqb_spec q p). Qed.

Lemma last_cons (a c : Z) l : List.last (c :: l) a = List.last l c.
Proof. revert a c. induction l as [|d l IH]; intros a c; [done|]. transitivity (List.last (d :: l) a); [done|]. by rewrite (IH a d), (IH c d). Qed.

Lemma last_app_cons (l : list Z) b k a : List.last (l ++ b :: k) a = List.last k b.
Proof. revert a. induction l as [|c l IH]; intros a; cbn [app]; rewrite last_cons; [done|apply IH]. Qed.

Section links.
Context (nx pv : Z -> Z).

(** The links from an element through a list *)
Fixpoint path (a : Z) (l : list Z) : Prop :=
  match l with [] => True | b :: l => nx a = b /\ pv b = a /\ path b l end.

(** The links of a list whose last element is linked to its first one *)
Definition ring (l : list Z) : Prop :=
  match l with [] => True | a :: k => path a k /\ nx (List.last k a) = a /\ pv a = List.last k a end.

Lemma path_app l : forall a b k, path a (l ++ b :: k) <-> path a l /\ nx (List.last l a) = b /\ pv b = List.last l a /\ path b k.
Proof.
  induction l as [|c l IH]; intros a b k; cbn [app path]; [cbn; tauto|]. rewrite IH, last_cons. tauto.
Qed.

(** A ring starts anywhere. *)
Lemma ring_rotate l k : ring (l ++ k) -> ring (k ++ l).
Proof.
  destruct l as [|a l]; [by rewrite app_nil_r|]. destruct k as [|b k]; [by rewrite app_nil_r|]. cbn [app ring]. rewrite !last_app_cons, !path_app. tauto.
Qed.
End links.

Lemma path_ext nx pv nx' pv' l : forall a, (forall x, x ∈ removelast (a :: l) -> nx' x = nx x) -> (forall x, x ∈ l -> pv' x = pv x) -> path nx pv a l -> path nx' pv' a l.
Proof.
  induction l as [|b l IH]; intros a Hn Hp; [done|]. intros (H1 & H2 & H3). split_and!.
  - rewrite Hn; [done|]. by left.
  - rewrite Hp; [done|]. by left.
  - apply IH; [|intros x Hx; apply Hp; by right|done]. intros x Hx. apply Hn. by right.
Qed.

Lemma removelast_elem (x : Z) l : x ∈ removelast l -> x ∈ l.
Proof. induction l as [|a l IH]; [done|]. destruct l as [|b l]; [by intros ?%not_elem_of_nil|]. cbn [removelast]. intros [->|H]%elem_of_cons; [by left|right; by apply IH]. Qed.

Lemma last_elem (a : Z) l : List.last l a ∈ a :: l.
Proof. revert a. induction l as [|b l IH]; intros a; [by left|]. right. rewrite last_cons. apply IH. Qed.

Lemma removelast_last (a : Z) l : NoDup (a :: l) -> List.last l a ∉ removelast (a :: l).
Proof.
  revert a. induction l as [|b l IH]; intros a H; [by apply not_elem_of_nil|]. change (removelast (a :: b :: l)) with (a :: removelast (b :: l)).
  rewrite last_cons.
  apply NoDup_cons in H as [Ha Hl]. intros [Heq|Hin]%elem_of_cons; [|by apply (IH b)]. apply Ha. rewrite <- Heq. apply last_elem.
Qed.

(** A position is put between the last and the first element. *)
Lemma ring_insert nx pv a l pos : NoDup (a :: l) -> pos ∉ a :: l -> ring nx pv (a :: l) ->
  ring (fset (fset nx (List.last l a) pos) pos a) (fset (fset pv pos (List.last l a)) a pos) (a :: l ++ [pos]).
Proof.
  intros Hnd Hpos (Hpath & Hn & Hp). assert (Hne : pos <> a) by (intros ->; apply Hpos; by left). pose proof (last_elem a l) as Hlast. set (h := List.last l a) in *.
  assert (Hh : pos <> h) by (intros ->; done). cbn [ring]. rewrite path_app, last_app_cons. fold h. cbn [path List.last]. split_and!.
  - eapply path_ext; [| |exact Hpath].
    + intros x Hx. rewrite !fset_ne; [done| |]; intros ->; [by apply (removelast_last a l)|by apply Hpos, removelast_elem].
    + intros x Hx. rewrite !fset_ne; [done| |]; intros ->; [apply Hpos; by right|by apply NoDup_cons in Hnd as [? _]].
  - rewrite fset_ne by done. apply fset_eq.
  - rewrite fset_ne by done. apply fset_eq.
  - done.
  - apply fset_eq.
  - apply fset_eq.
Qed.

(** The first element is taken out. *)
Lemma ring_remove nx pv pos b l : NoDup (pos :: b :: l) -> ring nx pv (pos :: b :: l) ->
  ring (fset nx (pv pos) (nx pos)) (fset pv (nx pos) (pv pos)) (b :: l).
Proof.
  intros Hnd ((H1 & H2 & Hpath) & Hn & Hp). rewrite last_cons in Hn, Hp.
  rewrite H1, Hp. apply NoDup_cons in Hnd as [_ Hnd]. cbn [ring]. split_and!; [|apply fset_eq|apply fset_eq].
  eapply path_ext; [| |exact Hpath]; intros x Hx; apply fset_ne; intros ->; [by apply (removelast_last b l)|by apply NoDup_cons in Hnd as [? _]].
Qed.

(** The first element gets another position; [to] has the links that [from] has at the end. *)
Lemma ring_relabel nx pv from to l : NoDup (from :: l) -> to ∉ from :: l -> ring nx pv (from :: l) ->
  let nx' := fset nx (pv from) to in let pv' := fset pv (nx from) to in
  ring (fset nx' to (nx' from)) (fset pv' to (pv' from)) (to :: l).
Proof.
  intros Hnd Hto Hr nx' pv'. assert (Hne : from <> to) by (intros ->; apply Hto; by left). destruct l as [|b l].
  - destruct Hr as (_ & H1 & H2). cbn in H1, H2. cbn. subst nx' pv'. rewrite H1, H2, !fset_eq. done.
  - destruct Hr as ((H1 & H2 & Hpath) & Hn & Hp). rewrite last_cons in Hn, Hp.
    pose proof (last_elem b l) as Hlast. apply NoDup_cons in Hnd as [Hfrom Hnd]. set (z := List.last l b) in *.
    assert (Hz : z <> from /\ z <> to) by (split; intros ->; [done|apply Hto; by right]). assert (Hb : b <> from /\ b <> to) by (split; intros ->; [apply Hfrom; by left|apply Hto; right; by left]).
    subst nx' pv'. rewrite H1, Hp. rewrite (fset_ne nx z to from), (fset_ne pv b to from), H1, Hp by naive_solver. cbn [ring path].
    rewrite last_cons. fold z. split_and!.
    + apply fset_eq.
    + rewrite fset_ne by naive_solver. apply fset_eq.
    + eapply path_ext; [| |exact Hpath].
      * intros x Hx. rewrite !fset_ne; [done| |]; intros ->; [by apply (removelast_last b l)|]. apply Hto. right. by apply removelast_elem.
      * intros x Hx. rewrite !fset_ne; [done| |]; intros ->; [by apply NoDup_cons in Hnd as [? _]|]. apply Hto. right. by right.
    + rewrite fset_ne by naive_solver. apply fset_eq.
    + apply fset_eq.
Qed.

(** The links of an element of a ring lead to elements of the ring. *)
Lemma ring_links nx pv l1 x l2 : ring nx pv (l1 ++ x :: l2) -> nx x ∈ l1 ++ x :: l2 /\ pv x ∈ l1 ++ x :: l2.
Proof.
  intros H%ring_rotate. cbn [app] in H. assert (Hin : forall y, y ∈ x :: l2 ++ l1 -> y ∈ l1 ++ x :: l2).
  { intros y. rewrite elem_of_cons, !elem_of_app, elem_of_cons. tauto. }
  destruct (l2 ++ l1) as [|b m].
  - destruct H as (_ & H1 & H2). cbn in H1, H2. rewrite H1, H2. split; apply Hin; by left.
  - destruct H as ((H1 & _) & _ & H2). rewrite H1, H2. split; apply Hin; [right; by left|]. rewrite last_cons. right. apply last_elem.
Qed.

(** A ring depends on the links of its elements only. *)
Lemma ring_ext_in nx pv nx' pv' l : (forall x, x ∈ l -> nx' x = nx x /\ pv' x = pv x) -> ring nx pv l -> ring nx' pv' l.
Proof.
  destruct l as [|a l]; [done|]. intros H (H1 & H2 & H3). pose proof (last_elem a l) as Hl. cbn. split_and!.
  - eapply path_ext; [| |exact H1]; intros x Hx; apply H; [by apply removelast_elem|by right].
  - by rewrite (proj1 (H _ Hl)).
  - rewrite (proj2 (H a ltac:(by left))). done.
Qed.
