(* ===== verification/FreeLRU.v ===== *)
(** * The LRU cache ([replace/sing/contrab/freelru])

    A cache of fixed size: an array of elements, doubly linked by age and, for each bucket of
    the hash table, doubly linked by bucket; the occupied elements are the first ones of the
    array.  [None] is a Go panic: an index that is out of range, or the check of [setHead].
    [now] is the Unix time in milliseconds, the same for all reads of the clock in a call. *)

From S2P Require Import Prelude.

(** [math.MaxUint32] *)
Definition emptyBucket : Z := 2 ^ 32 - 1.

Record element (K V : Type) := mkElement {
  key : K;
  value : V;
  nextBucket : Z;
  prevBucket : Z;
  bucketPos : Z;
  next : Z;
  prev : Z;
  expire : Z;
  lifetime : Z;
}.
Arguments mkElement {K V}.
Arguments key {K V}. Arguments value {K V}. Arguments nextBucket {K V}. Arguments prevBucket {K V}. Arguments bucketPos {K V}.
Arguments next {K V}. Arguments prev {K V}. Arguments expire {K V}. Arguments lifetime {K V}.

Record Metrics := mkMetrics { Inserts : Z; Collisions : Z; Evictions : Z; Removals : Z; Hits : Z; Misses : Z }.

Definition noMetrics : Metrics := mkMetrics 0 0 0 0 0 0.

(** [evicted] is the calls of the callback so far, if there is one. *)
Record LRU (K V : Type) := mkLRU {
  buckets : list Z;
  elements : list (element K V);
  onEvict : bool;
  healthCheck : option (K -> V -> bool);
  lruLifetime : Z;
  metrics : Metrics;
  emptyKey : K;
  emptyValue : V;
  head : Z;
  len : Z;
  cap : Z;
  size : Z;
  mask : Z;
  evicted : list (K * V);
}.
Arguments mkLRU {K V}.
Arguments buckets {K V}. Arguments elements {K V}. Arguments onEvict {K V}. Arguments healthCheck {K V}. Arguments lruLifetime {K V}.
Arguments metrics {K V}. Arguments emptyKey {K V}. Arguments emptyValue {K V}. Arguments head {K V}. Arguments len {K V}.
Arguments cap {K V}. Arguments size {K V}. Arguments mask {K V}. Arguments evicted {K V}.

Definition fastModulo (x n : Z) : Z := u32 (Z.shiftr (u64 (x * n)) 32).

(** [bits.OnesCount32] of a number up to a number of bits *)
Definition OnesCount (w : nat) (n : Z) : Z := foldr (fun i c => Z.b2z (Z.testbit n (Z.of_nat i)) + c) 0 (seq 0 w).

Section lru.
Context {K V : Type} `{EqDecision K}.
Implicit Types (l : LRU K V) (e : element K V).

(** ** Fields *)

Definition setKeyValue (k : K) (v : V) e := mkElement k v (nextBucket e) (prevBucket e) (bucketPos e) (next e) (prev e) (expire e) (lifetime e).
Definition setValue (v : V) e := mkElement (key e) v (nextBucket e) (prevBucket e) (bucketPos e) (next e) (prev e) (expire e) (lifetime e).
Definition setNextBucket p e := mkElement (key e) (value e) p (prevBucket e) (bucketPos e) (next e) (prev e) (expire e) (lifetime e).
Definition setPrevBucket p e := mkElement (key e) (value e) (nextBucket e) p (bucketPos e) (next e) (prev e) (expire e) (lifetime e).
Definition setBucketPos p e := mkElement (key e) (value e) (nextBucket e) (prevBucket e) p (next e) (prev e) (expire e) (lifetime e).
Definition setNext p e := mkElement (key e) (value e) (nextBucket e) (prevBucket e) (bucketPos e) p (prev e) (expire e) (lifetime e).
Definition setPrev p e := mkElement (key e) (value e) (nextBucket e) (prevBucket e) (bucketPos e) (next e) p (expire e) (lifetime e).
Definition setTimes t d e := mkElement (key e) (value e) (nextBucket e) (prevBucket e) (bucketPos e) (next e) (prev e) t d.

Definition withElements l x := mkLRU (buckets l) x (onEvict l) (healthCheck l) (lruLifetime l) (metrics l) (emptyKey l) (emptyValue l) (head l) (len l) (cap l) (size l) (mask l) (evicted l).
Definition withBuckets l x := mkLRU x (elements l) (onEvict l) (healthCheck l) (lruLifetime l) (metrics l) (emptyKey l) (emptyValue l) (head l) (len l) (cap l) (size l) (mask l) (evicted l).
Definition withHead l x := mkLRU (buckets l) (elements l) (onEvict l) (healthCheck l) (lruLifetime l) (metrics l) (emptyKey l) (emptyValue l) x (len l) (cap l) (size l) (mask l) (evicted l).
Definition withLen l x := mkLRU (buckets l) (elements l) (onEvict l) (healthCheck l) (lruLifetime l) (metrics l) (emptyKey l) (emptyValue l) (head l) x (cap l) (size l) (mask l) (evicted l).
Definition withMetrics l x := mkLRU (buckets l) (elements l) (onEvict l) (healthCheck l) (lruLifetime l) x (emptyKey l) (emptyValue l) (head l) (len l) (cap l) (size l) (mask l) (evicted l).
Definition withEvicted l x := mkLRU (buckets l) (elements l) (onEvict l) (healthCheck l) (lruLifetime l) (metrics l) (emptyKey l) (emptyValue l) (head l) (len l) (cap l) (size l) (mask l) x.

Definition SetLifetime l x := mkLRU (buckets l) (elements l) (onEvict l) (healthCheck l) x (metrics l) (emptyKey l) (emptyValue l) (head l) (len l) (cap l) (size l) (mask l) (evicted l).
Definition SetOnEvict l x := mkLRU (buckets l) (elements l) x (healthCheck l) (lruLifetime l) (metrics l) (emptyKey l) (emptyValue l) (head l) (len l) (cap l) (size l) (mask l) (evicted l).
Definition SetHealthCheck l x := mkLRU (buckets l) (elements l) (onEvict l) x (lruLifetime l) (metrics l) (emptyKey l) (emptyValue l) (head l) (len l) (cap l) (size l) (mask l) (evicted l).

Definition countInsert l := let m := metrics l in withMetrics l (mkMetrics (u64 (Inserts m + 1)) (Collisions m) (Evictions m) (Removals m) (Hits m) (Misses m)).
Definition countCollision l := let m := metrics l in withMetrics l (mkMetrics (Inserts m) (u64 (Collisions m + 1)) (Evictions m) (Removals m) (Hits m) (Misses m)).
Definition countEviction l := let m := metrics l in withMetrics l (mkMetrics (Inserts m) (Collisions m) (u64 (Evictions m + 1)) (Removals m) (Hits m) (Misses m)).
Definition countRemoval l := let m := metrics l in withMetrics l (mkMetrics (Inserts m) (Collisions m) (Evictions m) (u64 (Removals m + 1)) (Hits m) (Misses m)).
Definition countHit l := let m := metrics l in withMetrics l (mkMetrics (Inserts m) (Collisions m) (Evictions m) (Removals m) (u64 (Hits m + 1)) (Misses m)).
Definition countMiss l := let m := metrics l in withMetrics l (mkMetrics (Inserts m) (Collisions m) (Evictions m) (Removals m) (Hits m) (u64 (Misses m + 1))).

(** [lru.elements[pos]] and an assignment to one of its fields *)
Definition el l (pos : Z) : option (element K V) := if 0 <=? pos then elements l !! Z.to_nat pos else None.

Definition modEl l (pos : Z) (f : element K V -> element K V) : option (LRU K V) :=
  e ← el l pos; Some (withElements l (<[Z.to_nat pos := f e]> (elements l))).

Definition bucketAt l (b : Z) : option Z := if 0 <=? b then buckets l !! Z.to_nat b else None.

Definition setBucket l (b pos : Z) : option (LRU K V) :=
  _ ← bucketAt l b; Some (withBuckets l (<[Z.to_nat b := pos]> (buckets l))).

(** ** Construction *)

Definition initLRU (k : K) (v : V) (capacity size : Z) : LRU K V :=
  mkLRU (replicate (Z.to_nat size) emptyBucket) (replicate (Z.to_nat size) (mkElement k v 0 0 0 0 0 0 0)) false None 0 noMetrics k v 0 0 capacity size
    (if OnesCount 32 size =? 1 then u32 (size - 1) else 0) [].

(** The hash function is set. *)
Definition NewWithSize (k : K) (v : V) (capacity size : Z) : result (LRU K V) :=
  if capacity =? 0 then Err "capacity must be positive"
  else if size =? emptyBucket then Err "size must not be 0XFFFFFFFF"
  else if size <? capacity then Err "size is smaller than capacity"
  else Ok (initLRU k v capacity size).

(** ** Links *)

Definition hashToBucketPos l (hash : Z) : Z := if mask l =? 0 then fastModulo hash (size l) else Z.land hash (mask l).

Definition setHead l (pos : Z) : option (LRU K V) :=
  if pos =? head l then None
  else
    l ← modEl l pos (setPrev (head l));
    h ← el l (head l);
    l ← modEl l pos (setNext (next h));
    h ← el l (head l);
    l ← modEl l (next h) (setPrev pos);
    l ← modEl l (head l) (setNext pos);
    Some (withHead l pos).

Definition unlinkElement l (pos : Z) : option (LRU K V) :=
  e ← el l pos;
  l ← modEl l (prev e) (setNext (next e));
  e ← el l pos;
  modEl l (next e) (setPrev (prev e)).

Definition unlinkBucket l (pos : Z) : option (LRU K V) :=
  e ← el l pos;
  if (prevBucket e =? nextBucket e) && (prevBucket e =? pos) then setBucket l (bucketPos e) emptyBucket
  else
    l ← modEl l (prevBucket e) (setNextBucket (nextBucket e));
    l ← modEl l (nextBucket e) (setPrevBucket (prevBucket e));
    e' ← el l pos;
    setBucket l (bucketPos e') (nextBucket e).

Definition evict l (pos : Z) : option (LRU K V) :=
  l ← (if pos =? head l then e ← el l pos; Some (withHead l (prev e)) else Some l);
  l ← unlinkElement l pos;
  l ← unlinkBucket l pos;
  let l := withLen l (u32 (len l - 1)) in
  if onEvict l then e ← el l pos; Some (withEvicted l (evicted l ++ [(key e, value e)])) else Some l.

Definition move l (to from : Z) : option (LRU K V) :=
  if to =? from then Some l
  else
    let l := if from =? head l then withHead l to else l in
    e ← el l from;
    l ← modEl l (prev e) (setNext to);
    l ← modEl l (next e) (setPrev to);
    e ← el l from;
    l ← modEl l (prevBucket e) (setNextBucket to);
    l ← modEl l (nextBucket e) (setPrevBucket to);
    e ← el l from;
    l ← modEl l to (fun _ => e);
    b ← bucketAt l (bucketPos e);
    if b =? from then setBucket l (bucketPos e) to else Some l.

(** [expire(lifetime)]; a duration is in nanoseconds *)
Definition expireOf (now duration : Z) : Z := if duration =? 0 then 0 else now + Z.quot duration (10 ^ 6).

Definition insert l (now pos : Z) (k : K) (v : V) (duration : Z) : option (LRU K V) :=
  l ← modEl l pos (setKeyValue k v);
  l ← modEl l pos (setTimes (expireOf now duration) duration);
  l ← (if len l =? 0 then
         l ← modEl l pos (setPrev pos);
         l ← modEl l pos (setNext pos);
         Some (withHead l pos)
       else if pos =? head l then Some l else setHead l pos);
  Some (countInsert (withLen l (u32 (len l + 1)))).

Definition removeAt l (pos : Z) : option (LRU K V) :=
  l ← evict l pos;
  l ← move l pos (len l);
  let l := countRemoval l in
  modEl l (len l) (setKeyValue (emptyKey l) (emptyValue l)).

(** ** Searching *)

(** The walk through a bucket; a ring of elements is shorter than the array. *)
Fixpoint walk (fuel : nat) l (k : K) (startPos pos : Z) : option (option Z) :=
  match fuel with
  | O => None
  | S fuel =>
      e ← el l pos;
      if decide (k = key e) then Some (Some pos)
      else if nextBucket e =? startPos then Some None
      else walk fuel l k startPos (nextBucket e)
  end.

(** The position of a key, in the bucket of a hash *)
Definition locate l (hash : Z) (k : K) : option (option Z) :=
  startPos ← bucketAt l (hashToBucketPos l hash);
  if startPos =? emptyBucket then Some None else walk (length (elements l)) l k startPos startPos.

Definition unhealthy l (k : K) (v : V) : bool := match healthCheck l with Some check => negb (check k v) | None => false end.

Definition isExpired (now : Z) e : bool := negb (expire e =? 0) && (expire e <=? now).

Definition findWith (expires : bool) l (now hash : Z) (k : K) : option (option Z * LRU K V) :=
  found ← locate l hash k;
  match found with
  | None => Some (None, l)
  | Some pos =>
      e ← el l pos;
      if (expires && isExpired now e) || unhealthy l k (value e) then l ← removeAt l pos; Some (None, l)
      else Some (Some pos, l)
  end.

Definition findKey := findWith true.
Definition findKeyNoExpire := findWith false.

(** Making an element the newest one *)
Definition touch l (pos : Z) : option (LRU K V) := if pos =? head l then Some l else l ← unlinkElement l pos; setHead l pos.

(** ** Operations *)

(** The position for a new element, after the oldest one was evicted if there is no room *)
Definition makeRoom l : option (Z * bool * LRU K V) :=
  if len l =? cap l then
    h ← el l (head l);
    l ← evict l (next h);
    Some (next h, true, countEviction l)
  else Some (len l, false, l).

(** The first entry of a bucket *)
Definition linkFirst l (bucket pos : Z) : option (LRU K V) :=
  l ← setBucket l bucket pos;
  l ← modEl l pos (setBucketPos bucket);
  l ← modEl l pos (setNextBucket pos);
  modEl l pos (setPrevBucket pos).

(** An entry of a bucket, before [startPos] *)
Definition linkBefore l (bucket pos startPos : Z) : option (LRU K V) :=
  l ← setBucket l bucket pos;
  l ← modEl l pos (setBucketPos bucket);
  l ← modEl l pos (setNextBucket startPos);
  s ← el l startPos;
  l ← modEl l pos (setPrevBucket (prevBucket s));
  s ← el l startPos;
  l ← modEl l (prevBucket s) (setNextBucket pos);
  modEl l startPos (setPrevBucket pos).

Definition addWithLifetime l (now hash : Z) (k : K) (v : V) (duration : Z) : option (bool * LRU K V) :=
  let bucket := hashToBucketPos l hash in
  startPos ← bucketAt l bucket;
  if startPos =? emptyBucket then
    '(pos, evicted, l) ← makeRoom l;
    l ← linkFirst l bucket pos;
    l ← insert l now pos k v duration;
    Some (evicted, l)
  else
    found ← walk (length (elements l)) l k startPos startPos;
    match found with
    | Some pos =>
        l ← modEl l pos (setValue v);
        l ← modEl l pos (setTimes (expireOf now duration) duration);
        l ← touch l pos;
        Some (false, countInsert l)
    | None =>
        '(pos, evicted, l) ← makeRoom l;
        startPos ← (if evicted : bool then
                      b ← bucketAt l bucket;
                      Some (if b =? emptyBucket then pos else b)
                    else Some startPos);
        l ← linkBefore l bucket pos startPos;
        l ← insert l now pos k v duration;
        e ← el l pos;
        Some (evicted, if prevBucket e =? pos then l else countCollision l)
    end.

Definition get l (now hash : Z) (k : K) : option (option V * LRU K V) :=
  '(found, l) ← findKey l now hash k;
  match found with
  | Some pos => l ← touch l pos; let l := countHit l in e ← el l pos; Some (Some (value e), l)
  | None => Some (None, countMiss l)
  end.

(** With the time of expiry, in milliseconds *)
Definition getLifetimeWith (expires : bool) l (now hash : Z) (k : K) : option (option (V * Z) * LRU K V) :=
  '(found, l) ← findWith expires l now hash k;
  match found with
  | Some pos => l ← touch l pos; let l := countHit l in e ← el l pos; Some (Some (value e, expire e), l)
  | None => Some (None, countMiss l)
  end.

Definition getWithLifetime := getLifetimeWith true.
Definition getWithLifetimeNoExpire := getLifetimeWith false.

Definition refresh l (now pos : Z) : option (V * LRU K V) :=
  l ← touch l pos;
  let l := countHit l in
  e ← el l pos;
  l ← modEl l pos (setTimes (expireOf now (lifetime e)) (lifetime e));
  Some (value e, l).

Definition getAndRefresh l (now hash : Z) (k : K) : option (option V * LRU K V) :=
  '(found, l) ← findKeyNoExpire l now hash k;
  match found with
  | Some pos => '(v, l) ← refresh l now pos; Some (Some v, l)
  | None => Some (None, countMiss l)
  end.

(** The value, whether it was there, and whether there is one *)
Definition getAndRefreshOrAdd l (now hash : Z) (k : K) (constructor : option V) : option (option V * bool * LRU K V) :=
  '(found, l) ← findKeyNoExpire l now hash k;
  match found with
  | Some pos => '(v, l) ← refresh l now pos; Some (Some v, true, l)
  | None =>
      let l := countMiss l in
      match constructor with
      | None => Some (None, false, l)
      | Some v => '(_, l) ← addWithLifetime l now hash k v (lruLifetime l); Some (Some v, false, l)
      end
  end.

Definition peekWithLifetime l (now hash : Z) (k : K) : option (option (V * Z) * LRU K V) :=
  '(found, l) ← findKey l now hash k;
  match found with
  | Some pos => e ← el l pos; Some (Some (value e, expire e), l)
  | None => Some (None, l)
  end.

Definition peek l (now hash : Z) (k : K) : option (option V * LRU K V) :=
  '(found, l) ← findKey l now hash k;
  match found with
  | Some pos => e ← el l pos; Some (Some (value e), l)
  | None => Some (None, l)
  end.

Definition updateLifetime `{EqDecision V} l (now hash : Z) (k : K) (v : V) (duration : Z) : option (bool * LRU K V) :=
  found ← locate l hash k;
  match found with
  | None => Some (false, l)
  | Some pos =>
      e ← el l pos;
      if decide (value e = v) then
        l ← modEl l pos (setTimes (expireOf now duration) duration);
        l ← touch l pos;
        Some (true, countInsert l)
      else Some (false, l)
  end.

Definition remove l (now hash : Z) (k : K) : option (bool * LRU K V) :=
  '(found, l) ← findKeyNoExpire l now hash k;
  match found with
  | Some pos => l ← removeAt l pos; Some (true, l)
  | None => Some (false, l)
  end.

Definition RemoveOldest l : option (option (K * V) * LRU K V) :=
  if len l =? 0 then Some (None, l)
  else
    h ← el l (head l);
    e ← el l (next h);
    l ← removeAt l (next h);
    Some (Some (key e, value e), l).

(** The loop of [PurgeExpired] from an element: the position of an expired one *)
Fixpoint findExpired (n : nat) l (now pos : Z) : option (option Z) :=
  match n with
  | O => Some None
  | S n => e ← el l pos; if isExpired now e then Some (Some pos) else findExpired n l now (next e)
  end.

(** Every round but the last one removes an element. *)
Fixpoint purgeLoop (fuel : nat) l (now : Z) : option (LRU K V) :=
  match fuel with
  | O => None
  | S fuel =>
      if len l =? 0 then Some l
      else
        h ← el l (head l);
        found ← findExpired (Z.to_nat (len l)) l now (next h);
        match found with
        | Some pos => l ← removeAt l pos; purgeLoop fuel l now
        | None => Some l
        end
  end.

Definition PurgeExpired l (now : Z) : option (LRU K V) := purgeLoop (S (Z.to_nat (len l))) l now.

Fixpoint removeMany (n : nat) l : option (LRU K V) :=
  match n with O => Some l | S n => '(_, l) ← RemoveOldest l; removeMany n l end.

Definition Purge l : option (LRU K V) := l ← removeMany (Z.to_nat (len l)) l; Some (withMetrics l noMetrics).

Definition ResetMetrics l : Metrics * LRU K V := (metrics l, withMetrics l noMetrics).

Fixpoint keysFrom (n : nat) l (pos : Z) : option (list K) :=
  match n with O => Some [] | S n => e ← el l pos; ks ← keysFrom n l (next e); Some (key e :: ks) end.

Definition Keys l (now : Z) : option (list K * LRU K V) :=
  l ← PurgeExpired l now;
  h ← el l (head l);
  ks ← keysFrom (Z.to_nat (len l)) l (next h);
  Some (ks, l).

(** The operations of [Cache] with the hash function *)
Context (hash : K -> Z).

Definition AddWithLifetime l now k v duration := addWithLifetime l now (hash k) k v duration.
Definition Add l now k v := addWithLifetime l now (hash k) k v (lruLifetime l).
Definition Get l now k := get l now (hash k) k.
Definition GetWithLifetime l now k := getWithLifetime l now (hash k) k.
Definition GetAndRefresh l now k := getAndRefresh l now (hash k) k.
Definition Peek l now k := peek l now (hash k) k.
Definition Contains l now k := '(v, l) ← peek l now (hash k) k; Some (bool_decide (is_Some v), l).
Definition Remove l now k := remove l now (hash k) k.

Definition GetAndRefreshOrAdd l now k constructor : option (option V * bool * LRU K V) :=
  '(v, updated, l) ← getAndRefreshOrAdd l now (hash k) k constructor;
  if negb updated && bool_decide (is_Some v) then l ← PurgeExpired l now; Some (v, updated, l) else Some (v, updated, l).
End lru.

(** * The sharded LRU cache ([replace/sing/contrab/freelru/shardedlru.go])

    A power of two of caches, each behind a lock of its own; the upper half of the hash of a
    key selects the cache, the lower bits the bucket.  An operation on a key is one step of
    its shard; the operations on all shards take one lock after the other and are modelled
    without other operations in between. *)

(** [bits.Len32] *)
Definition Len32 (n : Z) : Z := if n =? 0 then 0 else Z.log2 n + 1.

Definition nextPowerOfTwo (val : Z) : Z := if OnesCount 32 val =? 1 then val else u32 (Z.shiftl 1 (Len32 val)).

(** [for shards > size/16 { shards /= 16 }]; eight divisions make a 32-bit number zero. *)
Fixpoint fewerShards (fuel : nat) (shards size : Z) : Z :=
  match fuel with
  | O => shards
  | S fuel => if size / 16 <? shards then fewerShards fuel (shards / 16) size else shards
  end.

(** The number of shards and the capacity and the size of one of them *)
Definition shardShape (shards capacity size : Z) : result (Z * Z * Z) :=
  if capacity =? 0 then Err "capacity must be positive"
  else if size <? capacity then Err "size is smaller than capacity"
  else
    let size := if size <? 2 ^ 31 then nextPowerOfTwo size else 2 ^ 31 in
    let shards := fewerShards 9 (nextPowerOfTwo shards) size in
    let shards := if shards =? 0 then 1 else shards in
    let size := size / shards in
    let size := if size =? 0 then 1 else size in
    let capacity := u32 (capacity + shards - 1) / shards in
    let capacity := if capacity =? 0 then 1 else capacity in
    Ok (shards, capacity, size).

Record ShardedLRU (K V : Type) := mkSharded { lrus : list (LRU K V); shardMask : Z }.
Arguments mkSharded {K V}. Arguments lrus {K V}. Arguments shardMask {K V}.

Definition NewShardedWithSize {K V} (k : K) (v : V) (shards capacity size : Z) : result (ShardedLRU K V) :=
  match shardShape shards capacity size with
  | Ok (shards, capacity, size) => Ok (mkSharded (replicate (Z.to_nat shards) (initLRU k v capacity size)) (shards - 1))
  | Err e => Err e
  end.

(** [NewSharded] for a number of processors; the product is exact, and too large a number is
    cut to 32 bits as on amd64. *)
Definition NewSharded {K V} (k : K) (v : V) (procs capacity : Z) : result (ShardedLRU K V) :=
  NewShardedWithSize k v (u32 (procs * 16)) capacity (u32 (capacity * 5 / 4)).

Module Sharded.
Section sharded.
Context {K V : Type} `{EqDecision K} (hash : K -> Z).
Implicit Types (s : ShardedLRU K V).

Definition shardOf s (h : Z) : Z := Z.land (Z.shiftr h 16) (shardMask s).

(** A step of the shard of a key *)
Definition onShard {R} s (k : K) (f : LRU K V -> option (R * LRU K V)) : option (R * ShardedLRU K V) :=
  let i := Z.to_nat (shardOf s (hash k)) in
  l ← lrus s !! i;
  '(r, l) ← f l;
  Some (r, mkSharded (<[i := l]> (lrus s)) (shardMask s)).

(** A step of each shard in turn *)
Fixpoint inTurn {R} (f : LRU K V -> option (R * LRU K V)) (ls : list (LRU K V)) : option (list R * list (LRU K V)) :=
  match ls with
  | [] => Some ([], [])
  | l :: ls => '(r, l) ← f l; '(rs, ls) ← inTurn f ls; Some (r :: rs, l :: ls)
  end.

Definition onAll {R} s (f : LRU K V -> option (R * LRU K V)) : option (list R * ShardedLRU K V) :=
  '(rs, ls) ← inTurn f (lrus s);
  Some (rs, mkSharded ls (shardMask s)).

Definition SetLifetime s x := mkSharded ((fun l => FreeLRU.SetLifetime l x) <$> lrus s) (shardMask s).
Definition SetOnEvict s x := mkSharded ((fun l => FreeLRU.SetOnEvict l x) <$> lrus s) (shardMask s).
Definition SetHealthCheck s x := mkSharded ((fun l => FreeLRU.SetHealthCheck l x) <$> lrus s) (shardMask s).

Definition AddWithLifetime s now k v d := onShard s k (fun l => addWithLifetime l now (hash k) k v d).
Definition Add s now k v := onShard s k (fun l => addWithLifetime l now (hash k) k v (lruLifetime l)).
Definition Get s now k := onShard s k (fun l => get l now (hash k) k).
Definition GetWithLifetime s now k := onShard s k (fun l => getWithLifetime l now (hash k) k).
Definition GetWithLifetimeNoExpire s now k := onShard s k (fun l => getWithLifetimeNoExpire l now (hash k) k).
Definition GetAndRefresh s now k := onShard s k (fun l => getAndRefresh l now (hash k) k).
Definition Peek s now k := onShard s k (fun l => peek l now (hash k) k).
Definition PeekWithLifetime s now k := onShard s k (fun l => peekWithLifetime l now (hash k) k).
Definition UpdateLifetime `{EqDecision V} s now k v d := onShard s k (fun l => updateLifetime l now (hash k) k v d).
Definition Contains s now k := onShard s k (fun l => '(v, l) ← peek l now (hash k) k; Some (bool_decide (is_Some v), l)).
Definition Remove s now k := onShard s k (fun l => remove l now (hash k) k).

(** The shard is the one of the zero value of the keys. *)
Definition RemoveOldest (zero : K) s : option (option (K * V) * ShardedLRU K V) := onShard s zero FreeLRU.RemoveOldest.

Definition PurgeExpired s (now : Z) : option (ShardedLRU K V) :=
  '(_, s) ← onAll s (fun l => l ← FreeLRU.PurgeExpired l now; Some (tt, l)); Some s.

Definition GetAndRefreshOrAdd s now k constructor : option (option V * bool * ShardedLRU K V) :=
  '(v, updated, s) ← onShard s k (fun l => getAndRefreshOrAdd l now (hash k) k constructor);
  if negb updated && bool_decide (is_Some v) then s ← PurgeExpired s now; Some (v, updated, s) else Some (v, updated, s).

Definition Keys s (now : Z) : option (list K * ShardedLRU K V) :=
  '(ks, s) ← onAll s (fun l => FreeLRU.Keys l now); Some (concat ks, s).

Definition Purge s : option (ShardedLRU K V) := '(_, s) ← onAll s (fun l => l ← FreeLRU.Purge l; Some (tt, l)); Some s.

Definition Len s : Z := foldr (fun l n => len l + n) 0 (lrus s).

Definition addMetrics (dst src : Metrics) : Metrics :=
  mkMetrics (u64 (Inserts dst + Inserts src)) (u64 (Collisions dst + Collisions src)) (u64 (Evictions dst + Evictions src))
    (u64 (Removals dst + Removals src)) (u64 (Hits dst + Hits src)) (u64 (Misses dst + Misses src)).

Definition Metrics_ s : Metrics := fold_left addMetrics (metrics <$> lrus s) noMetrics.

Definition ResetMetrics s : Metrics * ShardedLRU K V := (Metrics_ s, mkSharded ((fun l => (FreeLRU.ResetMetrics l).2) <$> lrus s) (shardMask s)).
End sharded.
End Sharded.
