(* ===== verification/FreeLRULinks.v ===== *)
(** * The links of the LRU cache

    The functions that change links keep both kinds of rings: the ring of all elements by age and
    the rings of the buckets.  An [order] is the list of the occupied positions from the oldest to
    the newest element. *)

From S2P Require Import Prelude Rings FreeLRU.

Section links.
Context {K V : Type} `{EqDecision K}.
Implicit Types (l : LRU K V) (e : element K V).

(** ** Reading and writing elements *)

Definition inRange l (p : Z) : Prop := 0 <= p < Z.of_nat (length (elements l)).

Definition elt l (p : Z) : element K V := default (mkElement (emptyKey l) (emptyValue l) 0 0 0 0 0 0 0) (el l p).

Definition upd l (p : Z) (f : element K V -> element K V) : LRU K V := withElements l (<[Z.to_nat p := f (elt l p)]> (elements l)).

Lemma el_elt l p : inRange l p -> el l p = Some (elt l p).
Proof.
  intros [H0 H1]. unfold elt, el. destruct (Z.leb_spec 0 p); [|lia]. destruct (elements l !! Z.to_nat p) eqn:E; [done|]. apply lookup_ge_None in E. lia.
Qed.

Lemma modEl_upd l p f : inRange l p -> modEl l p f = Some (upd l p f).
Proof. intros H. unfold modEl. by rewrite el_elt. Qed.

Lemma inRange_upd l p f q : inRange (upd l p f) q <-> inRange l q.
Proof. unfold inRange. cbn. by rewrite length_insert. Qed.

Lemma elt_upd l p f q : inRange l p -> elt (upd l p f) q = if q =? p then f (elt l p) else elt l q.
Proof.
  intros [H0 H1]. destruct (Z.eqb_spec q p) as [->|Hne].
  - unfold elt at 1, el. cbn. destruct (Z.leb_spec 0 p); [|lia]. by rewrite list_lookup_insert_eq by lia.
  - unfold elt, el. cbn. destruct (Z.leb_spec 0 q); [|done]. by rewrite list_lookup_insert_ne by lia.
Qed.

Lemma elt_withHead l h q : elt (withHead l h) q = elt l q.
Proof. done. Qed.

Definition nx l (p : Z) : Z := next (elt l p).
Definition pv l (p : Z) : Z := prev (elt l p).
Definition nb l (p : Z) : Z := nextBucket (elt l p).
Definition pb l (p : Z) : Z := prevBucket (elt l p).

Lemma ring_ext n p n' p' o : (forall x, n' x = n x) -> (forall x, p' x = p x) -> ring n p o -> ring n' p' o.
Proof. intros Hn Hp. destruct o as [|a o]; [done|]. intros (H1 & H2 & H3). cbn. rewrite Hn, Hp. split; [|done]. eapply path_ext; [| |exact H1]; auto. Qed.

(** ** Frames *)

(** Everything but the elements and the head, and an element without its links *)
Definition core l : LRU K V := withHead (withElements l []) 0.
Definition strip e : element K V := setNext 0 (setPrev 0 e).

(** Only the links by age and the head change. *)
Record timeOnly l l' : Prop := {
  to_core : core l' = core l;
  to_length : length (elements l') = length (elements l);
  to_elt : forall q, strip (elt l' q) = strip (elt l q);
}.

Lemma timeOnly_refl l : timeOnly l l.
Proof. done. Qed.

Lemma timeOnly_trans l1 l2 l3 : timeOnly l1 l2 -> timeOnly l2 l3 -> timeOnly l1 l3.
Proof. intros [A1 A2 A3] [B1 B2 B3]. split; [congruence|congruence|]. intros q. by rewrite B3, A3. Qed.

Lemma timeOnly_upd l p f : inRange l p -> (forall e, strip (f e) = strip e) -> timeOnly l (upd l p f).
Proof.
  intros Hp Hf. split; [done|cbn; by rewrite length_insert|]. intros q. rewrite elt_upd by done. destruct (Z.eqb_spec q p) as [->|]; [apply Hf|done].
Qed.

Lemma timeOnly_head l h : timeOnly l (withHead l h).
Proof. done. Qed.

Lemma inRange_length l l' p : length (elements l') = length (elements l) -> inRange l p -> inRange l' p.
Proof. unfold inRange. lia. Qed.

(** ** The ring by age *)

Record timeOk l (order : list Z) : Prop := {
  tm_ring : ring (nx l) (pv l) order;
  tm_range : Forall (inRange l) order;
  tm_nodup : NoDup order;
}.

Definition newestIs l (order : list Z) : Prop := match order with [] => inRange l (head l) | a :: k => head l = List.last k a end.

Ltac rng := rewrite ?inRange_upd; assumption.

(** Compares links after writes with functions that differ at a few arguments. *)
Ltac pointwise :=
  intros x; unfold nx, pv, nb, pb, fset; rewrite ?elt_withHead; repeat rewrite elt_upd by rng;
  repeat (match goal with |- context [?x =? ?y] => destruct (Z.eqb_spec x y) end; subst; cbn; try done; try congruence).

Ltac only_links := repeat (eapply timeOnly_trans; [|apply timeOnly_upd; [rng|done]]); apply timeOnly_refl.

Lemma timeOk_range l l' order : timeOnly l l' -> Forall (inRange l) order -> Forall (inRange l') order.
Proof. intros [_ Hl _] H. eapply Forall_impl; [exact H|]. intros x. by apply inRange_length. Qed.

Lemma setHead_ok l order pos : timeOk l order -> newestIs l order -> order <> [] -> pos ∉ order -> inRange l pos ->
  exists l', setHead l pos = Some l' /\ timeOnly l l' /\ timeOk l' (order ++ [pos]) /\ newestIs l' (order ++ [pos]).
Proof.
  intros [Hr Hrange Hnd] Hhead Hne Hpos Hin. destruct order as [|a k]; [done|]. cbn in Hhead. pose proof (last_elem a k) as Hlast. rewrite <- Hhead in Hlast.
  assert (Hph : pos <> head l) by (intros ->; done). assert (Hpa : pos <> a) by (intros ->; apply Hpos; by left).
  assert (Hh : inRange l (head l)) by (by apply (proj1 (Forall_forall _ _) Hrange)). assert (Ha : inRange l a) by (by apply Forall_cons in Hrange as [? _]).
  assert (Hnh : next (elt l (head l)) = a) by (destruct Hr as (_ & Hn & _); by rewrite Hhead).
  unfold setHead. rewrite (proj2 (Z.eqb_neq _ _)) by done. rewrite modEl_upd by done. cbn [mbind option_bind].
  change (head (upd l ?p ?f)) with (head l). rewrite el_elt by rng. cbn [mbind option_bind]. rewrite modEl_upd by rng. cbn [mbind option_bind].
  change (head (upd (upd l ?p ?f) ?q ?g)) with (head l). rewrite el_elt by rng. cbn [mbind option_bind].
  repeat rewrite elt_upd by rng. rewrite (proj2 (Z.eqb_neq (head l) pos)), Hnh by done. rewrite modEl_upd by rng. cbn [mbind option_bind].
  change (head (upd (upd (upd l ?p ?f) ?q ?g) ?r ?h)) with (head l). rewrite modEl_upd by rng. cbn [mbind option_bind].
  eexists. split; [done|]. assert (Hto : timeOnly l (withHead (upd (upd (upd (upd l pos (setPrev (head l))) pos (setNext a)) a (setPrev pos)) (head l) (setNext pos)) pos)).
  { eapply timeOnly_trans; [|apply timeOnly_head]. only_links. }
  split_and!; [done| |cbn; by rewrite last_app_cons]. split.
  - apply (ring_ext (fset (fset (nx l) (List.last k a) pos) pos a) (fset (fset (pv l) pos (List.last k a)) a pos)); [| |by apply ring_insert]; rewrite <- Hhead; pointwise.
  - eapply timeOk_range; [done|]. apply Forall_app. split; [done|]. by constructor.
  - apply NoDup_app. split_and!; [done| |apply NoDup_singleton]. intros x Hx ->%list_elem_of_singleton. done.
Qed.

Lemma NoDup_middle (o1 : list Z) pos o2 : NoDup (o1 ++ pos :: o2) -> NoDup (o1 ++ o2) /\ pos ∉ o1 ++ o2.
Proof. rewrite <- Permutation_middle. intros [? ?]%NoDup_cons. done. Qed.

Lemma NoDup_first (o1 : list Z) pos o2 : NoDup (o1 ++ pos :: o2) -> NoDup (pos :: o2 ++ o1).
Proof. rewrite <- Permutation_middle, (Permutation_app_comm o1). done. Qed.

Lemma unlinkElement_ok l o1 pos o2 : timeOk l (o1 ++ pos :: o2) ->
  exists l', unlinkElement l pos = Some l' /\ timeOnly l l' /\ head l' = head l /\ timeOk l' (o1 ++ o2).
Proof.
  intros [Hr Hrange Hnd]. rewrite Forall_forall in Hrange. assert (Hpos : inRange l pos) by (apply Hrange; rewrite elem_of_app, elem_of_cons; tauto).
  destruct (ring_links _ _ _ _ _ Hr) as [Hn%Hrange Hp%Hrange]. unfold nx, pv in Hn, Hp.
  unfold unlinkElement. rewrite el_elt by done. cbn [mbind option_bind]. rewrite modEl_upd by done. cbn [mbind option_bind]. rewrite el_elt by rng. cbn [mbind option_bind].
  assert (E : next (elt (upd l (prev (elt l pos)) (setNext (next (elt l pos)))) pos) = next (elt l pos) /\ prev (elt (upd l (prev (elt l pos)) (setNext (next (elt l pos)))) pos) = prev (elt l pos)).
  { rewrite elt_upd by done. destruct (Z.eqb_spec pos (prev (elt l pos))) as [E|]; [|done]. cbn. by rewrite <- E. }
  destruct E as [-> ->]. rewrite modEl_upd by rng. eexists. split; [done|].
  assert (Hto : timeOnly l (upd (upd l (prev (elt l pos)) (setNext (next (elt l pos)))) (next (elt l pos)) (setPrev (prev (elt l pos))))) by only_links.
  split_and!; [done|done|]. destruct (NoDup_middle _ _ _ Hnd) as [Hnd' _]. split; [|eapply timeOk_range; [exact Hto|]|done].
  - apply (ring_ext (fset (nx l) (pv l pos) (nx l pos)) (fset (pv l) (nx l pos) (pv l pos))); [pointwise|pointwise|].
    apply ring_rotate. apply ring_rotate in Hr. apply NoDup_first in Hnd. cbn [app] in Hr. destruct (o2 ++ o1) as [|b m]; [done|]. by apply ring_remove.
  - apply Forall_forall. intros x Hx. apply Hrange. rewrite elem_of_app, elem_of_cons in *. tauto.
Qed.

Lemma newestIs_snoc l order pos : newestIs l (order ++ [pos]) <-> head l = pos.
Proof. destruct order as [|a k]; [done|]. cbn. by rewrite last_app_cons. Qed.

(** The newest position stays the newest one. *)
Lemma newest_app l o1 pos a k : newestIs l (o1 ++ pos :: a :: k) <-> newestIs l (o1 ++ a :: k).
Proof. destruct o1 as [|b o1]; cbn [app newestIs]; by rewrite ?last_app_cons, ?last_cons. Qed.

Lemma touch_ok l o1 pos o2 : timeOk l (o1 ++ pos :: o2) -> newestIs l (o1 ++ pos :: o2) ->
  exists l', touch l pos = Some l' /\ timeOnly l l' /\ timeOk l' ((o1 ++ o2) ++ [pos]) /\ newestIs l' ((o1 ++ o2) ++ [pos]).
Proof.
  intros Ht Hh. unfold touch. destruct (NoDup_middle _ _ _ (tm_nodup _ _ Ht)) as [_ Hnin]. destruct o2 as [|a k].
  - apply newestIs_snoc in Hh as Hh'. rewrite (proj2 (Z.eqb_eq _ _)) by done. exists l. rewrite app_nil_r. done.
  - destruct (Z.eqb_spec pos (head l)) as [E|Hne].
    { exfalso. apply Hnin. rewrite E, elem_of_app. right. assert (head l = List.last k a) as ->; [|apply last_elem]. destruct o1 as [|b o1]; cbn [app newestIs] in Hh; by rewrite ?last_app_cons, ?last_cons in Hh. }
    destruct (unlinkElement_ok l o1 pos (a :: k) Ht) as (l1 & -> & T1 & H1 & K1). cbn [mbind option_bind].
    destruct (setHead_ok l1 (o1 ++ a :: k) pos) as (l2 & -> & T2 & K2 & N2); [done| |by destruct o1|done| |].
    + apply newest_app in Hh. destruct o1; cbn [app newestIs] in *; by rewrite H1.
    + eapply inRange_length; [apply T1|]. apply (proj1 (Forall_forall _ _) (tm_range _ _ Ht)). rewrite elem_of_app, elem_of_cons. tauto.
    + exists l2. split_and!; [done|by eapply timeOnly_trans|done|done].
Qed.

(** ** The rings of the buckets *)

Definition stripB e : element K V := setNextBucket 0 (setPrevBucket 0 e).
Definition coreB l : LRU K V := withBuckets (withElements l []) [].

(** Only the links by bucket and the table of buckets change. *)
Record bucketOnly l l' : Prop := {
  bo_core : coreB l' = coreB l;
  bo_length : length (elements l') = length (elements l);
  bo_buckets : length (buckets l') = length (buckets l);
  bo_elt : forall q, stripB (elt l' q) = stripB (elt l q);
}.

Lemma bucketOnly_refl l : bucketOnly l l.
Proof. done. Qed.

Lemma bucketOnly_trans l1 l2 l3 : bucketOnly l1 l2 -> bucketOnly l2 l3 -> bucketOnly l1 l3.
Proof. intros [A1 A2 A3 A4] [B1 B2 B3 B4]. split; [congruence|congruence|congruence|]. intros q. by rewrite B4, A4. Qed.

Lemma bucketOnly_upd l p f : inRange l p -> (forall e, stripB (f e) = stripB e) -> bucketOnly l (upd l p f).
Proof.
  intros Hp Hf. split; [done|cbn; by rewrite length_insert|done|]. intros q. rewrite elt_upd by done. destruct (Z.eqb_spec q p) as [->|]; [apply Hf|done].
Qed.

Definition setB l (b p : Z) : LRU K V := withBuckets l (<[Z.to_nat b := p]> (buckets l)).

Lemma bucketOnly_setB l b p : bucketOnly l (setB l b p).
Proof. split; [done|done|cbn; by rewrite length_insert|done]. Qed.

Lemma setBucket_setB l b p : 0 <= b < Z.of_nat (length (buckets l)) -> setBucket l b p = Some (setB l b p).
Proof.
  intros Hb. unfold setBucket, bucketAt. destruct (Z.leb_spec 0 b); [|lia]. destruct (buckets l !! Z.to_nat b) eqn:E; [done|]. apply lookup_ge_None in E. lia.
Qed.

Lemma bucketAt_setB l b p b' : 0 <= b < Z.of_nat (length (buckets l)) -> bucketAt (setB l b p) b' = if b' =? b then Some p else bucketAt l b'.
Proof.
  intros Hb. unfold bucketAt. cbn. destruct (Z.eqb_spec b' b) as [->|Hne].
  - destruct (Z.leb_spec 0 b); [|lia]. by rewrite list_lookup_insert_eq by lia.
  - destruct (Z.leb_spec 0 b'); [|done]. by rewrite list_lookup_insert_ne by lia.
Qed.

Definition isBucket l (b : Z) : Prop := 0 <= b < Z.of_nat (length (elements l)).

(** The positions of a list are those of the chains of their buckets; a bucket starts its
    chain. *)
Record bucketsOk l (live : list Z) (chains : Z -> list Z) : Prop := {
  bk_length : length (buckets l) = length (elements l);
  bk_range : Forall (inRange l) live;
  bk_pos : Forall (fun p => isBucket l (bucketPos (elt l p))) live;
  bk_elem : forall b p, isBucket l b -> p ∈ chains b <-> p ∈ live /\ bucketPos (elt l p) = b;
  bk_ring : forall b, isBucket l b -> ring (nb l) (pb l) (chains b);
  bk_nodup : forall b, isBucket l b -> NoDup (chains b);
  bk_head : forall b, isBucket l b -> bucketAt l b = Some (List.hd emptyBucket (chains b));
}.

Definition setChain (chains : Z -> list Z) (b : Z) (c : list Z) : Z -> list Z := fun b' => if b' =? b then c else chains b'.

(** One chain is changed: the links and the start of the other ones stay. *)
Lemma bucketsOk_change l l' live live' chains b c : bucketsOk l live chains -> length (elements l') = length (elements l) -> length (buckets l') = length (buckets l) ->
  Forall (inRange l) live' -> Forall (fun p => isBucket l (bucketPos (elt l' p))) live' ->
  (forall b' p, isBucket l b' -> b' <> b -> p ∈ live' /\ bucketPos (elt l' p) = b' <-> p ∈ live /\ bucketPos (elt l p) = b') ->
  (forall p, p ∈ c <-> p ∈ live' /\ bucketPos (elt l' p) = b) ->
  (forall b' p, isBucket l b' -> b' <> b -> p ∈ chains b' -> nb l' p = nb l p /\ pb l' p = pb l p) ->
  (forall b', b' <> b -> bucketAt l' b' = bucketAt l b') ->
  ring (nb l') (pb l') c -> NoDup c -> bucketAt l' b = Some (List.hd emptyBucket c) ->
  bucketsOk l' live' (setChain chains b c).
Proof.
  intros [H1 H2 H3 H4 H5 H6 H7] O2 O3 Hrange Hpos Hothers Hc Hlinks Hbuckets Hring Hnd Hhead.
  assert (Hib : forall b', isBucket l' b' <-> isBucket l b') by (intros b'; unfold isBucket; by rewrite O2).
  split.
  - congruence.
  - eapply Forall_impl; [exact Hrange|]. intros p. by apply inRange_length.
  - eapply Forall_impl; [exact Hpos|]. intros p. by rewrite Hib.
  - intros b' p Hb'. unfold setChain. destruct (Z.eqb_spec b' b) as [->|Hne]; [apply Hc|]. apply Hib in Hb'. rewrite H4 by done. symmetry. by apply Hothers.
  - intros b' Hb'. unfold setChain. destruct (Z.eqb_spec b' b) as [->|Hne]; [done|]. apply Hib in Hb'. eapply ring_ext_in; [|by apply H5]. intros p. by apply Hlinks.
  - intros b' Hb'. unfold setChain. destruct (Z.eqb_spec b' b) as [->|Hne]; [done|]. apply Hib in Hb'. by apply H6.
  - intros b' Hb'. unfold setChain. destruct (Z.eqb_spec b' b) as [->|Hne]; [done|]. rewrite Hbuckets by done. by apply H7, Hib.
Qed.

Ltac only_buckets := repeat (eapply bucketOnly_trans; [|apply bucketOnly_upd; [rng|done]]); apply bucketOnly_refl.

Lemma elt_setB l b p q : elt (setB l b p) q = elt l q.
Proof. done. Qed.

Ltac pointwiseB :=
  intros x; unfold nb, pb, fset; rewrite ?elt_setB; repeat rewrite elt_upd by rng;
  repeat (match goal with |- context [?x =? ?y] => destruct (Z.eqb_spec x y) end; subst; cbn; try done; try congruence).

(** The chain of a live position *)
Lemma chain_split l live chains pos : bucketsOk l live chains -> pos ∈ live ->
  isBucket l (bucketPos (elt l pos)) /\ exists c1 c2, chains (bucketPos (elt l pos)) = c1 ++ pos :: c2.
Proof.
  intros H Hpos. pose proof (proj1 (Forall_forall _ _) (bk_pos _ _ _ H) pos Hpos) as Hb. split; [done|]. apply list_elem_of_split. by apply (bk_elem _ _ _ H).
Qed.

Lemma unlinkBucket_ok l o1 pos o2 chains : NoDup (o1 ++ pos :: o2) -> bucketsOk l (o1 ++ pos :: o2) chains ->
  exists l' chains', unlinkBucket l pos = Some l' /\ bucketOnly l l' /\ bucketsOk l' (o1 ++ o2) chains' /\
    forall b, chains b <> [] -> chains' b = [] -> pb l' pos = pos.
Proof.
  intros Hnd H. destruct (NoDup_middle _ _ _ Hnd) as [_ Hnin]. assert (Hlive : pos ∈ o1 ++ pos :: o2) by (rewrite elem_of_app, elem_of_cons; tauto).
  assert (Hsub : forall p, p ∈ o1 ++ o2 <-> p ∈ o1 ++ pos :: o2 /\ p <> pos).
  { intros p. rewrite !elem_of_app, elem_of_cons. split; [intros Hp; split; [tauto|intros ->; apply Hnin; rewrite elem_of_app; tauto]|naive_solver]. }
  destruct (chain_split _ _ _ _ H Hlive) as [Hb (c1 & c2 & Hc)]. set (b := bucketPos (elt l pos)) in *.
  pose proof (bk_ring _ _ _ H b Hb) as Hring. pose proof (bk_nodup _ _ _ H b Hb) as Hcnd. pose proof (bk_elem _ _ _ H b) as Hcel. rewrite Hc in Hring, Hcnd, Hcel.
  assert (Hr : forall p, p ∈ o1 ++ pos :: o2 -> inRange l p) by (apply Forall_forall, H). assert (Hpos : inRange l pos) by (by apply Hr).
  destruct (ring_links _ _ _ _ _ Hring) as [Hn Hp]. pose proof (proj1 (Hcel _ Hb) Hn) as [Hnl Hnb]. pose proof (proj1 (Hcel _ Hb) Hp) as [Hpl Hpb].
  apply Hr in Hnl, Hpl. assert (Hbl : 0 <= b < Z.of_nat (length (buckets l))) by (rewrite (bk_length _ _ _ H); exact Hb).
  destruct (NoDup_middle _ _ _ Hcnd) as [Hcnd' Hcnin]. apply ring_rotate in Hring. cbn [app] in Hring.
  assert (Hfr : forall l', bucketOnly l l' -> (forall b' p, isBucket l b' -> b' <> b -> p ∈ chains b' -> nb l' p = nb l p /\ pb l' p = pb l p) ->
    (forall b', b' <> b -> bucketAt l' b' = bucketAt l b') -> ring (nb l') (pb l') (c2 ++ c1) -> bucketAt l' b = Some (List.hd emptyBucket (c2 ++ c1)) ->
    bucketsOk l' (o1 ++ o2) (setChain chains b (c2 ++ c1))).
  { intros l' Hbo Hlinks Hbuckets Hring' Hhead. assert (Hbp : forall p, bucketPos (elt l' p) = bucketPos (elt l p)) by (intros p; exact (f_equal bucketPos (bo_elt _ _ Hbo p))).
    eapply bucketsOk_change; [done|apply Hbo|apply Hbo|..]; try done.
    - apply Forall_forall. intros p [? _]%Hsub. by apply Hr.
    - apply Forall_forall. intros p [? _]%Hsub. rewrite Hbp. by apply (proj1 (Forall_forall _ _) (bk_pos _ _ _ H)).
    - intros b' p _ Hne. rewrite Hsub, Hbp. split; [tauto|]. intros [? E]. split_and!; try done. intros ->. by rewrite <- E in Hne.
    - intros p. rewrite Hbp, (Permutation_app_comm c2 c1), Hsub. specialize (Hcel p Hb). rewrite elem_of_app, elem_of_cons in Hcel.
      rewrite elem_of_app. split; [intros Hp'; destruct (proj1 Hcel ltac:(tauto)); split_and!; try done; intros ->; apply Hcnin; rewrite elem_of_app; tauto|naive_solver].
    - by rewrite (Permutation_app_comm c2 c1). }
  unfold unlinkBucket. rewrite el_elt by done. cbn [mbind option_bind]. destruct (c2 ++ c1) as [|q m] eqn:Em.
  - destruct Hring as (_ & E1 & E2). cbn in E1, E2. unfold nb, pb in E1, E2. rewrite E1, E2, Z.eqb_refl. cbn [andb]. fold b. rewrite setBucket_setB by done.
    exists (setB l b emptyBucket), (setChain chains b []). split_and!; [done|apply bucketOnly_setB| |intros _ _ _; exact E2]. apply Hfr; [apply bucketOnly_setB|done| |done|].
    + intros b' Hne. rewrite bucketAt_setB by done. by rewrite (proj2 (Z.eqb_neq _ _)).
    + rewrite bucketAt_setB by done. by rewrite Z.eqb_refl.
  - assert (Hpq : pb l pos <> pos).
    { destruct Hring as (_ & _ & E). rewrite last_cons in E. rewrite E. intros E'. apply Hcnin. rewrite <- E'. rewrite (Permutation_app_comm c1 c2), Em. apply last_elem. }
    unfold nb, pb in *. rewrite (proj2 (Z.eqb_neq (prevBucket (elt l pos)) pos)), andb_false_r by done.
    rewrite modEl_upd by done. cbn [mbind option_bind]. rewrite modEl_upd by rng. cbn [mbind option_bind]. rewrite el_elt by rng. cbn [mbind option_bind].
    set (l2 := upd (upd l _ _) _ _). assert (Hbo : bucketOnly l l2) by (unfold l2; only_buckets).
    assert (bucketPos (elt l2 pos) = b) as -> by exact (f_equal bucketPos (bo_elt _ _ Hbo pos)). change (length (buckets l)) with (length (buckets l2)) in Hbl.
    rewrite setBucket_setB by done. exists (setB l2 b (nextBucket (elt l pos))), (setChain chains b (q :: m)). split; [done|]. assert (Hbo' : bucketOnly l (setB l2 b (nextBucket (elt l pos)))) by (eapply bucketOnly_trans; [done|apply bucketOnly_setB]).
    split; [done|]. split; [|unfold setChain; intros b' Hne; by destruct (Z.eqb_spec b' b)]. apply (Hfr _ Hbo').
    + intros b' p Hb' Hne Hp'. apply (bk_elem _ _ _ H b' p Hb') in Hp' as [_ Hp']. rewrite !elt_setB. unfold l2. repeat rewrite elt_upd by rng.
      repeat (match goal with |- context [?x =? ?y] => destruct (Z.eqb_spec x y) end; cbn; subst; try done; try congruence).
    + intros b' Hne. rewrite bucketAt_setB by done. by rewrite (proj2 (Z.eqb_neq _ _)).
    + eapply ring_ext; [| |apply (ring_remove (nb l) (pb l) pos); [|exact Hring]].
      * unfold l2. pointwiseB.
      * unfold l2. pointwiseB.
      * rewrite <- Em. by apply NoDup_first.
    + rewrite bucketAt_setB by done. rewrite Z.eqb_refl. f_equal. cbn. by destruct Hring as ((E & _) & _).
Qed.
End links.
