(* ===== verification/FreeLRUSteps.v ===== *)
(** * Evicting, moving and inserting elements

    What the functions that combine changes of both kinds of rings do: the data of the other
    elements stays, and the rings stay rings. *)

From S2P Require Import Prelude Rings FreeLRU FreeLRULinks.

Section steps.
Context {K V : Type} `{EqDecision K}.
Implicit Types (l : LRU K V) (e : element K V).

(** ** Frames *)

(** The data of an element, and the settings of a cache *)
Definition bare e : element K V := strip (stripB e).
Definition conf l : LRU K V := withHead (withLen (withMetrics (withEvicted (withBuckets (withElements l []) []) []) noMetrics) 0) 0.

Record kept l l' : Prop := {
  kp_conf : conf l' = conf l;
  kp_length : length (elements l') = length (elements l);
  kp_buckets : length (buckets l') = length (buckets l);
}.

Lemma kept_trans l1 l2 l3 : kept l1 l2 -> kept l2 l3 -> kept l1 l3.
Proof. intros [A1 A2 A3] [B1 B2 B3]. split; congruence. Qed.

Lemma kept_time l l' : timeOnly l l' -> kept l l' /\ (forall q, bare (elt l' q) = bare (elt l q)) /\ len l' = len l /\ evicted l' = evicted l.
Proof.
  intros [H1 H2 H3]. split_and!; [split; [|done|]| | |].
  - exact (f_equal conf H1).
  - exact (f_equal (fun l => length (buckets l)) H1).
  - intros q. exact (f_equal stripB (H3 q)).
  - exact (f_equal len H1).
  - exact (f_equal evicted H1).
Qed.

Lemma kept_bucket l l' : bucketOnly l l' -> kept l l' /\ (forall q, bare (elt l' q) = bare (elt l q)) /\ len l' = len l /\ evicted l' = evicted l.
Proof.
  intros [H1 H2 H3 H4]. split_and!; [split; [|done|done]| | |].
  - exact (f_equal conf H1).
  - intros q. exact (f_equal strip (H4 q)).
  - exact (f_equal len H1).
  - exact (f_equal evicted H1).
Qed.

Lemma timeOk_transfer l l' o : length (elements l') = length (elements l) -> (forall q, nx l' q = nx l q /\ pv l' q = pv l q) -> timeOk l o -> timeOk l' o.
Proof.
  intros Hl Hq [H1 H2 H3]. split; [|eapply Forall_impl; [exact H2|intros x; by apply inRange_length]|done]. eapply ring_ext; [| |exact H1]; intros x; apply Hq.
Qed.

Lemma bucketsOk_transfer l l' live chains : length (elements l') = length (elements l) -> buckets l' = buckets l ->
  (forall q, nb l' q = nb l q /\ pb l' q = pb l q /\ bucketPos (elt l' q) = bucketPos (elt l q)) -> bucketsOk l live chains -> bucketsOk l' live chains.
Proof.
  intros Hl Hb Hq [H1 H2 H3 H4 H5 H6 H7]. assert (Hi : forall b, isBucket l' b <-> isBucket l b) by (intros b; unfold isBucket; by rewrite Hl). split.
  - congruence.
  - eapply Forall_impl; [exact H2|]. intros x. by apply inRange_length.
  - eapply Forall_impl; [exact H3|]. intros x. destruct (Hq x) as (_ & _ & ->). by rewrite Hi.
  - intros b p. destruct (Hq p) as (_ & _ & ->). rewrite Hi. apply H4.
  - intros b. rewrite Hi. intros Hb'. eapply ring_ext; [| |by apply H5]; intros x; apply Hq.
  - intros b. rewrite Hi. apply H6.
  - intros b. rewrite Hi. intros Hb'. rewrite <- H7 by done. unfold bucketAt. by rewrite Hb.
Qed.

Lemma timeOk_bucketOnly l l' o : bucketOnly l l' -> timeOk l o -> timeOk l' o.
Proof. intros [H1 H2 H3 H4]. apply timeOk_transfer; [done|]. intros q. split; [exact (f_equal next (H4 q))|exact (f_equal prev (H4 q))]. Qed.

Lemma newestIs_head l l' o : length (elements l') = length (elements l) -> head l' = head l -> newestIs l o -> newestIs l' o.
Proof. intros Hl Hh. destruct o; cbn; rewrite Hh; [by apply inRange_length|done]. Qed.

Lemma bucketsOk_timeOnly l l' live chains : timeOnly l l' -> bucketsOk l live chains -> bucketsOk l' live chains.
Proof.
  intros [H1 H2 H3]. apply bucketsOk_transfer; [done|exact (f_equal buckets H1)|]. intros q.
  split_and!; [exact (f_equal nextBucket (H3 q))|exact (f_equal prevBucket (H3 q))|exact (f_equal bucketPos (H3 q))].
Qed.

(** Both kinds of rings *)
Record linked l (order : list Z) (chains : Z -> list Z) : Prop := {
  lk_time : timeOk l order;
  lk_head : newestIs l order;
  lk_buckets : bucketsOk l order chains;
}.

(** Changes outside of the links *)
Lemma linked_transfer l l' o chains : length (elements l') = length (elements l) -> buckets l' = buckets l -> head l' = head l ->
  (forall q, nx l' q = nx l q /\ pv l' q = pv l q /\ nb l' q = nb l q /\ pb l' q = pb l q /\ bucketPos (elt l' q) = bucketPos (elt l q)) ->
  linked l o chains -> linked l' o chains.
Proof.
  intros Hl Hb Hh Hq [H1 H2 H3]. split; [eapply timeOk_transfer; [done| |done]|by eapply newestIs_head|eapply bucketsOk_transfer; [done|done| |done]]; intros q; specialize (Hq q); tauto.
Qed.

(** ** Eviction *)

Lemma lruEvict_ok l o1 pos o2 chains : linked l (o1 ++ pos :: o2) chains -> 1 <= len l < 2 ^ 32 ->
  exists l' chains', evict l pos = Some l' /\ linked l' (o1 ++ o2) chains' /\ kept l l' /\ (forall q, bare (elt l' q) = bare (elt l q)) /\
    len l' = len l - 1 /\ evicted l' = evicted l ++ (if onEvict l then [(key (elt l pos), value (elt l pos))] else []) /\
    (forall b, chains b <> [] -> chains' b = [] -> pb l' pos = pos).
Proof.
  intros [Ht Hh Hb] Hlen. assert (Hpos : inRange l pos) by (apply (proj1 (Forall_forall _ _) (tm_range _ _ Ht)); rewrite elem_of_app, elem_of_cons; tauto).
  assert (H0 : exists l0, (if pos =? head l then e ← el l pos; Some (withHead l (prev e)) else Some l) = Some l0 /\ timeOnly l l0 /\ timeOk l0 (o1 ++ pos :: o2) /\ newestIs l0 (o1 ++ o2)).
  { destruct (NoDup_middle _ _ _ (tm_nodup _ _ Ht)) as [_ Hnin]. destruct o2 as [|a k].
    - apply newestIs_snoc in Hh as Hh'. rewrite Hh', Z.eqb_refl, el_elt by done. cbn [mbind option_bind]. eexists. split; [done|]. split_and!; [done|by apply (timeOk_transfer l)|].
      rewrite app_nil_r. pose proof (tm_ring _ _ Ht) as Hr. destruct o1 as [|b o1]; [destruct Hr as (_ & _ & E); cbn in E |- *; unfold pv in E; by rewrite E|]. cbn [newestIs withHead head].
      cbn [app ring] in Hr. rewrite path_app in Hr. by destruct Hr as ((_ & _ & E & _) & _).
    - assert (Hl : head l = List.last k a) by (destruct o1 as [|b o1]; cbn [app newestIs] in Hh; by rewrite ?last_app_cons, ?last_cons in Hh).
      rewrite (proj2 (Z.eqb_neq _ _)). { exists l. split_and!; [done|done|done|]. by apply newest_app in Hh. }
      intros ->. apply Hnin. rewrite Hl, elem_of_app. right. apply last_elem. }
  destruct H0 as (l0 & E0 & T0 & K0 & N0). unfold evict. rewrite E0. cbn [mbind option_bind].
  destruct (unlinkElement_ok l0 o1 pos o2 K0) as (l1 & -> & T1 & H1 & K1). cbn [mbind option_bind].
  assert (T01 : timeOnly l l1) by (by eapply timeOnly_trans). pose proof (bucketsOk_timeOnly _ _ _ _ T01 Hb) as B1.
  destruct (unlinkBucket_ok l1 o1 pos o2 chains (tm_nodup _ _ Ht) B1) as (l2 & chains' & -> & O2 & B2 & S2). cbn [mbind option_bind].
  destruct (kept_time _ _ T01) as (KA & KB & KC & KD). destruct (kept_bucket _ _ O2) as (LA & LB & LC & LD).
  assert (Hon : onEvict l2 = onEvict l) by (transitivity (onEvict l1); [exact (f_equal onEvict (kp_conf _ _ LA))|exact (f_equal onEvict (kp_conf _ _ KA))]).
  assert (Hk2 : kept l (withLen l2 (u32 (len l2 - 1)))) by (apply (kept_trans _ l1), (kept_trans _ l2); done).
  assert (Hbare : forall q, bare (elt l2 q) = bare (elt l q)) by (intros q; by rewrite LB, KB).
  assert (Hn2 : newestIs l2 (o1 ++ o2)) by (apply (newestIs_head l1); [apply O2|exact (f_equal head (bo_core _ _ O2))|apply (newestIs_head l0); [apply T1|done|done]]).
  assert (Hlink : linked l2 (o1 ++ o2) chains') by (split; [by eapply timeOk_bucketOnly|done|done]).
  assert (Hlen2 : u32 (len l2 - 1) = len l - 1) by (rewrite LC, KC, wrap_id; [done|unfold fits; lia]).
  cbn [onEvict withLen]. rewrite Hon. destruct (onEvict l).
  - rewrite el_elt by (eapply inRange_length; [|exact Hpos]; apply Hk2). cbn [mbind option_bind]. exists (withEvicted (withLen l2 (u32 (len l2 - 1))) (evicted l2 ++ [(key (elt l2 pos), value (elt l2 pos))])), chains'.
    split_and!; try done; [apply (linked_transfer l2); done|by destruct Hk2|]. cbn. rewrite LD, KD. do 3 f_equal; [exact (f_equal key (Hbare pos))|exact (f_equal value (Hbare pos))].
  - exists (withLen l2 (u32 (len l2 - 1))), chains'. split_and!; try done; [apply (linked_transfer l2); done|]. cbn. by rewrite LD, KD, app_nil_r.
Qed.

(** ** Moving *)

Ltac rng := rewrite ?inRange_upd; assumption.

Ltac elts :=
  rewrite ?elt_withHead, ?elt_setB; repeat rewrite elt_upd by rng;
  repeat (match goal with |- context [?x =? ?y] => destruct (Z.eqb_spec x y) end; subst; cbn; try done; try congruence).

Lemma bare_upd l p f q : inRange l p -> (forall e, bare (f e) = bare e) -> bare (elt (upd l p f) q) = bare (elt l q).
Proof. intros Hp Hf. rewrite elt_upd by done. destruct (Z.eqb_spec q p) as [->|]; [apply Hf|done]. Qed.

(** The array after [from] was moved to [to], before the bucket is adjusted *)
Definition moved l (to from : Z) : LRU K V :=
  let e := elt l from in
  let l4 := upd (upd (upd (upd l (prev e) (setNext to)) (next e) (setPrev to)) (prevBucket e) (setNextBucket to)) (nextBucket e) (setPrevBucket to) in
  upd l4 to (fun _ => elt l4 from).

Lemma moved_ok l to from : inRange l to -> inRange l from -> to <> from ->
  inRange l (prev (elt l from)) -> inRange l (next (elt l from)) -> inRange l (prevBucket (elt l from)) -> inRange l (nextBucket (elt l from)) ->
  (forall q, nx (moved l to from) q = fset (fset (nx l) (pv l from) to) to (fset (nx l) (pv l from) to from) q) /\
  (forall q, pv (moved l to from) q = fset (fset (pv l) (nx l from) to) to (fset (pv l) (nx l from) to from) q) /\
  (forall q, nb (moved l to from) q = fset (fset (nb l) (pb l from) to) to (fset (nb l) (pb l from) to from) q) /\
  (forall q, pb (moved l to from) q = fset (fset (pb l) (nb l from) to) to (fset (pb l) (nb l from) to from) q) /\
  (forall q, bare (elt (moved l to from) q) = if q =? to then bare (elt l from) else bare (elt l q)).
Proof.
  intros H1 H2 Hne H3 H4 H5 H6. unfold moved. split_and!; intros q; [unfold nx, pv, nb, pb, fset; elts..|].
  rewrite elt_upd by rng. destruct (q =? to); repeat rewrite bare_upd by (done || rng); done.
Qed.

Lemma elem_relabel (p : Z) o1 x o2 : p ∈ o1 ++ x :: o2 <-> p ∈ o1 ++ o2 \/ p = x.
Proof. rewrite !elem_of_app, elem_of_cons. tauto. Qed.

Lemma NoDup_relabel (o1 : list Z) x y o2 : NoDup (o1 ++ x :: o2) -> y ∉ o1 ++ x :: o2 -> NoDup (o1 ++ y :: o2).
Proof.
  intros H Hy. rewrite <- Permutation_middle. apply NoDup_middle in H as [H _]. apply NoDup_cons. split; [|done]. intros Hin. apply Hy, elem_relabel. by left.
Qed.

Lemma ring_relabel_at nx pv o1 from to o2 nx' pv' : NoDup (o1 ++ from :: o2) -> to ∉ o1 ++ from :: o2 ->
  (forall q, nx' q = fset (fset nx (pv from) to) to (fset nx (pv from) to from) q) ->
  (forall q, pv' q = fset (fset pv (nx from) to) to (fset pv (nx from) to from) q) ->
  ring nx pv (o1 ++ from :: o2) -> ring nx' pv' (o1 ++ to :: o2).
Proof.
  intros Hnd Hto Hn Hp Hr. apply ring_rotate in Hr. cbn [app] in Hr. apply (ring_rotate nx' pv' (to :: o2) o1). cbn [app].
  eapply ring_ext; [exact Hn|exact Hp|]. apply ring_relabel; [by apply NoDup_first| |done].
  intros Hin. apply Hto. rewrite elem_of_cons, elem_of_app in Hin. rewrite elem_relabel, elem_of_app. tauto.
Qed.

Lemma moved_time l o1 from o2 to chains : linked l (o1 ++ from :: o2) chains -> to ∉ o1 ++ from :: o2 -> inRange l to ->
  inRange l (prevBucket (elt l from)) -> inRange l (nextBucket (elt l from)) ->
  timeOk (moved l to from) (o1 ++ to :: o2) /\ (forall h : LRU K V, head l = from -> newestIs (withHead h to) (o1 ++ to :: o2)) /\
  (head l <> from -> newestIs (moved l to from) (o1 ++ to :: o2)).
Proof.
  intros [[Hr Hrange Hnd] Hh Hb] Hto Hint Hpb Hnb. rewrite Forall_forall in Hrange. assert (Hf : from ∈ o1 ++ from :: o2) by (apply elem_relabel; by right).
  destruct (ring_links _ _ _ _ _ Hr) as [Hn%Hrange Hp%Hrange].
  assert (Hne : to <> from) by (intros ->; done). destruct (moved_ok l to from Hint (Hrange _ Hf) Hne Hp Hn Hpb Hnb) as (M1 & M2 & _).
  assert (Hlen : length (elements (moved l to from)) = length (elements l)) by (cbn; by rewrite !length_insert).
  destruct (NoDup_middle _ _ _ Hnd) as [_ Hnin]. split_and!.
  - split; [by eapply ring_relabel_at| |by eapply NoDup_relabel]. apply Forall_forall. intros p [Hp'| ->]%elem_relabel; eapply inRange_length; [exact Hlen| |exact Hlen|done].
    apply Hrange, elem_relabel. by left.
  - intros h E. destruct o2 as [|a k]; [by apply newestIs_snoc|]. exfalso. apply Hnin. rewrite <- E, elem_of_app. right.
    assert (head l = List.last k a) as ->; [|apply last_elem]. destruct o1 as [|b o1]; cbn [app newestIs] in Hh; by rewrite ?last_app_cons, ?last_cons in Hh.
  - intros E. destruct o2 as [|a k]; [by apply newestIs_snoc in Hh|]. apply newest_app. apply newest_app in Hh. by apply (newestIs_head l).
Qed.

Lemma moved_buckets l o1 from o2 to chains c1 c2 start : linked l (o1 ++ from :: o2) chains -> to ∉ o1 ++ from :: o2 -> inRange l to ->
  let b := bucketPos (elt l from) in isBucket l b -> chains b = c1 ++ from :: c2 -> start = List.hd emptyBucket (c1 ++ to :: c2) ->
  bucketsOk (setB (moved l to from) b start) (o1 ++ to :: o2) (setChain chains b (c1 ++ to :: c2)).
Proof.
  intros [[Hr Hrange Hnd] Hh Hb] Hto Hint b Hib Hc Hstart. rewrite Forall_forall in Hrange. assert (Hf : from ∈ o1 ++ from :: o2) by (apply elem_relabel; by right).
  destruct (ring_links _ _ _ _ _ Hr) as [Hn%Hrange Hp%Hrange]. assert (Hne : to <> from) by (intros ->; done).
  pose proof (bk_ring _ _ _ Hb b Hib) as Hring. pose proof (bk_nodup _ _ _ Hb b Hib) as Hcnd. rewrite Hc in Hring, Hcnd.
  assert (Hcel : forall p, p ∈ c1 ++ from :: c2 <-> p ∈ o1 ++ from :: o2 /\ bucketPos (elt l p) = b) by (intros p; rewrite <- Hc; by apply (bk_elem _ _ _ Hb)).
  destruct (ring_links _ _ _ _ _ Hring) as [Hnc Hpc]. apply Hcel in Hnc as [Hnl Hnb], Hpc as [Hpl Hpb].
  destruct (moved_ok l to from Hint (Hrange _ Hf) Hne Hp Hn (Hrange _ Hpl) (Hrange _ Hnl)) as (_ & _ & M3 & M4 & M5).
  assert (Hbp : forall q, bucketPos (elt (moved l to from) q) = if q =? to then b else bucketPos (elt l q)).
  { intros q. pose proof (f_equal bucketPos (M5 q)) as E. destruct (q =? to); exact E. }
  assert (Hlen : length (elements (moved l to from)) = length (elements l)) by (cbn; by rewrite !length_insert).
  assert (Hbl : 0 <= b < Z.of_nat (length (buckets (moved l to from)))) by (change (length (buckets (moved l to from))) with (length (buckets l)); rewrite (bk_length _ _ _ Hb); exact Hib).
  assert (Hcto : to ∉ c1 ++ from :: c2) by (intros [? _]%Hcel; done). destruct (NoDup_middle _ _ _ Hcnd) as [_ Hcnin]. destruct (NoDup_middle _ _ _ Hnd) as [_ Honin].
  eapply bucketsOk_change; [exact Hb|exact Hlen|cbn; by rewrite length_insert|..].
  - apply Forall_forall. intros p [Hp'| ->]%elem_relabel; [|done]. apply Hrange, elem_relabel. by left.
  - apply Forall_forall. intros p Hp'. rewrite elt_setB, Hbp. destruct (Z.eqb_spec p to) as [->|Hpt]; [done|].
    apply (proj1 (Forall_forall _ _) (bk_pos _ _ _ Hb)). rewrite elem_relabel in Hp' |- *. tauto.
  - intros b' p _ Hbne. rewrite elt_setB, Hbp, !elem_relabel. destruct (Z.eqb_spec p to) as [->|Hpt].
    + split; [intros [_ ?]; congruence|]. intros [Hin _]. exfalso. by apply Hto, elem_relabel.
    + split; [tauto|]. intros [[?| ->] ?]; [tauto|]. exfalso. apply Hbne. symmetry. assumption.
  - intros p. rewrite elt_setB, Hbp, !elem_relabel. destruct (Z.eqb_spec p to) as [->|Hpt]; [split; [split; [by right|done]|by right]|].
    specialize (Hcel p). rewrite !elem_relabel in Hcel. destruct (decide (p = from)) as [->|]; [|tauto]. split; [intros [?|?]; done|intros [[?|?] ?]; done].
  - intros b' p Hb' Hbne Hin. apply (bk_elem _ _ _ Hb b' p Hb') in Hin as [Hin Hpb']. unfold nb, pb. rewrite elt_setB. fold (nb (moved l to from) p) (pb (moved l to from) p).
    assert (p <> to) by (intros ->; done). rewrite M3, M4. unfold nb, pb in *. rewrite !fset_ne by congruence. done.
  - intros b' Hbne. rewrite bucketAt_setB by done. by rewrite (proj2 (Z.eqb_neq _ _)).
  - by apply (ring_relabel_at (nb l) (pb l) c1 from to c2).
  - by eapply NoDup_relabel.
  - rewrite bucketAt_setB by done. by rewrite Z.eqb_refl, Hstart.
Qed.

Lemma moved_withHead l h to from : moved (withHead l h) to from = withHead (moved l to from) h.
Proof. reflexivity. Qed.

Lemma setB_same l b p : bucketAt l b = Some p -> setB l b p = l.
Proof.
  unfold bucketAt, setB. destruct (0 <=? b); [|done]. intros H. rewrite list_insert_id by done. by destruct l.
Qed.

Lemma linked_head l h order chains : timeOk l order -> newestIs (withHead l h) order -> bucketsOk l order chains -> linked (withHead l h) order chains.
Proof. intros H1 H2 H3. split; [by apply (timeOk_transfer l)|done|by apply (bucketsOk_transfer l)]. Qed.

Lemma move_ok l o1 from o2 to chains : linked l (o1 ++ from :: o2) chains -> to ∉ o1 ++ from :: o2 -> inRange l to ->
  exists l' chains', move l to from = Some l' /\ linked l' (o1 ++ to :: o2) chains' /\ kept l l' /\ len l' = len l /\ evicted l' = evicted l /\
    (forall q, bare (elt l' q) = if q =? to then bare (elt l from) else bare (elt l q)).
Proof.
  intros Hlk Hto Hint. pose proof Hlk as [[Hr Hrange Hnd] Hh Hb]. rewrite Forall_forall in Hrange. assert (Hf : from ∈ o1 ++ from :: o2) by (apply elem_relabel; by right).
  pose proof (Hrange _ Hf) as Hfr. destruct (ring_links _ _ _ _ _ Hr) as [Hn%Hrange Hp%Hrange]. assert (Hne : to <> from) by (intros ->; done).
  destruct (chain_split _ _ _ _ Hb Hf) as [Hib (c1 & c2 & Hc)]. set (b := bucketPos (elt l from)) in *.
  pose proof (bk_ring _ _ _ Hb b Hib) as Hring. pose proof (bk_nodup _ _ _ Hb b Hib) as Hcnd. rewrite Hc in Hring, Hcnd.
  assert (Hcr : forall p, p ∈ c1 ++ from :: c2 -> inRange l p) by (intros p Hp'; rewrite <- Hc in Hp'; apply (bk_elem _ _ _ Hb) in Hp' as [? _]; [by apply Hrange|done]).
  destruct (ring_links _ _ _ _ _ Hring) as [Hnc%Hcr Hpc%Hcr]. destruct (moved_ok l to from Hint Hfr Hne Hp Hn Hpc Hnc) as (_ & _ & _ & _ & M5).
  destruct (moved_time l o1 from o2 to chains Hlk Hto Hint Hpc Hnc) as (K1 & N1 & N2).
  unfold nx, pv, nb, pb in *. set (h := if from =? head l then to else head l).
  assert (E : move l to from = (bk ← bucketAt (withHead (moved l to from) h) b; if bk =? from then setBucket (withHead (moved l to from) h) b to else Some (withHead (moved l to from) h))).
  { unfold move. rewrite (proj2 (Z.eqb_neq to from)) by done. assert ((if from =? head l then withHead l to else l) = withHead l h) as -> by (unfold h; destruct (from =? head l); [done|by destruct l]).
    assert (R : forall q, inRange l q -> inRange (withHead l h) q) by done. rewrite el_elt by (by apply R). cbn [mbind option_bind]. rewrite elt_withHead.
    rewrite modEl_upd by (by apply R). cbn [mbind option_bind]. rewrite modEl_upd by (rewrite inRange_upd; by apply R). cbn [mbind option_bind].
    rewrite el_elt by (rewrite !inRange_upd; by apply R). cbn [mbind option_bind]. set (l2 := upd (upd (withHead l h) _ _) _ _).
    assert (T2 : timeOnly (withHead l h) l2) by (unfold l2; apply (timeOnly_trans _ (upd (withHead l h) (prev (elt l from)) (setNext to))); [apply timeOnly_upd; [by apply R|done]|apply timeOnly_upd; [rewrite inRange_upd; by apply R|done]]).
    assert (prevBucket (elt l2 from) = prevBucket (elt l from)) as -> by exact (f_equal prevBucket (to_elt _ _ T2 from)).
    assert (nextBucket (elt l2 from) = nextBucket (elt l from)) as -> by exact (f_equal nextBucket (to_elt _ _ T2 from)). unfold l2.
    rewrite modEl_upd by (rewrite !inRange_upd; by apply R). cbn [mbind option_bind]. rewrite modEl_upd by (rewrite !inRange_upd; by apply R). cbn [mbind option_bind].
    rewrite el_elt by (rewrite !inRange_upd; by apply R). cbn [mbind option_bind]. rewrite modEl_upd by (rewrite !inRange_upd; by apply R). cbn [mbind option_bind].
    assert (bucketPos (elt (upd (upd l2 (prevBucket (elt l from)) (setNextBucket to)) (nextBucket (elt l from)) (setPrevBucket to)) from) = b) as Eb; [|unfold l2 in Eb; rewrite Eb, <- moved_withHead; unfold moved; rewrite elt_withHead; reflexivity].
    transitivity (bucketPos (bare (elt (upd (upd l2 (prevBucket (elt l from)) (setNextBucket to)) (nextBucket (elt l from)) (setPrevBucket to)) from))); [done|].
    unfold l2. repeat rewrite bare_upd by (done || (rewrite ?inRange_upd; by apply R)). done. }
  rewrite E. pose proof (bk_head _ _ _ Hb b Hib) as Hbh. change (bucketAt (withHead (moved l to from) h) b) with (bucketAt l b). rewrite Hbh, Hc. cbn [mbind option_bind].
  assert (Hnew : newestIs (withHead (moved l to from) h) (o1 ++ to :: o2)).
  { unfold h. destruct (Z.eqb_spec from (head l)) as [Eh|Eh]; [by apply N1|]. apply (newestIs_head (moved l to from)); [done|done|]. apply N2. congruence. }
  assert (Hbl : 0 <= b < Z.of_nat (length (buckets (withHead (moved l to from) h)))) by (change (buckets (withHead _ _)) with (buckets l); rewrite (bk_length _ _ _ Hb); exact Hib).
  pose proof (moved_buckets l o1 from o2 to chains c1 c2 (List.hd emptyBucket (c1 ++ to :: c2)) Hlk Hto Hint Hib Hc eq_refl) as Hmb. fold b in Hmb.
  exists (setB (withHead (moved l to from) h) b (List.hd emptyBucket (c1 ++ to :: c2))), (setChain chains b (c1 ++ to :: c2)). split_and!.
  - destruct c1 as [|q c1]; cbn [app List.hd].
    + rewrite Z.eqb_refl. by apply setBucket_setB.
    + rewrite (proj2 (Z.eqb_neq _ _)); [by rewrite setB_same; [|change (bucketAt (withHead (moved l to from) h) b) with (bucketAt l b); rewrite Hbh, Hc]|].
      intros ->. cbn [app] in Hcnd. apply NoDup_cons in Hcnd as [Hx _]. apply Hx. rewrite elem_of_app, elem_of_cons. tauto.
  - split; [by apply (timeOk_transfer (moved l to from))|by apply (newestIs_head (withHead (moved l to from) h))|by apply (bucketsOk_transfer (setB (moved l to from) b (List.hd emptyBucket (c1 ++ to :: c2))))].
  - split; [done|cbn; by rewrite !length_insert|cbn; by rewrite length_insert].
  - done.
  - done.
  - intros q. rewrite elt_setB, elt_withHead. apply M5.
Qed.

(** ** A new element in a bucket *)

(** What the links by bucket are after [pos] was put before the start of the chain of [b] *)
Definition linkedBefore l l' (b pos : Z) (c : list Z) : Prop :=
  match c with
  | [] => nb l' pos = pos /\ pb l' pos = pos /\ forall q, q <> pos -> nb l' q = nb l q /\ pb l' q = pb l q
  | s :: k => (forall q, nb l' q = fset (fset (nb l) (List.last k s) pos) pos s q) /\ (forall q, pb l' q = fset (fset (pb l) pos (List.last k s)) s pos q)
  end.

Lemma link_ok l l' order chains b pos : bucketsOk l order chains -> pos ∉ order -> inRange l pos -> isBucket l b ->
  length (elements l') = length (elements l) -> length (buckets l') = length (buckets l) ->
  (forall q, bucketPos (elt l' q) = if q =? pos then b else bucketPos (elt l q)) ->
  (forall b', bucketAt l' b' = if b' =? b then Some pos else bucketAt l b') ->
  linkedBefore l l' b pos (chains b) -> bucketsOk l' (order ++ [pos]) (setChain chains b (pos :: chains b)).
Proof.
  intros Hb Hpos Hin Hib Hl1 Hl2 Hbp Hba Hlinks. pose proof (bk_elem _ _ _ Hb) as Hel.
  assert (Hout : forall b', isBucket l b' -> pos ∉ chains b') by (intros b' Hb' [? _]%Hel; done).
  eapply bucketsOk_change; [exact Hb|done|done|..].
  - apply Forall_app. split; [apply Hb|by constructor].
  - apply Forall_app. split; [|constructor; [by rewrite Hbp, Z.eqb_refl|done]]. apply Forall_forall. intros p Hp. rewrite Hbp.
    destruct (p =? pos); [done|]. by apply (proj1 (Forall_forall _ _) (bk_pos _ _ _ Hb)).
  - intros b' p Hb' Hne. rewrite Hbp, elem_of_app, list_elem_of_singleton. destruct (Z.eqb_spec p pos) as [->|]; [split; [intros [_ ?]; congruence|intros [? _]; done]|]. tauto.
  - intros p. rewrite Hbp, elem_of_app, list_elem_of_singleton, elem_of_cons. destruct (Z.eqb_spec p pos) as [->|Hp]; [tauto|]. rewrite Hel by done. tauto.
  - intros b' p Hb' Hne Hp. assert (p <> pos) by (intros ->; by apply (Hout b')). destruct (chains b) as [|s k] eqn:E; [by apply Hlinks|].
    destruct Hlinks as [L1 L2]. rewrite L1, L2. assert (Hpc : p ∉ s :: k) by (rewrite <- E; intros [_ Hx]%Hel; [|done]; apply Hel in Hp as [_ Hy]; [congruence|done]).
    rewrite !fset_ne; [done|done|intros ->; apply Hpc; by left|intros ->; by apply Hpc, last_elem|done].
  - intros b' Hne. rewrite Hba. by rewrite (proj2 (Z.eqb_neq _ _)).
  - pose proof (bk_ring _ _ _ Hb b Hib) as Hring. pose proof (bk_nodup _ _ _ Hb b Hib) as Hnd. pose proof (Hout b Hib) as Ho. destruct (chains b) as [|s k].
    + destruct Hlinks as (L1 & L2 & _). by cbn.
    + destruct Hlinks as [L1 L2]. apply (ring_rotate _ _ (s :: k) [pos]). eapply ring_ext; [exact L1|exact L2|]. by apply ring_insert.
  - apply NoDup_cons. split; [by apply Hout|by apply Hb].
  - by rewrite Hba, Z.eqb_refl.
Qed.

(** What putting an element into a bucket keeps *)
Record placed l l' (b pos : Z) : Prop := {
  pl_kept : kept l l';
  pl_head : head l' = head l;
  pl_len : len l' = len l;
  pl_evicted : evicted l' = evicted l;
  pl_time : forall q, nx l' q = nx l q /\ pv l' q = pv l q;
  pl_elt : forall q, bare (elt l' q) = if q =? pos then setBucketPos b (bare (elt l q)) else bare (elt l q);
}.

Lemma linkFirst_ok l order chains b pos : bucketsOk l order chains -> pos ∉ order -> inRange l pos -> isBucket l b -> chains b = [] ->
  exists l', linkFirst l b pos = Some l' /\ placed l l' b pos /\ bucketsOk l' (order ++ [pos]) (setChain chains b (pos :: chains b)).
Proof.
  intros Hb Hpos Hin Hib Hc. assert (Hbl : 0 <= b < Z.of_nat (length (buckets l))) by (rewrite (bk_length _ _ _ Hb); exact Hib).
  assert (R : inRange (setB l b pos) pos) by done. unfold linkFirst. rewrite setBucket_setB by done. cbn [mbind option_bind]. rewrite modEl_upd by done. cbn [mbind option_bind].
  rewrite modEl_upd by rng. cbn [mbind option_bind]. rewrite modEl_upd by rng. eexists. split; [done|]. split.
  - split; try done; [split; cbn; rewrite ?length_insert; done| |]; intros q; [unfold nx, pv; split; elts|]. repeat rewrite elt_upd by rng. rewrite elt_setB. destruct (Z.eqb_spec q pos) as [->|]; [rewrite Z.eqb_refl|]; done.
  - eapply link_ok; try done; cbn [elements upd withElements setB withBuckets buckets]; rewrite ?length_insert; try done.
    + intros q. repeat rewrite elt_upd by rng. rewrite elt_setB. by destruct (Z.eqb_spec q pos) as [->|]; rewrite ?Z.eqb_refl.
    + intros b'. by rewrite <- (bucketAt_setB l b pos b') by done.
    + rewrite Hc. cbn. unfold nb, pb. split_and!; [| |intros q Hq; split]; repeat rewrite elt_upd by rng; rewrite ?elt_setB, ?Z.eqb_refl; try done; by rewrite (proj2 (Z.eqb_neq _ _)).
Qed.

Lemma linkBefore_ok l order chains b pos s k : bucketsOk l order chains -> pos ∉ order -> inRange l pos -> isBucket l b -> chains b = s :: k ->
  exists l', linkBefore l b pos s = Some l' /\ placed l l' b pos /\ bucketsOk l' (order ++ [pos]) (setChain chains b (pos :: chains b)).
Proof.
  intros Hb Hpos Hin Hib Hc. assert (Hbl : 0 <= b < Z.of_nat (length (buckets l))) by (rewrite (bk_length _ _ _ Hb); exact Hib).
  pose proof (bk_elem _ _ _ Hb b) as Hel. pose proof (bk_ring _ _ _ Hb b Hib) as Hring. rewrite Hc in Hel, Hring.
  assert (Hr : forall p, p ∈ s :: k -> inRange l p /\ p <> pos) by (intros p [Hp _]%Hel; [split; [by apply (proj1 (Forall_forall _ _) (bk_range _ _ _ Hb))|intros ->; done]|done]).
  destruct (Hr s) as [Hs Hsp]; [by left|]. destruct (Hr (List.last k s)) as [Ht Htp]; [apply last_elem|]. destruct Hring as (_ & Hn & Hp). unfold nb, pb in Hn, Hp.
  set (l0 := setB l b pos). assert (E0 : forall q, elt l0 q = elt l q) by done. assert (R : forall q, inRange l q -> inRange l0 q) by done. apply R in Hs as Rs, Ht as Rt, Hin as Rp.
  unfold linkBefore. rewrite setBucket_setB by done. cbn [mbind option_bind]. fold l0. rewrite modEl_upd by done. cbn [mbind option_bind].
  rewrite modEl_upd by rng. cbn [mbind option_bind]. rewrite el_elt by rng. cbn [mbind option_bind]. rewrite modEl_upd by rng. cbn [mbind option_bind]. rewrite el_elt by rng. cbn [mbind option_bind].
  assert (Es : forall p f g, prevBucket (elt (upd (upd l0 pos f) pos g) s) = List.last k s /\ prevBucket (elt (upd (upd (upd l0 pos f) pos g) pos p) s) = List.last k s).
  { intros p f g. repeat rewrite elt_upd by rng. by rewrite (proj2 (Z.eqb_neq s pos)). }
  rewrite (proj1 (Es id _ _)), (proj2 (Es _ _ _)). rewrite modEl_upd by rng. cbn [mbind option_bind]. rewrite modEl_upd by rng. eexists. split; [done|]. split.
  - split; try done; [split; cbn; rewrite ?length_insert; done| |]; intros q; [unfold nx, pv; split; elts; rewrite ?E0; congruence|].
    rewrite bare_upd by (done || rng). rewrite bare_upd by (done || rng). repeat rewrite elt_upd by rng. destruct (Z.eqb_spec q pos) as [->|]; [rewrite Z.eqb_refl|]; done.
  - eapply link_ok; try done; cbn [elements upd withElements setB withBuckets buckets]; rewrite ?length_insert; try done.
    + cbn. by rewrite length_insert.
    + intros q. elts; rewrite ?E0; congruence.
    + intros b'. by rewrite <- (bucketAt_setB l b pos b') by done.
    + rewrite Hc. cbn [linkedBefore]. split; intros q; unfold nb, pb, fset; elts; rewrite ?E0; congruence.
Qed.

(** The eviction emptied the bucket: the evicted position still refers to itself. *)
Lemma linkBefore_self l order chains b pos : bucketsOk l order chains -> pos ∉ order -> inRange l pos -> isBucket l b -> chains b = [] -> pb l pos = pos ->
  exists l', linkBefore l b pos pos = Some l' /\ placed l l' b pos /\ bucketsOk l' (order ++ [pos]) (setChain chains b (pos :: chains b)).
Proof.
  intros Hb Hpos Hin Hib Hc Hself. assert (Hbl : 0 <= b < Z.of_nat (length (buckets l))) by (rewrite (bk_length _ _ _ Hb); exact Hib). unfold pb in Hself.
  set (l0 := setB l b pos). assert (E0 : forall q, elt l0 q = elt l q) by done. assert (R : inRange l0 pos) by done.
  unfold linkBefore. rewrite setBucket_setB by done. cbn [mbind option_bind]. fold l0. rewrite modEl_upd by done. cbn [mbind option_bind].
  rewrite modEl_upd by rng. cbn [mbind option_bind]. rewrite el_elt by rng. cbn [mbind option_bind]. rewrite modEl_upd by rng. cbn [mbind option_bind]. rewrite el_elt by rng. cbn [mbind option_bind].
  assert (Es : prevBucket (elt (upd (upd l0 pos (setBucketPos b)) pos (setNextBucket pos)) pos) = pos) by (repeat rewrite elt_upd by rng; by rewrite !Z.eqb_refl).
  rewrite Es. assert (Et : prevBucket (elt (upd (upd (upd l0 pos (setBucketPos b)) pos (setNextBucket pos)) pos (setPrevBucket pos)) pos) = pos) by (repeat rewrite elt_upd by rng; by rewrite !Z.eqb_refl).
  rewrite Et. rewrite modEl_upd by rng. cbn [mbind option_bind]. rewrite modEl_upd by rng. eexists. split; [done|]. split.
  - split; try done; [split; cbn; rewrite ?length_insert; done| |]; intros q; [unfold nx, pv; split; elts|].
    rewrite bare_upd by (done || rng). rewrite bare_upd by (done || rng). repeat rewrite elt_upd by rng. destruct (Z.eqb_spec q pos) as [->|]; [rewrite Z.eqb_refl|]; done.
  - eapply link_ok; try done; cbn [elements upd withElements setB withBuckets buckets]; rewrite ?length_insert; try done.
    + cbn. by rewrite length_insert.
    + intros q. elts.
    + intros b'. by rewrite <- (bucketAt_setB l b pos b') by done.
    + rewrite Hc. cbn [linkedBefore]. unfold nb, pb. split_and!; [| |intros q Hq; split]; repeat rewrite elt_upd by rng; rewrite ?E0, ?Z.eqb_refl; try done; by rewrite (proj2 (Z.eqb_neq _ _)).
Qed.

(** ** Inserting *)

Definition setData (k : K) (v : V) (t d : Z) e : element K V := setTimes t d (setKeyValue k v e).

Lemma insert_ok l order chains now pos k v duration : timeOk l order -> newestIs l order -> bucketsOk l (order ++ [pos]) chains -> pos ∉ order -> inRange l pos ->
  len l = Z.of_nat (length order) -> len l + 1 < 2 ^ 32 ->
  exists l', insert l now pos k v duration = Some l' /\ linked l' (order ++ [pos]) chains /\ kept l l' /\ len l' = len l + 1 /\ evicted l' = evicted l /\
    (forall q, bare (elt l' q) = if q =? pos then setData k v (expireOf now duration) duration (bare (elt l q)) else bare (elt l q)) /\
    (forall q, pb l' q = pb l q).
Proof.
  intros Ht Hh Hb Hpos Hin Hlen Hmax. unfold insert. rewrite modEl_upd by done. cbn [mbind option_bind]. rewrite modEl_upd by rng. cbn [mbind option_bind].
  set (l1 := upd (upd l pos (setKeyValue k v)) pos (setTimes (expireOf now duration) duration)).
  assert (H1 : timeOk l1 order /\ newestIs l1 order /\ bucketsOk l1 (order ++ [pos]) chains /\ kept l l1 /\ inRange l1 pos /\ (forall q, pb l1 q = pb l q) /\
    (forall q, bare (elt l1 q) = if q =? pos then setData k v (expireOf now duration) duration (bare (elt l q)) else bare (elt l q))).
  { assert (Hl : length (elements l1) = length (elements l)) by (cbn; by rewrite !length_insert). split_and!.
    - apply (timeOk_transfer l); [done| |done]. intros q. unfold l1, nx, pv. split; elts.
    - by apply (newestIs_head l).
    - apply (bucketsOk_transfer l); [done|done| |done]. intros q. unfold l1, nb, pb. split_and!; elts.
    - by split.
    - by eapply inRange_length.
    - intros q. unfold l1, pb. elts.
    - intros q. unfold l1. repeat rewrite elt_upd by rng. destruct (Z.eqb_spec q pos) as [->|]; [rewrite Z.eqb_refl|]; done. }
  assert (Hl1 : len l1 = len l /\ evicted l1 = evicted l) by done. change (len (upd _ _ _)) with (len l1).
  destruct H1 as (T1 & N1 & B1 & K1 & R1 & P1 & E1). destruct Hl1 as [L1 V1]. clearbody l1.
  assert (H2 : exists l2, (if len l1 =? 0 then l ← modEl l1 pos (setPrev pos); l ← modEl l pos (setNext pos); Some (withHead l pos)
      else if pos =? head l1 then Some l1 else setHead l1 pos) = Some l2 /\ timeOnly l1 l2 /\ timeOk l2 (order ++ [pos]) /\ newestIs l2 (order ++ [pos])).
  { destruct order as [|a o].
    - rewrite L1, Hlen. cbn [length Z.of_nat Z.eqb]. rewrite modEl_upd by done. cbn [mbind option_bind]. rewrite modEl_upd by rng. cbn [mbind option_bind]. eexists. split; [done|]. split_and!.
      + eapply timeOnly_trans; [|apply timeOnly_head]. apply (timeOnly_trans _ (upd l1 pos (setPrev pos))); [by apply timeOnly_upd|apply timeOnly_upd; [rng|done]].
      + split; [|constructor; [|done]|apply NoDup_singleton]; [|unfold inRange in *; cbn; by rewrite !length_insert]. cbn. unfold nx, pv. rewrite !elt_withHead. repeat rewrite elt_upd by rng. by rewrite !Z.eqb_refl.
      + done.
    - rewrite L1, Hlen. cbn [length]. rewrite (proj2 (Z.eqb_neq _ 0)) by lia. rewrite (proj2 (Z.eqb_neq pos (head l1))); [by apply setHead_ok|].
      cbn in N1. rewrite N1. intros ->. apply Hpos, last_elem. }
  destruct H2 as (l2 & -> & T2 & K2 & N2). cbn [mbind option_bind]. destruct (kept_time _ _ T2) as (KA & KB & KC & KD). pose proof (bucketsOk_timeOnly _ _ _ _ T2 B1) as B2.
  eexists. split; [done|]. split_and!.
  - apply (linked_transfer l2); done.
  - apply (kept_trans _ l1), (kept_trans _ l2); done.
  - cbn. rewrite KC, L1, wrap_id by (unfold fits; lia). done.
  - cbn. congruence.
  - intros q. rewrite <- E1, <- KB. done.
  - intros q. rewrite <- P1. exact (f_equal prevBucket (to_elt _ _ T2 q)).
Qed.
End steps.
