(* ===== verification/FreeLRUSpec.v ===== *)
(** * The LRU cache as a list of entries

    The cache refines a list of entries from the oldest to the newest one: whatever the hash
    function is, every operation succeeds, returns what the operation on the list returns, and
    leaves the cache in step with the list. *)

From S2P Require Import Prelude Rings FreeLRU FreeLRULinks FreeLRUSteps.

Record entry (K V : Type) := mkEntry { enKey : K; enVal : V; enExpire : Z; enLife : Z }.
Arguments mkEntry {K V}. Arguments enKey {K V}. Arguments enVal {K V}. Arguments enExpire {K V}. Arguments enLife {K V}.

Section spec.
Context {K V : Type} `{EqDecision K} (hash : K -> Z) (Hhash : forall k, fits 32 (hash k)).
Implicit Types (l : LRU K V) (e : element K V).

(** ** The representation *)

Record geometry l : Prop := {
  geo_cap : 0 < cap l <= size l;
  geo_size : size l < emptyBucket;
  geo_elements : Z.of_nat (length (elements l)) = size l;
  geo_mask : mask l = 0 \/ exists k, 0 <= k /\ size l = 2 ^ k /\ mask l = size l - 1;
}.

Lemma bucket_ok l h : geometry l -> fits 32 h -> isBucket l (hashToBucketPos l h).
Proof.
  intros [H1 H2 H3 H4] Hh. unfold isBucket, hashToBucketPos, fits, emptyBucket in *. rewrite H3. destruct (Z.eqb_spec (mask l) 0) as [E|E].
  - unfold fastModulo. rewrite (wrap_id 64) by (unfold fits; nia). rewrite Z.shiftr_div_pow2 by lia.
    assert (0 <= h * size l / 2 ^ 32 < size l) by (split; [apply Z.div_pos; nia|apply Z.div_lt_upper_bound; nia]). rewrite wrap_id by (unfold fits; lia). lia.
  - destruct H4 as [?|(k & Hk & Hs & Hm)]; [lia|]. rewrite Hm, Hs, Z.sub_1_r, <- Z.ones_equiv, Z.land_ones by done. apply Z.mod_pos_bound. by apply Z.pow_pos_nonneg.
Qed.

Definition datum l (p : Z) : element K V := bare (elt l p).

Record rep l (order : list Z) (chains : Z -> list Z) (data : list (element K V)) : Prop := {
  rp_geo : geometry l;
  rp_link : linked l order chains;
  rp_live : forall p, p ∈ order <-> 0 <= p < len l;
  rp_len : len l = Z.of_nat (length order) /\ len l <= cap l;
  rp_data : data = datum l <$> order;
  rp_hash : Forall (fun e => bucketPos e = hashToBucketPos l (hash (key e))) data;
  rp_keys : NoDup (key <$> data);
}.

Definition entryOf e : entry K V := mkEntry (key e) (value e) (expire e) (lifetime e).

(** The cache holds the entries of a list. *)
Definition holds l (a : list (entry K V)) : Prop := exists order chains data, rep l order chains data /\ a = entryOf <$> data.

Lemma geometry_kept l l' : kept l l' -> geometry l -> geometry l'.
Proof.
  intros [Hc Hl _] [H1 H2 H3 H4]. assert (cap l' = cap l) by exact (f_equal cap Hc). assert (size l' = size l) by exact (f_equal size Hc). assert (mask l' = mask l) by exact (f_equal mask Hc).
  split; [lia|lia|lia|]. destruct H4 as [?|(k & ? & ? & ?)]; [left; lia|right; exists k; lia].
Qed.

Lemma hashToBucketPos_kept l l' h : kept l l' -> hashToBucketPos l' h = hashToBucketPos l h.
Proof. intros [Hc _ _]. unfold hashToBucketPos. by rewrite (f_equal mask Hc : mask l' = mask l), (f_equal size Hc : size l' = size l). Qed.

Definition dataOk l (d : list (element K V)) : Prop := Forall (fun e => bucketPos e = hashToBucketPos l (hash (key e))) d /\ NoDup (key <$> d).

Lemma dataOk_kept l l' d : kept l l' -> dataOk l d -> dataOk l' d.
Proof. intros Hk [HF Hnd]. split; [|done]. eapply Forall_impl; [exact HF|]. intros e. by rewrite (hashToBucketPos_kept l l'). Qed.

Lemma dataOk_remove l d1 x d2 : dataOk l (d1 ++ x :: d2) -> dataOk l (d1 ++ d2).
Proof.
  intros [HF Hnd]. apply Forall_app in HF as [? [_ ?]%Forall_cons]. split; [by apply Forall_app|]. rewrite fmap_app in *. cbn in Hnd. rewrite <- Permutation_middle in Hnd. by apply NoDup_cons in Hnd as [_ ?].
Qed.

Lemma dataOk_snoc l d x : dataOk l d -> bucketPos x = hashToBucketPos l (hash (key x)) -> key x ∉ key <$> d -> dataOk l (d ++ [x]).
Proof.
  intros [HF Hnd] Hx Hk. split; [apply Forall_app; split; [done|by constructor]|]. rewrite fmap_app. apply NoDup_app. split_and!; [done| |apply NoDup_singleton].
  intros y Hy ->%list_elem_of_singleton. done.
Qed.

(** ** Removal *)

Lemma datum_ext l l' (order : list Z) : (forall p, p ∈ order -> bare (elt l' p) = bare (elt l p)) -> datum l' <$> order = datum l <$> order.
Proof. intros H. apply list_fmap_ext. intros i p Hp. apply H. by eapply list_elem_of_lookup_2. Qed.

(** A write to an element that is not occupied *)
Lemma rep_clear l order chains data p f : rep l order chains data -> inRange l p -> p ∉ order -> (forall e, nextBucket (f e) = nextBucket e /\ prevBucket (f e) = prevBucket e /\
    bucketPos (f e) = bucketPos e /\ next (f e) = next e /\ prev (f e) = prev e) -> rep (upd l p f) order chains data.
Proof.
  intros [H1 H2 H3 H4 H5 H6 H7] Hp Hnin Hf. assert (Hk : kept l (upd l p f)) by (split; cbn; rewrite ?length_insert; done). split; try done.
  - by eapply geometry_kept.
  - apply (linked_transfer l); try done; [cbn; by rewrite length_insert|]. intros q. unfold nx, pv, nb, pb. rewrite elt_upd by done. destruct (Z.eqb_spec q p) as [->|]; [|done]. specialize (Hf (elt l p)). tauto.
  - rewrite H5. symmetry. apply datum_ext. intros q Hq. rewrite elt_upd by done. destruct (Z.eqb_spec q p) as [->|]; done.
Qed.

Lemma removeAt_ok l o1 pos o2 chains d1 x d2 : rep l (o1 ++ pos :: o2) chains (d1 ++ x :: d2) -> length o1 = length d1 ->
  exists l' order' chains', removeAt l pos = Some l' /\ rep l' order' chains' (d1 ++ d2) /\ kept l l' /\
    evicted l' = evicted l ++ (if onEvict l then [(key x, value x)] else []).
Proof.
  intros [H1 H2 H3 [H4 H4'] H5 H6 H7] Ho. rewrite fmap_app, fmap_cons in H5. apply app_inj_1 in H5 as [E1 [= Ex E2]]; [|by rewrite length_fmap].
  assert (Hpos : 0 <= pos < len l) by (apply H3, elem_relabel; by right). pose proof (geo_cap _ H1) as Hcap. pose proof (geo_size _ H1) as Hsize. unfold emptyBucket in Hsize.
  pose proof (tm_nodup _ _ (lk_time _ _ _ H2)) as Hnd. destruct (NoDup_middle _ _ _ Hnd) as [Hnd' Hnin].
  destruct (lruEvict_ok l o1 pos o2 chains H2) as (l1 & ch1 & E & L1 & K1 & B1 & N1 & V1 & _); [lia|]. unfold removeAt. rewrite E. cbn [mbind option_bind].
  assert (Hd1 : datum l1 <$> (o1 ++ o2) = d1 ++ d2) by (rewrite fmap_app, E1, E2; f_equal; apply datum_ext; intros; apply B1).
  assert (Hfrom : 0 <= len l1 < len l) by lia. assert (Hrange : forall q, 0 <= q < len l -> inRange l1 q) by (intros q Hq; eapply inRange_length; [apply K1|]; unfold inRange; rewrite (geo_elements _ H1); lia).
  assert (Hok : dataOk l1 (d1 ++ d2)) by (apply (dataOk_kept l); [done|]; by apply (dataOk_remove l d1 x)).
  assert (Hmove : exists l2 order' ch2, move l1 pos (len l1) = Some l2 /\ linked l2 order' ch2 /\ kept l1 l2 /\ len l2 = len l1 /\ evicted l2 = evicted l1 /\
    datum l2 <$> order' = d1 ++ d2 /\ (forall p, p ∈ order' <-> 0 <= p < len l1) /\ length order' = length (o1 ++ o2)).
  { destruct (decide (pos = len l1)) as [Heq|Hne].
    - exists l1, (o1 ++ o2), ch1. unfold move. rewrite (proj2 (Z.eqb_eq _ _)) by done. split_and!; try done. intros p. specialize (H3 p). rewrite elem_relabel in H3.
      split; [intros Hp; assert (p <> pos) by (intros ->; done); assert (0 <= p < len l) by (apply H3; by left); lia|]. intros Hp. destruct (proj2 H3 ltac:(lia)) as [?|?]; [done|lia].
    - assert (Hin : len l1 ∈ o1 ++ o2). { specialize (H3 (len l1)). rewrite elem_relabel in H3. destruct (proj2 H3 ltac:(lia)) as [?|?]; [done|lia]. }
      apply list_elem_of_split in Hin as (q1 & q2 & Hq). assert (Hin : len l1 ∈ o1 ++ o2) by (rewrite Hq; apply elem_relabel; by right). rewrite Hq in L1, Hnd', Hd1. assert (Hnin' : pos ∉ q1 ++ len l1 :: q2) by (by rewrite <- Hq).
      destruct (move_ok l1 q1 (len l1) q2 pos ch1 L1 Hnin' (Hrange pos ltac:(lia))) as (l2 & ch2 & Em & L2 & K2 & N2 & V2 & B2). exists l2, (q1 ++ pos :: q2), ch2.
      destruct (NoDup_middle _ _ _ Hnd') as [_ Hq']. split_and!; try done.
      + rewrite <- Hd1, !fmap_app, !fmap_cons. f_equal; [|f_equal]; [apply datum_ext| |apply datum_ext].
        * intros p Hp. rewrite B2, (proj2 (Z.eqb_neq p pos)); [done|]. intros ->. apply Hnin'. rewrite elem_of_app. by left.
        * unfold datum. rewrite B2, Z.eqb_refl. done.
        * intros p Hp. rewrite B2, (proj2 (Z.eqb_neq p pos)); [done|]. intros ->. apply Hnin'. rewrite elem_of_app, elem_of_cons. tauto.
      + intros p. specialize (H3 p). rewrite elem_relabel, Hq, elem_relabel in H3. rewrite elem_relabel. split.
        * intros [Hp| ->]; [|lia]. assert (p <> len l1) by (intros ->; done). assert (0 <= p < len l) by tauto. lia.
        * intros Hp. destruct (proj2 H3 ltac:(lia)) as [[?|?]|?]; [by left|lia|by right].
      + rewrite Hq, !length_app. done. }
  destruct Hmove as (l2 & order' & ch2 & -> & L2 & K2 & N2 & V2 & D2 & Hlive & Hlen). cbn [mbind option_bind].
  assert (K02 : kept l l2) by (by eapply kept_trans). assert (K12 : kept l1 (countRemoval l2)) by (by destruct K2). assert (K03 : kept l (countRemoval l2)) by (by destruct K02).
  assert (Hrep : rep (countRemoval l2) order' ch2 (d1 ++ d2)).
  { split; cbn; try done.
    - by apply (geometry_kept l).
    - apply (linked_transfer l2); done.
    - by rewrite N2.
    - split; [|assert (cap l2 = cap l) as -> by exact (f_equal cap (kp_conf _ _ K02)); lia]. rewrite N2, N1, H4, Hlen, !length_app. cbn. lia.
    - apply (dataOk_kept l1 (countRemoval l2)); done.
    - apply Hok. }
  rewrite modEl_upd.
  2: { change (len (countRemoval l2)) with (len l2). rewrite N2. eapply (inRange_length l1 (countRemoval l2)); [apply K2|]. apply Hrange. lia. }
  eexists _, order', ch2. split; [done|]. split_and!.
  - apply rep_clear; [done| | |done].
    + change (len (countRemoval l2)) with (len l2). rewrite N2. eapply (inRange_length l1 (countRemoval l2)); [apply K2|]. apply Hrange. lia.
    + change (len (countRemoval l2)) with (len l2). rewrite N2, Hlive. lia.
  - apply (kept_trans _ l2); [done|]. split; cbn; rewrite ?length_insert; done.
  - cbn. rewrite V2, V1, Ex. done.
Qed.

(** ** Searching *)

Definition isKey l (k : K) (p : Z) : bool := bool_decide (k = key (elt l p)).

Lemma walk_ok l s c k : ring (nb l) (pb l) (s :: c) -> NoDup (s :: c) -> Forall (inRange l) (s :: c) ->
  forall c2 c1 p fuel, s :: c = c1 ++ p :: c2 -> (S (length c2) <= fuel)%nat -> walk fuel l k s p = Some (List.find (isKey l k) (p :: c2)).
Proof.
  intros Hr Hnd Hin. rewrite Forall_forall in Hin. induction c2 as [|q c2 IH]; intros c1 p fuel Hc Hf; (destruct fuel as [|fuel]; [lia|]); cbn [walk];
    rewrite el_elt by (apply Hin; rewrite Hc; apply elem_relabel; by right); cbn [mbind option_bind List.find]; unfold isKey at 1;
    (destruct (decide (k = key (elt l p))) as [Hk|Hk]; [by rewrite bool_decide_true by done|rewrite bool_decide_false by done]).
  - assert (nextBucket (elt l p) = s) as ->; [|by rewrite Z.eqb_refl]. destruct Hr as (_ & Hn & _). assert (List.last c s = p) as E; [|by rewrite E in Hn].
    destruct c1 as [|a c1]; [by injection Hc as -> ->|]. injection Hc as -> ->. by rewrite last_app_cons.
  - assert (nextBucket (elt l p) = q) as ->.
    { destruct Hr as (Hp & _). destruct c1 as [|a c1]; [injection Hc as -> ->; by destruct Hp|]. injection Hc as -> ->. apply path_app in Hp as (_ & _ & _ & Hp). by destruct Hp. }
    rewrite (proj2 (Z.eqb_neq q s)).
    + apply (IH (c1 ++ [p])); [by rewrite <- app_assoc|cbn in Hf; lia].
    + intros ->. rewrite Hc in Hnd. destruct c1 as [|a c1]; [injection Hc as -> ->; by apply NoDup_cons in Hnd as [Hx _]; apply Hx; left|].
      injection Hc as -> ->. cbn [app] in Hnd. apply NoDup_cons in Hnd as [Hx _]. apply Hx. rewrite elem_of_app, !elem_of_cons. tauto.
Qed.

Lemma chain_length l (c : list Z) : NoDup c -> Forall (inRange l) c -> (length c <= length (elements l))%nat.
Proof.
  intros Hnd Hin. rewrite <- (Nat2Z.id (length (elements l))), <- (length_seqZ 0). apply submseteq_length, NoDup_submseteq; [done|].
  intros x Hx. apply elem_of_seqZ. rewrite Forall_forall in Hin. specialize (Hin x Hx). unfold inRange in Hin. lia.
Qed.

(** The occupied position of a key, and its datum *)
Definition at_ l (order : list Z) (data : list (element K V)) (k : K) (pos : Z) : Prop :=
  exists o1 o2 d1 x d2, order = o1 ++ pos :: o2 /\ data = d1 ++ x :: d2 /\ length o1 = length d1 /\ key x = k /\ x = datum l pos.

Lemma locate_ok l order chains data k : rep l order chains data -> exists found, locate l (hash k) k = Some found /\
  match found with
  | Some pos => at_ l order data k pos
  | None => k ∉ key <$> data
  end /\ bucketAt l (hashToBucketPos l (hash k)) = Some (List.hd emptyBucket (chains (hashToBucketPos l (hash k)))) /\
  (found <> None -> chains (hashToBucketPos l (hash k)) <> []).
Proof.
  intros [H1 H2 H3 H4 H5 H6 H7]. pose proof (bucket_ok l _ H1 (Hhash k)) as Hib. set (b := hashToBucketPos l (hash k)) in *. pose proof (lk_buckets _ _ _ H2) as Hb.
  pose proof (bk_head _ _ _ Hb b Hib) as Hhd. pose proof (bk_elem _ _ _ Hb b) as Hel. pose proof (bk_ring _ _ _ Hb b Hib) as Hring. pose proof (bk_nodup _ _ _ Hb b Hib) as Hnd.
  assert (Hin : Forall (inRange l) (chains b)). { apply Forall_forall. intros p [Hp _]%Hel; [|done]. by apply (proj1 (Forall_forall _ _) (bk_range _ _ _ Hb)). }
  assert (Hkey : forall p, p ∈ order -> key (elt l p) = k -> p ∈ chains b).
  { intros p Hp Hk. apply Hel; [done|]. split; [done|]. rewrite Forall_forall in H6. specialize (H6 (datum l p)). rewrite H5 in H6. specialize (H6 ltac:(by apply list_elem_of_fmap_2)). cbn in H6. by rewrite Hk in H6. }
  assert (Hnone : (forall p, p ∈ chains b -> key (elt l p) <> k) -> k ∉ key <$> data).
  { intros Hno (x & Hx & Hin')%list_elem_of_fmap. subst data. apply list_elem_of_fmap in Hin' as (p & -> & Hp). symmetry in Hx. apply (Hno p); [by apply Hkey|done]. }
  unfold locate. fold b. rewrite Hhd. cbn [mbind option_bind]. destruct (chains b) as [|s c] eqn:Ec; cbn [List.hd].
  - rewrite Z.eqb_refl. exists None. split_and!; try done. apply Hnone. intros p Hp. by apply not_elem_of_nil in Hp.
  - assert (Hs : s =? emptyBucket = false). { apply Z.eqb_neq. intros ->. apply Forall_cons in Hin as [Hs _]. unfold inRange in Hs. rewrite (geo_elements _ H1) in Hs. pose proof (geo_size _ H1). lia. }
    rewrite Hs, (walk_ok l s c k Hring Hnd Hin c [] s) by (done || (apply chain_length in Hin; [cbn in Hin; lia|done])).
    exists (List.find (isKey l k) (s :: c)). split; [done|]. destruct (List.find (isKey l k) (s :: c)) as [pos|] eqn:Ef.
    + apply find_some in Ef as [Hpos%list_elem_of_In Hk]. unfold isKey in Hk. apply bool_decide_eq_true in Hk. apply Hel in Hpos as [Hpos _]; [|done]. split_and!; try done.
      apply list_elem_of_split in Hpos as (o1 & o2 & ->). exists o1, o2, (datum l <$> o1), (datum l pos), (datum l <$> o2). rewrite H5, fmap_app, fmap_cons, length_fmap. by split_and!.
    + split_and!; try done. apply Hnone. intros p Hp Hk. eapply find_none in Ef; [|by apply list_elem_of_In]. unfold isKey in Ef. by rewrite bool_decide_true in Ef.
Qed.

(** ** Changes in place *)

Lemma touch_rep l o1 pos o2 chains d1 x d2 : rep l (o1 ++ pos :: o2) chains (d1 ++ x :: d2) -> length o1 = length d1 ->
  exists l', touch l pos = Some l' /\ rep l' ((o1 ++ o2) ++ [pos]) chains ((d1 ++ d2) ++ [x]) /\ kept l l' /\ evicted l' = evicted l /\ len l' = len l /\ (forall q, bare (elt l' q) = bare (elt l q)).
Proof.
  intros [H1 H2 H3 [H4 H4'] H5 H6 H7] Ho. rewrite fmap_app, fmap_cons in H5. apply app_inj_1 in H5 as [E1 [= Ex E2]]; [|by rewrite length_fmap].
  destruct (touch_ok l o1 pos o2 (lk_time _ _ _ H2) (lk_head _ _ _ H2)) as (l' & -> & T & K' & N'). destruct (kept_time _ _ T) as (KA & KB & KC & KD).
  exists l'. split; [done|]. split_and!; try done. assert (Hperm : (o1 ++ o2) ++ [pos] ≡ₚ o1 ++ pos :: o2) by (by rewrite <- !Permutation_middle, app_nil_r).
  assert (Hpd : (d1 ++ d2) ++ [x] ≡ₚ d1 ++ x :: d2) by (by rewrite <- !Permutation_middle, app_nil_r). split.
  - by eapply geometry_kept.
  - split; [done|done|]. pose proof (bucketsOk_timeOnly _ _ _ _ T (lk_buckets _ _ _ H2)) as [B1 B2 B3 B4 B5 B6 B7]. split; try done; [by rewrite Hperm|by rewrite Hperm|]. intros b p Hb. rewrite Hperm. by apply B4.
  - intros p. rewrite Hperm, KC. apply H3.
  - rewrite KC, Hperm. split; [done|]. assert (cap l' = cap l) as -> by exact (f_equal cap (kp_conf _ _ KA)). done.
  - rewrite !fmap_app, E1, E2, Ex. f_equal; [f_equal; symmetry; apply datum_ext; intros; apply KB|]. cbn. unfold datum. by rewrite KB.
  - rewrite Hpd. eapply Forall_impl; [exact H6|]. intros e. by rewrite (hashToBucketPos_kept l l').
  - by rewrite Hpd.
Qed.

(** A write to the value and the times of an element *)
Lemma write_rep l o1 pos o2 chains d1 x d2 f : rep l (o1 ++ pos :: o2) chains (d1 ++ x :: d2) -> length o1 = length d1 ->
  (forall e, bare (f e) = f (bare e) /\ key (f e) = key e /\ nextBucket (f e) = nextBucket e /\ prevBucket (f e) = prevBucket e /\ bucketPos (f e) = bucketPos e /\ next (f e) = next e /\ prev (f e) = prev e) ->
  modEl l pos f = Some (upd l pos f) /\ rep (upd l pos f) (o1 ++ pos :: o2) chains (d1 ++ f x :: d2) /\ kept l (upd l pos f).
Proof.
  intros [H1 H2 H3 H4 H5 H6 H7] Ho Hf. rewrite fmap_app, fmap_cons in H5. apply app_inj_1 in H5 as [E1 [= Ex E2]]; [|by rewrite length_fmap].
  pose proof (lk_time _ _ _ H2) as Ht. assert (Hp : inRange l pos) by (apply (proj1 (Forall_forall _ _) (tm_range _ _ Ht)), elem_relabel; by right).
  destruct (NoDup_middle _ _ _ (tm_nodup _ _ Ht)) as [_ Hnin]. rewrite elem_of_app in Hnin.
  assert (Hk : kept l (upd l pos f)) by (split; cbn; rewrite ?length_insert; done). split_and!; [by apply modEl_upd| |done].
  assert (Hq : forall q, elt (upd l pos f) q = if q =? pos then f (elt l pos) else elt l q) by (intros q; by apply elt_upd). split; try done.
  - by eapply geometry_kept.
  - apply (linked_transfer l); try done; [cbn; by rewrite length_insert|]. intros q. unfold nx, pv, nb, pb. rewrite Hq. destruct (Z.eqb_spec q pos) as [->|]; [|done]. specialize (Hf (elt l pos)). tauto.
  - rewrite fmap_app, fmap_cons, E1, E2, Ex. f_equal; [|f_equal]; [symmetry; apply datum_ext| |symmetry; apply datum_ext].
    + intros p Hp'. rewrite Hq. destruct (Z.eqb_spec p pos) as [->|]; [tauto|done].
    + unfold datum. rewrite Hq, Z.eqb_refl. symmetry. apply Hf.
    + intros p Hp'. rewrite Hq. destruct (Z.eqb_spec p pos) as [->|]; [tauto|done].
  - apply Forall_app in H6 as [? [Hx ?]%Forall_cons]. apply Forall_app. split; [done|]. constructor; [|done]. specialize (Hf x) as (_ & -> & _ & _ & -> & _). done.
  - rewrite fmap_app, fmap_cons in *. by rewrite (proj1 (proj2 (Hf x))).
Qed.

(** ** Adding *)

(** A cache with a free position *)
Record room l (pos : Z) (order : list Z) (chains : Z -> list Z) (data : list (element K V)) : Prop := {
  rm_geo : geometry l;
  rm_link : linked l order chains;
  rm_out : pos ∉ order;
  rm_in : inRange l pos;
  rm_live : forall p, p ∈ order \/ p = pos <-> 0 <= p < len l + 1;
  rm_len : len l = Z.of_nat (length order) /\ len l < cap l;
  rm_data : data = datum l <$> order;
  rm_ok : dataOk l data;
}.

Lemma makeRoom_ok l order chains data : rep l order chains data ->
  exists pos full l' order' chains' data', makeRoom l = Some (pos, full, l') /\ room l' pos order' chains' data' /\ kept l l' /\
    (if full : bool then exists x, data = x :: data' /\ len l = cap l /\ evicted l' = evicted l ++ (if onEvict l then [(key x, value x)] else [])
     else data' = data /\ len l < cap l /\ evicted l' = evicted l /\ chains' = chains) /\
    (forall b, chains b <> [] -> chains' b = [] -> pb l' pos = pos) /\ (forall b, isBucket l b -> chains b = [] -> chains' b = []).
Proof.
  intros [H1 H2 H3 [H4 H4'] H5 H6 H7]. pose proof (geo_cap _ H1) as Hcap. pose proof (geo_size _ H1) as Hsize. unfold emptyBucket in Hsize. unfold makeRoom. destruct (Z.eqb_spec (len l) (cap l)) as [Efull|Efull].
  - destruct order as [|pos order]; [cbn in H4; lia|]. destruct data as [|x data]; [done|]. injection H5 as Ex Ed.
    assert (Hh : inRange l (head l)). { apply (proj1 (Forall_forall _ _) (tm_range _ _ (lk_time _ _ _ H2))). pose proof (lk_head _ _ _ H2) as E. cbn in E. rewrite E. apply last_elem. }
    rewrite el_elt by done. cbn [mbind option_bind]. assert (next (elt l (head l)) = pos) as ->.
    { pose proof (lk_head _ _ _ H2) as E. cbn in E. rewrite E. by destruct (tm_ring _ _ (lk_time _ _ _ H2)) as (_ & ? & _). }
    destruct (lruEvict_ok l [] pos order chains H2) as (l1 & ch1 & -> & L1 & K1 & B1 & N1 & V1 & S1); [lia|]. cbn [mbind option_bind].
    pose proof (tm_nodup _ _ (lk_time _ _ _ H2)) as Hnd. apply NoDup_cons in Hnd as [Hnin _].
    exists pos, true, (countEviction l1), order, ch1, data. split; [done|]. assert (Hk : kept l (countEviction l1)) by (by destruct K1). assert (Hc : cap l1 = cap l) by exact (f_equal cap (kp_conf _ _ K1)). split_and!; try done.
    + split; cbn; try done.
      * by eapply geometry_kept.
      * by apply (linked_transfer l1).
      * eapply (inRange_length l (countEviction l1)); [apply Hk|]. apply (proj1 (Forall_forall _ _) (tm_range _ _ (lk_time _ _ _ H2))). by left.
      * intros p. specialize (H3 p). rewrite elem_of_cons in H3. rewrite N1, Z.sub_add. tauto.
      * rewrite Hc. cbn in H4. lia.
      * rewrite Ed. symmetry. apply datum_ext. intros. apply B1.
      * apply (dataOk_kept l); [done|]. by apply (dataOk_remove l [] x).
    + exists x. split_and!; try done. rewrite Ex. exact V1.
    + intros b Hb Hc'. destruct (ch1 b) as [|p c] eqn:Ec; [done|]. exfalso. assert (Hp : p ∈ ch1 b) by (rewrite Ec; by left).
      apply (bk_elem _ _ _ (lk_buckets _ _ _ L1)) in Hp as [Hp Hpb]; [|unfold isBucket in *; by rewrite (kp_length _ _ K1)].
      assert (Hin : p ∈ chains b); [|rewrite Hc' in Hin; by apply not_elem_of_nil in Hin]. apply (bk_elem _ _ _ (lk_buckets _ _ _ H2)); [done|]. split; [by right|].
      rewrite <- Hpb. symmetry. exact (f_equal bucketPos (B1 p)).
  - exists (len l), false, l, order, chains, data. split; [done|]. assert (Hout : len l ∉ order) by (intros ?%H3; lia). split_and!; try done; try lia; try (intros; congruence).
    split; try done; [| |lia].
    + unfold inRange. rewrite (geo_elements _ H1). lia.
    + intros p. rewrite H3. lia.
Qed.

Definition newElement (k : K) (v : V) (t d b : Z) : element K V := mkElement k v 0 0 b 0 0 t d.

(** The new element is linked and filled. *)
Lemma insert_rep l l1 pos order chains data now k v duration : room l pos order chains data -> k ∉ key <$> data -> let b := hashToBucketPos l (hash k) in
  placed l l1 b pos -> bucketsOk l1 (order ++ [pos]) (setChain chains b (pos :: chains b)) ->
  exists l', insert l1 now pos k v duration = Some l' /\ kept l l' /\ evicted l' = evicted l /\
    rep l' (order ++ [pos]) (setChain chains b (pos :: chains b)) (data ++ [newElement k v (expireOf now duration) duration b]) /\ inRange l' pos.
Proof.
  intros [H1 H2 H3 H4 H5 [H6 H6'] H7 H8] Hk b [P1 P2 P3 P4 P5 P6] Hb. pose proof (geo_cap _ H1) as Hcap. pose proof (geo_size _ H1) as Hsize. unfold emptyBucket in Hsize.
  assert (T1 : timeOk l1 order) by (apply (timeOk_transfer l); [apply P1|done|apply H2]). assert (N1 : newestIs l1 order) by (apply (newestIs_head l); [apply P1|done|apply H2]).
  assert (R1 : inRange l1 pos) by (eapply inRange_length; [apply P1|done]).
  destruct (insert_ok l1 order _ now pos k v duration T1 N1 Hb H3 R1) as (l' & -> & L' & K' & N' & V' & B' & _); [by rewrite P3|lia|].
  assert (Hk' : kept l l') by (by eapply kept_trans). exists l'. split; [done|]. split_and!; try done; [congruence| |eapply inRange_length; [apply K'|done]]. 
  assert (Hbare : forall q, q ∈ order -> bare (elt l' q) = bare (elt l q)).
  { intros q Hq. rewrite B', (proj2 (Z.eqb_neq q pos)), P6, (proj2 (Z.eqb_neq q pos)) by (intros ->; done). done. }
  assert (Hd : dataOk l' (data ++ [newElement k v (expireOf now duration) duration b])).
  { apply (dataOk_kept l); [done|]. by apply dataOk_snoc. }
  split; try done.
  - by eapply geometry_kept.
  - intros p. rewrite elem_of_app, list_elem_of_singleton, N', P3. apply H5.
  - rewrite length_app, N', P3, H6. cbn. split; [lia|]. assert (cap l' = cap l) as -> by exact (f_equal cap (kp_conf _ _ Hk')). lia.
  - rewrite fmap_app, H7. f_equal; [symmetry; by apply datum_ext|]. cbn. f_equal. unfold datum. rewrite B', Z.eqb_refl, P6, Z.eqb_refl. done.
  - apply Hd.
  - apply Hd.
Qed.
End spec.
