(* ===== verification/FreeLRURefine.v ===== *)
(** * The operations of the LRU cache

    A list of entries, from the oldest to the newest, with the obvious operations, and the
    refinement: a cache of any size with any hash function answers a sequence of operations as
    the list does and calls the eviction callback for the same entries in the same order. *)

From S2P Require Import Prelude Rings FreeLRU FreeLRULinks FreeLRUSteps FreeLRUSpec.

(** ** The specification *)

(** What a cache is set to *)
Record settings (K V : Type) := mkSettings { sCap : Z; sOnEvict : bool; sCheck : option (K -> V -> bool); sLife : Z }.
Arguments mkSettings {K V}. Arguments sCap {K V}. Arguments sOnEvict {K V}. Arguments sCheck {K V}. Arguments sLife {K V}.

(** The entries from the oldest to the newest, and the calls of the callback *)
Record entries (K V : Type) := mkEntries { list_ : list (entry K V); gone : list (K * V) }.
Arguments mkEntries {K V}. Arguments list_ {K V}. Arguments gone {K V}.

Inductive op (K V : Type) :=
  | OpAdd (k : K) (v : V)
  | OpAddWithLifetime (k : K) (v : V) (duration : Z)
  | OpGet (k : K)
  | OpGetWithLifetime (expires : bool) (k : K)
  | OpGetAndRefresh (k : K)
  | OpGetAndRefreshOrAdd (k : K) (constructor : option V)
  | OpPeek (k : K)
  | OpPeekWithLifetime (k : K)
  | OpContains (k : K)
  | OpUpdateLifetime (k : K) (v : V) (duration : Z)
  | OpRemove (k : K)
  | OpRemoveOldest
  | OpKeys
  | OpPurgeExpired
  | OpPurge.
Arguments OpAdd {K V}. Arguments OpAddWithLifetime {K V}. Arguments OpGet {K V}. Arguments OpGetWithLifetime {K V}. Arguments OpGetAndRefresh {K V}.
Arguments OpGetAndRefreshOrAdd {K V}. Arguments OpPeek {K V}. Arguments OpPeekWithLifetime {K V}. Arguments OpContains {K V}. Arguments OpUpdateLifetime {K V}.
Arguments OpRemove {K V}. Arguments OpRemoveOldest {K V}. Arguments OpKeys {K V}. Arguments OpPurgeExpired {K V}. Arguments OpPurge {K V}.

Inductive answer (K V : Type) :=
  | Flag (b : bool)
  | Found (v : option V)
  | FoundUntil (v : option (V * Z))
  | FoundOr (v : option V) (updated : bool)
  | Taken (kv : option (K * V))
  | AllKeys (ks : list K)
  | Done.
Arguments Flag {K V}. Arguments Found {K V}. Arguments FoundUntil {K V}. Arguments FoundOr {K V}. Arguments Taken {K V}. Arguments AllKeys {K V}. Arguments Done {K V}.

Section refine.
Context {K V : Type} `{EqDecision K} `{EqDecision V}.
Implicit Types (l : LRU K V) (a : entries K V) (x : entry K V).

Section abstract.
Context (S : settings K V) (now : Z).

Definition lookupKey (k : K) (m : list (entry K V)) : option (entry K V) := List.find (fun x => bool_decide (enKey x = k)) m.
Definition without (k : K) (m : list (entry K V)) : list (entry K V) := filter (fun x => enKey x <> k) m.

Definition expiredE x : bool := negb (enExpire x =? 0) && (enExpire x <=? now).
Definition sick (k : K) (v : V) : bool := match sCheck S with Some check => negb (check k v) | None => false end.
Definition event x : list (K * V) := if sOnEvict S then [(enKey x, enVal x)] else [].

(** Taking an entry out calls the callback. *)
Definition takeOut x a : entries K V := mkEntries (without (enKey x) (list_ a)) (gone a ++ event x).

Definition asNewest x a : entries K V := mkEntries (without (enKey x) (list_ a) ++ [x]) (gone a).

(** An entry that expired or is not healthy is removed when it is met. *)
Definition absFind (expires : bool) (k : K) a : option (entry K V) * entries K V :=
  match lookupKey k (list_ a) with
  | None => (None, a)
  | Some x => if (expires && expiredE x) || sick k (enVal x) then (None, takeOut x a) else (Some x, a)
  end.

Definition absAdd (k : K) (v : V) (duration : Z) a : bool * entries K V :=
  let x := mkEntry k v (expireOf now duration) duration in
  match lookupKey k (list_ a), list_ a with
  | Some _, _ => (false, asNewest x a)
  | None, oldest :: _ => if Z.of_nat (length (list_ a)) =? sCap S then (true, asNewest x (takeOut oldest a)) else (false, asNewest x a)
  | None, [] => (false, asNewest x a)
  end.

Definition absPurgeExpired a : entries K V :=
  mkEntries (filter (fun x => expiredE x = false) (list_ a)) (gone a ++ concat (event <$> filter (fun x => expiredE x = true) (list_ a))).

Definition refreshed x : entry K V := mkEntry (enKey x) (enVal x) (expireOf now (enLife x)) (enLife x).

(** [getAndRefreshOrAdd] *)
Definition absRefreshOrAdd (k : K) (constructor : option V) a : option V * bool * entries K V :=
  let '(f, a) := absFind false k a in
  match f, constructor with
  | Some x, _ => (Some (enVal x), true, asNewest (refreshed x) a)
  | None, None => (None, false, a)
  | None, Some v => (Some v, false, (absAdd k v (sLife S) a).2)
  end.

Definition absOp (o : op K V) a : answer K V * entries K V :=
  match o with
  | OpAdd k v => let '(b, a) := absAdd k v (sLife S) a in (Flag b, a)
  | OpAddWithLifetime k v d => let '(b, a) := absAdd k v d a in (Flag b, a)
  | OpGet k => let '(f, a) := absFind true k a in match f with Some x => (Found (Some (enVal x)), asNewest x a) | None => (Found None, a) end
  | OpGetWithLifetime expires k =>
      let '(f, a) := absFind expires k a in match f with Some x => (FoundUntil (Some (enVal x, enExpire x)), asNewest x a) | None => (FoundUntil None, a) end
  | OpGetAndRefresh k =>
      let '(f, a) := absFind false k a in match f with Some x => (Found (Some (enVal x)), asNewest (refreshed x) a) | None => (Found None, a) end
  | OpGetAndRefreshOrAdd k constructor =>
      let '(v, updated, a) := absRefreshOrAdd k constructor a in
      (FoundOr v updated, if negb updated && bool_decide (is_Some v) then absPurgeExpired a else a)
  | OpPeek k => let '(f, a) := absFind true k a in (Found (enVal <$> f), a)
  | OpPeekWithLifetime k => let '(f, a) := absFind true k a in (FoundUntil ((fun x => (enVal x, enExpire x)) <$> f), a)
  | OpContains k => let '(f, a) := absFind true k a in (Flag (bool_decide (is_Some f)), a)
  | OpUpdateLifetime k v d =>
      match lookupKey k (list_ a) with
      | Some x => if decide (enVal x = v) then (Flag true, asNewest (mkEntry k v (expireOf now d) d) a) else (Flag false, a)
      | None => (Flag false, a)
      end
  | OpRemove k => let '(f, a) := absFind false k a in match f with Some x => (Flag true, takeOut x a) | None => (Flag false, a) end
  | OpRemoveOldest => match list_ a with [] => (Taken None, a) | x :: _ => (Taken (Some (enKey x, enVal x)), takeOut x a) end
  | OpKeys => let a := absPurgeExpired a in (AllKeys (enKey <$> list_ a), a)
  | OpPurgeExpired => (Done, absPurgeExpired a)
  | OpPurge => (Done, mkEntries [] (gone a ++ concat (event <$> list_ a)))
  end.
End abstract.

(** ** The cache *)

Definition runOp (hash : K -> Z) (now : Z) (o : op K V) l : option (answer K V * LRU K V) :=
  match o with
  | OpAdd k v => '(b, l) ← Add hash l now k v; Some (Flag b, l)
  | OpAddWithLifetime k v d => '(b, l) ← AddWithLifetime hash l now k v d; Some (Flag b, l)
  | OpGet k => '(v, l) ← Get hash l now k; Some (Found v, l)
  | OpGetWithLifetime true k => '(v, l) ← getWithLifetime l now (hash k) k; Some (FoundUntil v, l)
  | OpGetWithLifetime false k => '(v, l) ← getWithLifetimeNoExpire l now (hash k) k; Some (FoundUntil v, l)
  | OpGetAndRefresh k => '(v, l) ← GetAndRefresh hash l now k; Some (Found v, l)
  | OpGetAndRefreshOrAdd k c => '(v, updated, l) ← GetAndRefreshOrAdd hash l now k c; Some (FoundOr v updated, l)
  | OpPeek k => '(v, l) ← Peek hash l now k; Some (Found v, l)
  | OpPeekWithLifetime k => '(v, l) ← peekWithLifetime l now (hash k) k; Some (FoundUntil v, l)
  | OpContains k => '(b, l) ← Contains hash l now k; Some (Flag b, l)
  | OpUpdateLifetime k v d => '(b, l) ← updateLifetime l now (hash k) k v d; Some (Flag b, l)
  | OpRemove k => '(b, l) ← Remove hash l now k; Some (Flag b, l)
  | OpRemoveOldest => '(kv, l) ← RemoveOldest l; Some (Taken kv, l)
  | OpKeys => '(ks, l) ← Keys l now; Some (AllKeys ks, l)
  | OpPurgeExpired => l ← PurgeExpired l now; Some (Done, l)
  | OpPurge => l ← Purge l; Some (Done, l)
  end.

Fixpoint runOps (hash : K -> Z) (ops : list (Z * op K V)) l : option (list (answer K V) * LRU K V) :=
  match ops with
  | [] => Some ([], l)
  | (now, o) :: ops => '(r, l) ← runOp hash now o l; '(rs, l) ← runOps hash ops l; Some (r :: rs, l)
  end.

Fixpoint absOps (S : settings K V) (ops : list (Z * op K V)) a : list (answer K V) * entries K V :=
  match ops with
  | [] => ([], a)
  | (now, o) :: ops => let '(r, a) := absOp S now o a in let '(rs, a) := absOps S ops a in (r :: rs, a)
  end.

(** ** Entries and data *)

Lemma lookup_middle (d1 d2 : list (element K V)) e : NoDup (key <$> (d1 ++ e :: d2)) -> lookupKey (key e) (entryOf <$> (d1 ++ e :: d2)) = Some (entryOf e).
Proof.
  unfold lookupKey. induction d1 as [|d d1 IH]; cbn; intros H; [by rewrite bool_decide_true|]. apply NoDup_cons in H as [Hd H].
  rewrite bool_decide_false; [by apply IH|]. intros E. apply Hd. rewrite E, fmap_app, elem_of_app. right. by left.
Qed.

Lemma lookup_none (d : list (element K V)) k : k ∉ key <$> d -> lookupKey k (entryOf <$> d) = None.
Proof.
  unfold lookupKey. induction d as [|e d IH]; cbn; [done|]. intros [Hne H]%not_elem_of_cons. rewrite bool_decide_false by done. by apply IH.
Qed.

Lemma without_none (d : list (element K V)) k : k ∉ key <$> d -> without k (entryOf <$> d) = entryOf <$> d.
Proof.
  unfold without. induction d as [|e d IH]; [done|]. rewrite !fmap_cons. intros [Hne H]%not_elem_of_cons. rewrite filter_cons_True by (cbn; congruence). by rewrite IH.
Qed.

Lemma without_middle (d1 d2 : list (element K V)) e : NoDup (key <$> (d1 ++ e :: d2)) -> without (key e) (entryOf <$> (d1 ++ e :: d2)) = entryOf <$> (d1 ++ d2).
Proof.
  intros H. rewrite !fmap_app, fmap_cons in *. apply NoDup_app in H as (_ & Hd & H). apply NoDup_cons in H as [He _]. unfold without. rewrite filter_app, filter_cons_False by (intros Hx; by apply Hx).
  fold (without (key e) (entryOf <$> d1)) (without (key e) (entryOf <$> d2)). rewrite !without_none; [done|done|]. intros Hin. apply (Hd _ Hin). by left.
Qed.

(** ** The relation *)

Context (hash : K -> Z) (Hhash : forall k, fits 32 (hash k)) (S : settings K V).

Record setTo l : Prop := {
  st_cap : cap l = sCap S;
  st_evict : onEvict l = sOnEvict S;
  st_check : healthCheck l = sCheck S;
  st_life : lruLifetime l = sLife S;
}.

Lemma setTo_kept l l' : kept l l' -> setTo l -> setTo l'.
Proof.
  intros [Hc _ _] [H1 H2 H3 H4]. split; [rewrite <- H1; exact (f_equal cap Hc)|rewrite <- H2; exact (f_equal onEvict Hc)|rewrite <- H3; exact (f_equal healthCheck Hc)|rewrite <- H4; exact (f_equal lruLifetime Hc)].
Qed.

Record models l a : Prop := {
  md_holds : holds hash l (list_ a);
  md_gone : evicted l = gone a;
  md_set : setTo l;
}.

Lemma models_step l l' order chains data m g : setTo l -> kept l l' -> rep hash l' order chains data -> m = entryOf <$> data -> evicted l' = g -> models l' (mkEntries m g).
Proof. intros H1 H2 H3 -> <-. split; [by exists order, chains, data|done|by eapply setTo_kept]. Qed.

(** Counters do not matter. *)
Lemma rep_metrics l order chains data m : rep hash l order chains data -> rep hash (withMetrics l m) order chains data.
Proof. intros [R1 R2 R3 R4 R5 R6 R7]. split; try done; [by destruct R1; split|by apply (linked_transfer l)]. Qed.

Lemma models_metrics l a m : models l a -> models (withMetrics l m) a.
Proof.
  intros [(order & chains & data & R & E) H2 [A1 A2 A3 A4]]. split; [|done|by split]. exists order, chains, data. split; [by apply rep_metrics|done].
Qed.

(** An occupied position of the cache and its entry *)
Definition located l a (pos : Z) x : Prop :=
  exists o1 o2 chains d1 e d2, rep hash l (o1 ++ pos :: o2) chains (d1 ++ e :: d2) /\ length o1 = length d1 /\ e = datum l pos /\ list_ a = entryOf <$> (d1 ++ e :: d2) /\ x = entryOf e.

Lemma located_el l a pos x : located l a pos x -> exists e, el l pos = Some e /\ entryOf e = x.
Proof.
  intros (o1 & o2 & chains & d1 & e & d2 & R & _ & -> & _ & ->). exists (elt l pos). split; [|done]. apply el_elt.
  apply (proj1 (Forall_forall _ _) (tm_range _ _ (lk_time _ _ _ (rp_link _ _ _ _ _ R)))), elem_relabel. by right.
Qed.

Lemma removeAt_models l a pos x : models l a -> located l a pos x -> exists l', removeAt l pos = Some l' /\ models l' (takeOut S x a).
Proof.
  intros [_ Hg Hs] (o1 & o2 & chains & d1 & e & d2 & R & Ho & He & Ha & ->). destruct (removeAt_ok hash l o1 pos o2 chains d1 e d2 R Ho) as (l' & o' & ch' & E & R' & K' & V').
  exists l'. split; [done|]. eapply models_step; [exact Hs|exact K'|exact R'| |].
  - rewrite Ha. apply without_middle, R.
  - rewrite V', Hg, (st_evict _ Hs). done.
Qed.

Lemma touch_models l a pos x : models l a -> located l a pos x -> exists l', touch l pos = Some l' /\ models l' (asNewest x a) /\ located l' (asNewest x a) pos x.
Proof.
  intros [_ Hg Hs] (o1 & o2 & chains & d1 & e & d2 & R & Ho & He & Ha & ->). destruct (touch_rep hash l o1 pos o2 chains d1 e d2 R Ho) as (l' & E & R' & K' & V' & N' & B').
  exists l'. assert (Hm : without (enKey (entryOf e)) (list_ a) ++ [entryOf e] = entryOf <$> ((d1 ++ d2) ++ [e])) by (rewrite Ha; cbn [enKey entryOf]; rewrite (without_middle d1 d2 e) by apply R; by rewrite (fmap_app entryOf (d1 ++ d2))).
  split_and!; [done|eapply models_step; [exact Hs|exact K'|exact R'|done|congruence]|]. exists (o1 ++ o2), [], chains, (d1 ++ d2), e, []. split_and!; try done; [rewrite !length_app; pose proof (rp_data _ _ _ _ _ R) as Hd|].
  - apply (f_equal length) in Hd. rewrite length_fmap, !length_app in Hd. cbn in Hd. lia.
  - unfold datum. rewrite B'. done.
Qed.

Lemma locate_models l a k : models l a -> exists found, locate l (hash k) k = Some found /\
  match found with Some pos => exists x, located l a pos x /\ lookupKey k (list_ a) = Some x /\ enKey x = k | None => lookupKey k (list_ a) = None end.
Proof.
  intros [(order & chains & data & R & E) _ _]. destruct (locate_ok hash Hhash l order chains data k R) as (found & Hf & Hm & _). exists found. split; [done|]. destruct found as [pos|].
  - destruct Hm as (o1 & o2 & d1 & e & d2 & -> & -> & Ho & Hk & He). exists (entryOf e). split_and!; [by exists o1, o2, chains, d1, e, d2| |done]. rewrite E, <- Hk. apply lookup_middle, R.
  - rewrite E. by apply lookup_none.
Qed.

Lemma find_models l a expires now k : models l a -> exists found l', findWith expires l now (hash k) k = Some (found, l') /\ models l' (absFind S now expires k a).2 /\
  match found with
  | Some pos => exists x, located l' (absFind S now expires k a).2 pos x /\ (absFind S now expires k a).1 = Some x /\ enKey x = k
  | None => (absFind S now expires k a).1 = None
  end.
Proof.
  intros Hm. destruct (locate_models l a k Hm) as (found & Hf & Hx). unfold findWith, absFind. rewrite Hf. cbn [mbind option_bind]. destruct found as [pos|].
  - destruct Hx as (x & Hloc & -> & Hk). destruct (located_el _ _ _ _ Hloc) as (e & -> & He). cbn [mbind option_bind].
    assert (Hc : (expires && isExpired now e) || unhealthy l k (value e) = (expires && expiredE now x) || sick S k (enVal x)).
    { unfold unhealthy, sick, isExpired, expiredE. rewrite (st_check _ (md_set _ _ Hm)). by rewrite <- He. }
    rewrite Hc. destruct ((expires && expiredE now x) || sick S k (enVal x)).
    + destruct (removeAt_models l a pos x Hm Hloc) as (l' & -> & Hm'). cbn [mbind option_bind]. exists None, l'. done.
    + exists (Some pos), l. split_and!; try done. by exists x.
  - rewrite Hx. exists None, l. done.
Qed.

(** A change of the value and the times of an entry in its place *)
Definition inPlace (f : element K V -> element K V) : Prop := forall e,
  bare (f e) = f (bare e) /\ key (f e) = key e /\ nextBucket (f e) = nextBucket e /\ prevBucket (f e) = prevBucket e /\ bucketPos (f e) = bucketPos e /\ next (f e) = next e /\ prev (f e) = prev e.

Lemma middle_unique (m1 m2 n1 n2 : list (entry K V)) x : NoDup (enKey <$> (m1 ++ x :: m2)) -> m1 ++ x :: m2 = n1 ++ x :: n2 -> m1 = n1 /\ m2 = n2.
Proof.
  revert n1. induction m1 as [|y m1 IH]; intros [|z n1] Hnd E; cbn in E.
  - by injection E as ->.
  - injection E as <- ->. cbn in Hnd. apply NoDup_cons in Hnd as [Hx _]. exfalso. apply Hx. rewrite fmap_app, elem_of_app. right. by left.
  - injection E as -> <-. cbn in Hnd. apply NoDup_cons in Hnd as [Hx _]. exfalso. apply Hx. rewrite fmap_app, elem_of_app. right. by left.
  - injection E as -> E. cbn in Hnd. apply NoDup_cons in Hnd as [_ Hnd]. destruct (IH _ Hnd E) as [-> ->]. done.
Qed.

Lemma write_models l a pos x f y m1 m2 : models l a -> located l a pos x -> inPlace f -> (forall e, entryOf e = x -> entryOf (f e) = y) -> list_ a = m1 ++ x :: m2 ->
  modEl l pos f = Some (upd l pos f) /\ models (upd l pos f) (mkEntries (m1 ++ y :: m2) (gone a)) /\ located (upd l pos f) (mkEntries (m1 ++ y :: m2) (gone a)) pos y.
Proof.
  intros [_ Hg Hs] (o1 & o2 & chains & d1 & e & d2 & R & Ho & He & Ha & Hx) Hf Hy Hm. destruct (write_rep hash l o1 pos o2 chains d1 e d2 f R Ho Hf) as (E & R' & K').
  assert (Hu : m1 = entryOf <$> d1 /\ m2 = entryOf <$> d2).
  { apply (middle_unique _ _ _ _ x); [|by rewrite <- Hm, Ha, fmap_app, fmap_cons, Hx]. rewrite <- Hm, Ha, <- list_fmap_compose. exact (rp_keys _ _ _ _ _ R). }
  assert (Hl : m1 ++ y :: m2 = entryOf <$> (d1 ++ f e :: d2)) by (rewrite fmap_app, fmap_cons, (Hy e) by done; by destruct Hu as [-> ->]).
  split_and!; [done|by eapply models_step|]. exists o1, o2, chains, d1, (f e), d2. split_and!; try done; [|by rewrite (Hy e)].
  pose proof (rp_data _ _ _ _ _ R') as Hd. rewrite fmap_app, fmap_cons in Hd. apply app_inj_1 in Hd as [_ [= Hd _]]; [done|by rewrite length_fmap].
Qed.

Lemma lookup_split k m x : lookupKey k m = Some x -> exists m1 m2, m = m1 ++ x :: m2.
Proof. unfold lookupKey. intros [Hin%list_elem_of_In _]%find_some. by apply list_elem_of_split. Qed.

Lemma models_keys l a : models l a -> NoDup (enKey <$> list_ a).
Proof. intros [(order & chains & data & R & ->) _ _]. rewrite <- list_fmap_compose. exact (rp_keys _ _ _ _ _ R). Qed.

Lemma filter_id {A} (P : A -> Prop) `{!forall y : A, Decision (P y)} (m : list A) : Forall P m -> filter P m = m.
Proof. induction 1 as [|y m Hy _ IH]; [done|]. rewrite filter_cons_True by done. by rewrite IH. Qed.

Lemma filter_none {A} (P : A -> Prop) `{!forall y : A, Decision (P y)} (m : list A) : Forall (fun y => ~ P y) m -> filter P m = [].
Proof. induction 1 as [|y m Hy _ IH]; [done|]. by rewrite filter_cons_False. Qed.

Lemma without_list (m1 m2 : list (entry K V)) x y : NoDup (enKey <$> (m1 ++ x :: m2)) -> enKey y = enKey x -> without (enKey x) (m1 ++ y :: m2) = m1 ++ m2.
Proof.
  intros H E. rewrite fmap_app, fmap_cons in H. apply NoDup_app in H as (_ & Hd & H). apply NoDup_cons in H as [He _]. unfold without. rewrite filter_app, filter_cons_False by (intros Hx; by apply Hx).
  rewrite !filter_id; [done| |]; apply Forall_forall; intros z Hz Hk.
  - apply He. rewrite <- Hk. by apply list_elem_of_fmap_2.
  - apply (Hd (enKey z)); [by apply list_elem_of_fmap_2|]. rewrite Hk. by left.
Qed.

(** The changed entry becomes the newest one. *)
Lemma write_touch_models l a pos x f y : models l a -> located l a pos x -> inPlace f -> (forall e, entryOf e = x -> entryOf (f e) = y) -> enKey y = enKey x ->
  lookupKey (enKey x) (list_ a) = Some x ->
  exists l', (l ← modEl l pos f; touch l pos) = Some l' /\ models l' (asNewest y a) /\ located l' (asNewest y a) pos y.
Proof.
  intros Hm Hloc Hf Hy Hk Hx. destruct (lookup_split _ _ _ Hx) as (m1 & m2 & E). pose proof (models_keys _ _ Hm) as Hnd. rewrite E in Hnd.
  destruct (write_models l a pos x f y m1 m2 Hm Hloc Hf Hy E) as (-> & Hm' & Hloc'). cbn [mbind option_bind]. destruct (touch_models _ _ _ _ Hm' Hloc') as (l' & -> & Hm'' & Hloc'').
  assert (Hn : asNewest y (mkEntries (m1 ++ y :: m2) (gone a)) = asNewest y a).
  { unfold asNewest. cbn [list_ gone]. rewrite E, Hk, !without_list by (done || by rewrite Hk). done. }
  rewrite Hn in Hm'', Hloc''. by exists l'.
Qed.

(** ** Adding *)

Lemma newest_fresh k m x : lookupKey k m = None -> enKey x = k -> without (enKey x) m ++ [x] = m ++ [x].
Proof.
  intros Hn <-. f_equal. apply filter_id, Forall_forall. intros y Hy Hk. unfold lookupKey in Hn. eapply find_none in Hn; [|by apply list_elem_of_In]. by rewrite bool_decide_true in Hn.
Qed.

Lemma absAdd_fresh now k v d a (data data' : list (element K V)) (full : bool) (e : element K V) : lookupKey k (list_ a) = None -> list_ a = entryOf <$> data -> NoDup (key <$> data) ->
  k ∉ key <$> data' -> entryOf e = mkEntry k v (expireOf now d) d ->
  (if full then exists o : element K V, data = o :: data' /\ Z.of_nat (length data) = sCap S else data' = data /\ Z.of_nat (length data) < sCap S) ->
  (absAdd S now k v d a).1 = full /\ list_ (absAdd S now k v d a).2 = entryOf <$> (data' ++ [e]) /\
  gone (absAdd S now k v d a).2 = gone a ++ (if full then match data with x :: _ => if sOnEvict S then [(key x, value x)] else [] | [] => [] end else []).
Proof.
  intros Hn Ha Hnd Hk He Hfull. unfold absAdd. rewrite Hn, Ha. rewrite fmap_app. destruct full.
  - destruct Hfull as (x & -> & Hlen). rewrite fmap_cons. rewrite length_cons, length_fmap. cbn [length] in Hlen. rewrite (proj2 (Z.eqb_eq _ _)) by done. split_and!; [done| |done].
    unfold asNewest, takeOut. cbn [list_ fst snd]. rewrite Ha. change (enKey (entryOf x)) with (key x).
    pose proof (without_middle [] data' x Hnd) as W. cbn [app] in W. rewrite W. cbn [enKey]. rewrite without_none by done. cbn. by rewrite He.
  - destruct Hfull as (-> & Hlen). assert (Hnew : without k (list_ a) ++ [mkEntry k v (expireOf now d) d] = entryOf <$> data ++ [e]).
    { rewrite Ha, without_none, fmap_app by done. cbn. by rewrite He. }
    rewrite app_nil_r. destruct data as [|x data]; cbn [fmap list_fmap].
    + split_and!; [done| |done]. cbn. rewrite Ha. cbn. by rewrite He.
    + rewrite length_cons. change (list_fmap _ _ entryOf data) with (entryOf <$> data). rewrite length_fmap. cbn [length] in Hlen. rewrite (proj2 (Z.eqb_neq _ _)) by lia.
      split_and!; [done| |done]. unfold asNewest. cbn [list_ fst snd enKey]. rewrite Hnew, fmap_app. done.
Qed.

(** The element that was given room is linked and filled. *)
Lemma fill_models l a order chains data pos (full : bool) l1 order' chains' data' l2 now k v d :
  models l a -> rep hash l order chains data -> list_ a = entryOf <$> data -> k ∉ key <$> data -> room hash l1 pos order' chains' data' -> kept l l1 ->
  (if full then exists x : element K V, data = x :: data' /\ len l = cap l /\ evicted l1 = evicted l ++ (if onEvict l then [(key x, value x)] else [])
   else data' = data /\ len l < cap l /\ evicted l1 = evicted l /\ chains' = chains) ->
  let b := hashToBucketPos l (hash k) in
  placed l1 l2 b pos -> bucketsOk l2 (order' ++ [pos]) (setChain chains' b (pos :: chains' b)) ->
  exists l', insert l2 now pos k v d = Some l' /\ models l' (absAdd S now k v d a).2 /\ (absAdd S now k v d a).1 = full /\ inRange l' pos.
Proof.
  intros Hm R Ha Hk Hroom K1 Hfull b P B. assert (Eb : b = hashToBucketPos l1 (hash k)) by (symmetry; by apply hashToBucketPos_kept). rewrite Eb in P, B.
  assert (Hk' : k ∉ key <$> data') by (destruct full; [destruct Hfull as (x & -> & _); by intros ?; apply Hk; right|by destruct Hfull as (-> & _)]).
  destruct (insert_rep hash l1 l2 pos order' chains' data' now k v d Hroom Hk' P B) as (l' & E & K' & V' & R' & I'). exists l'. split; [done|].
  pose proof (md_set _ _ Hm) as Hs. pose proof (rp_len _ _ _ _ _ R) as [Hlen _]. assert (Hd : length order = length data) by (rewrite (rp_data _ _ _ _ _ R); by rewrite length_fmap).
  destruct (absAdd_fresh now k v d a data data' full (newElement k v (expireOf now d) d (hashToBucketPos l1 (hash k)))) as (A1 & A2 & A3); try done.
  - rewrite Ha. by apply lookup_none.
  - apply R.
  - pose proof (st_cap _ Hs). destruct full; [destruct Hfull as (x & ? & ? & _); exists x; split; [done|lia]|destruct Hfull as (? & ? & _); split; [done|lia]].
  - split_and!; try done. destruct (absAdd S now k v d a) as [r [m g]]. cbn [fst snd list_ gone] in *. eapply (models_step l l'); [done|by eapply kept_trans|exact R'|done|].
    rewrite V', A3, <- (md_gone _ _ Hm). destruct full; [destruct Hfull as (x & -> & _ & ->); by rewrite (st_evict _ Hs)|destruct Hfull as (_ & _ & -> & _); by rewrite app_nil_r].
Qed.

Lemma inPlace_times t d : inPlace (setTimes t d).
Proof. done. Qed.

Lemma inPlace_valueTimes v t d : inPlace (fun e => setTimes t d (setValue v e)).
Proof. done. Qed.

Lemma modEl_twice l pos f g : (l ← modEl l pos f; modEl l pos g) = modEl l pos (fun e => g (f e)).
Proof.
  unfold modEl, el. destruct (Z.leb_spec 0 pos) as [Hp|Hp]; [|done]. destruct (elements l !! Z.to_nat pos) as [e|] eqn:E; cbn; [|done].
  rewrite list_lookup_insert_eq by (by eapply lookup_lt_Some). cbn. unfold withElements. cbn. by rewrite list_insert_insert_eq.
Qed.

Lemma chain_head l order chains b s c : geometry l -> linked l order chains -> isBucket l b -> chains b = s :: c -> s <> emptyBucket.
Proof.
  intros G L Hb Hc ->. assert (Hin : emptyBucket ∈ chains b) by (rewrite Hc; by left). apply (bk_elem _ _ _ (lk_buckets _ _ _ L)) in Hin as [Hin _]; [|done].
  apply (proj1 (Forall_forall _ _) (tm_range _ _ (lk_time _ _ _ L))) in Hin. unfold inRange in Hin. rewrite (geo_elements _ G) in Hin. pose proof (geo_size _ G). lia.
Qed.

(** The element goes before the first one of its bucket, which may have been evicted. *)
Lemma relink_ok l pos order chains data b first (full : bool) : room hash l pos order chains data -> isBucket l b -> (chains b = [] -> full = true /\ pb l pos = pos) ->
  (full = false -> first = List.hd emptyBucket (chains b)) ->
  exists start l', (if full then b0 ← bucketAt l b; Some (if b0 =? emptyBucket then pos else b0) else Some first) = Some start /\
    linkBefore l b pos start = Some l' /\ placed l l' b pos /\ bucketsOk l' (order ++ [pos]) (setChain chains b (pos :: chains b)).
Proof.
  intros [G1 G2 G3 G4 G5 G6 G7 G8] Hib Hself Hfirst. pose proof (lk_buckets _ _ _ G2) as B. rewrite (bk_head _ _ _ B b Hib). cbn [mbind option_bind]. destruct (chains b) as [|s c] eqn:Ec; cbn [List.hd] in *.
  - destruct (Hself eq_refl) as [-> Hp]. rewrite Z.eqb_refl. destruct (linkBefore_self l order chains b pos B G3 G4 Hib Ec Hp) as (l' & ? & ? & HB). rewrite Ec in HB. by exists pos, l'.
  - destruct (linkBefore_ok l order chains b pos s c B G3 G4 Hib Ec) as (l' & ? & ? & HB). rewrite Ec in HB. exists s, l'. split; [|done].
    rewrite (proj2 (Z.eqb_neq s emptyBucket)) by (by eapply chain_head). destruct full; [done|]. by rewrite Hfirst.
Qed.

Lemma add_models l a now k v d : models l a -> exists l', addWithLifetime l now (hash k) k v d = Some ((absAdd S now k v d a).1, l') /\ models l' (absAdd S now k v d a).2.
Proof.
  intros Hm. destruct (md_holds _ _ Hm) as (order & chains & data & R & Ha). destruct (locate_ok hash Hhash l order chains data k R) as (found & Hloc & Hf & Hb & Hne).
  pose proof (locate_models l a k Hm) as (found' & Hloc' & Hfound). rewrite Hloc in Hloc'. injection Hloc' as <-.
  pose proof (bucket_ok l _ (rp_geo _ _ _ _ _ R) (Hhash k)) as Hib. unfold addWithLifetime. unfold locate in Hloc. set (b := hashToBucketPos l (hash k)) in *. rewrite Hb in *. cbn [mbind option_bind] in *.
  destruct (makeRoom_ok hash l order chains data R) as (pos & full & l1 & order' & chains' & data' & Hmr & Hroom & K1 & Hfull & Hself & Hempty).
  assert (Hib1 : isBucket l1 b) by (unfold isBucket in *; by rewrite (kp_length _ _ K1)).
  pose proof (fun l2 => fill_models l a order chains data pos full l1 order' chains' data' l2 now k v d Hm R Ha) as Hfill.
  destruct Hroom as [G1 G2 G3 G4 G5 G6 G7 G8] eqn:Er. clear Er. pose proof (lk_buckets _ _ _ G2) as B1.
  destruct (Z.eqb_spec (List.hd emptyBucket (chains b)) emptyBucket) as [E|E].
  - injection Hloc as <-. rewrite Hmr. cbn [mbind option_bind]. assert (Hc : chains b = []).
    { destruct (chains b) as [|s c] eqn:Ec; [done|]. by destruct (chain_head l order chains b s c (rp_geo _ _ _ _ _ R) (rp_link _ _ _ _ _ R) Hib Ec). }
    destruct (linkFirst_ok l1 order' chains' b pos B1 G3 G4 Hib1 (Hempty b Hib Hc)) as (l2 & -> & P & B2). cbn [mbind option_bind].
    destruct (Hfill l2) as (l' & -> & Hm' & -> & _); try done. by exists l'.
  - rewrite Hloc. cbn [mbind option_bind]. destruct found as [p|].
    + destruct Hfound as (x & Hat & Hlk & Hx). unfold absAdd. rewrite Hlk. cbn [fst snd].
      destruct (write_touch_models l a p x (fun e => setTimes (expireOf now d) d (setValue v e)) (mkEntry k v (expireOf now d) d)) as (l' & Hw & Hm' & _); try done; [|by rewrite Hx|].
      { intros e He. by rewrite <- Hx, <- He. }
      rewrite <- modEl_twice in Hw. destruct (modEl l p (setValue v)) as [l3|]; [|done]. cbn [mbind option_bind] in *. destruct (modEl l3 p _) as [l4|]; [|done]. cbn [mbind option_bind] in *.
      rewrite Hw. cbn [mbind option_bind]. exists (countInsert l'). split; [done|by apply models_metrics].
    + rewrite Hmr. cbn [mbind option_bind]. destruct (relink_ok l1 pos order' chains' data' b (List.hd emptyBucket (chains b)) full Hroom Hib1) as (start & l2 & Hst & Hlb & P & B2).
      { intros Ec. split; [destruct full; [done|]|apply (Hself b); [by intros En; rewrite En in E|done]]. destruct Hfull as (_ & _ & _ & ->). by rewrite Ec in E. }
      { intros ->. by destruct Hfull as (_ & _ & _ & ->). }
      rewrite Hst. cbn [mbind option_bind]. rewrite Hlb. cbn [mbind option_bind]. destruct (Hfill l2) as (l' & -> & Hm' & -> & Hr); try done. cbn [mbind option_bind]. rewrite el_elt by done. cbn [mbind option_bind].
      eexists. split; [done|]. destruct (_ =? pos); [done|by apply models_metrics].
Qed.

(** ** The other operations *)

Lemma located_metrics l a pos x m : located l a pos x -> located (withMetrics l m) a pos x.
Proof. intros (o1 & o2 & chains & d1 & e & d2 & R & H). exists o1, o2, chains, d1, e, d2. split; [by apply rep_metrics|exact H]. Qed.

Lemma get_models l a expires now k : models l a -> exists l', getLifetimeWith expires l now (hash k) k = Some ((fun x => (enVal x, enExpire x)) <$> (absFind S now expires k a).1, l') /\
  models l' (let '(f, a') := absFind S now expires k a in match f with Some x => asNewest x a' | None => a' end).
Proof.
  intros Hm. destruct (find_models l a expires now k Hm) as (found & l1 & E & Hm1 & Hf). unfold getLifetimeWith. rewrite E. cbn [mbind option_bind]. destruct (absFind S now expires k a) as [f a'] eqn:Ea. cbn [fst snd] in *. destruct found as [pos|].
  - destruct Hf as (x & Hloc & -> & _). destruct (touch_models _ _ _ _ Hm1 Hloc) as (l2 & -> & Hm2 & Hloc2). cbn [mbind option_bind]. destruct (located_el _ _ _ _ Hloc2) as (e & He & <-).
    change (el (countHit l2) pos) with (el l2 pos). rewrite He. cbn. exists (countHit l2). split; [done|by apply models_metrics].
  - subst f. exists (countMiss l1). split; [done|by apply models_metrics].
Qed.

(** [get] returns what [getWithLifetime] returns without the time. *)
Lemma get_lifetime l now h k : get l now h k = ('(v, l) ← getWithLifetime l now h k; Some (option_map fst v, l)).
Proof.
  unfold get, getWithLifetime, getLifetimeWith, findKey. destruct (findWith true l now h k) as [[[pos|] l1]|]; cbn; [|done|done]. destruct (touch l1 pos) as [l2|]; cbn; [|done].
  by destruct (el (countHit l2) pos).
Qed.

Lemma peek_lifetime l now h k : peek l now h k = ('(v, l) ← peekWithLifetime l now h k; Some (option_map fst v, l)).
Proof. unfold peek, peekWithLifetime. destruct (findKey l now h k) as [[[pos|] l1]|]; cbn; [|done|done]. by destruct (el l1 pos). Qed.

Lemma peek_models l a now k : models l a -> exists l', peekWithLifetime l now (hash k) k = Some ((fun x => (enVal x, enExpire x)) <$> (absFind S now true k a).1, l') /\ models l' (absFind S now true k a).2.
Proof.
  intros Hm. destruct (find_models l a true now k Hm) as (found & l1 & E & Hm1 & Hf). unfold peekWithLifetime, findKey. rewrite E. cbn [mbind option_bind]. destruct found as [pos|].
  - destruct Hf as (x & Hloc & -> & _). destruct (located_el _ _ _ _ Hloc) as (e & -> & <-). by exists l1.
  - rewrite Hf. by exists l1.
Qed.

Lemma refresh_models l a now pos x : models l a -> located l a pos x -> exists l', refresh l now pos = Some (enVal x, l') /\ models l' (asNewest (refreshed now x) a).
Proof.
  intros Hm Hloc. destruct (touch_models _ _ _ _ Hm Hloc) as (l2 & E & Hm2 & Hloc2). unfold refresh. rewrite E. cbn [mbind option_bind]. destruct (located_el _ _ _ _ Hloc2) as (e & He & Hx).
  change (el (countHit l2) pos) with (el l2 pos). rewrite He. cbn [mbind option_bind].
  destruct (write_models (countHit l2) _ pos x (setTimes (expireOf now (lifetime e)) (lifetime e)) (refreshed now x) (without (enKey x) (list_ a)) [] (models_metrics _ _ _ Hm2) (located_metrics _ _ _ _ _ Hloc2)) as (-> & Hm3 & _); try done.
  - intros e' He'. unfold refreshed. rewrite <- He'. cbn. assert (lifetime e' = lifetime e) as <- by (change (enLife (entryOf e') = enLife (entryOf e)); by rewrite Hx, He'). done.
  - cbn [mbind option_bind]. eexists. split; [by rewrite <- Hx|exact Hm3].
Qed.

Lemma refreshing_models l a now k : models l a -> exists f l', findKeyNoExpire l now (hash k) k = Some (f, l') /\
  match (absFind S now false k a).1 with
  | Some x => exists pos l'', f = Some pos /\ refresh l' now pos = Some (enVal x, l'') /\ models l'' (asNewest (refreshed now x) (absFind S now false k a).2)
  | None => f = None /\ models l' (absFind S now false k a).2
  end.
Proof.
  intros Hm. destruct (find_models l a false now k Hm) as (found & l1 & E & Hm1 & Hf). exists found, l1. split; [done|]. destruct found as [pos|].
  - destruct Hf as (x & Hloc & -> & _). destruct (refresh_models _ _ now _ _ Hm1 Hloc) as (l'' & ? & ?). by exists pos, l''.
  - rewrite Hf. done.
Qed.

Lemma updateLifetime_models l a now k v d : models l a -> exists l' b, updateLifetime l now (hash k) k v d = Some (b, l') /\
  models l' (absOp S now (OpUpdateLifetime k v d) a).2 /\ (absOp S now (OpUpdateLifetime k v d) a).1 = Flag b.
Proof.
  intros Hm. destruct (locate_models l a k Hm) as (found & Hf & Hx). unfold updateLifetime. cbn [absOp]. rewrite Hf. cbn [mbind option_bind]. destruct found as [pos|]; [|rewrite Hx; by exists l, false].
  destruct Hx as (x & Hloc & -> & Hk). destruct (located_el _ _ _ _ Hloc) as (e & -> & He). cbn [mbind option_bind]. change (value e) with (enVal (entryOf e)). rewrite He. destruct (decide (enVal x = v)) as [Hv|]; [|by exists l, false].
  destruct (write_touch_models l a pos x (setTimes (expireOf now d) d) (mkEntry k v (expireOf now d) d)) as (l' & Hw & Hm' & _); try done.
  - intros e' He'. by rewrite <- Hk, <- Hv, <- He'.
  - destruct (locate_models l a k Hm) as (f' & Hf' & Hx'). rewrite Hf in Hf'. injection Hf' as <-. rewrite Hk. destruct Hx' as (x' & Hloc' & Hl & _). rewrite Hl. f_equal.
    destruct (located_el _ _ _ _ Hloc) as (e1 & E1 & <-), (located_el _ _ _ _ Hloc') as (e2 & E2 & <-). congruence.
  - destruct (modEl l pos _) as [l1|]; [|done]. cbn [mbind option_bind] in *. rewrite Hw. cbn. exists (countInsert l'), true. split_and!; try done. by apply models_metrics.
Qed.

(** ** The order by age *)

(** The newest element links to the oldest one. *)
Lemma oldest_next l p o chains data : rep hash l (p :: o) chains data -> el l (head l) = Some (elt l (head l)) /\ next (elt l (head l)) = p.
Proof.
  intros R. pose proof (rp_link _ _ _ _ _ R) as [Ht Hh _]. cbn in Hh. rewrite Hh. split; [|by destruct (tm_ring _ _ Ht) as (_ & ? & _)].
  apply el_elt. apply (proj1 (Forall_forall _ _) (tm_range _ _ Ht)), last_elem.
Qed.

Lemma rep_len_nil l o chains data : rep hash l o chains data -> (len l =? 0) = match data with [] => true | _ => false end /\ length o = length data /\ Z.to_nat (len l) = length data.
Proof.
  intros R. pose proof (rp_len _ _ _ _ _ R) as [Hl _]. assert (Hd : length o = length data) by (by rewrite (rp_data _ _ _ _ _ R), length_fmap).
  split_and!; [|done|lia]. rewrite Hl, Hd. by destruct data.
Qed.

Lemma oldest_models l a x m : models l a -> list_ a = x :: m -> exists pos, el l (head l) = Some (elt l (head l)) /\ next (elt l (head l)) = pos /\ located l a pos x /\ (len l =? 0) = false.
Proof.
  intros [(order & chains & data & R & E) _ _] Hx. rewrite E in Hx. destruct data as [|e data]; [done|]. destruct (rep_len_nil _ _ _ _ R) as (Hl & Ho & _). destruct order as [|p order]; [done|].
  pose proof (rp_data _ _ _ _ _ R) as Hd. injection Hd as He Hd. injection Hx as <- _. destruct (oldest_next _ _ _ _ _ R) as [H1 H2]. exists p. split_and!; try done. by exists [], order, chains, [], e, data.
Qed.

Lemma models_nil l a : models l a -> list_ a = [] -> (len l =? 0) = true.
Proof. intros [(order & chains & data & R & E) _ _] Hx. rewrite E in Hx. destruct data; [|done]. by destruct (rep_len_nil _ _ _ _ R) as (-> & _). Qed.

Lemma removeOldest_models l a : models l a -> exists kv l', RemoveOldest l = Some (kv, l') /\
  match list_ a with [] => kv = None /\ l' = l | x :: _ => kv = Some (enKey x, enVal x) /\ models l' (takeOut S x a) end.
Proof.
  intros Hm. unfold RemoveOldest. destruct (list_ a) as [|x m] eqn:E; [rewrite (models_nil _ _ Hm E); by exists None, l|].
  destruct (oldest_models _ _ _ _ Hm E) as (pos & -> & Hp & Hloc & ->). cbn [mbind option_bind]. rewrite Hp. destruct (located_el _ _ _ _ Hloc) as (e & -> & <-). cbn [mbind option_bind].
  destruct (removeAt_models _ _ _ _ Hm Hloc) as (l' & -> & Hm'). cbn. by eexists _, l'.
Qed.

Lemma takeOut_oldest l a x m : models l a -> list_ a = x :: m -> takeOut S x a = mkEntries m (gone a ++ event S x).
Proof. intros Hm E. pose proof (models_keys _ _ Hm) as Hnd. unfold takeOut. rewrite E in *. pose proof (without_list [] m x x Hnd eq_refl) as W. cbn [app] in W. by rewrite W. Qed.

Lemma removeMany_models m : forall l a, models l a -> list_ a = m -> exists l', removeMany (length m) l = Some l' /\ models l' (mkEntries [] (gone a ++ concat (event S <$> m))).
Proof.
  induction m as [|x m IH]; intros l a Hm E.
  - exists l. split; [done|]. cbn. rewrite app_nil_r. destruct a as [m g]. cbn in *. by subst m.
  - destruct (removeOldest_models l a Hm) as (kv & l1 & E1 & H1). cbn [length removeMany]. rewrite E1. cbn [mbind option_bind]. rewrite E in H1. destruct H1 as [_ Hm1].
    rewrite (takeOut_oldest _ _ _ _ Hm E) in Hm1. destruct (IH _ _ Hm1 eq_refl) as (l' & -> & Hm'). exists l'. split; [done|]. cbn [gone] in Hm'. rewrite <- app_assoc in Hm'. exact Hm'.
Qed.

Lemma models_len l a : models l a -> Z.to_nat (len l) = length (list_ a).
Proof. intros [(order & chains & data & R & ->) _ _]. rewrite length_fmap. apply (rep_len_nil _ _ _ _ R). Qed.

Lemma purge_models l a : models l a -> exists l', Purge l = Some l' /\ models l' (mkEntries [] (gone a ++ concat (event S <$> list_ a))).
Proof.
  intros Hm. unfold Purge. rewrite (models_len _ _ Hm). destruct (removeMany_models _ l a Hm eq_refl) as (l' & -> & Hm'). eexists. split; [done|by apply models_metrics].
Qed.

(** ** Expired entries *)

Lemma findExpired_ok l now o : forall p, path (nx l) (pv l) p o -> Forall (inRange l) (p :: o) ->
  findExpired (Datatypes.S (length o)) l now p = Some (List.find (fun q => isExpired now (elt l q)) (p :: o)).
Proof.
  induction o as [|q o IH]; intros p Hp [Hin Hr]%Forall_cons; cbn [length findExpired List.find]; rewrite el_elt by done; cbn [mbind option_bind]; destruct (isExpired now (elt l p)); try done.
  destruct Hp as (Hn & _ & Hp). unfold nx in Hn. rewrite Hn. by apply IH.
Qed.

Lemma find_split {A} (f : A -> bool) (m : list A) : match List.find f m with
  | Some y => exists m1 m2, m = m1 ++ y :: m2 /\ f y = true /\ Forall (fun z => f z = false) m1
  | None => Forall (fun z => f z = false) m end.
Proof.
  induction m as [|z m IH]; cbn; [done|]. destruct (f z) eqn:E; [by exists [], m|]. destruct (List.find f m) as [y|]; [|by constructor].
  destruct IH as (m1 & m2 & -> & Hy & Hm). exists (z :: m1), m2. split_and!; try done. by constructor.
Qed.

(** The loop meets the first expired entry from the oldest one on. *)
Lemma findExpired_models l a now x m : models l a -> list_ a = x :: m -> exists found, findExpired (Z.to_nat (len l)) l now (next (elt l (head l))) = Some found /\
  match found with
  | Some pos => exists m1 y m2, list_ a = m1 ++ y :: m2 /\ located l a pos y /\ expiredE now y = true /\ Forall (fun z => expiredE now z = false) m1
  | None => Forall (fun z => expiredE now z = false) (list_ a)
  end.
Proof.
  intros [(order & chains & data & R & E) _ _] Hx. rewrite E in Hx. destruct data as [|e data]; [done|]. destruct (rep_len_nil _ _ _ _ R) as (_ & Ho & ->). destruct order as [|p order]; [done|].
  destruct (oldest_next _ _ _ _ _ R) as [_ ->]. pose proof (rp_data _ _ _ _ _ R) as Hd. pose proof (lk_time _ _ _ (rp_link _ _ _ _ _ R)) as Ht. cbn [length] in *. injection Ho as <-.
  rewrite findExpired_ok by (apply Ht). eexists. split; [done|]. assert (Hz : forall o, Forall (fun q => isExpired now (elt l q) = false) o -> Forall (fun z => expiredE now z = false) (entryOf <$> (datum l <$> o))).
  { intros o Hall. rewrite !Forall_fmap. eapply Forall_impl; [exact Hall|]. done. }
  rewrite E, Hd. pose proof (find_split (fun q => isExpired now (elt l q)) (p :: order)) as Hf. destruct (List.find _ (p :: order)) as [pos|]; [|by apply Hz].
  destruct Hf as (o1 & o2 & Hsp & Hex & Hno). rewrite Hsp, !fmap_app, !fmap_cons. eexists _, (entryOf (datum l pos)), _. split_and!; try done; [|by apply Hz].
  exists o1, o2, chains, (datum l <$> o1), (datum l pos), (datum l <$> o2). rewrite length_fmap. split_and!; try done.
  - rewrite <- fmap_cons, <- fmap_app, <- Hsp, <- Hd. exact R.
  - by rewrite E, Hd, Hsp, !fmap_app, !fmap_cons.
Qed.

Lemma purgeExpired_skip now a : Forall (fun z => expiredE now z = false) (list_ a) -> absPurgeExpired S now a = a.
Proof.
  intros H. unfold absPurgeExpired. rewrite filter_id by done. assert (filter (fun x => expiredE now x = true) (list_ a) = []) as ->.
  { apply filter_none. eapply Forall_impl; [exact H|]. intros z Hz. by rewrite Hz. }
  cbn. rewrite app_nil_r. by destruct a.
Qed.

Lemma purgeExpired_take now a m1 y m2 : NoDup (enKey <$> list_ a) -> list_ a = m1 ++ y :: m2 -> expiredE now y = true -> Forall (fun z => expiredE now z = false) m1 ->
  absPurgeExpired S now (takeOut S y a) = absPurgeExpired S now a.
Proof.
  intros Hnd E Hy Hm. unfold absPurgeExpired, takeOut. rewrite E in *. rewrite without_list by done. cbn [list_ gone].
  assert (Hn : filter (fun x => expiredE now x = true) m1 = []) by (apply filter_none; eapply Forall_impl; [exact Hm|]; intros z Hz; by rewrite Hz).
  rewrite !filter_app, Hn, filter_cons_False, filter_cons_True by (done || by rewrite Hy). cbn. by rewrite <- app_assoc.
Qed.

Lemma purgeLoop_models now fuel : forall l a, models l a -> (length (list_ a) < fuel)%nat -> exists l', purgeLoop fuel l now = Some l' /\ models l' (absPurgeExpired S now a).
Proof.
  induction fuel as [|fuel IH]; intros l a Hm Hf; [lia|]. cbn [purgeLoop]. destruct (list_ a) as [|x m] eqn:E.
  - rewrite (models_nil _ _ Hm E). exists l. rewrite purgeExpired_skip by (by rewrite E). done.
  - destruct (oldest_models _ _ _ _ Hm E) as (pos & -> & _ & _ & ->). cbn [mbind option_bind]. destruct (findExpired_models l a now x m Hm E) as (found & -> & Hfound). cbn [mbind option_bind].
    destruct found as [p|]; [|exists l; by rewrite purgeExpired_skip]. destruct Hfound as (m1 & y & m2 & Hs & Hloc & Hy & Hno). destruct (removeAt_models _ _ _ _ Hm Hloc) as (l1 & -> & Hm1). cbn [mbind option_bind].
    pose proof (models_keys _ _ Hm) as Hnd. destruct (IH _ _ Hm1) as (l' & -> & Hm').
    + cbn [takeOut list_]. rewrite Hs in *. rewrite without_list by done. rewrite <- E, !length_app in Hf. cbn in Hf. rewrite length_app. lia.
    + exists l'. split; [done|]. by rewrite <- (purgeExpired_take now a m1 y m2).
Qed.

Lemma purgeExpired_models l a now : models l a -> exists l', PurgeExpired l now = Some l' /\ models l' (absPurgeExpired S now a).
Proof. intros Hm. apply purgeLoop_models; [done|]. rewrite (models_len _ _ Hm). lia. Qed.

Lemma keysFrom_ok l o : forall p, path (nx l) (pv l) p o -> Forall (inRange l) (p :: o) -> keysFrom (Datatypes.S (length o)) l p = Some ((fun q => key (elt l q)) <$> p :: o).
Proof.
  induction o as [|q o IH]; intros p Hp [Hin Hr]%Forall_cons; cbn [length keysFrom]; rewrite el_elt by done; cbn [mbind option_bind]; [done|].
  destruct Hp as (Hn & _ & Hp). unfold nx in Hn. rewrite Hn. pose proof (IH q Hp Hr) as E. cbn [keysFrom] in E. rewrite E. done.
Qed.

Lemma keys_models l a now : models l a -> exists l', Keys l now = Some (enKey <$> list_ (absPurgeExpired S now a), l') /\ models l' (absPurgeExpired S now a).
Proof.
  intros Hm. destruct (purgeExpired_models l a now Hm) as (l' & E & Hm'). unfold Keys. rewrite E. cbn [mbind option_bind]. clear E Hm. set (a' := absPurgeExpired S now a) in *.
  destruct (md_holds _ _ Hm') as (order & chains & data & R & Ha). destruct (rep_len_nil _ _ _ _ R) as (_ & Ho & ->). rewrite Ha. pose proof (rp_link _ _ _ _ _ R) as [Ht Hh _]. destruct order as [|p order].
  - destruct data; [|done]. cbn in Hh. rewrite el_elt by done. by exists l'.
  - destruct (oldest_next _ _ _ _ _ R) as [-> Hn]. cbn [mbind option_bind]. rewrite Hn. rewrite <- Ho. cbn [length]. rewrite keysFrom_ok by apply Ht. cbn [mbind option_bind]. exists l'. split; [|done].
    do 2 f_equal. rewrite (rp_data _ _ _ _ _ R), <- !list_fmap_compose. done.
Qed.

(** ** All operations *)

Lemma adding_models l a now k v : models l a -> exists l', addWithLifetime l now (hash k) k v (lruLifetime l) = Some ((absAdd S now k v (sLife S) a).1, l') /\ models l' (absAdd S now k v (sLife S) a).2.
Proof. intros Hm. rewrite (st_life _ (md_set _ _ Hm)). by apply add_models. Qed.

Lemma refreshOrAdd_models l a now k c : models l a -> exists l', getAndRefreshOrAdd l now (hash k) k c = Some ((absRefreshOrAdd S now k c a).1, l') /\ models l' (absRefreshOrAdd S now k c a).2.
Proof.
  intros Hm. unfold absRefreshOrAdd, getAndRefreshOrAdd. destruct (refreshing_models l a now k Hm) as (f & l1 & -> & Hf). cbn [mbind option_bind].
  destruct (absFind S now false k a) as [[x|] a1]; cbn [fst snd] in *; [destruct Hf as (pos & l2 & -> & -> & Hm2); by exists l2|]. destruct Hf as [-> Hm1].
  destruct c as [v|]; [|exists (countMiss l1); split; [done|by apply models_metrics]].
  destruct (adding_models (countMiss l1) a1 now k v (models_metrics _ _ _ Hm1)) as (l2 & -> & Hm2). by exists l2.
Qed.

Lemma op_models l a now o : models l a -> exists l', runOp hash now o l = Some ((absOp S now o a).1, l') /\ models l' (absOp S now o a).2.
Proof.
  intros Hm. destruct o as [k v|k v d|k|expires k|k|k c|k|k|k|k v d|k| | | |]; cbn [runOp].
  - unfold Add. destruct (adding_models l a now k v Hm) as (l' & -> & Hm'). cbn. destruct (absAdd S now k v (sLife S) a). by exists l'.
  - unfold AddWithLifetime. destruct (add_models l a now k v d Hm) as (l' & -> & Hm'). cbn. destruct (absAdd S now k v d a). by exists l'.
  - unfold Get. rewrite get_lifetime. unfold getWithLifetime. destruct (get_models l a true now k Hm) as (l' & -> & Hm'). cbn. destruct (absFind S now true k a) as [[x|] a1]; by exists l'.
  - destruct (get_models l a expires now k Hm) as (l' & E & Hm'). exists l'. cbn [absOp]. unfold getWithLifetime, getWithLifetimeNoExpire. destruct expires; rewrite E; cbn; by destruct (absFind S now _ k a) as [[x|] a1].
  - unfold GetAndRefresh, getAndRefresh. cbn [absOp]. destruct (refreshing_models l a now k Hm) as (f & l1 & -> & Hf). cbn [mbind option_bind].
    destruct (absFind S now false k a) as [[x|] a1]; cbn [fst snd] in *; [destruct Hf as (pos & l2 & -> & -> & Hm2); by exists l2|]. destruct Hf as [-> Hm1]. exists (countMiss l1). split; [done|by apply models_metrics].
  - unfold GetAndRefreshOrAdd. cbn [absOp]. destruct (refreshOrAdd_models l a now k c Hm) as (l1 & -> & Hm1). cbn [mbind option_bind]. destruct (absRefreshOrAdd S now k c a) as [[v updated] a1]. cbn [fst snd] in *.
    destruct (negb updated && _); [|by exists l1]. destruct (purgeExpired_models l1 a1 now Hm1) as (l' & -> & Hm'). by exists l'.
  - unfold Peek. rewrite peek_lifetime. destruct (peek_models l a now k Hm) as (l' & -> & Hm'). cbn. destruct (absFind S now true k a) as [[x|] a1]; by exists l'.
  - destruct (peek_models l a now k Hm) as (l' & -> & Hm'). cbn. destruct (absFind S now true k a) as [[x|] a1]; by exists l'.
  - unfold Contains. rewrite peek_lifetime. destruct (peek_models l a now k Hm) as (l' & -> & Hm'). cbn. destruct (absFind S now true k a) as [[x|] a1]; by exists l'.
  - destruct (updateLifetime_models l a now k v d Hm) as (l' & b & -> & Hm' & ->). by exists l'.
  - unfold Remove, remove, findKeyNoExpire. cbn [absOp]. destruct (find_models l a false now k Hm) as (found & l1 & -> & Hm1 & Hf). cbn [mbind option_bind]. destruct (absFind S now false k a) as [f a1]. cbn [fst snd] in *.
    destruct found as [pos|]; [|subst f; by exists l1]. destruct Hf as (x & Hloc & -> & _). destruct (removeAt_models _ _ _ _ Hm1 Hloc) as (l' & -> & Hm'). by exists l'.
  - destruct (removeOldest_models l a Hm) as (kv & l' & -> & H). exists l'. cbn. destruct (list_ a) as [|x m]; destruct H as [-> H]; [by subst l'|done].
  - destruct (keys_models l a now Hm) as (l' & -> & Hm'). by exists l'.
  - destruct (purgeExpired_models l a now Hm) as (l' & -> & Hm'). by exists l'.
  - destruct (purge_models l a Hm) as (l' & -> & Hm'). by exists l'.
Qed.

Lemma ops_models ops : forall l a, models l a -> exists l', runOps hash ops l = Some ((absOps S ops a).1, l') /\ models l' (absOps S ops a).2.
Proof.
  induction ops as [|[now o] ops IH]; intros l a Hm; [by exists l|]. cbn [runOps absOps]. destruct (op_models l a now o Hm) as (l1 & -> & Hm1). cbn [mbind option_bind].
  destruct (absOp S now o a) as [r a1]. cbn [fst snd] in *. destruct (IH l1 a1 Hm1) as (l' & -> & Hm'). cbn. destruct (absOps S ops a1) as [rs a2]. by exists l'.
Qed.

Definition configure l : LRU K V := SetHealthCheck (SetOnEvict (SetLifetime l (sLife S)) (sOnEvict S)) (sCheck S).
End refine.

(** ** A new cache *)

Lemma OnesCount_S w n : OnesCount (S w) n = Z.b2z (Z.testbit n 0) + OnesCount w (Z.div2 n).
Proof.
  unfold OnesCount. cbn [seq foldr]. f_equal. rewrite <- fmap_S_seq. rewrite foldr_fmap. apply foldr_ext; [|done|done]. intros i c. do 2 f_equal.
  rewrite Z.div2_spec, Z.shiftr_spec by lia. f_equal. lia.
Qed.

Lemma OnesCount_nonneg w : forall n, 0 <= OnesCount w n.
Proof. induction w as [|w IH]; intros n; [done|]. rewrite OnesCount_S. specialize (IH (Z.div2 n)). destruct (Z.testbit n 0); cbn; lia. Qed.

Lemma OnesCount_0 w : forall n, 0 <= n < 2 ^ Z.of_nat w -> OnesCount w n = 0 -> n = 0.
Proof.
  induction w as [|w IH]; intros n Hn H; [cbn in Hn; lia|]. rewrite OnesCount_S in H. pose proof (OnesCount_nonneg w (Z.div2 n)). rewrite Nat2Z.inj_succ, Z.pow_succ_r in Hn by lia.
  rewrite Z.bit0_odd in H. pose proof (Z.div2_odd n) as E. destruct (Z.odd n); cbn in H, E; [lia|]. specialize (IH (Z.div2 n)). lia.
Qed.

Lemma OnesCount_1 w : forall n, 0 <= n < 2 ^ Z.of_nat w -> OnesCount w n = 1 -> exists k, 0 <= k /\ n = 2 ^ k.
Proof.
  induction w as [|w IH]; intros n Hn H; [done|]. rewrite OnesCount_S in H. rewrite Nat2Z.inj_succ, Z.pow_succ_r in Hn by lia. rewrite Z.bit0_odd in H. pose proof (Z.div2_odd n) as E. destruct (Z.odd n); cbn in H, E.
  - exists 0. pose proof (OnesCount_0 w (Z.div2 n)). cbn. lia.
  - destruct (IH (Z.div2 n)) as (k & Hk & Ek); [lia|lia|]. exists (k + 1). rewrite Z.pow_add_r by lia. lia.
Qed.

Lemma new_models {K V} `{EqDecision K} (hash : K -> Z) (S : settings K V) (k : K) (v : V) (size : Z) : 0 < sCap S <= size -> size < emptyBucket -> models hash S (configure S (initLRU k v (sCap S) size)) (mkEntries [] []).
Proof.
  intros Hc Hs. unfold emptyBucket in Hs. split; [|done|done]. exists [], (fun _ => []), []. split; [|done]. split.
  - split; [done|done|cbn; rewrite length_replicate; lia|]. cbn [configure SetHealthCheck SetOnEvict SetLifetime mask FreeLRU.size initLRU]. destruct (Z.eqb_spec (OnesCount 32 size) 1) as [E|E]; [|by left]. right.
    apply OnesCount_1 in E as (j & Hj & Ej); [|cbn; lia]. exists j. rewrite wrap_id by (unfold fits; lia). lia.
  - split; [split; [done|apply Forall_nil_2|apply NoDup_nil_2]|cbn; unfold inRange; cbn; rewrite length_replicate; lia|]. split; try done.
    + cbn. by rewrite !length_replicate.
    + intros b p _. split; [by intros ?%not_elem_of_nil|intros [?%not_elem_of_nil _]; done].
    + intros b _. apply NoDup_nil_2.
    + intros b [Hb Hb']. cbn in Hb'. rewrite length_replicate in Hb'. unfold bucketAt. rewrite (proj2 (Z.leb_le 0 b)) by done. cbn. apply lookup_replicate. split; [done|lia].
  - intros p. cbn. split; [by intros ?%not_elem_of_nil|lia].
  - cbn. lia.
  - done.
  - apply Forall_nil_2.
  - apply NoDup_nil_2.
Qed.
