(* ===== verification/FreeLRUShardedSpec.v ===== *)
(** * The shards of the LRU cache

    The shape of the shards that [NewShardedWithSize] chooses, and the refinement: a sharded
    cache answers as lists of entries do, one for each shard. *)

From S2P Require Import Prelude FreeLRU FreeLRUSpec FreeLRURefine.

(** ** The shape of the shards *)

Definition isPow2 (n : Z) : Prop := exists k, 0 <= k /\ n = 2 ^ k.

Lemma isPow2_pos n : isPow2 n -> 0 < n.
Proof. intros (k & Hk & ->). by apply Z.pow_pos_nonneg. Qed.

Lemma nextPowerOfTwo_ok n : fits 32 n -> nextPowerOfTwo n = 0 \/ isPow2 (nextPowerOfTwo n).
Proof.
  intros Hn. unfold fits in Hn. unfold nextPowerOfTwo. destruct (Z.eqb_spec (OnesCount 32 n) 1) as [E|_]; [right; by apply OnesCount_1 in E|].
  unfold Len32. destruct (Z.eqb_spec n 0) as [->|Hz]; [right; by exists 0|]. rewrite Z.shiftl_1_l. assert (H : Z.log2 n < 32) by (apply Z.log2_lt_pow2; lia). pose proof (Z.log2_nonneg n).
  destruct (Z.eq_dec (Z.log2 n) 31) as [->|]; [by left|]. right. exists (Z.log2 n + 1). split; [lia|]. apply wrap_id. unfold fits. split; [apply Z.pow_nonneg; lia|]. apply Z.pow_lt_mono_r; lia.
Qed.

Lemma nextPowerOfTwo_ge n : 0 < n < 2 ^ 31 -> isPow2 (nextPowerOfTwo n) /\ n <= nextPowerOfTwo n <= 2 ^ 31.
Proof.
  intros Hn. unfold nextPowerOfTwo. destruct (Z.eqb_spec (OnesCount 32 n) 1) as [E|_]; [split; [apply OnesCount_1 in E; [done|cbn; lia]|lia]|].
  unfold Len32. rewrite (proj2 (Z.eqb_neq n 0)), Z.shiftl_1_l by lia. assert (H : Z.log2 n < 31) by (apply Z.log2_lt_pow2; lia). pose proof (Z.log2_nonneg n). pose proof (Z.log2_spec n ltac:(lia)) as [_ Hs].
  unfold Z.succ in Hs. assert (Hle : 2 ^ (Z.log2 n + 1) <= 2 ^ 31) by (apply Z.pow_le_mono_r; lia). rewrite wrap_id by (unfold fits; lia). split; [|lia]. exists (Z.log2 n + 1). split; [lia|done].
Qed.

Lemma pow2_div n j : isPow2 n -> 0 <= j -> n / 2 ^ j = 0 \/ isPow2 (n / 2 ^ j).
Proof.
  intros (k & Hk & ->) Hj. destruct (Z.le_gt_cases j k).
  - right. exists (k - j). split; [lia|]. rewrite Z.pow_sub_r by lia. done.
  - left. apply Z.div_small. split; [by apply Z.pow_nonneg|]. apply Z.pow_lt_mono_r; lia.
Qed.

Lemma fewerShards_ok fuel : forall shards size, 0 <= size -> shards = 0 \/ isPow2 shards -> shards < 16 ^ Z.of_nat fuel ->
  let n := fewerShards (S fuel) shards size in (n = 0 \/ isPow2 n) /\ n <= size / 16.
Proof.
  induction fuel as [|fuel IH]; intros shards size Hsize Hp Hlt; cbn [fewerShards]; pose proof (Z.div_pos size 16 Hsize ltac:(done)); destruct (Z.ltb_spec (size / 16) shards) as [H1|H1]; try done.
  - cbn in Hlt. lia.
  - apply (IH (shards / 16) size Hsize).
    + destruct Hp as [->|Hp]; [by left|]. by apply (pow2_div _ 4).
    + rewrite Nat2Z.inj_succ, Z.pow_succ_r in Hlt by lia. apply Z.div_lt_upper_bound; lia.
Qed.

(** The shards are a power of two, each holds its part, and together they hold the capacity. *)
Lemma shardShape_ok shards capacity size n c z : fits 32 shards -> fits 32 capacity -> fits 32 size -> capacity <= 2 ^ 31 -> shardShape shards capacity size = Ok (n, c, z) ->
  isPow2 n /\ 0 < c <= z /\ z <= 2 ^ 31 /\ capacity <= n * c.
Proof.
  intros Hs Hc Hz Hmax. unfold shardShape, fits in *. destruct (Z.eqb_spec capacity 0) as [|Hc0]; [done|]. destruct (Z.ltb_spec size capacity) as [|Hsc]; [done|].
  set (z0 := if size <? 2 ^ 31 then nextPowerOfTwo size else 2 ^ 31). assert (H0 : isPow2 z0 /\ capacity <= z0 <= 2 ^ 31).
  { unfold z0. destruct (Z.ltb_spec size (2 ^ 31)); [|split; [by exists 31|lia]]. destruct (nextPowerOfTwo_ge size); [lia|]. split; [done|lia]. }
  destruct H0 as [Hp Hz0]. clearbody z0. destruct (fewerShards_ok 8 (nextPowerOfTwo shards) z0) as [Hn Hn16]; [lia|by apply nextPowerOfTwo_ok| |].
  { change (16 ^ Z.of_nat 8) with (2 ^ 32). unfold nextPowerOfTwo. destruct (_ =? 1); [lia|]. apply Z.mod_pos_bound. lia. }
  set (n0 := fewerShards 9 (nextPowerOfTwo shards) z0) in *. set (n1 := if n0 =? 0 then 1 else n0). assert (Hn1 : isPow2 n1 /\ n1 <= z0 /\ n1 <= 2 ^ 31 / 16 + 1).
  { unfold n1. destruct (Z.eqb_spec n0 0); [split; [by exists 0|divlia]|]. destruct Hn as [|Hn]; [lia|]. split; [done|]. apply isPow2_pos in Hn. divlia. }
  destruct Hn1 as (Hpn & Hle & Hmaxn). pose proof (isPow2_pos _ Hpn). destruct Hpn as (j & Hj & En), Hp as (k & Hk & Ek). intros [= <- <- <-].
  assert (Hjk : j <= k) by (apply (Z.pow_le_mono_r_iff 2); lia). assert (Ez : z0 = 2 ^ (k - j) * n1) by (rewrite Ek, En, <- Z.pow_add_r by lia; f_equal; lia).
  assert (0 < 2 ^ (k - j)) by (apply Z.pow_pos_nonneg; lia). assert (E1 : z0 / n1 = 2 ^ (k - j)) by (rewrite Ez; apply Z.div_mul; lia).
  rewrite E1, (proj2 (Z.eqb_neq (2 ^ (k - j)) 0)) by lia. rewrite wrap_id by (unfold fits; divlia).
  assert (Hceil : capacity <= n1 * ((capacity + n1 - 1) / n1)) by (pose proof (Z.mul_succ_div_gt (capacity + n1 - 1) n1); lia).
  assert (0 < (capacity + n1 - 1) / n1) by (apply Z.div_str_pos; lia). rewrite (proj2 (Z.eqb_neq ((capacity + n1 - 1) / n1) 0)) by lia.
  split_and!; try lia; [by exists j|]. apply Z.lt_succ_r, Z.div_lt_upper_bound; lia.
Qed.

(** ** The specification *)

Section sharded.
Context {K V : Type} `{EqDecision K} `{EqDecision V} (hash : K -> Z) (zero : K).
Implicit Types (s : ShardedLRU K V) (m : list (entries K V)) (o : op K V).

Definition runSharded (now : Z) o s : option (answer K V * ShardedLRU K V) :=
  match o with
  | OpAdd k v => '(b, s) ← Sharded.Add hash s now k v; Some (Flag b, s)
  | OpAddWithLifetime k v d => '(b, s) ← Sharded.AddWithLifetime hash s now k v d; Some (Flag b, s)
  | OpGet k => '(v, s) ← Sharded.Get hash s now k; Some (Found v, s)
  | OpGetWithLifetime true k => '(v, s) ← Sharded.GetWithLifetime hash s now k; Some (FoundUntil v, s)
  | OpGetWithLifetime false k => '(v, s) ← Sharded.GetWithLifetimeNoExpire hash s now k; Some (FoundUntil v, s)
  | OpGetAndRefresh k => '(v, s) ← Sharded.GetAndRefresh hash s now k; Some (Found v, s)
  | OpGetAndRefreshOrAdd k c => '(v, updated, s) ← Sharded.GetAndRefreshOrAdd hash s now k c; Some (FoundOr v updated, s)
  | OpPeek k => '(v, s) ← Sharded.Peek hash s now k; Some (Found v, s)
  | OpPeekWithLifetime k => '(v, s) ← Sharded.PeekWithLifetime hash s now k; Some (FoundUntil v, s)
  | OpContains k => '(b, s) ← Sharded.Contains hash s now k; Some (Flag b, s)
  | OpUpdateLifetime k v d => '(b, s) ← Sharded.UpdateLifetime hash s now k v d; Some (Flag b, s)
  | OpRemove k => '(b, s) ← Sharded.Remove hash s now k; Some (Flag b, s)
  | OpRemoveOldest => '(kv, s) ← Sharded.RemoveOldest hash zero s; Some (Taken kv, s)
  | OpKeys => '(ks, s) ← Sharded.Keys s now; Some (AllKeys ks, s)
  | OpPurgeExpired => s ← Sharded.PurgeExpired s now; Some (Done, s)
  | OpPurge => s ← Sharded.Purge s; Some (Done, s)
  end.

Fixpoint runShardedOps (ops : list (Z * op K V)) s : option (list (answer K V) * ShardedLRU K V) :=
  match ops with
  | [] => Some ([], s)
  | (now, o) :: ops => '(r, s) ← runSharded now o s; '(rs, s) ← runShardedOps ops s; Some (r :: rs, s)
  end.

(** The key whose shard an operation is for, if it is for one *)
Definition keyOf o : option K :=
  match o with
  | OpAdd k _ | OpAddWithLifetime k _ _ | OpGet k | OpGetWithLifetime _ k | OpGetAndRefresh k | OpGetAndRefreshOrAdd k _ | OpPeek k
  | OpPeekWithLifetime k | OpContains k | OpUpdateLifetime k _ _ | OpRemove k => Some k
  | OpRemoveOldest => Some zero
  | OpKeys | OpPurgeExpired | OpPurge => None
  end.

Definition shardIx m (k : K) : nat := Z.to_nat (Z.land (Z.shiftr (hash k) 16) (Z.of_nat (length m) - 1)).

(** A step of one of the lists *)
Definition atShard {R} m (k : K) (f : entries K V -> R * entries K V) : R * list (entries K V) :=
  let '(r, a) := f (default (mkEntries [] []) (m !! shardIx m k)) in (r, <[shardIx m k := a]> m).

Definition absSharded (S : settings K V) (now : Z) o m : answer K V * list (entries K V) :=
  match o, keyOf o with
  | OpGetAndRefreshOrAdd k c, _ =>
      let '(v, updated, m) := atShard m k (absRefreshOrAdd S now k c) in
      (FoundOr v updated, if negb updated && bool_decide (is_Some v) then absPurgeExpired S now <$> m else m)
  | OpKeys, _ => let m := absPurgeExpired S now <$> m in (AllKeys (concat ((fun a => enKey <$> list_ a) <$> m)), m)
  | _, Some k => atShard m k (absOp S now o)
  | _, None => (Done, (fun a => (absOp S now o a).2) <$> m)
  end.

Fixpoint absShardedOps (S : settings K V) (ops : list (Z * op K V)) m : list (answer K V) * list (entries K V) :=
  match ops with
  | [] => ([], m)
  | (now, o) :: ops => let '(r, m) := absSharded S now o m in let '(rs, m) := absShardedOps S ops m in (r :: rs, m)
  end.

(** ** The refinement *)

Context (Hhash : forall k, fits 32 (hash k)) (S : settings K V).

Record modelsAll s m : Prop := {
  ma_shards : Forall2 (models hash S) (lrus s) m;
  ma_mask : shardMask s = Z.of_nat (length m) - 1;
  ma_pow : isPow2 (Z.of_nat (length m));
}.

Lemma shardIx_lt m k : isPow2 (Z.of_nat (length m)) -> (shardIx m k < length m)%nat.
Proof.
  intros (j & Hj & E). unfold shardIx. rewrite E, Z.sub_1_r, <- Z.ones_equiv, Z.land_ones by done. pose proof (Z.mod_pos_bound (Z.shiftr (hash k) 16) (2 ^ j)). lia.
Qed.

Lemma onShard_models {R} s m k (f : LRU K V -> option (R * LRU K V)) g : modelsAll s m ->
  (forall l a, models hash S l a -> exists l', f l = Some ((g a).1, l') /\ models hash S l' (g a).2) ->
  exists s', Sharded.onShard hash s k f = Some ((atShard m k g).1, s') /\ modelsAll s' (atShard m k g).2.
Proof.
  intros [H1 H2 H3] Hf. unfold Sharded.onShard, Sharded.shardOf, atShard. rewrite H2. fold (shardIx m k). destruct (lookup_lt_is_Some_2 m (shardIx m k) (shardIx_lt m k H3)) as (a & Ha). rewrite Ha.
  destruct (Forall2_lookup_r _ _ _ _ _ H1 Ha) as (l & -> & Hm). cbn [mbind option_bind default from_option id]. destruct (Hf l a Hm) as (l' & -> & Hm'). cbn [mbind option_bind]. destruct (g a) as [r a']. cbn [fst snd] in *.
  eexists. split; [done|]. split; cbn [lrus shardMask]; rewrite ?length_insert; try done. by apply Forall2_insert.
Qed.

Lemma onShard_bind {R R'} s k (f : LRU K V -> option (R * LRU K V)) (h : R -> R') :
  ('(r, s) ← Sharded.onShard hash s k f; Some (h r, s)) = Sharded.onShard hash s k (fun l => '(r, l) ← f l; Some (h r, l)).
Proof. unfold Sharded.onShard. destruct (lrus s !! _) as [l|]; cbn; [|done]. by destruct (f l) as [[r l']|]. Qed.

Lemma inTurn_models {R} (f : LRU K V -> option (R * LRU K V)) g : (forall l a, models hash S l a -> exists l', f l = Some ((g a).1, l') /\ models hash S l' (g a).2) ->
  forall ls m, Forall2 (models hash S) ls m -> exists ls', Sharded.inTurn f ls = Some ((fun a => (g a).1) <$> m, ls') /\ Forall2 (models hash S) ls' ((fun a => (g a).2) <$> m).
Proof.
  intros Hf ls m. induction 1 as [|l a ls m Hm _ IH]; [by exists []|]. cbn [Sharded.inTurn]. destruct (Hf l a Hm) as (l' & -> & Hm'). destruct IH as (ls' & -> & IH). cbn. exists (l' :: ls'). split; [done|by constructor].
Qed.

Lemma onAll_models {R} s m (f : LRU K V -> option (R * LRU K V)) g : modelsAll s m ->
  (forall l a, models hash S l a -> exists l', f l = Some ((g a).1, l') /\ models hash S l' (g a).2) ->
  exists s', Sharded.onAll s f = Some ((fun a => (g a).1) <$> m, s') /\ modelsAll s' ((fun a => (g a).2) <$> m).
Proof.
  intros [H1 H2 H3] Hf. unfold Sharded.onAll. destruct (inTurn_models f g Hf _ _ H1) as (ls' & -> & H'). cbn. eexists. split; [done|]. split; cbn [lrus shardMask]; rewrite ?length_fmap; done.
Qed.

Lemma purgeAll_models s m now : modelsAll s m -> exists s', Sharded.PurgeExpired s now = Some s' /\ modelsAll s' (absPurgeExpired S now <$> m).
Proof.
  intros Hm. unfold Sharded.PurgeExpired. destruct (onAll_models s m (fun l => l ← PurgeExpired l now; Some (tt, l)) (fun a => (tt, absPurgeExpired S now a)) Hm) as (s' & -> & Hm'); [|by exists s'].
  intros l a Hl. destruct (purgeExpired_models hash S l a now Hl) as (l' & -> & ?). by exists l'.
Qed.

Lemma sharded_models s m now o : modelsAll s m -> exists s', runSharded now o s = Some ((absSharded S now o m).1, s') /\ modelsAll s' (absSharded S now o m).2.
Proof.
  intros Hm. assert (Hop : forall l a, models hash S l a -> exists l', runOp hash now o l = Some ((absOp S now o a).1, l') /\ models hash S l' (absOp S now o a).2) by (intros; by apply op_models).
  pose proof (fun k => onShard_models s m k (runOp hash now o) (absOp S now o) Hm Hop) as Hsh.
  destruct o as [k v|k v d|k|[] k|k|k c|k|k|k|k v d|k| | | |]; cbn [runSharded absSharded keyOf]; try (cbv delta [Sharded.Add Sharded.AddWithLifetime Sharded.Get Sharded.GetWithLifetime Sharded.GetWithLifetimeNoExpire Sharded.GetAndRefresh
    Sharded.Peek Sharded.PeekWithLifetime Sharded.Contains Sharded.UpdateLifetime Sharded.Remove Sharded.RemoveOldest] beta; rewrite onShard_bind; apply Hsh).
  - unfold Sharded.GetAndRefreshOrAdd. destruct (onShard_models s m k (fun l => getAndRefreshOrAdd l now (hash k) k c) (absRefreshOrAdd S now k c) Hm) as (s1 & -> & Hm1); [intros; by apply refreshOrAdd_models|].
    destruct (atShard m k _) as [[v updated] m1]. cbn [fst snd mbind option_bind] in *. destruct (negb updated && _); [|by exists s1]. destruct (purgeAll_models s1 m1 now Hm1) as (s' & -> & Hm'). by exists s'.
  - unfold Sharded.Keys. destruct (onAll_models s m (fun l => Keys l now) (fun a => (enKey <$> list_ (absPurgeExpired S now a), absPurgeExpired S now a)) Hm) as (s' & -> & Hm'); [intros; by apply keys_models|].
    exists s'. split; [|done]. cbn. by rewrite <- list_fmap_compose.
  - destruct (purgeAll_models s m now Hm) as (s' & -> & Hm'). by exists s'.
  - unfold Sharded.Purge. destruct (onAll_models s m (fun l => l ← Purge l; Some (tt, l)) (fun a => (tt, (absOp S now OpPurge a).2)) Hm) as (s' & -> & Hm'); [|by exists s'].
    intros l a Hl. destruct (purge_models hash S l a Hl) as (l' & -> & ?). by exists l'.
Qed.

Lemma shardedOps_models ops : forall s m, modelsAll s m -> exists s', runShardedOps ops s = Some ((absShardedOps S ops m).1, s') /\ modelsAll s' (absShardedOps S ops m).2.
Proof.
  induction ops as [|[now o] ops IH]; intros s m Hm; [by exists s|]. cbn [runShardedOps absShardedOps]. destruct (sharded_models s m now o Hm) as (s1 & -> & Hm1). cbn [mbind option_bind].
  destruct (absSharded S now o m) as [r m1]. cbn [fst snd] in *. destruct (IH s1 m1 Hm1) as (s' & -> & Hm'). cbn. destruct (absShardedOps S ops m1). by exists s'.
Qed.

(** ** The value stored last *)

(** The value stored last for a key, from the operations and their answers *)
Definition stored (k : K) (c : op K V * answer K V) (last : option V) : option V :=
  match c with
  | (OpAdd k' v, _) | (OpAddWithLifetime k' v _, _) | (OpGetAndRefreshOrAdd k' _, FoundOr (Some v) _) => if decide (k' = k) then Some v else last
  | (OpRemove k', _) => if decide (k' = k) then None else last
  | (OpPurge, _) => None
  | _ => last
  end.

Definition lastStored (k : K) (ops : list (op K V)) (rs : list (answer K V)) : option V := fold_left (fun last c => stored k c last) (zip ops rs) None.

(** The entries of a key have that value. *)
Definition current (k : K) (l : list (entry K V)) (last : option V) : Prop := forall x, x ∈ l -> enKey x = k -> last = Some (enVal x).

Lemma current_filter k l last (P : entry K V -> Prop) `{!forall x, Decision (P x)} : current k l last -> current k (filter P l) last.
Proof. intros Hc x [_ Hx]%list_elem_of_filter. by apply Hc. Qed.

Lemma current_newest k a x last : current k (list_ a) last -> (enKey x = k -> last = Some (enVal x)) -> current k (list_ (asNewest x a)) last.
Proof. intros H Hx y [Hy|Hy%list_elem_of_singleton]%elem_of_app; [apply list_elem_of_filter in Hy as [_ Hy]; by apply H|by subst y]. Qed.

Lemma current_stored k a x : current k (list_ a) (Some (enVal x)) \/ enKey x = k -> current k (list_ (asNewest x a)) (Some (enVal x)).
Proof.
  intros H y [[Hne Hy]%list_elem_of_filter|Hy%list_elem_of_singleton]%elem_of_app; [|by subst y]. destruct H as [H|<-]; [by apply H|congruence].
Qed.

Lemma current_without k l last : current k (without k l) last.
Proof. intros x [Hx _]%list_elem_of_filter. done. Qed.

Lemma lookup_elem k (l : list (entry K V)) x : lookupKey k l = Some x -> x ∈ l /\ enKey x = k.
Proof. intros [H1%list_elem_of_In H2%bool_decide_eq_true]%find_some. done. Qed.

Lemma find_current k now expires k' a last : current k (list_ a) last -> current k (list_ (absFind S now expires k' a).2) last /\
  (forall x, (absFind S now expires k' a).1 = Some x -> x ∈ list_ a /\ enKey x = k').
Proof.
  intros H. unfold absFind. destruct (lookupKey k' (list_ a)) as [x|] eqn:E; [|done]. apply lookup_elem in E as [Hx Hk]. destruct (_ || _); cbn; [split; [by apply current_filter|done]|]. split; [done|]. by intros y [= <-].
Qed.

Lemma add_current k now k' v d a last : current k (list_ a) last -> current k (list_ (absAdd S now k' v d a).2) (if decide (k' = k) then Some v else last).
Proof.
  intros H. set (x := mkEntry k' v (expireOf now d) d). assert (Hn : forall b : entries K V, current k (list_ b) last -> current k (list_ (asNewest x b)) (if decide (k' = k) then Some v else last)).
  { intros b Hb. destruct (decide (k' = k)) as [->|]; [apply (current_stored k b x); by right|by apply current_newest]. }
  unfold absAdd. fold x. destruct (lookupKey k' (list_ a)); [by apply Hn|]. destruct (list_ a) as [|y l] eqn:E; [by apply Hn; rewrite E|]. destruct (_ =? _); cbn [snd].
  - apply Hn. cbn [takeOut list_]. rewrite E. by apply current_filter.
  - apply Hn. by rewrite E.
Qed.

Lemma newest_current k now expires k' a last (f : entry K V -> entry K V) : (forall x, enKey (f x) = enKey x /\ enVal (f x) = enVal x) -> current k (list_ a) last ->
  current k (list_ (let '(g, b) := absFind S now expires k' a in match g with Some x => asNewest (f x) b | None => b end)) last.
Proof.
  intros Hf H. pose proof (find_current k now expires k' a last H) as [H1 H2]. destruct (absFind S now expires k' a) as [[x|] b]; [|done]. cbn [fst snd] in *. apply current_newest; [done|].
  destruct (H2 x eq_refl) as [Hx _], (Hf x) as [-> ->]. intros Hk. by apply H.
Qed.

Lemma refreshOrAdd_current k now k' c a last : current k (list_ a) last ->
  current k (list_ (absRefreshOrAdd S now k' c a).2) (stored k (OpGetAndRefreshOrAdd k' c, FoundOr (absRefreshOrAdd S now k' c a).1.1 (absRefreshOrAdd S now k' c a).1.2) last).
Proof.
  intros H. unfold absRefreshOrAdd. pose proof (find_current k now false k' a last H) as [H1 H2]. destruct (absFind S now false k' a) as [[x|] b]; cbn [fst snd stored] in *.
  - destruct (H2 x eq_refl) as [Hx Hk]. destruct (decide (k' = k)) as [->|]; [apply (current_stored k b (refreshed now x)); by right|]. apply current_newest; [done|]. intros E. cbn in E. congruence.
  - destruct c as [v|]; cbn [fst snd]; [by apply add_current|done].
Qed.

Lemma op_current k now o a last : current k (list_ a) last -> current k (list_ (absOp S now o a).2) (stored k (o, (absOp S now o a).1) last).
Proof.
  intros H. destruct o as [k' v|k' v d|k'|expires k'|k'|k' c|k'|k'|k'|k' v d|k'| | | |]; cbn [absOp].
  - pose proof (add_current k now k' v (sLife S) a last H). by destruct (absAdd S now k' v (sLife S) a).
  - pose proof (add_current k now k' v d a last H). by destruct (absAdd S now k' v d a).
  - pose proof (newest_current k now true k' a last id ltac:(done) H). by destruct (absFind S now true k' a) as [[x|] b].
  - pose proof (newest_current k now expires k' a last id ltac:(done) H). by destruct (absFind S now expires k' a) as [[x|] b].
  - pose proof (newest_current k now false k' a last (refreshed now) ltac:(done) H). by destruct (absFind S now false k' a) as [[x|] b].
  - pose proof (refreshOrAdd_current k now k' c a last H) as Hc. destruct (absRefreshOrAdd S now k' c a) as [[v u] b]. cbn [fst snd] in *. destruct (negb u && _); [by apply current_filter|done].
  - pose proof (find_current k now true k' a last H) as [H1 _]. by destruct (absFind S now true k' a).
  - pose proof (find_current k now true k' a last H) as [H1 _]. by destruct (absFind S now true k' a).
  - pose proof (find_current k now true k' a last H) as [H1 _]. by destruct (absFind S now true k' a).
  - destruct (lookupKey k' (list_ a)) as [x|] eqn:E; [|done]. apply lookup_elem in E as [Hx Hk]. destruct (decide (enVal x = v)) as [<-|]; [|done]. apply current_newest; [done|]. cbn. intros <-. by apply H.
  - pose proof (find_current k now false k' a last H) as [H1 H2]. destruct (absFind S now false k' a) as [[x|] b] eqn:E; cbn [fst snd stored list_ takeOut] in *.
    + destruct (H2 x eq_refl) as [_ ->]. destruct (decide (k' = k)) as [->|]; [apply current_without|by apply current_filter].
    + destruct (decide (k' = k)) as [->|]; [|done]. unfold absFind in E. destruct (lookupKey k (list_ a)) as [x|] eqn:El.
      * apply lookup_elem in El as [_ Hk]. destruct (_ || _); [|done]. injection E as <-. cbn [list_ takeOut]. rewrite Hk. apply current_without.
      * injection E as <-. intros x Hx Hk. eapply find_none in El; [|by apply list_elem_of_In]. by rewrite bool_decide_true in El.
  - destruct (list_ a) as [|x l] eqn:E; cbn [snd]; [by rewrite E|]. cbn [list_ takeOut stored]. rewrite E. by apply current_filter.
  - by apply current_filter.
  - by apply current_filter.
  - intros x Hx. by apply not_elem_of_nil in Hx.
Qed.

(** The operations that read a key, and what they return *)
Definition reads (k : K) : list (op K V) := [OpGet k; OpGetWithLifetime true k; OpGetWithLifetime false k; OpGetAndRefresh k; OpPeek k; OpPeekWithLifetime k].

Definition valueRead (r : answer K V) : option V := match r with Found v => v | FoundUntil v => fst <$> v | _ => None end.

Lemma read_current k now o a last x : current k (list_ a) last -> o ∈ reads k -> valueRead (absOp S now o a).1 = Some x -> last = Some x.
Proof.
  intros H Ho. assert (Hf : forall expires y, (absFind S now expires k a).1 = Some y -> last = Some (enVal y)).
  { intros expires y Hy. destruct (find_current k now expires k a last H) as [_ Hf]. destruct (Hf y Hy) as [Hin Hk]. by apply H. }
  unfold reads in Ho. repeat (apply elem_of_cons in Ho as [->|Ho]); [..|by apply not_elem_of_nil in Ho]; cbn [absOp];
    match goal with |- context [absFind S now ?e k a] => specialize (Hf e); destruct (absFind S now e k a) as [[y|] b] end; cbn; try done; intros [= <-]; by apply Hf.
Qed.

(** The entries of the shard of a key *)
Definition shardList m (k : K) : list (entry K V) := list_ (default (mkEntries [] []) (m !! shardIx m k)).

Lemma shardIx_length m m' k : length m = length m' -> shardIx m k = shardIx m' k.
Proof. unfold shardIx. by intros ->. Qed.

Lemma shardList_fmap m k (f : entries K V -> entries K V) : isPow2 (Z.of_nat (length m)) -> shardList (f <$> m) k = list_ (f (default (mkEntries [] []) (m !! shardIx m k))).
Proof.
  intros Hp. unfold shardList. rewrite (shardIx_length (f <$> m) m) by apply length_fmap. rewrite list_lookup_fmap. by destruct (lookup_lt_is_Some_2 m _ (shardIx_lt m k Hp)) as [a ->].
Qed.

(** A step of a shard, seen from the shard of a key *)
Lemma atShard_list {R} m k k' (f : entries K V -> R * entries K V) : isPow2 (Z.of_nat (length m)) -> let a := default (mkEntries [] []) (m !! shardIx m k') in
  length (atShard m k' f).2 = length m /\ (atShard m k' f).1 = (f a).1 /\
  (shardIx m k' = shardIx m k /\ shardList (atShard m k' f).2 k = list_ (f a).2 \/ shardIx m k' <> shardIx m k /\ shardList (atShard m k' f).2 k = shardList m k).
Proof.
  intros Hp a. unfold atShard. fold a. destruct (f a) as [r b]. cbn [fst snd]. split_and!; [by rewrite length_insert|done|].
  assert (Hsl : shardList (<[shardIx m k' := b]> m) k = list_ (default (mkEntries [] []) (<[shardIx m k' := b]> m !! shardIx m k))).
  { unfold shardList. by rewrite (shardIx_length (<[shardIx m k' := b]> m) m) by apply length_insert. }
  rewrite Hsl.
  destruct (decide (shardIx m k' = shardIx m k)) as [E|E]; [left|right]; (split; [done|]).
  - rewrite <- E, list_lookup_insert_eq by (by apply shardIx_lt). done.
  - by rewrite list_lookup_insert_ne.
Qed.

(** An operation on a shard a key is not in does not store it. *)
Lemma stored_other k o r last m : keyOf o <> None -> (forall k', keyOf o = Some k' -> shardIx m k' <> shardIx m k) -> stored k (o, r) last = last.
Proof.
  intros Hn H. assert (Hk : keyOf o <> Some k) by (intros E; by apply (H k E)). destruct o as [k' v|k' v d|k'|expires k'|k'|k' c|k'|k'|k'|k' v d|k'| | | |]; cbn in *; try done; rewrite ?decide_False by congruence; try done.
  destruct r as [| | |[v|] u| | |]; rewrite ?decide_False by congruence; done.
Qed.

Lemma sharded_current k now o m last : isPow2 (Z.of_nat (length m)) -> current k (shardList m k) last ->
  length (absSharded S now o m).2 = length m /\ current k (shardList (absSharded S now o m).2 k) (stored k (o, (absSharded S now o m).1) last).
Proof.
  intros Hp H. assert (Hop : forall k', keyOf o = Some k' -> length (atShard m k' (absOp S now o)).2 = length m /\
    current k (shardList (atShard m k' (absOp S now o)).2 k) (stored k (o, (atShard m k' (absOp S now o)).1) last)).
  { intros k' Hk. destruct (atShard_list m k k' (absOp S now o) Hp) as (Hl & Hr & Hs). split; [done|]. rewrite Hr. destruct Hs as [[E ->]|[E ->]].
    - unfold shardList in H. rewrite <- E in H. by apply op_current.
    - rewrite (stored_other k o _ last m); [done|by rewrite Hk|]. intros k2. rewrite Hk. by intros [= <-]. }
  destruct o as [k' v|k' v d|k'|expires k'|k'|k' c|k'|k'|k'|k' v d|k'| | | |]; cbn [absSharded keyOf] in *; try (apply Hop; done); rewrite ?length_fmap; clear Hop.
  - destruct (atShard_list m k k' (absRefreshOrAdd S now k' c) Hp) as (Hl & Hr & Hs). destruct (atShard m k' _) as [[v u] m1]. cbn [fst snd] in *.
    assert (Hc : current k (shardList m1 k) (stored k (OpGetAndRefreshOrAdd k' c, FoundOr v u) last)).
    { destruct Hs as [[E ->]|[E ->]]; [|rewrite (stored_other k _ _ last m); [done|done|]; cbn; by intros k2 [= <-]]. unfold shardList in H. rewrite <- E in H.
      pose proof (refreshOrAdd_current k now k' c _ last H) as Hc. rewrite <- Hr in Hc. done. }
    destruct (negb u && _); rewrite ?length_fmap; (split; [done|]); [|done]. rewrite shardList_fmap by (by rewrite Hl). by apply current_filter.
  - cbv zeta. cbn [snd]. split; [by rewrite length_fmap|]. rewrite shardList_fmap by done. by apply current_filter.
  - cbn [snd]. split; [by rewrite ?length_fmap|]. rewrite shardList_fmap by done. by apply current_filter.
  - cbn [snd]. split; [by rewrite ?length_fmap|]. rewrite shardList_fmap by done. intros x Hx. by apply not_elem_of_nil in Hx.
Qed.

Lemma shardedOps_current k ops : forall m last, isPow2 (Z.of_nat (length m)) -> current k (shardList m k) last ->
  current k (shardList (absShardedOps S ops m).2 k) (fold_left (fun last c => stored k c last) (zip ops.*2 (absShardedOps S ops m).1) last).
Proof.
  induction ops as [|[now o] ops IH]; intros m last Hp H; [done|]. cbn [absShardedOps]. destruct (sharded_current k now o m last Hp H) as [Hl Hc]. destruct (absSharded S now o m) as [r m1]. cbn [fst snd] in *.
  specialize (IH m1 _ ltac:(by rewrite Hl) Hc). destruct (absShardedOps S ops m1) as [rs m2]. exact IH.
Qed.
End sharded.
