(* ===== verification/FreeLRUClaims.v ===== *)
(** * What the LRU caches do

    A cache of any size with any hash function, and the sharded cache that the program uses,
    answer as lists of entries do; what is read is what was stored last. *)

From S2P Require Import Prelude MatchState Netip Context DNSMessage RuleItem Options RuleActions.
From S2P Require Import RuleAbstract RuleBuild RuleSets DNSRouter DNSClient DNSClientSpec.
From S2P Require Import FreeLRU FreeLRUSpec FreeLRURefine FreeLRUShardedSpec.

Definition noEntries {K V} : entries K V := mkEntries [] [].

(** The settings of all shards *)
Definition configureAll {K V} (S : settings K V) (s : ShardedLRU K V) : ShardedLRU K V :=
  Sharded.SetHealthCheck (Sharded.SetOnEvict (Sharded.SetLifetime s (sLife S)) (sOnEvict S)) (sCheck S).

(** ** What was added last *)

Section newest.
Context {K V : Type} `{EqDecision K} `{EqDecision V} (S : settings K V).

Lemma find_app {A} (f : A -> bool) (l l' : list A) : List.find f (l ++ l') = match List.find f l with Some x => Some x | None => List.find f l' end.
Proof. induction l as [|x l IH]; [done|]. cbn. by destruct (f x). Qed.

Lemma lookup_newest x (a : entries K V) : lookupKey (enKey x) (list_ (asNewest x a)) = Some x.
Proof.
  unfold lookupKey, asNewest. cbn [list_]. rewrite find_app. destruct (List.find _ (without (enKey x) (list_ a))) as [y|] eqn:E; [|cbn; by rewrite bool_decide_true].
  apply find_some in E as [Hy%list_elem_of_In Hk%bool_decide_eq_true]. by apply list_elem_of_filter in Hy as [Hne _].
Qed.

Lemma lookup_added now k v d (a : entries K V) : lookupKey k (list_ (absAdd S now k v d a).2) = Some (mkEntry k v (expireOf now d) d).
Proof. unfold absAdd. repeat (case_match || apply (lookup_newest (mkEntry k v (expireOf now d) d))). Qed.
End newest.

Section claims.
Context {K V : Type} `{EqDecision K} `{EqDecision V} (hash : K -> Z).

Lemma models_measure (S : settings K V) l a : models hash S l a -> len l = Z.of_nat (length (list_ a)) /\ len l <= sCap S /\ NoDup (enKey <$> list_ a).
Proof.
  intros Hm. pose proof (models_keys _ _ _ _ Hm) as Hk. destruct Hm as [(order & chains & data & R & E) _ Hs]. rewrite E in *. rewrite length_fmap. pose proof (rp_len _ _ _ _ _ R) as [Hl Hc].
  assert (Hd : length order = length data) by (by rewrite (rp_data _ _ _ _ _ R), length_fmap). rewrite <- (st_cap _ _ Hs), <- Hd. done.
Qed.

(** C29. The LRU cache, an array of elements linked by age and by bucket, refines a
    list of entries from oldest to newest: for any 32-bit hash function, capacity of
    at least one, size of at least the capacity and below the marker of an empty
    bucket, settings and operations at any times, no operation of a new cache panics,
    all answers and evictions are those of the list, and the capacity is kept. *)
Theorem lru_refines (S : settings K V) (k : K) (v : V) size ops : (forall x, fits 32 (hash x)) -> 0 < sCap S <= size -> size < emptyBucket ->
  exists l l', NewWithSize k v (sCap S) size = Ok l /\ runOps hash ops (configure S l) = Some ((absOps S ops noEntries).1, l') /\
    evicted l' = gone (absOps S ops noEntries).2 /\ len l' = Z.of_nat (length (list_ (absOps S ops noEntries).2)) /\ len l' <= sCap S.
Proof.
  intros Hh Hc Hs. destruct (ops_models hash Hh S ops _ _ (new_models hash S k v size Hc Hs)) as (l' & E & Hm). exists (initLRU k v (sCap S) size), l'. split; [|split; [done|]].
  - unfold NewWithSize. rewrite (proj2 (Z.eqb_neq (sCap S) 0)), (proj2 (Z.eqb_neq size emptyBucket)), (proj2 (Z.ltb_ge size (sCap S))) by lia. done.
  - destruct (models_measure _ _ _ Hm) as (H1 & H2 & _). split; [apply Hm|done].
Qed.

(** A new sharded cache *)
Lemma newSharded_models (k : K) (v : V) shards capacity size onEvict (check : option (K -> V -> bool)) life : fits 32 shards -> fits 32 size -> 0 < capacity <= size -> capacity <= 2 ^ 31 ->
  exists n c z s, shardShape shards capacity size = Ok (n, c, z) /\ NewShardedWithSize k v shards capacity size = Ok s /\ isPow2 n /\ capacity <= n * c /\
    modelsAll hash (mkSettings c onEvict check life) (configureAll (mkSettings c onEvict check life) s) (replicate (Z.to_nat n) noEntries).
Proof.
  intros Hsh Hz Hc Hmax. assert (Hok : exists n c z, shardShape shards capacity size = Ok (n, c, z)).
  { unfold shardShape. rewrite (proj2 (Z.eqb_neq capacity 0)), (proj2 (Z.ltb_ge size capacity)) by lia. by do 3 eexists. }
  destruct Hok as (n & c & z & E). assert (Hcap : fits 32 capacity) by (unfold fits in *; lia). destruct (shardShape_ok _ _ _ _ _ _ Hsh Hcap Hz Hmax E) as (Hp & Hcz & Hz' & Htot). pose proof (isPow2_pos _ Hp).
  exists n, c, z, (mkSharded (replicate (Z.to_nat n) (initLRU k v c z)) (n - 1)). unfold NewShardedWithSize. rewrite E. split_and!; try done.
  split; cbn [configureAll Sharded.SetLifetime Sharded.SetOnEvict Sharded.SetHealthCheck lrus shardMask]; rewrite ?length_replicate, ?Z2Nat.id by lia; [|done|done].
  rewrite !fmap_replicate. apply Forall2_replicate. apply (new_models hash (mkSettings c onEvict check life) k v z); [done|unfold emptyBucket; lia].
Qed.



(** Nothing stale is read: after any operations on a new sharded cache, a value that an
    operation reads for a key is the one that was stored last for that key, and the key has
    not been removed and the cache not been purged since then. *)
Theorem read_last_stored (k : K) (v : V) shards capacity size onEvict (check : option (K -> V -> bool)) life ops key : (forall x, fits 32 (hash x)) -> fits 32 shards -> fits 32 size -> 0 < capacity <= size -> capacity <= 2 ^ 31 ->
  exists c s rs s', NewShardedWithSize k v shards capacity size = Ok s /\ runShardedOps hash k ops (configureAll (mkSettings c onEvict check life) s) = Some (rs, s') /\
    forall now o, o ∈ reads key -> exists r s'', runSharded hash k now o s' = Some (r, s'') /\ forall x, valueRead r = Some x -> lastStored key ops.*2 rs = Some x.
Proof.
  intros Hh Hsh Hz Hc Hmax. destruct (newSharded_models k v shards capacity size onEvict check life Hsh Hz Hc Hmax) as (n & c & z & s & _ & E2 & Hp & _ & Hm). set (S := mkSettings c onEvict check life) in *.
  destruct (shardedOps_models hash k Hh _ ops _ _ Hm) as (s' & E & Hm'). exists c, s. eexists _, s'. split; [done|]. split; [exact E|]. intros now o Ho.
  pose proof (shardedOps_current hash k S key ops (replicate (Z.to_nat n) noEntries) None (ma_pow _ _ _ _ Hm)) as Hcur. destruct (absShardedOps _ _ _ _ _) as [rs m]. cbn [fst snd] in *.
  destruct (sharded_models hash k Hh S s' m now o Hm') as (s'' & Es & _). eexists _, s''. split; [exact Es|]. intros x Hx. eapply (read_current S key now o); [apply Hcur|exact Ho|].
  - intros y Hy. unfold shardList in Hy. destruct (replicate _ _ !! _) as [a|] eqn:El; [apply lookup_replicate in El as [-> _]|]; by apply not_elem_of_nil in Hy.
  - rewrite <- Hx. f_equal. unfold reads in Ho. repeat (apply elem_of_cons in Ho as [->|Ho]); [..|by apply not_elem_of_nil in Ho]; cbn [absSharded keyOf]; unfold atShard; by destruct (absOp _ _ _ _).
Qed.
End claims.

(** ** Examples *)

(** Two keys in a row have the same hash. *)
Definition pairHash (k : Z) : Z := u32 (k / 2 * 2 ^ 16 + k / 2).

Lemma pairHash_fits k : fits 32 (pairHash k).
Proof. apply Z.mod_pos_bound. done. Qed.

Definition exSettings : settings Z Z := mkSettings 2 true None (10 ^ 9).

Definition exOps : list (Z * op Z Z) :=
  [(0, OpAdd 4 40); (1, OpAddWithLifetime 5 50 0); (2, OpGet 4); (3, OpAdd 4 41); (4, OpAdd 8 80); (1003, OpGet 4); (1003, OpGetAndRefresh 8); (1500, OpKeys); (1500, OpRemoveOldest); (1500, OpKeys)].

Lemma lru_refines_witness : 0 < 2 <= 3 /\ exists l l', NewWithSize 0 0 2 3 = Ok l /\
  runOps pairHash exOps (configure exSettings l) =
    Some ([Flag false; Flag false; Found (Some 40); Flag false; Flag true; Found None; Found (Some 80); AllKeys [8]; Taken (Some (8, 80)); AllKeys []], l') /\
  evicted l' = [(5, 50); (4, 41); (8, 80)] /\ len l' = 0 /\ len l' <= 2.
Proof.
  split; [done|]. pose proof (lru_refines pairHash exSettings 0 0 3 exOps pairHash_fits) as H. assert (E : absOps exSettings exOps noEntries =
    ([Flag false; Flag false; Found (Some 40); Flag false; Flag true; Found None; Found (Some 80); AllKeys [8]; Taken (Some (8, 80)); AllKeys []], mkEntries [] [(5, 50); (4, 41); (8, 80)])) by (vm_compute; reflexivity).
  rewrite E in H. apply H; done.
Defined.

Definition exShardedOps : list (Z * op Z Z) := [(0, OpAdd 4 40); (0, OpAdd 9 90); (0, OpRemove 4); (0, OpRemoveOldest); (0, OpAdd 4 41); (0, OpGetAndRefreshOrAdd 4 (Some 42)); (0, OpKeys)].


Lemma read_last_stored_witness : exists c s rs s', NewShardedWithSize 0 0 2 24 30 = Ok s /\ runShardedOps pairHash 0 exShardedOps (configureAll (mkSettings c false None 0) s) = Some (rs, s') /\
  forall now o, o ∈ reads 4 -> exists r s'', runSharded pairHash 0 now o s' = Some (r, s'') /\ forall x, valueRead r = Some x -> lastStored 4 exShardedOps.*2 rs = Some x.
Proof. apply (read_last_stored pairHash 0 0 2 24 30 false None 0 exShardedOps 4); [apply pairHash_fits|done|done|done|done]. Defined.

(** [RemoveOldest] of the sharded cache looks at the shard of the zero key only: it finds
    nothing in a cache that is not empty. *)
Example remove_oldest_one_shard :
  match NewShardedWithSize 0 0 2 24 30 with
  | Ok s => fst <$> runShardedOps pairHash 0 [(0, OpAdd 6 60); (0, OpRemoveOldest); (0, OpKeys)] s = Some [Flag false; Taken None; AllKeys [6]]
  | Err _ => False
  end.
Proof. vm_compute. reflexivity. Qed.

(** A capacity above 2^31 is accepted, but then a shard has more capacity than elements; the
    first entry that does not fit is stored out of range. *)
Example shards_too_small : shardShape 16 (2 ^ 31 + 16) (2 ^ 31 + 16) = Ok (16, 2 ^ 27 + 1, 2 ^ 27).
Proof. vm_compute. reflexivity. Qed.

Example stored_out_of_range : runOps pairHash [(0, OpAdd 1 10); (0, OpAdd 2 20)] (initLRU 0 0 2 1) = None.
Proof. vm_compute. reflexivity. Qed.

(** * The sharded cache as the cache of the DNS client

    [DNSClient.LRU] is the interface the client uses and [keepsEntries] what it relies on; the
    caches of [NewClient] are sharded caches without callbacks and without a lifetime.  Their
    states are the ones that operations reach, on which no operation panics. *)

Section client.
Context {K V : Type} `{EqDecision K} (hash : K -> Z) (Hhash : forall k, fits 32 (hash k)) (capacity : Z).

Definition plain : settings K V := mkSettings capacity false None 0.

Definition valid (s : ShardedLRU K V) : Prop := exists m, modelsAll hash plain s m.

Definition cacheState : Type := { s : ShardedLRU K V | valid s }.

(** An operation that does not panic *)
Definition total {R} (f : ShardedLRU K V -> option (R * ShardedLRU K V)) : Prop := forall s, valid s -> exists r s', f s = Some (r, s') /\ valid s'.

Lemma total_next {R} (o : option (R * ShardedLRU K V)) r s' : o = Some (r, s') -> (exists r s', o = Some (r, s') /\ valid s') -> valid s'.
Proof. intros -> (r1 & s1 & [= <- <-] & H). exact H. Qed.

Lemma total_some {R} : (exists (r : R) s', None = Some (r, s') /\ valid s') -> False.
Proof. by intros (? & ? & ? & _). Qed.

Definition lift {R} (f : ShardedLRU K V -> option (R * ShardedLRU K V)) (Hf : total f) (c : cacheState) : R * cacheState :=
  match f (`c) as o return (exists r s', o = Some (r, s') /\ valid s') -> R * cacheState with
  | Some (r, s') => fun H => (r, s' ↾ total_next _ r s' eq_refl H)
  | None => fun H => False_rect _ (total_some H)
  end (Hf (`c) (proj2_sig c)).

Lemma lift_eq {R} (f : ShardedLRU K V -> option (R * ShardedLRU K V)) Hf c r s' : f (`c) = Some (r, s') -> (lift f Hf c).1 = r /\ proj1_sig (lift f Hf c).2 = s'.
Proof. intros E. unfold lift. generalize (Hf (`c) (proj2_sig c)). rewrite E. done. Qed.

(** ** The operations *)

(** A step of the shard of a key that follows a step of its list *)
Lemma onShard_total {R} (f : LRU K V -> option (R * LRU K V)) g k : (forall l a, models hash plain l a -> exists l', f l = Some ((g a).1, l') /\ models hash plain l' (g a).2) ->
  total (fun s => Sharded.onShard hash s k f).
Proof. intros Hf s [m Hm]. destruct (onShard_models hash plain s m k f g Hm Hf) as (s' & E & Hm'). eexists _, s'. split; [exact E|]. by eexists. Qed.

Definition absGet (now : Z) (k : K) (a : entries K V) : option V * entries K V :=
  let '(f, b) := absFind plain now true k a in (enVal <$> f, match f with Some x => asNewest x b | None => b end).

Definition absGetUntil (now : Z) (k : K) (a : entries K V) : option (V * Z) * entries K V :=
  let '(f, b) := absFind plain now true k a in ((fun x => (enVal x, enExpire x)) <$> f, match f with Some x => asNewest x b | None => b end).

Definition absRemove (now : Z) (k : K) (a : entries K V) : bool * entries K V :=
  let '(f, b) := absFind plain now false k a in match f with Some x => (true, takeOut plain x b) | None => (false, b) end.

Lemma getUntil_follows now k l a : models hash plain l a -> exists l', getWithLifetime l now (hash k) k = Some ((absGetUntil now k a).1, l') /\ models hash plain l' (absGetUntil now k a).2.
Proof.
  intros Hm. destruct (get_models hash Hhash plain l a true now k Hm) as (l' & E & Hm'). exists l'. unfold getWithLifetime, absGetUntil. rewrite E. by destruct (absFind plain now true k a).
Qed.

Lemma get_follows now k l a : models hash plain l a -> exists l', get l now (hash k) k = Some ((absGet now k a).1, l') /\ models hash plain l' (absGet now k a).2.
Proof.
  intros Hm. destruct (getUntil_follows now k l a Hm) as (l' & E & Hm'). exists l'. rewrite get_lifetime, E. unfold absGet, absGetUntil in *. cbn. by destruct (absFind plain now true k a) as [[x|] b].
Qed.

Lemma remove_follows now k l a : models hash plain l a -> exists l', remove l now (hash k) k = Some ((absRemove now k a).1, l') /\ models hash plain l' (absRemove now k a).2.
Proof.
  intros Hm. destruct (find_models hash Hhash plain l a false now k Hm) as (found & l1 & E & Hm1 & Hf). unfold remove, findKeyNoExpire, absRemove. rewrite E. cbn [mbind option_bind]. destruct (absFind plain now false k a) as [f b]. cbn [fst snd] in *.
  destruct found as [pos|]; [|subst f; by exists l1]. destruct Hf as (x & Hloc & -> & _). destruct (removeAt_models _ _ _ _ _ _ Hm1 Hloc) as (l' & -> & Hm'). by exists l'.
Qed.

Lemma get_total now k : total (fun s => Sharded.Get hash s now k).
Proof. eapply onShard_total. apply get_follows. Qed.

Lemma getUntil_total now k : total (fun s => Sharded.GetWithLifetime hash s now k).
Proof. eapply onShard_total. apply getUntil_follows. Qed.

Lemma addWithLifetime_total now k v d : total (fun s => Sharded.AddWithLifetime hash s now k v d).
Proof. eapply (onShard_total _ (absAdd plain now k v d)). intros. by apply add_models. Qed.

Lemma add_total now k v : total (fun s => Sharded.Add hash s now k v).
Proof. eapply (onShard_total _ (absAdd plain now k v 0)). intros. by apply adding_models. Qed.

Lemma remove_total now k : total (fun s => Sharded.Remove hash s now k).
Proof. eapply onShard_total. apply remove_follows. Qed.

Lemma purge_total : total (fun s => s ← Sharded.Purge s; Some (tt, s)).
Proof.
  intros s [m Hm]. unfold Sharded.Purge. destruct (onAll_models hash plain s m (fun l => l ← Purge l; Some (tt, l)) (fun a => (tt, mkEntries [] (gone a ++ concat (event plain <$> list_ a)))) Hm) as (s' & -> & Hm').
  - intros l a Hl. destruct (purge_models hash plain l a Hl) as (l' & -> & ?). by exists l'.
  - exists tt, s'. split; [done|]. by eexists.
Qed.

(** The clock of the cache counts milliseconds; [Add] without a lifetime, [Remove] and [Purge]
    do not read it. *)
Definition freelru : DNSClient.LRU K V := {|
  lru := cacheState;
  lruGet c now k := lift _ (get_total (now / millisecond) k) c;
  lruGetWithLifetime c now k := let '(r, c) := lift _ (getUntil_total (now / millisecond) k) c in ((fun p => (p.1, p.2 * millisecond)) <$> r, c);
  lruAdd c k v := (lift _ (add_total 0 k v) c).2;
  lruAddWithLifetime c now k v lifetime := (lift _ (addWithLifetime_total (now / millisecond) k v lifetime) c).2;
  lruRemove c k := (lift _ (remove_total 0 k) c).2;
  lruPurge c := (lift _ purge_total c).2;
|}.

(** ** What the client relies on *)

Lemma found_answer now k a x : lookupKey k (list_ a) = Some x -> (absGetUntil now k a).1 = (if expiredE now x then None else Some (enVal x, enExpire x)) /\ (absGet now k a).1 = (if expiredE now x then None else Some (enVal x)).
Proof. intros H. unfold absGetUntil, absGet, absFind. rewrite H. cbn [andb sick plain sCheck]. rewrite orb_false_r. by destruct (expiredE now x). Qed.

Lemma expired_ms now stored lifetime : 0 <= stored -> millisecond <= lifetime -> let e := expireOf (stored / millisecond) lifetime in
  e * millisecond = expiryOf stored lifetime /\ (negb (e =? 0) && (e <=? now / millisecond)) = expired now (expiryOf stored lifetime).
Proof.
  intros Hs Hl. unfold expireOf, expired, expiryOf, millisecond in *. rewrite (proj2 (Z.eqb_neq lifetime 0)) by lia. rewrite Z.quot_div_nonneg, Z.div_mul by lia. split; [done|].
  rewrite (proj2 (Z.eqb_neq _ 0)); [done|]. pose proof (Z.div_pos stored (10 ^ 6) Hs ltac:(done)). pose proof (Z.div_le_mono (10 ^ 6) lifetime (10 ^ 6) ltac:(done) Hl) as H1. rewrite Z.div_same in H1 by done. lia.
Qed.

(** The state of the cache after an entry was added *)
Lemma added_state c stored k v lifetime : exists s m, proj1_sig (lruAddWithLifetime (LRU := freelru) c stored k v lifetime) = s /\ modelsAll hash plain s m /\
  lookupKey k (shardList hash m k) = Some (mkEntry k v (expireOf (stored / millisecond) lifetime) lifetime).
Proof.
  destruct c as [s [m Hm]]. cbn [lruAddWithLifetime freelru].
  destruct (onShard_models hash plain s m k (fun l => addWithLifetime l (stored / millisecond) (hash k) k v lifetime) (absAdd plain (stored / millisecond) k v lifetime) Hm) as (s1 & E & Hm1); [intros; by apply add_models|].
  destruct (lift_eq _ (addWithLifetime_total (stored / millisecond) k v lifetime) (s ↾ ex_intro _ m Hm) _ s1 E) as [_ E1]. exists s1. eexists. split; [exact E1|]. split; [exact Hm1|].
  destruct (atShard_list hash m k k (absAdd plain (stored / millisecond) k v lifetime) (ma_pow _ _ _ _ Hm)) as (_ & _ & [[_ ->]|[? _]]); [apply (lookup_added plain)|done].
Qed.

Lemma answer_at {R} (f : LRU K V -> option (R * LRU K V)) g k s m : modelsAll hash plain s m -> (forall l a, models hash plain l a -> exists l', f l = Some ((g a).1, l') /\ models hash plain l' (g a).2) ->
  exists s', Sharded.onShard hash s k f = Some ((g (default (mkEntries [] []) (m !! shardIx hash m k))).1, s').
Proof.
  intros Hm Hf. destruct (onShard_models hash plain s m k f g Hm Hf) as (s' & E & _). exists s'. rewrite E. by destruct (atShard_list hash m k k g (ma_pow _ _ _ _ Hm)) as (_ & -> & _).
Qed.
End client.

(** C31. The sharded cache is what the DNS client takes it for: for any hash function and any
    reachable state of a cache of any capacity, an entry that was just added with a lifetime is
    found, with its time of expiry, until that time, and not any more from then on. *)
Theorem freelru_keeps_entries {K V} `{EqDecision K} (hash : K -> Z) (Hhash : forall k, fits 32 (hash k)) capacity : keepsEntries (freelru (V := V) hash Hhash capacity).
Proof.
  intros c stored k v lifetime now Hs Hl. destruct (added_state hash Hhash capacity c stored k v lifetime) as (s & m & E & Hm & Hk). set (c1 := lruAddWithLifetime c stored k v lifetime) in *.
  destruct (found_answer capacity (now / millisecond) k _ _ Hk) as [F1 F2]. destruct (expired_ms now stored lifetime Hs Hl) as [X1 X2]. unfold expiredE in F1, F2. cbn [enExpire enVal] in F1, F2. rewrite X2 in F1, F2.
  destruct (answer_at hash capacity _ _ k s m Hm (getUntil_follows hash Hhash capacity (now / millisecond) k)) as (s1 & E1). destruct (answer_at hash capacity _ _ k s m Hm (get_follows hash Hhash capacity (now / millisecond) k)) as (s2 & E2).
  rewrite F1 in E1. rewrite F2 in E2. cbn [lruGetWithLifetime lruGet freelru]. rewrite <- E in E1, E2. split.
  - destruct (lift_eq hash capacity _ (getUntil_total hash Hhash capacity (now / millisecond) k) c1 _ s1 E1) as [A _]. destruct (lift _ _ _) as [r c2]. cbn [fst] in *. rewrite A. destruct (expired _ _); [done|]. cbn. by rewrite X1.
  - by destruct (lift_eq hash capacity _ (get_total hash Hhash capacity (now / millisecond) k) c1 _ s2 E2) as [A _].
Qed.

#[local] Instance exCache : DNSClient.LRU Z Z := freelru pairHash pairHash_fits 12.

Lemma freelru_keeps_entries_witness : exists c : lru Z Z,
  (lruGetWithLifetime (lruAddWithLifetime c (5 * second) 7 70 (2 * second)) (6 * second) 7).1 = Some (70, 7 * second) /\
  (lruGet (lruAddWithLifetime c (5 * second) 7 70 (2 * second)) (7 * second) 7).1 = None.
Proof.
  destruct (newSharded_models pairHash 0 0 2 24 30 false None 0) as (n & c & z & s & E & _ & _ & _ & Hm); try done. vm_compute in E. injection E as <- <- <-.
  exists (configureAll (plain 12) s ↾ ex_intro _ _ Hm). split.
  - refine (eq_trans (proj1 (freelru_keeps_entries pairHash pairHash_fits 12 _ (5 * second) 7 70 (2 * second) (6 * second) _ _)) _); done.
  - refine (eq_trans (proj2 (freelru_keeps_entries pairHash pairHash_fits 12 _ (5 * second) 7 70 (2 * second) (7 * second) _ _)) _); done.
Defined.
