(* ===== verification/Ja3.v ===== *)
(** * TLS client hello ([common/ja3])

    The parser of the client hello that the QUIC sniffer puts together from packets. *)

From S2P Require Import Prelude Binary.

(** [ParseError], and the constants of [parser.go] *)
Inductive Ja3Error := LengthErr (check : Z) | ContentTypeErr | VersionErr (check : Z) | HandshakeTypeErr | SNITypeErr.

Record ClientHello := mkClientHello {
  Version : Z;
  CipherSuites : list Z;
  Extensions : list Z;
  EllipticCurves : list Z;
  EllipticCurvePF : list Z;
  Versions : list Z;
  SignatureAlgorithms : list Z;
  ServerName : bytes;
}.

Definition sniExtensionType : Z := 0.
Definition ecExtensionType : Z := 10.
Definition ecpfExtensionType : Z := 11.
Definition signatureAlgorithmsExtensionType : Z := 13.
Definition versionExtensionType : Z := 43.
Definition GreaseBitmask : Z := 0x0F0F.

(** [tlsVersion&tlsVersionBitmask != 0x0300 && tlsVersion != tls13] *)
Definition badVersion (v : Z) : bool := negb (Z.land v 0xFFFC =? 0x0300) && negb (v =? 0x0304).

(** What an extension adds to the fields *)
Definition parseExtension (j : ClientHello) (exType : Z) (sex : bytes) : outcome Ja3Error ClientHello :=
  if exType =? sniExtensionType then
    if lenZ sex <? 5 then Fails (LengthErr 13)
    else
      sniType ← at8 sex 2;
      sniLen ← at16 sex 3;
      sex ← sliceFrom sex 5;
      if negb (lenZ sex =? sniLen) then Fails (LengthErr 14)
      else if negb (sniType =? 0) then Fails SNITypeErr
      else Returns (mkClientHello (Version j) (CipherSuites j) (Extensions j) (EllipticCurves j) (EllipticCurvePF j) (Versions j) (SignatureAlgorithms j) sex)
  else if exType =? ecExtensionType then
    if lenZ sex <? 2 then Fails (LengthErr 15)
    else
      ecsLen ← at16 sex 0;
      sex ← sliceFrom sex 2;
      if negb (lenZ sex =? ecsLen) then Fails (LengthErr 16)
      else
        curves ← words (Z.to_nat (ecsLen / 2)) sex 0;
        Returns (mkClientHello (Version j) (CipherSuites j) (Extensions j) curves (EllipticCurvePF j) (Versions j) (SignatureAlgorithms j) (ServerName j))
  else if exType =? ecpfExtensionType then
    if lenZ sex <? 1 then Fails (LengthErr 17)
    else
      numPF ← at8 sex 0;
      sex ← sliceFrom sex 1;
      if negb (lenZ sex =? numPF) then Fails (LengthErr 18)
      else Returns (mkClientHello (Version j) (CipherSuites j) (Extensions j) (EllipticCurves j) (byteZ <$> sex) (Versions j) (SignatureAlgorithms j) (ServerName j))
  else if exType =? versionExtensionType then
    if lenZ sex <? 1 then Fails (LengthErr 19)
    else
      versionsLen ← at8 sex 0;
      versions ← words (Z.to_nat ((versionsLen + 1) / 2)) sex 1;
      Returns (mkClientHello (Version j) (CipherSuites j) (Extensions j) (EllipticCurves j) (EllipticCurvePF j) (Versions j ++ versions) (SignatureAlgorithms j) (ServerName j))
  else if exType =? signatureAlgorithmsExtensionType then
    if lenZ sex <? 2 then Fails (LengthErr 20)
    else
      ssaLen ← at16 sex 0;
      algorithms ← words (Z.to_nat ((ssaLen + 1) / 2)) sex 2;
      Returns (mkClientHello (Version j) (CipherSuites j) (Extensions j) (EllipticCurves j) (EllipticCurvePF j) (Versions j) (SignatureAlgorithms j ++ algorithms) (ServerName j))
  else Returns j.

Definition withExtension (j : ClientHello) (exType : Z) : ClientHello :=
  mkClientHello (Version j) (CipherSuites j) (Extensions j ++ [exType]) (EllipticCurves j) (EllipticCurvePF j) (Versions j) (SignatureAlgorithms j) (ServerName j).

(** The loop over the extensions; each takes four bytes or more. *)
Fixpoint extensionLoop (fuel : nat) (j : ClientHello) (exs : bytes) : outcome Ja3Error ClientHello :=
  match fuel with
  | O => Hangs
  | S fuel =>
      if lenZ exs <=? 0 then Returns j
      else if lenZ exs <? 4 then Fails (LengthErr 11)
      else
        exType ← at16 exs 0;
        exLen ← at16 exs 2;
        let j := withExtension j exType in
        if lenZ exs <? 4 + exLen then Fails (LengthErr 12)
        else
          sex ← slice exs 4 (4 + exLen);
          j ← parseExtension j exType sex;
          exs ← sliceFrom exs (u16 (4 + exLen));
          extensionLoop fuel j exs
  end.

Definition parseExtensions (j : ClientHello) (exs : bytes) : outcome Ja3Error ClientHello :=
  if lenZ exs =? 0 then Returns j
  else if lenZ exs <? 2 then Fails (LengthErr 9)
  else
    exsLen ← at16 exs 0;
    exs ← sliceFrom exs 2;
    if lenZ exs <? exsLen then Fails (LengthErr 10)
    else extensionLoop (S (length exs)) j exs.

Definition parseHandshake (hs : bytes) : outcome Ja3Error ClientHello :=
  if lenZ hs <? 6 + 32 + 1 then Fails (LengthErr 3)
  else
    handshType ← at8 hs 0;
    if negb (handshType =? 1) then Fails HandshakeTypeErr
    else
      high ← at8 hs 1;
      low ← at16 hs 2;
      let handshakeLen := Z.lor (Z.shiftl high 16) low in
      if negb (lenZ hs - 4 =? handshakeLen) then Fails (LengthErr 4)
      else
        tlsVersion ← at16 hs 4;
        if badVersion tlsVersion then Fails (VersionErr 2)
        else
          sessionIDLen ← at8 hs 38;
          if lenZ hs <? 39 + sessionIDLen then Fails (LengthErr 5)
          else
            cs ← sliceFrom hs (39 + sessionIDLen);
            if lenZ cs <? 2 then Fails (LengthErr 6)
            else
              csLen ← at16 cs 0;
              if lenZ cs <? 2 + csLen + 1 then Fails (LengthErr 7)
              else
                cipherSuites ← words (Z.to_nat (csLen / 2)) cs 2;
                compressMethodLen ← at8 cs (2 + csLen);
                if lenZ cs <? 2 + csLen + 1 + compressMethodLen then Fails (LengthErr 8)
                else
                  exs ← sliceFrom cs (2 + csLen + 1 + compressMethodLen);
                  parseExtensions (mkClientHello tlsVersion cipherSuites [] [] [] [] [] []) exs.

Definition parseSegment (segment : bytes) : outcome Ja3Error ClientHello :=
  if lenZ segment <? 5 then Fails (LengthErr 1)
  else
    contType ← at8 segment 0;
    if negb (contType =? 22) then Fails ContentTypeErr
    else
      tlsRecordVersion ← at16 segment 1;
      if badVersion tlsRecordVersion then Fails (VersionErr 1)
      else
        segmentLen ← at16 segment 3;
        if lenZ segment - 5 <? segmentLen then Fails (LengthErr 2)
        else
          hs ← slice segment 5 (5 + segmentLen);
          parseHandshake hs.

(** [Compute] *)
Definition ComputeJa3 (payload : bytes) : outcome Ja3Error ClientHello := parseSegment payload.

(** * Reading a client hello

    A client hello that is written as RFC 8446 says is read with all its fields; on other
    bytes the parser ends, or panics because of a list that is longer than its extension. *)

(** ** What is written *)

Inductive extension :=
  | ServerNameExt (name : bytes)
  | GroupsExt (groups : list Z)
  | PointFormatsExt (formats : bytes)
  | VersionsExt (versions : list Z)
  | SignaturesExt (algorithms : list Z)
  | OtherExt (ty : Z) (body : bytes).

Definition wordBytes (ws : list Z) : bytes := concat (bigEndian 2 <$> ws).

Definition extType (e : extension) : Z :=
  match e with
  | ServerNameExt _ => sniExtensionType
  | GroupsExt _ => ecExtensionType
  | PointFormatsExt _ => ecpfExtensionType
  | VersionsExt _ => versionExtensionType
  | SignaturesExt _ => signatureAlgorithmsExtensionType
  | OtherExt ty _ => ty
  end.

Definition extBody (e : extension) : bytes :=
  match e with
  | ServerNameExt name => bigEndian 2 (lenZ name + 3) ++ [x00] ++ bigEndian 2 (lenZ name) ++ name
  | GroupsExt ws | SignaturesExt ws => bigEndian 2 (lenZ (wordBytes ws)) ++ wordBytes ws
  | PointFormatsExt formats => zByte (lenZ formats) :: formats
  | VersionsExt ws => zByte (lenZ (wordBytes ws)) :: wordBytes ws
  | OtherExt _ body => body
  end.

Definition extBytes (e : extension) : bytes := bigEndian 2 (extType e) ++ bigEndian 2 (lenZ (extBody e)) ++ extBody e.

Definition extOk (e : extension) : Prop :=
  match e with
  | ServerNameExt name => True
  | GroupsExt ws | SignaturesExt ws => Forall (fits 16) ws
  | PointFormatsExt formats => lenZ formats < 2 ^ 8
  | VersionsExt ws => Forall (fits 16) ws /\ lenZ (wordBytes ws) < 2 ^ 8
  | OtherExt ty _ => fits 16 ty /\ ty ∉ [sniExtensionType; ecExtensionType; ecpfExtensionType; versionExtensionType; signatureAlgorithmsExtensionType]
  end.

(** What an extension means *)
Definition recordExt (j : ClientHello) (e : extension) : ClientHello :=
  let j := withExtension j (extType e) in
  match e with
  | ServerNameExt name => mkClientHello (Version j) (CipherSuites j) (Extensions j) (EllipticCurves j) (EllipticCurvePF j) (Versions j) (SignatureAlgorithms j) name
  | GroupsExt ws => mkClientHello (Version j) (CipherSuites j) (Extensions j) ws (EllipticCurvePF j) (Versions j) (SignatureAlgorithms j) (ServerName j)
  | PointFormatsExt formats => mkClientHello (Version j) (CipherSuites j) (Extensions j) (EllipticCurves j) (byteZ <$> formats) (Versions j) (SignatureAlgorithms j) (ServerName j)
  | VersionsExt ws => mkClientHello (Version j) (CipherSuites j) (Extensions j) (EllipticCurves j) (EllipticCurvePF j) (Versions j ++ ws) (SignatureAlgorithms j) (ServerName j)
  | SignaturesExt ws => mkClientHello (Version j) (CipherSuites j) (Extensions j) (EllipticCurves j) (EllipticCurvePF j) (Versions j) (SignatureAlgorithms j ++ ws) (ServerName j)
  | OtherExt _ _ => j
  end.

Record hello := mkHello {
  hVersion : Z;
  hRandom : bytes;
  hSession : bytes;
  hCiphers : list Z;
  hCompression : bytes;
  hExtensions : list extension;
}.

Definition extensionsBytes (es : list extension) : bytes := concat (extBytes <$> es).

Definition helloBody (h : hello) : bytes :=
  bigEndian 2 (hVersion h) ++ hRandom h ++ [zByte (lenZ (hSession h))] ++ hSession h ++ bigEndian 2 (lenZ (wordBytes (hCiphers h))) ++ wordBytes (hCiphers h) ++
  [zByte (lenZ (hCompression h))] ++ hCompression h ++ bigEndian 2 (lenZ (extensionsBytes (hExtensions h))) ++ extensionsBytes (hExtensions h).

(** The handshake message *)
Definition helloBytes (h : hello) : bytes := [x01] ++ bigEndian 3 (lenZ (helloBody h)) ++ helloBody h.

Record helloOk (h : hello) : Prop := {
  ho_version : fits 16 (hVersion h) /\ badVersion (hVersion h) = false;
  ho_random : lenZ (hRandom h) = 32;
  ho_session : lenZ (hSession h) < 2 ^ 8;
  ho_ciphers : Forall (fits 16) (hCiphers h);
  ho_compression : lenZ (hCompression h) < 2 ^ 8;
  ho_extensions : Forall extOk (hExtensions h);
  ho_size : lenZ (helloBytes h) < 2 ^ 16;
}.

Definition fingerprint (h : hello) : ClientHello := fold_left recordExt (hExtensions h) (mkClientHello (hVersion h) (hCiphers h) [] [] [] [] [] []).

(** ** Reading what was written *)

Lemma lenZ_wordBytes ws : lenZ (wordBytes ws) = 2 * Z.of_nat (length ws).
Proof. unfold wordBytes. induction ws as [|w ws IH]; [done|]. rewrite fmap_cons. cbn [concat length]. rewrite lenZ_app, IH, lenZ_bigEndian. lia. Qed.

Lemma words_count ws : Z.to_nat (lenZ (wordBytes ws) / 2) = length ws /\ Z.to_nat ((lenZ (wordBytes ws) + 1) / 2) = length ws.
Proof. rewrite lenZ_wordBytes. split; divlia. Qed.

Ltac lens := repeat first [rewrite lenZ_app|rewrite lenZ_cons|rewrite lenZ_bigEndian]; change (lenZ []) with 0.

Lemma parseExtension_written j e : extOk e -> lenZ (extBody e) < 2 ^ 16 -> parseExtension (withExtension j (extType e)) (extType e) (extBody e) = Returns (recordExt j e).
Proof.
  intros Hok Hlen. destruct e as [name|ws|formats|ws|ws|ty body]; cbn [extBody extOk] in *; unfold parseExtension; cbn [extType]; revert Hlen; lens; intros Hlen.
  - cbn [Z.eqb sniExtensionType]. pose proof (lenZ_nonneg name). rewrite (proj2 (Z.ltb_ge _ _)) by lia.
    rewrite (at8_written (bigEndian 2 (lenZ name + 3)) (bigEndian 2 (lenZ name) ++ name) 0) by done. cbn [mbind outcome_bind].
    assert (E3 : bigEndian 2 (lenZ name + 3) ++ [x00] ++ bigEndian 2 (lenZ name) ++ name = (bigEndian 2 (lenZ name + 3) ++ [x00]) ++ bigEndian 2 (lenZ name) ++ name) by by rewrite <- app_assoc.
    rewrite E3, at16_written by (done || unfold fits; lia). cbn [mbind outcome_bind]. rewrite app_assoc, sliceFrom_written by (by lens). cbn [mbind outcome_bind]. by rewrite Z.eqb_refl.
  - change (ecExtensionType =? sniExtensionType) with false. rewrite Z.eqb_refl. pose proof (lenZ_nonneg (wordBytes ws)). rewrite (proj2 (Z.ltb_ge _ _)) by lia.
    rewrite at16_first by (unfold fits; lia). cbn [mbind outcome_bind]. rewrite sliceFrom_written by (by lens). cbn [mbind outcome_bind]. rewrite Z.eqb_refl. cbn [negb].
    rewrite (proj1 (words_count ws)). pose proof (words_written (E := Ja3Error) ws [] [] 0 eq_refl Hok) as W. rewrite app_nil_r in W. fold (wordBytes ws) in W. cbn [app] in W. by rewrite W.
  - change (ecpfExtensionType =? sniExtensionType) with false. change (ecpfExtensionType =? ecExtensionType) with false. rewrite Z.eqb_refl. pose proof (lenZ_nonneg formats). rewrite (proj2 (Z.ltb_ge _ _)) by lia.
    rewrite at8_first by (unfold fits; lia). cbn [mbind outcome_bind]. rewrite (sliceFrom_written [zByte (lenZ formats)] formats) by done. cbn [mbind outcome_bind]. by rewrite Z.eqb_refl.
  - change (versionExtensionType =? sniExtensionType) with false. change (versionExtensionType =? ecExtensionType) with false. change (versionExtensionType =? ecpfExtensionType) with false.
    rewrite Z.eqb_refl. destruct Hok as [Hws Hl]. pose proof (lenZ_nonneg (wordBytes ws)). rewrite (proj2 (Z.ltb_ge _ _)) by lia. rewrite at8_first by (unfold fits; lia). cbn [mbind outcome_bind].
    rewrite (proj2 (words_count ws)). pose proof (words_written (E := Ja3Error) ws [zByte (lenZ (wordBytes ws))] [] 1 eq_refl Hws) as W. rewrite app_nil_r in W. fold (wordBytes ws) in W. cbn [app] in W. by rewrite W.
  - change (signatureAlgorithmsExtensionType =? sniExtensionType) with false. change (signatureAlgorithmsExtensionType =? ecExtensionType) with false. change (signatureAlgorithmsExtensionType =? ecpfExtensionType) with false.
    change (signatureAlgorithmsExtensionType =? versionExtensionType) with false. rewrite Z.eqb_refl. pose proof (lenZ_nonneg (wordBytes ws)). rewrite (proj2 (Z.ltb_ge _ _)) by lia.
    rewrite at16_first by (unfold fits; lia). cbn [mbind outcome_bind]. rewrite (proj2 (words_count ws)).
    pose proof (words_written (E := Ja3Error) ws (bigEndian 2 (lenZ (wordBytes ws))) [] 2 eq_refl Hok) as W. rewrite app_nil_r in W. fold (wordBytes ws) in W. by rewrite W.
  - destruct Hok as [_ Hty]. rewrite !not_elem_of_cons in Hty. destruct Hty as (H1 & H2 & H3 & H4 & H5 & _). rewrite !(proj2 (Z.eqb_neq _ _)) by done. done.
Qed.

Lemma extensionLoop_written es : forall fuel j, Forall extOk es -> lenZ (extensionsBytes es) < 2 ^ 16 -> (length (extensionsBytes es) < fuel)%nat ->
  extensionLoop fuel j (extensionsBytes es) = Returns (fold_left recordExt es j).
Proof.
  unfold extensionsBytes. induction es as [|e es IH]; intros fuel j Hall Hlen Hf; (destruct fuel as [|fuel]; [lia|]); [done|]. apply Forall_cons_iff in Hall as [He Hes]. revert Hlen Hf. rewrite fmap_cons. cbn [concat fold_left].
  set (rest := concat (extBytes <$> es)) in *. unfold extBytes. rewrite <- !app_assoc. lens. intros Hlen Hf. pose proof (lenZ_nonneg (extBody e)). pose proof (lenZ_nonneg rest).
  assert (Hty : fits 16 (extType e)) by (destruct e; [done..|apply He]). cbn [extensionLoop]. lens. rewrite (proj2 (Z.leb_gt _ _)), (proj2 (Z.ltb_ge _ 4)) by lia.
  rewrite at16_first by done. cbn [mbind outcome_bind]. rewrite at16_written by (by lens || unfold fits; lia). cbn [mbind outcome_bind]. rewrite (proj2 (Z.ltb_ge _ _)) by lia.
  rewrite !(app_assoc (bigEndian 2 (extType e))). rewrite (slice_written (bigEndian 2 (extType e) ++ bigEndian 2 (lenZ (extBody e))) (extBody e) rest) by (lens; lia). cbn [mbind outcome_bind]. rewrite parseExtension_written by (done || lia). cbn [mbind outcome_bind].
  rewrite wrap_id by (unfold fits; lia). rewrite (app_assoc _ (extBody e)), sliceFrom_written by (lens; lia). cbn [mbind outcome_bind]. apply IH; [done|lia|]. unfold lenZ in *. rewrite !length_app, !bigEndian_length in Hf. lia.
Qed.

Lemma parseExtensions_written es j : Forall extOk es -> lenZ (extensionsBytes es) < 2 ^ 16 ->
  parseExtensions j (bigEndian 2 (lenZ (extensionsBytes es)) ++ extensionsBytes es) = Returns (fold_left recordExt es j).
Proof.
  intros Hes Hlen. pose proof (lenZ_nonneg (extensionsBytes es)). unfold parseExtensions. lens. rewrite (proj2 (Z.eqb_neq _ _)), (proj2 (Z.ltb_ge _ _)) by lia.
  rewrite at16_first by (unfold fits; lia). cbn [mbind outcome_bind]. rewrite sliceFrom_written by (by lens). cbn [mbind outcome_bind]. rewrite Z.ltb_irrefl. apply extensionLoop_written; [done|done|lia].
Qed.

(** The part of a client hello from the session on *)
Definition afterRandom (h : hello) : bytes :=
  bigEndian 2 (lenZ (wordBytes (hCiphers h))) ++ wordBytes (hCiphers h) ++ [zByte (lenZ (hCompression h))] ++ hCompression h ++
  bigEndian 2 (lenZ (extensionsBytes (hExtensions h))) ++ extensionsBytes (hExtensions h).

Lemma helloBody_split h : helloBody h = (bigEndian 2 (hVersion h) ++ hRandom h) ++ zByte (lenZ (hSession h)) :: hSession h ++ afterRandom h.
Proof. unfold helloBody, afterRandom. by rewrite <- !app_assoc. Qed.

Lemma hello_sizes h : helloOk h -> 0 <= lenZ (extensionsBytes (hExtensions h)) < 2 ^ 16 /\ 0 <= lenZ (wordBytes (hCiphers h)) < 2 ^ 16 /\ lenZ (helloBytes h) = 4 + lenZ (helloBody h) /\
  lenZ (helloBody h) = 35 + lenZ (hSession h) + lenZ (afterRandom h) /\
  lenZ (afterRandom h) = 5 + lenZ (wordBytes (hCiphers h)) + lenZ (hCompression h) + lenZ (extensionsBytes (hExtensions h)).
Proof.
  intros [_ Hr _ _ _ _ Hs]. assert (E1 : lenZ (helloBytes h) = 4 + lenZ (helloBody h)) by (unfold helloBytes; lens; lia).
  assert (E2 : lenZ (helloBody h) = 35 + lenZ (hSession h) + lenZ (afterRandom h)) by (rewrite helloBody_split; lens; lia).
  assert (E3 : lenZ (afterRandom h) = 5 + lenZ (wordBytes (hCiphers h)) + lenZ (hCompression h) + lenZ (extensionsBytes (hExtensions h))) by (unfold afterRandom; lens; lia).
  pose proof (lenZ_nonneg (hSession h)). pose proof (lenZ_nonneg (hCompression h)). pose proof (lenZ_nonneg (wordBytes (hCiphers h))). pose proof (lenZ_nonneg (extensionsBytes (hExtensions h))). lia.
Qed.

(** The part of [parseHandshake] that reads it *)
Lemma afterRandom_read {E} h : helloOk h -> let cs := afterRandom h in let csLen := lenZ (wordBytes (hCiphers h)) in let n := lenZ (hCompression h) in
  at16 (E := E) cs 0 = Returns csLen /\ words (E := E) (Z.to_nat (csLen / 2)) cs 2 = Returns (hCiphers h) /\ at8 (E := E) cs (2 + csLen) = Returns n /\
  sliceFrom (E := E) cs (2 + csLen + 1 + n) = Returns (bigEndian 2 (lenZ (extensionsBytes (hExtensions h))) ++ extensionsBytes (hExtensions h)).
Proof.
  intros Hok cs csLen n. destruct (hello_sizes h Hok) as (_ & Hc & _). destruct Hok as [_ _ _ Hw Hn _ _]. pose proof (lenZ_nonneg (hCompression h)). unfold cs, afterRandom, csLen, n. split_and!.
  - apply at16_first. done.
  - rewrite (proj1 (words_count (hCiphers h))). unfold wordBytes at 2. apply words_written; [by lens|done].
  - rewrite app_assoc. apply at8_written; [by lens|unfold fits; lia].
  - rewrite !app_assoc. rewrite <- (app_assoc _ (bigEndian 2 _)). apply sliceFrom_written. lens. lia.
Qed.

(** The parts of a client hello where they are read *)
Lemma hello_read {E} h : helloOk h -> let hs := helloBytes h in
  at8 (E := E) hs 0 = Returns 1 /\ at8 (E := E) hs 1 = Returns 0 /\ at16 (E := E) hs 2 = Returns (lenZ (helloBody h)) /\ at16 (E := E) hs 4 = Returns (hVersion h) /\
  at8 (E := E) hs 38 = Returns (lenZ (hSession h)) /\ sliceFrom (E := E) hs (39 + lenZ (hSession h)) = Returns (afterRandom h).
Proof.
  intros Hok. destruct (hello_sizes h Hok) as (He & Hc & E1 & E2 & E3). destruct Hok as [[Hv _] Hr Hs _ _ _ Hsize]. pose proof (lenZ_nonneg (hSession h)). pose proof (lenZ_nonneg (hCompression h)). cbv zeta.
  assert (Eh : helloBytes h = x01 :: zByte (Z.shiftr (lenZ (helloBody h)) 16) :: bigEndian 2 (lenZ (helloBody h)) ++ helloBody h) by done.
  assert (Hz : Z.shiftr (lenZ (helloBody h)) 16 = 0) by (rewrite Z.shiftr_div_pow2 by lia; apply Z.div_small; lia).
  assert (Es : helloBytes h = (([x01] ++ bigEndian 3 (lenZ (helloBody h))) ++ bigEndian 2 (hVersion h) ++ hRandom h) ++ zByte (lenZ (hSession h)) :: hSession h ++ afterRandom h) by (unfold helloBytes; rewrite helloBody_split at 2; by rewrite <- !app_assoc).
  split_and!; [done|by rewrite Eh, Hz| | | |].
  - rewrite Eh. apply (at16_written [x01; zByte _] (helloBody h)); [done|unfold fits; lia].
  - rewrite Es, <- !app_assoc, app_assoc. by apply at16_written.
  - rewrite Es. apply at8_written; [lens; lia|unfold fits; lia].
  - rewrite Es. rewrite (cons_middle _ _ (hSession h ++ _)), !app_assoc. apply sliceFrom_written. lens. lia.
Qed.

Lemma parseHandshake_written h : helloOk h -> parseHandshake (helloBytes h) = Returns (fingerprint h).
Proof.
  intros Hok. destruct (hello_sizes h Hok) as (He & Hc & E1 & E2 & E3). destruct (hello_read (E := Ja3Error) h Hok) as (R0 & R1 & R2 & R3 & R4 & R5). destruct (afterRandom_read (E := Ja3Error) h Hok) as (A1 & A2 & A3 & A4). destruct Hok as [[_ Hbad] _ _ _ _ Hes _].
  pose proof (lenZ_nonneg (hSession h)). pose proof (lenZ_nonneg (hCompression h)). unfold parseHandshake. rewrite (proj2 (Z.ltb_ge _ _)) by lia. rewrite R0. cbn [mbind outcome_bind]. change (negb (1 =? 1)) with false. cbn match. rewrite R1. cbn [mbind outcome_bind]. rewrite R2. cbn [mbind outcome_bind].
  rewrite Z.shiftl_0_l, Z.lor_0_l, (proj2 (Z.eqb_eq _ _)) by lia. cbn [negb]. rewrite R3. cbn [mbind outcome_bind]. rewrite Hbad, R4. cbn [mbind outcome_bind]. rewrite (proj2 (Z.ltb_ge _ _)) by lia. rewrite R5. cbn [mbind outcome_bind]. rewrite (proj2 (Z.ltb_ge _ 2)) by lia.
  rewrite A1. cbn [mbind outcome_bind]. rewrite (proj2 (Z.ltb_ge _ _)) by lia. rewrite A2. cbn [mbind outcome_bind]. rewrite A3. cbn [mbind outcome_bind]. rewrite (proj2 (Z.ltb_ge _ _)) by lia.
  rewrite A4. cbn [mbind outcome_bind]. apply parseExtensions_written; [done|lia].
Qed.

(** A record of TLS with a handshake message *)
Definition recordOf (n : Z) (hs : bytes) : bytes := [x16; x03; x03] ++ bigEndian 2 n ++ hs.

Lemma parseSegment_record n hs : fits 16 n -> ComputeJa3 (recordOf n hs) = if lenZ hs <? n then Fails (LengthErr 2) else parseHandshake (take (Z.to_nat n) hs).
Proof.
  intros Hn. unfold ComputeJa3, parseSegment, recordOf. pose proof (lenZ_nonneg hs). lens. rewrite (proj2 (Z.ltb_ge _ 5)) by lia.
  change (at8 ([x16; x03; x03] ++ bigEndian 2 n ++ hs) 0) with (Returns (E := Ja3Error) 22). cbn [mbind outcome_bind]. change (negb (22 =? 22)) with false. cbn match.
  change (at16 ([x16; x03; x03] ++ bigEndian 2 n ++ hs) 1) with (Returns (E := Ja3Error) 0x0303). cbn [mbind outcome_bind]. change (badVersion 0x0303) with false. cbn match.
  rewrite (at16_written [x16; x03; x03]) by done. cbn [mbind outcome_bind]. assert (Hc : (1 + (1 + (1 + 0)) + (Z.of_nat 2 + lenZ hs) - 5 <? n) = (lenZ hs <? n)) by (destruct (Z.ltb_spec (lenZ hs) n); [apply Z.ltb_lt|apply Z.ltb_ge]; lia).
  rewrite Hc. destruct (Z.ltb_spec (lenZ hs) n); [done|]. unfold fits in Hn. destruct (slice_in (E := Ja3Error) ([x16; x03; x03] ++ bigEndian 2 n ++ hs) 5 (5 + n)) as (s & -> & -> & _); [lia|lens; lia|]. cbn [mbind outcome_bind].
  replace (5 + n - 5) with n by lia. done.
Qed.

(** ** Reading anything *)

(** The only reason for a panic; the code ends otherwise. *)
Definition onlyPanics {E A} (o : outcome E A) (P : Prop) : Prop := match o with Returns _ | Fails _ => True | Panics => P | Hangs => False end.

(** A list of versions or of signature algorithms that is longer than its extension *)
Definition overrun (ty : Z) (sex : bytes) : Prop :=
  exists n, ty = versionExtensionType /\ at8 (E := Ja3Error) sex 0 = Returns n /\ lenZ sex < 1 + 2 * ((n + 1) / 2) \/
            ty = signatureAlgorithmsExtensionType /\ at16 (E := Ja3Error) sex 0 = Returns n /\ lenZ sex < 2 + 2 * ((n + 1) / 2).

Lemma words_only n b i (P : Prop) A (f : list Z -> outcome Ja3Error A) : 0 <= i -> (lenZ b < i + 2 * Z.of_nat n -> P) -> (forall ws, onlyPanics (f ws) P) -> onlyPanics (ws ← words n b i; f ws) P.
Proof.
  revert i f. induction n as [|n IH]; intros i f Hi HP Hf; [apply Hf|]. cbn [words]. destruct (Z.lt_ge_cases (i + 1) (lenZ b)) as [Hlt|Hge].
  - destruct (at16_in (E := Ja3Error) b i Hi Hlt) as (w & -> & _). cbn [mbind outcome_bind]. specialize (IH (i + 2) (fun ws => f (w :: ws)) ltac:(lia) ltac:(intros; apply HP; lia) ltac:(intros; apply Hf)).
    by destruct (words n b (i + 2)).
  - assert (HP' : P) by (apply HP; lia). unfold at16. destruct (at8 b i) as [x|e| |] eqn:E1; cbn; try done; [|by unfold at8 in E1; destruct (b !! _)].
    unfold at8. rewrite (lookup_ge_None_2 b (Z.to_nat (i + 1))) by (unfold lenZ in Hge; lia). done.
Qed.

Lemma parseExtension_only j ty sex : onlyPanics (parseExtension j ty sex) (overrun ty sex).
Proof.
  unfold parseExtension. destruct (Z.eqb_spec ty sniExtensionType).
  { destruct (Z.ltb_spec (lenZ sex) 5); [done|]. destruct (at8_in (E := Ja3Error) sex 2) as [x ->]; [lia|]. cbn [mbind outcome_bind]. destruct (at16_in (E := Ja3Error) sex 3) as (w & -> & _); [lia|lia|]. cbn [mbind outcome_bind].
    destruct (sliceFrom_in (E := Ja3Error) sex 5) as [-> _]; [lia|]. cbn [mbind outcome_bind]. destruct (negb _); [done|]. by destruct (negb _). }
  destruct (Z.eqb_spec ty ecExtensionType).
  { destruct (Z.ltb_spec (lenZ sex) 2); [done|]. destruct (at16_in (E := Ja3Error) sex 0) as (w & -> & Hw); [lia|lia|]. cbn [mbind outcome_bind]. destruct (sliceFrom_in (E := Ja3Error) sex 2) as [-> _]; [lia|]. cbn [mbind outcome_bind].
    destruct (Z.eqb_spec (lenZ (drop (Z.to_nat 2) sex)) w) as [E|]; cbn [negb]; [|done]. unfold fits in Hw. destruct (words_in (E := Ja3Error) (Z.to_nat (w / 2)) (drop (Z.to_nat 2) sex) 0) as [ws ->]; [lia|divlia|]. done. }
  destruct (Z.eqb_spec ty ecpfExtensionType).
  { destruct (Z.ltb_spec (lenZ sex) 1); [done|]. destruct (at8_in (E := Ja3Error) sex 0) as [x ->]; [lia|]. cbn [mbind outcome_bind]. destruct (sliceFrom_in (E := Ja3Error) sex 1) as [-> _]; [lia|]. cbn [mbind outcome_bind]. by destruct (negb _). }
  destruct (Z.eqb_spec ty versionExtensionType) as [Et|].
  { destruct (Z.ltb_spec (lenZ sex) 1); [done|]. destruct (at8_in (E := Ja3Error) sex 0) as [x Ex]; [lia|]. rewrite Ex. cbn [mbind outcome_bind]. pose proof (byteZ_fits x) as Hx. unfold fits in Hx.
    apply words_only; [lia| |done]. intros Hlt. exists (byteZ x). left. split_and!; try done. divlia. }
  destruct (Z.eqb_spec ty signatureAlgorithmsExtensionType) as [Et|]; [|done].
  destruct (Z.ltb_spec (lenZ sex) 2); [done|]. destruct (at16_in (E := Ja3Error) sex 0) as (w & Ew & Hw); [lia|lia|]. rewrite Ew. cbn [mbind outcome_bind]. unfold fits in Hw.
  apply words_only; [lia| |done]. intros Hlt. exists w. right. split_and!; try done. divlia.
Qed.

(** An extension inside some bytes *)
Definition hasExtension (p : bytes) (ty : Z) (sex : bytes) : Prop :=
  exists a t0 t1 l0 l1 b, p = a ++ t0 :: t1 :: l0 :: l1 :: sex ++ b /\ ty = fromBigEndian [t0; t1] /\ lenZ sex = fromBigEndian [l0; l1].

Definition hasOverrun (p : bytes) : Prop := exists ty sex, hasExtension p ty sex /\ overrun ty sex.

Lemma hasOverrun_app a p : hasOverrun p -> hasOverrun (a ++ p).
Proof. intros (ty & sex & (a' & t0 & t1 & l0 & l1 & b & -> & H) & Ho). exists ty, sex. split; [|done]. exists (a ++ a'), t0, t1, l0, l1, b. by rewrite <- app_assoc. Qed.

Lemma hasOverrun_drop n p : hasOverrun (drop n p) -> hasOverrun p.
Proof. intros H. rewrite <- (take_drop n p). by apply hasOverrun_app. Qed.

Lemma hasOverrun_take n p : hasOverrun (take n p) -> hasOverrun p.
Proof.
  intros (ty & sex & (a & t0 & t1 & l0 & l1 & b & E & H) & Ho). exists ty, sex. split; [|done]. exists a, t0, t1, l0, l1, (b ++ drop n p). split; [|done].
  rewrite <- (take_drop n p) at 1. rewrite E, <- app_assoc. cbn. by rewrite <- app_assoc.
Qed.

Lemma onlyPanics_weaken {E A} (o : outcome E A) (P Q : Prop) : onlyPanics o P -> (P -> Q) -> onlyPanics o Q.
Proof. intros H HPQ. destruct o; cbn in *; tauto. Qed.

Lemma extensionLoop_only fuel : forall j exs, lenZ exs < 2 ^ 16 -> (length exs < fuel)%nat -> onlyPanics (extensionLoop fuel j exs) (hasOverrun exs).
Proof.
  induction fuel as [|fuel IH]; intros j exs Hlen Hf; [lia|]. cbn [extensionLoop]. destruct (Z.leb_spec (lenZ exs) 0); [done|]. destruct (Z.ltb_spec (lenZ exs) 4) as [|H4]; [done|].
  destruct exs as [|t0 [|t1 [|l0 [|l1 r]]]]; try (unfold lenZ in H4; cbn in H4; lia).
  change (at16 (t0 :: t1 :: l0 :: l1 :: r) 0) with (Returns (E := Ja3Error) (Z.lor (Z.shiftl (byteZ t0) 8) (byteZ t1))). change (at16 (t0 :: t1 :: l0 :: l1 :: r) 2) with (Returns (E := Ja3Error) (Z.lor (Z.shiftl (byteZ l0) 8) (byteZ l1))).
  cbn [mbind outcome_bind]. rewrite !be16. set (ty := fromBigEndian [t0; t1]). set (n := fromBigEndian [l0; l1]). pose proof (fromBigEndian_fits [l0; l1] : fits 16 n) as Hn. unfold fits in Hn.
  destruct (Z.ltb_spec (lenZ (t0 :: t1 :: l0 :: l1 :: r)) (4 + n)) as [|Hn4]; [done|]. destruct (slice_in (E := Ja3Error) (t0 :: t1 :: l0 :: l1 :: r) 4 (4 + n)) as (s & -> & Es & Ls); [lia|lia|]. cbn [mbind outcome_bind].
  replace (4 + n - 4) with n in * by lia. change (drop (Z.to_nat 4) (t0 :: t1 :: l0 :: l1 :: r)) with r in Es.
  assert (Hext : hasExtension (t0 :: t1 :: l0 :: l1 :: r) ty s). { exists [], t0, t1, l0, l1, (drop (Z.to_nat n) r). subst s. rewrite take_drop. done. }
  pose proof (parseExtension_only (withExtension j ty) ty s) as Ho. destruct (parseExtension (withExtension j ty) ty s) as [j'|e| |]; cbn [mbind outcome_bind onlyPanics] in *; try done; [|by exists ty, s].
  rewrite wrap_id by (unfold fits; lia). destruct (sliceFrom_in (E := Ja3Error) (t0 :: t1 :: l0 :: l1 :: r) (4 + n)) as [-> Hl']; [lia|]. cbn [mbind outcome_bind].
  eapply onlyPanics_weaken; [apply IH; [lia|]|apply hasOverrun_drop]. unfold lenZ in *. lia.
Qed.

Lemma parseExtensions_only j exs : lenZ exs < 2 ^ 16 -> onlyPanics (parseExtensions j exs) (hasOverrun exs).
Proof.
  intros Hlen. unfold parseExtensions. destruct (_ =? 0); [done|]. destruct (Z.ltb_spec (lenZ exs) 2); [done|]. destruct (at16_in (E := Ja3Error) exs 0) as (w & -> & _); [lia|lia|]. cbn [mbind outcome_bind].
  destruct (sliceFrom_in (E := Ja3Error) exs 2) as [-> Hl]; [lia|]. cbn [mbind outcome_bind]. destruct (_ <? w); [done|]. eapply onlyPanics_weaken; [apply extensionLoop_only; lia|apply hasOverrun_drop].
Qed.

Lemma parseHandshake_only hs : lenZ hs < 2 ^ 16 -> onlyPanics (parseHandshake hs) (hasOverrun hs).
Proof.
  intros Hlen. unfold parseHandshake. destruct (Z.ltb_spec (lenZ hs) (6 + 32 + 1)); [done|].
  destruct (at8_in (E := Ja3Error) hs 0) as [x ->]; [lia|]. cbn [mbind outcome_bind]. destruct (negb _); [done|]. destruct (at8_in (E := Ja3Error) hs 1) as [y ->]; [lia|]. cbn [mbind outcome_bind].
  destruct (at16_in (E := Ja3Error) hs 2) as (w & -> & _); [lia|lia|]. cbn [mbind outcome_bind]. destruct (negb _); [done|]. destruct (at16_in (E := Ja3Error) hs 4) as (v & -> & _); [lia|lia|]. cbn [mbind outcome_bind].
  destruct (badVersion v); [done|]. destruct (at8_in (E := Ja3Error) hs 38) as [n ->]; [lia|]. cbn [mbind outcome_bind]. pose proof (byteZ_fits n) as Hn. unfold fits in Hn. destruct (Z.ltb_spec (lenZ hs) (39 + byteZ n)); [done|].
  destruct (sliceFrom_in (E := Ja3Error) hs (39 + byteZ n)) as [-> Hl]; [lia|]. cbn [mbind outcome_bind]. set (cs := drop _ hs) in *. destruct (Z.ltb_spec (lenZ cs) 2); [done|].
  destruct (at16_in (E := Ja3Error) cs 0) as (c & -> & Hc); [lia|lia|]. cbn [mbind outcome_bind]. unfold fits in Hc. destruct (Z.ltb_spec (lenZ cs) (2 + c + 1)); [done|].
  destruct (words_in (E := Ja3Error) (Z.to_nat (c / 2)) cs 2) as [ws ->]; [lia|divlia|]. cbn [mbind outcome_bind]. destruct (at8_in (E := Ja3Error) cs (2 + c)) as [m ->]; [lia|]. cbn [mbind outcome_bind].
  pose proof (byteZ_fits m) as Hm. unfold fits in Hm. destruct (Z.ltb_spec (lenZ cs) (2 + c + 1 + byteZ m)); [done|]. destruct (sliceFrom_in (E := Ja3Error) cs (2 + c + 1 + byteZ m)) as [-> Hl2]; [lia|]. cbn [mbind outcome_bind].
  eapply onlyPanics_weaken; [apply parseExtensions_only; lia|]. intros Ho. by apply hasOverrun_drop, hasOverrun_drop in Ho.
Qed.

Lemma compute_only p : onlyPanics (ComputeJa3 p) (hasOverrun p).
Proof.
  unfold ComputeJa3, parseSegment. destruct (Z.ltb_spec (lenZ p) 5); [done|]. destruct (at8_in (E := Ja3Error) p 0) as [x ->]; [lia|]. cbn [mbind outcome_bind]. destruct (negb _); [done|].
  destruct (at16_in (E := Ja3Error) p 1) as (v & -> & _); [lia|lia|]. cbn [mbind outcome_bind]. destruct (badVersion v); [done|]. destruct (at16_in (E := Ja3Error) p 3) as (n & -> & Hn); [lia|lia|]. cbn [mbind outcome_bind]. unfold fits in Hn.
  destruct (Z.ltb_spec (lenZ p - 5) n); [done|]. destruct (slice_in (E := Ja3Error) p 5 (5 + n)) as (s & -> & -> & Hl); [lia|lia|]. cbn [mbind outcome_bind].
  eapply onlyPanics_weaken; [apply parseHandshake_only; lia|]. intros Ho. by apply hasOverrun_take, hasOverrun_drop in Ho.
Qed.

(** A part of a client hello is not enough. *)
Lemma parseHandshake_prefix h n : helloOk h -> 0 <= n < lenZ (helloBytes h) -> exists e, parseHandshake (take (Z.to_nat n) (helloBytes h)) = Fails e.
Proof.
  intros Hok Hn. destruct (hello_sizes h Hok) as (_ & _ & E1 & _). pose proof (ho_size _ Hok) as Hsize. unfold parseHandshake. assert (Ht : lenZ (take (Z.to_nat n) (helloBytes h)) = n) by (unfold lenZ in *; rewrite length_take; lia). rewrite Ht.
  destruct (Z.ltb_spec n (6 + 32 + 1)); [by eexists|]. assert (Hd : exists r, take (Z.to_nat n) (helloBytes h) = x01 :: zByte (Z.shiftr (lenZ (helloBody h)) 16) :: bigEndian 2 (lenZ (helloBody h)) ++ r).
  { exists (take (Z.to_nat n - 4) (helloBody h)). change (helloBytes h) with (x01 :: zByte (Z.shiftr (lenZ (helloBody h)) 16) :: bigEndian 2 (lenZ (helloBody h)) ++ helloBody h).
    replace (Z.to_nat n) with (S (S (S (S (Z.to_nat n - 4))))) at 1 by lia. done. }
  destruct Hd as [r ->]. change (at8 (x01 :: _ :: _) 0) with (Returns (E := Ja3Error) 1). cbn [mbind outcome_bind]. change (negb (1 =? 1)) with false. cbn match.
  assert (Hz : Z.shiftr (lenZ (helloBody h)) 16 = 0) by (rewrite Z.shiftr_div_pow2 by lia; apply Z.div_small; pose proof (lenZ_nonneg (helloBody h)); lia). rewrite Hz.
  change (at8 (x01 :: zByte 0 :: _) 1) with (Returns (E := Ja3Error) 0). cbn [mbind outcome_bind]. pose proof (lenZ_nonneg (helloBody h)).
  rewrite (at16_written (E := Ja3Error) [x01; zByte 0] r (lenZ (helloBody h)) 2 eq_refl ltac:(unfold fits; lia) : at16 (x01 :: zByte 0 :: bigEndian 2 _ ++ r) 2 = _). cbn [mbind outcome_bind].
  rewrite Z.shiftl_0_l, Z.lor_0_l, (proj2 (Z.eqb_neq _ _)) by lia. by eexists.
Qed.
