(* ===== verification/QuicSniff.v ===== *)
(** * The QUIC sniffer ([common/sniff/quic.go], [internal/qtls])

    The first packets of a QUIC connection are encrypted with keys that everybody can derive
    from them; the sniffer decrypts them, puts the client hello together from the CRYPTO frames
    of one or more packets, and takes the name of the server from it.  The primitives of
    cryptography are an interface. *)

From S2P Require Import Prelude Binary Context Sniff Ja3.

(** [hkdf.Extract] and [hkdf.Expand] with SHA-256, one block of AES-128, and [Open] of AES-GCM
    with a nonce and additional data *)
Class Crypto := {
  hkdfExtract : bytes -> bytes -> bytes;
  hkdfExpand : bytes -> bytes -> nat -> bytes;
  aesEncrypt : bytes -> bytes -> bytes;
  gcmOpen : bytes -> bytes -> bytes -> bytes -> option bytes;
}.

Definition VersionDraft29 : Z := 0xff00001d.
Definition Version1 : Z := 0x1.
Definition Version2 : Z := 0x6b3343cf.

Definition SaltOld : bytes := [xaf; xbf; xec; x28; x99; x93; xd2; x4c; x9e; x97; x86; xf1; x9c; x61; x11; xe0; x43; x90; xa8; x99].
Definition SaltV1 : bytes := [x38; x76; x2c; xf7; xf5; x59; x34; xb3; x4d; x17; x9a; xe6; xa4; xc8; x0c; xad; xcc; xbb; x7f; x0a].
Definition SaltV2 : bytes := [x0d; xed; xe3; xde; xf7; x00; xa6; xdb; x81; x93; x81; xbe; x6e; x26; x9d; xcb; xf9; xbd; x2e; xd9].

(** [ParseError.Error] *)
Definition ja3Text (e : Ja3Error) : error :=
  match e with
  | LengthErr check => ("length check " +:+ pretty check +:+ " failed")%string
  | ContentTypeErr => "content type not matching"%string
  | VersionErr check => ("version check " +:+ pretty check +:+ " failed")%string
  | HandshakeTypeErr => "handshake type not matching"%string
  | SNITypeErr => "SNI type not supported"%string
  end.

(** [qtls.ReadUvarint] *)
Definition readVarint (r : bytes) : result (Z * bytes) :=
  '(firstByte, r) ← ReadByte r;
  let len := Z.shiftl 1 (Z.shiftr (Z.land firstByte 0xc0) 6) in
  let b1 := Z.land firstByte 0x3f in
  if len =? 1 then Ok (b1, r)
  else
    '(b2, r) ← ReadByte r;
    if len =? 2 then Ok (b2 + Z.shiftl b1 8, r)
    else
      '(b3, r) ← ReadByte r;
      '(b4, r) ← ReadByte r;
      if len =? 4 then Ok (b4 + Z.shiftl b3 8 + Z.shiftl b2 16 + Z.shiftl b1 24, r)
      else
        '(b5, r) ← ReadByte r;
        '(b6, r) ← ReadByte r;
        '(b7, r) ← ReadByte r;
        '(b8, r) ← ReadByte r;
        Ok (b8 + Z.shiftl b7 8 + Z.shiftl b6 16 + Z.shiftl b5 24 + Z.shiftl b4 32 + Z.shiftl b3 40 + Z.shiftl b2 48 + Z.shiftl b1 56, r).

(** [io.CopyN(io.Discard, reader, n)] *)
Definition discard (n : Z) (r : bytes) : result bytes := if lenZ r <? n then Err EOF else Ok (drop (Z.to_nat n) r).

Record qCryptoFragment := mkFragment { fragOffset : Z; fragLength : Z; fragPayload : bytes }.

(** The fields of the metadata that the sniffer uses *)
Record SniffState := mkSniffState {
  sProtocol : string;
  sDomain : string;
  sClient : string;
  SniffContext : option (list qCryptoFragment);
}.

Section quic.
Context `{Crypto}.

(** ** Decryption *)

Definition HKDFExpandLabel (secret context : bytes) (label : string) (length_ : nat) : bytes :=
  hkdfExpand secret (bigEndian 2 (Z.of_nat length_) ++ [zByte (6 + Z.of_nat (String.length label))] ++ stringBytes "tls13 " ++ stringBytes label ++
    [zByte (lenZ context)] ++ context) length_.

Definition xorByte (a b : Byte.byte) : Byte.byte := zByte (Z.lxor (byteZ a) (byteZ b)).

(** [xorNonceAEAD.Open]: the nonce is added to the last eight bytes of the mask. *)
Definition xorNonceOpen (key nonceMask nonce data additional : bytes) : option bytes :=
  gcmOpen key (zip_with xorByte nonceMask (replicate 4 x00 ++ nonce)) data additional.

Definition saltOf (versionNumber : Z) : bytes := if versionNumber =? Version1 then SaltV1 else if versionNumber =? Version2 then SaltV2 else SaltOld.

(** The key for a label of the client, from the connection id it chose *)
Definition initialKey (versionNumber : Z) (destConnID : bytes) (v1 v2 : string) (n : nat) : bytes :=
  let secret := HKDFExpandLabel (hkdfExtract destConnID (saltOf versionNumber)) [] "client in" 32 in
  HKDFExpandLabel secret [] (if versionNumber =? Version2 then v2 else v1) n.

(** What is read of the header in clear: the version, the connection id, the length of the
    packet, the length of the header, and the bytes after it *)
Definition readHeader (packet : bytes) : sniff (Z * bytes * Z * Z * bytes) :=
  '(typeByte, r) ← orReturn (ReadByte packet);
  if Z.land typeByte 0x40 =? 0 then Fails (failure "bad type byte")
  else
    '(versionNumber, r) ← orReturn (ReadUint 4 r);
    if negb (versionNumber =? VersionDraft29) && negb (versionNumber =? Version1) && negb (versionNumber =? Version2) then Fails (failure "bad version")
    else
      let packetType := Z.shiftr (Z.land typeByte 0x30) 4 in
      if (packetType =? 0) && (versionNumber =? Version2) || (packetType =? 2) && negb (versionNumber =? Version2) || (2 <? packetType) then Fails (failure "bad packet type")
      else
        '(destConnIDLen, r) ← orReturn (ReadByte r);
        if (destConnIDLen =? 0) || (20 <? destConnIDLen) then Fails (failure "bad destination connection id length")
        else
          '(destConnID, r) ← orReturn (ReadFull (Z.to_nat destConnIDLen) r);
          '(srcConnIDLen, r) ← orReturn (ReadByte r);
          r ← orReturn (discard srcConnIDLen r);
          '(tokenLen, r) ← orReturn (readVarint r);
          r ← orReturn (discard tokenLen r);
          '(packetLen, r) ← orReturn (readVarint r);
          Returns (versionNumber, destConnID, packetLen, lenZ packet - lenZ r, r).

(** The plaintext of a packet, and what is behind it in the array *)
Definition quicPayload (packet : bytes) : sniff (bytes * bytes) :=
  '(versionNumber, destConnID, packetLen, hdrLen, r) ← readHeader packet;
  if lenZ packet <? hdrLen + packetLen then Fails ErrInvalid
  else
    r ← orReturn (discard 4 r);
    '(pnBytes, _) ← orReturn (ReadFull 16 r);
    let mask := aesEncrypt (initialKey versionNumber destConnID "quic hp" "quicv2 hp" 16) pnBytes in
    first ← (match packet with b :: _ => Returns b | [] => Panics end);
    mask0 ← (match mask with b :: _ => Returns b | [] => Panics end);
    let first := xorByte first (zByte (Z.land (byteZ mask0) 0xf)) in
    let header := first :: drop 1 (take (Z.to_nat hdrLen) packet) in
    let protected := take 4 (drop (Z.to_nat hdrLen) packet) in
    let rest := drop (Z.to_nat hdrLen + 4) packet in
    let number := zip_with xorByte protected (take 4 (drop 1 mask)) in
    let packetNumberLength := Z.land (byteZ first) 0x3 + 1 in
    if packetLen <? packetNumberLength then Fails ErrInvalid
    else
      let n := Z.to_nat packetNumberLength in
      let packetNumber := fromBigEndian (take n number) in
      let payload := drop n protected ++ rest in
      let data := take (Z.to_nat (packetLen - packetNumberLength)) payload in
      let key := initialKey versionNumber destConnID "quic key" "quicv2 key" 16 in
      let iv := initialKey versionNumber destConnID "quic iv" "quicv2 iv" 12 in
      match xorNonceOpen key iv (bigEndian 8 packetNumber) data (header ++ take n number) with
      | None => Fails (failure "cipher: message authentication failed")
      | Some decrypted => Returns (decrypted, drop (length decrypted) payload)
      end.

(** ** Frames *)

Definition frameTypePadding : Z := 0x00.
Definition frameTypePing : Z := 0x01.
Definition frameTypeAck : Z := 0x02.
Definition frameTypeAck2 : Z := 0x03.
Definition frameTypeCrypto : Z := 0x06.
Definition frameTypeConnectionClose : Z := 0x1c.

(** A gap and a range of an ACK frame *)
Definition readRange2 (r : bytes) : result (Z * Z * bytes) := '(gap, r) ← readVarint r; '(n, r) ← readVarint r; Ok (gap, n, r).

Definition skipAck (frameType : Z) (r : bytes) : result bytes :=
  '(_, r) ← readVarint r;
  '(_, r) ← readVarint r;
  '(ackRangeCount, r) ← readVarint r;
  '(_, r) ← readVarint r;
  '(_, r) ← ReadMany readRange2 ackRangeCount r;
  if frameType =? frameTypeAck2 then
    '(_, r) ← readVarint r;
    '(_, r) ← readVarint r;
    '(_, r) ← readVarint r;
    Ok r
  else Ok r.

(** The loop over the frames of the plaintext; [behind] is what follows it in the array, up to
    the capacity of the slice.  Every frame takes a byte. *)
Fixpoint frameLoop (fuel : nat) (r behind : bytes) (types : list Z) (fragments : list qCryptoFragment) : sniff (list Z * list qCryptoFragment) :=
  match fuel with
  | O => Hangs
  | S fuel =>
      match r with
      | [] => Returns (types, fragments)
      | b :: r =>
          let frameType := byteZ b in
          let types := types ++ [frameType] in
          if (frameType =? frameTypePadding) || (frameType =? frameTypePing) then frameLoop fuel r behind types fragments
          else if (frameType =? frameTypeAck) || (frameType =? frameTypeAck2) then
            r ← orReturn (skipAck frameType r);
            frameLoop fuel r behind types fragments
          else if frameType =? frameTypeCrypto then
            '(offset, r) ← orReturn (readVarint r);
            '(len, r) ← orReturn (readVarint r);
            if lenZ r + lenZ behind <? len then Panics
            else frameLoop fuel (drop (Z.to_nat len) r) behind types (fragments ++ [mkFragment offset len (take (Z.to_nat len) (r ++ behind))])
          else if frameType =? frameTypeConnectionClose then
            '(_, r) ← orReturn (readVarint r);
            '(_, r) ← orReturn (readVarint r);
            '(len, r) ← orReturn (readVarint r);
            frameLoop fuel (drop (Z.to_nat len) r) behind types fragments
          else Fails ErrInvalid
      end
  end.

Definition quicFrames (packet : bytes) : sniff (list Z * list qCryptoFragment) :=
  '(decrypted, behind) ← quicPayload packet;
  frameLoop (S (length decrypted)) decrypted behind [] [].

(** ** The client hello *)

(** [buffer.Write]; what exceeds the capacity is dropped. *)
Definition bufferWrite (capacity : Z) (buffer data : bytes) : bytes := take (Z.to_nat capacity) (buffer ++ data).

(** [find]: the fragment at the index, as long as there is one.  Every fragment that is not
    empty is used once at most. *)
Fixpoint assembleFragments (fuel : nat) (fragments : list qCryptoFragment) (capacity index : Z) (buffer : bytes) : sniff bytes :=
  match fuel with
  | O => Hangs
  | S fuel =>
      match List.find (fun f => fragOffset f =? index) fragments with
      | None => Returns buffer
      | Some f => assembleFragments fuel fragments capacity (u64 (fragOffset f + fragLength f)) (bufferWrite capacity buffer (fragPayload f))
      end
  end.

Definition frameLen (fragments : list qCryptoFragment) : Z := fold_left (fun n f => u64 (n + fragLength f)) fragments 0.

Definition isZero (slices : list Z) : bool := forallb (fun x => x =? 0) slices.

Definition count_ (slices : list Z) (value : Z) : Z := Z.of_nat (length (List.filter (fun x => x =? value) slices)).

Definition isQUICGo (fp : ClientHello) : bool := existsb (Z.eqb 0x11EC) (EllipticCurves fp) || existsb (Z.eqb 0xFF01) (Extensions fp).

Definition isGrease (l : list Z) : bool := match l with v :: _ => Z.land v GreaseBitmask =? 0x0A0A | [] => false end.

(** The client, from the types of the frames and the client hello *)
Definition quicClient (types : list Z) (fp : ClientHello) : sniff string :=
  if (length types =? 1)%nat then Returns "firefox"%string
  else
    match types with
    | [] => Panics
    | t :: ts =>
        if (t =? frameTypeCrypto) && isZero ts
           && ((length (Versions fp) =? 2)%nat && isGrease (Versions fp) && (length (EllipticCurves fp) =? 5)%nat && isGrease (EllipticCurves fp)
               || bool_decide (CipherSuites fp = [0x1302]) && bool_decide (EllipticCurves fp = [29]) && bool_decide (SignatureAlgorithms fp = [0x0403]))
        then Returns "safari"%string
        else if (List.last types 0 =? frameTypeCrypto) && isZero (removelast types) then Returns "quic-go"%string
        else if (1 <? count_ types frameTypeCrypto) || (0 <? count_ types frameTypePing) then Returns (if isQUICGo fp then "quic-go" else "chromium")%string
        else Returns "unknown"%string
    end.

Definition finishHello (metadata : SniffState) (types : list Z) (fragments : list qCryptoFragment) : sniff () * SniffState :=
  let fragments := match SniffContext metadata with Some old => fragments ++ old | None => fragments end in
  let n := frameLen fragments in
  let buffer := [x16] ++ bigEndian 2 0x0303 ++ bigEndian 2 (u16 n) in
  match assembleFragments (S (length fragments)) fragments (5 + n) 0 buffer with
  | Returns buffer =>
      let found := mkSniffState "quic" (sDomain metadata) (sClient metadata) None in
      match ComputeJa3 buffer with
      | Returns fp =>
          let named := mkSniffState "quic" (bytesString (ServerName fp)) (sClient metadata) None in
          if String.eqb (sClient metadata) "" then
            match quicClient types fp with
            | Returns client => (Returns (), mkSniffState "quic" (bytesString (ServerName fp)) client None)
            | Fails e => (Fails e, named)
            | Panics => (Panics, named)
            | Hangs => (Hangs, named)
            end
          else (Returns (), named)
      | Fails e => (Fails (needMoreData (ja3Text e)), mkSniffState "quic" (sDomain metadata) (sClient metadata) (Some fragments))
      | Panics => (Panics, found)
      | Hangs => (Hangs, found)
      end
  | Fails e => (Fails e, metadata)
  | Panics => (Panics, metadata)
  | Hangs => (Hangs, metadata)
  end.

Definition QUICClientHello (metadata : SniffState) (packet : bytes) : sniff () * SniffState :=
  match quicFrames packet with
  | Returns (types, fragments) => finishHello metadata types fragments
  | Fails e => (Fails e, metadata)
  | Panics => (Panics, metadata)
  | Hangs => (Hangs, metadata)
  end.
End quic.
