(* ===== verification/QuicPacket.v ===== *)
(** * Initial packets of QUIC

    How a client writes and protects its first packets (RFC 9000, 9001), and that the sniffer
    gets the frames it wrote. *)

From S2P Require Import Prelude Binary Context Sniff Ja3 QuicSniff.

(** ** Numbers *)

Definition writeVarint (n : Z) : bytes :=
  if n <? 2 ^ 6 then bigEndian 1 n
  else if n <? 2 ^ 14 then bigEndian 2 (2 ^ 14 + n)
  else if n <? 2 ^ 30 then bigEndian 4 (2 * 2 ^ 30 + n)
  else bigEndian 8 (3 * 2 ^ 62 + n).

Lemma varint_byte b : let f := byteZ b in f = 64 * Z.shiftr (Z.land f 0xc0) 6 + Z.land f 0x3f /\ 0 <= Z.land f 0x3f < 64 /\ 0 <= Z.shiftr (Z.land f 0xc0) 6 < 4.
Proof. by destruct b; vm_compute. Qed.

Lemma varint_first b k : let f := byteZ b in 64 * k <= f < 64 * (k + 1) -> Z.shiftr (Z.land f 0xc0) 6 = k /\ Z.land f 0x3f = f - 64 * k.
Proof. intros f Hf. destruct (varint_byte b) as (H1 & H2 & H3). fold f in H1, H2, H3. lia. Qed.

Lemma bigEndian_value n z : fits (8 * Z.of_nat n) z -> fromBigEndian (bigEndian n z) = z.
Proof. intros H. by rewrite fromBigEndian_bigEndian, wrap_id. Qed.

(** Comparisons of numbers that are known *)
Ltac known := repeat match goal with |- context [Z.shiftl 1 ?k =? ?b] => let v := eval vm_compute in (Z.shiftl 1 k =? b) in change (Z.shiftl 1 k =? b) with v end; cbn match.

Lemma readVarint_written n r : 0 <= n < 2 ^ 62 -> readVarint (writeVarint n ++ r) = Ok (n, r).
Proof.
  intros Hn. unfold writeVarint. destruct (Z.ltb_spec n (2 ^ 6)); [|destruct (Z.ltb_spec n (2 ^ 14)); [|destruct (Z.ltb_spec n (2 ^ 30))]].
  - assert (V := bigEndian_value 1 n ltac:(unfold fits; cbn; lia)). pose proof (bigEndian_length 1 n) as L. destruct (bigEndian 1 n) as [|b1 [|]]; try done. unfold fromBigEndian in V. cbn in V. cbn [app readVarint ReadByte mbind result_bind].
    destruct (varint_first b1 0) as [-> ->]; [lia|]. known. cbn [ReadByte mbind result_bind]. do 2 f_equal. lia.
  - assert (V := bigEndian_value 2 (2 ^ 14 + n) ltac:(unfold fits; cbn; lia)). pose proof (bigEndian_length 2 (2 ^ 14 + n)) as L. destruct (bigEndian 2 (2 ^ 14 + n)) as [|b1 [|b2 [|]]]; try done. unfold fromBigEndian in V. cbn in V.
    cbn [app readVarint ReadByte mbind result_bind]. pose proof (byteZ_fits b1) as F1. pose proof (byteZ_fits b2) as F2. unfold fits in F1, F2. destruct (varint_first b1 1) as [-> ->]; [lia|]. known. cbn [ReadByte mbind result_bind]. rewrite Z.shiftl_mul_pow2 by lia. do 2 f_equal. lia.
  - assert (V := bigEndian_value 4 (2 * 2 ^ 30 + n) ltac:(unfold fits; cbn; lia)). pose proof (bigEndian_length 4 (2 * 2 ^ 30 + n)) as L. destruct (bigEndian 4 (2 * 2 ^ 30 + n)) as [|b1 [|b2 [|b3 [|b4 [|]]]]]; try done. unfold fromBigEndian in V. cbn in V.
    cbn [app readVarint ReadByte mbind result_bind]. pose proof (byteZ_fits b1) as F1. pose proof (byteZ_fits b2) as F2. pose proof (byteZ_fits b3) as F3. pose proof (byteZ_fits b4) as F4. unfold fits in F1, F2, F3, F4.
    destruct (varint_first b1 2) as [-> ->]; [lia|]. known. cbn [ReadByte mbind result_bind]. rewrite !Z.shiftl_mul_pow2 by lia. do 2 f_equal. lia.
  - assert (V := bigEndian_value 8 (3 * 2 ^ 62 + n) ltac:(unfold fits; cbn; lia)). pose proof (bigEndian_length 8 (3 * 2 ^ 62 + n)) as L. destruct (bigEndian 8 (3 * 2 ^ 62 + n)) as [|b1 [|b2 [|b3 [|b4 [|b5 [|b6 [|b7 [|b8 [|]]]]]]]]]; try done.
    unfold fromBigEndian in V. cbn in V. cbn [app readVarint ReadByte mbind result_bind]. pose proof (byteZ_fits b1) as F1. pose proof (byteZ_fits b2) as F2. pose proof (byteZ_fits b3) as F3. pose proof (byteZ_fits b4) as F4.
    pose proof (byteZ_fits b5) as F5. pose proof (byteZ_fits b6) as F6. pose proof (byteZ_fits b7) as F7. pose proof (byteZ_fits b8) as F8. unfold fits in *.
    destruct (varint_first b1 3) as [-> ->]; [lia|]. known. cbn [ReadByte mbind result_bind]. rewrite !Z.shiftl_mul_pow2 by lia. do 2 f_equal. lia.
Qed.

Lemma writeVarint_cons n : exists b r, writeVarint n = b :: r.
Proof. unfold writeVarint. repeat destruct (_ <? _); cbn; eauto. Qed.

(** ** Frames *)

Inductive frame :=
  | PaddingFrame
  | PingFrame
  | AckFrame (largest delay first : Z) (ranges : list (Z * Z)) (counts : option (Z * Z * Z))
  | CryptoFrame (offset : Z) (data : bytes)
  | CloseFrame (code ty : Z) (reason : bytes).

Definition frameType (f : frame) : Z :=
  match f with
  | PaddingFrame => frameTypePadding
  | PingFrame => frameTypePing
  | AckFrame _ _ _ _ None => frameTypeAck
  | AckFrame _ _ _ _ (Some _) => frameTypeAck2
  | CryptoFrame _ _ => frameTypeCrypto
  | CloseFrame _ _ _ => frameTypeConnectionClose
  end.

Definition rangeBytes (p : Z * Z) : bytes := writeVarint p.1 ++ writeVarint p.2.

Definition frameBody (f : frame) : bytes :=
  match f with
  | PaddingFrame | PingFrame => []
  | AckFrame largest delay first ranges counts =>
      writeVarint largest ++ writeVarint delay ++ writeVarint (Z.of_nat (length ranges)) ++ writeVarint first ++ concat (rangeBytes <$> ranges) ++
      match counts with Some (a, b, c) => writeVarint a ++ writeVarint b ++ writeVarint c | None => [] end
  | CryptoFrame offset data => writeVarint offset ++ writeVarint (lenZ data) ++ data
  | CloseFrame code ty reason => writeVarint code ++ writeVarint ty ++ writeVarint (lenZ reason) ++ reason
  end.

Definition frameBytes (f : frame) : bytes := zByte (frameType f) :: frameBody f.

Definition framesBytes (fs : list frame) : bytes := concat (frameBytes <$> fs).

Definition varOk (n : Z) : Prop := 0 <= n < 2 ^ 62.

Definition frameOk (f : frame) : Prop :=
  match f with
  | PaddingFrame | PingFrame => True
  | AckFrame largest delay first ranges counts =>
      varOk largest /\ varOk delay /\ varOk first /\ varOk (Z.of_nat (length ranges)) /\ Forall (fun p => varOk p.1 /\ varOk p.2) ranges /\
      match counts with Some (a, b, c) => varOk a /\ varOk b /\ varOk c | None => True end
  | CryptoFrame offset data => varOk offset /\ varOk (lenZ data)
  | CloseFrame code ty reason => varOk code /\ varOk ty /\ varOk (lenZ reason)
  end.

Definition fragmentsOf (f : frame) : list qCryptoFragment :=
  match f with CryptoFrame offset data => [mkFragment offset (lenZ data) data] | _ => [] end.

Lemma readRange2_written p : varOk p.1 /\ varOk p.2 -> rangeBytes p <> [] /\ reads readRange2 rangeBytes p.
Proof.
  intros [H1 H2]. unfold rangeBytes. split; [by destruct (writeVarint_cons p.1) as (b & r & ->)|]. intros r. unfold readRange2. rewrite <- app_assoc, readVarint_written by done. cbn [mbind result_bind]. rewrite readVarint_written by done. by destruct p.
Qed.

Lemma skipAck_written largest delay first ranges counts r : frameOk (AckFrame largest delay first ranges counts) ->
  skipAck (frameType (AckFrame largest delay first ranges counts)) (frameBody (AckFrame largest delay first ranges counts) ++ r) = Ok r.
Proof.
  intros (H1 & H2 & H3 & H4 & H5 & H6). unfold skipAck. cbn [frameBody]. rewrite <- !app_assoc. do 4 (rewrite readVarint_written by done; cbn [mbind result_bind]).
  rewrite ReadMany_app by (eapply Forall_impl; [exact H5|]; intros p; apply readRange2_written). cbn [mbind result_bind]. destruct counts as [[[x y] z]|]; [|done].
  destruct H6 as (A1 & A2 & A3). cbn [frameType]. change (frameTypeAck2 =? frameTypeAck2) with true. cbn match. rewrite <- !app_assoc. by do 3 (rewrite readVarint_written by done; cbn [mbind result_bind]).
Qed.

Lemma take_lenZ (a b : bytes) : take (Z.to_nat (lenZ a)) (a ++ b) = a.
Proof. unfold lenZ. by rewrite Nat2Z.id, take_app_length. Qed.

Lemma drop_lenZ (a b : bytes) : drop (Z.to_nat (lenZ a)) (a ++ b) = b.
Proof. unfold lenZ. by rewrite Nat2Z.id, drop_app_length. Qed.

Lemma frameLoop_written fs : forall fuel behind types fragments, Forall frameOk fs -> (length (framesBytes fs) < fuel)%nat ->
  frameLoop fuel (framesBytes fs) behind types fragments = Returns (types ++ (frameType <$> fs), fragments ++ concat (fragmentsOf <$> fs)).
Proof.
  unfold framesBytes. induction fs as [|f fs IH]; intros fuel behind types fragments Hok Hf; (destruct fuel as [|fuel]; [lia|]); [by rewrite !app_nil_r|]. apply Forall_cons_iff in Hok as [Hf0 Hok].
  revert Hf. rewrite !fmap_cons. cbn [concat]. set (rest := concat (frameBytes <$> fs)) in *. unfold frameBytes. cbn [app frameLoop length]. rewrite length_app. intros Hf.
  rewrite byteZ_zByte. assert (Hu : u8 (frameType f) = frameType f) by (by destruct f as [| |? ? ? ? []| |]). rewrite Hu.
  assert (IH' : forall more, frameLoop fuel rest behind (types ++ [frameType f]) (fragments ++ more) = Returns (types ++ frameType f :: (frameType <$> fs), fragments ++ more ++ concat (fragmentsOf <$> fs))).
  { intros more. rewrite IH by (done || lia). by rewrite <- !app_assoc. }
  pose proof (IH' []) as IH0. rewrite app_nil_r in IH0. destruct f as [| |largest delay first ranges counts|offset data|code ty reason]; try exact IH0.
  - pose proof (skipAck_written _ _ _ _ _ rest Hf0) as E. revert E. destruct counts; cbn [frameType fragmentsOf] in *; intros ->; exact IH0.
  - cbn [frameType] in *. change ((frameTypeCrypto =? frameTypePadding) || (frameTypeCrypto =? frameTypePing)) with false. change ((frameTypeCrypto =? frameTypeAck) || (frameTypeCrypto =? frameTypeAck2)) with false. change (frameTypeCrypto =? frameTypeCrypto) with true. cbn match.
    destruct Hf0 as [H1 H2]. cbn [frameBody]. rewrite <- !app_assoc, readVarint_written by done. cbn [orReturn mbind outcome_bind]. rewrite readVarint_written by done. cbn [orReturn mbind outcome_bind]. pose proof (lenZ_nonneg rest). pose proof (lenZ_nonneg behind).
    rewrite (proj2 (Z.ltb_ge _ _)) by (rewrite lenZ_app; lia). rewrite <- app_assoc, take_lenZ, drop_lenZ. apply IH'.
  - cbn [frameType] in *. change ((frameTypeConnectionClose =? frameTypePadding) || (frameTypeConnectionClose =? frameTypePing)) with false. change ((frameTypeConnectionClose =? frameTypeAck) || (frameTypeConnectionClose =? frameTypeAck2)) with false.
    change (frameTypeConnectionClose =? frameTypeCrypto) with false. change (frameTypeConnectionClose =? frameTypeConnectionClose) with true. cbn match. destruct Hf0 as (H1 & H2 & H3). cbn [frameBody]. rewrite <- !app_assoc.
    do 3 (rewrite readVarint_written by done; cbn [orReturn mbind outcome_bind]). rewrite drop_lenZ. exact IH0.
Qed.

(** ** Protection *)

(** What is documented of the primitives: [Seal] of AES-GCM adds a tag of sixteen bytes and [Open]
    undoes it, and AES has blocks of sixteen bytes. *)
Class CryptoLaws `{Crypto} := {
  gcmSeal : bytes -> bytes -> bytes -> bytes -> bytes;
  gcmOpen_seal key nonce plain additional : gcmOpen key nonce (gcmSeal key nonce plain additional) additional = Some plain;
  gcmSeal_length key nonce plain additional : length (gcmSeal key nonce plain additional) = (length plain + 16)%nat;
  aesEncrypt_length key block : length (aesEncrypt key block) = 16%nat;
}.

Lemma byteZ_xor a b : byteZ (xorByte a b) = Z.lxor (byteZ a) (byteZ b).
Proof.
  unfold xorByte. rewrite byteZ_zByte. apply Z.bits_inj'. intros i Hi. destruct (Z.lt_ge_cases i 8).
  - by rewrite testbit_wrap by lia.
  - rewrite (fits_testbit 8) by (lia || apply wrap_fits; lia). by rewrite Z.lxor_spec, !(fits_testbit 8) by (lia || apply byteZ_fits).
Qed.

Lemma xorByte_twice a m : xorByte (xorByte a m) m = a.
Proof. apply byteZ_inj. by rewrite !byteZ_xor, Z.lxor_assoc, Z.lxor_nilpotent, Z.lxor_0_r. Qed.

Lemma xor_zip_twice (a m : bytes) : (length a <= length m)%nat -> zip_with xorByte (zip_with xorByte a m) m = a.
Proof. revert m. induction a as [|x a IH]; intros [|y m] Hl; cbn in *; try done; [lia|]. by rewrite xorByte_twice, IH by lia. Qed.

(** The protection leaves the upper half of the first byte. *)
Lemma nibble_keeps b m mask : Z.land 15 mask = 0 -> Z.land (byteZ (xorByte b (zByte (Z.land m 15)))) mask = Z.land (byteZ b) mask.
Proof.
  intros Hm. assert (Hf : fits 8 (Z.land m 15)) by (change 15 with (Z.ones 4); rewrite Z.land_ones by lia; pose proof (Z.mod_pos_bound m (2 ^ 4)); unfold fits; lia).
  rewrite byteZ_xor, byteZ_zByte, (wrap_id 8) by done. apply Z.bits_inj'. intros i Hi. rewrite !Z.land_spec, Z.lxor_spec, Z.land_spec.
  assert (Hb : Z.testbit 15 i && Z.testbit mask i = false) by (rewrite <- Z.land_spec, Hm; apply Z.bits_0). destruct (Z.testbit (byteZ b) i), (Z.testbit m i), (Z.testbit 15 i), (Z.testbit mask i); done.
Qed.

Record initial := mkInitial {
  iVersion : Z;
  iDest : bytes;
  iSource : bytes;
  iToken : bytes;
  iNumber : Z;
  iNumberLen : nat;
  iPlain : bytes;
}.

Section packet.
Context `{CryptoLaws}.

Definition initialType (version : Z) : Z := if version =? Version2 then 1 else 0.

Definition firstByte (i : initial) : Byte.byte := zByte (0xC0 + 16 * initialType (iVersion i) + (Z.of_nat (iNumberLen i) - 1)).

(** The length field covers the packet number and the payload with its tag. *)
Definition payloadLen (i : initial) : Z := Z.of_nat (iNumberLen i) + lenZ (iPlain i) + 16.

Definition headerTail (i : initial) : bytes :=
  bigEndian 4 (iVersion i) ++ [zByte (lenZ (iDest i))] ++ iDest i ++ [zByte (lenZ (iSource i))] ++ iSource i ++ writeVarint (lenZ (iToken i)) ++ iToken i ++ writeVarint (payloadLen i).

Definition numberBytes (i : initial) : bytes := bigEndian (iNumberLen i) (iNumber i).

Definition sealedOf (i : initial) : bytes :=
  let key := initialKey (iVersion i) (iDest i) "quic key" "quicv2 key" 16 in
  let iv := initialKey (iVersion i) (iDest i) "quic iv" "quicv2 iv" 12 in
  gcmSeal key (zip_with xorByte iv (replicate 4 x00 ++ bigEndian 8 (iNumber i))) (iPlain i) (firstByte i :: headerTail i ++ numberBytes i).

Definition maskOf (i : initial) : bytes :=
  aesEncrypt (initialKey (iVersion i) (iDest i) "quic hp" "quicv2 hp" 16) (take 16 (drop (4 - iNumberLen i) (sealedOf i))).

(** The packet on the wire, with what follows in the datagram *)
Definition packetOf (i : initial) (after : bytes) : bytes :=
  xorByte (firstByte i) (zByte (Z.land (byteZ (List.hd x00 (maskOf i))) 0xf)) :: headerTail i ++ zip_with xorByte (numberBytes i) (drop 1 (maskOf i)) ++ sealedOf i ++ after.

Record initialOk (i : initial) : Prop := {
  io_version : iVersion i = VersionDraft29 \/ iVersion i = Version1 \/ iVersion i = Version2;
  io_dest : 0 < lenZ (iDest i) <= 20;
  io_source : lenZ (iSource i) < 2 ^ 8;
  io_token : varOk (lenZ (iToken i));
  io_number : (1 <= iNumberLen i <= 4)%nat /\ fits (8 * Z.of_nat (iNumberLen i)) (iNumber i);
  io_sample : 4 <= Z.of_nat (iNumberLen i) + lenZ (iPlain i);
  io_length : varOk (payloadLen i);
}.

Lemma firstByte_bits i : initialOk i -> Z.land (byteZ (firstByte i)) 0x40 = 0x40 /\ Z.shiftr (Z.land (byteZ (firstByte i)) 0x30) 4 = initialType (iVersion i) /\ Z.land (byteZ (firstByte i)) 0x3 + 1 = Z.of_nat (iNumberLen i).
Proof.
  intros [_ _ _ _ [Hn _] _ _]. unfold firstByte, initialType. destruct (iVersion i =? Version2); (assert (iNumberLen i = 1 \/ iNumberLen i = 2 \/ iNumberLen i = 3 \/ iNumberLen i = 4)%nat as [-> | [-> | [-> | ->]]] by lia); done.
Qed.

Lemma discard_written (a b : bytes) : discard (lenZ a) (a ++ b) = Ok b.
Proof. unfold discard. pose proof (lenZ_nonneg b). rewrite (proj2 (Z.ltb_ge _ _)) by (rewrite lenZ_app; lia). by rewrite drop_lenZ. Qed.

Lemma readFull_written n (a b : bytes) : n = length a -> ReadFull n (a ++ b) = Ok (a, b).
Proof. intros ->. apply ReadFull_app. Qed.

(** The header is read with the first byte protected. *)
Lemma readHeader_written i b r : initialOk i -> Z.land (byteZ b) 0x40 = 0x40 -> Z.shiftr (Z.land (byteZ b) 0x30) 4 = initialType (iVersion i) ->
  readHeader (b :: headerTail i ++ r) = Returns (iVersion i, iDest i, payloadLen i, 1 + lenZ (headerTail i), r).
Proof.
  intros Hok Hb Ht. destruct Hok as [Hv Hd Hs Htok _ _ Hlen]. unfold readHeader. cbn [ReadByte orReturn mbind outcome_bind]. rewrite Hb. change (64 =? 0) with false. cbn match. rewrite Ht.
  assert (E : lenZ (b :: headerTail i ++ r) - lenZ r = 1 + lenZ (headerTail i)) by (lens; lia).
  rewrite <- E. clear E. set (L := lenZ (b :: headerTail i ++ r)). clearbody L. unfold headerTail. rewrite <- !app_assoc.
  rewrite ReadUint_app by (destruct Hv as [-> | [-> | ->]]; done). cbn [orReturn mbind outcome_bind].
  assert (Hver : negb (iVersion i =? VersionDraft29) && negb (iVersion i =? Version1) && negb (iVersion i =? Version2) = false) by (by destruct Hv as [-> | [-> | ->]]).
  assert (Hty : (initialType (iVersion i) =? 0) && (iVersion i =? Version2) || (initialType (iVersion i) =? 2) && negb (iVersion i =? Version2) || (2 <? initialType (iVersion i)) = false) by (by destruct Hv as [-> | [-> | ->]]).
  rewrite Hver, Hty. cbn [app ReadByte orReturn mbind outcome_bind]. rewrite byteZ_zByte, (wrap_id 8) by (unfold fits; lia). rewrite (proj2 (Z.eqb_neq _ 0)), (proj2 (Z.ltb_ge 20 _)) by lia. cbn [orb].
  rewrite readFull_written by (unfold lenZ; lia). cbn [orReturn mbind outcome_bind ReadByte]. pose proof (lenZ_nonneg (iSource i)). rewrite byteZ_zByte, (wrap_id 8) by (unfold fits; lia). cbn [orReturn mbind outcome_bind].
  rewrite discard_written. cbn [orReturn mbind outcome_bind]. rewrite readVarint_written by done. cbn [orReturn mbind outcome_bind]. rewrite discard_written. cbn [orReturn mbind outcome_bind].
  rewrite readVarint_written by done. done.
Qed.

Lemma take_zip_with n (a m : bytes) : take n (zip_with xorByte a m) = zip_with xorByte (take n a) (take n m).
Proof. revert n m. induction a as [|x a IH]; intros [|n] [|y m]; cbn; try done. by rewrite IH. Qed.

Lemma zip_with_take (a m : bytes) : zip_with xorByte a m = zip_with xorByte a (take (length a) m).
Proof. revert m. induction a as [|x a IH]; intros [|y m]; cbn; try done. by rewrite <- IH. Qed.

(** The packet number is recovered with the mask that the sample gives. *)
Lemma number_unmasked (pn mask sealed : bytes) n : length pn = n -> (n <= 4)%nat -> length mask = 16%nat -> let pn' := zip_with xorByte pn (drop 1 mask) in
  length pn' = n /\ take n (zip_with xorByte (pn' ++ take (4 - n) sealed) (take 4 (drop 1 mask))) = pn.
Proof.
  intros Hp Hn Hm pn'. assert (Hl : length pn' = n) by (unfold pn'; rewrite length_zip_with, length_drop; lia). split; [done|]. rewrite take_zip_with. rewrite (take_app_le pn') by lia. rewrite (take_ge pn') by lia. rewrite take_take, Nat.min_l by lia.
  unfold pn'. rewrite (zip_with_take pn), Hp. apply xor_zip_twice. rewrite length_take, length_drop. lia.
Qed.

Lemma quicPayload_written i after : initialOk i -> quicPayload (packetOf i after) = Returns (iPlain i, drop (length (iPlain i)) (sealedOf i ++ after)).
Proof.
  intros Hok. pose proof (firstByte_bits i Hok) as (B1 & B2 & B3). destruct (io_number _ Hok) as [Hn Hfit]. pose proof (io_sample _ Hok) as Hsample. set (n := iNumberLen i) in *.
  assert (Hseal : length (sealedOf i) = (length (iPlain i) + 16)%nat) by apply gcmSeal_length. assert (Hmask : length (maskOf i) = 16%nat) by apply aesEncrypt_length.
  unfold packetOf. set (mask := maskOf i) in *. assert (Hpn : length (numberBytes i) = n) by apply bigEndian_length. destruct (number_unmasked (numberBytes i) mask (sealedOf i) n Hpn ltac:(lia) Hmask) as [Hl' Hnum].
  set (pn' := zip_with xorByte (numberBytes i) (drop 1 mask)) in *. set (b := xorByte (firstByte i) _). unfold quicPayload.
  rewrite readHeader_written; [|done|unfold b; by rewrite nibble_keeps|unfold b; by rewrite nibble_keeps]. cbn [mbind outcome_bind].
  assert (Htail : lenZ (pn' ++ sealedOf i ++ after) = payloadLen i + lenZ after) by (unfold payloadLen, lenZ in *; rewrite !length_app, Hl', Hseal; lia).
  pose proof (lenZ_nonneg after). unfold lenZ in Hsample. fold (lenZ (iPlain i)) in Hsample. assert (Hge : 20 <= payloadLen i) by (unfold payloadLen; fold n; lia).
  rewrite (proj2 (Z.ltb_ge _ _)) by (rewrite lenZ_cons, lenZ_app, Htail; lia). unfold discard at 1. rewrite Htail, (proj2 (Z.ltb_ge _ 4)) by lia. cbn [orReturn mbind outcome_bind].
  assert (D4 : drop (Z.to_nat 4) (pn' ++ sealedOf i ++ after) = drop (4 - n) (sealedOf i) ++ after) by (change (Z.to_nat 4) with 4%nat; rewrite drop_app, Hl', (drop_ge pn') by lia; cbn [app]; rewrite drop_app_le by (unfold lenZ in *; lia); done).
  rewrite D4. assert (Hs16 : (16 <= length (drop (4 - n) (sealedOf i)))%nat) by (rewrite length_drop; unfold lenZ in *; lia).
  rewrite <- (take_drop 16 (drop (4 - n) (sealedOf i))) at 1. rewrite <- app_assoc, readFull_written by (rewrite length_take; lia). cbn [orReturn mbind outcome_bind].
  change (aesEncrypt _ (take 16 (drop (4 - n) (sealedOf i)))) with mask.
  assert (Emask : exists m0 ms, mask = m0 :: ms) by (destruct mask as [|m0 ms]; [done|eauto]). destruct Emask as (m0 & ms & Em). assert (Efirst : xorByte b (zByte (Z.land (byteZ m0) 15)) = firstByte i) by (unfold b; rewrite Em; apply xorByte_twice).
  rewrite Em at 1. cbn [mbind outcome_bind]. rewrite Efirst, B3. clearbody b. rewrite (proj2 (Z.ltb_ge _ _)) by lia. rewrite Nat2Z.id.
  assert (P0 : Z.to_nat (1 + lenZ (headerTail i)) = length (b :: headerTail i)) by (unfold lenZ; cbn; lia). rewrite P0.
  change (b :: headerTail i ++ pn' ++ sealedOf i ++ after) with ((b :: headerTail i) ++ pn' ++ sealedOf i ++ after). rewrite <- drop_drop, drop_app_length, take_app_length. change (drop 4 (pn' ++ sealedOf i ++ after)) with (drop (Z.to_nat 4) (pn' ++ sealedOf i ++ after)). rewrite D4.
  assert (T4 : take 4 (pn' ++ sealedOf i ++ after) = pn' ++ take (4 - n) (sealedOf i)) by (rewrite take_app, Hl', (take_ge pn') by lia; f_equal; by rewrite take_app_le by (unfold lenZ in *; lia)).
  rewrite T4, Hnum. assert (Dn : drop n (pn' ++ take (4 - n) (sealedOf i)) = take (4 - n) (sealedOf i)) by (rewrite <- Hl' at 1; apply drop_app_length). rewrite Dn, app_assoc, take_drop.
  assert (Td : take (Z.to_nat (payloadLen i - Z.of_nat n)) (sealedOf i ++ after) = sealedOf i) by (replace (Z.to_nat (payloadLen i - Z.of_nat n)) with (length (sealedOf i)) by (unfold payloadLen, lenZ in *; fold n; lia); apply take_app_length).
  rewrite Td. unfold numberBytes at 1. fold n. rewrite bigEndian_value by done. cbn [drop app]. unfold xorNonceOpen, sealedOf at 1. fold n. by rewrite gcmOpen_seal.
Qed.

(** A datagram that starts with an initial packet with some frames *)
Record datagram := mkDatagram { dInitial : initial; dFrames : list frame; dAfter : bytes }.

Definition datagramOk (d : datagram) : Prop := initialOk (dInitial d) /\ iPlain (dInitial d) = framesBytes (dFrames d) /\ Forall frameOk (dFrames d).

Definition wire (d : datagram) : bytes := packetOf (dInitial d) (dAfter d).

Definition cryptoOf (d : datagram) : list qCryptoFragment := concat (fragmentsOf <$> dFrames d).

Lemma quicFrames_written d : datagramOk d -> quicFrames (wire d) = Returns (frameType <$> dFrames d, cryptoOf d).
Proof.
  intros (Hok & Hp & Hf). unfold quicFrames, wire. rewrite quicPayload_written by done. cbn [mbind outcome_bind]. rewrite Hp. by rewrite frameLoop_written by (done || lia).
Qed.
End packet.
