(* ===== verification/QuicSniffSpec.v ===== *)
(** * What the QUIC sniffer finds

    The client hello is put together from its pieces in whatever order and packets they come;
    and the reasons for which the sniffer does not come to an end. *)

From S2P Require Import Prelude Binary Context Sniff Ja3 QuicSniff QuicPacket.

#[export] Instance fragment_eq_dec : EqDecision qCryptoFragment.
Proof. solve_decision. Defined.

(** ** Pieces of a message *)

(** The pieces of a message as fragments, from an offset on *)
Fixpoint fragmentsFrom (offset : Z) (cs : list bytes) : list qCryptoFragment :=
  match cs with [] => [] | c :: cs => mkFragment offset (lenZ c) c :: fragmentsFrom (offset + lenZ c) cs end.

Fixpoint sizeOf (fs : list qCryptoFragment) : Z := match fs with [] => 0 | f :: fs => fragLength f + sizeOf fs end.

(** The pieces that are there, up to the first one that is not *)
Fixpoint available (frs fs : list qCryptoFragment) : list qCryptoFragment :=
  match fs with [] => [] | f :: fs => if decide (f ∈ frs) then f :: available frs fs else [] end.

Definition payloads (fs : list qCryptoFragment) : bytes := concat (fragPayload <$> fs).

(** A fragment of the right size *)
Definition fragOk (f : qCryptoFragment) : Prop := 0 <= fragOffset f < 2 ^ 62 /\ 0 < fragLength f < 2 ^ 62 /\ lenZ (fragPayload f) = fragLength f.

Lemma fragmentsFrom_ok cs : forall off, 0 <= off -> Forall (fun c => c <> []) cs -> off + lenZ (concat cs) < 2 ^ 62 ->
  Forall (fun f => off <= fragOffset f /\ fragOffset f + fragLength f <= off + lenZ (concat cs) /\ fragOk f) (fragmentsFrom off cs).
Proof.
  induction cs as [|c cs IH]; intros off Hoff Hne Hs; [constructor|]. apply Forall_cons_iff in Hne as [Hc Hne]. cbn [concat fragmentsFrom] in *. rewrite lenZ_app in *. pose proof (lenZ_nonneg (concat cs)).
  assert (0 < lenZ c) by (destruct c; [done|]; rewrite lenZ_cons; pose proof (lenZ_nonneg c); lia). constructor.
  - unfold fragOk. cbn. lia.
  - eapply Forall_impl; [apply IH; [lia|done|lia]|]. cbn. intros f (A & B & C). split_and!; [lia|lia|done].
Qed.

Lemma fragmentsFrom_nodup cs : forall off, 0 <= off -> Forall (fun c => c <> []) cs -> off + lenZ (concat cs) < 2 ^ 62 -> NoDup (fragOffset <$> fragmentsFrom off cs).
Proof.
  induction cs as [|c cs IH]; intros off Hoff Hne Hs; [apply NoDup_nil_2|]. pose proof Hne as Hne0. apply Forall_cons_iff in Hne as [Hc Hne]. cbn [concat fragmentsFrom] in *. rewrite lenZ_app in *. pose proof (lenZ_nonneg (concat cs)).
  assert (0 < lenZ c) by (destruct c; [done|]; rewrite lenZ_cons; pose proof (lenZ_nonneg c); lia). rewrite fmap_cons. apply NoDup_cons. split; [|apply IH; [lia|done|lia]].
  intros (f & E & Hf)%list_elem_of_fmap. pose proof (fragmentsFrom_ok cs (off + lenZ c) ltac:(lia) Hne ltac:(lia)) as HF. rewrite Forall_forall in HF. specialize (HF f Hf). cbn in E. lia.
Qed.

Lemma payloads_from cs off : payloads (fragmentsFrom off cs) = concat cs /\ sizeOf (fragmentsFrom off cs) = lenZ (concat cs).
Proof.
  revert off. induction cs as [|c cs IH]; intros off; [done|]. destruct (IH (off + lenZ c)) as [E1 E2]. unfold payloads in *. cbn [fragmentsFrom sizeOf concat]. rewrite fmap_cons. cbn [concat fragPayload fragLength]. by rewrite E1, E2, lenZ_app.
Qed.

Lemma sizeOf_perm fs fs' : fs ≡ₚ fs' -> sizeOf fs = sizeOf fs'.
Proof. induction 1; cbn; lia. Qed.

Lemma sizeOf_app fs fs' : sizeOf (fs ++ fs') = sizeOf fs + sizeOf fs'.
Proof. induction fs as [|f fs IH]; cbn; [done|]. lia. Qed.

(** ** Assembly *)

Section assembly.
Context (all frs : list qCryptoFragment) (missing : list qCryptoFragment) (Hperm : frs ++ missing ≡ₚ all) (Hnd : NoDup (fragOffset <$> all)) (Hok : Forall fragOk all).

Lemma frs_in f : f ∈ frs -> f ∈ all.
Proof. intros Hf. rewrite <- Hperm. apply elem_of_app. by left. Qed.

Lemma same_offset f g : f ∈ all -> g ∈ all -> fragOffset f = fragOffset g -> f = g.
Proof.
  intros Hf Hg E. apply list_elem_of_lookup in Hf as [i Hi], Hg as [j Hj]. assert (i = j) as ->; [|congruence].
  eapply NoDup_lookup; [exact Hnd| |]; rewrite list_lookup_fmap; [by rewrite Hi|]. rewrite Hj. cbn. by rewrite E.
Qed.

Lemma find_offset i : match List.find (fun f => fragOffset f =? i) frs with
  | Some f => f ∈ frs /\ fragOffset f = i
  | None => forall f, f ∈ frs -> fragOffset f <> i
  end.
Proof.
  destruct (List.find _ frs) as [f|] eqn:E.
  - apply find_some in E as [Hf%list_elem_of_In Hi%Z.eqb_eq]. done.
  - intros f Hf. eapply find_none in E; [|by apply list_elem_of_In]. by apply Z.eqb_neq.
Qed.

Lemma available_in fs f : f ∈ available frs fs -> f ∈ frs /\ f ∈ fs.
Proof.
  induction fs as [|g fs IH]; cbn; [by intros ?%not_elem_of_nil|]. destruct (decide (g ∈ frs)); [|by intros ?%not_elem_of_nil]. intros [->|Hf]%elem_of_cons; [split; [done|by left]|]. destruct (IH Hf). split; [done|by right].
Qed.

(** [fs] is the rest of all fragments, from the index on. *)
Lemma assemble_ok fs : forall fuel capacity index buffer, (forall f, f ∈ fs -> f ∈ all) ->
  (match fs with [] => forall f, f ∈ all -> fragOffset f <> index | f :: _ => fragOffset f = index end) ->
  (forall f g fs1 fs2, fs = fs1 ++ f :: g :: fs2 -> fragOffset g = fragOffset f + fragLength f) ->
  (forall f fs1, fs = fs1 ++ [f] -> forall g, g ∈ all -> fragOffset g <> fragOffset f + fragLength f) ->
  (length (available frs fs) < fuel)%nat -> lenZ buffer + sizeOf (available frs fs) <= capacity ->
  assembleFragments fuel frs capacity index buffer = Returns (buffer ++ payloads (available frs fs)).
Proof.
  induction fs as [|f fs IH]; intros fuel capacity index buffer Hall Hidx Hnext Hlast Hfuel Hcap; (destruct fuel as [|fuel]; [cbn in Hfuel; lia|]); cbn [assembleFragments available] in *; pose proof (find_offset index) as Hfind.
  - destruct (List.find _ frs) as [g|]; [|by rewrite app_nil_r]. destruct Hfind as [Hg Hi]. by destruct (Hidx g (frs_in g Hg)).
  - assert (Hf : f ∈ all) by (apply Hall; by left). pose proof (proj1 (Forall_forall _ _) Hok f Hf) as (F1 & F2 & F3). destruct (decide (f ∈ frs)) as [Hin|Hout].
    + destruct (List.find _ frs) as [g|]; [|by destruct (Hfind f Hin)]. destruct Hfind as [Hg Hi]. assert (g = f) as -> by (apply same_offset; [by apply frs_in|done|congruence]).
      cbn [length sizeOf] in *. unfold bufferWrite. assert (0 <= sizeOf (available frs fs)).
      { assert (Hav : Forall fragOk (available frs fs)) by (apply Forall_forall; intros x [Hx _]%available_in; by apply (proj1 (Forall_forall _ _) Hok), frs_in). clear -Hav. induction Hav as [|x l (_ & ? & _) _ IH]; cbn; lia. }
      rewrite take_ge by (pose proof (lenZ_app buffer (fragPayload f)) as L; unfold lenZ in *; lia). rewrite wrap_id by (unfold fits; lia).
      rewrite IH; [unfold payloads; rewrite fmap_cons; cbn [concat]; by rewrite app_assoc|intros x Hx; apply Hall; by right| | | |lia|rewrite lenZ_app; lia].
      * destruct fs as [|g fs]; [by apply (Hlast f [])|by apply (Hnext f g [] fs)].
      * intros x y l1 l2 ->. by apply (Hnext x y (f :: l1) l2).
      * intros x l1 -> y Hy. by apply (Hlast x (f :: l1)).
    + destruct (List.find _ frs) as [g|]; [|by rewrite app_nil_r]. destruct Hfind as [Hg Hi]. destruct Hout. assert (g = f) as <- by (apply same_offset; [by apply frs_in|done|congruence]). done.
Qed.
End assembly.

Lemma fragments_next cs : forall off f g l1 l2, fragmentsFrom off cs = l1 ++ f :: g :: l2 -> fragOffset g = fragOffset f + fragLength f.
Proof.
  induction cs as [|c cs IH]; intros off f g l1 l2 E; cbn in E; [by destruct l1|]. destruct l1 as [|x l1]; injection E as Ex E; [|by eapply IH]. destruct cs as [|c' cs]; cbn in E; [done|]. injection E as Eg _. by subst f g.
Qed.

Lemma fragments_last cs : forall off f l1, fragmentsFrom off cs = l1 ++ [f] -> fragOffset f + fragLength f = off + lenZ (concat cs).
Proof.
  induction cs as [|c cs IH]; intros off f l1 E; cbn in E; [by destruct l1|]. cbn [concat]. rewrite lenZ_app. destruct l1 as [|x l1]; injection E as Ex E.
  - destruct cs; [|done]. subst f. cbn. change (lenZ []) with 0. lia.
  - rewrite (IH _ _ _ E). lia.
Qed.

Lemma available_prefix frs fs : exists rest, fs = available frs fs ++ rest /\ match rest with [] => True | f :: _ => f ∉ frs end.
Proof. induction fs as [|f fs (rest & E & Hr)]; [by exists []|]. cbn. destruct (decide (f ∈ frs)) as [Hf|Hf]; [exists rest; by rewrite E at 1|by exists (f :: fs)]. Qed.

Section pieces.
Context (cs : list bytes) (Hne : Forall (fun c => c <> []) cs) (Hsize : lenZ (concat cs) < 2 ^ 62).
Let all := fragmentsFrom 0 cs.

Lemma pieces_ok : Forall fragOk all /\ NoDup (fragOffset <$> all) /\ (forall f, f ∈ all -> fragOffset f < lenZ (concat cs)).
Proof.
  pose proof (fragmentsFrom_ok cs 0 ltac:(lia) Hne Hsize) as H. rewrite Forall_forall in H. split_and!; [apply Forall_forall; intros f Hf; by apply H|by apply fragmentsFrom_nodup|]. intros f Hf. destruct (H f Hf) as (_ & ? & _ & ? & _). lia.
Qed.

Context (frs missing : list qCryptoFragment) (Hperm : frs ++ missing ≡ₚ all).

Lemma frs_ok : Forall fragOk frs /\ Forall fragOk missing.
Proof. destruct pieces_ok as [H _]. rewrite <- Hperm in H. by apply Forall_app. Qed.

Lemma sizeOf_nonneg fs : Forall fragOk fs -> 0 <= sizeOf fs /\ (fs <> [] -> 0 < sizeOf fs) /\ lenZ (payloads fs) = sizeOf fs.
Proof.
  induction 1 as [|f fs (_ & Hf & Hp) _ (IH1 & IH2 & IH3)]; [done|]. unfold payloads in *. cbn [sizeOf]. rewrite fmap_cons. cbn [concat]. rewrite lenZ_app, Hp, IH3. split_and!; [lia|lia|done].
Qed.

Lemma sizes : sizeOf frs + sizeOf missing = lenZ (concat cs).
Proof. rewrite <- sizeOf_app, (sizeOf_perm _ _ Hperm). apply payloads_from. Qed.

Lemma available_sub : exists rest, frs ≡ₚ available frs all ++ rest.
Proof.
  destruct pieces_ok as (_ & Hnd & _). apply submseteq_Permutation, NoDup_submseteq; [|intros f Hf; by apply available_in in Hf as [? _]].
  apply (NoDup_fmap_1 fragOffset). destruct (available_prefix frs all) as (rest & E & _). rewrite E, fmap_app in Hnd. by apply NoDup_app in Hnd as [? _].
Qed.

Lemma available_size : (length (available frs all) <= length frs)%nat /\ 0 <= sizeOf (available frs all) <= sizeOf frs /\ lenZ (payloads (available frs all)) = sizeOf (available frs all).
Proof.
  destruct available_sub as [rest E]. destruct frs_ok as [Hok _]. pose proof Hok as Hok'. rewrite E in Hok'. apply Forall_app in Hok' as [Ha Hr]. pose proof (Permutation_length E) as L. rewrite length_app in L.
  pose proof (sizeOf_perm _ _ E) as Z. rewrite sizeOf_app in Z. destruct (sizeOf_nonneg _ Ha) as (? & _ & ?), (sizeOf_nonneg _ Hr) as (? & _). split_and!; try done; lia.
Qed.

Lemma assemble_pieces capacity buffer : lenZ buffer + sizeOf frs <= capacity -> assembleFragments (S (length frs)) frs capacity 0 buffer = Returns (buffer ++ payloads (available frs all)).
Proof.
  intros Hcap. destruct pieces_ok as (Hok & Hnd & Hlt). destruct available_size as (L & Z & _). apply (assemble_ok all frs missing Hperm Hnd Hok); [done| | | |lia|lia].
  - unfold all. destruct cs as [|c cs']; [by intros f ?%not_elem_of_nil|done].
  - intros f g l1 l2 E. by eapply fragments_next.
  - intros f l1 E g Hg. pose proof (fragments_last cs 0 f l1 E). specialize (Hlt g Hg). lia.
Qed.

Lemma available_message : exists rest, concat cs = payloads (available frs all) ++ rest.
Proof.
  destruct (available_prefix frs all) as (rest & E & _). destruct (payloads_from cs 0) as [P _]. fold all in P. exists (payloads rest). rewrite <- P. rewrite E at 1. unfold payloads. by rewrite fmap_app, concat_app.
Qed.

Lemma frameLen_size : frameLen frs = sizeOf frs.
Proof.
  destruct frs_ok as [Hok Hmi]. destruct (sizeOf_nonneg _ Hmi) as (Hm & _). pose proof sizes as Hs. unfold frameLen. assert (H : forall n, 0 <= n -> n + sizeOf frs < 2 ^ 64 -> fold_left (fun n f => u64 (n + fragLength f)) frs n = n + sizeOf frs); [|apply (H 0); lia].
  clear -Hok. induction Hok as [|f fs (_ & Hf & _) Hok IH]; intros n Hn Hb; cbn [fold_left sizeOf] in *; [lia|]. destruct (sizeOf_nonneg _ Hok) as (? & _). rewrite wrap_id by (unfold fits; lia). rewrite IH by lia. lia.
Qed.
End pieces.

(** ** The sniffer *)

Definition needsMore (o : sniff ()) : Prop := exists e, o = Fails e /\ existsb needsMoreData e = true.

Definition heldBack (metadata : SniffState) : list qCryptoFragment := default [] (SniffContext metadata).

Section sniffer.
Context (h : hello) (Hh : helloOk h) (cs : list bytes) (Hne : Forall (fun c => c <> []) cs) (Hcs : concat cs = helloBytes h).

Lemma hello_small : lenZ (concat cs) < 2 ^ 62.
Proof. rewrite Hcs. pose proof (ho_size _ Hh). lia. Qed.

Lemma finish_fragments metadata fragments : match SniffContext metadata with Some old => fragments ++ old | None => fragments end = fragments ++ heldBack metadata.
Proof. unfold heldBack. destruct (SniffContext metadata); [done|]. by rewrite app_nil_r. Qed.

(** All pieces but some have come. *)
Lemma finish_incomplete metadata types fragments missing : fragments ++ heldBack metadata ++ missing ≡ₚ fragmentsFrom 0 cs -> missing <> [] ->
  exists o, finishHello metadata types fragments = (o, mkSniffState "quic" (sDomain metadata) (sClient metadata) (Some (fragments ++ heldBack metadata))) /\ needsMore o.
Proof.
  intros Hperm Hm. rewrite app_assoc in Hperm. unfold finishHello. rewrite finish_fragments. set (frs := fragments ++ heldBack metadata) in *. pose proof hello_small as Hsm. pose proof (ho_size _ Hh) as Hsz.
  destruct (frs_ok cs Hne Hsm frs missing Hperm) as [_ Hmi]. destruct (sizeOf_nonneg missing Hmi) as (_ & Hpos & _). specialize (Hpos Hm). pose proof (sizes cs frs missing Hperm) as Hs. rewrite Hcs in Hs.
  destruct (available_size cs Hne Hsm frs missing Hperm) as (_ & Ha & Hl). rewrite (frameLen_size cs Hne Hsm frs missing Hperm). rewrite (wrap_id 16) by (unfold fits; lia).
  rewrite (assemble_pieces cs Hne Hsm frs missing Hperm) by (lens; lia). change (([x16] ++ bigEndian 2 0x0303 ++ bigEndian 2 (sizeOf frs)) ++ payloads (available frs (fragmentsFrom 0 cs))) with (recordOf (sizeOf frs) (payloads (available frs (fragmentsFrom 0 cs)))).
  assert (Hfail : exists e, ComputeJa3 (recordOf (sizeOf frs) (payloads (available frs (fragmentsFrom 0 cs)))) = Fails e).
  { rewrite parseSegment_record by (unfold fits; lia). destruct (Z.ltb_spec (lenZ (payloads (available frs (fragmentsFrom 0 cs)))) (sizeOf frs)); [by eexists|]. destruct (available_message cs frs) as [rest E]. rewrite Hcs in E.
    rewrite take_ge by (unfold lenZ in *; lia). set (n := lenZ (payloads (available frs (fragmentsFrom 0 cs)))) in *. destruct (parseHandshake_prefix h n Hh) as [e He]; [lia|]. exists e. rewrite <- He, E. unfold n. by rewrite take_lenZ. }
  destruct Hfail as [e ->]. eexists. split; [done|]. by eexists.
Qed.

Lemma quicClient_returns types fp : types <> [] -> exists c, quicClient types fp = Returns c.
Proof. intros Ht. unfold quicClient. destruct types as [|t ts]; [done|]. repeat (destruct (_ : bool); [by eexists|]). by eexists. Qed.

(** The client that is known already, or the one of the frames and the client hello *)
Definition clientFrom (known : string) (types : list Z) (h' : hello) (client : string) : Prop :=
  if String.eqb known "" then quicClient types (fingerprint h') = Returns client else client = known.

(** All pieces have come. *)
Lemma finish_complete metadata types fragments : fragments ++ heldBack metadata ≡ₚ fragmentsFrom 0 cs -> types <> [] ->
  exists client, finishHello metadata types fragments = (Returns (), mkSniffState "quic" (bytesString (ServerName (fingerprint h))) client None) /\ clientFrom (sClient metadata) types h client.
Proof.
  intros Hperm Ht. unfold finishHello. rewrite finish_fragments. set (frs := fragments ++ heldBack metadata) in *. pose proof hello_small as Hsm. pose proof (ho_size _ Hh) as Hsz.
  assert (Hp : frs ++ [] ≡ₚ fragmentsFrom 0 cs) by (by rewrite app_nil_r). pose proof (sizes cs frs [] Hp) as Hs. cbn in Hs. rewrite Hcs, Z.add_0_r in Hs. rewrite (frameLen_size cs Hne Hsm frs [] Hp). pose proof (lenZ_nonneg (helloBytes h)). rewrite (wrap_id 16) by (unfold fits; lia).
  rewrite (assemble_pieces cs Hne Hsm frs [] Hp) by (lens; lia). assert (Hav : available frs (fragmentsFrom 0 cs) = fragmentsFrom 0 cs).
  { destruct (available_prefix frs (fragmentsFrom 0 cs)) as ([|f rest] & E & Hf); [by rewrite app_nil_r in E|]. destruct Hf. rewrite Hperm, E, elem_of_app. right. by left. }
  rewrite Hav, (proj1 (payloads_from cs 0)), Hcs. change (([x16] ++ bigEndian 2 0x0303 ++ bigEndian 2 (sizeOf frs)) ++ helloBytes h) with (recordOf (sizeOf frs) (helloBytes h)).
  rewrite parseSegment_record by (unfold fits; lia). rewrite Hs, Z.ltb_irrefl, take_ge by (unfold lenZ; lia). rewrite parseHandshake_written by done.
  unfold clientFrom. destruct (String.eqb (sClient metadata) ""); [|by eexists]. destruct (quicClient_returns types (fingerprint h) Ht) as [c Hc]. rewrite Hc. by exists c.
Qed.
End sniffer.

Section packets.
Context `{CryptoLaws}.

(** The datagrams of a client, one after the other *)
Fixpoint sniffPackets (metadata : SniffState) (packets : list bytes) : list (sniff ()) * SniffState :=
  match packets with
  | [] => ([], metadata)
  | p :: ps => let '(o, metadata) := QUICClientHello metadata p in let '(os, metadata) := sniffPackets metadata ps in (o :: os, metadata)
  end.

Lemma sniffPackets_front h cs front : helloOk h -> Forall (fun c => c <> []) cs -> concat cs = helloBytes h -> forall metadata missing, Forall datagramOk front ->
  heldBack metadata ++ concat (cryptoOf <$> front) ++ missing ≡ₚ fragmentsFrom 0 cs -> missing <> [] ->
  exists os metadata', sniffPackets metadata (wire <$> front) = (os, metadata') /\ Forall needsMore os /\ length os = length front /\ heldBack metadata' ≡ₚ heldBack metadata ++ concat (cryptoOf <$> front) /\ sClient metadata' = sClient metadata.
Proof.
  intros Hh Hne Hcs. induction front as [|p front IH]; intros metadata missing Hok Hperm Hm; [exists [], metadata; cbn; split_and!; try done; by rewrite app_nil_r|]. apply Forall_cons_iff in Hok as [Hp Hok]. rewrite !fmap_cons in *. cbn [concat sniffPackets] in *.
  unfold QUICClientHello. rewrite quicFrames_written by done.
  destruct (finish_incomplete h Hh cs Hne Hcs metadata (frameType <$> dFrames p) (cryptoOf p) (concat (cryptoOf <$> front) ++ missing)) as (o & -> & Ho); [|by destruct (concat (cryptoOf <$> front))|].
  { rewrite <- Hperm, <- !app_assoc. apply Permutation_app_swap_app. }
  set (m1 := mkSniffState _ _ _ _). destruct (IH m1 missing Hok) as (os & m' & -> & Hos & Hl & Hb & Hcl); [|done|].
  { change (heldBack m1) with (cryptoOf p ++ heldBack metadata). rewrite <- Hperm, <- !app_assoc. apply Permutation_app_swap_app. }
  exists (o :: os), m'. split_and!; [done|by constructor|cbn; by rewrite Hl| |done]. rewrite Hb. change (heldBack m1) with (cryptoOf p ++ heldBack metadata). rewrite <- app_assoc. apply Permutation_app_swap_app.
Qed.

Lemma sniffPackets_app ps : forall metadata ps', sniffPackets metadata (ps ++ ps') = ((sniffPackets metadata ps).1 ++ (sniffPackets (sniffPackets metadata ps).2 ps').1, (sniffPackets (sniffPackets metadata ps).2 ps').2).
Proof.
  induction ps as [|p ps IH]; intros metadata ps'; [cbn [app sniffPackets fst snd]; apply surjective_pairing|]. cbn [app sniffPackets]. destruct (QUICClientHello metadata p) as [o m]. rewrite IH. by destruct (sniffPackets m ps) as [os m'].
Qed.

Lemma fingerprint_name es1 name es2 j : (forall n, ServerNameExt n ∉ es2) -> ServerName (fold_left recordExt (es1 ++ ServerNameExt name :: es2) j) = name.
Proof.
  intros Hno. rewrite fold_left_app. cbn [fold_left]. set (j1 := recordExt _ _). assert (E : ServerName j1 = name) by done. clearbody j1. revert j1 E. induction es2 as [|e es2 IH]; intros j1 E; [done|]. cbn [fold_left]. apply IH.
  - intros n Hn. apply (Hno n). by right.
  - destruct e as [n| | | | |]; try done. exfalso. apply (Hno n). by left.
Qed.
End packets.

(** ** Anything *)

Lemma readByte_ok (r : bytes) : match ReadByte r with Ok (x, r') => length r = S (length r') /\ fits 8 x | Err _ => True end.
Proof. destruct r as [|b r]; [done|]. cbn. split; [done|apply byteZ_fits]. Qed.

Ltac readByte := match goal with |- context [ReadByte ?r] => let H := fresh "Hb" in pose proof (readByte_ok r) as H; destruct (ReadByte r) as [[? ?]|?]; [|done]; destruct H as [? ?] end; cbn [mbind result_bind].

Lemma readVarint_range r : match readVarint r with Ok (n, r') => (length r' < length r)%nat /\ 0 <= n < 2 ^ 62 | Err _ => True end.
Proof.
  unfold readVarint. destruct r as [|b r]; [done|]. cbn [ReadByte mbind result_bind]. destruct (varint_byte b) as (_ & H1 & _). cbv zeta in H1. set (b1 := Z.land (byteZ b) 63) in *. clearbody b1.
  destruct (_ =? 1); [cbn; lia|]. readByte. unfold fits in *. destruct (_ =? 2); [rewrite Z.shiftl_mul_pow2 by lia; cbn [length]; lia|]. readByte. readByte. unfold fits in *. destruct (_ =? 4); [rewrite !Z.shiftl_mul_pow2 by lia; cbn [length]; lia|].
  readByte. readByte. readByte. readByte. unfold fits in *. rewrite !Z.shiftl_mul_pow2 by lia. cbn [length]. lia.
Qed.

Lemma readMany_shorter {A} (read : bytes -> result (A * bytes)) : (forall r x r', read r = Ok (x, r') -> (length r' <= length r)%nat) ->
  forall fuel n r xs r', readMany read fuel n r = Ok (xs, r') -> (length r' <= length r)%nat.
Proof.
  intros Hr. induction fuel as [|fuel IH]; intros n r xs r'; cbn [readMany]; (destruct (n <=? 0); [by intros [= _ <-]|]); [done|]. destruct (read r) as [[x r1]|] eqn:E; cbn [mbind result_bind]; [|done].
  destruct (readMany read fuel (n - 1) r1) as [[ys r2]|] eqn:E2; cbn; [|done]. intros [= _ <-]. apply Hr in E. apply IH in E2. lia.
Qed.

Ltac varint := match goal with |- context [readVarint ?r] => let H := fresh "Hv" in pose proof (readVarint_range r) as H; destruct (readVarint r) as [[? ?]|?]; [|done] end; cbn [mbind result_bind outcome_bind orReturn].

Lemma readRange2_shorter r x r' : readRange2 r = Ok (x, r') -> (length r' <= length r)%nat.
Proof.
  unfold readRange2. pose proof (readVarint_range r) as H1. destruct (readVarint r) as [[a r1]|]; cbn; [|done]. pose proof (readVarint_range r1) as H2. destruct (readVarint r1) as [[b r2]|]; cbn; [|done]. intros [= _ <-]. lia.
Qed.

Lemma skipAck_shorter t r : match skipAck t r with Ok r' => (length r' < length r)%nat | Err _ => True end.
Proof.
  unfold skipAck. do 4 varint. unfold ReadMany. destruct (readMany _ _ _ _) as [[xs r5]|] eqn:E; cbn [mbind result_bind]; [|done]. apply (readMany_shorter _ readRange2_shorter) in E.
  destruct (_ =? _); [|lia]. do 3 varint. lia.
Qed.

(** A CRYPTO frame that is longer than what is left of the array *)
Definition cryptoTooLong (plain behind : bytes) : Prop :=
  exists pre b r1 offset r2 len r, plain = pre ++ b :: r1 /\ byteZ b = frameTypeCrypto /\ readVarint r1 = Ok (offset, r2) /\ readVarint r2 = Ok (len, r) /\ lenZ r + lenZ behind < len.

Definition inRange62 (f : qCryptoFragment) : Prop := 0 <= fragOffset f < 2 ^ 62 /\ 0 <= fragLength f < 2 ^ 62.

Lemma suffix_longer (pre r r' : bytes) behind : (exists a, pre = a ++ r) -> (exists a, r = a ++ r') -> cryptoTooLong r' behind -> cryptoTooLong pre behind.
Proof. intros [a ->] [a' ->] (p & b & r1 & o & r2 & n & r3 & -> & H). exists (a ++ a' ++ p), b, r1, o, r2, n, r3. by rewrite <- !app_assoc. Qed.

Lemma readVarint_suffix r n r' : readVarint r = Ok (n, r') -> exists a, r = a ++ r'.
Proof.
  unfold readVarint. destruct r as [|b1 r]; [done|]. cbn [ReadByte mbind result_bind]. destruct (_ =? 1); [intros [= _ <-]; by exists [b1]|]. destruct r as [|b2 r]; [done|]. cbn [ReadByte mbind result_bind].
  destruct (_ =? 2); [intros [= _ <-]; by exists [b1; b2]|]. destruct r as [|b3 [|b4 r]]; [done|done|]. cbn [ReadByte mbind result_bind]. destruct (_ =? 4); [intros [= _ <-]; by exists [b1; b2; b3; b4]|].
  destruct r as [|b5 [|b6 [|b7 [|b8 r]]]]; try done. cbn [ReadByte mbind result_bind]. intros [= _ <-]. by exists [b1; b2; b3; b4; b5; b6; b7; b8].
Qed.

Lemma suffix_trans (a b c : bytes) : (exists x, a = x ++ b) -> (exists x, b = x ++ c) -> exists x, a = x ++ c.
Proof. intros [x ->] [y ->]. exists (x ++ y). by rewrite app_assoc. Qed.

Lemma readMany_suffix {A} (read : bytes -> result (A * bytes)) : (forall r x r', read r = Ok (x, r') -> exists a, r = a ++ r') ->
  forall fuel n r xs r', readMany read fuel n r = Ok (xs, r') -> exists a, r = a ++ r'.
Proof.
  intros Hr. induction fuel as [|fuel IH]; intros n r xs r'; cbn [readMany]; (destruct (n <=? 0); [intros [= _ <-]; by exists []|]); [done|]. destruct (read r) as [[x r1]|] eqn:E; cbn [mbind result_bind]; [|done].
  destruct (readMany read fuel (n - 1) r1) as [[ys r2]|] eqn:E2; cbn; [|done]. intros [= _ <-]. apply (suffix_trans _ r1); [by eapply Hr|by eapply IH].
Qed.

Lemma readRange2_suffix r x r' : readRange2 r = Ok (x, r') -> exists a, r = a ++ r'.
Proof.
  unfold readRange2. destruct (readVarint r) as [[a r1]|] eqn:E1; cbn; [|done]. destruct (readVarint r1) as [[b r2]|] eqn:E2; cbn; [|done]. intros [= _ <-]. apply (suffix_trans _ r1); by eapply readVarint_suffix.
Qed.

Ltac varintS := match goal with |- context [readVarint ?r] => let H := fresh "Hs" in pose proof (readVarint_suffix r) as H; destruct (readVarint r) as [[? ?]|?]; [specialize (H _ _ eq_refl)|done] end; cbn [mbind result_bind outcome_bind orReturn].

(** Along the suffixes, one after the other *)
Ltac suffixes := repeat match goal with Hs : exists x, ?r = x ++ ?r1 |- exists x, ?r = x ++ ?r2 => first [exact Hs|apply (suffix_trans r r1 r2 Hs); clear Hs] end.

Lemma skipAck_suffix t r r' : skipAck t r = Ok r' -> exists a, r = a ++ r'.
Proof.
  unfold skipAck. do 4 varintS. unfold ReadMany. destruct (readMany _ _ _ _) as [[xs r5]|] eqn:E; cbn [mbind result_bind]; [|done]. apply (readMany_suffix _ readRange2_suffix) in E.
  assert (Hr5 : exists a, r = a ++ r5) by suffixes. clear Hs Hs0 Hs1 Hs2 E. destruct (_ =? _); [|intros [= <-]; done].
  do 3 varintS. intros [= <-]. suffixes.
Qed.

(** The loop over the frames ends; the fragments are in range. *)
Lemma frameLoop_only fuel : forall r behind types fragments, (length r < fuel)%nat -> Forall inRange62 fragments ->
  match frameLoop fuel r behind types fragments with
  | Returns (types', frs) => Forall inRange62 frs /\ (types' = types -> frs = fragments) /\ (length types <= length types')%nat
  | Fails _ => True
  | Panics => cryptoTooLong r behind
  | Hangs => False
  end.
Proof.
  induction fuel as [|fuel IH]; intros r behind types fragments Hf Hfr; [lia|]. cbn [frameLoop]. destruct r as [|b r]; [by split_and!|]. cbn [length] in Hf.
  assert (Hstep : forall r' frs', (exists a, b :: r = a ++ r') -> (length r' <= length r)%nat -> Forall inRange62 frs' -> match frameLoop fuel r' behind (types ++ [byteZ b]) frs' with
    | Returns (types', frs) => Forall inRange62 frs /\ (types' = types -> frs = fragments) /\ (length types <= length types')%nat | Fails _ => True | Panics => cryptoTooLong (b :: r) behind | Hangs => False end).
  { intros r' frs' Hsuf Hl Hfr'. specialize (IH r' behind (types ++ [byteZ b]) frs' ltac:(lia) Hfr'). destruct (frameLoop fuel r' behind (types ++ [byteZ b]) frs') as [[types' frs]|e| |]; try done.
    - destruct IH as (H1 & _ & H3). rewrite length_app in H3. cbn in H3. split_and!; [done| |lia]. intros ->. lia.
    - apply (suffix_longer _ (b :: r) r'); [by exists []|done|done]. }
  destruct (_ || _); [apply Hstep; [by exists [b]|lia|done]|]. destruct (_ || _).
  { pose proof (skipAck_shorter (byteZ b) r) as Hk. pose proof (skipAck_suffix (byteZ b) r) as Hs. destruct (skipAck (byteZ b) r) as [r'|]; [|done]. cbn [orReturn mbind outcome_bind]. apply Hstep; [|lia|done]. destruct (Hs r' eq_refl) as [a ->]. by exists (b :: a). }
  destruct (Z.eqb_spec (byteZ b) frameTypeCrypto) as [Eb|].
  { pose proof (readVarint_range r) as R1. destruct (readVarint r) as [[offset r1]|] eqn:E1; [|done]. cbn [orReturn mbind outcome_bind]. pose proof (readVarint_range r1) as R2. destruct (readVarint r1) as [[n r2]|] eqn:E2; [|done]. cbn [orReturn mbind outcome_bind].
    destruct (Z.ltb_spec (lenZ r2 + lenZ behind) n); [exists [], b, r, offset, r1, n, r2; done|]. apply Hstep; [|rewrite length_drop; lia|].
    - apply (suffix_trans _ r); [by exists [b]|]. apply (suffix_trans _ r1); [by eapply readVarint_suffix|]. apply (suffix_trans _ r2); [by eapply readVarint_suffix|]. exists (take (Z.to_nat n) r2). by rewrite take_drop.
    - apply Forall_app. split; [done|]. constructor; [|done]. unfold inRange62. cbn. lia. }
  destruct (_ =? frameTypeConnectionClose); [|done].
  pose proof (readVarint_range r) as R1. destruct (readVarint r) as [[code r1]|] eqn:E1; [|done]. cbn [orReturn mbind outcome_bind]. pose proof (readVarint_range r1) as R2. destruct (readVarint r1) as [[ty r2]|] eqn:E2; [|done]. cbn [orReturn mbind outcome_bind].
  pose proof (readVarint_range r2) as R3. destruct (readVarint r2) as [[n3 r3]|] eqn:E3; [|done]. cbn [orReturn mbind outcome_bind]. apply Hstep; [|rewrite length_drop; lia|done].
  apply (suffix_trans _ r); [by exists [b]|]. apply (suffix_trans _ r1); [by eapply readVarint_suffix|]. apply (suffix_trans _ r2); [by eapply readVarint_suffix|]. apply (suffix_trans _ r3); [by eapply readVarint_suffix|]. exists (take (Z.to_nat n3) r3). by rewrite take_drop.
Qed.

(** *** The loop over the fragments *)

Lemma filter_fewer {A} (P Q : A -> Prop) `{!forall x, Decision (P x), !forall x, Decision (Q x)} (l : list A) x : (forall y, Q y -> P y) -> x ∈ l -> P x -> ~ Q x -> (length (filter Q l) < length (filter P l))%nat.
Proof.
  intros Hsub Hx HP HQ. assert (Hle : forall l', (length (filter Q l') <= length (filter P l'))%nat).
  { induction l' as [|y l' IH]; [done|]. rewrite !filter_cons. destruct (decide (Q y)) as [q|]; [rewrite decide_True by auto; cbn; lia|]. destruct (decide (P y)); cbn; lia. }
  induction l as [|y l IH]; [by apply not_elem_of_nil in Hx|]. rewrite !filter_cons. apply elem_of_cons in Hx as [<-|Hx].
  - rewrite decide_False, (decide_True (P := P x)) by done. cbn. specialize (Hle l). lia.
  - specialize (IH Hx). destruct (decide (Q y)) as [q|]; [rewrite decide_True by auto; cbn; lia|]. destruct (decide (P y)); cbn; lia.
Qed.

(** With no empty fragment every one is used once at most. *)
Lemma assemble_ends frs capacity : Forall inRange62 frs -> (forall f, f ∈ frs -> fragLength f <> 0) -> forall fuel index buffer, (length (filter (fun f => (index <= fragOffset f)%Z) frs) < fuel)%nat ->
  exists b, assembleFragments fuel frs capacity index buffer = Returns b.
Proof.
  intros Hr Hpos. induction fuel as [|fuel IH]; intros index buffer Hf; [lia|]. cbn [assembleFragments]. pose proof (find_offset frs index) as Hfind. destruct (List.find _ frs) as [f|]; [|by eexists]. destruct Hfind as [Hin Hi].
  destruct (proj1 (Forall_forall _ _) Hr f Hin) as [R1 R2]. specialize (Hpos f Hin). rewrite wrap_id by (unfold fits; lia). apply IH.
  enough (length (filter (fun g => (fragOffset f + fragLength f <= fragOffset g)%Z) frs) < length (filter (fun g => (index <= fragOffset g)%Z) frs))%nat by lia.
  apply (filter_fewer _ _ frs f); [|done|lia|lia]. intros y Hy. lia.
Qed.

(** The record that the fragments make *)
Definition assembled (frs : list qCryptoFragment) : sniff bytes := assembleFragments (S (length frs)) frs (5 + frameLen frs) 0 ([x16] ++ bigEndian 2 0x0303 ++ bigEndian 2 (u16 (frameLen frs))).

Lemma assembled_only frs : Forall inRange62 frs -> match assembled frs with Returns _ => True | Hangs => exists f, f ∈ frs /\ fragLength f = 0 | _ => False end.
Proof.
  intros Hr. destruct (decide (Exists (fun f => fragLength f = 0) frs)) as [He|Hn].
  - apply Exists_exists in He as (f & Hf & Hz). unfold assembled. generalize (S (length frs)) as fuel. generalize (5 + frameLen frs) as capacity. generalize 0 at 1 as index. generalize ([x16] ++ bigEndian 2 0x0303 ++ bigEndian 2 (u16 (frameLen frs))) as buffer.
    intros buffer index capacity fuel. revert buffer index. induction fuel as [|fuel IH]; intros buffer index; [by exists f|]. cbn [assembleFragments]. destruct (List.find _ frs); [apply IH|done].
  - destruct (assemble_ends frs (5 + frameLen frs) Hr) with (fuel := S (length frs)) (index := 0) (buffer := [x16] ++ bigEndian 2 0x0303 ++ bigEndian 2 (u16 (frameLen frs))) as [b Hb].
    + intros f Hf Hz. apply Hn, Exists_exists. by exists f.
    + pose proof (length_filter (fun f => (0 <= fragOffset f)%Z) frs). lia.
    + unfold assembled. by rewrite Hb.
Qed.

(** *** The whole sniffer *)

(** What is held back is in range and was no client hello yet. *)
Definition contextOk (metadata : SniffState) : Prop :=
  Forall inRange62 (heldBack metadata) /\ (forall b, assembled (heldBack metadata) = Returns b -> exists e, ComputeJa3 b = Fails e).

Lemma contextOk_none p d c : contextOk (mkSniffState p d c None).
Proof. split; [constructor|]. intros b [= <-]. by eexists. Qed.

Lemma assembled_context metadata fragments : contextOk metadata -> Forall inRange62 fragments -> Forall inRange62 (fragments ++ heldBack metadata).
Proof. intros [H1 _] H2. by apply Forall_app. Qed.

Lemma orReturn_only {A B} (r : result A) (f : A -> sniff B) P : (forall a, onlyPanics (f a) P) -> onlyPanics (a ← orReturn r; f a) P.
Proof. intros Hf. destruct r; [apply Hf|done]. Qed.

Lemma readHeader_only packet : onlyPanics (readHeader packet) False.
Proof.
  unfold readHeader. apply orReturn_only. intros [ty r]. destruct (_ =? 0); [done|]. apply orReturn_only. intros [v r1]. destruct (_ && _); [done|]. cbv zeta. destruct (_ || _); [done|]. apply orReturn_only. intros [n r2]. destruct (_ || _); [done|].
  do 6 (apply orReturn_only; intros ?; repeat match goal with p : _ * _ |- _ => destruct p end). done.
Qed.

Section contained.
Context `{CryptoLaws}.

Lemma quicPayload_only packet : onlyPanics (quicPayload packet) False.
Proof.
  destruct packet as [|b packet]; [done|]. unfold quicPayload. pose proof (readHeader_only (b :: packet)) as Hh. destruct (readHeader (b :: packet)) as [[[[[v d] n] hl] r]|e| |]; try done. clear Hh. cbn [mbind outcome_bind].
  destruct (_ <? _); [done|]. apply orReturn_only. intros r1. apply orReturn_only. intros [pn r2]. cbv zeta. cbn [mbind outcome_bind]. set (mask := aesEncrypt _ pn). assert (Hm : length mask = 16%nat) by apply aesEncrypt_length. destruct mask as [|m0 ms]; [done|]. cbn [mbind outcome_bind].
  destruct (_ <? _); [done|]. by destruct (xorNonceOpen _ _ _ _ _).
Qed.

Lemma quicFrames_only packet : match quicFrames packet with
  | Returns (types, frs) => Forall inRange62 frs /\ (types = [] -> frs = [])
  | Fails _ => True
  | Panics => exists plain behind, quicPayload packet = Returns (plain, behind) /\ cryptoTooLong plain behind
  | Hangs => False
  end.
Proof.
  unfold quicFrames. pose proof (quicPayload_only packet) as Hp. destruct (quicPayload packet) as [[plain behind]|e| |]; try done. cbn [mbind outcome_bind]. pose proof (frameLoop_only (S (length plain)) plain behind [] [] ltac:(lia) ltac:(constructor)) as Hl.
  destruct (frameLoop _ plain behind [] []) as [[types frs]|e| |]; try done; [tauto|]. by exists plain, behind.
Qed.

Lemma finishHello_only metadata types fragments : contextOk metadata -> Forall inRange62 fragments -> (types = [] -> fragments = []) ->
  let r := finishHello metadata types fragments in
  contextOk r.2 /\
  match r.1 with
  | Returns _ | Fails _ => True
  | Panics => exists b, assembled (fragments ++ heldBack metadata) = Returns b /\ hasOverrun b
  | Hangs => exists f, f ∈ fragments ++ heldBack metadata /\ fragLength f = 0
  end.
Proof.
  intros Hc Hf Ht. pose proof (assembled_context _ _ Hc Hf) as Hr. pose proof (assembled_only _ Hr) as Ha. unfold finishHello. rewrite finish_fragments. set (frs := fragments ++ heldBack metadata) in *.
  change (assembleFragments _ frs _ 0 _) with (assembled frs). destruct (assembled frs) as [b|e| |] eqn:E; try done. pose proof (compute_only b) as Hb. destruct (ComputeJa3 b) as [fp|e| |] eqn:Ej; try done.
  - destruct types as [|t ts].
    { exfalso. assert (frs = heldBack metadata) as Efr by (unfold frs; by rewrite Ht). rewrite Efr in E. destruct Hc as [_ Hc]. destruct (Hc b E) as [e He]. congruence. }
    destruct (String.eqb _ _); [|split; [apply contextOk_none|done]]. destruct (quicClient_returns (t :: ts) fp ltac:(done)) as [c ->]. split; [apply contextOk_none|done].
  - split; [|done]. split; [done|]. intros b' Eb. exists e. change (assembled frs = Returns b') in Eb. rewrite E in Eb. injection Eb as <-. done.
  - split; [apply contextOk_none|]. by exists b.
Qed.
End contained.
