(* ===== verification/QuicClaims.v ===== *)
(** * The QUIC sniffer: what holds

    A client hello is found in whatever packets its pieces come; and what a hostile packet can
    do. *)

From S2P Require Import Prelude Binary Context Sniff Ja3 QuicSniff QuicPacket QuicSniffSpec.

Section claims.
Context `{CryptoLaws}.

(** C32. A well-formed client hello whose last server name extension is name, cut into
    pieces that are not empty and sent in CRYPTO frames of well-formed initial packets
    of any of the three versions, in any order, mixed with other frames and with bytes
    behind them, the last datagram carrying a piece, to a sniffer that holds nothing
    back yet: the QUIC sniffer asks for more data on every datagram before the last,
    then reports QUIC, the name and the client. *)
Theorem quic_hello_sniffed h es1 name es2 cs front last metadata :
  helloOk h -> hExtensions h = es1 ++ ServerNameExt name :: es2 -> (forall n, ServerNameExt n ∉ es2) ->
  concat cs = helloBytes h -> Forall (fun c => c <> []) cs ->
  Forall datagramOk (front ++ [last]) -> concat (cryptoOf <$> (front ++ [last])) ≡ₚ fragmentsFrom 0 cs -> cryptoOf last <> [] ->
  SniffContext metadata = None ->
  exists os client, sniffPackets metadata (wire <$> (front ++ [last])) = (os ++ [Returns ()], mkSniffState "quic" (bytesString name) client None) /\
    length os = length front /\ Forall needsMore os /\ clientFrom (sClient metadata) (frameType <$> dFrames last) h client.
Proof.
  intros Hh Hext Hno Hcs Hne Hok Hperm Hlast Hctx. apply Forall_app in Hok as [Hfront Hl]. apply Forall_cons_iff in Hl as [Hl _]. rewrite fmap_app, concat_app in Hperm. cbn [fmap list_fmap concat] in Hperm. rewrite app_nil_r in Hperm.
  assert (Hb : heldBack metadata = []) by (unfold heldBack; by rewrite Hctx). destruct (sniffPackets_front h cs front Hh Hne Hcs metadata (cryptoOf last) Hfront) as (os & m & E & Hos & Hlen & Hheld & Hcl); [by rewrite Hb|done|].
  rewrite fmap_app, sniffPackets_app, E. cbn [fst snd fmap list_fmap sniffPackets]. unfold QUICClientHello. rewrite quicFrames_written by done.
  destruct (finish_complete h Hh cs Hne Hcs m (frameType <$> dFrames last) (cryptoOf last)) as (client & -> & Hclient); [|by intros Hn%fmap_nil_inv; apply Hlast; unfold cryptoOf; rewrite Hn|].
  { rewrite Hheld, Hb. cbn [app]. rewrite <- Hperm. apply Permutation_app_comm. }
  rewrite Hcl in Hclient. exists os, client. split_and!; try done. cbn [fst snd]. do 3 f_equal. unfold fingerprint. rewrite Hext. by apply fingerprint_name.
Qed.

(** C33.  Whatever a datagram holds, the sniffer ends and does not panic, except for three
    reasons: it does not end only if there is a CRYPTO frame of no bytes, and it panics only if
    a CRYPTO frame is longer than the rest of the datagram, or if the hello has a list of
    versions or of signature algorithms that is longer than its extension.  The fragments it
    holds back keep this for the next datagram. *)
Theorem quic_contained metadata packet : contextOk metadata ->
  contextOk (QUICClientHello metadata packet).2 /\
  match (QUICClientHello metadata packet).1 with
  | Returns _ | Fails _ => True
  | Hangs => exists types frs f, quicFrames packet = Returns (types, frs) /\ f ∈ frs ++ heldBack metadata /\ fragLength f = 0
  | Panics =>
      (exists plain behind, quicPayload packet = Returns (plain, behind) /\ cryptoTooLong plain behind) \/
      (exists types frs b, quicFrames packet = Returns (types, frs) /\ assembled (frs ++ heldBack metadata) = Returns b /\ hasOverrun b)
  end.
Proof.
  intros Hc. unfold QUICClientHello. pose proof (quicFrames_only packet) as Hq. destruct (quicFrames packet) as [[types frs]|e| |] eqn:E; cbn [fst snd]; [|done|by split; [|left]|done].
  destruct Hq as [Hr Ht]. pose proof (finishHello_only metadata types frs Hc Hr Ht) as Hf. cbv zeta in Hf. destruct Hf as [H1 H2]. split; [done|]. destruct (finishHello metadata types frs).1 as [u|e| |]; try done.
  - right. destruct H2 as (b & Hb & Ho). by exists types, frs, b.
  - destruct H2 as (f & Hf & Hz). by exists types, frs, f.
Qed.
End claims.

(** ** Instances *)

(** A cipher that is enough for an example: the tag is sixteen zeros. *)
Definition plainCrypto : Crypto := {|
  hkdfExtract := fun secret salt => take 4 (secret ++ salt);
  hkdfExpand := fun secret info n => replicate n x07;
  aesEncrypt := fun key block => replicate 16 x5a;
  gcmOpen := fun key nonce data additional => let n := (length data - 16)%nat in if decide ((16 <= length data)%nat /\ drop n data = replicate 16 x00) then Some (take n data) else None;
|}.

Lemma plain_open (plain : bytes) : @gcmOpen plainCrypto [] [] (plain ++ replicate 16 x00) [] = Some plain.
Proof.
  cbn. rewrite length_app. cbn [length]. replace (length plain + 16 - 16)%nat with (length plain) by lia. rewrite drop_app_length, take_app_length. by rewrite decide_True by (split; [lia|done]).
Qed.

#[local] Existing Instance plainCrypto.

#[local] Instance plainLaws : CryptoLaws.
Proof.
  refine {| gcmSeal := fun key nonce plain additional => plain ++ replicate 16 x00 |}.
  - intros key nonce plain additional. apply plain_open.
  - intros key nonce plain additional. by rewrite length_app.
  - done.
Defined.

Definition aHello : hello := mkHello 0x0303 (replicate 32 x11) [] [0x1301; 0x1302] [x00] [GroupsExt [29; 23]; ServerNameExt [x61; x2e; x62]; VersionsExt [0x0304]; SignaturesExt [0x0403]; OtherExt 16 [x00]].

Definition firstPiece : bytes := take 30 (helloBytes aHello).
Definition secondPiece : bytes := drop 30 (helloBytes aHello).

Definition aPacket (version number : Z) (frames : list frame) : datagram :=
  mkDatagram (mkInitial version (replicate 8 x42) [x01; x02] [] number 2 (framesBytes frames)) frames [xff; xff].

(** The second piece comes first. *)
Definition laterPiece : datagram := aPacket Version2 1 [PingFrame; CryptoFrame 30 secondPiece; AckFrame 5 0 0 [(1, 2)] (Some (1, 1, 1)); PaddingFrame].
Definition earlierPiece : datagram := aPacket Version2 0 [CryptoFrame 0 firstPiece; PaddingFrame; CloseFrame 0 0 [x41]].

Definition nothingYet : SniffState := mkSniffState "" "" "" None.

Lemma aHello_ok : helloOk aHello.
Proof.
  constructor; [done|done|done|repeat constructor; done|done| |done]. repeat constructor; try done. cbn. intros Hn. repeat (apply elem_of_cons in Hn as [Hn|Hn]; [done|]). by apply not_elem_of_nil in Hn.
Qed.

Lemma pieces_sent : Forall datagramOk [laterPiece; earlierPiece].
Proof.
  apply Forall_cons. split; [|apply Forall_cons; split; [|constructor]].
  all: split_and!; [constructor; [right; by right|done|done|done|split; [cbn; lia|done]|done|done]|done|repeat constructor; done].
Qed.

Lemma quic_hello_sniffed_witness : exists os client, sniffPackets nothingYet (wire <$> ([laterPiece] ++ [earlierPiece])) = (os ++ [Returns ()], mkSniffState "quic" (bytesString [x61; x2e; x62]) client None) /\
  length os = 1%nat /\ Forall needsMore os /\ clientFrom "" (frameType <$> dFrames earlierPiece) aHello client.
Proof.
  apply (quic_hello_sniffed aHello [GroupsExt [29; 23]] [x61; x2e; x62] [VersionsExt [0x0304]; SignaturesExt [0x0403]; OtherExt 16 [x00]] [firstPiece; secondPiece] [laterPiece] earlierPiece nothingYet).
  - exact aHello_ok.
  - done.
  - intros n Hn. repeat (apply elem_of_cons in Hn as [Hn|Hn]; [done|]). by apply not_elem_of_nil in Hn.
  - done.
  - by repeat constructor.
  - exact pieces_sent.
  - apply perm_swap.
  - done.
  - done.
Defined.

Lemma quic_contained_witness : contextOk (QUICClientHello nothingYet (wire laterPiece)).2 /\ ends (QUICClientHello nothingYet (wire laterPiece)).1.
Proof.
  pose proof (quic_contained nothingYet (wire laterPiece) (contextOk_none "" "" "")) as [H1 _]. split; [exact H1|]. by vm_compute.
Defined.

(** ** Hostile packets *)

(** A CRYPTO frame of no bytes at the offset 0: the loop that puts the fragments together never
    ends, with any number of rounds. *)
Example empty_crypto_hangs : (QUICClientHello nothingYet (wire (aPacket Version1 0 [CryptoFrame 0 []; PaddingFrame]))).1 = Hangs /\
  quicFrames (wire (aPacket Version1 0 [CryptoFrame 0 []; PaddingFrame])) = Returns ([6; 0], [mkFragment 0 0 []]) /\
  forall fuel capacity buffer, assembleFragments fuel [mkFragment 0 0 []] capacity 0 buffer = Hangs.
Proof. split_and!; [by vm_compute|by vm_compute|]. intros fuel. induction fuel as [|fuel IH]; intros capacity buffer; [done|]. apply IH. Qed.

(** A CRYPTO frame with a length of 16383 bytes, and one byte behind it *)
Example long_crypto_panics : (QUICClientHello nothingYet (packetOf (mkInitial Version1 (replicate 8 x42) [] [] 0 2 [x06; x00; x7f; xff; x01]) [])).1 = Panics.
Proof. by vm_compute. Qed.

(** A hello whose list of versions, or of signature algorithms, is longer than the extension *)
Definition shortList (ty : Z) (body : bytes) : hello := mkHello 0x0303 (replicate 32 x11) [] [0x1301] [x00] [OtherExt ty body].

Example short_versions_panics : (QUICClientHello nothingYet (wire (aPacket Version1 0 [CryptoFrame 0 (helloBytes (shortList versionExtensionType [x04]))]))).1 = Panics /\
  (QUICClientHello nothingYet (wire (aPacket Version1 0 [CryptoFrame 0 (helloBytes (shortList signatureAlgorithmsExtensionType [x00; x04]))]))).1 = Panics.
Proof. split; by vm_compute. Qed.
