(* ===== verification/Sniffers.v ===== *)
(** * The other sniffers ([common/sniff])

    The sniffers of streams and packets besides QUIC.  The parsers they call in the standard
    library and in the DNS library are an interface. *)

From S2P Require Import Prelude Binary Netip Context RuleActions Sniff.

(** What [Unpack] of the DNS library finds in a message *)
Record DNSMsg := mkDNSMsg { msgResponse : bool; msgQuestion : nat; msgAnswer : nat; msgNs : nat }.

(** An error of a parser, and whether it is [io.ErrUnexpectedEOF] *)
Record ParseFailure := mkParseFailure { parseText : error; unexpectedEOF : bool }.

Class Parsers := {
  Msg_Unpack : bytes -> result DNSMsg;
  (** the handshake of a TLS server with a stream: the server name of the client hello, if one
      was read, and the error *)
  tls_Handshake : bytes -> option string * ParseFailure;
  (** [http.ReadRequest]: the host *)
  http_ReadRequest : bytes -> ParseFailure + string;
  net_SplitHostPort : string -> result (string * string);
  Addr_String : Addr -> string;
}.

(** A read whose error asks for more data *)
Definition orNeedMore {A} (r : result A) : sniff A := match r with Ok a => Returns a | Err e => Fails (needMoreData e) end.

(** [Read] of an [io.MultiReader]: from the first reader that has something *)
Fixpoint multiRead (n : nat) (readers : list bytes) : bytes * option error * list bytes :=
  match readers with
  | [] => ([], Some EOF, [])
  | [] :: rest => multiRead n rest
  | c :: rest => (take n c, None, drop n c :: rest)
  end.

(** [binary.BigEndian.Uint16(packet[i:j])] and the like *)
Definition uintAt (packet : bytes) (i j : Z) : sniff Z := b ← slice packet i j; Returns (fromBigEndian b).

(** [M.ParseSocksaddr(host).AddrString()] *)
Definition ParseSocksaddrString `{External, Parsers} (address : string) : string :=
  let ap := match net_SplitHostPort address with Err _ => ParseSocksaddrHostPort address 0 | Ok (host, _) => ParseSocksaddrHostPort host 0 end in
  if netip.IsValid (Addr_ ap) then Addr_String (Addr_ ap) else Fqdn ap.

Module Sniffer.
Section sniffer.
Context `{External} `{Parsers}.

(** ** Streams *)

Definition TLSClientHello (metadata : InboundContext) (readers : list bytes) : sniff InboundContext :=
  match tls_Handshake (concat readers) with
  | (Some serverName, _) => Returns (setDomain (setProtocol metadata "tls") serverName)
  | (None, e) => Fails (if unexpectedEOF e then needMoreData (parseText e) else failure (parseText e))
  end.

Definition HTTPHost (metadata : InboundContext) (readers : list bytes) : sniff InboundContext :=
  match http_ReadRequest (concat readers) with
  | inl e => Fails (if unexpectedEOF e then needMoreData (parseText e) else failure (parseText e))
  | inr host => Returns (setDomain (setProtocol metadata "http") (ParseSocksaddrString host))
  end.

Definition DomainNameQuery (metadata : InboundContext) (packet : bytes) : sniff InboundContext :=
  match Msg_Unpack packet with
  | Err e => Fails (failure e)
  | Ok msg =>
      if msgResponse msg || (msgQuestion msg =? 0)%nat || (0 <? msgAnswer msg)%nat || (0 <? msgNs msg)%nat then Returns metadata
      else Returns (setProtocol metadata "dns")
  end.

(** ANCOUNT and NSCOUNT, as far as they have come *)
Fixpoint countsZero (k : nat) (i : Z) (packet : bytes) : sniff bool :=
  match k with
  | O => Returns true
  | S k =>
      if i <? lenZ packet then
        b ← at8 packet i;
        if negb (b =? 0) then Returns false else countsZero k (i + 1) packet
      else countsZero k (i + 1) packet
  end.

(** The checks of what has come: a response, no question, or answers *)
Definition notQuery (packet : bytes) : sniff bool :=
  let n := lenZ packet in
  response ← (if 2 <? n then b ← at8 packet 2; Returns (negb (Z.land b 0x80 =? 0)) else Returns false);
  if response : bool then Returns true
  else
    noQuestion ← (if 5 <? n then b ← at8 packet 4; c ← at8 packet 5; Returns ((b =? 0) && (c =? 0)) else Returns false);
    if noQuestion : bool then Returns true
    else
      zero ← countsZero 4 6 packet;
      Returns (negb zero).

Definition StreamDomainNameQuery (metadata : InboundContext) (readers : list bytes) : sniff InboundContext :=
  '(length_, r) ← orNeedMore (ReadUint 2 (concat readers));
  if length_ <? 12 then Fails ErrInvalid
  else
    let packet := take (Z.to_nat length_) r in
    bad ← notQuery packet;
    if bad : bool then Fails ErrInvalid
    else
      '(_, _) ← orNeedMore (ReadFull (Z.to_nat length_) r);
      DomainNameQuery metadata packet.

Definition torrentHeader : bytes := stringBytes "BitTorrent protocol".

Definition BitTorrent (metadata : InboundContext) (readers : list bytes) : sniff InboundContext :=
  match multiRead 1 readers with
  | (first :: _, _, readers) =>
      if negb (byteZ first =? 19) then Fails ErrInvalid
      else
        let '(protocol, err, _) := multiRead 19 readers in
        if negb (bool_decide (protocol = take (length protocol) torrentHeader)) then Fails ErrInvalid
        else
          match err with
          | Some e => Fails (needMoreData e)
          | None => if (length protocol <? 19)%nat then Fails [mkSniffFailure "need more data" true] else Returns (setProtocol metadata "bittorrent")
          end
  | (_, e, _) => Fails (needMoreData (default EOF e))
  end.

Definition sshPrefix : bytes := stringBytes "SSH-2.0-".

(** [ReadLine] of a [bufio.Reader] of 4096 bytes from which nothing was taken; a line that is
    not complete ends with the stream or with the buffer. *)
Definition bufferSize : nat := 4096.

Definition firstLine (data : bytes) : bytes :=
  let buffer := take bufferSize data in
  match list_find (fun b => b = x0a) buffer with
  | Some (k, _) => let line := take k buffer in if bool_decide (last line = Some x0d) then removelast line else line
  | None => if (length data <? bufferSize)%nat then buffer else if bool_decide (last buffer = Some x0d) then removelast buffer else buffer
  end.

Definition SSH (metadata : InboundContext) (readers : list bytes) : sniff InboundContext :=
  let data := concat readers in
  let prefix := take (length sshPrefix) data in
  if negb (bool_decide (prefix = take (length prefix) sshPrefix)) then Fails ErrInvalid
  else if (length data <? length sshPrefix)%nat then Fails (needMoreData EOF)
  else
    client ← sliceFrom (firstLine data) 8;
    Returns (setClient (setProtocol metadata "ssh") (bytesString client)).

(** A byte that has to have a value *)
Definition expectByte (v : Z) (r : bytes) : sniff (Z * bytes) :=
  '(b, r) ← orNeedMore (ReadByte r);
  if negb (b =? v) then Fails ErrInvalid else Returns (b, r).

(** [rw.SkipN] *)
Definition SkipN (n : nat) (r : bytes) : sniff (bytes * bytes) := orNeedMore (if (length r <? n)%nat then Err EOF else Ok (take n r, drop n r)).

Definition RDP (metadata : InboundContext) (readers : list bytes) : sniff InboundContext :=
  '(_, r) ← expectByte 0x03 (concat readers);
  '(_, r) ← expectByte 0x00 r;
  '(tpktLength, r) ← orNeedMore (ReadUint 2 r);
  if negb (tpktLength =? 19) then Fails ErrInvalid
  else
    '(_, r) ← expectByte 14 r;
    '(_, r) ← expectByte 0xE0 r;
    '(_, r) ← SkipN 5 r;
    '(_, r) ← expectByte 0x01 r;
    '(_, r) ← orNeedMore (ReadByte r);
    '(_, r) ← expectByte 8 r;
    Returns (setProtocol metadata "rdp").

(** ** Packets *)

(** The extensions of a uTP packet: each round reads a byte at least. *)
Fixpoint utpExtensions (fuel : nat) (extension : Z) (r : bytes) : sniff () :=
  if extension =? 0 then Returns ()
  else
    match fuel with
    | O => Hangs
    | S fuel =>
        '(extension, r) ← orReturn (ReadByte r);
        if 0x04 <? extension then Fails ErrInvalid
        else
          '(length_, r) ← orReturn (ReadByte r);
          utpExtensions fuel extension (drop (Z.to_nat length_) r)
    end.

Definition UTP (metadata : InboundContext) (packet : bytes) : sniff InboundContext :=
  if lenZ packet <? 20 then Fails ErrInvalid
  else
    first ← at8 packet 0;
    let version := Z.land first 0x0F in
    let ty := Z.shiftr first 4 in
    if negb (version =? 1) || (4 <? ty) then Fails ErrInvalid
    else
      extension ← at8 packet 1;
      r ← sliceFrom packet 20;
      _ ← utpExtensions (S (length r)) extension r;
      Returns (setProtocol metadata "bittorrent").

Definition trackerProtocolID : Z := 0x41727101980.
Definition trackerConnectFlag : Z := 0.

Definition UDPTracker (metadata : InboundContext) (packet : bytes) : sniff InboundContext :=
  if lenZ packet <? 16 then Fails ErrInvalid
  else
    id ← uintAt packet 0 8;
    if negb (id =? trackerProtocolID) then Fails ErrInvalid
    else
      flag ← uintAt packet 8 12;
      if negb (flag =? trackerConnectFlag) then Fails ErrInvalid else Returns (setProtocol metadata "bittorrent").

Definition DTLSRecord (metadata : InboundContext) (packet : bytes) : sniff InboundContext :=
  if lenZ packet <? 13 then Fails ErrInvalid
  else
    contentType ← at8 packet 0;
    if negb (bool_decide (contentType ∈ [20; 21; 22; 23; 25])) then Fails ErrInvalid
    else
      versionMajor ← at8 packet 1;
      if negb (versionMajor =? 0xfe) then Fails ErrInvalid
      else
        versionMinor ← at8 packet 2;
        if negb (versionMinor =? 0xff) && negb (versionMinor =? 0xfd) then Fails ErrInvalid
        else Returns (setProtocol metadata "dtls").

(** The quotients by 65536.0 are exact, so they are above 16.0 when the numbers are above
    [16 * 65536]. *)
Definition NTP (metadata : InboundContext) (packet : bytes) : sniff InboundContext :=
  if lenZ packet <? 48 then Fails ErrInvalid
  else
    firstByte ← at8 packet 0;
    let li := Z.land (Z.shiftr firstByte 6) 0x03 in
    let vn := Z.land (Z.shiftr firstByte 3) 0x07 in
    let mode := Z.land firstByte 0x07 in
    if 3 <? li then Fails ErrInvalid
    else if negb (vn =? 3) && negb (vn =? 4) then Fails ErrInvalid
    else if negb (mode =? 3) then Fails ErrInvalid
    else
      rootDelay ← uintAt packet 4 8;
      rootDispersion ← uintAt packet 8 12;
      if 16 * 65536 <? rootDelay then Fails ErrInvalid
      else if 16 * 65536 <? rootDispersion then Fails ErrInvalid
      else Returns (setProtocol metadata "ntp").

Definition STUNMessage (metadata : InboundContext) (packet : bytes) : sniff InboundContext :=
  if lenZ packet <? 20 then Fails ErrInvalid
  else
    cookie ← uintAt packet 4 8;
    if negb (cookie =? 0x2112A442) then Fails ErrInvalid
    else
      n ← uintAt packet 2 4;
      if lenZ packet <? 20 + n then Fails ErrInvalid else Returns (setProtocol metadata "stun").
End sniffer.
End Sniffer.

(** ** As the router calls them *)

Section interface.
Context `{External} `{Parsers} (quic : InboundContext -> bytes -> sniff InboundContext).

Definition streamSniffer (s : StreamSniffer) : InboundContext -> list bytes -> sniff InboundContext :=
  match s with
  | TLSClientHello => Sniffer.TLSClientHello
  | HTTPHost => Sniffer.HTTPHost
  | StreamDomainNameQuery => Sniffer.StreamDomainNameQuery
  | BitTorrent => Sniffer.BitTorrent
  | SSH => Sniffer.SSH
  | RDP => Sniffer.RDP
  end.

Definition packetSniffer (s : PacketSniffer) : InboundContext -> bytes -> sniff InboundContext :=
  match s with
  | QUICClientHello => quic
  | DomainNameQuery => Sniffer.DomainNameQuery
  | STUNMessage => Sniffer.STUNMessage
  | UTP => Sniffer.UTP
  | UDPTracker => Sniffer.UDPTracker
  | DTLSRecord => Sniffer.DTLSRecord
  | NTP => Sniffer.NTP
  end.

(** A sniffer writes to the metadata only when it has succeeded. *)
Definition sniffed (o : sniff InboundContext) (metadata : InboundContext) : list SniffFailure * InboundContext :=
  match o with Returns metadata => ([], metadata) | Fails e => (e, metadata) | Panics | Hangs => (failure "panic", metadata) end.
End interface.
