(* ===== verification/SniffersSpec.v ===== *)
(** * What the sniffers do

    No sniffer panics or runs forever, whatever it reads; and a stream is recognised in whatever
    pieces it comes. *)

From S2P Require Import Prelude Binary Netip Conn Context RuleActions Concrete Sniff Sniffers.

#[export] Instance StreamSniffer_eq_dec : EqDecision StreamSniffer.
Proof. solve_decision. Defined.

(** ** Errors *)

Definition moreText : string := "need more data".

(** Only [ErrNeedMoreData] has its text. *)
Definition textual (err : list SniffFailure) : Prop := Forall (fun f => needsMoreData f = String.eqb (failureText f) moreText) err.

Lemma textual_needs err : textual err -> isNeedMoreData err = bool_decide (moreText ∈ failureText <$> err).
Proof.
  unfold isNeedMoreData. induction 1 as [|f err Hf _ IH]; [done|]. cbn [existsb]. rewrite IH, Hf, fmap_cons. destruct (String.eqb_spec (failureText f) moreText) as [E|E].
  - cbn. symmetry. apply bool_decide_eq_true. rewrite E. apply elem_of_cons. by left.
  - cbn [orb]. apply bool_decide_ext. rewrite elem_of_cons. split; [by right|]. by intros [?|?].
Qed.

Lemma UniqBy_texts t errs : forall seen, t ∉ seen -> t ∈ failureText <$> UniqBy seen errs <-> t ∈ failureText <$> errs.
Proof.
  induction errs as [|e errs IH]; intros seen Hs; [done|]. cbn [UniqBy]. rewrite fmap_cons, elem_of_cons. case_bool_decide as Hd.
  - rewrite IH by done. split; [by right|]. intros [->|?]; [done|done].
  - rewrite fmap_cons, elem_of_cons. destruct (decide (t = failureText e)) as [->|Hne]; [split; by left|]. rewrite IH; [done|]. by rewrite not_elem_of_cons.
Qed.

Lemma UniqBy_textual errs : forall seen, textual errs -> textual (UniqBy seen errs).
Proof. induction errs as [|e errs IH]; intros seen Ht; [done|]. apply Forall_cons_iff in Ht as [He Ht]. cbn [UniqBy]. case_bool_decide; [by apply IH|]. constructor; [done|by apply IH]. Qed.

Lemma Errors_more a b : textual a -> textual b -> textual (Errors [a; b]) /\ isNeedMoreData (Errors [a; b]) = isNeedMoreData a || isNeedMoreData b.
Proof.
  intros Ha Hb. assert (Hab : textual (concat [a; b])) by (cbn; rewrite app_nil_r; by apply Forall_app). pose proof (UniqBy_textual _ [] Hab) as Hu. split; [exact Hu|]. rewrite textual_needs by exact Hu. unfold Errors.
  rewrite (bool_decide_ext _ _ (UniqBy_texts moreText (concat [a; b]) [] (not_elem_of_nil _))). cbn [concat]. rewrite app_nil_r, fmap_app, (bool_decide_ext _ _ (elem_of_app _ _ _)), bool_decide_or. by rewrite !textual_needs.
Qed.

(** ** No sniffer panics *)

Lemma orNeedMore_ends {A B} (r : result A) (f : A -> sniff B) : (forall a, r = Ok a -> ends (f a)) -> ends (a ← orNeedMore r; f a).
Proof. destruct r as [a|e]; [|done]. intros Hf. by apply Hf. Qed.

Lemma orReturn_ends {A B} (r : result A) (f : A -> sniff B) : (forall a, r = Ok a -> ends (f a)) -> ends (a ← orReturn r; f a).
Proof. destruct r as [a|e]; [|done]. intros Hf. by apply Hf. Qed.

Lemma at8_ends {A} packet i (f : Z -> sniff A) : 0 <= i < lenZ packet -> (forall b, fits 8 b -> ends (f b)) -> ends (b ← at8 packet i; f b).
Proof. intros Hi Hf. destruct (at8_in (E := list SniffFailure) packet i Hi) as [x ->]. apply Hf, byteZ_fits. Qed.

Lemma uintAt_ends {A} packet i j (f : Z -> sniff A) : 0 <= i <= j -> j <= lenZ packet -> (forall z, ends (f z)) -> ends (z ← uintAt packet i j; f z).
Proof. intros Hi Hj Hf. unfold uintAt. destruct (slice_in (E := list SniffFailure) packet i j Hi Hj) as (b & -> & _). apply Hf. Qed.

#[local] Hint Resolve orNeedMore_ends orReturn_ends : core.

Lemma utpExtensions_ends fuel : forall extension r, (length r < fuel)%nat -> ends (Sniffer.utpExtensions fuel extension r).
Proof.
  induction fuel as [|fuel IH]; intros extension r Hf; [lia|]. cbn [Sniffer.utpExtensions]. destruct (_ =? 0); [done|]. destruct r as [|b r]; [done|]. cbn [ReadByte orReturn mbind outcome_bind]. destruct (_ <? byteZ b); [done|].
  destruct r as [|c r]; [done|]. cbn [ReadByte orReturn mbind outcome_bind length] in *. apply IH. rewrite length_drop. lia.
Qed.

Lemma countsZero_returns k : forall i packet, 0 <= i -> exists b, Sniffer.countsZero k i packet = Returns b.
Proof.
  induction k as [|k IH]; intros i packet Hi; [by eexists|]. cbn [Sniffer.countsZero]. destruct (Z.ltb_spec i (lenZ packet)); [|apply IH; lia].
  destruct (at8_in (E := list SniffFailure) packet i) as [x ->]; [lia|]. cbn [mbind outcome_bind]. destruct (negb _); [by eexists|apply IH; lia].
Qed.

Lemma notQuery_returns packet : exists b, Sniffer.notQuery packet = Returns b.
Proof.
  unfold Sniffer.notQuery. destruct (countsZero_returns 4 6 packet ltac:(lia)) as [z ->]. cbv zeta. destruct (Z.ltb_spec 2 (lenZ packet)) as [H2|H2].
  - destruct (at8_in (E := list SniffFailure) packet 2) as [x ->]; [lia|]. cbn [mbind outcome_bind]. destruct (negb _); [by eexists|]. destruct (Z.ltb_spec 5 (lenZ packet)); [|by eexists].
    destruct (at8_in (E := list SniffFailure) packet 4) as [y ->]; [lia|]. destruct (at8_in (E := list SniffFailure) packet 5) as [w ->]; [lia|]. cbn [mbind outcome_bind]. destruct (_ && _); by eexists.
  - rewrite (proj2 (Z.ltb_ge 5 _)) by lia. by eexists.
Qed.

Definition strip (line : bytes) : bytes := if bool_decide (last line = Some x0d) then removelast line else line.

Lemma strip_ssh c : strip (Sniffer.sshPrefix ++ c) = Sniffer.sshPrefix ++ strip c.
Proof.
  unfold strip. destruct c as [|x c]; [by rewrite app_nil_r|]. rewrite last_app_cons. destruct (bool_decide _); [|done]. by rewrite removelast_app.
Qed.

(** The first line of a client starts with the prefix, and nothing is cut from it. *)
Lemma firstLine_ssh rest : exists c, Sniffer.firstLine (Sniffer.sshPrefix ++ rest) = Sniffer.sshPrefix ++ c.
Proof.
  unfold Sniffer.firstLine. assert (E : take Sniffer.bufferSize (Sniffer.sshPrefix ++ rest) = Sniffer.sshPrefix ++ take 4088 rest) by by rewrite take_app_ge by (change (8 <= 4096)%nat; lia).
  rewrite E. set (r := take 4088 rest). rewrite list_find_app_r by done. destruct (list_find _ r) as [[k b]|]; cbn [fmap option_fmap option_map prod_map].
  - cbn [fst]. rewrite take_app_ge by lia. rewrite Nat.add_sub. fold (strip (Sniffer.sshPrefix ++ take k r)). rewrite strip_ssh. by eexists.
  - destruct (_ <? _)%nat; [by eexists|]. fold (strip (Sniffer.sshPrefix ++ r)). rewrite strip_ssh. by eexists.
Qed.

Section sniffers.
Context `{External} `{Parsers}.

Lemma DomainNameQuery_ends md packet : ends (Sniffer.DomainNameQuery md packet).
Proof. unfold Sniffer.DomainNameQuery. destruct (Msg_Unpack packet); [|done]. by destruct (_ || _). Qed.

Lemma StreamDomainNameQuery_ends md readers : ends (Sniffer.StreamDomainNameQuery md readers).
Proof.
  unfold Sniffer.StreamDomainNameQuery. apply orNeedMore_ends. intros [n r] _. destruct (n <? 12); [done|]. cbv zeta. destruct (notQuery_returns (take (Z.to_nat n) r)) as [b ->]. cbn [mbind outcome_bind]. destruct b; [done|].
  apply orNeedMore_ends. intros [? ?] _. apply DomainNameQuery_ends.
Qed.

Lemma BitTorrent_ends md readers : ends (Sniffer.BitTorrent md readers).
Proof.
  unfold Sniffer.BitTorrent. destruct (multiRead 1 readers) as [[[|first ?] e] rs]; [by destruct e|]. destruct (negb _); [done|]. destruct (multiRead 19 rs) as [[protocol e'] ?]. destruct (negb _); [done|]. destruct e'; [done|]. by destruct (_ <? _)%nat.
Qed.

(** A stream that starts like SSH *)
Lemma ssh_split data : take (length Sniffer.sshPrefix) data = take (length (take (length Sniffer.sshPrefix) data)) Sniffer.sshPrefix -> (length Sniffer.sshPrefix <= length data)%nat ->
  exists rest, data = Sniffer.sshPrefix ++ rest.
Proof. intros E Hl. exists (drop (length Sniffer.sshPrefix) data). rewrite <- (take_drop (length Sniffer.sshPrefix) data) at 1. f_equal. rewrite E, length_take_le by done. by rewrite take_ge. Qed.

Lemma SSH_ends md readers : ends (Sniffer.SSH md readers).
Proof.
  unfold Sniffer.SSH. case_bool_decide as E; [|done]. cbn [negb]. destruct (Nat.ltb_spec (length (concat readers)) (length Sniffer.sshPrefix)) as [|Hl]; [done|]. destruct (ssh_split _ E Hl) as [rest ->].
  destruct (firstLine_ssh rest) as [c ->]. destruct (sliceFrom_in (E := list SniffFailure) (Sniffer.sshPrefix ++ c) 8) as [-> _]; [rewrite lenZ_app; change (lenZ Sniffer.sshPrefix) with 8; pose proof (lenZ_nonneg c); lia|done].
Qed.

Lemma expectByte_ends {A} v r (f : Z * bytes -> sniff A) : (forall p, ends (f p)) -> ends (p ← Sniffer.expectByte v r; f p).
Proof. intros Hf. unfold Sniffer.expectByte. destruct r as [|b r]; [done|]. cbn [ReadByte orNeedMore mbind outcome_bind]. destruct (negb _); [done|]. apply Hf. Qed.

Lemma RDP_ends md readers : ends (Sniffer.RDP md readers).
Proof.
  unfold Sniffer.RDP. do 2 (apply expectByte_ends; intros [? ?]). apply orNeedMore_ends. intros [? ?] _. destruct (negb _); [done|]. do 2 (apply expectByte_ends; intros [? ?]). unfold Sniffer.SkipN. apply orNeedMore_ends. intros [? ?] _.
  apply expectByte_ends. intros [? ?]. apply orNeedMore_ends. intros [? ?] _. by apply expectByte_ends; intros [? ?].
Qed.

Lemma streamSniffer_ends s md readers : ends (streamSniffer s md readers).
Proof.
  destruct s; cbn [streamSniffer].
  - unfold Sniffer.TLSClientHello. by destruct (tls_Handshake _) as [[?|] ?].
  - unfold Sniffer.HTTPHost. by destruct (http_ReadRequest _).
  - apply StreamDomainNameQuery_ends.
  - apply BitTorrent_ends.
  - apply SSH_ends.
  - apply RDP_ends.
Qed.

Lemma packetSniffer_ends quic s md packet : s <> QUICClientHello -> ends (packetSniffer quic s md packet).
Proof.
  intros Hs. destruct s; try done; cbn [packetSniffer].
  - apply DomainNameQuery_ends.
  - unfold Sniffer.STUNMessage. destruct (Z.ltb_spec (lenZ packet) 20); [done|]. apply uintAt_ends; [lia|lia|]. intros z. destruct (negb _); [done|]. apply uintAt_ends; [lia|lia|]. intros n. by destruct (_ <? _).
  - unfold Sniffer.UTP. destruct (Z.ltb_spec (lenZ packet) 20); [done|]. apply at8_ends; [lia|]. intros b _. destruct (_ || _); [done|]. apply at8_ends; [lia|]. intros c _. destruct (sliceFrom_in (E := list SniffFailure) packet 20) as [-> _]; [lia|]. cbn [mbind outcome_bind].
    pose proof (utpExtensions_ends (S (length (drop (Z.to_nat 20) packet))) c (drop (Z.to_nat 20) packet) ltac:(lia)) as He. by destruct (Sniffer.utpExtensions _ c _).
  - unfold Sniffer.UDPTracker. destruct (Z.ltb_spec (lenZ packet) 16); [done|]. apply uintAt_ends; [lia|lia|]. intros z. destruct (negb _); [done|]. apply uintAt_ends; [lia|lia|]. intros n. by destruct (negb _).
  - unfold Sniffer.DTLSRecord. destruct (Z.ltb_spec (lenZ packet) 13); [done|]. apply at8_ends; [lia|]. intros b _. destruct (negb _); [done|]. apply at8_ends; [lia|]. intros c _. destruct (negb _); [done|]. apply at8_ends; [lia|]. intros d _. by destruct (_ && _).
  - unfold Sniffer.NTP. destruct (Z.ltb_spec (lenZ packet) 48); [done|]. apply at8_ends; [lia|]. intros b _. cbv zeta. destruct (3 <? _); [done|]. destruct (_ && _); [done|]. destruct (negb _); [done|]. apply uintAt_ends; [lia|lia|]. intros x. apply uintAt_ends; [lia|lia|]. intros y.
    destruct (_ <? x); [done|]. by destruct (_ <? y).
Qed.
End sniffers.

(** ** Streams that come in pieces *)

Definition asksMore {A} (o : sniff A) : Prop := o = Fails (needMoreData EOF) \/ o = Fails (needMoreData UnexpectedEOF).

(** A reader that succeeds on a stream does the same on a part of it, or asks for more. *)
Definition gradual {A} (f : bytes -> sniff (A * bytes)) : Prop := forall p q a r, f (p ++ q) = Returns (a, r) -> (exists r', f p = Returns (a, r') /\ r = r' ++ q) \/ asksMore (f p).

Definition early {A} (g : bytes -> sniff A) : Prop := forall p q x, g (p ++ q) = Returns x -> g p = Returns x \/ asksMore (g p).

Lemma early_bind {A B} (f : bytes -> sniff (A * bytes)) (g : A -> bytes -> sniff B) : gradual f -> (forall a, early (g a)) -> early (fun r => '(a, r) ← f r; g a r).
Proof.
  intros Hf Hg p q x. cbv beta. destruct (f (p ++ q)) as [[a r]|e| |] eqn:E; try done. cbn [mbind outcome_bind]. intros Hx. destruct (Hf p q a r E) as [(r' & -> & ->)|[->| ->]]; [|right; by left|right; by right]. by apply (Hg a r' q).
Qed.

Lemma early_guard {A} (b : bool) e (g : bytes -> sniff A) : early g -> early (fun r => if b then Fails e else g r).
Proof. intros Hg p q x. destruct b; [done|]. apply Hg. Qed.

Lemma early_ret {A} (x : A) : early (fun _ => Returns x).
Proof. intros p q y E. by left. Qed.

Lemma ReadByte_gradual : gradual (fun r => orNeedMore (ReadByte r)).
Proof. intros [|b p] q a r E; [right; by left|]. left. exists p. cbn in *. by injection E as <- <-. Qed.

Lemma ReadFull_gradual n : gradual (fun r => orNeedMore (ReadFull n r)).
Proof.
  intros p q a r. unfold ReadFull. destruct (Nat.eqb_spec n 0) as [->|Hn]; [intros [= <- <-]; left; by exists p|]. destruct p as [|b p]; [right; by left|]. cbn [app]. destruct (Nat.ltb_spec (length (b :: p ++ q)) n); [done|].
  intros [= <- <-]. change (b :: p ++ q) with ((b :: p) ++ q). destruct (Nat.ltb_spec (length (b :: p)) n) as [|Hl]; [right; by right|]. left. exists (drop n (b :: p)). rewrite take_app_le, drop_app_le by done. done.
Qed.

Lemma ReadUint_gradual n : gradual (fun r => orNeedMore (ReadUint n r)).
Proof.
  intros p q a r. unfold ReadUint. pose proof (ReadFull_gradual n p q) as Hg. cbv beta in Hg. destruct (ReadFull n (p ++ q)) as [[b r1]|]; [|done]. cbn [mbind result_bind orNeedMore]. intros [= <- <-]. destruct (Hg b r1 eq_refl) as [(r' & E & ->)|Hm].
  - left. exists r'. destruct (ReadFull n p) as [[? ?]|]; [|done]. by injection E as -> ->.
  - right. destruct (ReadFull n p) as [[? ?]|]; [by destruct Hm|]. destruct Hm as [[= ->]|[= ->]]; [by left|by right].
Qed.

Lemma expectByte_gradual v : gradual (Sniffer.expectByte v).
Proof. intros [|b p] q a r E; [right; by left|]. unfold Sniffer.expectByte in *. cbn [app ReadByte orNeedMore mbind outcome_bind] in *. destruct (negb _); [done|]. injection E as <- <-. left. by exists p. Qed.

Lemma SkipN_gradual n : gradual (Sniffer.SkipN n).
Proof.
  intros p q a r. unfold Sniffer.SkipN. destruct (Nat.ltb_spec (length (p ++ q)) n); [done|]. intros [= <- <-]. destruct (Nat.ltb_spec (length p) n); [right; by left|]. left. exists (drop n p). by rewrite take_app_le, drop_app_le by done.
Qed.

Create HintDb gradual.
#[local] Hint Resolve ReadByte_gradual ReadFull_gradual ReadUint_gradual expectByte_gradual SkipN_gradual : gradual.

Ltac early := repeat first [apply early_ret|apply early_guard|apply early_bind; [auto with gradual|intros ?]].

Lemma one_reader (data : bytes) : concat [data] = data.
Proof. apply app_nil_r. Qed.

Lemma gradual_one {A} (f : bytes -> sniff (A * bytes)) : gradual f -> gradual (fun r => f (concat [r])).
Proof. intros Hf p q a r. rewrite !one_reader. apply Hf. Qed.

Section pieces.
Context `{External} `{Parsers}.

Lemma RDP_early md : early (fun data => Sniffer.RDP md [data]).
Proof. unfold Sniffer.RDP. apply early_bind; [apply gradual_one; auto with gradual|intros ?]. early. Qed.

(** A check that a stream passes is passed by every part of it. *)
Definition stays (c : bytes -> sniff bool) : Prop := forall p q, c (p ++ q) = Returns false -> c p = Returns false.

Lemma stays_or c1 c2 : stays c1 -> stays c2 -> stays (fun r => b ← c1 r; if b : bool then Returns true else c2 r).
Proof.
  intros H1 H2 p q. destruct (c1 (p ++ q)) as [[]|e| |] eqn:E; try done. cbn [mbind outcome_bind]. intros E2. rewrite (H1 p q E). by apply (H2 p q).
Qed.

(** A check of bytes that may not have come *)
Lemma stays_when i (c : bytes -> sniff bool) : (forall p q, i < lenZ p -> c (p ++ q) = c p) -> stays (fun r => if i <? lenZ r then c r else Returns false).
Proof.
  intros Hc p q. destruct (Z.ltb_spec i (lenZ p)) as [Hi|Hi]; [|done]. rewrite (proj2 (Z.ltb_lt i _)) by (rewrite lenZ_app; pose proof (lenZ_nonneg q); lia). by rewrite Hc.
Qed.

Lemma at8_part (p q : bytes) i : 0 <= i < lenZ p -> at8 (E := list SniffFailure) (p ++ q) i = at8 p i.
Proof. intros Hi. unfold at8. by rewrite lookup_app_l by (unfold lenZ in *; lia). Qed.

Lemma stays_counts k : forall i, 0 <= i -> stays (fun r => zero ← Sniffer.countsZero k i r; Returns (negb zero)).
Proof.
  induction k as [|k IH]; intros i Hi p q; [done|]. specialize (IH (i + 1) ltac:(lia) p q). cbn [Sniffer.countsZero]. destruct (Z.ltb_spec i (lenZ p)) as [Hlt|Hge].
  - rewrite (proj2 (Z.ltb_lt _ _)), at8_part by (rewrite ?lenZ_app; pose proof (lenZ_nonneg q); lia). destruct (at8 p i); try done. cbn [mbind outcome_bind]. destruct (negb _); [done|]. exact IH.
  - destruct (i <? lenZ (p ++ q)); [|exact IH]. destruct (at8 (p ++ q) i); try done. cbn [mbind outcome_bind]. destruct (negb _); [done|]. exact IH.
Qed.

Lemma notQuery_stays : stays Sniffer.notQuery.
Proof.
  unfold Sniffer.notQuery. cbv zeta. apply stays_or; [|apply stays_or; [|by apply stays_counts]].
  - apply (stays_when 2 (fun packet => b ← at8 packet 2; Returns (negb (Z.land b 0x80 =? 0)))). intros p q Hi. by rewrite at8_part by lia.
  - apply (stays_when 5 (fun packet => b ← at8 packet 4; c ← at8 packet 5; Returns ((b =? 0) && (c =? 0)))). intros p q Hi. by rewrite !at8_part by lia.
Qed.

Lemma StreamDomainNameQuery_early md : early (fun data => Sniffer.StreamDomainNameQuery md [data]).
Proof.
  unfold Sniffer.StreamDomainNameQuery. apply early_bind; [apply (gradual_one (fun r => orNeedMore (ReadUint 2 r))); auto with gradual|intros n]. destruct (Z.ltb_spec n 12); [by intros p q x|]. intros p q x. cbv zeta. set (k := Z.to_nat n).
  destruct (Nat.le_gt_cases k (length p)) as [Hle|Hgt].
  - rewrite (take_app_le p q k) by done. intros E. left. revert E. destruct (Sniffer.notQuery (take k p)) as [[]|e| |]; try done. cbn [mbind outcome_bind]. unfold ReadFull. rewrite (proj2 (Nat.eqb_neq k 0)) by lia. destruct p as [|b p]; [cbn in Hle; lia|]. cbn [app].
    rewrite (proj2 (Nat.ltb_ge (length (b :: p)) k)) by done. by destruct (_ <? _)%nat.
  - rewrite (take_ge p) by lia. rewrite take_app_ge by lia. pose proof (notQuery_stays p (take (k - length p) q)) as Hs. destruct (Sniffer.notQuery (p ++ take (k - length p) q)) as [[]|e| |]; try done. rewrite Hs by done. cbn [mbind outcome_bind]. intros _. right.
    unfold ReadFull. rewrite (proj2 (Nat.eqb_neq k 0)) by lia. destruct p as [|b p]; [by left|]. rewrite (proj2 (Nat.ltb_lt (length (b :: p)) k)) by done. by right.
Qed.

(** What a sniffer that has not read enough says *)
Definition wants (o : sniff InboundContext) : Prop := exists e, o = Fails e /\ isNeedMoreData e = true /\ textual e.

Lemma wants_eof : wants (Fails (needMoreData EOF)) /\ wants (Fails (needMoreData UnexpectedEOF)).
Proof. split; eexists; (split; [done|]); by repeat constructor. Qed.

Lemma take_of_prefix (l h : bytes) : l `prefix_of` h -> l = take (length l) h.
Proof. intros [r ->]. by rewrite take_app_length. Qed.

(** On one buffer *)
Lemma BitTorrent_one md b c p : Sniffer.BitTorrent md [b :: c :: p] =
  if negb (byteZ b =? 19) then Fails ErrInvalid
  else if negb (bool_decide (take 19 (c :: p) = take (length (take 19 (c :: p))) Sniffer.torrentHeader)) then Fails ErrInvalid
  else if (length (take 19 (c :: p)) <? 19)%nat then Fails [mkSniffFailure "need more data" true] else Returns (setProtocol md "bittorrent").
Proof. done. Qed.

Lemma BitTorrent_early md p q x : Sniffer.BitTorrent md [p ++ q] = Returns x ->
  Sniffer.BitTorrent md [p] = Returns x \/ wants (Sniffer.BitTorrent md [p]).
Proof.
  destruct p as [|b [|c p]]; [intros _; right; by apply wants_eof| |].
  - intros E. right. unfold Sniffer.BitTorrent in *. cbn [app multiRead firstn] in *. destruct (negb _); [done|]. by apply wants_eof.
  - cbn [app]. rewrite !BitTorrent_one. destruct (negb _); [done|]. set (d := c :: p). change (c :: p ++ q) with (d ++ q). case_bool_decide as E; [|done]. cbn [negb]. destruct (Nat.ltb_spec (length (take 19 (d ++ q))) 19) as [|Hl]; [done|]. intros [= <-].
    assert (Ed : take 19 d = take (length (take 19 d)) Sniffer.torrentHeader).
    { apply take_of_prefix. transitivity (take 19 (d ++ q)); [|rewrite E; apply prefix_take]. rewrite take_app. by eexists. }
    rewrite bool_decide_true by done. cbn [negb]. destruct (length (take 19 d) <? 19)%nat; [right|by left]. eexists. split_and!; [done|done|by repeat constructor].
Qed.

Lemma SSH_early md p q x : Sniffer.SSH md [p ++ q] = Returns x -> (exists y, Sniffer.SSH md [p] = Returns y /\ Protocol y = Protocol x) \/ wants (Sniffer.SSH md [p]).
Proof.
  unfold Sniffer.SSH. rewrite !one_reader. case_bool_decide as E; [|done]. cbn [negb]. destruct (Nat.ltb_spec (length (p ++ q)) (length Sniffer.sshPrefix)) as [|Hl]; [done|]. intros Ex.
  assert (Ep : take (length Sniffer.sshPrefix) p = take (length (take (length Sniffer.sshPrefix) p)) Sniffer.sshPrefix).
  { apply take_of_prefix. transitivity (take (length Sniffer.sshPrefix) (p ++ q)); [|rewrite E; apply prefix_take]. rewrite take_app. by eexists. }
  rewrite bool_decide_true by done. cbn [negb]. destruct (Nat.ltb_spec (length p) (length Sniffer.sshPrefix)) as [|Hp]; [right; apply wants_eof|]. left.
  pose proof (SSH_ends md [p]) as He. unfold Sniffer.SSH in He. rewrite one_reader, bool_decide_true in He by done. cbn [negb] in He. rewrite (proj2 (Nat.ltb_ge _ _)) in He by done.
  destruct (sliceFrom (Sniffer.firstLine (p ++ q)) 8); try done. injection Ex as <-. unfold sliceFrom in *. destruct (8 <=? _); [|done]. by eexists.
Qed.

(** The sniffers whose messages the development reads *)
Definition messageSniffers : list StreamSniffer := [StreamDomainNameQuery; BitTorrent; SSH; RDP].

Definition protocolOf (s : StreamSniffer) : string :=
  match s with TLSClientHello => "tls" | HTTPHost => "http" | StreamDomainNameQuery => "dns" | BitTorrent => "bittorrent" | SSH => "ssh" | RDP => "rdp" end.

Definition recognises (s : StreamSniffer) (md : InboundContext) (data : bytes) : Prop := exists md', streamSniffer s md [data] = Returns md' /\ Protocol md' = protocolOf s.

(** The message of a sniffer is recognised early or not yet, but never refused. *)
Lemma recognised_early s md p q : s ∈ messageSniffers -> recognises s md (p ++ q) -> recognises s md p \/ wants (streamSniffer s md [p]).
Proof.
  intros Hs (md' & E & Hp). assert (Hfrom : forall o, streamSniffer s md [p] = o -> o = Returns md' \/ asksMore o -> recognises s md p \/ wants (streamSniffer s md [p])).
  { intros o Eo [Ho|[Ho|Ho]]; subst o; [left; by exists md'|right; rewrite Ho; apply wants_eof|right; rewrite Ho; apply wants_eof]. }
  unfold messageSniffers in Hs. repeat (apply elem_of_cons in Hs as [->|Hs]); [| | | |by apply not_elem_of_nil in Hs].
  - eapply Hfrom; [done|]. by apply (StreamDomainNameQuery_early md p q).
  - destruct (BitTorrent_early md p q md' E) as [E'|Hw]; [left; by exists md'|by right].
  - destruct (SSH_early md p q md' E) as [(y & E' & Hy)|Hw]; [left; exists y; split; [done|congruence]|by right].
  - eapply Hfrom; [done|]. by apply (RDP_early md p q).
Qed.

Definition rejects (s : StreamSniffer) (md : InboundContext) (data : bytes) : Prop := exists e, streamSniffer s md [data] = Fails e /\ e <> [] /\ textual e.

Definition rejectsb (s : StreamSniffer) (md : InboundContext) (data : bytes) : bool :=
  match streamSniffer s md [data] with Fails e => nonempty e && forallb (fun f => Bool.eqb (needsMoreData f) (String.eqb (failureText f) moreText)) e | _ => false end.

Lemma rejectsb_rejects s md data : rejectsb s md data = true -> rejects s md data.
Proof.
  unfold rejectsb, rejects. destruct (streamSniffer s md [data]) as [?|e| |]; try done. intros [Hn Ht]%andb_prop. exists e. split_and!; [done|by destruct e|]. apply Forall_forall. intros f Hf. rewrite forallb_forall in Ht. apply eqb_prop, Ht. by apply list_elem_of_In.
Qed.

Lemma prefixes_reject sniffers s md data : forallb (fun s' => bool_decide (s' = s) || forallb (fun k => rejectsb s' md (take k data)) (seq 0 (S (length data)))) sniffers = true ->
  forall s' p, s' ∈ sniffers -> s' <> s -> p `prefix_of` data -> rejects s' md p.
Proof.
  intros Hall s' p Hs Hne [q ->]. rewrite forallb_forall in Hall. specialize (Hall s' (proj1 (list_elem_of_In _ _) Hs)). rewrite bool_decide_false in Hall by done. cbn [orb] in Hall. rewrite forallb_forall in Hall.
  specialize (Hall (length p)). rewrite take_app_length in Hall. apply rejectsb_rejects, Hall, in_seq. rewrite length_app. lia.
Qed.

(** ** The driver *)

Context (quic : InboundContext -> bytes -> sniff InboundContext) (isDomainName : string -> bool).

#[local] Instance realSniffing : Sniffing := {|
  sniffStream := fun s md readers => sniffed (streamSniffer s md readers) md;
  sniffPacket := fun s md packet => sniffed (packetSniffer quic s md packet) md;
  IsDomainName := isDomainName;
|}.

(** No sniffer succeeds, and one of them asks for more. *)
Lemma tryStream_waits s md data sniffers : wants (streamSniffer s md [data]) -> (forall s', s' ∈ sniffers -> s' <> s -> rejects s' md data) -> forall err, textual err ->
  exists err', tryStream sniffers [data] md err = (err', md) /\ textual err' /\ (isNeedMoreData err = true \/ s ∈ sniffers -> isNeedMoreData err' = true).
Proof.
  intros (e & E & He & Ht). induction sniffers as [|s' sniffers IH]; intros Hrej err Herr; [exists err; split_and!; [done|done|]; intros [?|[]%not_elem_of_nil]; done|].
  assert (Hrest : forall s0, s0 ∈ sniffers -> s0 <> s -> rejects s0 md data) by (intros s0 Hs0; apply Hrej; by right).
  assert (Hs : exists e', streamSniffer s' md [data] = Fails e' /\ e' <> [] /\ textual e' /\ (s' = s -> isNeedMoreData e' = true)).
  { destruct (decide (s' = s)) as [->|Hne]; [exists e; split_and!; try done; by intros ->|]. destruct (Hrej s' ltac:(by left) Hne) as (e' & ? & ? & ?). by exists e'. }
  destruct Hs as (e' & E' & Hne & Ht' & Hneed). cbn [tryStream]. change (sniffStream s' md [data]) with (sniffed (streamSniffer s' md [data]) md). rewrite E'. cbn [sniffed]. destruct e' as [|f e']; [done|].
  destruct (Errors_more err (f :: e') Herr Ht') as [Hte Hme]. destruct (IH Hrest _ Hte) as (err' & -> & Ht'' & Hn). exists err'. split_and!; [done|done|]. intros Hor. apply Hn. rewrite Hme.
  destruct Hor as [->|[->|?]%elem_of_cons]; [by left|left; by rewrite (Hneed eq_refl), orb_true_r|by right].
Qed.

(** The first sniffer that recognises the data *)
Lemma tryStream_finds s md data sniffers : recognises s md data -> s ∈ sniffers -> (forall s', s' ∈ sniffers -> s' <> s -> rejects s' md data) -> forall err,
  exists md', tryStream sniffers [data] md err = ([], md') /\ streamSniffer s md [data] = Returns md'.
Proof.
  intros (md' & E & _). induction sniffers as [|s' sniffers IH]; intros Hin Hrej err; [by apply not_elem_of_nil in Hin|]. cbn [tryStream]. change (sniffStream s' md [data]) with (sniffed (streamSniffer s' md [data]) md). destruct (decide (s' = s)) as [->|Hne].
  - rewrite E. exists md'. split; [done|]. done.
  - destruct (Hrej s' ltac:(by left) Hne) as ([|f e'] & E' & ? & _); [done|]. rewrite E'. cbn [sniffed]. apply elem_of_cons in Hin as [->|Hin]; [done|]. apply IH; [done|]. intros s0 Hs0. apply Hrej. by right.
Qed.

(** What is still to come fits into the buffer, and nothing is when it is full. *)
Lemma room_for (buffer rest : bytes) : lenZ (buffer ++ rest) <= UDPBufferSize ->
  (length rest <= freeLen buffer)%nat /\ (freeLen buffer = 0%nat -> rest = []).
Proof.
  unfold freeLen, lenZ. rewrite length_app. intros Hl. split; [lia|]. intros E. destruct rest; [done|]. cbn in Hl. lia.
Qed.

(** The reads from a round on: the message comes with one of them. *)
Lemma PeekStream_finds s md sniffers more chunks : s ∈ messageSniffers -> s ∈ sniffers -> forall i buffer err,
  lenZ (buffer ++ concat chunks) <= UDPBufferSize ->
  recognises s md (buffer ++ concat chunks) -> ~ recognises s md buffer ->
  (forall s' p, s' ∈ sniffers -> s' <> s -> p `prefix_of` buffer ++ concat chunks -> rejects s' md p) ->
  exists n md', (n <= length chunks)%nat /\
    PeekStream i ((ReadData <$> chunks) ++ more) [] buffer err sniffers md = ([], md', buffer ++ concat (take n chunks), (ReadData <$> drop n chunks) ++ more) /\
    streamSniffer s md [buffer ++ concat (take n chunks)] = Returns md' /\ Protocol md' = protocolOf s /\
    (forall m, (m < n)%nat -> ~ recognises s md (buffer ++ concat (take m chunks))).
Proof.
  intros Hs Hin. induction chunks as [|c chunks IH]; intros i buffer err Hlen Hrec Hnot Hrej; [cbn in Hrec; rewrite app_nil_r in Hrec; done|]. rewrite fmap_cons. cbn [app concat PeekStream] in *.
  destruct (room_for buffer (c ++ concat chunks) Hlen) as [Hroom Hfull]. rewrite (proj2 (Nat.eqb_neq _ _)) by (intros E0; rewrite Hfull, app_nil_r in Hrec by exact E0; done). rewrite length_app in Hroom.
  rewrite (proj2 (Nat.leb_le (length c) _)), (take_ge c) by lia. clear Hroom Hfull. rewrite app_assoc in Hlen, Hrec, Hrej.
  assert (Hb : forall s', s' ∈ sniffers -> s' <> s -> rejects s' md (buffer ++ c)) by (intros s' Hs1 Hs2; apply Hrej; [done|done|by eexists]).
  destruct (recognised_early s md (buffer ++ c) (concat chunks) Hs Hrec) as [Hr|Hw].
  - destruct (tryStream_finds s md (buffer ++ c) sniffers Hr Hin Hb []) as (md' & -> & E). cbn [isNeedMoreData existsb]. destruct Hr as (md'' & E' & Hp). rewrite E in E'. injection E' as <-.
    exists 1%nat, md'. cbn [take drop firstn skipn concat length]. rewrite app_nil_r. split_and!; [lia|done|done|done|]. intros m Hm. assert (m = 0)%nat as -> by lia. cbn. by rewrite app_nil_r.
  - destruct (tryStream_waits s md (buffer ++ c) sniffers Hw Hb [] ltac:(constructor)) as (err' & -> & _ & Hn). rewrite Hn by by right.
    assert (Hnot' : ~ recognises s md (buffer ++ c)) by (intros (md' & E & _); destruct Hw as (e & E' & _); congruence).
    destruct (IH (S i) (buffer ++ c) err' Hlen Hrec Hnot' Hrej) as (n & md' & Hl & -> & E & Hp & Hmin). exists (S n), md'. cbn [take drop firstn skipn concat length]. rewrite <- !app_assoc in *. split_and!; [lia|done|done|done|].
    intros [|m] Hm; cbn [take firstn concat]; [by rewrite app_nil_r|]. specialize (Hmin m ltac:(lia)). by rewrite <- app_assoc in Hmin.
Qed.
End pieces.

Section claims.
Context `{External} `{Parsers} (quic : InboundContext -> bytes -> sniff InboundContext) (isDomainName : string -> bool).
#[local] Existing Instance realSniffing.

Lemma nothing_recognised s md : s ∈ messageSniffers -> ~ recognises s md [].
Proof. intros Hs (md' & E & _). unfold messageSniffers in Hs. repeat (apply elem_of_cons in Hs as [->|Hs]); [done..|by apply not_elem_of_nil in Hs]. Qed.

(** C34.  A message of at most 16 KiB, the size of the sniff buffer, that the DNS, BitTorrent, SSH
    or RDP sniffer recognises as a whole is recognised in whatever pieces a first sniff of the
    connection reads it, if every other sniffer of the action rejects every beginning of it: the
    driver keeps reading as long as the message is not complete, stops with the first read after
    which it is recognised, and reports the protocol; the buffer holds what was read and the rest
    of the connection is left. *)
Theorem stream_recognised s sniffers md chunks more : s ∈ messageSniffers -> s ∈ sniffers -> lenZ (concat chunks) <= UDPBufferSize -> recognises s md (concat chunks) ->
  (forall s' p, s' ∈ sniffers -> s' <> s -> p `prefix_of` concat chunks -> rejects s' md p) ->
  exists n md', (n <= length chunks)%nat /\
    @PeekStream (realSniffing quic isDomainName) 0 ((ReadData <$> chunks) ++ more) [] [] [] sniffers md = ([], md', concat (take n chunks), (ReadData <$> drop n chunks) ++ more) /\
    Protocol md' = protocolOf s /\ (forall m, (m < n)%nat -> ~ recognises s md (concat (take m chunks))).
Proof.
  intros Hs Hin Hlen Hrec Hrej. destruct (PeekStream_finds quic isDomainName s md sniffers more chunks Hs Hin 0 [] [] Hlen Hrec (nothing_recognised s md Hs) Hrej) as (n & md' & Hl & HP & _ & Hp & Hmin). by exists n, md'.
Qed.

(** A packet that the DNS library can read but that is no query is taken for recognised: the other
    sniffers are not asked. *)
Lemma other_message_hides md packet msg : Msg_Unpack packet = Ok msg -> msgResponse msg = true \/ msgQuestion msg = 0%nat ->
  @PeekPacket (realSniffing quic isDomainName) md packet defaultPacketSniffers = ([], md).
Proof.
  intros E Hm. unfold PeekPacket, defaultPacketSniffers. cbn [tryPacket sniffPacket realSniffing packetSniffer]. unfold Sniffer.DomainNameQuery. rewrite E. destruct Hm as [-> | ->]; [done|]. by rewrite orb_true_r.
Qed.
End claims.

(** ** Instances *)

(** A DNS library that reads the header, and a client hello and a request that are never
    complete *)
Definition headerParsers : Parsers := {|
  Msg_Unpack := fun p => if (length p <? 12)%nat then Err "dns: overflow unpacking uint16"%string
    else Ok (mkDNSMsg (Z.testbit (byteZ (List.nth 2 p x00)) 7) (Z.to_nat (fromBigEndian (take 2 (drop 4 p)))) (Z.to_nat (fromBigEndian (take 2 (drop 6 p)))) (Z.to_nat (fromBigEndian (take 2 (drop 8 p)))));
  tls_Handshake := fun _ => (None, mkParseFailure UnexpectedEOF true);
  http_ReadRequest := fun _ => inl (mkParseFailure UnexpectedEOF true);
  net_SplitHostPort := fun _ => Err "missing port in address"%string;
  Addr_String := fun _ => ""%string;
|}.

#[local] Existing Instances exExternal headerParsers.

Definition aConnection : InboundContext := exConnection "example.org" 443.
Definition noQUIC (md : InboundContext) (packet : bytes) : sniff InboundContext := Fails ErrInvalid.

(** A handshake in three reads; the second ends within the header. *)
Definition torrentReads : list bytes := [[x13]; stringBytes "BitTor"; stringBytes "rent protocol" ++ [x00; x00]; [x01]].

Lemma stream_recognised_witness : exists n md', (n <= 4)%nat /\
  @PeekStream (realSniffing noQUIC (fun _ => false)) 0 ((ReadData <$> torrentReads) ++ []) [] [] [] defaultStreamSniffers aConnection = ([], md', concat (take n torrentReads), (ReadData <$> drop n torrentReads) ++ []) /\
  Protocol md' = "bittorrent"%string /\ (forall m, (m < n)%nat -> ~ recognises BitTorrent aConnection (concat (take m torrentReads))).
Proof.
  apply (stream_recognised noQUIC (fun _ => false) BitTorrent defaultStreamSniffers aConnection torrentReads []).
  - right. by left.
  - do 3 right. by left.
  - by vm_compute.
  - eexists. split; [by vm_compute|done].
  - apply prefixes_reject. by vm_compute.
Defined.

(** ** What is missed *)

(** The header of a BitTorrent handshake is read with one call of Read: when it is in two buffers,
    of two sniff actions, the sniffer asks for data that has come already. *)
Example handshake_in_two_buffers : let header := x13 :: Sniffer.torrentHeader in
  (exists md, Sniffer.BitTorrent aConnection [header] = Returns md) /\ Sniffer.BitTorrent aConnection [take 10 header; drop 10 header] = Fails [mkSniffFailure "need more data" true].
Proof. split; [by eexists|by vm_compute]. Qed.

(** The client of SSH is taken from the first read although its line is not complete. *)
Example half_client : Client (sniffed (Sniffer.SSH aConnection [stringBytes "SSH-2.0-Open"]) aConnection).2 = "Open"%string /\
  Client (sniffed (Sniffer.SSH aConnection [stringBytes "SSH-2.0-OpenSSH_9.6" ++ [x0d; x0a; x00]]) aConnection).2 = "OpenSSH_9.6"%string.
Proof. split; by vm_compute. Qed.

(** A request of an NTP client is a DNS message without questions, so the sniffer for NTP, which
    recognises it, is not asked. *)
Definition ntpRequest : bytes := x1b :: replicate 47 x00.

Example ntp_request_missed : Protocol (@PeekPacket (realSniffing noQUIC (fun _ => false)) aConnection ntpRequest [NTP]).2 = "ntp"%string /\
  @PeekPacket (realSniffing noQUIC (fun _ => false)) aConnection ntpRequest defaultPacketSniffers = ([], aConnection) /\ Protocol aConnection = ""%string.
Proof. split_and!; by vm_compute. Qed.

(** ** Messages of the repository's tests *)

Definition hexDigit (a : Ascii.ascii) : Z := let n := Z.of_nat (Ascii.nat_of_ascii a) in if n <? 58 then n - 48 else n - 87.

Fixpoint hexBytes (s : string) : bytes :=
  match s with String a (String b s) => zByte (16 * hexDigit a + hexDigit b) :: hexBytes s | _ => [] end.

Definition protocolFound (o : sniff InboundContext) : string := match o with Returns md => Protocol md | Fails e => (if isNeedMoreData e then "more" else "invalid")%string | Panics => "panic"%string | Hangs => "hang"%string end.

Example repository_streams :
  protocolFound (Sniffer.RDP aConnection [hexBytes "030000130ee00000000000010008000b000000010008000b000000"]) = "rdp"%string /\
  protocolFound (Sniffer.StreamDomainNameQuery aConnection [hexBytes "001e740701000001000000000000012a06676f6f676c6503636f6d0000010001"]) = "dns"%string /\
  protocolFound (Sniffer.StreamDomainNameQuery aConnection [hexBytes "001e740701000001000000000000"]) = "more"%string /\
  protocolFound (Sniffer.StreamDomainNameQuery aConnection [hexBytes "001e740701000000000000000000"]) = "invalid"%string /\
  protocolFound (Sniffer.SSH aConnection [hexBytes "5353482d322e30"]) = "more"%string /\
  protocolFound (Sniffer.SSH aConnection [hexBytes "5353482d322e31"]) = "invalid"%string.
Proof. split_and!; by vm_compute. Qed.

Example repository_packets :
  protocolFound (Sniffer.UTP aConnection (hexBytes "21001ecb6817f2805d044fd700100000dbd03029")) = "bittorrent"%string /\
  protocolFound (Sniffer.UTP aConnection (hexBytes "410277ef0b1fb1f60000000000040000c233000000080000000000000000")) = "bittorrent"%string /\
  protocolFound (Sniffer.UDPTracker aConnection (hexBytes "00000417271019800000000078e90560")) = "bittorrent"%string /\
  protocolFound (Sniffer.STUNMessage aConnection (hexBytes "000100002112a44224b1a025d0c180c484341306")) = "stun"%string /\
  protocolFound (Sniffer.NTP aConnection (hexBytes "1b0006000000000000000000000000000000000000000000000000000000000000000000000000000000000000000000")) = "ntp"%string /\
  protocolFound (Sniffer.NTP aConnection (hexBytes "400000000000000000000000000000000000000000000000000000000000000000000000000000000000000000000000")) = "invalid"%string.
Proof. split_and!; by vm_compute. Qed.
