(* ===== verification/Balancer.v ===== *)
(** * The load balancer ([protocol/group/balancer])

    A group that spreads connections over its members by one of four strategies: in turn, by a
    consistent hash of the destination, by sessions that stick to a member, or all to the member
    with the lowest delay.  A step that indexes a list out of range is [None]. *)

From S2P Require Import Prelude Binary Netip Context OutboundManager Groups FreeLRU.

(** ** float64

    A finite number as a mantissa and an exponent.  The operations round to 53 bits, to the
    nearest number and to the even one of two; exponents are not limited. *)
Module float64.
Record t := mk { mant : Z; expo : Z }.

Definition ofZ (n : Z) : t := mk n 0.
Definition num (f : t) : Z := mant f * 2 ^ Z.max 0 (expo f).
Definition den (f : t) : Z := 2 ^ Z.max 0 (- expo f).

Definition nearest (n d : Z) : Z :=
  let q := n / d in
  let r := n mod d in
  if (d <? 2 * r) || (d =? 2 * r) && Z.odd q then q + 1 else q.

(** The exponent with which a positive fraction has 53 bits *)
Definition exponent (n d : Z) : Z :=
  let e := Z.log2 n - Z.log2 d - 52 in
  if n * 2 ^ Z.max 0 (- e) <? 2 ^ 52 * (d * 2 ^ Z.max 0 e) then e - 1 else e.

Definition roundPos (n d : Z) : t :=
  if n =? 0 then mk 0 0
  else let e := exponent n d in mk (nearest (n * 2 ^ Z.max 0 (- e)) (d * 2 ^ Z.max 0 e)) e.

Definition round (n d : Z) : t := if n <? 0 then let f := roundPos (- n) d in mk (- mant f) (expo f) else roundPos n d.

Definition mul (a b : t) : t := round (num a * num b) (den a * den b).
(** by a positive number *)
Definition div (a b : t) : t := round (num a * den b) (den a * num b).
(** the conversion to integers *)
Definition trunc (f : t) : Z := Z.quot (num f) (den f).
End float64.

(** What the strategies call in libraries: names, addresses as text, hashes, and the conversion
    of a number that does not fit to uint16, which the language leaves open *)
Class BalancerExternal := {
  net_isDomainName : string -> bool;
  net_ParseIP : string -> bool;
  EffectiveTLDPlusOne : string -> result string;
  netip_String : Addr -> string;
  maphash_String : string -> Z;
  maphash_Uint64 : Z -> Z;
  uint16_overflow : float64.t -> Z;
}.

Section balancer.
Context `{BalancerExternal} {IpInfo : Type}.

Definition History : Type := gmap string (option (URLTestHistory (IpInfo := IpInfo))).

(** ** [common.go] *)

Definition getKey (metadata : InboundContext) : string :=
  let metadataHost := if net_isDomainName (Fqdn (Destination metadata)) then Fqdn (Destination metadata) else Domain metadata in
  let byAddress :=
    let destinationAddr := match DestinationAddresses metadata with a :: _ => a | [] => Addr_ (Destination metadata) end in
    if negb (netip.IsValid destinationAddr) then ""%string else netip_String destinationAddr in
  if negb (String.eqb metadataHost "") then
    if net_ParseIP metadataHost then metadataHost
    else match EffectiveTLDPlusOne metadataHost with Ok etld => etld | Err _ => byAddress end
  else byAddress.

Definition getKeyWithSrcAndDst (metadata : InboundContext) : string := (netip_String (Addr_ (Source metadata)) +:+ getKey metadata)%string.

Definition nextKey (key : Z) : Z := u64 (key * 2862933555777941757 + 1).

Definition nextJump (b key : Z) : Z := float64.trunc (float64.mul (float64.ofZ (b + 1)) (float64.div (float64.ofZ (Z.shiftl 1 31)) (float64.ofZ (Z.shiftr key 33 + 1)))).

Fixpoint jumpLoop (fuel : nat) (key b j buckets : Z) : option Z :=
  if j <? buckets then
    match fuel with
    | O => None
    | S fuel => let key := nextKey key in jumpLoop fuel key j (nextJump j key) buckets
    end
  else Some b.

(** [j] grows with every round. *)
Definition jumpHash (key buckets : Z) : Z := default 0 (jumpLoop (Z.to_nat buckets) key 0 0 buckets).

Definition TimeoutDelay : Z := 65535.

Definition getModifiedDelay (his : option (URLTestHistory (IpInfo := IpInfo))) : Z :=
  match his with
  | None => TimeoutDelay
  | Some his =>
      let delay := Delay his in
      let delay := if delay =? 0 then TimeoutDelay else delay in
      if IsFromCache his && (delay <? 20000) then u16 (delay + 20000) else delay
  end.

Definition getTagDelay (tag : string) (history : History) : Z :=
  match history !! tag with Some (Some his) => getModifiedDelay (Some his) | _ => TimeoutDelay end.

Definition filterOutbounds (outbounds : list Outbound) (network : string) : list Outbound :=
  let res := filter (fun out : Outbound => network ∈ OutboundManager.Network out) outbounds in
  match res with [] => outbounds | _ => res end.

Definition outTag (o : Outbound) : string := Tag o.

(** [outs[i]] *)
Definition outboundAt (outs : list Outbound) (i : nat) : option Outbound := outs !! i.

(** A map with the keys tcp and udp *)
Record perNet (A : Type) := mkPerNet { ofTCP : A; ofUDP : A }.
Arguments mkPerNet {A}. Arguments ofTCP {A}. Arguments ofUDP {A}.

Definition mapNet {A B} (f : A -> B) (m : perNet A) : perNet B := mkPerNet (f (ofTCP m)) (f (ofUDP m)).

(** The network of a request, tcp for an unknown one *)
Definition at_ {A} (m : perNet A) (net : string) : A := if String.eqb net NetworkUDP then ofUDP m else ofTCP m.

Definition setAt {A} (m : perNet A) (net : string) (x : A) : perNet A := if String.eqb net NetworkUDP then mkPerNet (ofTCP m) x else mkPerNet x (ofUDP m).

Definition convertOutbounds (outbounds : list Outbound) : perNet (list Outbound) := mkPerNet (filterOutbounds outbounds NetworkTCP) (filterOutbounds outbounds NetworkUDP).

(** [sort.SliceStable] by delay *)
Fixpoint insertByDelay (history : History) (x : Outbound) (l : list Outbound) : list Outbound :=
  match l with
  | [] => [x]
  | y :: l => if getTagDelay (outTag x) history <=? getTagDelay (outTag y) history then x :: y :: l else y :: insertByDelay history x l
  end.

Definition sortByDelay (history : History) (outs : list Outbound) : list Outbound := foldr (insertByDelay history) [] outs.

Definition sortOutboundsByDelay (outbounds : perNet (list Outbound)) (history : History) : perNet (list Outbound) := mapNet (sortByDelay history) outbounds.

(** [uint16(math.Max(100, float64(delay)) * ratio)] *)
Definition acceptableDelay (delay : Z) (ratio : float64.t) : Z :=
  let f := float64.mul (float64.ofZ (Z.max 100 delay)) ratio in
  let z := float64.trunc f in
  if (0 <=? z) && (z <? 2 ^ 16) then z else uint16_overflow f.

Fixpoint lastIndex (history : History) (limit : Z) (i last : nat) (outs : list Outbound) : nat :=
  match outs with
  | [] => last
  | outbound :: outs => lastIndex history limit (S i) (if getTagDelay (outTag outbound) history <=? limit then i else last) outs
  end.

Definition acceptableIndex (history : History) (ratio : float64.t) (outs : list Outbound) : option nat :=
  first ← outboundAt outs 0;
  let minDelay := getTagDelay (outTag first) history in
  Some (lastIndex history (acceptableDelay minDelay ratio) 0 0 outs).

Definition getAcceptableIndex (sortedOutbounds : perNet (list Outbound)) (history : History) (delayAcceptableRatio : float64.t) : option (perNet nat) :=
  tcp ← acceptableIndex history delayAcceptableRatio (ofTCP sortedOutbounds);
  udp ← acceptableIndex history delayAcceptableRatio (ofUDP sortedOutbounds);
  Some (mkPerNet tcp udp).

Definition minDelayOf (history : History) (outs : list Outbound) : option Outbound * Z :=
  fold_left (fun '(minOut, minDelay) out => let d := getTagDelay (outTag out) history in if d <=? minDelay then (Some out, d) else (minOut, minDelay)) outs (None, TimeoutDelay).

Definition getMinDelay (outbounds : perNet (list Outbound)) (history : History) : perNet (option Outbound) * perNet Z :=
  (mapNet (fun outs => (minDelayOf history outs).1) outbounds, mapNet (fun outs => (minDelayOf history outs).2) outbounds).

Definition getDelayMap (history : History) : gmap string Z := (fun his => match his with Some his => Delay his | None => TimeoutDelay end) <$> history.

(** ** Strategies *)

Record BalancerOptions := mkBalancerOptions { balTags : list string; balStrategy : string; DelayAcceptableRatio : float64.t; balTTL : Z; MaxRetry : Z }.

Record RoundRobin := mkRoundRobin {
  rrOutbounds : perNet (list Outbound);
  sortedOutbounds : perNet (list Outbound);
  maxAcceptableIndex : perNet Z;
  rrIdx : perNet nat;
  rrRatio : float64.t;
}.

Definition NewRoundRobin (outbounds : list Outbound) (options : BalancerOptions) : RoundRobin :=
  let cOutbounds := convertOutbounds outbounds in
  mkRoundRobin cOutbounds cOutbounds (mapNet (fun outs => Z.of_nat (length outs) - 1) cOutbounds) (mkPerNet 0%nat 0%nat) (DelayAcceptableRatio options).

Definition RoundRobin_Update (s : RoundRobin) (history : History) : option (bool * RoundRobin) :=
  let sorted := sortOutboundsByDelay (rrOutbounds s) history in
  acceptable ← getAcceptableIndex sorted history (rrRatio s);
  let index := mapNet Z.of_nat acceptable in
  let changed := negb (ofTCP index =? ofTCP (maxAcceptableIndex s)) || negb (ofUDP index =? ofUDP (maxAcceptableIndex s)) in
  Some (changed, mkRoundRobin (rrOutbounds s) sorted index (rrIdx s) (rrRatio s)).

Definition RoundRobin_Select (s : RoundRobin) (net : string) (touch : bool) : option (option Outbound * RoundRobin) :=
  let length_ := at_ (maxAcceptableIndex s) net + 1 in
  if length_ =? 0 then Some (None, s)
  else
    let id := Z.to_nat ((Z.of_nat (at_ (rrIdx s) net) + 1) mod length_) in
    proxy ← outboundAt (at_ (sortedOutbounds s) net) id;
    Some (Some proxy, if touch then mkRoundRobin (rrOutbounds s) (sortedOutbounds s) (maxAcceptableIndex s) (setAt (rrIdx s) net id) (rrRatio s) else s).

Record LowestDelay := mkLowestDelay { ldOutbounds : perNet (list Outbound); selectedOutbound : perNet (option Outbound) }.

Definition NewLowestDelay (outbounds : list Outbound) : option LowestDelay :=
  let couts := convertOutbounds outbounds in
  tcp ← outboundAt (ofTCP couts) 0;
  udp ← outboundAt (ofUDP couts) 0;
  Some (mkLowestDelay couts (mkPerNet (Some tcp) (Some udp))).

Definition LowestDelay_Update (s : LowestDelay) (history : History) : option (bool * LowestDelay) :=
  let '(min, _) := getMinDelay (ldOutbounds s) history in
  tcp ← ofTCP min; oldTCP ← ofTCP (selectedOutbound s);
  udp ← ofUDP min; oldUDP ← ofUDP (selectedOutbound s);
  let changed := negb (String.eqb (outTag tcp) (outTag oldTCP)) || negb (String.eqb (outTag udp) (outTag oldUDP)) in
  Some (changed, mkLowestDelay (ldOutbounds s) min).

Definition LowestDelay_Select (s : LowestDelay) (net : string) : option Outbound := at_ (selectedOutbound s) net.

Record Hashing := mkHashing {
  hOutbounds : perNet (list Outbound);
  delays : gmap string Z;
  maxRetry : Z;
  maxAcceptableDelay : perNet Z;
  hRatio : float64.t;
}.

Definition NewConsistentHashing (outbounds : list Outbound) (options : BalancerOptions) : Hashing :=
  mkHashing (convertOutbounds outbounds) ∅ (MaxRetry options) (mkPerNet 0 0) (DelayAcceptableRatio options).

Definition Hashing_Update (s : Hashing) (history : History) : bool * Hashing :=
  let '(_, minDelay) := getMinDelay (hOutbounds s) history in
  (true, mkHashing (hOutbounds s) (getDelayMap history) (maxRetry s) (mapNet (fun d => acceptableDelay d (hRatio s)) minDelay) (hRatio s)).

Definition Alive (s : Hashing) (net : string) (proxy : Outbound) : bool :=
  match delays s !! outTag proxy with Some delay => delay <=? at_ (maxAcceptableDelay s) net | None => false end.

(** The first loop of [Select]: the outbound, or the key after the last try *)
Fixpoint tryBuckets (s : Hashing) (net : string) (retry : nat) (key : Z) : option (Outbound + Z) :=
  match retry with
  | O => Some (inr key)
  | S retry =>
      let outs := at_ (hOutbounds s) net in
      proxy ← outboundAt outs (Z.to_nat (jumpHash key (Z.of_nat (length outs))));
      if Alive s net proxy then Some (inl proxy) else tryBuckets s net retry (u64 (key + 1))
  end.

Definition ConsistentHashing_Select (s : Hashing) (metadata : InboundContext) (net : string) : option Outbound :=
  let outs := at_ (hOutbounds s) net in
  found ← tryBuckets s net (Z.to_nat (maxRetry s)) (maphash_String (getKey metadata));
  match found with
  | inl proxy => Some proxy
  | inr key =>
      match List.find (Alive s net) outs with
      | Some proxy => Some proxy
      | None => outboundAt outs (Z.to_nat (jumpHash key (Z.of_nat (length outs))))
      end
  end.

(** The sessions are in a cache; [now] and [later] are its times, [nano] the times that
    [Select] reads. *)
Record StickySession := mkStickySession { ssHashing : Hashing; lruCache : ShardedLRU Z nat }.

Definition NewStickySession (outbounds : list Outbound) (options : BalancerOptions) (procs : Z) : result StickySession :=
  cache ← NewSharded 0 0%nat procs 1000;
  Ok (mkStickySession (NewConsistentHashing outbounds options) (Sharded.SetLifetime cache (balTTL options))).

Definition sessionIndex (key nano : Z) (n : nat) : nat := Z.to_nat (jumpHash (u64 (key + u64 nano)) (Z.of_nat n)).

(** The index that is stored, if there is one in range, or a new one *)
Definition firstIndex (cached : option nat) (key : Z) (nano : list Z) (n : nat) : option (nat * list Z) :=
  let fresh := match nano with t :: nano => Some (sessionIndex key t n, nano) | [] => None end in
  match cached with Some idx => if (idx <? n)%nat then Some (idx, nano) else fresh | None => fresh end.

(** The loop of [Select]: the index, and whether its outbound was found alive *)
Fixpoint trySessions (s : Hashing) (net : string) (key : Z) (retry : nat) (nano : list Z) (nowIdx : nat) : option (nat * bool) :=
  match retry with
  | O => Some (nowIdx, false)
  | S retry =>
      let outs := at_ (hOutbounds s) net in
      proxy ← outboundAt outs nowIdx;
      if Alive s net proxy then Some (nowIdx, true)
      else match nano with t :: nano => trySessions s net key retry nano (sessionIndex key t (length outs)) | [] => None end
  end.

Definition StickySession_Select (s : StickySession) (now later : Z) (nano : list Z) (metadata : InboundContext) (net : string) : option (Outbound * StickySession) :=
  let h := ssHashing s in
  let key := maphash_String (getKeyWithSrcAndDst metadata) in
  let outs := at_ (hOutbounds h) net in
  '(cached, cache) ← Sharded.Get maphash_Uint64 (lruCache s) now key;
  '(idx, nano) ← firstIndex cached key nano (length outs);
  '(nowIdx, alive) ← trySessions h net key (Z.to_nat (maxRetry h - 1)) nano idx;
  cache ← (if (alive : bool) && bool_decide (is_Some cached) && (nowIdx =? idx)%nat then Some cache else snd <$> Sharded.Add maphash_Uint64 cache later key nowIdx);
  proxy ← outboundAt outs nowIdx;
  Some (proxy, mkStickySession h cache).

(** ** [balancer.go] *)

Inductive Strategy :=
  | StrategyRoundRobin (s : RoundRobin)
  | StrategyConsistentHashing (s : Hashing)
  | StrategyStickySessions (s : StickySession)
  | StrategyLowestDelay (s : LowestDelay).

Record Balancer := mkBalancer { balOptions : BalancerOptions; strategyFn : option Strategy }.

Definition NewLoadBalance (options : BalancerOptions) : result Balancer :=
  match balTags options with [] => Err "missing tags" | _ => Ok (mkBalancer options None) end.

Fixpoint resolveOutbounds (find : string -> option Outbound) (i : nat) (tags : list string) : result (list Outbound) :=
  match tags with
  | [] => Ok []
  | tag :: tags =>
      match find tag with
      | None => Err ("outbound " +:+ pretty i +:+ " not found: " +:+ tag)%string
      | Some detour => outbounds ← resolveOutbounds find (S i) tags; Ok (detour :: outbounds)
      end
  end.

Definition Balancer_Start (b : Balancer) (find : string -> option Outbound) (procs : Z) : option (result Balancer) :=
  let options := balOptions b in
  let started strategy := Some (Ok (mkBalancer options (Some strategy))) in
  match resolveOutbounds find 0 (balTags options) with
  | Err e => Some (Err e)
  | Ok outbounds =>
      if String.eqb (balStrategy options) "round-robin" then started (StrategyRoundRobin (NewRoundRobin outbounds options))
      else if String.eqb (balStrategy options) "consistent-hashing" then started (StrategyConsistentHashing (NewConsistentHashing outbounds options))
      else if String.eqb (balStrategy options) "sticky-sessions" then
        match NewStickySession outbounds options procs with Ok s => started (StrategyStickySessions s) | Err _ => None end
      else if String.eqb (balStrategy options) "lowest-delay" then s ← NewLowestDelay outbounds; started (StrategyLowestDelay s)
      else Some (Err ("unknown load balance strategy: " +:+ balStrategy options)%string)
  end.

(** When a strategy selects: the clock of the cache before and after its loop, and the times of
    the tries *)
Record Clock := mkClock { clNow : Z; clLater : Z; clNano : list Z }.

Definition Strategy_Select (s : Strategy) (t : Clock) (metadata : InboundContext) (net : string) : option (option Outbound * Strategy) :=
  match s with
  | StrategyRoundRobin s => '(o, s) ← RoundRobin_Select s net true; Some (o, StrategyRoundRobin s)
  | StrategyConsistentHashing h => o ← ConsistentHashing_Select h metadata net; Some (Some o, s)
  | StrategyStickySessions s => '(o, s) ← StickySession_Select s (clNow t) (clLater t) (clNano t) metadata net; Some (Some o, StrategyStickySessions s)
  | StrategyLowestDelay l => Some (LowestDelay_Select l net, s)
  end.

Definition Strategy_Update (s : Strategy) (history : History) : option (bool * Strategy) :=
  match s with
  | StrategyRoundRobin s => '(changed, s) ← RoundRobin_Update s history; Some (changed, StrategyRoundRobin s)
  | StrategyConsistentHashing s => let '(changed, s) := Hashing_Update s history in Some (changed, StrategyConsistentHashing s)
  | StrategyStickySessions s => let '(changed, h) := Hashing_Update (ssHashing s) history in Some (changed, StrategyStickySessions (mkStickySession h (lruCache s)))
  | StrategyLowestDelay s => '(changed, s) ← LowestDelay_Update s history; Some (changed, StrategyLowestDelay s)
  end.

(** A round of [worker] for an event of the monitor: whether connections are interrupted *)
Definition Balancer_observe (b : Balancer) (history : History) : option (bool * Balancer) :=
  s ← strategyFn b;
  '(changed, s) ← Strategy_Update s history;
  Some (changed, mkBalancer (balOptions b) (Some s)).

(** [DialContext] and [ListenPacket], which asks for udp: the connection, the tag that was set
    as the real outbound, and the tag whose test was invalidated *)
Definition Balancer_Dial {Conn} (b : Balancer) (t : Clock) (metadata : InboundContext) (net : string) (dial : Outbound -> result Conn)
    : option (result Conn * option string * option string * Balancer) :=
  s ← strategyFn b;
  '(o, s) ← Strategy_Select s t metadata net;
  let b := mkBalancer (balOptions b) (Some s) in
  match o with
  | None => Some (Err "missing supported outbound", None, None, b)
  | Some o =>
      match dial o with
      | Ok conn => Some (Ok conn, Some (outTag o), None, b)
      | Err e => Some (Err e, Some (outTag o), Some (outTag o), b)
      end
  end.
End balancer.

Arguments mkPerNet {A}. Arguments ofTCP {A}. Arguments ofUDP {A}.
