(* ===== verification/BalancerSpec.v ===== *)
(** * What the load balancer chooses

    The hash moves few keys when a member is added, the members that are fast enough get
    connections in turn, and a member that answers is found if there is one. *)

From Stdlib Require Import Sorted.
From S2P Require Import Prelude Binary Netip Context OutboundManager Groups.
From S2P Require Import FreeLRU FreeLRUSpec FreeLRURefine FreeLRUShardedSpec FreeLRUClaims Balancer Concrete.

(** ** Rounding *)

Module float64_lemmas.
Import float64.

Lemma nearest_ge n d k : 0 < d -> k * d <= n -> k <= nearest n d.
Proof. intros Hd Hk. assert (k <= n / d) by (apply Z.div_le_lower_bound; lia). unfold nearest. destruct (_ || _); lia. Qed.

Lemma exponent_large n d : 0 < n -> 0 < d -> 0 < exponent n d -> 2 ^ 52 * (d * 2 ^ exponent n d) <= n.
Proof.
  intros Hn Hd. pose proof (Z.log2_spec n Hn) as [L1 L2]. pose proof (Z.log2_spec d Hd) as [M1 M2]. unfold exponent. set (e := Z.log2 n - Z.log2 d - 52). destruct (Z.ltb_spec (n * 2 ^ Z.max 0 (- e)) (2 ^ 52 * (d * 2 ^ Z.max 0 e))) as [Hlt|Hge]; intros He.
  - assert (E : 2 ^ Z.log2 n = 2 ^ 52 * (2 ^ Z.succ (Z.log2 d) * 2 ^ (e - 1))) by (rewrite <- !Z.pow_add_r by (pose proof (Z.log2_nonneg d); lia); f_equal; lia). pose proof (Z.pow_pos_nonneg 2 (e - 1) ltac:(lia) ltac:(lia)). nia.
  - rewrite (Z.max_l 0 (- e)), (Z.max_r 0 e) in Hge by lia. lia.
Qed.

(** Rounding does not go below a number that can be represented. *)
Lemma round_ge n d k : 0 < d -> 0 <= k < 2 ^ 53 -> k * d <= n -> k * den (round n d) <= num (round n d) /\ 0 < den (round n d).
Proof.
  intros Hd Hk Hn. unfold round. rewrite (proj2 (Z.ltb_ge n 0)) by nia. unfold roundPos. destruct (Z.eqb_spec n 0) as [->|Hne]; [unfold num, den; cbn; nia|]. set (e := exponent n d). unfold num, den. cbn [mant expo].
  pose proof (Z.pow_pos_nonneg 2 (Z.max 0 (- e)) ltac:(lia) ltac:(lia)) as P1. pose proof (Z.pow_pos_nonneg 2 (Z.max 0 e) ltac:(lia) ltac:(lia)) as P2. split; [|lia].
  destruct (Z.le_gt_cases e 0) as [He|He].
  - rewrite (Z.max_l 0 e) by lia. rewrite Z.pow_0_r, !Z.mul_1_r. apply nearest_ge; [lia|]. nia.
  - rewrite (Z.max_l 0 (- e)), (Z.max_r 0 e) by lia. rewrite Z.pow_0_r, Z.mul_1_r. pose proof (exponent_large n d ltac:(lia) Hd He) as Hl. fold e in Hl. rewrite Z.mul_1_r.
    assert (2 ^ 52 <= nearest n (d * 2 ^ e)) by (rewrite (Z.max_r 0 e) in P2 by lia; apply nearest_ge; [nia|lia]).
    assert (2 <= 2 ^ e) by (change 2 with (2 ^ 1) at 1; apply Z.pow_le_mono_r; lia). nia.
Qed.

Lemma trunc_ge f k : 0 <= k -> 0 < den f -> k * den f <= num f -> k <= trunc f.
Proof. intros Hk Hd Hn. unfold trunc. rewrite Z.quot_div_nonneg by nia. apply Z.div_le_lower_bound; lia. Qed.

Lemma num_ofZ n : num (ofZ n) = n.
Proof. unfold num, ofZ. cbn [mant expo]. change (2 ^ Z.max 0 0) with 1. lia. Qed.
End float64_lemmas.

(** ** The hash *)

Lemma nextJump_grows b key : 0 <= b < 2 ^ 31 -> fits 64 key -> b + 1 <= nextJump b key.
Proof.
  intros Hb Hkey. unfold nextJump, float64.mul, float64.div. rewrite !float64_lemmas.num_ofZ. change (float64.den (float64.ofZ (Z.shiftl 1 31))) with 1. change (float64.den (float64.ofZ (b + 1))) with 1. change (float64.den (float64.ofZ (Z.shiftr key 33 + 1))) with 1.
  assert (Hk : 1 <= Z.shiftr key 33 + 1 <= 2 ^ 31) by (rewrite Z.shiftr_div_pow2 by lia; unfold fits in Hkey; divlia).
  rewrite !Z.mul_1_r, !Z.mul_1_l. destruct (float64_lemmas.round_ge (Z.shiftl 1 31) (Z.shiftr key 33 + 1) 1) as [H1 H2]; [lia|lia|change (Z.shiftl 1 31) with (2 ^ 31); lia|]. set (r := float64.round (Z.shiftl 1 31) (Z.shiftr key 33 + 1)) in *.
  destruct (float64_lemmas.round_ge ((b + 1) * float64.num r) (float64.den r) (b + 1)) as [H3 H4]; [lia|lia|nia|]. by apply float64_lemmas.trunc_ge; [lia| |].
Qed.

Lemma nextKey_fits key : fits 64 (nextKey key).
Proof. apply wrap_fits. lia. Qed.

Lemma jumpLoop_ends fuel : forall key b j n, 0 <= j -> n < 2 ^ 31 -> n - j <= Z.of_nat fuel -> exists r, jumpLoop fuel key b j n = Some r /\ (if j <? n then j <= r < n else r = b).
Proof.
  induction fuel as [|fuel IH]; intros key b j n Hj Hn Hf; cbn [jumpLoop]; (destruct (Z.ltb_spec j n); [|by exists b]); [lia|].
  pose proof (nextJump_grows j (nextKey key) ltac:(lia) (nextKey_fits key)) as Hg. destruct (IH (nextKey key) j (nextJump j (nextKey key)) n ltac:(lia) Hn ltac:(lia)) as (r & -> & Hr). exists r. split; [done|]. destruct (Z.ltb_spec (nextJump j (nextKey key)) n); lia.
Qed.

(** With one bucket more the loop gives the same, or the new bucket. *)
Lemma jumpLoop_more fuel : forall key b j n r, 0 <= j -> n < 2 ^ 31 -> jumpLoop fuel key b j n = Some r -> jumpLoop (S fuel) key b j (n + 1) = Some r \/ jumpLoop (S fuel) key b j (n + 1) = Some n.
Proof.
  induction fuel as [|fuel IH]; intros key b j n r Hj Hn; cbn [jumpLoop].
  - destruct (Z.ltb_spec j n); [done|]. intros [= <-]. destruct (Z.ltb_spec j (n + 1)) as [Hlt|]; [|by left]. assert (j = n) as -> by lia. pose proof (nextJump_grows n (nextKey key) ltac:(lia) (nextKey_fits key)). cbv zeta. rewrite (proj2 (Z.ltb_ge (nextJump n (nextKey key)) (n + 1))) by lia. by right.
  - destruct (Z.ltb_spec j n) as [Hlt|Hge].
    + intros E. rewrite (proj2 (Z.ltb_lt j (n + 1))) by lia. pose proof (nextJump_grows j (nextKey key) ltac:(lia) (nextKey_fits key)). apply (IH (nextKey key) j (nextJump j (nextKey key)) n r); [lia|done|exact E].
    + intros [= <-]. destruct (Z.ltb_spec j (n + 1)) as [Hlt|]; [|by left]. assert (j = n) as -> by lia. pose proof (nextJump_grows n (nextKey key) ltac:(lia) (nextKey_fits key)). cbv zeta. rewrite (proj2 (Z.ltb_ge (nextJump n (nextKey key)) (n + 1))) by lia. by right.
Qed.

Lemma jumpHash_loop key n : 0 < n < 2 ^ 31 -> jumpLoop (Z.to_nat n) key 0 0 n = Some (jumpHash key n) /\ 0 <= jumpHash key n < n.
Proof.
  intros Hn. unfold jumpHash. destruct (jumpLoop_ends (Z.to_nat n) key 0 0 n) as (r & -> & Hr); [lia|lia|lia|]. rewrite (proj2 (Z.ltb_lt 0 n)) in Hr by lia. done.
Qed.

(** C38. For any key and between 1 and 2^31-2 buckets the jump hash, with the float64
    rounding of its loop, ends, gives one of the buckets, and with a bucket more keeps
    a key where it was or moves it to the new bucket. *)
Theorem jump_consistent key n : 0 < n < 2 ^ 31 - 1 ->
  jumpLoop (Z.to_nat n) key 0 0 n = Some (jumpHash key n) /\ 0 <= jumpHash key n < n /\ (jumpHash key (n + 1) = jumpHash key n \/ jumpHash key (n + 1) = n).
Proof.
  intros Hn. destruct (jumpHash_loop key n ltac:(lia)) as [E1 R1]. destruct (jumpHash_loop key (n + 1) ltac:(lia)) as [E2 _]. split_and!; [done|lia|lia|].
  replace (Z.to_nat (n + 1)) with (S (Z.to_nat n)) in E2 by lia. destruct (jumpLoop_more _ key 0 0 n _ ltac:(lia) ltac:(lia) E1) as [E|E]; [left|right]; congruence.
Qed.

Lemma jump_consistent_witness : jumpHash 42 57 = 43 /\ jumpLoop 57 42 0 0 57 = Some 43 /\ (jumpHash 42 58 = 43 \/ jumpHash 42 58 = 57).
Proof. pose proof (jump_consistent 42 57 ltac:(lia)) as (H1 & _ & H3). split; [by vm_compute|]. split; [by vm_compute|]. exact H3. Defined.

(** The values of the published test of the algorithm *)
Example jump_vectors : jumpHash 1 1 = 0 /\ jumpHash 0xDEAD10CC 1 = 0 /\ jumpHash 0xDEAD10CC 666 = 361 /\ jumpHash 256 1024 = 520.
Proof. by vm_compute. Qed.

(** ** Sorting by delay *)

Section strategies.
Context `{BalancerExternal} {IpInfo : Type}.
Implicit Types (history : History (IpInfo := IpInfo)) (outs : list Outbound) (o : Outbound).

Definition delayOf history o : Z := getTagDelay (outTag o) history.

Lemma insertByDelay_perm history x outs : insertByDelay history x outs ≡ₚ x :: outs.
Proof. induction outs as [|y outs IH]; [done|]. cbn [insertByDelay]. destruct (_ <=? _); [done|]. rewrite IH. apply perm_swap. Qed.

Lemma sortByDelay_perm history outs : sortByDelay history outs ≡ₚ outs.
Proof. induction outs as [|x outs IH]; [done|]. change (sortByDelay history (x :: outs)) with (insertByDelay history x (sortByDelay history outs)). by rewrite insertByDelay_perm, IH. Qed.

Abbreviation byDelay history := (fun x y : Outbound => delayOf history x <= delayOf history y).

Lemma insertByDelay_sorted history x outs : StronglySorted (byDelay history) outs -> StronglySorted (byDelay history) (insertByDelay history x outs).
Proof.
  induction 1 as [|y outs Hs IH Hy]; [by repeat constructor|]. cbn [insertByDelay]. fold (delayOf history x). fold (delayOf history y). destruct (Z.leb_spec (delayOf history x) (delayOf history y)).
  - constructor; [by constructor|]. constructor; [done|]. eapply Forall_impl; [exact Hy|]. cbv beta. intros z. lia.
  - constructor; [done|]. rewrite insertByDelay_perm. constructor; [lia|done].
Qed.

Lemma sortByDelay_sorted history outs : StronglySorted (byDelay history) (sortByDelay history outs).
Proof. induction outs as [|x outs IH]; [constructor|]. apply insertByDelay_sorted, IH. Qed.

(** ** In turn *)

(** The members that are not slower than a limit are a prefix of the sorted list. *)
Lemma lastIndex_spec history limit outs : StronglySorted (byDelay history) outs -> forall i last,
  let good := filter (fun o => delayOf history o <= limit) outs in
  take (length good) outs = good /\ lastIndex history limit i last outs = match good with [] => last | _ => (i + length good - 1)%nat end.
Proof.
  induction 1 as [|o outs Hs IH Ho]; intros i last; [done|]. cbv zeta in *. cbn [lastIndex]. fold (delayOf history o). rewrite filter_cons. destruct (Z.leb_spec (delayOf history o) limit) as [Hle|Hgt].
  - rewrite decide_True by done. destruct (IH (S i) i) as [IH1 IH2]. cbn [length firstn]. split; [by rewrite IH1|]. rewrite IH2. destruct (filter _ outs); cbn [length]; lia.
  - rewrite decide_False by lia. assert (E : filter (fun o => delayOf history o <= limit) outs = []).
    { clear IH Hs. induction Ho as [|y outs Hy Ho IH]; [done|]. cbv beta in Hy. rewrite filter_cons, decide_False by lia. exact IH. }
    destruct (IH (S i) last) as [_ IH2]. rewrite E in *. by split.
Qed.

(** [n] selections one after the other *)
Fixpoint selects (n : nat) (s : RoundRobin) (net : string) : option (list (option Outbound) * RoundRobin) :=
  match n with
  | O => Some ([], s)
  | S n => '(o, s) ← RoundRobin_Select s net true; '(os, s) ← selects n s net; Some (o :: os, s)
  end.

Lemma at_setAt {A} (m : perNet A) net x : at_ (setAt m net x) net = x.
Proof. unfold at_, setAt. by destruct (String.eqb net NetworkUDP). Qed.

Lemma selects_turn (l : list Outbound) (k : nat) net n : (0 < k <= length l)%nat -> forall s, at_ (sortedOutbounds s) net = l -> at_ (maxAcceptableIndex s) net = Z.of_nat k - 1 ->
  exists s', selects n s net = Some ((fun i => l !! ((at_ (rrIdx s) net + i) mod k)%nat) <$> seq 1 n, s').
Proof.
  intros Hk. induction n as [|n IH]; intros s Hl Hi; [by exists s|]. cbn [selects]. unfold RoundRobin_Select. rewrite Hl, Hi. replace (Z.of_nat k - 1 + 1) with (Z.of_nat k) by lia. rewrite (proj2 (Z.eqb_neq _ _)) by lia.
  set (a := at_ (rrIdx s) net). assert (Eid : Z.to_nat ((Z.of_nat a + 1) mod Z.of_nat k) = ((a + 1) mod k)%nat) by (change 1 with (Z.of_nat 1) at 1; rewrite <- Nat2Z.inj_add, <- Nat2Z.inj_mod, Nat2Z.id; done). rewrite Eid.
  assert (Hb : ((a + 1) mod k < k)%nat) by (apply Nat.mod_upper_bound; lia). unfold outboundAt. destruct (lookup_lt_is_Some_2 l ((a + 1) mod k)%nat) as [proxy Hp]; [lia|]. rewrite Hp. cbn [mbind option_bind].
  set (s1 := mkRoundRobin _ _ _ _ _). destruct (IH s1 Hl Hi) as [s' ->]. exists s'. cbn [mbind option_bind seq fmap list_fmap]. rewrite Hp. do 3 f_equal. change (rrIdx s1) with (setAt (rrIdx s) net ((a + 1) mod k)%nat). rewrite at_setAt.
  rewrite <- (fmap_S_seq 1 n), <- list_fmap_compose. apply list_fmap_ext. intros j i _. cbn. f_equal. rewrite Nat.Div0.add_mod_idemp_l. f_equal. lia.
Qed.

Lemma window_perm a k : (0 < k)%nat -> (fun i => ((a + i) mod k)%nat) <$> seq 1 k ≡ₚ seq 0 k.
Proof.
  intros Hk. apply submseteq_length_Permutation; [|by rewrite length_fmap, !length_seq]. apply NoDup_submseteq.
  - apply NoDup_fmap_2_strong; [|apply NoDup_seq]. intros i j Hi%elem_of_seq Hj%elem_of_seq E. pose proof (Nat.div_mod_eq (a + i) k) as Di. pose proof (Nat.div_mod_eq (a + j) k) as Dj. cbv beta in E. rewrite E in Di. destruct (Nat.lt_trichotomy ((a + i) / k) ((a + j) / k)) as [Hlt|[Heq|Hgt]]; nia.
  - intros x (i & -> & _)%list_elem_of_fmap. apply elem_of_seq. pose proof (Nat.mod_upper_bound (a + i) k). lia.
Qed.

Lemma lookups_take (l : list Outbound) k : (k <= length l)%nat -> (fun i => l !! i) <$> seq 0 k = Some <$> take k l.
Proof.
  intros Hk. apply list_eq. intros i. rewrite !list_lookup_fmap. destruct (Nat.lt_ge_cases i k).
  - rewrite lookup_seq_lt, lookup_take_lt by done. cbn. destruct (lookup_lt_is_Some_2 l i) as [x ->]; [lia|done].
  - rewrite lookup_seq_ge, lookup_take_ge by done. done.
Qed.

(** Any [k] selections in a row, after [m] others *)
Lemma selects_fair (l : list Outbound) (k : nat) s net m : (0 < k <= length l)%nat -> at_ (sortedOutbounds s) net = l -> at_ (maxAcceptableIndex s) net = Z.of_nat k - 1 ->
  exists before turn s', selects (m + k) s net = Some (before ++ turn, s') /\ length before = m /\ turn ≡ₚ Some <$> take k l.
Proof.
  intros Hk Hl Hi. destruct (selects_turn l k net (m + k) Hk s Hl Hi) as [s' ->]. set (f := fun i => l !! _). rewrite seq_app, fmap_app. exists (f <$> seq 1 m), (f <$> seq (1 + m) k), s'. split_and!; [done|by rewrite length_fmap, length_seq|].
  rewrite <- lookups_take by lia. rewrite <- (window_perm (at_ (rrIdx s) net + m) k) by lia. rewrite <- list_fmap_compose. replace (seq (1 + m) k) with ((fun i => m + i)%nat <$> seq 1 k) by (rewrite fmap_add_seq; f_equal; lia).
  rewrite <- list_fmap_compose. apply Permutation_refl', list_fmap_ext. intros j i _. unfold f. cbn. do 2 f_equal. lia.
Qed.
Lemma at_mapNet {A B} (f : A -> B) m net : at_ (mapNet f m) net = f (at_ m net).
Proof. unfold at_, mapNet. by destruct (String.eqb net NetworkUDP). Qed.

Lemma acceptable_at sorted history ratio r net : getAcceptableIndex sorted history ratio = Some r -> acceptableIndex history ratio (at_ sorted net) = Some (at_ r net).
Proof.
  unfold getAcceptableIndex. destruct (acceptableIndex _ _ (ofTCP sorted)) as [tcp|] eqn:E1; [|done]. destruct (acceptableIndex _ _ (ofUDP sorted)) as [udp|] eqn:E2; [|done]. intros [= <-]. unfold at_. by destruct (String.eqb net NetworkUDP).
Qed.

(** The least delay of some outbounds *)
Definition lowestDelay history outs (d : Z) : Prop := (exists o, o ∈ outs /\ delayOf history o = d) /\ (forall o, o ∈ outs -> d <= delayOf history o).

Lemma acceptable_prefix history ratio outs k : acceptableIndex history ratio (sortByDelay history outs) = Some k ->
  exists d turn, lowestDelay history outs d /\ turn = take (S k) (sortByDelay history outs) /\ length turn = S k /\
    match filter (fun o => delayOf history o <= acceptableDelay d ratio) outs with [] => exists best, turn = [best] /\ best ∈ outs /\ delayOf history best = d | good => turn ≡ₚ good end.
Proof.
  unfold acceptableIndex. pose proof (sortByDelay_perm history outs) as Hp. pose proof (sortByDelay_sorted history outs) as Hs. set (sorted := sortByDelay history outs) in *. destruct sorted as [|o rest] eqn:Es; [done|]. cbn [outboundAt lookup list_lookup mbind option_bind]. rewrite <- Es in *.
  fold (delayOf history o). set (d := delayOf history o). set (limit := acceptableDelay d ratio). intros [= <-]. exists d, (take (S (lastIndex history limit 0 0 sorted)) sorted). destruct (lastIndex_spec history limit sorted Hs 0 0) as [Ht Hl]. cbv zeta in Ht, Hl.
  assert (Hlow : lowestDelay history outs d).
  { split; [exists o; split; [|done]; rewrite <- Hp, Es; by left|]. intros x. rewrite <- Hp, Es. intros [->|Hx]%elem_of_cons; [done|]. rewrite Es in Hs. apply StronglySorted_inv in Hs as [_ Hs]. by eapply Forall_forall in Hs. }
  assert (Hperm : filter (fun o => delayOf history o <= limit) sorted ≡ₚ filter (fun o => delayOf history o <= limit) outs) by by rewrite Hp.
  fold limit. destruct (filter (fun o => delayOf history o <= limit) sorted) as [|g good'] eqn:Eg; rewrite Hl; (split; [exact Hlow|]); (split; [reflexivity|]).
  - rewrite Es. split; [done|]. apply Permutation_nil in Hperm. rewrite Hperm. exists o. split_and!; [done|rewrite <- Hp, Es; by left|done].
  - cbn [length]. replace (S (0 + S (length good') - 1))%nat with (length (g :: good')) by (cbn; lia). rewrite Ht. split; [done|]. destruct (filter _ outs); [by apply Permutation_nil_r in Hperm|done].
Qed.

Definition realHistory history : Prop := forall tag his, history !! tag = Some (Some his) -> 0 <= Delay his < 2 ^ 16.

Lemma delayOf_max history o : realHistory history -> delayOf history o <= TimeoutDelay.
Proof.
  intros Hh. unfold delayOf, getTagDelay. destruct (history !! outTag o) as [[his|]|] eqn:E; try done. apply Hh in E. unfold getModifiedDelay, TimeoutDelay. pose proof (wrap_fits 16 (Delay his + 20000) ltac:(lia)) as Hw. unfold fits in Hw.
  repeat case_match; lia.
Qed.

Lemma delayOf_nonneg history o : realHistory history -> 0 <= delayOf history o.
Proof.
  intros Hh. unfold delayOf, getTagDelay. destruct (history !! outTag o) as [[his|]|] eqn:E; try done. apply Hh in E. unfold getModifiedDelay, TimeoutDelay. pose proof (wrap_fits 16 (Delay his + 20000) ltac:(lia)) as Hw. unfold fits in Hw.
  repeat case_match; lia.
Qed.

(** The limit, when it is in the range of its type *)
Lemma acceptableDelay_fits d ratio : let limit := float64.trunc (float64.mul (float64.ofZ (Z.max 100 d)) ratio) in 0 <= limit < 2 ^ 16 -> acceptableDelay d ratio = limit.
Proof. intros limit [H0 H1]. unfold acceptableDelay. cbv zeta. fold limit. by rewrite (proj2 (Z.leb_le 0 _) H0), (proj2 (Z.ltb_lt _ _) H1). Qed.

(** With a ratio of one at least the limit is the lowest delay at least. *)
Lemma limit_ge d ratio : 0 <= d < 2 ^ 16 -> 0 < float64.den ratio <= float64.num ratio -> Z.max 100 d <= float64.trunc (float64.mul (float64.ofZ (Z.max 100 d)) ratio).
Proof.
  intros Hd Hr. unfold float64.mul. rewrite float64_lemmas.num_ofZ. change (float64.den (float64.ofZ (Z.max 100 d))) with 1. rewrite Z.mul_1_l. destruct (float64_lemmas.round_ge (Z.max 100 d * float64.num ratio) (float64.den ratio) (Z.max 100 d)) as [G1 G2]; [lia|lia|nia|]. by apply float64_lemmas.trunc_ge; [lia| |].
Qed.

(** C37.  After measurements the round robin strategy serves in turn exactly the members whose
    delay (as the balancer counts it) is within a limit, the 16-bit conversion of the product of
    the ratio and the lowest delay, counted as 100 ms at least: whatever was selected before, as
    many selections in a row as there are such members give each of them once, and one of the
    fastest every time if the limit admits none.  If the ratio is one at least and the product is
    below 2^16, the limit is the product rounded to a double and truncated, and the fastest
    members are admitted. *)
Theorem round_robin_fair s history net changed s' m : RoundRobin_Update s history = Some (changed, s') -> let outs := at_ (rrOutbounds s) net in
  exists d turn before result s'', lowestDelay history outs d /\
    match filter (fun o => delayOf history o <= acceptableDelay d (rrRatio s)) outs with
    | [] => exists best, turn = [best] /\ best ∈ outs /\ delayOf history best = d
    | good => turn ≡ₚ good
    end /\
    (let limit := float64.trunc (float64.mul (float64.ofZ (Z.max 100 d)) (rrRatio s)) in
     realHistory history -> 0 < float64.den (rrRatio s) <= float64.num (rrRatio s) -> limit < 2 ^ 16 ->
     d <= limit /\ turn ≡ₚ filter (fun o => delayOf history o <= limit) outs) /\
    selects (m + length turn) s' net = Some (before ++ result, s'') /\ length before = m /\ result ≡ₚ Some <$> turn.
Proof.
  unfold RoundRobin_Update. destruct (getAcceptableIndex _ _ _) as [r|] eqn:E; [|done]. cbn [mbind option_bind]. intros [= _ <-]. apply (acceptable_at _ _ _ _ net) in E. unfold sortOutboundsByDelay in *. rewrite at_mapNet in E.
  destruct (acceptable_prefix _ _ _ _ E) as (d & turn & Hlow & Hturn & Hlen & Hgood). set (s1 := mkRoundRobin _ _ _ _ _). set (sorted := sortByDelay history (at_ (rrOutbounds s) net)) in *. cbv zeta.
  destruct (selects_fair sorted (S (at_ r net)) s1 net m) as (before & result & s'' & Hsel & Hb & Hr).
  - split; [lia|]. rewrite Hturn, length_take in Hlen. lia.
  - unfold s1. cbn [sortedOutbounds]. apply at_mapNet.
  - unfold s1. cbn [maxAcceptableIndex]. rewrite at_mapNet. lia.
  - exists d, turn, before, result, s''. rewrite Hlen. split_and!; try done; [|by rewrite Hturn]. intros Hh Hratio Hlim. destruct Hlow as [(best & Hbest & Hd) _].
    pose proof (delayOf_max history best Hh) as Hmax. pose proof (delayOf_nonneg history best Hh). unfold TimeoutDelay in Hmax. pose proof (limit_ge d (rrRatio s) ltac:(lia) Hratio) as Hge. rewrite (acceptableDelay_fits d (rrRatio s)) in Hgood by (cbv zeta; lia). split; [lia|].
    destruct (filter _ _) as [|g good] eqn:Ef; [|done]. exfalso. apply (not_elem_of_nil best). rewrite <- Ef. apply list_elem_of_filter. split; [lia|done].
Qed.

(** ** The lowest delay *)

Lemma minDelayOf_spec history outs : forall minOut minDelay, (match minOut with Some o => delayOf history o = minDelay | None => True end) ->
  let '(out, d) := fold_left (fun '(minOut, minDelay) out => let d := getTagDelay (outTag out) history in if d <=? minDelay then (Some out, d) else (minOut, minDelay)) outs (minOut, minDelay) in
  d <= minDelay /\ (forall o, o ∈ outs -> d <= delayOf history o) /\ match out with Some o => delayOf history o = d /\ (o ∈ outs \/ minOut = Some o) | None => minOut = None end.
Proof.
  induction outs as [|x outs IH]; intros minOut minDelay Hm; cbn [fold_left]; [split_and!; [done|by intros o ?%not_elem_of_nil|]; destruct minOut; auto|]. cbv zeta. fold (delayOf history x). destruct (Z.leb_spec (delayOf history x) minDelay).
  - specialize (IH (Some x) (delayOf history x) eq_refl). destruct (fold_left _ outs _) as [out d]. destruct IH as (I1 & I2 & I3). split_and!; [lia|intros o [->|Ho]%elem_of_cons; [lia|auto]|]. destruct out as [o|]; [|done]. destruct I3 as [I3 [I4|[= ->]]]; split; try done; left; [by right|by left].
  - specialize (IH minOut minDelay Hm). destruct (fold_left _ outs _) as [out d]. destruct IH as (I1 & I2 & I3). split_and!; [lia|intros o [->|Ho]%elem_of_cons; [lia|auto]|]. destruct out as [o|]; [|done]. destruct I3 as [I3 [I4|I4]]; split; try done; [left; by right|by right].
Qed.

(** After measurements all connections go to a member with the lowest delay. *)
Lemma lowest_selected s history net changed s' : LowestDelay_Update s history = Some (changed, s') ->
  exists o, LowestDelay_Select s' net = Some o /\ o ∈ at_ (ldOutbounds s) net /\ lowestDelay history (at_ (ldOutbounds s) net) (delayOf history o).
Proof.
  unfold LowestDelay_Update, getMinDelay. cbv beta iota. destruct (ofTCP (mapNet _ _)) as [tcp|] eqn:E1; [|done]. cbn [mbind option_bind]. destruct (ofTCP (selectedOutbound s)); [|done]. cbn [mbind option_bind]. destruct (ofUDP (mapNet _ _)) as [udp|] eqn:E2; [|done]. cbn [mbind option_bind]. destruct (ofUDP (selectedOutbound s)); [|done]. cbn [mbind option_bind]. intros [= _ <-].
  unfold LowestDelay_Select. cbn [selectedOutbound]. rewrite at_mapNet. set (outs := at_ (ldOutbounds s) net). pose proof (minDelayOf_spec history outs None TimeoutDelay I) as Hm. assert (Hs : is_Some (minDelayOf history outs).1) by (unfold outs, at_; destruct (String.eqb net NetworkUDP); [exists udp|exists tcp]; done).
  change (fold_left _ outs (None, TimeoutDelay)) with (minDelayOf history outs) in Hm. destruct (minDelayOf history outs) as [out d]. cbn [fst] in *. destruct Hs as [best ->]. destruct Hm as (_ & M2 & M3 & [M4|?]); [|done]. exists best. split_and!; [done|done|]. split; [by exists best|]. rewrite M3. exact M2.
Qed.

(** ** Consistent hashing *)

Section hashing.
Context (s : Hashing) (net : string) (Hne : (0 < length (at_ (hOutbounds s) net))%nat) (Hlen : Z.of_nat (length (at_ (hOutbounds s) net)) < 2 ^ 31).
Let outs := at_ (hOutbounds s) net.

Lemma bucket_exists key : exists o, outboundAt outs (Z.to_nat (jumpHash key (Z.of_nat (length outs)))) = Some o /\ o ∈ outs.
Proof.
  destruct (jumpHash_loop key (Z.of_nat (length outs))) as [_ Hr]; [unfold outs; lia|]. destruct (lookup_lt_is_Some_2 outs (Z.to_nat (jumpHash key (Z.of_nat (length outs))))) as [o Ho]; [lia|]. exists o. split; [done|]. by eapply list_elem_of_lookup_2.
Qed.

Lemma tryBuckets_finds retry : forall key, exists r, tryBuckets s net retry key = Some r /\ match r with inl o => o ∈ outs /\ Alive s net o = true | inr _ => True end.
Proof.
  induction retry as [|retry IH]; intros key; [by eexists|]. cbn [tryBuckets]. fold outs. destruct (bucket_exists key) as (o & -> & Ho). cbn [mbind option_bind]. destruct (Alive s net o) eqn:Ea; [by eexists|apply IH].
Qed.

Lemma hashing_finds metadata : exists o, ConsistentHashing_Select s metadata net = Some o /\ o ∈ outs /\ (Exists (fun o => Alive s net o = true) outs -> Alive s net o = true).
Proof.
  unfold ConsistentHashing_Select. fold outs. destruct (tryBuckets_finds (Z.to_nat (maxRetry s)) (maphash_String (getKey metadata))) as ([o|key] & -> & Hr); cbn [mbind option_bind].
  - exists o. destruct Hr as [Ho Ha]. by split_and!.
  - destruct (List.find (Alive s net) outs) as [o|] eqn:Ef.
    + apply find_some in Ef as [Ho Ha]. exists o. split_and!; [done|by apply list_elem_of_In|done].
    + destruct (bucket_exists key) as (o & E & Ho). exists o. split_and!; [done|done|]. intros (x & Hx & Ha)%Exists_exists. eapply find_none in Ef; [|by apply list_elem_of_In]. congruence.
Qed.

Lemma sessionIndex_lt key t : (sessionIndex key t (length outs) < length outs)%nat.
Proof. unfold sessionIndex. destruct (jumpHash_loop (u64 (key + u64 t)) (Z.of_nat (length outs))) as [_ Hr]; [unfold outs; lia|]. lia. Qed.

Lemma firstIndex_lt cached key nano : (0 < length nano)%nat -> exists idx nano', firstIndex cached key nano (length outs) = Some (idx, nano') /\ (idx < length outs)%nat /\ (length nano <= S (length nano'))%nat.
Proof.
  intros Hn. destruct nano as [|t nano]; [cbn in Hn; lia|]. pose proof (sessionIndex_lt key t). unfold firstIndex. destruct cached as [i|]; [|by eexists _, _]. destruct (Nat.ltb_spec i (length outs)); eexists _, _; (split; [done|]); cbn [length]; lia.
Qed.

Lemma trySessions_finds key retry : forall nano idx, (idx < length outs)%nat -> (retry <= length nano)%nat -> exists r alive, trySessions s net key retry nano idx = Some (r, alive) /\ (r < length outs)%nat.
Proof.
  induction retry as [|retry IH]; intros nano idx Hi Hn; cbn [trySessions]; [by eexists _, _|]. fold outs. unfold outboundAt. destruct (lookup_lt_is_Some_2 outs idx Hi) as [o ->]. cbn [mbind option_bind]. destruct (Alive s net o); [by eexists _, _|].
  destruct nano as [|t nano]; cbn [length] in Hn; [lia|]. apply IH; [apply sessionIndex_lt|lia].
Qed.
End hashing.

(** Consistent hashing always gives a member, the same one for all connections to a site, and
    one that is alive as long as there is one, whatever the number of retries: dead members are
    passed over. *)
Theorem consistent_hashing_alive s metadata net : let outs := at_ (hOutbounds s) net in outs <> [] -> Z.of_nat (length outs) < 2 ^ 31 ->
  exists o, ConsistentHashing_Select s metadata net = Some o /\ o ∈ outs /\ (Exists (fun o => Alive s net o = true) outs -> Alive s net o = true) /\
    forall metadata', getKey metadata' = getKey metadata -> ConsistentHashing_Select s metadata' net = Some o.
Proof.
  intros outs Hne Hlen. destruct (hashing_finds s net) with (metadata := metadata) as (o & H1 & H2 & H3); [by destruct (at_ _ _); cbn; [|lia]|done|].
  exists o. split_and!; try done. intros metadata' Hk. unfold ConsistentHashing_Select in *. by rewrite Hk.
Qed.

(** ** Sessions *)

Section sessions.
Context (Hhash : forall k, fits 32 (maphash_Uint64 k)) (S : settings Z nat).

(** The cache holds an index for a key until a time. *)
Definition session (cache : ShardedLRU Z nat) (key : Z) (idx : nat) (until : Z) : Prop :=
  exists m x, modelsAll maphash_Uint64 S cache m /\ lookupKey key (shardList maphash_Uint64 m key) = Some x /\ enVal x = idx /\ enExpire x = until.

Lemma session_get cache now key idx until : sCheck S = None -> session cache key idx until -> until = 0 \/ now < until ->
  exists cache', Sharded.Get maphash_Uint64 cache now key = Some (Some idx, cache') /\ session cache' key idx until.
Proof.
  intros Hc (m & x & Hm & Hx & Hv & He) Hnow. destruct (sharded_models maphash_Uint64 0 Hhash S cache m now (OpGet key) Hm) as (cache' & E & Hm'). cbn [runSharded absSharded keyOf] in E, Hm'.
  destruct (atShard_list maphash_Uint64 m key key (absOp S now (OpGet key)) (ma_pow _ _ _ _ Hm)) as (_ & Hr & [[_ Hl]|[? _]]); [|done].
  unfold shardList in Hx. cbn [absOp] in Hr, Hl. unfold absFind in Hr, Hl. rewrite Hx in Hr, Hl. unfold sick in Hr, Hl. rewrite Hc in Hr, Hl.
  replace (expiredE now x) with false in Hr, Hl by (unfold expiredE; rewrite He; destruct (Z.eqb_spec until 0), (Z.leb_spec until now); cbn; lia || done). cbn in Hr, Hl.
  destruct (Sharded.Get _ _ _ _) as [[v c']|]; [|done]. cbn in E. injection E as E ->. rewrite Hr in E. injection E as ->. exists cache'. rewrite Hv. split; [done|].
  eexists _, x. split; [exact Hm'|]. rewrite Hl. split_and!; try done. pose proof (find_some _ _ Hx) as [_ <-%bool_decide_eq_true]. apply lookup_newest.
Qed.

Lemma session_add cache m now key idx : modelsAll maphash_Uint64 S cache m -> exists b cache', Sharded.Add maphash_Uint64 cache now key idx = Some (b, cache') /\ session cache' key idx (expireOf now (sLife S)).
Proof.
  intros Hm. destruct (sharded_models maphash_Uint64 0 Hhash S cache m now (OpAdd key idx) Hm) as (cache' & E & Hm'). cbn [runSharded absSharded keyOf] in E, Hm'.
  destruct (atShard_list maphash_Uint64 m key key (absOp S now (OpAdd key idx)) (ma_pow _ _ _ _ Hm)) as (_ & _ & [[_ Hl]|[? _]]); [|done].
  destruct (Sharded.Add _ _ _ _ _) as [[b c']|]; [|done]. cbn in E. injection E as _ ->. exists b, cache'. split; [done|]. eexists _, _. split; [exact Hm'|]. rewrite Hl. cbn [absOp].
  pose proof (lookup_added S now key idx (sLife S) (default (mkEntries [] []) (m !! shardIx maphash_Uint64 m key))) as Ha. destruct (absAdd _ _ _ _ _ _). cbn in *. rewrite Ha. done.
Qed.

Lemma get_kept cache m now key : modelsAll maphash_Uint64 S cache m -> exists v cache' m', Sharded.Get maphash_Uint64 cache now key = Some (v, cache') /\ modelsAll maphash_Uint64 S cache' m'.
Proof.
  intros Hm. destruct (sharded_models maphash_Uint64 0 Hhash S cache m now (OpGet key) Hm) as (cache' & E & Hm'). cbn [runSharded] in E. destruct (Sharded.Get _ _ _ _) as [[v c']|]; [|done]. injection E as _ ->. eauto.
Qed.
End sessions.
(** ** The balancer *)

Lemma minDelayOf_some history outs : realHistory history -> outs <> [] -> exists o, (minDelayOf history outs).1 = Some o /\ o ∈ outs.
Proof.
  intros Hh Hne. destruct outs as [|x outs]; [done|]. unfold minDelayOf. cbn [fold_left]. fold (delayOf history x). rewrite (proj2 (Z.leb_le _ _) (delayOf_max history x Hh)).
  enough (G : forall minOut d, minOut ∈ x :: outs -> exists o, (fold_left (fun '(minOut, minDelay) out => let d := getTagDelay (outTag out) history in if d <=? minDelay then (Some out, d) else (minOut, minDelay)) outs (Some minOut, d)).1 = Some o /\ o ∈ x :: outs) by (apply G; by left).
  enough (G : forall l, l ⊆ x :: outs -> forall minOut d, minOut ∈ x :: outs -> exists o, (fold_left (fun '(minOut, minDelay) out => let d := getTagDelay (outTag out) history in if d <=? minDelay then (Some out, d) else (minOut, minDelay)) l (Some minOut, d)).1 = Some o /\ o ∈ x :: outs) by (apply G; set_solver).
  induction l as [|y l IH]; intros Hl minOut d Hm; [by exists minOut|]. cbn [fold_left]. destruct (_ <=? _); apply IH; set_solver.
Qed.

Section balancer.
Context (Hhash : forall k, fits 32 (maphash_Uint64 k)) (options : BalancerOptions) (members : list Outbound).
Context (Hne : members <> []) (Hlen : Z.of_nat (length members) < 2 ^ 31).
Let couts := convertOutbounds members.

(** The members for a network: the ones that support it, or all *)
Lemma couts_at net : at_ couts net <> [] /\ Z.of_nat (length (at_ couts net)) < 2 ^ 31 /\ at_ couts net ⊆ members.
Proof.
  assert (G : forall network, filterOutbounds members network <> [] /\ Z.of_nat (length (filterOutbounds members network)) < 2 ^ 31 /\ filterOutbounds members network ⊆ members).
  { intros network. unfold filterOutbounds. destruct (filter _ members) as [|o l] eqn:E; [done|]. rewrite <- E. split_and!; [by rewrite E| |]; [pose proof (length_filter (fun out : Outbound => network ∈ OutboundManager.Network out) members); lia|]. intros x. rewrite list_elem_of_filter. by intros [_ ?]. }
  unfold couts, convertOutbounds, at_. destruct (String.eqb net NetworkUDP); apply G.
Qed.

Definition rrInv (s : RoundRobin) : Prop :=
  rrOutbounds s = couts /\ forall net, at_ (sortedOutbounds s) net ≡ₚ at_ couts net /\ 0 <= at_ (maxAcceptableIndex s) net < Z.of_nat (length (at_ couts net)).
Definition stickyInv (s : StickySession) : Prop :=
  hOutbounds (ssHashing s) = couts /\ maxRetry (ssHashing s) = MaxRetry options /\ exists c m, modelsAll maphash_Uint64 (mkSettings c false None (balTTL options)) (lruCache s) m.
Definition lowestInv (s : LowestDelay) : Prop := ldOutbounds s = couts /\ forall net, exists o, at_ (selectedOutbound s) net = Some o /\ o ∈ at_ couts net.

Definition strategyInv (s : Strategy) : Prop :=
  match s with
  | StrategyRoundRobin s => rrInv s
  | StrategyConsistentHashing s => hOutbounds s = couts
  | StrategyStickySessions s => stickyInv s
  | StrategyLowestDelay s => lowestInv s
  end.

Lemma rr_new : rrInv (NewRoundRobin members options).
Proof. split; [done|]. intros net. split; [done|]. cbn [NewRoundRobin maxAcceptableIndex]. rewrite at_mapNet. fold couts. destruct (couts_at net) as [H1 _]. destruct (at_ couts net); [done|cbn [length]; lia]. Qed.

Lemma rr_select s net : rrInv s -> exists o s', RoundRobin_Select s net true = Some (Some o, s') /\ o ∈ at_ couts net /\ rrInv s'.
Proof.
  intros [H1 H2]. destruct (H2 net) as [Hp Hi]. unfold RoundRobin_Select. rewrite (proj2 (Z.eqb_neq _ _)) by lia. set (k := at_ (maxAcceptableIndex s) net + 1). set (i := Z.of_nat _ + 1). pose proof (Z.mod_pos_bound i k ltac:(unfold k; lia)) as Hm.
  unfold outboundAt. destruct (lookup_lt_is_Some_2 (at_ (sortedOutbounds s) net) (Z.to_nat (i mod k))) as [o Ho]; [rewrite Hp; unfold k in *; lia|]. rewrite Ho. eexists o, _. split; [done|]. split; [rewrite <- Hp; by eapply list_elem_of_lookup_2|]. done.
Qed.

Lemma acceptableIndex_lt history ratio outs : outs <> [] -> exists k, acceptableIndex history ratio (sortByDelay history outs) = Some k /\ (k < length outs)%nat.
Proof.
  intros Ho. pose proof (sortByDelay_perm history outs) as Hp. destruct (acceptableIndex history ratio (sortByDelay history outs)) as [k|] eqn:E.
  - exists k. split; [done|]. destruct (acceptable_prefix _ _ _ _ E) as (d & turn & _ & -> & Hl & _). rewrite length_take, Hp in Hl. lia.
  - unfold acceptableIndex in E. destruct (sortByDelay history outs); [by apply Permutation_nil in Hp|done].
Qed.

Lemma rr_update s history : rrInv s -> exists changed s', RoundRobin_Update s history = Some (changed, s') /\ rrInv s'.
Proof.
  intros [H1 H2]. unfold RoundRobin_Update, getAcceptableIndex, sortOutboundsByDelay. rewrite H1. cbn [mapNet ofTCP ofUDP].
  destruct (acceptableIndex_lt history (rrRatio s) (ofTCP couts)) as (tcp & -> & Ht); [apply (couts_at NetworkTCP)|]. destruct (acceptableIndex_lt history (rrRatio s) (ofUDP couts)) as (udp & -> & Hu); [apply (couts_at NetworkUDP)|]. cbn [mbind option_bind].
  eexists _, _. split; [done|]. split; [done|]. intros net. unfold at_. cbn. destruct (String.eqb net NetworkUDP); (split; [apply sortByDelay_perm|split; [apply Nat2Z.is_nonneg|by apply inj_lt]]).
Qed.

Lemma ld_new : exists s, NewLowestDelay members = Some s /\ lowestInv s.
Proof.
  unfold NewLowestDelay. fold couts. destruct (ofTCP couts) as [|tcp lt] eqn:E1; [by destruct (couts_at NetworkTCP)|]. destruct (ofUDP couts) as [|udp lu] eqn:E2; [by destruct (couts_at NetworkUDP)|]. eexists. split; [done|]. split; [done|]. intros net. unfold at_. destruct (String.eqb net NetworkUDP); [exists udp; rewrite E2|exists tcp; rewrite E1]; (split; [done|by left]).
Qed.

Lemma ld_update s history : realHistory history -> lowestInv s -> exists changed s', LowestDelay_Update s history = Some (changed, s') /\ lowestInv s'.
Proof.
  intros Hh [H1 H2]. unfold LowestDelay_Update, getMinDelay. rewrite H1. cbn [mapNet ofTCP ofUDP]. destruct (minDelayOf_some history (ofTCP couts) Hh) as (tcp & Et & Ht); [apply (couts_at NetworkTCP)|]. destruct (minDelayOf_some history (ofUDP couts) Hh) as (udp & Eu & Hu); [apply (couts_at NetworkUDP)|].
  rewrite Et, Eu. destruct (H2 NetworkTCP) as (t' & Et' & _), (H2 NetworkUDP) as (u' & Eu' & _). change (at_ (selectedOutbound s) NetworkTCP) with (ofTCP (selectedOutbound s)) in Et'. change (at_ (selectedOutbound s) NetworkUDP) with (ofUDP (selectedOutbound s)) in Eu'. rewrite Et', Eu'. cbn [mbind option_bind].
  eexists _, _. split; [done|]. split; [done|]. intros net. unfold at_. cbn. destruct (String.eqb net NetworkUDP); [by exists udp|by exists tcp].
Qed.

Lemma configure_lifetime shards capacity size (s : ShardedLRU Z nat) c life : NewShardedWithSize 0 0%nat shards capacity size = Ok s -> configureAll (mkSettings c false None life) s = Sharded.SetLifetime s life.
Proof.
  unfold NewShardedWithSize. destruct (shardShape _ _ _) as [[[n c'] z]|]; [|done]. cbn. intros [= <-]. unfold configureAll, Sharded.SetHealthCheck, Sharded.SetOnEvict, Sharded.SetLifetime. cbn [lrus shardMask sLife sOnEvict sCheck]. by rewrite !fmap_replicate.
Qed.

Lemma sticky_new procs : exists s, NewStickySession members options procs = Ok s /\ stickyInv s.
Proof.
  unfold NewStickySession, NewSharded. destruct (newSharded_models maphash_Uint64 0 0%nat (u32 (procs * 16)) 1000 (u32 (1000 * 5 / 4)) false None (balTTL options)) as (n & c & z & s & _ & E & _ & _ & Hm); [by apply wrap_fits|done|done|done|].
  rewrite E. eexists. split; [done|]. split_and!; try done. rewrite (configure_lifetime _ _ _ _ _ _ E) in Hm. eauto.
Qed.

Lemma sticky_select s now later nano metadata net : stickyInv s -> (Z.to_nat (MaxRetry options) < length nano)%nat ->
  exists o s', StickySession_Select s now later nano metadata net = Some (o, s') /\ o ∈ at_ couts net /\ stickyInv s'.
Proof.
  intros (H1 & H2 & c & m & Hm) Hn. unfold StickySession_Select. set (key := maphash_String _). destruct (get_kept Hhash _ _ _ now key Hm) as (cached & cache & m1 & -> & Hm1). cbn [mbind option_bind].
  pose proof (couts_at net) as (Hc1 & Hc2 & _). rewrite <- H1 in Hc1, Hc2. assert (Hpos : (0 < length (at_ (hOutbounds (ssHashing s)) net))%nat) by (destruct (at_ _ _); cbn; [done|lia]).
  destruct (firstIndex_lt (ssHashing s) net Hpos Hc2 cached key nano) as (idx & nano' & -> & Hi & Hn'); [lia|]. cbn [mbind option_bind]. destruct (trySessions_finds (ssHashing s) net Hpos Hc2 key (Z.to_nat (maxRetry (ssHashing s) - 1)) nano' idx Hi) as (r & alive & -> & Hr); [lia|]. cbn [mbind option_bind].
  unfold outboundAt. destruct (lookup_lt_is_Some_2 _ r Hr) as [o Ho]. rewrite Ho. assert (Ho' : o ∈ at_ couts net) by (rewrite <- H1; by eapply list_elem_of_lookup_2).
  destruct (_ && _); cbn [mbind option_bind]; [eexists o, _; split_and!; [done|done|]; split_and!; eauto|].
  destruct (session_add Hhash _ cache m1 later key r Hm1) as (b & cache' & -> & m2 & _ & Hm2 & _). cbn. eexists o, _. split_and!; [done|done|]. split_and!; eauto.
Qed.

Lemma strategy_select s t metadata net : strategyInv s -> (Z.to_nat (MaxRetry options) < length (clNano t))%nat -> exists o s', Strategy_Select s t metadata net = Some (Some o, s') /\ o ∈ at_ couts net /\ strategyInv s'.
Proof.
  intros Hs Hn. destruct s as [s|s|s|s]; cbn [Strategy_Select strategyInv] in *.
  - destruct (rr_select s net Hs) as (o & s' & -> & Ho & Hs'). by eexists o, _.
  - pose proof (couts_at net) as (Hc1 & Hc2 & _). rewrite <- Hs in Hc1, Hc2. destruct (hashing_finds s net) with (metadata := metadata) as (o & -> & Ho & _); [by destruct (at_ _ _); cbn; [|lia]|done|]. rewrite Hs in Ho. by eexists o, _.
  - destruct (sticky_select s (clNow t) (clLater t) (clNano t) metadata net Hs Hn) as (o & s' & -> & Ho & Hs'). by eexists o, _.
  - destruct (proj2 Hs net) as (o & E & Ho). unfold LowestDelay_Select. rewrite E. by eexists o, _.
Qed.

Lemma strategy_update s history : strategyInv s -> realHistory history -> exists changed s', Strategy_Update s history = Some (changed, s') /\ strategyInv s'.
Proof.
  intros Hs Hh. destruct s as [s|s|s|s]; cbn [Strategy_Update strategyInv] in *.
  - destruct (rr_update s history Hs) as (changed & s' & -> & Hs'). by eexists changed, _.
  - by eexists _, _.
  - by eexists _, _.
  - destruct (ld_update s history Hh Hs) as (changed & s' & -> & Hs'). by eexists changed, _.
Qed.

Definition strategyNames : list string := ["round-robin"; "consistent-hashing"; "sticky-sessions"; "lowest-delay"]%string.

Lemma start_inv b find procs : balOptions b = options -> resolveOutbounds find 0 (balTags options) = Ok members -> balStrategy options ∈ strategyNames ->
  exists s, Balancer_Start b find procs = Some (Ok (mkBalancer options (Some s))) /\ strategyInv s.
Proof.
  intros Hb Hr Hs. unfold Balancer_Start. rewrite Hb, Hr. unfold strategyNames in Hs. rewrite !elem_of_cons in Hs. destruct Hs as [->|[->|[->|[->|[]%not_elem_of_nil]]]]; cbn [String.eqb Ascii.eqb Bool.eqb].
  - eexists. split; [done|]. apply rr_new.
  - by eexists.
  - destruct (sticky_new procs) as (s & -> & Hs). by eexists.
  - destruct ld_new as (s & -> & Hs). by eexists.
Qed.
End balancer.

Lemma resolveOutbounds_ok (find : string -> option Outbound) tags : forall i, Forall (fun tag => is_Some (find tag)) tags -> exists members, resolveOutbounds find i tags = Ok members /\ Forall2 (fun tag o => find tag = Some o) tags members.
Proof.
  induction tags as [|tag tags IH]; intros i Hf; [by exists []|]. apply Forall_cons in Hf as [[o Ho] Hf]. destruct (IH (S i) Hf) as (members & E & H2). cbn [resolveOutbounds]. rewrite Ho, E. exists (o :: members). split; [done|by constructor].
Qed.

(** ** From the start on *)

Section reached.
Context (options : BalancerOptions) (find : string -> option Outbound) (procs : Z).

Definition enoughTimes (t : Clock) : Prop := (Z.to_nat (MaxRetry options) < length (clNano t))%nat.

(** The states of a balancer that was started, measured its members and dialled *)
Inductive reached : Balancer -> Prop :=
  | reached_start b0 b : NewLoadBalance options = Ok b0 -> Balancer_Start b0 find procs = Some (Ok b) -> reached b
  | reached_measured b history changed b' : reached b -> realHistory history -> Balancer_observe b history = Some (changed, b') -> reached b'
  | reached_dialled b t metadata net (dial : Outbound -> result unit) r real invalid b' : reached b -> enoughTimes t -> Balancer_Dial b t metadata net dial = Some (r, real, invalid, b') -> reached b'.

Context (Hhash : forall k, fits 32 (maphash_Uint64 k)) (Hne : balTags options <> []) (Hlen : Z.of_nat (length (balTags options)) < 2 ^ 31).
Context (Hfind : Forall (fun tag => is_Some (find tag)) (balTags options)) (Hstrategy : balStrategy options ∈ strategyNames).

Lemma members_exist : exists members, resolveOutbounds find 0 (balTags options) = Ok members /\ Forall2 (fun tag o => find tag = Some o) (balTags options) members /\ members <> [] /\ Z.of_nat (length members) < 2 ^ 31.
Proof.
  destruct (resolveOutbounds_ok find (balTags options) 0 Hfind) as (members & E & H2). exists members. pose proof (Forall2_length _ _ _ H2). split_and!; [done|done| |lia]. intros ->. by apply Forall2_nil_inv_r in H2.
Qed.

Lemma new_ok : NewLoadBalance options = Ok (mkBalancer options None).
Proof. clear Hlen Hfind. unfold NewLoadBalance. by destruct (balTags options). Qed.

Lemma reached_inv members b : resolveOutbounds find 0 (balTags options) = Ok members -> members <> [] -> Z.of_nat (length members) < 2 ^ 31 -> reached b -> exists s, strategyFn b = Some s /\ balOptions b = options /\ strategyInv options members s.
Proof.
  intros Hr Hm Hl. induction 1 as [b0 b E1 E2|b history changed b' _ (s & Es & Ho & Hs) Hh E|b t metadata net dial r real invalid b' _ (s & Es & Ho & Hs) Ht E].
  - rewrite new_ok in E1. injection E1 as <-. destruct (start_inv options members Hm Hl (mkBalancer options None) find procs eq_refl Hr Hstrategy) as (s & E & Hs). rewrite E in E2. injection E2 as <-. by exists s.
  - unfold Balancer_observe in E. rewrite Es in E. cbn [mbind option_bind] in E. destruct (strategy_update options members Hm Hl s history Hs Hh) as (c & s' & Eu & Hs'). rewrite Eu in E. injection E as _ <-. by exists s'.
  - unfold Balancer_Dial in E. rewrite Es in E. cbn [mbind option_bind] in E. destruct (strategy_select Hhash options members Hm Hl s t metadata net Hs Ht) as (o & s' & Eu & _ & Hs'). rewrite Eu in E. cbn [mbind option_bind] in E. exists s'. destruct (dial o); injection E as _ _ _ <-; done.
Qed.
End reached.

(** The network that a strategy takes a request for *)
Definition networkOf (net : string) : string := if String.eqb net NetworkUDP then NetworkUDP else NetworkTCP.

Lemma convert_supports members net o : o ∈ at_ (convertOutbounds members) net -> o ∈ members /\ (Exists (fun o : Outbound => networkOf net ∈ OutboundManager.Network o) members -> networkOf net ∈ OutboundManager.Network o).
Proof.
  assert (E : at_ (convertOutbounds members) net = filterOutbounds members (networkOf net)) by (unfold at_, networkOf; by destruct (String.eqb net NetworkUDP)). rewrite E. unfold filterOutbounds. destruct (filter _ members) as [|x l] eqn:El.
  - intros Ho. split; [done|]. intros (y & Hy & Hs)%Exists_exists. exfalso. eapply (not_elem_of_nil y). rewrite <- El. by apply list_elem_of_filter.
  - rewrite <- El, list_elem_of_filter. intros [H1 H2]. by split.
Qed.

(** C35. A load balancer with at least one and fewer than 2^31 members, all existing,
    one of the four strategies and a 32-bit hash starts, and from then on, with a
    clock reading for every try and whatever was measured (16-bit delays) and dialled
    before, takes every measurement and dials every connection through a configured
    member that supports its network if any does; the test of the member is
    invalidated exactly if the dial fails. *)
Theorem balancer_serves options (find : string -> option Outbound) procs : (forall k, fits 32 (maphash_Uint64 k)) -> balTags options <> [] -> Z.of_nat (length (balTags options)) < 2 ^ 31 ->
  Forall (fun tag => is_Some (find tag)) (balTags options) -> balStrategy options ∈ strategyNames ->
  (exists b0 b, NewLoadBalance options = Ok b0 /\ Balancer_Start b0 find procs = Some (Ok b)) /\
  forall b, reached options find procs b ->
    (forall history, realHistory history -> is_Some (Balancer_observe b history)) /\
    forall t metadata net (dial : Outbound -> result unit), enoughTimes options t -> exists tag o b', tag ∈ balTags options /\ find tag = Some o /\
      (Exists (fun tag => exists o : Outbound, find tag = Some o /\ networkOf net ∈ OutboundManager.Network o) (balTags options) -> networkOf net ∈ OutboundManager.Network o) /\
      Balancer_Dial b t metadata net dial = Some (dial o, Some (outTag o), match dial o with Ok _ => None | Err _ => Some (outTag o) end, b').
Proof.
  intros Hhash Hne Hlen Hfind Hs. destruct (members_exist options find Hne Hlen Hfind) as (members & Hr & H2 & Hm & Hl). split.
  { exists (mkBalancer options None). destruct (start_inv options members Hm Hl (mkBalancer options None) find procs eq_refl Hr Hs) as (s & E & _). eexists. split; [by apply new_ok|exact E]. }
  intros b Hb. destruct (reached_inv options find procs Hhash Hne Hs members b Hr Hm Hl Hb) as (s & Es & Ho & Hinv). split.
  - intros history Hh. unfold Balancer_observe. rewrite Es. cbn [mbind option_bind]. destruct (strategy_update options members Hm Hl s history Hinv Hh) as (c & s' & -> & _). by eexists.
  - intros t metadata net dial Ht. unfold Balancer_Dial. rewrite Es. cbn [mbind option_bind]. destruct (strategy_select Hhash options members Hm Hl s t metadata net Hinv Ht) as (o & s' & -> & Hin & _). cbn [mbind option_bind].
    apply convert_supports in Hin as [Hin Hsup]. pose proof Hin as (i & Hi)%list_elem_of_lookup_1. destruct (Forall2_lookup_r _ _ _ _ _ H2 Hi) as (tag & Htag & Hf). exists tag, o. eexists. split_and!; [by eapply list_elem_of_lookup_2|done| |by destruct (dial o)].
    intros (tag' & Ht' & o' & Ho' & Hn')%Exists_exists. apply Hsup, Exists_exists. exists o'. split; [|done]. apply list_elem_of_lookup_1 in Ht' as (j & Hj). destruct (Forall2_lookup_l _ _ _ _ _ H2 Hj) as (o2 & Hj2 & Hf2). assert (o2 = o') as -> by congruence. by eapply list_elem_of_lookup_2.
Qed.
(** ** Sessions stay *)

(** What a balancer meets: a connection, or measurements *)
Inductive StickyEvent := Connects (t : Clock) (metadata : InboundContext) | Measured history.

(** The members that the connections go to *)
Fixpoint stickyRun (s : StickySession) (net : string) (events : list StickyEvent) : option (list Outbound * StickySession) :=
  match events with
  | [] => Some ([], s)
  | Connects t metadata :: events =>
      '(o, s) ← StickySession_Select s (clNow t) (clLater t) (clNano t) metadata net;
      '(os, s) ← stickyRun s net events;
      Some (o :: os, s)
  | Measured history :: events => stickyRun (mkStickySession (Hashing_Update (ssHashing s) history).2 (lruCache s)) net events
  end.

Definition isConnection (e : StickyEvent) : bool := match e with Connects _ _ => true | Measured _ => false end.

Lemma session_select S s now later nano metadata net idx until o : (forall k, fits 32 (maphash_Uint64 k)) -> sCheck S = None -> 2 <= maxRetry (ssHashing s) -> session S (lruCache s) (maphash_String (getKeyWithSrcAndDst metadata)) idx until -> until = 0 \/ now < until ->
  outboundAt (at_ (hOutbounds (ssHashing s)) net) idx = Some o -> Alive (ssHashing s) net o = true ->
  exists s', StickySession_Select s now later nano metadata net = Some (o, s') /\ ssHashing s' = ssHashing s /\ session S (lruCache s') (maphash_String (getKeyWithSrcAndDst metadata)) idx until.
Proof.
  intros Hhash Hc Hr Hs Hn Ho Ha. unfold StickySession_Select. set (key := maphash_String _) in *. destruct (session_get Hhash S _ now key idx until Hc Hs Hn) as (cache & -> & Hs'). cbn [mbind option_bind firstIndex]. rewrite (proj2 (Nat.ltb_lt _ _)) by (by apply lookup_lt_is_Some; exists o). cbn [mbind option_bind].
  destruct (Z.to_nat (maxRetry (ssHashing s) - 1)) as [|retry] eqn:E; [lia|]. cbn [trySessions]. rewrite Ho. cbn [mbind option_bind]. rewrite Ha. cbn [mbind option_bind]. rewrite bool_decide_true, Nat.eqb_refl by done. cbn [andb mbind option_bind]. rewrite Ho. cbn [mbind option_bind]. by eexists.
Qed.

Lemma session_stored S s m now later nano metadata net o s' : (forall k, fits 32 (maphash_Uint64 k)) -> modelsAll maphash_Uint64 S (lruCache s) m -> let key := maphash_String (getKeyWithSrcAndDst metadata) in
  fst <$> Sharded.Get maphash_Uint64 (lruCache s) now key = Some None -> StickySession_Select s now later nano metadata net = Some (o, s') ->
  ssHashing s' = ssHashing s /\ exists idx, outboundAt (at_ (hOutbounds (ssHashing s)) net) idx = Some o /\ session S (lruCache s') key idx (expireOf later (sLife S)).
Proof.
  intros Hhash Hm key Hg. unfold StickySession_Select. fold key. destruct (get_kept Hhash S _ _ now key Hm) as (cached & cache & m1 & E & Hm1). rewrite E in Hg |- *. injection Hg as ->. cbn [mbind option_bind]. destruct (firstIndex _ _ _ _) as [[idx nano']|]; [|done]. cbn [mbind option_bind].
  destruct (trySessions _ _ _ _ _ _) as [[r alive]|]; [|done]. cbn [mbind option_bind]. rewrite bool_decide_false by (by intros [? ?]). rewrite andb_false_r. cbn [andb]. destruct (session_add Hhash S cache m1 later key r Hm1) as (b & cache' & -> & Hs). cbn [fmap option_fmap option_map mbind option_bind snd].
  destruct (outboundAt _ r) as [o'|] eqn:Eo; [|done]. cbn [mbind option_bind]. intros [= <- <-]. split; [done|]. by exists r.
Qed.

(** The events that leave a session as it is: connections between its source and its site within
    its lifetime, and measurements that leave its member alive *)
Definition keepsSession (h : Hashing) (key net : string) (o : Outbound) (until : Z) (e : StickyEvent) : Prop :=
  match e with
  | Connects t metadata => getKeyWithSrcAndDst metadata = key /\ (until = 0 \/ clNow t < until)
  | Measured history => Alive (Hashing_Update h history).2 net o = true
  end.

Lemma stickyRun_stays S net key idx until o : (forall k, fits 32 (maphash_Uint64 k)) -> sCheck S = None -> forall events s, 2 <= maxRetry (ssHashing s) -> session S (lruCache s) (maphash_String key) idx until ->
  outboundAt (at_ (hOutbounds (ssHashing s)) net) idx = Some o -> Alive (ssHashing s) net o = true -> Forall (keepsSession (ssHashing s) key net o until) events ->
  exists s'', stickyRun s net events = Some (replicate (length (List.filter isConnection events)) o, s'').
Proof.
  intros Hhash Hc. induction events as [|[t metadata|history] events IH]; intros s Hmax Hsess Ho Ha HF; [by eexists|..]; apply Forall_cons in HF as [He HF]; cbn [stickyRun List.filter isConnection length replicate].
  - destruct He as [Hk Ht]. destruct (session_select S s (clNow t) (clLater t) (clNano t) metadata net idx until o Hhash Hc Hmax ltac:(by rewrite Hk) Ht Ho Ha) as (s2 & -> & Eh & Hs2). rewrite Hk in Hs2. cbn [mbind option_bind].
    rewrite <- Eh in Ho, Ha, Hmax, HF. destruct (IH s2 Hmax Hs2 Ho Ha HF) as (s'' & ->). by eexists.
  - apply IH; done.
Qed.

(** C36.  Sessions stick: when, with two tries at least allowed, a connection between a source and a
    site that has no session goes to a member that is alive, then all later connections between
    the two over the same network, however many, go to the same member until the lifetime of the
    session is over (for ever if none is configured), also across measurements that leave the
    member alive, as long as no other session is made meanwhile. *)
Theorem sticky_stays options (find : string -> option Outbound) procs b s t metadata net o s' events : (forall k, fits 32 (maphash_Uint64 k)) -> balTags options <> [] -> Z.of_nat (length (balTags options)) < 2 ^ 31 ->
  Forall (fun tag => is_Some (find tag)) (balTags options) -> balStrategy options = "sticky-sessions" -> 2 <= MaxRetry options ->
  reached options find procs b -> strategyFn b = Some (StrategyStickySessions s) ->
  fst <$> Sharded.Get maphash_Uint64 (lruCache s) (clNow t) (maphash_String (getKeyWithSrcAndDst metadata)) = Some None ->
  StickySession_Select s (clNow t) (clLater t) (clNano t) metadata net = Some (o, s') -> Alive (ssHashing s) net o = true ->
  Forall (keepsSession (ssHashing s) (getKeyWithSrcAndDst metadata) net o (expireOf (clLater t) (balTTL options))) events ->
  exists s'', stickyRun s' net events = Some (replicate (length (List.filter isConnection events)) o, s'').
Proof.
  intros Hhash Hne Hlen Hfind Hs Hr Hb Es Hg E Ha Hev. destruct (members_exist options find Hne Hlen Hfind) as (members & Hres & _ & Hm & Hl).
  destruct (reached_inv options find procs Hhash Hne ltac:(rewrite Hs; unfold strategyNames; set_solver) members b Hres Hm Hl Hb) as (s1 & Es1 & _ & Hinv). rewrite Es in Es1. injection Es1 as <-. destruct Hinv as (_ & Hmax & c & m & Hmod).
  destruct (session_stored _ s m (clNow t) (clLater t) (clNano t) metadata net o s' Hhash Hmod Hg E) as (Eh & idx & Ho & Hsess). cbn [sLife] in Hsess. rewrite <- Eh in Ho, Ha, Hmax, Hev.
  by apply (stickyRun_stays (mkSettings c false None (balTTL options)) net (getKeyWithSrcAndDst metadata) idx (expireOf (clLater t) (balTTL options)) o Hhash eq_refl events s'); [rewrite Hmax| | | |].
Qed.
End strategies.

(** ** Examples *)

(** Hashes of strings and numbers; numbers that do not fit lose their high bits, as on amd64. *)
Definition byteHash (s : string) : Z := fold_left (fun h c => u64 (h * 31 + Z.of_nat (Ascii.nat_of_ascii c))) (String.list_ascii_of_string s) 7.

#[local] Instance exBalancing : BalancerExternal := {|
  net_isDomainName s := negb (String.eqb s "");
  net_ParseIP _ := false;
  EffectiveTLDPlusOne s := Ok s;
  netip_String _ := ""%string;
  maphash_String := byteHash;
  maphash_Uint64 k := u32 k;
  uint16_overflow f := u16 (float64.trunc f);
|}.

Lemma exHash_fits k : fits 32 (maphash_Uint64 k).
Proof. by apply wrap_fits. Qed.

Definition balMember (n : nat) (tag : string) (networks : list string) : Outbound := mkOutbound n (mkObject "plain" tag networks [] (Legacy None None None) None).
Definition memberA : Outbound := balMember 1 "a" ["tcp"; "udp"]%string.
Definition memberB : Outbound := balMember 2 "b" ["tcp"; "udp"]%string.
Definition memberC : Outbound := balMember 3 "c" ["tcp"]%string.
Definition findMember (tag : string) : option Outbound := if String.eqb tag "a" then Some memberA else if String.eqb tag "b" then Some memberB else if String.eqb tag "c" then Some memberC else None.

Definition balancing (strategy : string) (ratio : float64.t) (ttl retry : Z) : BalancerOptions := mkBalancerOptions ["a"; "b"; "c"]%string strategy ratio ttl retry.
Definition oneAndHalf : float64.t := float64.mk 3 (-1).
Definition measured_ (cached : bool) (delay : Z) : option (URLTestHistory (IpInfo := unit)) := Some (mkURLTestHistory (IpInfo := unit) 0 delay None cached).
Definition delaysOf (cached : bool) (a b c : Z) : History (IpInfo := unit) := {["a"%string := measured_ cached a; "b"%string := measured_ cached b; "c"%string := measured_ cached c]}.
Definition toSite (host : string) : InboundContext := exConnection host 443.

Definition exRobin (ratio : float64.t) : RoundRobin := NewRoundRobin [memberA; memberB; memberC] (balancing "round-robin" ratio 0 0).

(** Which tags are served after measurements *)
Definition servedTags (ratio : float64.t) (history : History (IpInfo := unit)) (n : nat) : option (list (option string)) :=
  match RoundRobin_Update (exRobin ratio) history with
  | Some (_, s) => (fun r : list (option Outbound) * RoundRobin => (fun o : option Outbound => outTag <$> o) <$> r.1) <$> selects n s "tcp"
  | None => None
  end.

Lemma round_robin_fair_witness : exists changed s' turn before result s'', RoundRobin_Update (exRobin oneAndHalf) (delaysOf false 180 120 300) = Some (changed, s') /\
  selects (3 + length turn) s' "tcp" = Some (before ++ result, s'') /\ result ≡ₚ Some <$> turn.
Proof.
  destruct (RoundRobin_Update (exRobin oneAndHalf) (delaysOf false 180 120 300)) as [[changed s']|] eqn:E; [|by vm_compute in E].
  destruct (round_robin_fair (exRobin oneAndHalf) (delaysOf false 180 120 300) "tcp" changed s' 3 E) as (d & turn & before & result & s'' & _ & _ & _ & H1 & _ & H2). exists changed, s', turn, before, result, s''. exact (conj eq_refl (conj H1 H2)).
Defined.

(** The two members within half of the fastest, in turn *)
Example two_in_turn : servedTags oneAndHalf (delaysOf false 180 120 300) 4 = Some [Some "a"; Some "b"; Some "a"; Some "b"]%string.
Proof. by vm_compute. Qed.

(** Without a configured ratio only one member is served. *)
Example no_ratio_one_member : servedTags (float64.ofZ 0) (delaysOf false 50 50 50) 4 = Some [Some "a"; Some "a"; Some "a"; Some "a"]%string.
Proof. by vm_compute. Qed.

(** The product of the delay and the ratio does not fit in 16 bits: members that are equally fast
    are left out. *)
Example ratio_overflows : servedTags (float64.ofZ 3) (delaysOf true 5000 5000 5000) 4 = Some [Some "a"; Some "a"; Some "a"; Some "a"]%string /\
  servedTags (float64.ofZ 2) (delaysOf true 5000 5000 5000) 4 = Some [Some "b"; Some "c"; Some "a"; Some "b"]%string.
Proof. by vm_compute. Qed.

Definition exHashing (ratio : float64.t) (retry : Z) (history : History (IpInfo := unit)) : Hashing := (Hashing_Update (NewConsistentHashing [memberA; memberB; memberC] (balancing "consistent-hashing" ratio 0 retry)) history).2.

Lemma consistent_hashing_alive_witness : let s := exHashing oneAndHalf 1 (delaysOf false 900 120 900) in exists o, ConsistentHashing_Select s (toSite "example.org") "tcp" = Some o /\ Alive s "tcp" o = true.
Proof.
  set (s := exHashing _ _ _). destruct (consistent_hashing_alive s (toSite "example.org") "tcp") as (o & H1 & _ & H2 & _); [by vm_compute|by vm_compute|]. exists o. split; [done|]. apply H2. apply Exists_exists. exists memberB. split; [|by vm_compute]. apply list_elem_of_lookup_2 with 1%nat. by vm_compute.
Defined.

(** Without configured retries nothing is hashed: all sites go to the first member. *)
Example no_retries_no_hash : (fun host => outTag <$> ConsistentHashing_Select (exHashing oneAndHalf 0 (delaysOf false 100 100 100)) (toSite host) "tcp") <$> ["a.org"; "b.org"; "c.org"; "d.org"]%string = replicate 4 (Some "a"%string) /\
  (fun host => outTag <$> ConsistentHashing_Select (exHashing oneAndHalf 1 (delaysOf false 100 100 100)) (toSite host) "tcp") <$> ["a.org"; "b.org"; "c.org"; "d.org"]%string <> replicate 4 (Some "a"%string).
Proof. split; [by vm_compute|]. intros E. by vm_compute in E. Qed.

(** A member that was not measured, with the delay 0, is taken for alive and is the slowest. *)
Example unmeasured_alive : Alive (exHashing oneAndHalf 1 (delaysOf false 0 100 100)) "tcp" memberA = true /\ getTagDelay (outTag memberA) (delaysOf false 0 100 100) = TimeoutDelay.
Proof. by vm_compute. Qed.

Definition sticking (retry : Z) : BalancerOptions := balancing "sticky-sessions" oneAndHalf 60000000000 retry.
Definition atTime (now : Z) (nano : list Z) : Clock := mkClock now now nano.

(** A balancer with sessions, after measurements *)
Definition exSticky (retry : Z) (history : History (IpInfo := unit)) : option Balancer :=
  match Balancer_Start (mkBalancer (sticking retry) None) findMember 1 with
  | Some (Ok b) => snd <$> Balancer_observe b history
  | _ => None
  end.

Lemma delaysOf_real cached a b c : fits 16 a -> fits 16 b -> fits 16 c -> realHistory (delaysOf cached a b c).
Proof.
  unfold fits. intros Ha Hb Hc tag his E. unfold delaysOf in E. apply (lookup_insert_Some (M := gmap string)) in E as [[_ [= <-]]|[_ E]]; [done|]. apply (lookup_insert_Some (M := gmap string)) in E as [[_ [= <-]]|[_ E]]; [done|]. by apply (lookup_singleton_Some (M := gmap string)) in E as [_ [= <-]].
Qed.

Lemma exSticky_reached retry history b : realHistory history -> exSticky retry history = Some b -> reached (IpInfo := unit) (sticking retry) findMember 1 b.
Proof.
  intros Hh. unfold exSticky. destruct (Balancer_Start _ _ _) as [[b1|]|] eqn:E1; [|done..]. destruct (Balancer_observe b1 history) as [[changed b']|] eqn:E2; [|done]. intros [= <-]. eapply reached_measured; [|done|exact E2]. by eapply reached_start; [|exact E1].
Qed.

Lemma balancer_serves_witness : exists tag o b b', exSticky 3 (delaysOf false 100 100 100) = Some b /\ tag ∈ balTags (sticking 3) /\ findMember tag = Some o /\
  Balancer_Dial b (atTime 5 [1; 2; 3; 4]) (toSite "example.org") "udp" (fun _ => Ok tt) = Some (Ok tt, Some (outTag o), None, b').
Proof.
  destruct (balancer_serves (IpInfo := unit) (sticking 3) findMember 1 exHash_fits) as [_ Hr]; [done|done|by repeat (constructor; [by eexists|])|unfold strategyNames; set_solver|].
  destruct (exSticky 3 (delaysOf false 100 100 100)) as [b|] eqn:E; [|by vm_compute in E]. apply exSticky_reached in E as Hb; [|by apply delaysOf_real].
  destruct (proj2 (Hr b Hb) (atTime 5 [1; 2; 3; 4]) (toSite "example.org") "udp"%string (fun _ => Ok tt)) as (tag & o & b' & H1 & H2 & _ & H3); [by vm_compute; lia|]. by exists tag, o, b, b'.
Defined.

(** The sessions of a balancer *)
Definition sessionsOf (b : option Balancer) : option StickySession := match b with Some b => match strategyFn b with Some (StrategyStickySessions s) => Some s | _ => None end | None => None end.

(** The tags of the members that connections go to one after the other *)
Fixpoint sessionTags (s : StickySession) (calls : list (Clock * InboundContext * string)) : list (option string) :=
  match calls with
  | [] => []
  | (t, metadata, net) :: calls =>
      match StickySession_Select s (clNow t) (clLater t) (clNano t) metadata net with
      | Some (o, s) => Some (outTag o) :: sessionTags s calls
      | None => [None]
      end
  end.

Definition laterEvents : list (StickyEvent (IpInfo := unit)) := [Connects (atTime 100 []) (toSite "example.org"); Measured (delaysOf false 100 110 120); Connects (atTime 60004 []) (toSite "example.org")].

(** The connection has no session, and gets one with a member that is alive. *)
Definition newSession (s : StickySession) (t : Clock) (metadata : InboundContext) (net : string) : bool :=
  match Sharded.Get maphash_Uint64 (lruCache s) (clNow t) (maphash_String (getKeyWithSrcAndDst metadata)), StickySession_Select s (clNow t) (clLater t) (clNano t) metadata net with
  | Some (None, _), Some (o, _) => Alive (ssHashing s) net o
  | _, _ => false
  end.

Lemma newSession_true s t metadata net : newSession s t metadata net = true -> fst <$> Sharded.Get maphash_Uint64 (lruCache s) (clNow t) (maphash_String (getKeyWithSrcAndDst metadata)) = Some None /\
  exists o s', StickySession_Select s (clNow t) (clLater t) (clNano t) metadata net = Some (o, s') /\ Alive (ssHashing s) net o = true.
Proof. unfold newSession. destruct (Sharded.Get _ _ _ _) as [[[|] ?]|]; try done. destruct (StickySession_Select _ _ _ _ _ _) as [[o s']|]; [|done]. intros Ha. split; [done|]. by exists o, s'. Qed.

(** The measurements among the later events leave the member alive. *)
Definition staysAlive (s : StickySession) (t : Clock) (metadata : InboundContext) (net : string) : bool :=
  match StickySession_Select s (clNow t) (clLater t) (clNano t) metadata net with
  | Some (o, _) => Alive (Hashing_Update (ssHashing s) (delaysOf false 100 110 120)).2 net o
  | None => false
  end.

Lemma sticky_stays_witness : exists s o s' s'', sessionsOf (exSticky 3 (delaysOf false 100 100 100)) = Some s /\ StickySession_Select s 5 5 [1; 2; 3; 4] (toSite "example.org") "tcp" = Some (o, s') /\ stickyRun s' "tcp" laterEvents = Some ([o; o], s'').
Proof.
  set (t := atTime 5 [1; 2; 3; 4]). assert (Hn : (match sessionsOf (exSticky 3 (delaysOf false 100 100 100)) with Some s => newSession s t (toSite "example.org") "tcp" && staysAlive s t (toSite "example.org") "tcp" | None => false end) = true) by by vm_compute.
  destruct (exSticky 3 (delaysOf false 100 100 100)) as [b|] eqn:E; [|done]. apply exSticky_reached in E as Hb; [|by apply delaysOf_real]. clear E.
  destruct (sessionsOf (Some b)) as [s|] eqn:Es; [|done]. assert (Ef : strategyFn b = Some (StrategyStickySessions s)) by (unfold sessionsOf in Es; destruct (strategyFn b) as [[]|]; congruence).
  apply andb_true_iff in Hn as [Hn Hst]. apply newSession_true in Hn as (Hg & o & s' & Hsel & Ha). unfold staysAlive in Hst. rewrite Hsel in Hst. destruct (sticky_stays (IpInfo := unit) (sticking 3) findMember 1 b s t (toSite "example.org") "tcp" o s' laterEvents exHash_fits) as [s'' Hs]; try (assumption || done).
  - by repeat (constructor; [by eexists|]).
  - constructor; [split; [done|by right]|]. constructor; [exact Hst|]. constructor; [split; [done|by right]|]. constructor.
  - exists s, o, s', s''. exact (conj eq_refl (conj Hsel Hs)).
Defined.

(** The tags for connections to one site *)
Definition siteTags (retry : Z) (history : History (IpInfo := unit)) (calls : list (Clock * string)) : option (list (option string)) :=
  (fun s => sessionTags s ((fun c => (c.1, toSite "example.org", c.2)) <$> calls)) <$> sessionsOf (exSticky retry history).

(** With less than two retries the member of a session is never checked: a session begins with
    one that is far too slow, where three retries find the good one. *)
Example unchecked_session : siteTags 1 (delaysOf false 100 900 900) [(atTime 5 [2], "tcp"%string)] = Some [Some "c"%string] /\
  siteTags 3 (delaysOf false 100 900 900) [(atTime 5 [2; 1], "tcp"%string)] = Some [Some "a"%string].
Proof. by vm_compute. Qed.

(** A session that was made for TCP with a member that UDP does not have: the UDP connections
    change members from one to the next. *)
Example session_not_kept : siteTags 3 (delaysOf false 100 100 100) [(atTime 5 [2], "tcp"); (atTime 6 [1], "udp"); (atTime 7 [2], "udp"); (atTime 8 [3], "udp"); (atTime 9 [1], "udp")]%string =
  Some [Some "c"; Some "a"; Some "a"; Some "b"; Some "a"]%string.
Proof. by vm_compute. Qed.
