(* ===== verification/TlsFragment.v ===== *)
(** * Fragments of client hellos ([common/tlsfragment])

    The first write of a connection is searched for the server name of a client hello; a hello
    is written in pieces that are cut inside the name, as packets, as TLS records, or both. *)

From S2P Require Import Prelude Binary Ja3.
Import (notations) Byte.

(** ** [index.go]

    [nil] is [Returns None]. *)

Record MyServerName := mkServerName { snIndex : Z; snLength : Z; snName : bytes }.

Definition recordLayerHeaderLen : Z := 5.

(** The loop over the extensions; the length that is skipped is a uint16. *)
Fixpoint serverNameLoop (fuel : nat) (currentIndex : Z) (exs : bytes) : outcome error (option MyServerName) :=
  match fuel with
  | O => Hangs
  | S fuel =>
      if lenZ exs <=? 0 then Returns None
      else if lenZ exs <? 4 then Returns None
      else
        exType ← at16 exs 0;
        exLen ← at16 exs 2;
        if lenZ exs <? 4 + exLen then Returns None
        else
          sex ← slice exs 4 (4 + exLen);
          if exType =? sniExtensionType then
            if lenZ sex <? 5 then Returns None
            else
              sniType ← at8 sex 2;
              if negb (sniType =? 0) then Returns None
              else
                sniLen ← at16 sex 3;
                sex ← sliceFrom sex 5;
                Returns (Some (mkServerName (currentIndex + 4 + 5) sniLen sex))
          else
            exs ← sliceFrom exs (u16 (4 + exLen));
            serverNameLoop fuel (currentIndex + (4 + exLen)) exs
  end.

Definition indexTLSServerNameFromExtensions (exs : bytes) : outcome error (option MyServerName) :=
  if lenZ exs =? 0 then Returns None
  else if lenZ exs <? 2 then Returns None
  else
    exsLen ← at16 exs 0;
    exs ← sliceFrom exs 2;
    if lenZ exs <? exsLen then Returns None
    else serverNameLoop (S (length exs)) 2 exs.

Definition movedBy (n : Z) (serverName : option MyServerName) : option MyServerName :=
  match serverName with Some s => Some (mkServerName (snIndex s + n) (snLength s) (snName s)) | None => None end.

Definition indexTLSServerNameFromHandshake (handshake : bytes) : outcome error (option MyServerName) :=
  if lenZ handshake <? 6 + 32 + 1 then Returns None
  else
    handshakeType ← at8 handshake 0;
    if negb (handshakeType =? 1) then Returns None
    else
      high ← at8 handshake 1;
      low ← at16 handshake 2;
      let handshakeLen := Z.lor (Z.shiftl high 16) low in
      if negb (lenZ handshake - 4 =? handshakeLen) then Returns None
      else
        tlsVersion ← at16 handshake 4;
        if badVersion tlsVersion then Returns None
        else
          sessionIDLen ← at8 handshake 38;
          let currentIndex := 6 + 32 + 1 + sessionIDLen in
          if lenZ handshake <? currentIndex then Returns None
          else
            cipherSuites ← sliceFrom handshake currentIndex;
            if lenZ cipherSuites <? 2 then Returns None
            else
              csLen ← at16 cipherSuites 0;
              if lenZ cipherSuites <? 2 + csLen + 1 then Returns None
              else
                compressMethodLen ← at8 cipherSuites (2 + csLen);
                let currentIndex := currentIndex + (2 + csLen + 1 + compressMethodLen) in
                if lenZ handshake <? currentIndex then Returns None
                else
                  exs ← sliceFrom handshake currentIndex;
                  serverName ← indexTLSServerNameFromExtensions exs;
                  Returns (movedBy currentIndex serverName).

Definition IndexTLSServerName (payload : bytes) : outcome error (option MyServerName) :=
  if lenZ payload <? recordLayerHeaderLen then Returns None
  else
    contentType ← at8 payload 0;
    if negb (contentType =? 22) then Returns None
    else
      segmentLen ← at16 payload 3;
      if lenZ payload <? recordLayerHeaderLen + segmentLen then Returns None
      else
        handshake ← sliceFrom payload recordLayerHeaderLen;
        serverName ← indexTLSServerNameFromHandshake handshake;
        Returns (movedBy recordLayerHeaderLen serverName).

(** ** [conn.go] *)

Record FragmentConn := mkConn { isTCP : bool; firstPacketWritten : bool; splitPacket : bool; splitRecord : bool; fallbackDelay : Z }.

Definition TLSFragmentFallbackDelay : Z := 500 * 10 ^ 6.

Definition NewConn (isTCP splitPacket splitRecord : bool) (fallbackDelay : Z) : FragmentConn :=
  mkConn isTCP false splitPacket splitRecord (if fallbackDelay =? 0 then TLSFragmentFallbackDelay else fallbackDelay).

(** What [Write] does to the connection below *)
Inductive Op :=
  | SetNoDelay (on : bool)
  | WriteAndWaitAck (payload : bytes)
  | WriteConn (payload : bytes)
  | Sleep (delay : Z).

(** [strings.Split(name, ".")] and [strings.Count(name, ".")] *)
Definition dot : Byte.byte := zByte 46.

Fixpoint splitDots (b : bytes) : list bytes :=
  match b with
  | [] => [[]]
  | x :: b => if decide (x = dot) then [] :: splitDots b else match splitDots b with label :: labels => (x :: label) :: labels | [] => [[x]] end
  end.

Definition countDots (b : bytes) : nat := length (filter (fun x => x = dot) b).

Section write.
(** [publicsuffix.List.PublicSuffix], and [rand.Intn] for the calls of a write *)
Context (PublicSuffix : bytes -> bytes) (Intn : nat -> Z -> Z).

(** The labels that are cut, and where the first of them begins *)
Definition labelsToSplit (serverName : MyServerName) : list bytes * Z :=
  let splits := splitDots (snName serverName) in
  let splits := match PublicSuffix (snName serverName) with [] => splits | _ => take (length splits - countDots (snName serverName)) splits end in
  match splits with
  | first :: second :: rest => if decide (first = [dot; dot; dot]) then (second :: rest, snIndex serverName + lenZ first + 1) else (splits, snIndex serverName)
  | _ => (splits, snIndex serverName)
  end.

(** [rand.Intn] panics unless its argument is positive. *)
Fixpoint splitIndexes (i : nat) (currentIndex : Z) (splits : list bytes) : outcome error (list Z) :=
  match splits with
  | [] => Returns []
  | split :: splits =>
      if lenZ split <=? 0 then Panics
      else
        let splitAt := Intn i (lenZ split) in
        let next := currentIndex + lenZ split + match splits with [] => 0 | _ => 1 end in
        rest ← splitIndexes (S i) next splits;
        Returns (currentIndex + splitAt :: rest)
  end.

Definition indexAt (indexes : list Z) (i : nat) : outcome error Z := match indexes !! i with Some z => Returns z | None => Panics end.

Definition payloadAt (c : FragmentConn) (b : bytes) (indexes : list Z) (i : nat) : outcome error bytes :=
  if (i =? 0)%nat then
    j ← indexAt indexes 0;
    payload ← slice b 0 j;
    if splitRecord c then sliceFrom payload recordLayerHeaderLen else Returns payload
  else if (i =? length indexes)%nat then
    j ← indexAt indexes (i - 1);
    sliceFrom b j
  else
    j ← indexAt indexes (i - 1);
    k ← indexAt indexes i;
    slice b j k.

(** A round of the loop that writes: what it does, and the buffer *)
Definition writePiece (c : FragmentConn) (b : bytes) (indexes : list Z) (i : nat) (buffer : bytes) : outcome error (list Op * bytes) :=
  payload ← payloadAt c b indexes i;
  let buffer :=
    if splitRecord c then (if splitPacket c then [] else buffer) ++ take 3 b ++ bigEndian 2 (u16 (lenZ payload)) ++ payload
    else buffer in
  let payload := if splitRecord c && splitPacket c then buffer else payload in
  let last := (i =? length indexes)%nat in
  Returns (if splitPacket c then
             if isTCP c && negb last then [WriteAndWaitAck payload] else WriteConn payload :: (if last then [] else [Sleep (fallbackDelay c)])
           else [], buffer).

(** The calls in turn up to the first that fails *)
Fixpoint perform (answer : Op -> option error) (ops : list Op) : list Op * option error :=
  match ops with
  | [] => ([], None)
  | op :: ops => match answer op with Some e => ([op], Some e) | None => let '(done_, e) := perform answer ops in (op :: done_, e) end
  end.

(** The loop that writes: the calls that were made, the failure of the last of them, and the
    buffer *)
Fixpoint writeLoop (answer : Op -> option error) (c : FragmentConn) (b : bytes) (indexes : list Z) (is_ : list nat) (buffer : bytes) : outcome error (list Op * option error * bytes) :=
  match is_ with
  | [] => Returns ([], None, buffer)
  | i :: is_ =>
      '(ops, buffer) ← writePiece c b indexes i buffer;
      let '(done_, e) := perform answer ops in
      match e with
      | Some _ => Returns (done_, e, buffer)
      | None => '(rest, e, buffer) ← writeLoop answer c b indexes is_ buffer; Returns (done_ ++ rest, e, buffer)
      end
  end.

(** [Write]: the calls, the result, and the connection; [answer] is what the calls fail with, and
    [written] the result of a write that is passed on as it is *)
Definition Conn_Write (c : FragmentConn) (answer : Op -> option error) (written : Z) (b : bytes) : outcome error (list Op * result Z * FragmentConn) :=
  let c' := mkConn (isTCP c) true (splitPacket c) (splitRecord c) (fallbackDelay c) in
  let pass := Returns ([WriteConn b], match answer (WriteConn b) with Some e => Err e | None => Ok written end, c') in
  if firstPacketWritten c then pass
  else
    serverName ← IndexTLSServerName b;
    match serverName with
    | None => pass
    | Some serverName =>
        let '(calls, e) := perform answer (if splitPacket c && isTCP c then [SetNoDelay true] else []) in
        match e with
        | Some e => Returns (calls, Err e, c')
        | None =>
            let '(splits, currentIndex) := labelsToSplit serverName in
            indexes ← splitIndexes 0 currentIndex splits;
            '(pieces, e, buffer) ← writeLoop answer c b indexes (seq 0 (S (length indexes))) [];
            match e with
            | Some e => Returns (calls ++ pieces, Err e, c')
            | None =>
                let '(rest, e) := perform answer ((if splitRecord c && negb (splitPacket c) then [WriteConn buffer] else []) ++ (if isTCP c then [SetNoDelay false] else [])) in
                Returns (calls ++ pieces ++ rest, match e with Some e => Err e | None => Ok (lenZ b) end, c')
            end
        end
    end.
End write.

(** [STDClientConfig.Client] and [UTLSClientConfig.Client]: the connection that the handshake is
    written to, if it is wrapped *)
Definition ClientConn (isTCP fragment recordFragment : bool) (fallbackDelay : Z) : option FragmentConn :=
  if recordFragment then Some (NewConn isTCP fragment recordFragment fallbackDelay) else None.
