(* ===== verification/TlsFragmentSpec.v ===== *)
(** * What reaches the server

    The pieces of a client hello are, put together, what was written, and the cuts are inside the
    server name; on anything else nothing changes. *)

From S2P Require Import Prelude Binary Ja3 TlsFragment.

(** ** Finding the name *)

(** A result that does not panic or hang, and a name that stands where the result says *)
Definition locates (base : Z) (b : bytes) (r : outcome error (option MyServerName)) : Prop :=
  match r with
  | Returns None => True
  | Returns (Some s) => exists pre post, b = pre ++ snName s ++ post /\ snIndex s = base + lenZ pre /\ pre <> []
  | _ => False
  end.

Lemma split_slice (b : bytes) i j : 0 <= i <= j -> j <= lenZ b -> b = take (Z.to_nat i) b ++ take (Z.to_nat (j - i)) (drop (Z.to_nat i) b) ++ drop (Z.to_nat j) b.
Proof. intros H1 H2. replace (drop (Z.to_nat j) b) with (drop (Z.to_nat (j - i)) (drop (Z.to_nat i) b)) by (rewrite drop_drop; f_equal; lia). by rewrite !take_drop. Qed.

Lemma lenZ_take (b : bytes) i : 0 <= i <= lenZ b -> lenZ (take (Z.to_nat i) b) = i.
Proof. unfold lenZ. rewrite length_take. lia. Qed.

Lemma locates_later base pre b r : locates (base + lenZ pre) b r -> locates base (pre ++ b) r.
Proof.
  destruct r as [[s|]| | |]; cbn; try done. intros (p & q & -> & -> & Hp). exists (pre ++ p), q. rewrite app_assoc, lenZ_app. split_and!; [done|lia|]. by destruct pre.
Qed.

Lemma serverNameLoop_locates fuel : forall idx exs, lenZ exs < 2 ^ 16 -> (length exs < fuel)%nat -> locates idx exs (serverNameLoop fuel idx exs).
Proof.
  induction fuel as [|fuel IH]; intros idx exs Hlen Hf; [lia|]. cbn [serverNameLoop]. destruct (Z.leb_spec (lenZ exs) 0); [done|]. destruct (Z.ltb_spec (lenZ exs) 4); [done|].
  destruct (at16_in (E := error) exs 0) as (ty & -> & _); [lia|lia|]. cbn [mbind outcome_bind]. destruct (at16_in (E := error) exs 2) as (n & -> & Hn); [lia|lia|]. cbn [mbind outcome_bind]. destruct (Z.ltb_spec (lenZ exs) (4 + n)); [done|]. unfold fits in Hn.
  destruct (slice_in (E := error) exs 4 (4 + n)) as (sex & -> & Es & Hsex); [lia|lia|]. cbn [mbind outcome_bind]. pose proof (split_slice exs 4 (4 + n) ltac:(lia) ltac:(lia)) as Eexs. rewrite <- Es in Eexs.
  destruct (ty =? sniExtensionType).
  - destruct (Z.ltb_spec (lenZ sex) 5); [done|]. destruct (at8_in (E := error) sex 2) as (k & ->); [lia|]. cbn [mbind outcome_bind]. destruct (negb _); [done|]. destruct (at16_in (E := error) sex 3) as (l & -> & _); [lia|lia|]. cbn [mbind outcome_bind].
    destruct (sliceFrom_in (E := error) sex 5) as [-> _]; [lia|]. cbn [mbind outcome_bind locates snName snIndex]. exists (take (Z.to_nat 4) exs ++ take (Z.to_nat 5) sex), (drop (Z.to_nat (4 + n)) exs). split_and!.
    + rewrite Eexs at 1. rewrite <- (take_drop (Z.to_nat 5) sex) at 1. by rewrite <- !app_assoc.
    + rewrite lenZ_app, !lenZ_take by lia. lia.
    + intros E%(f_equal lenZ). rewrite lenZ_app, !lenZ_take in E by lia. by cbn in E.
  - rewrite wrap_id by (unfold fits; lia). destruct (sliceFrom_in (E := error) exs (4 + n)) as [-> Hr]; [lia|]. cbn [mbind outcome_bind]. rewrite <- (take_drop (Z.to_nat (4 + n)) exs) at 1. apply locates_later. rewrite lenZ_take by lia. apply IH; unfold lenZ in *; lia.
Qed.

Lemma locates_moved base n b r : locates base b r -> locates (base + n) b (s ← r; Returns (movedBy n s)).
Proof. destruct r as [[s|]| | |]; cbn; try done. intros (p & q & -> & -> & Hp). exists p, q. split_and!; [done|lia|done]. Qed.

Lemma extensions_locates exs : lenZ exs < 2 ^ 16 -> locates 0 exs (indexTLSServerNameFromExtensions exs).
Proof.
  intros Hlen. unfold indexTLSServerNameFromExtensions. destruct (Z.eqb_spec (lenZ exs) 0) as [|Hne]; [done|]. destruct (Z.ltb_spec (lenZ exs) 2); [done|]. destruct (at16_in (E := error) exs 0) as (n & -> & _); [lia|lia|]. cbn [mbind outcome_bind].
  destruct (sliceFrom_in (E := error) exs 2) as [-> Hr]; [lia|]. cbn [mbind outcome_bind]. destruct (_ <? _); [done|]. rewrite <- (take_drop (Z.to_nat 2) exs) at 1. apply locates_later. rewrite lenZ_take by lia. apply serverNameLoop_locates; [lia|lia].
Qed.

Lemma handshake_locates hs : lenZ hs < 2 ^ 16 -> locates 0 hs (indexTLSServerNameFromHandshake hs).
Proof.
  intros Hlen. unfold indexTLSServerNameFromHandshake. destruct (Z.ltb_spec (lenZ hs) (6 + 32 + 1)); [done|]. destruct (at8_in (E := error) hs 0) as (t & ->); [lia|]. cbn [mbind outcome_bind]. destruct (negb _); [done|].
  destruct (at8_in (E := error) hs 1) as (h & ->); [lia|]. cbn [mbind outcome_bind]. destruct (at16_in (E := error) hs 2) as (l & -> & _); [lia|lia|]. cbn [mbind outcome_bind]. destruct (negb _); [done|]. destruct (at16_in (E := error) hs 4) as (v & -> & _); [lia|lia|]. cbn [mbind outcome_bind]. destruct (badVersion v); [done|].
  destruct (at8_in (E := error) hs 38) as (s & ->); [lia|]. cbn [mbind outcome_bind]. pose proof (byteZ_fits s) as Hs. unfold fits in Hs. destruct (Z.ltb_spec (lenZ hs) (6 + 32 + 1 + byteZ s)); [done|]. destruct (sliceFrom_in (E := error) hs (6 + 32 + 1 + byteZ s)) as [-> Hc]; [lia|]. cbn [mbind outcome_bind].
  set (cs := drop _ hs) in *. destruct (Z.ltb_spec (lenZ cs) 2); [done|]. destruct (at16_in (E := error) cs 0) as (n & -> & Hn); [lia|lia|]. cbn [mbind outcome_bind]. unfold fits in Hn. destruct (Z.ltb_spec (lenZ cs) (2 + n + 1)); [done|]. destruct (at8_in (E := error) cs (2 + n)) as (m & ->); [lia|]. cbn [mbind outcome_bind].
  pose proof (byteZ_fits m) as Hm. unfold fits in Hm. set (i := 6 + 32 + 1 + byteZ s + (2 + n + 1 + byteZ m)). destruct (Z.ltb_spec (lenZ hs) i); [done|]. assert (Hi : 0 <= i <= lenZ hs) by (unfold i in *; lia). destruct (sliceFrom_in (E := error) hs i Hi) as [-> Hr]. cbn [mbind outcome_bind].
  rewrite <- (take_drop (Z.to_nat i) hs) at 1. apply locates_later. rewrite lenZ_take by done. apply locates_moved, extensions_locates. lia.
Qed.

Lemma index_locates b : lenZ b < 2 ^ 16 -> match IndexTLSServerName b with Returns None => True | Returns (Some s) => exists pre post, b = pre ++ snName s ++ post /\ snIndex s = lenZ pre /\ 5 < lenZ pre | _ => False end.
Proof.
  intros Hlen. unfold IndexTLSServerName, recordLayerHeaderLen. destruct (Z.ltb_spec (lenZ b) 5); [done|]. destruct (at8_in (E := error) b 0) as (t & ->); [lia|]. cbn [mbind outcome_bind]. destruct (negb _); [done|]. destruct (at16_in (E := error) b 3) as (n & -> & _); [lia|lia|]. cbn [mbind outcome_bind].
  destruct (_ <? _); [done|]. destruct (sliceFrom_in (E := error) b 5) as [-> Hr]; [lia|]. cbn [mbind outcome_bind]. pose proof (handshake_locates (drop (Z.to_nat 5) b) ltac:(lia)) as Hl. destruct (indexTLSServerNameFromHandshake _) as [[s|]| | |]; cbn in *; try done. destruct Hl as (p & q & E & Hi & Hp).
  exists (take (Z.to_nat 5) b ++ p), q. rewrite <- app_assoc, <- E, lenZ_app, (lenZ_take b 5) by lia. split_and!; [by rewrite take_drop|lia|]. destruct p; [done|]. rewrite lenZ_cons. pose proof (lenZ_nonneg p). lia.
Qed.

(** ** Labels *)

Fixpoint joinedLen (labels : list bytes) : Z :=
  match labels with [] => 0 | label :: rest => lenZ label + match rest with [] => 0 | _ => 1 + joinedLen rest end end.

Lemma joinedLen_nonneg labels : 0 <= joinedLen labels.
Proof. induction labels as [|l labels IH]; [done|]. cbn [joinedLen]. pose proof (lenZ_nonneg l). destruct labels; lia. Qed.

Lemma splitDots_spec b : splitDots b <> [] /\ joinedLen (splitDots b) = lenZ b /\ length (splitDots b) = S (countDots b) /\ Forall (fun label => dot ∉ label) (splitDots b).
Proof.
  induction b as [|x b (I1 & I2 & I3 & I4)]; [split_and!; [done|done|done|]; constructor; [apply not_elem_of_nil|constructor]|]. cbn [splitDots]. unfold countDots in *. rewrite filter_cons, lenZ_cons. destruct (decide (x = dot)) as [->|Hx].
  - cbn [length]. rewrite I3. split_and!; [done| |done|constructor; [apply not_elem_of_nil|done]]. cbn [joinedLen]. destruct (splitDots b); [done|]. rewrite I2. done.
  - destruct (splitDots b) as [|l ls]; [done|]. apply Forall_cons in I4 as [H1 H2]. split_and!; [done| |done|constructor; [|done]; apply not_elem_of_cons; by split]. cbn [joinedLen] in *. rewrite lenZ_cons. lia.
Qed.

Lemma joinedLen_take k : forall labels, joinedLen (take k labels) <= joinedLen labels.
Proof.
  induction k as [|k IH]; intros labels; [apply joinedLen_nonneg|]. destruct labels as [|l labels]; [done|]. cbn [firstn joinedLen]. specialize (IH labels). pose proof (joinedLen_nonneg labels). destruct (take k labels) eqn:E, labels; try lia. by destruct k.
Qed.

Section pieces.
Context (PublicSuffix : bytes -> bytes) (Intn : nat -> Z -> Z).

(** The labels that are cut are a part of the name from its beginning. *)
Lemma labelsToSplit_spec s : exists labels, labelsToSplit PublicSuffix s = (labels, snIndex s) /\ labels <> [] /\ joinedLen labels <= lenZ (snName s) /\ head labels = head (splitDots (snName s)) /\ (PublicSuffix (snName s) <> [] -> length labels = 1%nat).
Proof.
  unfold labelsToSplit. destruct (splitDots_spec (snName s)) as (H1 & H2 & H3 & H4). set (full := splitDots (snName s)) in *. replace (length full - countDots (snName s))%nat with 1%nat by lia.
  set (splits := match PublicSuffix (snName s) with [] => full | _ => take 1 full end). assert (Hs : splits <> [] /\ joinedLen splits <= lenZ (snName s) /\ head splits = head full /\ (PublicSuffix (snName s) <> [] -> length splits = 1%nat) /\ Forall (fun label => dot ∉ label) splits).
  { unfold splits. rewrite <- H2. destruct (PublicSuffix (snName s)) as [|y ys]; [by split_and!|]. destruct full as [|l ls]; [done|]. pose proof (joinedLen_take 1 (l :: ls)). cbn [firstn] in *. rewrite take_0 in *. split_and!; try done. apply Forall_cons in H4 as [? _]. by repeat constructor. }
  destruct Hs as (S1 & S2 & S3 & S4 & S5). exists splits. split; [|done]. destruct splits as [|first [|second rest]]; try done. rewrite decide_False; [done|]. intros ->. apply Forall_cons in S5 as [S5 _]. apply S5. by left.
Qed.

(** ** Cuts *)

Fixpoint increasing (lo hi : Z) (indexes : list Z) : Prop :=
  match indexes with [] => lo < hi | i :: rest => lo < i /\ increasing i hi rest end.

Lemma increasing_lt indexes : forall lo hi, increasing lo hi indexes -> lo < hi.
Proof. induction indexes as [|i rest IH]; cbn; intros lo hi; [done|]. intros [? ?%IH]. lia. Qed.

Lemma increasing_weaken indexes : forall lo lo' hi, lo' <= lo -> increasing lo hi indexes -> increasing lo' hi indexes.
Proof. destruct indexes as [|i rest]; cbn; intros lo lo' hi H; [lia|]. intros [? ?]. split; [lia|done]. Qed.

Context (Hrand : forall i n, 0 < n -> 0 <= Intn i n < n).

Lemma splitIndexes_increasing hi labels : forall i cur, labels <> [] -> Forall (fun label => label <> []) labels -> cur + joinedLen labels <= hi -> exists js, splitIndexes Intn i cur labels = Returns js /\ length js = length labels /\ increasing (cur - 1) hi js /\
  head js = Some (cur + Intn i (lenZ (default [] (head labels)))).
Proof.
  induction labels as [|l labels IH]; intros i cur Hne Hl Hhi; [done|]. apply Forall_cons in Hl as [Hl Hls]. cbn [splitIndexes joinedLen] in *. assert (Hpos : 0 < lenZ l) by (destruct l; [done|rewrite lenZ_cons; pose proof (lenZ_nonneg l); lia]). rewrite (proj2 (Z.leb_gt _ _)) by lia. pose proof (Hrand i (lenZ l) Hpos) as Hr.
  destruct labels as [|l2 labels].
  - cbn [splitIndexes mbind outcome_bind]. eexists. split; [done|]. split; [done|]. split; [cbn; lia|]. done.
  - destruct (IH (S i) (cur + lenZ l + 1)) as (js & -> & Hlen & Hinc & _); [done|done|lia|]. cbn [mbind outcome_bind]. eexists. split; [done|]. split; [by cbn; rewrite Hlen|]. split; [|done]. split; [lia|]. eapply increasing_weaken; [|exact Hinc]. lia.
Qed.

Lemma splitIndexes_panics labels : forall i cur, Exists (fun label => label = []) labels -> splitIndexes Intn i cur labels = Panics.
Proof.
  induction labels as [|l labels IH]; intros i cur; [by intros ?%Exists_nil|]. cbn [splitIndexes]. intros [->|H]%Exists_cons; [done|]. destruct (_ <=? _); [done|]. by rewrite IH.
Qed.

(** The pieces between cuts *)
Fixpoint cutAt (start : Z) (indexes : list Z) (b : bytes) : list bytes :=
  match indexes with [] => [drop (Z.to_nat start) b] | j :: rest => take (Z.to_nat (j - start)) (drop (Z.to_nat start) b) :: cutAt j rest b end.

Lemma cutAt_concat b indexes : forall start, 0 <= start -> increasing start (lenZ b) indexes -> concat (cutAt start indexes b) = drop (Z.to_nat start) b /\ Forall (fun p => p <> [] /\ lenZ p <= lenZ b) (cutAt start indexes b) /\ length (cutAt start indexes b) = S (length indexes).
Proof.
  induction indexes as [|j rest IH]; intros start H0; cbn [increasing cutAt concat].
  - intros H. rewrite app_nil_r. split; [done|]. split; [|done]. constructor; [|done]. assert (E : lenZ (drop (Z.to_nat start) b) = lenZ b - start) by (unfold lenZ in *; rewrite length_drop; lia). split; [intros E'; rewrite E' in E; change (lenZ []) with 0 in E; lia|lia].
  - intros [Hj Hinc]. pose proof (increasing_lt _ _ _ Hinc). destruct (IH j ltac:(lia) Hinc) as (-> & Hf & Hlen). split_and!; [|constructor; [|done]|cbn; by rewrite Hlen].
    + replace (drop (Z.to_nat j) b) with (drop (Z.to_nat (j - start)) (drop (Z.to_nat start) b)) by (rewrite drop_drop; f_equal; lia). apply take_drop.
    + assert (E : lenZ (take (Z.to_nat (j - start)) (drop (Z.to_nat start) b)) = j - start) by (unfold lenZ in *; rewrite length_take, length_drop; lia). split; [intros E'; rewrite E' in E; change (lenZ []) with 0 in E; lia|lia].
Qed.

(** The bounds of a piece *)
Lemma cutAt_lookup b indexes : forall start i, (i <= length indexes)%nat -> cutAt start indexes b !! i = Some (
  let from := match i with O => start | S i' => default 0 (indexes !! i') end in
  match indexes !! i with Some j => take (Z.to_nat (j - from)) (drop (Z.to_nat from) b) | None => drop (Z.to_nat from) b end).
Proof.
  induction indexes as [|j rest IH]; intros start i Hi; cbn [length] in Hi.
  - by replace i with 0%nat by lia.
  - destruct i as [|i]; [done|]. change (cutAt start (j :: rest) b !! S i) with (cutAt j rest b !! i). rewrite (IH j i) by lia. by destruct i.
Qed.

Lemma increasing_lookup indexes : forall lo hi i j, increasing lo hi indexes -> indexes !! i = Some j -> lo < j < hi /\ forall i' k, (i = S i')%nat -> indexes !! i' = Some k -> k < j.
Proof.
  induction indexes as [|x rest IH]; intros lo hi i j; cbn [increasing]; [done|]. intros [Hx Hinc]. pose proof (increasing_lt _ _ _ Hinc). destruct i as [|i]; cbn.
  - intros [= <-]. split; [lia|done].
  - intros Hj. destruct (IH x hi i j Hinc Hj) as [H1 H2]. split; [lia|]. intros i' k [= <-]. destruct i as [|i]; cbn; [intros [= <-]; lia|]. by apply H2.
Qed.

Definition startOf (c : FragmentConn) : Z := if splitRecord c then 5 else 0.

Lemma payloadAt_cut c b indexes i : increasing (startOf c) (lenZ b) indexes -> indexes <> [] -> (i <= length indexes)%nat -> exists p, payloadAt c b indexes i = Returns p /\ cutAt (startOf c) indexes b !! i = Some p.
Proof.
  intros Hinc Hne Hi. eexists. split; [|by apply cutAt_lookup]. unfold payloadAt, indexAt. assert (H0 : 0 <= startOf c) by (unfold startOf; destruct (splitRecord c); lia). destruct i as [|i].
  - change (0 =? 0)%nat with true. cbv iota. destruct indexes as [|j rest]; [done|]. cbn [lookup list_lookup mbind outcome_bind]. destruct (increasing_lookup _ _ _ 0 j Hinc eq_refl) as [Hj _]. destruct (slice_in (E := error) b 0 j) as (s & -> & -> & Hs); [lia|lia|]. cbn [mbind outcome_bind]. unfold startOf in *. destruct (splitRecord c).
    + destruct (sliceFrom_in (E := error) (take (Z.to_nat (j - 0)) (drop (Z.to_nat 0) b)) recordLayerHeaderLen) as [-> _]; [unfold recordLayerHeaderLen; lia|]. f_equal. change (Z.to_nat 0) with 0%nat. rewrite drop_0, take_drop_commute. unfold recordLayerHeaderLen. do 2 f_equal. lia.
    + done.
  - change (S i =? 0)%nat with false. cbv iota. destruct (lookup_lt_is_Some_2 indexes i ltac:(lia)) as [j Ej]. replace (S i - 1)%nat with i by lia. rewrite Ej. cbn [mbind outcome_bind default from_option id]. destruct (increasing_lookup _ _ _ i j Hinc Ej) as [Hj _]. destruct (Nat.eqb_spec (S i) (length indexes)) as [E|E].
    + rewrite (lookup_ge_None_2 indexes (S i)) by lia. destruct (sliceFrom_in (E := error) b j) as [-> _]; [lia|]. done.
    + destruct (lookup_lt_is_Some_2 indexes (S i) ltac:(lia)) as [k Ek]. rewrite Ek. cbn [mbind outcome_bind]. destruct (increasing_lookup _ _ _ (S i) k Hinc Ek) as [Hk Hlt]. specialize (Hlt i j eq_refl Ej). destruct (slice_in (E := error) b j k) as (s & -> & -> & _); [lia|lia|]. done.
Qed.

(** What the operations write, in turn *)
Definition writesOf (op : Op) : list bytes := match op with WriteAndWaitAck p | WriteConn p => [p] | SetNoDelay _ | Sleep _ => [] end.
Definition writes (ops : list Op) : list bytes := concat (writesOf <$> ops).

Lemma writes_app a b : writes (a ++ b) = writes a ++ writes b.
Proof. unfold writes. by rewrite fmap_app, concat_app. Qed.

(** A TLS record with a type and version *)
Definition tlsRecord (header payload : bytes) : bytes := header ++ bigEndian 2 (lenZ payload) ++ payload.

Definition sent (c : FragmentConn) (b payload : bytes) : bytes := if splitRecord c then tlsRecord (take 3 b) payload else payload.

(** The pieces when nothing fails *)
Fixpoint writePieces (c : FragmentConn) (b : bytes) (indexes : list Z) (is_ : list nat) (buffer : bytes) : outcome error (list Op * bytes) :=
  match is_ with
  | [] => Returns ([], buffer)
  | i :: is_ =>
      '(ops, buffer) ← writePiece c b indexes i buffer;
      '(rest, buffer) ← writePieces c b indexes is_ buffer;
      Returns (ops ++ rest, buffer)
  end.

Lemma writePieces_spec c b indexes is_ ps : Forall2 (fun i p => payloadAt c b indexes i = Returns p /\ lenZ p < 2 ^ 16) is_ ps -> forall buffer, exists ops buffer', writePieces c b indexes is_ buffer = Returns (ops, buffer') /\
  writes ops = (if splitPacket c then sent c b <$> ps else []) /\ (splitPacket c = false -> splitRecord c = true -> buffer' = buffer ++ concat (sent c b <$> ps)).
Proof.
  induction 1 as [|i p is_ ps [Hp Hlen] _ IH]; intros buffer; cbn [writePieces].
  - eexists [], buffer. split_and!; [done|by destruct (splitPacket c)|]. intros _ _. by rewrite app_nil_r.
  - unfold writePiece. rewrite Hp. cbn [mbind outcome_bind]. rewrite wrap_id by (unfold fits; pose proof (lenZ_nonneg p); lia). set (buffer1 := if splitRecord c then _ else buffer). destruct (IH buffer1) as (ops & buffer' & -> & Hw & Hb). cbn [mbind outcome_bind]. eexists _, buffer'. split; [done|]. split.
    + rewrite writes_app, Hw. unfold buffer1, sent, tlsRecord. destruct (splitPacket c), (splitRecord c); cbn [andb]; [..|done|done]; rewrite fmap_cons; destruct (isTCP c && _); [done| |done|]; by destruct (i =? length indexes)%nat.
    + intros E1 E2. rewrite Hb by done. unfold buffer1, sent, tlsRecord. rewrite E1, E2. cbn [fmap list_fmap concat]. by rewrite <- !app_assoc.
Qed.

(** What a peer reads from a sequence of records: their headers and contents *)
Fixpoint readRecords (fuel : nat) (b : bytes) : option (list (bytes * bytes)) :=
  match fuel with
  | O => None
  | S fuel =>
      match b with
      | [] => Some []
      | x :: y :: z :: m :: l :: rest =>
          let n := Z.to_nat (fromBigEndian [m; l]) in
          if (n <=? length rest)%nat then records ← readRecords fuel (drop n rest); Some (([x; y; z], take n rest) :: records) else None
      | _ => None
      end
  end.

Lemma readRecords_written header parts : length header = 3%nat -> Forall (fun p => lenZ p < 2 ^ 16) parts -> forall fuel, (length parts < fuel)%nat -> readRecords fuel (concat (tlsRecord header <$> parts)) = Some ((fun p => (header, p)) <$> parts).
Proof.
  intros Hh. destruct header as [|x [|y [|z [|]]]]; try done. induction 1 as [|p parts Hp _ IH]; intros [|fuel] Hf; cbn [length] in Hf; try lia; [done|]. rewrite !fmap_cons. cbn [concat]. unfold tlsRecord at 1. rewrite <- !app_assoc. cbn [app bigEndian readRecords].
  change [zByte (Z.shiftr (lenZ p) (8 * Z.of_nat 1)); zByte (Z.shiftr (lenZ p) (8 * Z.of_nat 0))] with (bigEndian 2 (lenZ p)). rewrite fromBigEndian_bigEndian, wrap_id by (unfold fits; pose proof (lenZ_nonneg p); cbn; lia). unfold lenZ. rewrite Nat2Z.id, (proj2 (Nat.leb_le _ _)) by (rewrite length_app; lia).
  rewrite drop_app_length, take_app_length. fold lenZ. rewrite (IH fuel) by lia. done.
Qed.
End pieces.

(** ** Writing *)

Definition afterFirst (c : FragmentConn) : FragmentConn := mkConn (isTCP c) true (splitPacket c) (splitRecord c) (fallbackDelay c).

(** The calls that were made, and the failure of the last of them *)
Lemma perform_spec answer ops : exists k, (perform answer ops).1 = take k ops /\
  match (perform answer ops).2 with None => k = length ops | Some e => exists i op, k = S i /\ ops !! i = Some op /\ answer op = Some e end.
Proof.
  induction ops as [|op ops IH]; [by exists 0%nat|]. cbn [perform]. destruct (answer op) as [e|] eqn:Ea; [exists 1%nat; split; [by rewrite firstn_cons, take_0|by exists 0%nat, op]|].
  destruct IH as (k & H1 & H2). destruct (perform answer ops) as [done_ e]. cbn [fst snd] in *. exists (S k). cbn [firstn]. rewrite <- H1. split; [done|]. destruct e as [e|]; [|cbn; by rewrite H2]. destruct H2 as (i & op' & -> & Hi & Ho). by exists (S i), op'.
Qed.

Lemma perform_app answer ops ops' : perform answer (ops ++ ops') = let '(done_, e) := perform answer ops in match e with Some _ => (done_, e) | None => let '(rest, e) := perform answer ops' in (done_ ++ rest, e) end.
Proof.
  induction ops as [|op ops IH]; cbn [app perform]; [by destruct (perform answer ops')|]. destruct (answer op); [done|]. rewrite IH. destruct (perform answer ops) as [done_ [e|]]; [done|]. by destruct (perform answer ops').
Qed.

(** The loop makes the calls of the pieces until one fails. *)
Lemma writeLoop_plan answer c b indexes is_ : forall buffer ops buffer', writePieces c b indexes is_ buffer = Returns (ops, buffer') -> exists buffer'', writeLoop answer c b indexes is_ buffer = Returns (perform answer ops, buffer'') /\ ((perform answer ops).2 = None -> buffer'' = buffer').
Proof.
  induction is_ as [|i is_ IH]; intros buffer ops buffer'; cbn [writePieces writeLoop]; [intros [= <- <-]; by eexists|]. destruct (writePiece c b indexes i buffer) as [[ops1 buffer1]| | |]; try done. cbn [mbind outcome_bind]. destruct (writePieces c b indexes is_ buffer1) as [[rest buffer2]| | |] eqn:E; try done. cbn [mbind outcome_bind]. intros [= <- <-].
  destruct (IH _ _ _ E) as (buffer3 & -> & Hb). rewrite perform_app. destruct (perform answer ops1) as [done_ [e|]]; [by eexists|]. cbn [mbind outcome_bind]. destruct (perform answer rest) as [done2 e]. by exists buffer3.
Qed.

Section plan.
Context (PublicSuffix : bytes -> bytes) (Intn : nat -> Z -> Z) (Hrand : forall i n, 0 < n -> 0 <= Intn i n < n).

(** Everything a write does unless something fails; none when nothing is cut *)
Definition writePlan (c : FragmentConn) (b : bytes) : outcome error (option (list Op)) :=
  if firstPacketWritten c then Returns None
  else
    serverName ← IndexTLSServerName b;
    match serverName with
    | None => Returns None
    | Some serverName =>
        let '(splits, currentIndex) := labelsToSplit PublicSuffix serverName in
        indexes ← splitIndexes Intn 0 currentIndex splits;
        '(pieces, buffer) ← writePieces c b indexes (seq 0 (S (length indexes))) [];
        Returns (Some ((if splitPacket c && isTCP c then [SetNoDelay true] else []) ++ pieces ++
                       (if splitRecord c && negb (splitPacket c) then [WriteConn buffer] else []) ++
                       (if isTCP c then [SetNoDelay false] else [])))
    end.

(** A write follows its plan up to the first failure. *)
Lemma Conn_Write_plan c answer written b ops : writePlan c b = Returns (Some ops) ->
  Conn_Write PublicSuffix Intn c answer written b = let '(done_, e) := perform answer ops in Returns (done_, match e with Some e => Err e | None => Ok (lenZ b) end, afterFirst c).
Proof.
  unfold writePlan, Conn_Write, afterFirst. destruct (firstPacketWritten c); [done|]. destruct (IndexTLSServerName b) as [[s|]| | |]; try done. cbn [mbind outcome_bind]. destruct (labelsToSplit PublicSuffix s) as [splits cur]. destruct (splitIndexes Intn 0 cur splits) as [indexes| | |]; try done. cbn [mbind outcome_bind].
  destruct (writePieces c b indexes _ []) as [[pieces buffer]| | |] eqn:Ep; try done. cbn [mbind outcome_bind]. intros [= <-]. rewrite perform_app. destruct (perform answer (if splitPacket c && isTCP c then _ else _)) as [calls [e|]]; [done|]. destruct (writeLoop_plan answer _ _ _ _ _ _ _ Ep) as (buffer' & -> & Hb). rewrite perform_app. cbn [mbind outcome_bind]. destruct (perform answer pieces) as [done_ [e|]]; [done|]. rewrite (Hb eq_refl).
  by destruct (perform answer (_ ++ _)) as [rest e].
Qed.

Lemma writePlan_cut c b s : lenZ b < 2 ^ 16 -> splitPacket c || splitRecord c = true -> firstPacketWritten c = false -> IndexTLSServerName b = Returns (Some s) -> Forall (fun l => l <> []) (labelsToSplit PublicSuffix s).1 ->
  exists indexes ops, increasing (startOf c) (lenZ b) indexes /\ length indexes = length (labelsToSplit PublicSuffix s).1 /\ indexes <> [] /\ head indexes = Some (snIndex s + Intn 0%nat (lenZ (default [] (head (splitDots (snName s)))))) /\
    writePlan c b = Returns (Some ops) /\ writes ops = (if splitPacket c then sent c b <$> cutAt (startOf c) indexes b else [concat (sent c b <$> cutAt (startOf c) indexes b)]).
Proof.
  intros Hlen Hsplit Hfirst Hi Hl. pose proof (index_locates b Hlen) as Hloc. rewrite Hi in Hloc. destruct Hloc as (pre & post & Eb & Es & Hpre). unfold writePlan. rewrite Hfirst, Hi. cbn [mbind outcome_bind].
  destruct (labelsToSplit_spec PublicSuffix s) as (labels & El & Hne & Hjoin & Hhead & _). rewrite El in *. cbn [fst] in *. assert (Hb : lenZ b = lenZ pre + lenZ (snName s) + lenZ post) by (rewrite Eb, !lenZ_app; lia).
  pose proof (lenZ_nonneg post). destruct (splitIndexes_increasing Intn Hrand (lenZ b) labels 0 (snIndex s) Hne Hl ltac:(lia)) as (js & -> & Hjl & Hinc & Hh). cbn [mbind outcome_bind].
  assert (Hinc' : increasing (startOf c) (lenZ b) js) by (eapply increasing_weaken; [|exact Hinc]; unfold startOf; destruct (splitRecord c); lia). assert (Hjs : js <> []) by (intros ->; by destruct labels).
  assert (H0 : 0 <= startOf c) by (unfold startOf; destruct (splitRecord c); lia). destruct (cutAt_concat b js (startOf c) H0 Hinc') as (_ & Hf & Hcl).
  assert (Hall : Forall2 (fun i p => payloadAt c b js i = Returns p /\ lenZ p < 2 ^ 16) (seq 0 (S (length js))) (cutAt (startOf c) js b)).
  { apply Forall2_same_length_lookup. split; [by rewrite length_seq|]. intros i x p Hx Hp. apply lookup_seq in Hx as [-> Hlt]. destruct (payloadAt_cut c b js i Hinc' Hjs ltac:(lia)) as (p' & E1 & E2). cbn [Nat.add]. replace p' with p in E1 by congruence. split; [done|]. eapply Forall_lookup_1 in Hf as [_ Hf]; [|exact Hp]. lia. }
  destruct (writePieces_spec c b js _ _ Hall []) as (ops & buffer & -> & Hw & Hbuf). cbn [mbind outcome_bind]. eexists js, _. split_and!; [done|done|done|by rewrite <- Hhead|done|].
  rewrite !writes_app, Hw. assert (Hno : forall t : bool, writes (if t then [SetNoDelay true] else []) = [] /\ writes (if t then [SetNoDelay false] else []) = []) by by intros []. rewrite (proj1 (Hno _)), (proj2 (Hno _)), app_nil_r.
  destruct (splitPacket c) eqn:Ep; cbn [andb negb]; [by rewrite andb_false_r, app_nil_r|]. cbn [orb] in Hsplit. rewrite Hsplit, (Hbuf eq_refl Hsplit). done.
Qed.

(** An empty label: the write panics, unless the call before fails. *)
Lemma Conn_Write_panics c b s answer written : firstPacketWritten c = false -> IndexTLSServerName b = Returns (Some s) -> Exists (fun l => l = []) (labelsToSplit PublicSuffix s).1 ->
  Conn_Write PublicSuffix Intn c answer written b = match (if splitPacket c && isTCP c then answer (SetNoDelay true) else None) with Some e => Returns ([SetNoDelay true], Err e, afterFirst c) | None => Panics end.
Proof.
  intros Hfirst Hi Hl. unfold Conn_Write, afterFirst. rewrite Hfirst, Hi. cbn [mbind outcome_bind]. destruct (labelsToSplit PublicSuffix s) as [labels cur]. destruct (splitPacket c && isTCP c); cbn [perform]; [destruct (answer (SetNoDelay true)); [done|]|]; by rewrite splitIndexes_panics.
Qed.
End plan.

(** C39.  Cutting is transparent: the first write, of less than 64 KiB, never makes the search for
    the server name hang or read out of range.  If there is no name the bytes are passed on.  Else
    they are cut into two or more pieces, none of them empty, the first cut being in the first
    label of the name as many bytes after its beginning as the random number says; the pieces put
    together are the bytes; the writes to the connection are the pieces, one each or all at once;
    with records a peer reads them back as the contents of records with the header of the
    original.  Every call is made in turn until one fails, whose error is the result.  Only a
    label that is empty makes the write panic, unless setting the socket option before fails. *)
Theorem fragments_transparent PublicSuffix (Intn : nat -> Z -> Z) c b : (forall i n, 0 < n -> 0 <= Intn i n < n) -> lenZ b < 2 ^ 16 -> splitPacket c || splitRecord c = true -> firstPacketWritten c = false ->
  match IndexTLSServerName b with
  | Returns None => forall answer written, Conn_Write PublicSuffix Intn c answer written b = Returns ([WriteConn b], match answer (WriteConn b) with Some e => Err e | None => Ok written end, afterFirst c)
  | Returns (Some s) =>
      if decide (Forall (fun l => l <> []) (labelsToSplit PublicSuffix s).1) then
        exists parts ops, concat parts = (if splitRecord c then drop 5 b else b) /\ Forall (fun p => p <> []) parts /\ (2 <= length parts)%nat /\
          (exists first, head parts = Some first /\ startOf c + lenZ first = snIndex s + Intn 0%nat (lenZ (default [] (head (splitDots (snName s)))))) /\
          writes ops = (if splitPacket c then sent c b <$> parts else [concat (sent c b <$> parts)]) /\
          (splitRecord c = true -> readRecords (S (length parts)) (concat (writes ops)) = Some ((fun p => (take 3 b, p)) <$> parts)) /\
          forall answer written, exists k r, Conn_Write PublicSuffix Intn c answer written b = Returns (take k ops, r, afterFirst c) /\
            (r = Ok (lenZ b) /\ k = length ops \/ exists i op e, k = S i /\ ops !! i = Some op /\ answer op = Some e /\ r = Err e)
      else forall answer written, Conn_Write PublicSuffix Intn c answer written b = match (if splitPacket c && isTCP c then answer (SetNoDelay true) else None) with Some e => Returns ([SetNoDelay true], Err e, afterFirst c) | None => Panics end
  | _ => False
  end.
Proof.
  intros Hrand Hlen Hsplit Hfirst. pose proof (index_locates b Hlen) as Hloc. destruct (IndexTLSServerName b) as [[s|]| | |] eqn:Hi; try done.
  - destruct (decide _) as [Hl|Hl].
    + destruct (writePlan_cut PublicSuffix Intn Hrand c b s Hlen Hsplit Hfirst Hi Hl) as (js & ops & Hinc & _ & Hjs & Hh & Hplan & Hw). set (parts := cutAt (startOf c) js b) in *. assert (H0 : 0 <= startOf c) by (unfold startOf; destruct (splitRecord c); lia).
      destruct (cutAt_concat b js (startOf c) H0 Hinc) as (Hc & Hf & Hcl). fold parts in Hc, Hf, Hcl. destruct Hloc as (pre & post & Eb & _ & Hpre). exists parts, ops. split_and!.
      * rewrite Hc. unfold startOf. by destruct (splitRecord c).
      * eapply Forall_impl; [exact Hf|]. by intros p [? _].
      * destruct js; [done|cbn [length] in Hcl; lia].
      * destruct js as [|j js]; [done|]. eexists. split; [done|]. destruct Hinc as [Hj Hinc]. pose proof (increasing_lt _ _ _ Hinc). rewrite lenZ_take by (unfold lenZ in *; rewrite length_drop; lia). cbn [head] in Hh. injection Hh as Hh. lia.
      * done.
      * intros Er. replace (concat (writes ops)) with (concat (sent c b <$> parts)) by (rewrite Hw; destruct (splitPacket c); [done|cbn; by rewrite app_nil_r]). unfold sent. rewrite Er. apply readRecords_written; [|eapply Forall_impl; [exact Hf|intros p [_ ?]; lia]|lia].
        rewrite length_take. assert (lenZ b > 5) by (rewrite Eb, !lenZ_app; pose proof (lenZ_nonneg (snName s)); pose proof (lenZ_nonneg post); lia). unfold lenZ in *. lia.
      * intros answer written. rewrite (Conn_Write_plan _ _ _ _ _ _ _ Hplan). destruct (perform_spec answer ops) as (k & H1 & H2). destruct (perform answer ops) as [done_ e]. cbn [fst snd] in *. exists k. eexists. rewrite <- H1. split; [done|]. destruct e as [e|]; [right|by left]. destruct H2 as (i & op & -> & Ho & Ha). by exists i, op, e.
    + intros answer written. apply (Conn_Write_panics PublicSuffix Intn c b s); [done|done|]. apply not_Forall_Exists in Hl; [|apply _]. eapply Exists_impl; [exact Hl|]. intros l Hn. destruct l; [done|]. by destruct Hn.
  - intros answer written. unfold Conn_Write. by rewrite Hfirst, Hi.
Qed.

(** ** Client hellos *)

Lemma serverNameLoop_written before name after : forall fuel idx, Forall extOk before -> Forall (fun e => extType e <> sniExtensionType) before -> let es := before ++ ServerNameExt name :: after in lenZ (extensionsBytes es) < 2 ^ 16 -> (length (extensionsBytes es) < fuel)%nat ->
  exists i, serverNameLoop fuel idx (extensionsBytes es) = Returns (Some (mkServerName i (lenZ name) name)).
Proof.
  unfold extensionsBytes. induction before as [|e before IH]; intros fuel idx Hok Hty; cbn zeta; cbn [app]; rewrite fmap_cons; cbn [concat]; set (rest := concat (extBytes <$> _)); unfold extBytes; rewrite <- !app_assoc; lens; intros Hlen Hf; pose proof (lenZ_nonneg rest); (destruct fuel as [|fuel]; [lia|]); cbn [serverNameLoop]; lens.
  - pose proof (lenZ_nonneg name). cbn [extBody extType] in *. revert Hlen. lens. intros Hlen. rewrite (proj2 (Z.leb_gt _ _)), (proj2 (Z.ltb_ge _ 4)) by lia. set (body := bigEndian 2 (lenZ name + 3) ++ [x00] ++ bigEndian 2 (lenZ name) ++ name). assert (Hb : lenZ body = 5 + lenZ name) by (unfold body; lens; lia).
    rewrite at16_first by done. cbn [mbind outcome_bind]. rewrite at16_written by (by lens || unfold fits; lens; lia). cbn [mbind outcome_bind]. rewrite (proj2 (Z.ltb_ge _ _)) by lia.
    rewrite !(app_assoc (bigEndian 2 sniExtensionType)), (slice_written _ body rest) by (lens; lia). cbn [mbind outcome_bind]. rewrite Z.eqb_refl, (proj2 (Z.ltb_ge _ 5)) by lia. unfold body. change (at8 (bigEndian 2 (lenZ name + 3) ++ [x00] ++ bigEndian 2 (lenZ name) ++ name) 2) with (at8 (E := error) (bigEndian 2 (lenZ name + 3) ++ zByte 0 :: bigEndian 2 (lenZ name) ++ name) 2). rewrite at8_written by (by lens || done). cbn [mbind outcome_bind]. cbn [Z.eqb negb].
    rewrite app_assoc, at16_written by (by lens || unfold fits; lia). cbn [mbind outcome_bind]. rewrite app_assoc, sliceFrom_written by (by lens). cbn [mbind outcome_bind]. by eexists.
  - apply Forall_cons in Hok as [He Hok]. apply Forall_cons in Hty as [Hne Hty]. pose proof (lenZ_nonneg (extBody e)). assert (Ht : fits 16 (extType e)) by (destruct e; [done..|apply He]). rewrite (proj2 (Z.leb_gt _ _)), (proj2 (Z.ltb_ge _ 4)) by lia.
    rewrite at16_first by done. cbn [mbind outcome_bind]. rewrite at16_written by (by lens || unfold fits; lia). cbn [mbind outcome_bind]. rewrite (proj2 (Z.ltb_ge _ _)) by lia. rewrite !(app_assoc (bigEndian 2 (extType e))), (slice_written _ (extBody e) rest) by (lens; lia). cbn [mbind outcome_bind].
    rewrite (proj2 (Z.eqb_neq _ _)) by done. rewrite wrap_id by (unfold fits; lia). rewrite (app_assoc _ (extBody e)), sliceFrom_written by (lens; lia). cbn [mbind outcome_bind]. apply IH; [done|done|unfold rest in *; lia|]. fold rest. unfold lenZ in *. rewrite !length_app, !bigEndian_length in Hf. lia.
Qed.

Lemma sliceFrom_twice {E} (b c d : bytes) i j : 0 <= i -> 0 <= j -> sliceFrom (E := E) b i = Returns c -> sliceFrom (E := E) c j = Returns d -> sliceFrom (E := E) b (i + j) = Returns d.
Proof.
  intros Hi Hj. unfold sliceFrom. destruct (Z.leb_spec i (lenZ b)); [|done]. intros [= <-]. destruct (Z.leb_spec j (lenZ (drop (Z.to_nat i) b))) as [Hl|]; [|done]. intros [= <-]. unfold lenZ in *. rewrite length_drop in Hl. rewrite (proj2 (Z.leb_le _ _)) by lia. rewrite drop_drop. do 2 f_equal. lia.
Qed.

(** The server name of a client hello is found. *)
Lemma index_hello h before name after : helloOk h -> hExtensions h = before ++ ServerNameExt name :: after -> Forall (fun e => extType e <> sniExtensionType) before ->
  exists i, IndexTLSServerName (recordOf (lenZ (helloBytes h)) (helloBytes h)) = Returns (Some (mkServerName i (lenZ name) name)).
Proof.
  intros Hok Hes Hbefore. destruct (hello_sizes h Hok) as (He & Hc & E1 & E2 & E3). destruct (hello_read (E := error) h Hok) as (R0 & R1 & R2 & R3 & R4 & R5). destruct (afterRandom_read (E := error) h Hok) as (A1 & _ & A3 & A4). destruct Hok as [[_ Hbad] _ _ _ _ Hx Hsize].
  pose proof (lenZ_nonneg (hSession h)). pose proof (lenZ_nonneg (hCompression h)). pose proof (lenZ_nonneg (helloBytes h)). unfold IndexTLSServerName, recordOf, recordLayerHeaderLen. lens. rewrite (proj2 (Z.ltb_ge _ 5)) by lia.
  change (at8 ([x16; x03; x03] ++ bigEndian 2 (lenZ (helloBytes h)) ++ helloBytes h) 0) with (Returns (E := error) 22). cbn [mbind outcome_bind]. change (negb (22 =? 22)) with false. cbn match. rewrite (at16_written [x16; x03; x03]) by (done || unfold fits; lia). cbn [mbind outcome_bind]. rewrite (proj2 (Z.ltb_ge _ _)) by lia.
  rewrite app_assoc, sliceFrom_written by (by lens). cbn [mbind outcome_bind]. unfold indexTLSServerNameFromHandshake. rewrite (proj2 (Z.ltb_ge _ _)) by lia. rewrite R0. cbn [mbind outcome_bind]. change (negb (1 =? 1)) with false. cbn match. rewrite R1. cbn [mbind outcome_bind]. rewrite R2. cbn [mbind outcome_bind].
  rewrite Z.shiftl_0_l, Z.lor_0_l, (proj2 (Z.eqb_eq _ _)) by lia. cbn [negb]. rewrite R3. cbn [mbind outcome_bind]. rewrite Hbad, R4. cbn [mbind outcome_bind]. change (6 + 32 + 1) with 39. rewrite (proj2 (Z.ltb_ge _ _)) by lia. rewrite R5. cbn [mbind outcome_bind]. rewrite (proj2 (Z.ltb_ge _ 2)) by lia.
  rewrite A1. cbn [mbind outcome_bind]. rewrite (proj2 (Z.ltb_ge _ _)) by lia. rewrite A3. cbn [mbind outcome_bind]. rewrite (proj2 (Z.ltb_ge _ _)) by lia. rewrite (sliceFrom_twice _ _ _ (39 + lenZ (hSession h)) (2 + lenZ (wordBytes (hCiphers h)) + 1 + lenZ (hCompression h)) ltac:(lia) ltac:(lia) R5 A4). cbn [mbind outcome_bind].
  unfold indexTLSServerNameFromExtensions. lens. rewrite (proj2 (Z.eqb_neq _ _)), (proj2 (Z.ltb_ge _ 2)) by lia. rewrite at16_first by (unfold fits; lia). cbn [mbind outcome_bind]. rewrite sliceFrom_written by (by lens). cbn [mbind outcome_bind]. rewrite Z.ltb_irrefl.
  rewrite Hes in He, Hx |- *. apply Forall_app in Hx as [Hx _]. set (es := before ++ _) in *. destruct (serverNameLoop_written before name after (S (length (extensionsBytes es))) 2 Hx Hbefore (proj2 He) (Nat.lt_succ_diag_r _)) as [i Ei]. fold es in Ei. rewrite Ei. by eexists.
Qed.

Lemma perform_all ops : perform (fun _ => None) ops = (ops, None).
Proof. induction ops as [|op ops IH]; [done|]. cbn [perform]. by rewrite IH. Qed.

(** C40.  A client hello is cut in two in its server name: for every well-formed hello of fewer than
    2^16 - 5 bytes whose name has a public suffix and a first label that is not empty, wherever
    the name stands among the extensions, a first write that does not fail returns the full length
    and the two pieces reach the server, as two packets, as two records of one packet, or as a
    record in each of two packets; the server puts the same hello together, and the cut is in the
    first label, as many bytes after its beginning as the random number says: within the label
    unless the number is zero, and right before it if it is. *)
Theorem hello_fragmented PublicSuffix (Intn : nat -> Z -> Z) c written h before name after label : (forall i n, 0 < n -> 0 <= Intn i n < n) -> splitPacket c || splitRecord c = true -> firstPacketWritten c = false ->
  helloOk h -> hExtensions h = before ++ ServerNameExt name :: after -> Forall (fun e => extType e <> sniExtensionType) before -> lenZ (helloBytes h) < 2 ^ 16 - 5 -> PublicSuffix name <> [] -> head (splitDots name) = Some label -> label <> [] ->
  let b := recordOf (lenZ (helloBytes h)) (helloBytes h) in
  exists p q ops pre post, Conn_Write PublicSuffix Intn c (fun _ => None) written b = Returns (ops, Ok (lenZ b), afterFirst c) /\
    length (writes ops) = (if splitPacket c then 2 else 1)%nat /\
    (if splitRecord c then p ++ q = helloBytes h /\ readRecords 3 (concat (writes ops)) = Some [(take 3 b, p); (take 3 b, q)] else p ++ q = b /\ concat (writes ops) = b) /\
    b = pre ++ name ++ post /\ startOf c + lenZ p = lenZ pre + Intn 0%nat (lenZ label).
Proof.
  intros Hrand Hsplit Hfirst Hok Hes Hbefore Hsize Hps Hlabel Hl b. destruct (index_hello h before name after Hok Hes Hbefore) as [i Hi]. fold b in Hi. set (s := mkServerName i (lenZ name) name) in *.
  assert (Hb : lenZ b < 2 ^ 16) by (unfold b, recordOf; lens; lia). destruct (labelsToSplit_spec PublicSuffix s) as (labels & El & Hne & _ & Hhead & Hone). specialize (Hone Hps). cbn [snName s] in Hhead. rewrite Hlabel in Hhead. destruct labels as [|l [|]]; try done. cbn in Hhead. injection Hhead as ->.
  pose proof (index_locates b Hb) as Hloc. rewrite Hi in Hloc. destruct Hloc as (pre & post & Eb & Ei & Hpre). destruct (writePlan_cut PublicSuffix Intn Hrand c b s Hb Hsplit Hfirst Hi) as (js & ops & Hinc & Hjl & _ & Hh & Hplan & Hw); [rewrite El; by repeat constructor|].
  rewrite El in Hjl. destruct js as [|j [|]]; try done. assert (H0 : 0 <= startOf c) by (unfold startOf; destruct (splitRecord c); lia). destruct (cutAt_concat b [j] (startOf c) H0 Hinc) as (Hc & Hf & _). cbn [increasing] in Hinc. cbn [head snName s snIndex] in Hh, Ei. rewrite Hlabel in Hh. cbn [default from_option id] in Hh. injection Hh as Hh.
  set (p := take (Z.to_nat (j - startOf c)) (drop (Z.to_nat (startOf c)) b)) in *. set (q := drop (Z.to_nat j) b) in *. cbn [cutAt] in Hc, Hf, Hw. fold p q in Hc, Hf, Hw. cbn [concat] in Hc. rewrite app_nil_r in Hc. exists p, q, ops, pre, post. split_and!; try done.
  - by rewrite (Conn_Write_plan _ _ _ _ _ _ _ Hplan), perform_all.
  - rewrite Hw. by destruct (splitPacket c).
  - assert (Hall : concat (writes ops) = concat (sent c b <$> [p; q])) by (rewrite Hw; destruct (splitPacket c); [done|cbn; by rewrite !app_nil_r]). rewrite Hall. unfold sent, startOf in *. destruct (splitRecord c).
    + split; [by rewrite Hc|]. apply (readRecords_written (take 3 b) [p; q]); [done| |cbn; lia]. eapply Forall_impl; [exact Hf|]. intros x [_ ?]. lia.
    + cbn in Hc. cbn. by rewrite app_nil_r.
  - assert (Ep : lenZ p = j - startOf c) by (unfold p; rewrite lenZ_take; [done|]; unfold lenZ in *; rewrite length_drop; lia). lia.
Qed.

(** ** Examples *)

Definition nameBytes (s : string) : bytes := String.list_byte_of_string s.
Definition helloFor (name : bytes) : hello := mkHello 0x0303 (replicate 32 x11) [] [0x1301; 0x1302] [x00] [GroupsExt [29; 23]; ServerNameExt name; OtherExt 16 [x00]].
Definition writtenHello (name : bytes) : bytes := recordOf (lenZ (helloBytes (helloFor name))) (helloBytes (helloFor name)).

(** The suffix org, and cuts in the middle or at the beginning *)
Definition suffixOrg (name : bytes) : bytes := match name with [] => [] | _ => nameBytes "org" end.
Definition middle (i : nat) (n : Z) : Z := n / 2.
Definition atBegin (i : nat) (n : Z) : Z := 0.

Lemma middle_below i n : 0 < n -> 0 <= middle i n < n.
Proof. intros Hn. unfold middle. split; [apply Z.div_pos; lia|apply Z.div_lt; lia]. Qed.

Lemma helloFor_ok : helloOk (helloFor (nameBytes "www.example.org")).
Proof. split; try done; [by repeat constructor|]. repeat constructor; cbn; try done. set_solver. Qed.

Lemma hello_fragmented_witness : let b := writtenHello (nameBytes "www.example.org") in exists p q ops, Conn_Write suffixOrg middle (NewConn true true true 0) (fun _ => None) 0 b = Returns (ops, Ok (lenZ b), afterFirst (NewConn true true true 0)) /\
  p ++ q = helloBytes (helloFor (nameBytes "www.example.org")) /\ readRecords 3 (concat (writes ops)) = Some [(take 3 b, p); (take 3 b, q)].
Proof.
  destruct (hello_fragmented suffixOrg middle (NewConn true true true 0) 0 (helloFor (nameBytes "www.example.org")) [GroupsExt [29; 23]] (nameBytes "www.example.org") [OtherExt 16 [x00]] (nameBytes "www") middle_below eq_refl eq_refl helloFor_ok eq_refl) as (p & q & ops & pre & post & H1 & _ & [H2 H3] & _); [by repeat constructor|done..|].
  exists p, q, ops. exact (conj H1 (conj H2 H3)).
Defined.

Lemma fragments_transparent_witness : let b := writtenHello (nameBytes "www.example.org") in exists parts ops, concat parts = b /\ (2 <= length parts)%nat /\ Conn_Write suffixOrg middle (NewConn false true false 0) (fun _ => None) 0 b = Returns (ops, Ok (lenZ b), afterFirst (NewConn false true false 0)).
Proof.
  set (b := writtenHello (nameBytes "www.example.org")). pose proof (fragments_transparent suffixOrg middle (NewConn false true false 0) b middle_below eq_refl eq_refl eq_refl) as H.
  assert (E : IndexTLSServerName b = Returns (Some (mkServerName 73 15 (nameBytes "www.example.org")))) by by vm_compute. rewrite E in H. rewrite decide_True in H by (vm_compute; by repeat constructor).
  destruct H as (parts & ops & H1 & _ & H2 & _ & _ & _ & H3). exists parts, ops. split; [exact H1|]. split; [exact H2|]. destruct (H3 (fun _ => None) 0) as (k & r & H4 & [[-> ->]|(i & op & e & _ & _ & [=] & _)]). by rewrite firstn_all in H4.
Defined.

(** A cut at the beginning of the first label: the whole name is in the second packet. *)
Example name_not_cut : let b := writtenHello (nameBytes "www.example.org") in
  writePlan suffixOrg atBegin (NewConn true true false 0) b = Returns (Some [SetNoDelay true; WriteAndWaitAck (take 73 b); WriteConn (drop 73 b); SetNoDelay false]) /\ take 15 (drop 73 b) = nameBytes "www.example.org".
Proof. by vm_compute. Qed.

(** Labels after the first are never cut. *)
Example only_first_label : labelsToSplit suffixOrg (mkServerName 73 15 (nameBytes "www.example.org")) = ([nameBytes "www"], 73).
Proof. by vm_compute. Qed.

(** An empty server name, or one with a dot in front *)
Example empty_name_panics : Conn_Write suffixOrg middle (NewConn true true true 0) (fun _ => None) 0 (writtenHello []) = Panics /\ Conn_Write suffixOrg middle (NewConn true true true 0) (fun _ => None) 0 (writtenHello (nameBytes ".org")) = Panics.
Proof. by vm_compute. Qed.

(** A configuration with fragment and without record_fragment *)
Example fragment_alone_ignored : ClientConn true true false 0 = None.
Proof. done. Qed.

(** An extension of 65532 bytes: four more are 0 in 16 bits, and the loop stays where it is. *)
Lemma long_extension_hangs exs ty : at16 (E := error) exs 0 = Returns ty -> ty <> sniExtensionType -> at16 (E := error) exs 2 = Returns 65532 -> 65536 <= lenZ exs -> forall fuel idx, serverNameLoop fuel idx exs = Hangs.
Proof.
  intros H1 Hty H2 Hlen. induction fuel as [|fuel IH]; intros idx; [done|]. cbn [serverNameLoop]. rewrite (proj2 (Z.leb_gt _ _)), (proj2 (Z.ltb_ge _ 4)) by lia. rewrite H1. cbn [mbind outcome_bind]. rewrite H2. cbn [mbind outcome_bind]. rewrite (proj2 (Z.ltb_ge _ _)) by lia.
  destruct (slice_in (E := error) exs 4 (4 + 65532)) as (sex & -> & _); [lia|lia|]. cbn [mbind outcome_bind]. rewrite (proj2 (Z.eqb_neq _ _)) by done. change (u16 (4 + 65532)) with 0. destruct (sliceFrom_in (E := error) exs 0) as [-> _]; [lia|]. cbn [mbind outcome_bind]. apply IH.
Qed.

Example long_extension_search : indexTLSServerNameFromExtensions (bigEndian 2 65535 ++ bigEndian 2 21 ++ bigEndian 2 65532 ++ replicate 65532 x00) = Hangs.
Proof.
  set (body := replicate 65532 x00). assert (Hb : lenZ body = 65532) by (unfold lenZ, body; rewrite length_replicate; by vm_compute). clearbody body. unfold indexTLSServerNameFromExtensions. lens. rewrite (proj2 (Z.eqb_neq _ _)), (proj2 (Z.ltb_ge _ 2)) by lia. rewrite at16_first by done. cbn [mbind outcome_bind]. rewrite sliceFrom_written by (by lens). cbn [mbind outcome_bind]. lens. rewrite (proj2 (Z.ltb_ge _ _)) by lia.
  apply (long_extension_hangs _ 21); [by apply at16_first|done|by apply at16_written|lens; lia].
Qed.
